(* ===== verification/_CoqProject ===== *)
-Q . S2P
Prelude.v
SigAlgo.v
ValidatorSet.v
Vote.v
Tendermint.v
Wal.v
Node.v
History.v
Agreement.v
Network.v
Liveness.v
LeaderSchedule.v
Rewards.v
Finality.v
Account.v
StateTree.v
Slots.v
StateRoot.v
Sharded.v
StateM.v
Wire.v
Payload.v
Transaction.v
Engine.v
Settlement.v
Vm.v
Token.v
TokenSpec.v
RawSolana.v
RawTron.v
Dispatch.v
HfiPay.v
HfiPaySpec.v
Swap.v
SwapSpec.v
Omni.v
Bridge.v
Svm.v
Scheduler.v
BlockExec.v
Parallel.v
Mempool.v
MempoolSpec.v
CritBit.v
CritTree.v
Ladder.v
Liquid.v
Clob.v
Book.v
BookSpec.v
Matching.v
Solvency.v
