(* ===== verification/Prelude.v ===== *)
(** * ACE Chain: a verification of its consensus, state and execution

    ACE Chain is a proof-of-stake chain in Rust.  This library models the parts
    of it that decide which block is final and what the resulting state is, as
    executable definitions, and proves them correct.

    ** The program and its parts

    A validator runs the consensus loop of ace-node/src/node.rs.  The loop feeds
    network messages, validated proposals and timeouts to the Tendermint state
    machine of ace-consensus, signs and broadcasts the votes it asks for, writes
    them to a write-ahead log, and applies a block once the machine commits it.
    Votes are counted by the vote collector against the validator set; the
    proposer of a round is drawn by the leader schedule.  After the commit a
    second machine tracks whether the block's validity proof arrives in time
    (soft to hard finality).  At the end of an epoch rewards are minted and paid.
    Blocks change the state tree of ace-model: accounts, expired stubs, contract
    storage, address indices and registries under one Merkle root.  What changes
    it are transactions: parsed from the wire, authorised and routed by the
    dispatcher of ace-n-vm to an engine, of which ace-engine is the native one and
    the SVM runs two programs, one for transfers and one for tokens.
    A node checks and charges the transactions of a block and runs them in
    batches of disjoint write sets, each on a copy of the state that is merged
    back; they come from the pool of ace-mempool.  Payment intents (ace-hfi-pay)
    are records of the tree that a hook of the dispatcher changes; spot markets
    (ace-liquid) keep an order book in the storage of an account; ace-defi has
    constant product pools and a bridge that mints tokens for external assets.

    ** Files

    - [Prelude]: results, machine integers at their width, byte encodings,
      digests, weighted sums, sorting by key, entries of a map in key order.
    - [SigAlgo] (ace-runtime/src/crypto/sig_algo.rs): tagged keys and signatures,
      wire format, verification dispatcher.
    - [ValidatorSet] (ace-consensus/src/validator_set.rs, quorum rule of
      ace-runtime/src/config.rs): the set and its operations.
    - [Vote] (ace-consensus/src/vote.rs): signed messages and the collector.
    - [Tendermint] (ace-consensus/src/tendermint.rs): the state machine, one
      definition per handler and timeout.
    - [Wal] (ace-consensus/src/wal.rs): the log as the bytes of its file.
    - [Node] (ace-node/src/node.rs, ace-p2p/src/messages.rs): message, proposal
      and timeout handlers around the state machine, [execute_tendermint_action],
      commit certificates, height changes, start-up.
    - [History], [Agreement], [Network]: the agreement proof.  [History] has the
      quorum argument over a ghost history of votes, [Agreement] the per-node
      invariant and its preservation by every handler, [Network] the step
      relation of a network of nodes with faulty validators.
    - [Liveness]: a round with an honest proposer and timely votes commits.
    - [LeaderSchedule] (ace-consensus/src/leader_schedule.rs): proposer selection.
    - [Rewards] (ace-consensus/src/rewards.rs): epochs, pools, distribution.
    - [Finality] (ace-runtime/src/consensus, ace-consensus/src/engine.rs): the
      finality machine, its timeouts and the engine operations on them.
    - [Account] (ace-model/src/account.rs): accounts, key ring, hashed bytes,
      stubs, resurrection proofs.
    - [StateTree] (ace-model/src/state_tree.rs): the tree and its operations.
    - [Slots]: 64-bit words in storage slots.
    - [StateRoot]: the Merkle root commits to the state.
    - [Sharded] (ace-model/src/sharded_state.rs): several state trees and the index
      of the accounts placed among them.
    - [StateM]: computations that change a state tree and may fail, for code that
      takes [&mut StateTree] and returns [Result], with weakest preconditions.
    - [Wire], [Payload] (ace-engine/src/executor.rs, codec) and [Transaction]
      (ace-runtime/src/types/transaction.rs, attestation.rs, capability.rs): bounds
      checked reading, operations, transactions, hashes and credentials.
    - [Engine] (ace-engine/src/executor.rs, transfer.rs): the native operations,
      their authorisation, and the execution of a transaction and of a block.
    - [Settlement] (ace-node/src/governance.rs, [apply_completed_block]): a block
      counts towards its epoch, rewards and affiliate fees are paid to accounts.
    - [Vm] (ace-engine/src/vm.rs, ace-n-vm/src/error.rs): receipts and errors.
    - [Token] (ace-n-vm/src/token_runtime.rs): the token tables in the storage of
      the token program; [TokenSpec]: the ledger they stand for, and the proof.
    - [RawSolana] (ace-n-vm/src/raw_solana.rs) and [RawTron]
      (ace-n-vm/src/raw_tron.rs): transactions signed on Solana and on Tron.
    - [Dispatch] (ace-n-vm/src/dispatcher.rs, native.rs): the dispatcher.
    - [HfiPay] (ace-hfi-pay/src/onchain.rs and what it calls): payment intents, the
      hook and its six handlers; [HfiPaySpec]: the life cycle they implement.
    - [Swap] (ace-defi/src/swap.rs): the pools; [SwapSpec]: their reserves and the
      value of their shares.
    - [Omni] (ace-defi/src/types.rs, canonical.rs, reserve.rs, risk.rs,
      compartment.rs, intent.rs, wire.rs): external assets, their reserves and the
      oAssets minted for them; [Bridge] (ace-defi/src/registry.rs, bridge.rs,
      deposit.rs, withdraw.rs, settle.rs, runtime.rs, and the bridge transactions of
      ace-node/src/node.rs): wrapped assets, the bridge manager, settlement of a swap
      with a withdrawal.
    - [Svm] (ace-n-vm/src/svm/programs.rs, engine.rs): the SVM engine with the
      system and the token program; blocks of native and Solana transactions.
    - [Scheduler] (ace-n-vm/src/scheduler.rs): write sets and batches.
    - [BlockExec] (ace-node/src/node.rs, [execute_transactions_with_fees] and
      what it calls): checks, fees, batches, merge, touched accounts.
    - [Parallel]: running a batch on copies and merging is running it serially.
    - [Mempool] (ace-mempool/src/pool.rs, validator.rs, zk_authorization.rs): the
      transaction pool; [MempoolSpec]: its invariant, and the order of draining.
    - [CritBit] (ace-liquid/src/critbit.rs): the price ladders, crit-bit trees in
      storage slots.  [CritTree] has the trees they stand for, [Ladder] the proof.
    - [Liquid] (ace-liquid/src/types.rs, error.rs, state.rs) and [Clob]
      (ace-liquid/src/clob.rs): stored records, balances, counters and queues of a
      market, and the order book on them.
    - [Book]: what the storage of a market means, as an abstract book, and the
      specification of every primitive of [Liquid] over it; [BookSpec]: a
      reference order book and its properties; [Matching]: the code refines it.
    - [Solvency]: a market together with the token ledger.

    ** Correspondence

    Each definition carries the name of the function or type it translates, with
    a prefix where two types share a name.  A mutating method takes the state and
    returns it with its result; a fallible one returns [result] or [option], and
    [None] where the source panics.  [[u8; 32]] and [[u8; 20]] are the numbers
    their bytes spell in big-endian order, so their order is the one of the
    source.  HashMap and BTreeMap are [gmap]; where the order of iteration matters
    [entries] restores it.  [u64] and [u32] arithmetic wraps, saturates or is
    checked as the source says.  SHA-256, the signature schemes, the JSON codec of
    the log and the verification of finality certificates are third-party code:
    they are arguments, and what a theorem needs of them (an output of 32 bytes,
    no collision among the messages at hand, unforgeability of honest votes, a
    codec round trip) is a hypothesis named in its statement.

    ** What is proved

    - Consensus: no two nodes commit different blocks at a height, by quorum or
      by certificate, while less than a third of the stake is faulty or restarted
      (a validator that is restarted may vote again, so it counts as faulty); a
      validator that runs the code without a restart votes once per round; a good
      round commits; the collector counts each validator's first valid vote at its
      canonical stake, finds a quorum exactly when there is one and records exactly
      the validators with conflicting votes; vote messages are distinct; the log,
      with its crashes, returns the entries that survive, and the last votes and lock
      among them.
    - Validator set and proposers: the set stays sorted with an exact total; a
      proposer is drawn in proportion to stake.
    - Rewards: distribution pays exactly the pool and the fees; the minted supply is
      capped, all balances and held fees add up to what was there, minted or created
      by execution, and crediting the rewards cannot fail.
    - Finality: hard only after a quorum and a verified certificate; slashing and
      requeueing once and in order; timeouts roll an unproved block back.
    - State: addresses resolve to their accounts; expiry and resurrection are
      inverse and resurrection needs the expired data; sweeping moves no balance;
      replay commitments are consumed once; the root binds the whole state; with
      several shards every account is in one of them and is found there.
    - Transactions: payloads and transactions survive encoding and no bytes make
      their parsers panic; the hash identifies a transaction; a transaction signed
      on Tron or on Solana runs at most once, and so does a native one; the Solana
      parser reads back every transaction and never panics.
    - Tokens: the token runtime is a plain ledger; the supply of a mint is what
      its owners hold; a call of the token program takes from others only what
      they allowed and mints only for the authority.
    - Blocks: a block of native and Solana transactions conserves money ([Conserving]
      is what the dispatcher asks of an engine, and the native engine and the SVM are
      shown to implement it); batches are free of conflicts and keep the order of
      each sender; parallel execution of native transactions under credentials is
      serial execution in the order of the batches, down to the state root and the
      receipts.
    - Pool: whatever is called, in whatever interleaving, the indices of the pool
      agree and it keeps its bound; blocks are filled first in, first out.
    - Payment intents: every call of the hook is a step of the life cycle with the
      payment that belongs to it ([hook_effect] is the abstract specification);
      over any blocks an intent is paid out at most once; a funded intent is
      backed and can be claimed.
    - Markets: the ladders are finite sets of prices; the order book code gives
      the answers of a reference order book; both assets are conserved, bids stay
      below asks, orders are served by price and age, and nothing outside of the
      market changes; the tokens of a market cover what it owes, so that open orders
      can be cancelled and free balances withdrawn.
    - Pools: every pool owns its recorded reserves, no operation lowers the value of a
      share, shares can be redeemed, and a swap pays the constant product amount as
      long as its numerator fits 128 bits.  Of [Omni] and [Bridge] nothing is proved;
      they make the bridge executable.

    Some theorems record behaviour that is not what the code means: a node
    restarted from its log votes again ([restart_votes_again]), a missed timeout
    window leaves a block soft for ever ([missed_window_stuck]), rewriting an
    account can take another account's address ([rewrite_takes_address]), the
    encoder of a key change loses the algorithm ([set_auth_pubkey_loses_algorithm]),
    a wrapping length makes the Tron parser panic ([tron_panics_on_length_wrap]),
    anyone can recreate an expired account ([expired_account_taken_over]), a
    batch loses the marks of spent zero-knowledge authorisations
    ([replay_marks_lost]), the creation of an account counts as charged
    without a fee ([creation_charged_for_free]), a mint without decimals is lost
    ([zero_decimals_mint_lost]), a program call under a credential can be
    replayed ([svm_invoke_replays]), resurrecting an account can hide a newer
    one in another shard ([resurrection_hides_account]), a relayed transaction
    without a credential takes the nonce of the sender it names
    ([forged_placeholder_blocks]), a payment through the hook to oneself creates
    money ([self_payment_mints]), the registration of a recipient can be taken
    over ([registration_taken_over]), anybody can set the key of a deposit account
    ([escrow_key_taken]), a payment through the hook destroys an expired
    account ([payment_drops_stub]), a line of the log that is not UTF-8 hides the whole
    log ([recover_bad_line]), a node can come up locked on the block of an earlier
    height ([startup_restores_old_lock]), and a pool entry can be filed twice
    ([zk_copy_filed_twice]).

    ** Bounds and fuel

    [execute_action] recurses through buffered votes with fuel 5, which
    [execute_terminates] shows is never exhausted.  Rejection sampling of a
    proposer has no bound in the source; it is fuelled and [proposer_defined]
    shows that any fuel past the first accepted draw gives the same proposer.
    The Merkle loop gets as many rounds as leaves, enough by
    [compute_root_total].  The field loop of the Tron parser gets the length of
    the data, and running out counts as a panic, so that
    [tron_panics_on_length_wrap] also shows it is enough.  Walks in a price ladder
    get 65 steps, one more than a key has bits, and the matching loop a turn for
    each order of the market and one more; [ladders_refine_sets] and
    [market_conserves] show that neither runs out.  The search for the next nonce
    of a sender gets a turn for each ready one and one more, enough by
    [next_nonce_loop_stops] unless the nonces reach 2^64.  Stakes are assumed to
    sum to less than 2^64 where the source adds them without a check.

    ** Not modelled

    Networking, RPC, storage engines, the wall clock and the proof systems are
    input and output or third-party code; the network and the clock appear as
    freely chosen events.  Code of the repository that is not translated: the
    sharded execution of a block, the EVM, Tron and Bitcoin machines, the EVM and
    Bitcoin transaction parsers (arguments of the dispatcher, about which nothing is
    assumed), the check of committee certificates and the omission evidence (fields of
    [NodeEnv], likewise, as are the system transactions of the bridge and of the order
    book in the execution of a block), the payloads of the order book, the node and
    affiliate registries (the reward profiles and fees due are arguments of the
    settlement), the relay of HFI Pay and validator admission.  A Rust
    panic is an error value of the model; what it leaves of the state is not meant to be
    observed.  Values and foreign messages formatted into an error text are left
    out of it.
    All nodes are assumed to use the same validator set for a height.

    ** This file

    Machine integers are [Z] kept at their width: the wrapping, checked and
    saturating operations are written out here with the lemmas that remove them
    when no overflow happens.  The file also holds the weighted-sum lemmas behind
    every quorum argument and the hint database [ace]. *)

From stdpp Require Export base list gmap fin_maps sets strings.
From stdpp Require Export sorting.
From Stdlib Require Export ZArith Lia Sorting.Sorted.

Global Set Default Goal Selector "1".
Declare Scope ace_scope.
Delimit Scope ace_scope with ace.
Local Open Scope Z_scope.

Create HintDb ace.

(* ------------------------------------------------------------------ *)
(** * Results *)

Inductive result (E A : Type) : Type :=
| Ok (a : A)
| Err (e : E).
Arguments Ok {E A} a.
Arguments Err {E A} e.

Definition rbind {E A B} (r : result E A) (k : A -> result E B) : result E B :=
  match r with
  | Ok a => k a
  | Err e => Err e
  end.

(** [let?] is Rust's [?] operator. *)
Notation "'let?' x := r 'in' k" := (rbind r (fun x => k))
  (at level 10, x pattern, r at level 100, k at level 200)
  : ace_scope.

Definition ok_or {E A} (o : option A) (e : E) : result E A :=
  match o with
  | Some a => Ok a
  | None => Err e
  end.

Definition is_ok {E A} (r : result E A) : bool :=
  match r with
  | Ok _ => true
  | Err _ => false
  end.

Lemma rbind_ok {E A B} (r : result E A) (k : A -> result E B) b :
  rbind r k = Ok b -> exists a, r = Ok a /\ k a = Ok b.
Proof. destruct r; simpl; naive_solver. Qed.

Lemma ok_or_ok {E A} (o : option A) (e : E) a : ok_or o e = Ok a -> o = Some a.
Proof. destruct o; naive_solver. Qed.

(* ------------------------------------------------------------------ *)
(** * Machine integers *)

Definition u8_max : Z := 2 ^ 8 - 1.
Definition u32_max : Z := 2 ^ 32 - 1.
Definition u64_max : Z := 2 ^ 64 - 1.
Definition u128_max : Z := 2 ^ 128 - 1.

Definition is_u8 (x : Z) : Prop := 0 <= x <= u8_max.
Definition is_u32 (x : Z) : Prop := 0 <= x <= u32_max.
Definition is_u64 (x : Z) : Prop := 0 <= x <= u64_max.
Definition is_u128 (x : Z) : Prop := 0 <= x <= u128_max.

(** [a + b] on [u32] and [u64] in a release build. *)
Definition u32_add (a b : Z) : Z := (a + b) mod 2 ^ 32.
Definition u64_add (a b : Z) : Z := (a + b) mod 2 ^ 64.
Definition u64_sub (a b : Z) : Z := (a - b) mod 2 ^ 64.
Definition u64_mul (a b : Z) : Z := (a * b) mod 2 ^ 64.

Definition u64_checked_add (a b : Z) : option Z :=
  if a + b <=? u64_max then Some (a + b) else None.
Definition u64_checked_sub (a b : Z) : option Z :=
  if b <=? a then Some (a - b) else None.
Definition u64_saturating_add (a b : Z) : Z := Z.min (a + b) u64_max.
Definition u64_saturating_sub (a b : Z) : Z := Z.max (a - b) 0.
Definition u64_saturating_mul (a b : Z) : Z := Z.min (a * b) u64_max.
Definition u128_checked_mul (a b : Z) : option Z :=
  if a * b <=? u128_max then Some (a * b) else None.
(** [u64::try_from] on a [u128]. *)
Definition u64_try_from (x : Z) : option Z :=
  if x <=? u64_max then Some x else None.

Ltac unfold_ints :=
  unfold is_u8, is_u32, is_u64, is_u128, u8_max, u32_max, u64_max, u128_max in *.

(** [ilia]: [lia] after exposing the integer widths and boolean tests. *)
Ltac ilia := unfold_ints; lia.

Lemma u32_add_small a b : 0 <= a + b <= u32_max -> u32_add a b = a + b.
Proof. intros; unfold u32_add; apply Z.mod_small; ilia. Qed.

Lemma u64_add_small a b : 0 <= a + b <= u64_max -> u64_add a b = a + b.
Proof. intros; unfold u64_add; apply Z.mod_small; ilia. Qed.

Lemma u64_sub_small a b : 0 <= a - b <= u64_max -> u64_sub a b = a - b.
Proof. intros; unfold u64_sub; apply Z.mod_small; ilia. Qed.

Lemma u64_add_range a b : is_u64 (u64_add a b).
Proof. unfold u64_add. pose proof (Z.mod_pos_bound (a + b) (2 ^ 64)). ilia. Qed.

Lemma u64_checked_add_Some a b c :
  u64_checked_add a b = Some c <-> c = a + b /\ a + b <= u64_max.
Proof. unfold u64_checked_add. case_match; naive_solver lia. Qed.

Lemma u64_checked_add_None a b :
  u64_checked_add a b = None <-> u64_max < a + b.
Proof. unfold u64_checked_add. case_match; naive_solver lia. Qed.

Lemma u64_saturating_add_small a b : a + b <= u64_max -> u64_saturating_add a b = a + b.
Proof. unfold u64_saturating_add; lia. Qed.

Lemma u64_saturating_sub_small a b : b <= a -> u64_saturating_sub a b = a - b.
Proof. unfold u64_saturating_sub; lia. Qed.

Lemma u64_saturating_mul_small a b : a * b <= u64_max -> u64_saturating_mul a b = a * b.
Proof. unfold u64_saturating_mul; lia. Qed.

#[export] Hint Resolve u64_add_range : ace.

(* ------------------------------------------------------------------ *)
(** * Booleans as decisions *)

Ltac bool_prop :=
  repeat match goal with
  | H : _ && _ = true |- _ => apply andb_true_iff in H as [? ?]
  | H : _ && _ = false |- _ => apply andb_false_iff in H
  | H : _ || _ = true |- _ => apply orb_true_iff in H
  | H : _ || _ = false |- _ => apply orb_false_iff in H as [? ?]
  | H : negb _ = true |- _ => apply negb_true_iff in H
  | H : negb _ = false |- _ => apply negb_false_iff in H
  | H : (_ =? _) = true |- _ => apply Z.eqb_eq in H
  | H : (_ =? _) = false |- _ => apply Z.eqb_neq in H
  | H : (_ <=? _) = true |- _ => apply Z.leb_le in H
  | H : (_ <=? _) = false |- _ => apply Z.leb_gt in H
  | H : (_ <? _) = true |- _ => apply Z.ltb_lt in H
  | H : (_ <? _) = false |- _ => apply Z.ltb_ge in H
  | H : bool_decide _ = true |- _ => apply bool_decide_eq_true in H
  | H : bool_decide _ = false |- _ => apply bool_decide_eq_false in H
  end.

(* ------------------------------------------------------------------ *)
(** * Sums *)

Definition Zsum (l : list Z) : Z := foldr Z.add 0 l.
Arguments Zsum : simpl never.

Lemma Zsum_app l1 l2 : Zsum (l1 ++ l2) = Zsum l1 + Zsum l2.
Proof. induction l1 as [|x l1 IH]; simpl; [done|]. unfold Zsum in *; simpl; lia. Qed.

Lemma Zsum_cons x l : Zsum (x :: l) = x + Zsum l.
Proof. done. Qed.

Lemma Zsum_nil : Zsum [] = 0.
Proof. done. Qed.

Lemma Zsum_snoc l x : Zsum (l ++ [x]) = Zsum l + x.
Proof. rewrite Zsum_app, Zsum_cons, Zsum_nil. lia. Qed.

#[global] Instance Zsum_perm : Proper ((≡ₚ) ==> (=)) Zsum.
Proof. induction 1; unfold Zsum in *; simpl; lia. Qed.

Lemma Zsum_nonneg l : Forall (fun x => 0 <= x) l -> 0 <= Zsum l.
Proof. induction 1; unfold Zsum in *; simpl; lia. Qed.

Lemma Zsum_map_const {A} (c : Z) (l : list A) :
  Zsum (map (fun _ => c) l) = c * Z.of_nat (length l).
Proof. induction l as [|x l IH]; simpl; [rewrite Zsum_nil; lia|]. rewrite Zsum_cons, IH. lia. Qed.

(** Changing the value of one member of a duplicate-free list. *)
Lemma Zsum_change {A} (f g : A -> Z) (l : list A) u d :
  NoDup l -> u ∈ l -> g u = f u + d -> (forall x, x <> u -> g x = f x) ->
  Zsum (g <$> l) = Zsum (f <$> l) + d.
Proof.
  intros Hnd Hu Eu Eo. apply list_elem_of_split in Hu as (l1 & l2 & ->).
  apply NoDup_app in Hnd as (_ & H1 & H2). apply NoDup_cons in H2 as [H2 _].
  assert (forall k : list A, u ∉ k -> g <$> k = f <$> k) as Ek.
  { intros k Hk. apply list_fmap_ext. intros i x Hx. apply Eo. intros ->.
    apply Hk. by apply list_elem_of_lookup_2 in Hx. }
  rewrite !fmap_app, !fmap_cons, !Zsum_app, !Zsum_cons, Eu, (Ek l2), (Ek l1); [lia| |done].
  intros Hu. apply (H1 u Hu). by left.
Qed.

(** A member of a non-negative sum, and two members of it. *)
Lemma Zsum_elem_le {A} (f : A -> Z) (l : list A) u :
  (forall x, x ∈ l -> 0 <= f x) -> u ∈ l -> f u <= Zsum (f <$> l).
Proof.
  intros Hf Hu. apply list_elem_of_split in Hu as (l1 & l2 & ->).
  assert (0 <= Zsum (f <$> l1) /\ 0 <= Zsum (f <$> l2)) as [? ?].
  { split; apply Zsum_nonneg, Forall_fmap, Forall_forall; intros x Hx; apply Hf; set_solver. }
  rewrite fmap_app, fmap_cons, Zsum_app, Zsum_cons. lia.
Qed.

Lemma Zsum_two_le {A} (f : A -> Z) (l : list A) u v :
  (forall x, x ∈ l -> 0 <= f x) -> u ∈ l -> v ∈ l -> u <> v -> f u + f v <= Zsum (f <$> l).
Proof.
  intros Hf Hu Hv Hne. apply list_elem_of_split in Hu as (l1 & l2 & ->).
  rewrite fmap_app, fmap_cons, Zsum_app, Zsum_cons.
  assert (v ∈ l1 ++ l2) as Hv' by set_solver.
  pose proof (Zsum_elem_le f (l1 ++ l2) v) as H. rewrite fmap_app, Zsum_app in H.
  enough (f v <= Zsum (f <$> l1) + Zsum (f <$> l2)) by lia. apply H; [|done].
  intros x Hx. apply Hf. set_solver.
Qed.

(** The weight of the elements of [l] that satisfy [P]. *)
Definition wsum {A} (w : A -> Z) (P : A -> bool) (l : list A) : Z :=
  Zsum (map w (List.filter P l)).

Section weights.
Context {A : Type} (w : A -> Z).

Lemma wsum_nil P : wsum w P [] = 0.
Proof. done. Qed.

Lemma wsum_cons P x l :
  wsum w P (x :: l) = (if P x then w x else 0) + wsum w P l.
Proof. unfold wsum; simpl. destruct (P x); simpl; unfold Zsum; simpl; lia. Qed.

Lemma wsum_app P l1 l2 : wsum w P (l1 ++ l2) = wsum w P l1 + wsum w P l2.
Proof. induction l1 as [|x l1 IH]; simpl; [done|]. rewrite !wsum_cons; lia. Qed.

Implicit Types (P Q : A -> bool) (l : list A).

Lemma wsum_nonneg P l : Forall (fun x => 0 <= w x) l -> 0 <= wsum w P l.
Proof. induction 1 as [|x l Hx ? IH]; [done|]. rewrite wsum_cons. destruct (P x); lia. Qed.

Lemma wsum_mono P Q l :
  Forall (fun x => 0 <= w x) l ->
  (forall x, x ∈ l -> P x = true -> Q x = true) -> wsum w P l <= wsum w Q l.
Proof.
  induction 1 as [|x l Hx ? IH]; intros HPQ; [done|]. rewrite !wsum_cons.
  assert (wsum w P l <= wsum w Q l) by (apply IH; intros; apply HPQ; [by right|done]).
  specialize (HPQ x ltac:(by left)). destruct (P x), (Q x); naive_solver lia.
Qed.

(** Inclusion-exclusion: two predicates overlap by at least the excess of
    their weights over the total. *)
Lemma wsum_overlap P Q l :
  Forall (fun x => 0 <= w x) l ->
  wsum w P l + wsum w Q l <=
  wsum w (fun x => P x && Q x) l + wsum w (fun _ => true) l.
Proof.
  induction 1 as [|x l Hx ? IH]; [done|]. rewrite !wsum_cons.
  destruct (P x), (Q x); simpl; lia.
Qed.

Lemma wsum_split P Q l :
  wsum w P l = wsum w (fun x => P x && Q x) l + wsum w (fun x => P x && negb (Q x)) l.
Proof.
  induction l as [|x l IH]; [done|]. rewrite !wsum_cons.
  destruct (P x), (Q x); simpl; lia.
Qed.

(** A positive weight has a member. *)
Lemma wsum_pos_elem P l : 0 < wsum w P l -> exists x, x ∈ l /\ P x = true.
Proof.
  induction l as [|x l IH]; [done|]. rewrite wsum_cons.
  destruct (P x) eqn:E; [exists x; split; [by left|done]|].
  intros (y & ? & ?)%IH. exists y. split; [by right|done].
Qed.
End weights.

Lemma wsum_ext {A} (w : A -> Z) (P Q : A -> bool) (l : list A) :
  (forall x, x ∈ l -> P x = Q x) -> wsum w P l = wsum w Q l.
Proof.
  induction l as [|x l IH]; intros H; [done|]. rewrite !wsum_cons.
  rewrite (H x) by (by left). rewrite IH; [done|]. intros; apply H; by right.
Qed.

(** Turning one member of a duplicate-free list on adds its weight. *)
Lemma wsum_add {A} (w : A -> Z) (P Q : A -> bool) (l : list A) (a : A) :
  NoDup l -> a ∈ l -> P a = false -> Q a = true ->
  (forall x, x <> a -> P x = Q x) -> wsum w Q l = wsum w P l + w a.
Proof.
  intros Hnd Ha HP HQ Hne. induction Hnd as [|x l Hx Hnd IH]; [by apply elem_of_nil in Ha|].
  rewrite !wsum_cons. apply elem_of_cons in Ha as [->|Ha].
  - rewrite HP, HQ. rewrite (wsum_ext w P Q l); [lia|]. intros y Hy. apply Hne. by intros ->.
  - rewrite (Hne x) by (by intros ->). rewrite IH by done. lia.
Qed.

(** A duplicate-free list of members of [l] satisfying [P] weighs at most what
    [P] weighs in [l]. *)
Lemma Zsum_le_wsum {A} `{EqDecision A} (w : A -> Z) (P : A -> bool) (l ks : list A) :
  Forall (fun x => 0 <= w x) l -> NoDup ks ->
  (forall k, k ∈ ks -> k ∈ l /\ P k = true) ->
  Zsum (map w ks) <= wsum w P l.
Proof.
  intros Hnn. revert ks. induction Hnn as [|x l' Hx Hnn IH]; intros ks Hnd Hks.
  { destruct ks as [|k ks]; [done|]. destruct (Hks k ltac:(by left)) as [[]%elem_of_nil _]. }
  rewrite wsum_cons. destruct (decide (x ∈ ks)) as [Hin|Hin].
  - apply list_elem_of_split in Hin as (k1 & k2 & ->).
    assert (P x = true) as ->.
    { apply (Hks x). apply elem_of_app; right; by left. }
    rewrite map_app, Zsum_app; simpl; rewrite Zsum_cons.
    specialize (IH (k1 ++ k2)). rewrite map_app, Zsum_app in IH.
    apply NoDup_app in Hnd as (Hnd1 & Hdisj & [Hx2 Hnd2]%NoDup_cons).
    enough (Zsum (map w k1) + Zsum (map w k2) <= wsum w P l') by lia.
    apply IH.
    + apply NoDup_app; split_and!; [done| |done]. intros y ? ?; eapply Hdisj; [done|by right].
    + intros k Hk. assert (k <> x).
      { intros ->. apply elem_of_app in Hk as [Hk|Hk]; [|done].
        eapply Hdisj; [done|by left]. }
      destruct (Hks k) as [[->|?]%elem_of_cons ?]; [|done|done].
      apply elem_of_app in Hk as [?|?]; apply elem_of_app; [by left|right; by right].
  - enough (Zsum (map w ks) <= wsum w P l') by (destruct (P x); lia).
    apply IH; [done|]. intros k Hk.
    destruct (Hks k Hk) as [[->|?]%elem_of_cons ?]; [done|done].
Qed.

(* ------------------------------------------------------------------ *)
(** * Case analysis *)

(** Split every [if] and [match] in the goal or in [H], discharging the
    impossible branches. *)
Ltac split_matches := repeat (case_match; simplify_eq/=; try done).
Ltac split_matches_in H :=
  repeat match type of H with
  | context [match ?x with _ => _ end] =>
      first [is_var x; destruct x | destruct x eqn:?]; simplify_eq/=; try done
  end.

(* ------------------------------------------------------------------ *)
(** * Identifiers *)

(** A 32-byte array, as the number its bytes spell in big-endian order. *)
Abbreviation AccountId := Z (only parsing).
Abbreviation Hash := Z (only parsing).

(* ------------------------------------------------------------------ *)
(** * Bytes *)

Definition is_byte (b : Z) : Prop := 0 <= b < 256.

(** [to_le_bytes] of an [n]-byte integer. *)
Fixpoint le_bytes (n : nat) (x : Z) : list Z :=
  match n with
  | O => []
  | S n => x mod 256 :: le_bytes n (x / 256)
  end.

(** [from_le_bytes]. *)
Fixpoint le_num (l : list Z) : Z :=
  match l with
  | [] => 0
  | b :: l => b + 256 * le_num l
  end.

Definition be_bytes (n : nat) (x : Z) : list Z := reverse (le_bytes n x).

Lemma length_le_bytes n x : length (le_bytes n x) = n.
Proof. revert x; induction n; intros; simpl; auto. Qed.

Lemma le_bytes_byte n x : Forall is_byte (le_bytes n x).
Proof.
  revert x; induction n; intros; simpl; constructor; [|done].
  unfold is_byte; pose proof (Z.mod_pos_bound x 256); lia.
Qed.

Lemma le_num_bytes n x : 0 <= x < 256 ^ Z.of_nat n -> le_num (le_bytes n x) = x.
Proof.
  revert x; induction n as [|n IH]; intros x Hx; simpl.
  { simpl in Hx; lia. }
  rewrite IH; [pose proof (Z.div_mod x 256); lia|].
  rewrite Nat2Z.inj_succ, Z.pow_succ_r in Hx by lia.
  split; [apply Z.div_pos; lia|apply Z.div_lt_upper_bound; lia].
Qed.

Lemma le_num_range l :
  Forall is_byte l -> 0 <= le_num l < 256 ^ Z.of_nat (length l).
Proof.
  induction 1 as [|b l Hb Hl IH]; simpl; [lia|].
  rewrite Nat2Z.inj_succ, Z.pow_succ_r by lia. unfold is_byte in Hb. lia.
Qed.

Lemma le_bytes_num l : Forall is_byte l -> le_bytes (length l) (le_num l) = l.
Proof.
  induction 1 as [|b l Hb Hl IH]; simpl; [done|]. unfold is_byte in Hb.
  rewrite (Z.mul_comm 256), Z_mod_plus_full, Z.div_add, Z.mod_small, Z.div_small by lia.
  by rewrite Z.add_0_l, IH.
Qed.

Lemma le_bytes_inj n x y :
  0 <= x < 256 ^ Z.of_nat n -> 0 <= y < 256 ^ Z.of_nat n ->
  le_bytes n x = le_bytes n y -> x = y.
Proof. intros Hx Hy E. by rewrite <-(le_num_bytes n x), <-(le_num_bytes n y), E. Qed.

Lemma length_be_bytes n x : length (be_bytes n x) = n.
Proof. unfold be_bytes. by rewrite length_reverse, length_le_bytes. Qed.

Lemma be_bytes_byte n x : Forall is_byte (be_bytes n x).
Proof. apply Forall_reverse, le_bytes_byte. Qed.

Lemma be_bytes_inj n x y :
  0 <= x < 256 ^ Z.of_nat n -> 0 <= y < 256 ^ Z.of_nat n ->
  be_bytes n x = be_bytes n y -> x = y.
Proof. intros Hx Hy E%(inj reverse). by eapply le_bytes_inj. Qed.

(** The number a big-endian byte array spells. *)
Definition be_num (l : list Z) : Z := le_num (reverse l).

Lemma be_num_bytes n x : 0 <= x < 256 ^ Z.of_nat n -> be_num (be_bytes n x) = x.
Proof. intros. unfold be_num, be_bytes. rewrite reverse_involutive. by apply le_num_bytes. Qed.

Lemma be_bytes_num l : Forall is_byte l -> be_bytes (length l) (be_num l) = l.
Proof.
  intros H. unfold be_num, be_bytes. rewrite <-(length_reverse l).
  rewrite le_bytes_num by by apply Forall_reverse. apply reverse_involutive.
Qed.

Lemma be_num_range l : Forall is_byte l -> 0 <= be_num l < 256 ^ Z.of_nat (length l).
Proof.
  intros H. unfold be_num. rewrite <-(length_reverse l). apply le_num_range. by apply Forall_reverse.
Qed.

(** A 32-byte array read as a number. *)
Definition is_u256 (x : Z) : Prop := 0 <= x < 256 ^ 32.

(** What SHA-256 promises about the shape of its output. *)
Definition digest_shape (sha256 : list Z -> list Z) : Prop :=
  forall m, length (sha256 m) = 32%nat /\ Forall is_byte (sha256 m).

(** No two of the messages [ms] collide. *)
Definition collision_free (sha256 : list Z -> list Z) (ms : list (list Z)) : Prop :=
  forall x y, x ∈ ms -> y ∈ ms -> sha256 x = sha256 y -> x = y.

(** The digest of [m] as the number its 32 bytes spell. *)
Definition digest (sha256 : list Z -> list Z) (m : list Z) : Z := be_num (sha256 m).

Lemma digest_range sha256 m : digest_shape sha256 -> is_u256 (digest sha256 m).
Proof.
  intros Hs. destruct (Hs m) as [Hl Hb]. pose proof (be_num_range _ Hb) as H.
  rewrite Hl in H. done.
Qed.

Lemma digest_bytes sha256 m :
  digest_shape sha256 -> be_bytes 32 (digest sha256 m) = sha256 m.
Proof.
  intros Hs. destruct (Hs m) as [Hl Hb]. unfold digest. rewrite <-Hl. by apply be_bytes_num.
Qed.

Lemma digest_eq sha256 x y :
  digest_shape sha256 -> digest sha256 x = digest sha256 y -> sha256 x = sha256 y.
Proof. intros Hs E. by rewrite <-(digest_bytes sha256 x), <-(digest_bytes sha256 y), E. Qed.

(** The bytes of an ASCII literal [b"..."]. *)
Definition ascii_bytes (s : string) : list Z :=
  map (fun a => Z.of_N (Ascii.N_of_ascii a)) (String.list_ascii_of_string s).

#[export] Hint Resolve le_bytes_byte be_bytes_byte : ace.
Arguments le_bytes : simpl never.
Arguments le_num : simpl never.

(* ------------------------------------------------------------------ *)
(** * Stable sorting by a key ([sort_by] with a key comparison) *)

Section sort_by.
Context {A : Type} (key : A -> Z).

Fixpoint insert_by (x : A) (l : list A) : list A :=
  match l with
  | [] => [x]
  | y :: l' => if key x <=? key y then x :: l else y :: insert_by x l'
  end.

Definition sort_by (l : list A) : list A := foldr insert_by [] l.

Lemma insert_by_perm x l : insert_by x l ≡ₚ x :: l.
Proof.
  induction l as [|y l IH]; simpl; [done|]. case_match; [done|].
  rewrite IH. apply Permutation_swap.
Qed.

Lemma sort_by_perm l : sort_by l ≡ₚ l.
Proof. induction l as [|x l IH]; simpl; [done|]. by rewrite insert_by_perm, IH. Qed.

Lemma insert_by_sorted x l :
  StronglySorted (fun a b => key a <= key b) l ->
  StronglySorted (fun a b => key a <= key b) (insert_by x l).
Proof.
  induction 1 as [|y l Hl IH Hy]; simpl; [by repeat constructor|].
  case_match eqn:E; bool_prop.
  - constructor; [by constructor|]. constructor; [done|].
    eapply Forall_impl; [done|]. simpl; lia.
  - constructor; [done|]. rewrite insert_by_perm. constructor; [lia|done].
Qed.

Lemma sort_by_sorted l : StronglySorted (fun a b => key a <= key b) (sort_by l).
Proof. induction l; simpl; [constructor|by apply insert_by_sorted]. Qed.

(** A strictly sorted list is determined by its elements. *)
Lemma sort_by_id l :
  StronglySorted (fun a b => key a <= key b) l -> sort_by l = l.
Proof.
  induction 1 as [|x l Hl IH Hx]; simpl; [done|]. rewrite IH.
  destruct l as [|y l]; simpl; [done|]. inversion Hx as [|? ? Hxy]; subst.
  apply Z.leb_le in Hxy. by rewrite Hxy.
Qed.
End sort_by.

(** The entries of a map in key order, as a BTreeMap yields them. *)
Definition entries {V} (m : gmap Z V) : list (Z * V) := sort_by fst (map_to_list m).

Lemma entries_perm {V} (m : gmap Z V) : entries m ≡ₚ map_to_list m.
Proof. apply sort_by_perm. Qed.

Lemma elem_of_entries {V} (m : gmap Z V) k v : (k, v) ∈ entries m <-> m !! k = Some v.
Proof. rewrite entries_perm. apply elem_of_map_to_list. Qed.

Lemma entries_inj {V} (m1 m2 : gmap Z V) : entries m1 = entries m2 -> m1 = m2.
Proof. intros E. apply map_to_list_inj. by rewrite <-!entries_perm, E. Qed.

Lemma NoDup_entries {V} (m : gmap Z V) : NoDup (entries m).*1.
Proof. rewrite entries_perm. apply NoDup_fst_map_to_list. Qed.

(** Two ascending duplicate-free lists with the same members are equal. *)
Lemma sorted_unique (l k : list Z) :
  StronglySorted Z.le l -> StronglySorted Z.le k -> NoDup l -> NoDup k ->
  (forall x, x ∈ l <-> x ∈ k) -> l = k.
Proof.
  intros Hl Hk Nl Nk H. apply (StronglySorted_unique Z.le); [done|done|].
  by apply NoDup_Permutation.
Qed.

Lemma entries_keys_sorted {V} (m : gmap Z V) : StronglySorted Z.le (entries m).*1.
Proof.
  unfold entries. pose proof (sort_by_sorted fst (map_to_list m)) as H.
  induction H as [|x l Hl IH Hx]; simpl; constructor; [done|].
  by apply Forall_fmap.
Qed.

Lemma elem_of_entries_keys {V} (m : gmap Z V) k : k ∈ (entries m).*1 <-> is_Some (m !! k).
Proof.
  rewrite list_elem_of_fmap. split.
  - intros ([k' v] & -> & H%elem_of_entries). by exists v.
  - intros [v H%elem_of_entries]. by exists (k, v).
Qed.

(** Maps with the same keys list them in the same order. *)
Lemma entries_keys_eq {V W} (m1 : gmap Z V) (m2 : gmap Z W) :
  (forall k, is_Some (m1 !! k) <-> is_Some (m2 !! k)) -> (entries m1).*1 = (entries m2).*1.
Proof.
  intros H. apply sorted_unique; auto using entries_keys_sorted, NoDup_entries.
  intros k. rewrite !elem_of_entries_keys. apply H.
Qed.

Lemma entries_eq {V} (m1 m2 : gmap Z V) :
  (entries m1).*1 = (entries m2).*1 -> (entries m1).*2 = (entries m2).*2 -> m1 = m2.
Proof.
  intros E1 E2. apply entries_inj.
  revert E1 E2. generalize (entries m1) (entries m2).
  induction l as [|[k v] l IH]; intros [|[k' v'] l'] E1 E2; simplify_eq/=; [done|].
  by rewrite (IH l').
Qed.
