(* ===== verification/SigAlgo.v ===== *)
(** Algorithm-tagged keys and signatures
    (ace-runtime/src/crypto/sig_algo.rs).

    The tagged containers, their wire format and the verification dispatcher.
    The four cryptographic backends (ed25519-dalek, k256, fips204, hmac) are
    third-party crates: they are the fields of [SigBackend], an argument of
    [verify_signature]. *)

From S2P Require Import Prelude.
Local Open Scope Z_scope.
Local Open Scope ace_scope.

Inductive SignatureAlgorithm : Type :=
| Ed25519
| Secp256k1
| MlDsa44
| HmacSha256.

#[global] Instance SignatureAlgorithm_eq_dec : EqDecision SignatureAlgorithm.
Proof. solve_decision. Defined.

Definition algorithm_from_tag (tag : Z) : option SignatureAlgorithm :=
  if tag =? 0 then Some Ed25519
  else if tag =? 1 then Some Secp256k1
  else if tag =? 2 then Some MlDsa44
  else if tag =? 3 then Some HmacSha256
  else None.

Definition algorithm_tag (a : SignatureAlgorithm) : Z :=
  match a with
  | Ed25519 => 0
  | Secp256k1 => 1
  | MlDsa44 => 2
  | HmacSha256 => 3
  end.

Definition pubkey_len (a : SignatureAlgorithm) : Z :=
  match a with
  | Ed25519 => 32
  | Secp256k1 => 33
  | MlDsa44 => 1312
  | HmacSha256 => 32
  end.

Definition signature_len (a : SignatureAlgorithm) : Z :=
  match a with
  | Ed25519 => 64
  | Secp256k1 => 64
  | MlDsa44 => 2420
  | HmacSha256 => 32
  end.

Record TaggedPubkey := {
  pk_algorithm : SignatureAlgorithm;
  pk_bytes : list Z;
}.

Record TaggedSignature := {
  sig_algorithm : SignatureAlgorithm;
  sig_bytes : list Z;
}.

#[global] Instance TaggedPubkey_eq_dec : EqDecision TaggedPubkey.
Proof. solve_decision. Defined.
#[global] Instance TaggedSignature_eq_dec : EqDecision TaggedSignature.
Proof. solve_decision. Defined.

Definition pubkey_is_well_formed (p : TaggedPubkey) : bool :=
  Z.of_nat (length (pk_bytes p)) =? pubkey_len (pk_algorithm p).

Definition signature_is_well_formed (s : TaggedSignature) : bool :=
  Z.of_nat (length (sig_bytes s)) =? signature_len (sig_algorithm s).

Definition ml_dsa_44_stripped : TaggedSignature :=
  {| sig_algorithm := MlDsa44; sig_bytes := [] |}.

Definition pubkey_is_zero (p : TaggedPubkey) : bool :=
  forallb (fun b => b =? 0) (pk_bytes p).

Definition pubkey_default : TaggedPubkey :=
  {| pk_algorithm := Ed25519; pk_bytes := replicate 32 0 |}.

(** The 32 bytes of [SHA-256(alg_tag || raw_bytes)] as a number. *)
Definition fingerprint (sha256 : list Z -> list Z) (p : TaggedPubkey) : Z :=
  digest sha256 (algorithm_tag (pk_algorithm p) :: pk_bytes p).

(** The static error messages of the two parsers. *)
Inductive WireError : Type :=
| TooShort
| UnknownAlgorithm
| LengthMismatch
| Truncated.

(** [None] is the panic of the length assertion. *)
Definition wire_bytes (a : SignatureAlgorithm) (bytes : list Z) : option (list Z) :=
  if Z.of_nat (length bytes) <=? 65535 then
    Some (algorithm_tag a :: le_bytes 2 (Z.of_nat (length bytes)) ++ bytes)
  else None.

Definition pubkey_to_wire_bytes (p : TaggedPubkey) : option (list Z) :=
  wire_bytes (pk_algorithm p) (pk_bytes p).

Definition signature_to_wire_bytes (s : TaggedSignature) : option (list Z) :=
  wire_bytes (sig_algorithm s) (sig_bytes s).

Definition pubkey_from_wire_bytes (data : list Z) : result WireError (TaggedPubkey * nat) :=
  match data with
  | d0 :: d1 :: d2 :: rest =>
      let? algorithm := ok_or (algorithm_from_tag d0) UnknownAlgorithm in
      let key_len := le_num [d1; d2] in
      if negb (key_len =? pubkey_len algorithm) then Err LengthMismatch
      else
        let total := (3 + Z.to_nat key_len)%nat in
        if (length data <? total)%nat then Err Truncated
        else Ok ({| pk_algorithm := algorithm;
                    pk_bytes := take (total - 3) (drop 3 data) |}, total)
  | _ => Err TooShort
  end.

Definition signature_from_wire_bytes (data : list Z) : result WireError (TaggedSignature * nat) :=
  match data with
  | d0 :: d1 :: d2 :: rest =>
      let? algorithm := ok_or (algorithm_from_tag d0) UnknownAlgorithm in
      let sig_len := le_num [d1; d2] in
      let is_ml_dsa_44_stripped := bool_decide (algorithm = MlDsa44) && (sig_len =? 0) in
      if negb is_ml_dsa_44_stripped && negb (sig_len =? signature_len algorithm) then
        Err LengthMismatch
      else
        let total := (3 + Z.to_nat sig_len)%nat in
        if (length data <? total)%nat then Err Truncated
        else Ok ({| sig_algorithm := algorithm;
                    sig_bytes := take (total - 3) (drop 3 data) |}, total)
  | _ => Err TooShort
  end.

(** ** Verification *)

(** The backends: public key bytes, message, signature bytes. *)
Class SigBackend := {
  backend_ed25519 : list Z -> list Z -> list Z -> bool;
  backend_secp256k1 : list Z -> list Z -> list Z -> bool;
  backend_ml_dsa_44 : list Z -> list Z -> list Z -> bool;
  backend_hmac_sha256 : list Z -> list Z -> list Z -> bool;
}.

Section verify.
Context `{SigBackend}.

Definition verify_ml_dsa_44 (pubkey message signature : list Z) : bool :=
  if negb (Z.of_nat (length pubkey) =? 1312) || negb (Z.of_nat (length signature) =? 2420)
  then false
  else backend_ml_dsa_44 pubkey message signature.

Definition verify_signature (pubkey : TaggedPubkey) (message : list Z)
    (sig : TaggedSignature) : bool :=
  if negb (bool_decide (pk_algorithm pubkey = sig_algorithm sig)) then false
  else if negb (pubkey_is_well_formed pubkey) || negb (signature_is_well_formed sig)
  then false
  else match pk_algorithm pubkey with
       | Ed25519 => backend_ed25519 (pk_bytes pubkey) message (sig_bytes sig)
       | Secp256k1 => backend_secp256k1 (pk_bytes pubkey) message (sig_bytes sig)
       | MlDsa44 => verify_ml_dsa_44 (pk_bytes pubkey) message (sig_bytes sig)
       | HmacSha256 => backend_hmac_sha256 (pk_bytes pubkey) message (sig_bytes sig)
       end.

(** A stripped placeholder never verifies, whatever the key, the message and
    the backends. *)
Lemma verify_signature_stripped pubkey message :
  verify_signature pubkey message ml_dsa_44_stripped = false.
Proof. unfold verify_signature; simpl. rewrite orb_true_r. by destruct (negb _). Qed.

Lemma verify_signature_well_formed pubkey message sig :
  verify_signature pubkey message sig = true ->
  pk_algorithm pubkey = sig_algorithm sig /\
  pubkey_is_well_formed pubkey = true /\ signature_is_well_formed sig = true.
Proof. unfold verify_signature. intros ?. split_matches; bool_prop; done. Qed.
End verify.

(** ** Wire format *)

Lemma algorithm_from_tag_tag a : algorithm_from_tag (algorithm_tag a) = Some a.
Proof. by destruct a. Qed.

Lemma algorithm_tag_from_tag t a : algorithm_from_tag t = Some a -> algorithm_tag a = t.
Proof. unfold algorithm_from_tag. intros. split_matches; bool_prop; done. Qed.

Lemma le_num_bytes2 n :
  0 <= n <= 65535 -> exists a b, le_bytes 2 n = [a; b] /\ le_num [a; b] = n.
Proof.
  intros. eexists _, _. split; [reflexivity|]. apply (le_num_bytes 2 n). simpl; lia.
Qed.

(** What the parser reads back after [wire_bytes], whatever follows it. *)
Lemma wire_bytes_layout a bytes rest w :
  wire_bytes a bytes = Some w ->
  exists b1 b2, w ++ rest = algorithm_tag a :: b1 :: b2 :: bytes ++ rest /\
    le_num [b1; b2] = Z.of_nat (length bytes).
Proof.
  unfold wire_bytes. case_match eqn:E; intros Hw; [|done]. apply (inj Some) in Hw as <-. bool_prop.
  destruct (le_num_bytes2 (Z.of_nat (length bytes))) as (b1 & b2 & Hb & Hn); [lia|].
  exists b1, b2. by rewrite Hb.
Qed.

(** The outcome of the two parsers on the three header bytes. *)
Lemma take_drop_header (x y z : Z) bytes rest :
  take (3 + length bytes - 3) (drop 3 (x :: y :: z :: bytes ++ rest)) = bytes.
Proof.
  replace (3 + length bytes - 3)%nat with (length bytes) by lia. simpl.
  by rewrite drop_0, take_app_length.
Qed.

(** Wire round trip: a tagged signature that is well formed, or is the
    stripped ML-DSA-44 placeholder of the relay path, is encoded without panic
    and read back unchanged from its wire bytes, whatever bytes follow, and the
    parser reports exactly the bytes it consumed. *)
Lemma signature_wire_roundtrip (s : TaggedSignature) (rest : list Z) :
  signature_is_well_formed s = true \/ s = ml_dsa_44_stripped ->
  exists w, signature_to_wire_bytes s = Some w /\
    signature_from_wire_bytes (w ++ rest) = Ok (s, length w).
Proof.
  intros Hs.
  assert (Hlen : Z.of_nat (length (sig_bytes s)) = signature_len (sig_algorithm s) \/
                 s = ml_dsa_44_stripped).
  { destruct Hs as [Hs| ->]; [left|by right]. unfold signature_is_well_formed in Hs. by bool_prop. }
  assert (Hmax : Z.of_nat (length (sig_bytes s)) <= 65535).
  { destruct Hlen as [->| ->]; [by destruct (sig_algorithm s)|done]. }
  unfold signature_to_wire_bytes.
  destruct (wire_bytes (sig_algorithm s) (sig_bytes s)) as [w|] eqn:Hw.
  2: { unfold wire_bytes in Hw. case_match; bool_prop; lia || done. }
  exists w; split; [done|].
  destruct (wire_bytes_layout _ _ rest _ Hw) as (b1 & b2 & -> & Hn).
  destruct (wire_bytes_layout _ _ [] _ Hw) as (b1' & b2' & Hw' & _).
  rewrite !app_nil_r in Hw'.
  unfold signature_from_wire_bytes. rewrite algorithm_from_tag_tag. cbv beta iota zeta delta [rbind ok_or].
  assert (length w = 3 + length (sig_bytes s))%nat as -> by (rewrite Hw'; done).
  rewrite Hn, Nat2Z.id, take_drop_header.
  assert ((length (algorithm_tag (sig_algorithm s) :: b1 :: b2 :: sig_bytes s ++ rest)
           <? 3 + length (sig_bytes s))%nat = false) as ->.
  { apply Nat.ltb_ge. simpl. rewrite length_app. lia. }
  destruct Hlen as [Hlen| ->]; [|done].
  rewrite Hlen, Z.eqb_refl, andb_false_r. by destruct s.
Qed.

Lemma well_formed_length k :
  pubkey_is_well_formed k = true -> Z.of_nat (length (pk_bytes k)) = pubkey_len (pk_algorithm k).
Proof. unfold pubkey_is_well_formed. intros. by bool_prop. Qed.

Lemma pubkey_wire_roundtrip (k : TaggedPubkey) (rest : list Z) :
  pubkey_is_well_formed k = true ->
  exists w, pubkey_to_wire_bytes k = Some w /\ length w = (3 + length (pk_bytes k))%nat /\
    pubkey_from_wire_bytes (w ++ rest) = Ok (k, length w).
Proof.
  intros Hk. unfold pubkey_is_well_formed in Hk. bool_prop.
  assert (Z.of_nat (length (pk_bytes k)) <= 65535) as Hmax
    by (rewrite Hk; by destruct (pk_algorithm k)).
  unfold pubkey_to_wire_bytes.
  destruct (wire_bytes (pk_algorithm k) (pk_bytes k)) as [w|] eqn:Hw.
  2: { unfold wire_bytes in Hw. case_match; bool_prop; lia || done. }
  exists w. split; [done|].
  destruct (wire_bytes_layout _ _ rest _ Hw) as (b1 & b2 & Hwr & Hn).
  assert (length w = 3 + length (pk_bytes k))%nat as Hlw.
  { apply (f_equal length) in Hwr. rewrite length_app in Hwr. simpl in Hwr.
    rewrite length_app in Hwr. lia. }
  split; [done|]. rewrite Hwr.
  unfold pubkey_from_wire_bytes. rewrite algorithm_from_tag_tag. cbv beta iota zeta delta [rbind ok_or].
  rewrite Hn, Hk, Z.eqb_refl. cbn [negb]. rewrite <-Hk, Nat2Z.id, take_drop_header.
  assert ((length (algorithm_tag (pk_algorithm k) :: b1 :: b2 :: pk_bytes k ++ rest)
           <? 3 + length (pk_bytes k))%nat = false) as ->.
  { apply Nat.ltb_ge. simpl. rewrite length_app. lia. }
  rewrite Hlw. by destruct k.
Qed.

(** A signature scheme for concrete runs: a signature starts with its key. *)
Module SampleSig.
Definition sample_backend : SigBackend := {|
  backend_ed25519 pk msg sig := bool_decide (take 32 sig = pk);
  backend_secp256k1 _ _ _ := false;
  backend_ml_dsa_44 _ _ _ := false;
  backend_hmac_sha256 _ _ _ := false;
|}.
Definition sample_sign (u : AccountId) (msg : list Z) : TaggedSignature :=
  {| sig_algorithm := Ed25519; sig_bytes := be_bytes 32 u ++ replicate 32 0 |}.
Definition sample_key (u : AccountId) : TaggedPubkey :=
  {| pk_algorithm := Ed25519; pk_bytes := be_bytes 32 u |}.
End SampleSig.
