(* ===== verification/ValidatorSet.v ===== *)
(** Quorum arithmetic and the validator set
    (ace-runtime/src/config.rs [has_quorum],
    ace-consensus/src/validator_set.rs).

    A validator set is a vector sorted by identity with a cached total stake
    and an in-memory generation.  [vs_wf] is its type invariant: identities
    strictly increasing, indices distinct, every stake at least the minimum,
    and the cached total equal to the sum. *)

From S2P Require Import Prelude SigAlgo.
Local Open Scope Z_scope.
Local Open Scope ace_scope.

(** ** Quorum *)

Definition QUORUM_NUMERATOR : Z := 2.
Definition QUORUM_DENOMINATOR : Z := 3.

(** The products are taken at [u128], where they cannot overflow. *)
Definition has_quorum (votes total_stake : Z) : bool :=
  if total_stake =? 0 then false
  else QUORUM_NUMERATOR * total_stake <=? votes * QUORUM_DENOMINATOR.

Lemma has_quorum_spec votes total :
  has_quorum votes total = true <-> total <> 0 /\ 2 * total <= 3 * votes.
Proof.
  unfold has_quorum, QUORUM_NUMERATOR, QUORUM_DENOMINATOR.
  split; intros H; [split_matches; bool_prop; lia|].
  destruct H as [H1 H2]. apply Z.eqb_neq in H1 as ->. apply Z.leb_le. lia.
Qed.

Lemma has_quorum_u128 votes total :
  is_u64 votes -> is_u64 total ->
  is_u128 (votes * QUORUM_DENOMINATOR) /\ is_u128 (QUORUM_NUMERATOR * total).
Proof. unfold QUORUM_DENOMINATOR, QUORUM_NUMERATOR. ilia. Qed.

Lemma has_quorum_mono v v' total :
  v <= v' -> has_quorum v total = true -> has_quorum v' total = true.
Proof. rewrite !has_quorum_spec. lia. Qed.

(** ** Validators *)

Record ValidatorCapabilities := {
  evm_core : bool;
  btc_payments : bool;
  solana_light : bool;
}.

Inductive CommitteeDomain : Type :=
| BtcPayments
| SolanaLight.

Record Validator := {
  id_com : AccountId;
  stake : Z;
  index : Z;
  signing_pubkey : TaggedPubkey;
  capabilities : ValidatorCapabilities;
}.

#[global] Instance ValidatorCapabilities_eq_dec : EqDecision ValidatorCapabilities.
Proof. solve_decision. Defined.

Definition MIN_VALIDATOR_STAKE : Z := 1.

Record ValidatorSet := {
  validators : list Validator;
  total_stake : Z;
  generation : Z;
}.

(** [iter().sum()] on [u64]. *)
Definition u64_sum (l : list Z) : Z := foldl u64_add 0 l.

Definition validator_set_new (vs : list Validator) : ValidatorSet :=
  let vs := List.filter (fun v => MIN_VALIDATOR_STAKE <=? stake v) vs in
  let vs := sort_by id_com vs in
  {| validators := vs; total_stake := u64_sum (map stake vs); generation := 0 |}.

Definition set_generation (s : ValidatorSet) (g : Z) : ValidatorSet :=
  {| validators := validators s; total_stake := total_stake s; generation := g |}.

Definition is_empty (s : ValidatorSet) : bool :=
  match validators s with
  | [] => true
  | _ => false
  end.

Definition get_by_index (s : ValidatorSet) (i : Z) : option Validator :=
  List.find (fun v => index v =? i) (validators s).

Definition get_by_id (s : ValidatorSet) (id : AccountId) : option Validator :=
  List.find (fun v => id_com v =? id) (validators s).

(** The canonical stake of a voter, zero for a stranger. *)
Definition stake_of (vs : ValidatorSet) (u : AccountId) : Z :=
  match get_by_id vs u with
  | Some v => stake v
  | None => 0
  end.

Definition validators_for_domain (s : ValidatorSet) (d : CommitteeDomain) : list Validator :=
  List.filter (fun v => match d with
                   | BtcPayments => btc_payments (capabilities v)
                   | SolanaLight => solana_light (capabilities v)
                   end) (validators s).

Definition filtered (s : ValidatorSet) (allowed : gset AccountId) : ValidatorSet :=
  validator_set_new (List.filter (fun v => bool_decide (id_com v ∈ allowed)) (validators s)).

(** The three messages of [add_validator]. *)
Inductive AddError : Type :=
| InsufficientStake
| DuplicateId
| DuplicateIndex.

Definition add_validator (s : ValidatorSet) (v : Validator) : result AddError ValidatorSet :=
  if stake v <? MIN_VALIDATOR_STAKE then Err InsufficientStake
  else if existsb (fun e => id_com e =? id_com v) (validators s) then Err DuplicateId
  else if existsb (fun e => index e =? index v) (validators s) then Err DuplicateIndex
  else Ok {| validators := sort_by id_com (validators s ++ [v]);
             total_stake := u64_add (total_stake s) (stake v);
             generation := generation s |}.

Definition remove_validator (s : ValidatorSet) (id : AccountId)
    : ValidatorSet * option Validator :=
  match list_find (fun v => id_com v = id) (validators s) with
  | Some (pos, removed) =>
      ({| validators := delete pos (validators s);
          total_stake := u64_saturating_sub (total_stake s) (stake removed);
          generation := generation s |}, Some removed)
  | None => (s, None)
  end.

Definition with_stake (v : Validator) (x : Z) : Validator :=
  {| id_com := id_com v; stake := x; index := index v;
     signing_pubkey := signing_pubkey v; capabilities := capabilities v |}.

Definition update_stake (s : ValidatorSet) (id : AccountId) (new_stake : Z) : ValidatorSet :=
  if new_stake <? MIN_VALIDATOR_STAKE then fst (remove_validator s id)
  else match list_find (fun v => id_com v = id) (validators s) with
       | Some (pos, v) =>
           {| validators := <[pos := with_stake v new_stake]> (validators s);
              total_stake :=
                u64_add (u64_saturating_sub (total_stake s) (stake v)) new_stake;
              generation := generation s |}
       | None => s
       end.

(** ** Invariant *)

Record vs_wf (s : ValidatorSet) : Prop := {
  vs_sorted : StronglySorted (fun a b => id_com a < id_com b) (validators s);
  vs_index : NoDup (map index (validators s));
  vs_stakes : Forall (fun v => MIN_VALIDATOR_STAKE <= stake v) (validators s);
  vs_total : total_stake s = Zsum (map stake (validators s));
  vs_total_u64 : total_stake s <= u64_max;
}.

Lemma u64_sum_mod l a : foldl u64_add a l mod 2 ^ 64 = (a + Zsum l) mod 2 ^ 64.
Proof.
  revert a; induction l as [|x l IH]; intros a; simpl.
  { unfold Zsum; simpl. by rewrite Z.add_0_r. }
  rewrite IH, Zsum_cons. unfold u64_add. rewrite Zplus_mod_idemp_l. f_equal. lia.
Qed.

Lemma u64_sum_small l :
  Forall (fun x => 0 <= x) l -> Zsum l <= u64_max -> u64_sum l = Zsum l.
Proof.
  intros Hl Hm. unfold u64_sum. pose proof (u64_sum_mod l 0) as E.
  pose proof (Zsum_nonneg l Hl).
  rewrite Z.add_0_l, (Z.mod_small (Zsum l)) in E by ilia.
  rewrite <-E, Z.mod_small; [done|]. destruct l as [|x l]; [simpl; lia|].
  simpl. clear. generalize (u64_add 0 x), (u64_add_range 0 x).
  induction l as [|y l IH]; simpl; intros z Hz; [ilia|]. apply IH, u64_add_range.
Qed.

Lemma list_find_id vs id pos v :
  list_find (fun v => id_com v = id) vs = Some (pos, v) ->
  exists l1 l2, vs = l1 ++ v :: l2 /\ length l1 = pos /\ id_com v = id.
Proof.
  intros (Hl & Hid & _)%list_find_Some. exists (take pos vs), (drop (S pos) vs).
  split_and!; [by rewrite take_drop_middle| |done].
  apply length_take_le. apply lookup_lt_Some in Hl. lia.
Qed.

Lemma get_by_id_Some s id v :
  get_by_id s id = Some v -> v ∈ validators s /\ id_com v = id.
Proof.
  unfold get_by_id. intros [H1 H2]%find_some. bool_prop.
  by apply list_elem_of_In in H1.
Qed.

Lemma StronglySorted_lt_NoDup {A} (f : A -> Z) l :
  StronglySorted (fun a b => f a < f b) l -> NoDup (map f l).
Proof.
  induction 1 as [|x l Hl IH Hx]; simpl; constructor; [|done].
  intros (y & E & Hy)%list_elem_of_fmap. rewrite Forall_forall in Hx.
  specialize (Hx _ Hy). lia.
Qed.

Lemma vs_wf_nonneg s : vs_wf s -> Forall (fun v => 0 <= stake v) (validators s).
Proof. intros [_ _ H _ _]. eapply Forall_impl; [done|]. unfold MIN_VALIDATOR_STAKE. lia. Qed.

Lemma vs_wf_ids s : vs_wf s -> NoDup (map id_com (validators s)).
Proof. intros [H _ _ _ _]. by apply StronglySorted_lt_NoDup. Qed.

Lemma sort_by_strict (vs : list Validator) :
  NoDup (map id_com vs) -> StronglySorted (fun a b => id_com a < id_com b) (sort_by id_com vs).
Proof.
  intros Hnd. rewrite <-(sort_by_perm id_com vs) in Hnd.
  revert Hnd. generalize (sort_by_sorted id_com vs). generalize (sort_by id_com vs).
  induction 1 as [|x l Hl IH Hx]; intros Hnd; constructor.
  { apply IH. by inversion Hnd. }
  inversion Hnd as [|? ? Hnin]; subst. rewrite Forall_forall in Hx |- *. intros y Hy.
  specialize (Hx y Hy). assert (id_com x <> id_com y); [|lia].
  intros E. apply Hnin. rewrite E. by apply list_elem_of_fmap_2.
Qed.

Lemma existsb_false_notin {A} (f : A -> Z) (x : Z) l :
  existsb (fun e => f e =? x) l = false -> x ∉ map f l.
Proof.
  intros H (y & -> & Hy)%list_elem_of_fmap. apply Bool.not_true_iff_false in H. apply H.
  apply existsb_exists. exists y. rewrite Z.eqb_refl. split; [|done]. by apply list_elem_of_In.
Qed.

Lemma add_validator_wf s v s' :
  vs_wf s -> total_stake s + stake v <= u64_max ->
  add_validator s v = Ok s' -> vs_wf s' /\ validators s' ≡ₚ v :: validators s.
Proof.
  intros Hwf Hm. unfold add_validator. intros H. split_matches; bool_prop.
  apply existsb_false_notin in H1, H2. unfold MIN_VALIDATOR_STAKE in *.
  assert (Hp : sort_by id_com (validators s ++ [v]) ≡ₚ v :: validators s).
  { rewrite sort_by_perm. symmetry. apply Permutation_cons_append. }
  pose proof (vs_wf_nonneg s Hwf) as Hnn.
  pose proof (vs_wf_ids s Hwf). destruct Hwf as [Hs Hi Hst Ht Hu].
  assert (0 <= Zsum (map stake (validators s))) by (by apply Zsum_nonneg, Forall_fmap).
  split; [|done]. constructor; simpl.
  - apply sort_by_strict. rewrite <-Permutation_cons_append. simpl. by constructor.
  - rewrite Hp. simpl. by constructor.
  - rewrite Hp. constructor; [unfold MIN_VALIDATOR_STAKE; lia|done].
  - rewrite Hp. simpl. rewrite Zsum_cons, u64_add_small; lia.
  - rewrite u64_add_small; lia.
Qed.

Lemma StronglySorted_delete {A} (R : A -> A -> Prop) l1 x l2 :
  StronglySorted R (l1 ++ x :: l2) -> StronglySorted R (l1 ++ l2).
Proof.
  induction l1 as [|y l1 IH]; simpl; intros H; inversion H as [|? ? Hs Hf]; subst; [done|].
  constructor; [by apply IH|].
  apply Forall_app in Hf as [? Hf]. inversion Hf; subst. by apply Forall_app.
Qed.

Lemma remove_validator_wf s id :
  vs_wf s ->
  match remove_validator s id with
  | (s', Some v) => vs_wf s' /\ id_com v = id /\ validators s ≡ₚ v :: validators s'
  | (s', None) => s' = s /\ get_by_id s id = None
  end.
Proof.
  intros Hwf. unfold remove_validator.
  destruct (list_find _ _) as [[pos v]|] eqn:E.
  - apply list_find_id in E as (l1 & l2 & Hvs & <- & Hid).
    pose proof (vs_wf_nonneg s Hwf) as Hnn. destruct Hwf as [Hs Hi Hst Ht Hu]. simpl.
    rewrite Hvs in *. rewrite delete_middle.
    assert (Hp : l1 ++ v :: l2 ≡ₚ v :: (l1 ++ l2)) by (symmetry; apply Permutation_middle).
    rewrite Hp in Hnn, Hst, Hi, Ht. inversion Hnn as [|? ? Hv Hnn']; subst.
    inversion Hst; subst. simpl in Hi; inversion Hi; subst.
    simpl in Ht; rewrite Zsum_cons in Ht.
    assert (0 <= Zsum (map stake (l1 ++ l2))) by (by apply Zsum_nonneg, Forall_fmap).
    split; [|by rewrite Hp]. constructor; simpl; [| done | done | |].
    + by eapply StronglySorted_delete.
    + rewrite u64_saturating_sub_small; lia.
    + rewrite u64_saturating_sub_small; lia.
  - split; [done|]. apply list_find_None in E. unfold get_by_id.
    destruct (List.find _ _) as [v|] eqn:F; [|done]. apply find_some in F as [F1 F2].
    apply list_elem_of_In in F1. rewrite Forall_forall in E. bool_prop.
    by destruct (E v F1).
Qed.

Lemma update_stake_wf s id x :
  vs_wf s -> 0 <= x -> total_stake s + x <= u64_max ->
  vs_wf (update_stake s id x).
Proof.
  intros Hwf Hx Hm. unfold update_stake. case_match eqn:E; bool_prop.
  { pose proof (remove_validator_wf s id Hwf) as H.
    destruct (remove_validator s id) as [s' [v|]]; simpl; [apply H|destruct H as [-> _]; done]. }
  destruct (list_find _ _) as [[pos v]|] eqn:F; [|done].
  apply list_find_id in F as (l1 & l2 & Hvs & <- & Hid).
  pose proof (vs_wf_nonneg s Hwf) as Hnn. destruct Hwf as [Hs Hi Hst Ht Hu].
  rewrite Hvs in *. replace (length l1) with (length l1 + 0)%nat by lia. rewrite insert_app_r. simpl.
  rewrite !map_app in *. simpl in *. rewrite !Zsum_app, Zsum_cons in *.
  apply Forall_app in Hnn as [Hn1 [Hn2 Hn3]%Forall_cons].
  assert (0 <= Zsum (map stake l1)) by (by apply Zsum_nonneg, Forall_fmap).
  assert (0 <= Zsum (map stake l2)) by (by apply Zsum_nonneg, Forall_fmap).
  constructor; simpl.
  - clear -Hs. induction l1 as [|y l1 IH]; simpl in *.
    + inversion Hs; subst. by constructor.
    + inversion Hs as [|? ? Hs' Hf]; subst. constructor; [by apply IH|].
      rewrite Forall_app, Forall_cons in *. by simpl.
  - by rewrite map_app.
  - rewrite Forall_app, Forall_cons in *. simpl. unfold MIN_VALIDATOR_STAKE in *. naive_solver.
  - rewrite map_app, Zsum_app. simpl. rewrite Zsum_cons.
    rewrite u64_saturating_sub_small, u64_add_small; lia.
  - rewrite u64_saturating_sub_small, u64_add_small; lia.
Qed.

Lemma get_by_id_elem s v :
  vs_wf s -> v ∈ validators s -> get_by_id s (id_com v) = Some v.
Proof.
  intros Hwf Hv. pose proof (vs_wf_ids s Hwf) as Hnd. unfold get_by_id.
  clear Hwf. induction (validators s) as [|y l IH]; simpl; [by apply elem_of_nil in Hv|].
  simpl in Hnd. inversion Hnd as [|? ? Hn Hnd']; subst.
  apply elem_of_cons in Hv as [->|Hv]; [by rewrite Z.eqb_refl|].
  case_match eqn:E; [|by apply IH]. bool_prop. exfalso. apply Hn. rewrite E.
  by apply list_elem_of_fmap_2.
Qed.

(** The weighting of a well-formed set: every identity weighs its stake and
    the weights add up to the cached total. *)
Lemma stake_of_id s v : vs_wf s -> v ∈ validators s -> stake_of s (id_com v) = stake v.
Proof. intros Hwf Hv. unfold stake_of. by rewrite get_by_id_elem. Qed.

Lemma stake_of_nonneg s u : vs_wf s -> 0 <= stake_of s u.
Proof.
  intros Hwf. unfold stake_of. destruct (get_by_id s u) as [v|] eqn:E; [|done].
  apply get_by_id_Some in E as [Hv _].
  pose proof (vs_wf_nonneg s Hwf) as Hn. rewrite Forall_forall in Hn. by apply Hn.
Qed.

Lemma stake_of_total s :
  vs_wf s -> wsum (stake_of s) (fun _ => true) (map id_com (validators s)) = total_stake s.
Proof.
  intros Hwf. rewrite (vs_total s Hwf).
  assert (Hin : forall v, v ∈ validators s -> stake_of s (id_com v) = stake v).
  { intros; by apply stake_of_id. }
  induction (validators s) as [|v l IH]; [done|].
  simpl. rewrite wsum_cons, Zsum_cons, Hin by (by left). f_equal. apply IH.
  intros; apply Hin; by right.
Qed.

Lemma stake_of_voter s u : u ∈ map id_com (validators s) \/ stake_of s u = 0.
Proof.
  unfold stake_of. destruct (get_by_id s u) as [v|] eqn:E; [left|by right].
  apply get_by_id_Some in E as [Hv <-]. by apply list_elem_of_fmap_2.
Qed.

Lemma validator_set_new_wf vs :
  NoDup (map id_com vs) -> NoDup (map index vs) -> Forall (fun v => is_u64 (stake v)) vs ->
  Zsum (map stake vs) <= u64_max -> vs_wf (validator_set_new vs).
Proof.
  intros Hid Hidx Hst Hm. unfold validator_set_new. cbv zeta.
  set (keep := List.filter _ vs). assert (Hk : keep `sublist_of` vs).
  { unfold keep. clear. induction vs; simpl; [done|]. by case_match; constructor. }
  assert (Hp : sort_by id_com keep ≡ₚ keep) by apply sort_by_perm.
  assert (Hle : Zsum (map stake keep) <= Zsum (map stake vs)).
  { clear -Hk Hst. induction Hk as [|x l1 l2 Hk IH|x l1 l2 Hk IH]; simpl; [done| |];
      inversion Hst; subst; rewrite ?Zsum_cons; specialize (IH ltac:(done)); ilia. }
  assert (Hnn : Forall (fun x => 0 <= x) (map stake keep)).
  { apply Forall_fmap, Forall_forall. intros v Hv%list_elem_of_In%filter_In.
    destruct Hv as [Hv%list_elem_of_In _]. rewrite Forall_forall in Hst.
    specialize (Hst v Hv). simpl; ilia. }
  assert (Hsum : u64_sum (map stake (sort_by id_com keep)) = Zsum (map stake keep)).
  { rewrite u64_sum_small; rewrite Hp; [done|done|lia]. }
  constructor; simpl.
  - apply sort_by_strict. apply (sublist_NoDup _ _ Hid). by apply fmap_sublist.
  - rewrite Hp. apply (sublist_NoDup _ _ Hidx). by apply fmap_sublist.
  - rewrite Hp. apply Forall_forall. intros v Hv%list_elem_of_In%filter_In.
    destruct Hv as [_ Hv]. by bool_prop.
  - by rewrite Hsum, Hp.
  - rewrite Hsum. lia.
Qed.

(** The mutations of a set, as one step function. *)
Inductive VsOp : Type :=
| OpAdd (v : Validator)
| OpRemove (id : AccountId)
| OpUpdate (id : AccountId) (x : Z)
| OpSetGeneration (g : Z).

Definition vs_apply (s : ValidatorSet) (op : VsOp) : ValidatorSet :=
  match op with
  | OpAdd v => match add_validator s v with
               | Ok s' => s'
               | Err _ => s
               end
  | OpRemove id => fst (remove_validator s id)
  | OpUpdate id x => update_stake s id x
  | OpSetGeneration g => set_generation s g
  end.

(** Stakes are [u64]s and the running total stays within [u64]. *)
Fixpoint ops_fit (s : ValidatorSet) (ops : list VsOp) : Prop :=
  match ops with
  | [] => True
  | op :: ops =>
      match op with
      | OpAdd v => total_stake s + stake v <= u64_max
      | OpUpdate _ x => 0 <= x /\ total_stake s + x <= u64_max
      | _ => True
      end /\ ops_fit (vs_apply s op) ops
  end.

(** C9. The validator set keeps its invariant under every sequence of its
    operations: as long as the total stake fits a [u64], after any mix of
    additions, removals, stake updates and generation bumps the validators are
    strictly sorted by identity, indices are distinct, every stake is at least
    the minimum, and the cached total stake is exactly the sum of the stakes. *)
Theorem validator_set_ops_wf (s : ValidatorSet) (ops : list VsOp) :
  vs_wf s -> ops_fit s ops -> vs_wf (foldl vs_apply s ops).
Proof.
  revert s; induction ops as [|op ops IH]; intros s Hwf Hfit; simpl; [done|].
  destruct Hfit as [Hop Hfit]. apply IH; [|done].
  destruct op as [v|id|id x|g]; simpl.
  - destruct (add_validator s v) eqn:E; [|done]. by eapply add_validator_wf.
  - pose proof (remove_validator_wf s id Hwf) as H.
    destruct (remove_validator s id) as [s' [w|]]; simpl; [apply H|by destruct H as [-> _]].
  - destruct Hop. by apply update_stake_wf.
  - destruct Hwf. by constructor.
Qed.

(** Four validators of equal stake. *)
Module SampleSet.
Import SampleSig.
Definition sample_validator (i : Z) : Validator :=
  {| id_com := i; stake := 100; index := i; signing_pubkey := sample_key i;
     capabilities := {| evm_core := true; btc_payments := false; solana_light := false |} |}.
Definition sample_set : ValidatorSet := validator_set_new (map sample_validator [1; 2; 3; 4]).

Lemma sample_set_wf : vs_wf sample_set.
Proof.
  apply validator_set_new_wf; [vm_compute; repeat constructor; set_solver..| |by vm_compute].
  repeat constructor; by vm_compute.
Qed.
End SampleSet.

Lemma validator_set_ops_wf_witness :
  let ops := [OpUpdate 2 50; OpRemove 3; OpAdd (SampleSet.sample_validator 9); OpUpdate 4 0;
              OpSetGeneration 5] in
  vs_wf (foldl vs_apply SampleSet.sample_set ops) /\
  total_stake (foldl vs_apply SampleSet.sample_set ops) = 250.
Proof.
  intros ops. split; [|by vm_compute].
  apply (validator_set_ops_wf SampleSet.sample_set ops); [exact SampleSet.sample_set_wf|].
  vm_compute. repeat split; discriminate.
Defined.
