(* ===== verification/Vote.v ===== *)
(** Votes and the vote collector (ace-consensus/src/vote.rs).

    A collector groups the votes of one slot by block hash, counts the stake of
    each group, remembers the first hash of every voter and records
    equivocators.  [vc_inv] is its invariant against a weighting of the
    validators; under it the stake counted for a hash is exactly the weight of
    the validators whose first vote was for that hash, which is what makes two
    conflicting quorums impossible. *)

From S2P Require Import Prelude SigAlgo ValidatorSet.
Local Open Scope Z_scope.
Local Open Scope ace_scope.

Inductive VoteType : Type :=
| Prevote
| Precommit.

#[global] Instance VoteType_eq_dec : EqDecision VoteType.
Proof. solve_decision. Defined.

Record Vote := {
  slot : Z;
  block_hash : Hash;
  voter : AccountId;
  voter_stake : Z;
  signature : TaggedSignature;
  chain_id : Z;
  round : Z;
  vote_type : VoteType;
}.

Definition with_voter_stake (v : Vote) (x : Z) : Vote :=
  {| slot := slot v; block_hash := block_hash v; voter := voter v; voter_stake := x;
     signature := signature v; chain_id := chain_id v; round := round v;
     vote_type := vote_type v |}.

Record VoteBucket := {
  votes : list Vote;
  voted_stake : Z;
}.

Definition bucket_new : VoteBucket := {| votes := []; voted_stake := 0 |}.

Record VoteCollector := {
  vc_slot : Z;
  buckets : gmap Hash VoteBucket;
  vc_total_stake : Z;
  voter_first_hash : gmap AccountId Hash;
  equivocators : gmap AccountId (Hash * Hash);
  validator_set_generation : Z;
}.

Definition collector_new (slot total_stake : Z) : VoteCollector :=
  {| vc_slot := slot; buckets := ∅; vc_total_stake := total_stake;
     voter_first_hash := ∅; equivocators := ∅; validator_set_generation := 0 |}.

(** ** Adding a vote *)

(** The boolean says whether the vote contributed new stake. *)
Definition add_vote_internal (c : VoteCollector) (vote : Vote) (canonical_stake : Z)
    : VoteCollector * bool :=
  let vote := with_voter_stake vote canonical_stake in
  match voter_first_hash c !! voter vote with
  | Some first_hash =>
      if negb (first_hash =? block_hash vote) then
        ({| vc_slot := vc_slot c; buckets := buckets c; vc_total_stake := vc_total_stake c;
            voter_first_hash := voter_first_hash c;
            equivocators := <[voter vote := (first_hash, block_hash vote)]> (equivocators c);
            validator_set_generation := validator_set_generation c |}, false)
      else (c, false)
  | None =>
      let bucket := default bucket_new (buckets c !! block_hash vote) in
      let bucket := {| votes := votes bucket ++ [vote];
                       voted_stake := u64_add (voted_stake bucket) (voter_stake vote) |} in
      ({| vc_slot := vc_slot c; buckets := <[block_hash vote := bucket]> (buckets c);
          vc_total_stake := vc_total_stake c;
          voter_first_hash := <[voter vote := block_hash vote]> (voter_first_hash c);
          equivocators := equivocators c;
          validator_set_generation := validator_set_generation c |}, true)
  end.

Definition zero_ed25519 : TaggedSignature :=
  {| sig_algorithm := Ed25519; sig_bytes := replicate 64 0 |}.

Definition add_vote_raw (c : VoteCollector) (u : AccountId) (h : Hash) (s : Z)
    : VoteCollector * bool :=
  add_vote_internal c
    {| slot := vc_slot c; block_hash := h; voter := u; voter_stake := s;
       signature := zero_ed25519; chain_id := 0; round := 0; vote_type := Prevote |} s.

(** ** Reading the collector *)

Definition hash_quorum (c : VoteCollector) (h : Hash) (b : VoteBucket) : option Hash :=
  if has_quorum (voted_stake b) (vc_total_stake c) then Some h else None.

(** [find_map] over a list. *)
Fixpoint find_map {A B} (f : A -> option B) (l : list A) : option B :=
  match l with
  | [] => None
  | x :: l => match f x with
              | Some y => Some y
              | None => find_map f l
              end
  end.

Definition quorum_block_hash (c : VoteCollector) : option Hash :=
  if (size (buckets c) <=? 1)%nat then
    find_map (fun '(h, b) => hash_quorum c h b) (map_to_list (buckets c))
  else
    let keys := sort_by id (map fst (map_to_list (buckets c))) in
    find_map (fun h => match buckets c !! h with
                       | Some b => hash_quorum c h b
                       | None => None
                       end) keys.

Definition has_quorum_block (c : VoteCollector) : bool :=
  match quorum_block_hash c with
  | Some _ => true
  | None => false
  end.

(** [max_by] with the comparison on stake, ties towards the lower hash; the
    later of two equal elements wins, as in Rust. *)
Definition leading_ge (a b : Hash * Z) : bool :=
  if snd a =? snd b then fst a <=? fst b else snd b <? snd a.

Fixpoint max_by {A} (ge : A -> A -> bool) (acc : A) (l : list A) : A :=
  match l with
  | [] => acc
  | x :: l => max_by ge (if ge x acc then x else acc) l
  end.

Definition leading_block_hash (c : VoteCollector) : option Hash :=
  match map (fun '(h, b) => (h, voted_stake b)) (map_to_list (buckets c)) with
  | [] => None
  | x :: l => Some (fst (max_by leading_ge x l))
  end.

Definition voted_stake_for (c : VoteCollector) (h : Hash) : Z :=
  match buckets c !! h with
  | Some b => voted_stake b
  | None => 0
  end.

Definition collector_voted_stake (c : VoteCollector) : Z :=
  u64_sum (map (fun '(_, b) => voted_stake b) (map_to_list (buckets c))).

Definition voter_block_hash (c : VoteCollector) (u : AccountId) : option Hash :=
  voter_first_hash c !! u.

Definition vote_count (c : VoteCollector) : nat :=
  sum_list_with (fun '(_, b) => length (votes b)) (map_to_list (buckets c)).

Definition collector_votes (c : VoteCollector) : list Vote :=
  mjoin (map (fun '(_, b) => votes b) (map_to_list (buckets c))).

(** ** Signatures *)

Section signatures.
(** SHA-256, a third-party crate: bytes to the 32 digest bytes. *)
Context (sha256 : list Z -> list Z) {SB : SigBackend}.

Definition sign_message (slot : Z) (h : Hash) (u : AccountId) (chain_id : Z) : list Z :=
  sha256 (ascii_bytes "ACE-VOTE-V1" ++ le_bytes 4 chain_id ++ le_bytes 8 slot ++
          be_bytes 32 h ++ be_bytes 32 u).

Definition sign_message_tendermint (slot round : Z) (ty : VoteType) (h : Hash)
    (u : AccountId) (chain_id : Z) : list Z :=
  sha256 (match ty with
          | Prevote => ascii_bytes "ACE-PREVOTE-V1"
          | Precommit => ascii_bytes "ACE-PRECOMMIT-V1"
          end ++ le_bytes 4 chain_id ++ le_bytes 8 slot ++ le_bytes 4 round ++
          be_bytes 32 h ++ be_bytes 32 u).

(** The message [verify_signature] checks for a vote. *)
Definition vote_message (v : Vote) : list Z :=
  if (round v =? 0) && bool_decide (vote_type v = Prevote) then
    sign_message (slot v) (block_hash v) (voter v) (chain_id v)
  else sign_message_tendermint (slot v) (round v) (vote_type v) (block_hash v)
         (voter v) (chain_id v).

Definition vote_verify_signature (v : Vote) (pubkey : TaggedPubkey) : bool :=
  if negb (signature_is_well_formed (signature v)) then false
  else if negb (bool_decide (sig_algorithm (signature v) = pk_algorithm pubkey)) then false
  else verify_signature pubkey (vote_message v) (signature v).

Definition add_vote_verified (c : VoteCollector) (vote : Vote) (vs : ValidatorSet)
    : VoteCollector * bool :=
  if negb (slot vote =? vc_slot c) then (c, false)
  else match get_by_id vs (voter vote) with
       | None => (c, false)
       | Some validator =>
           if vote_verify_signature vote (signing_pubkey validator) then
             add_vote_internal c vote (stake validator)
           else (c, false)
       end.

Definition reconcile_validator_set (c : VoteCollector) (vs : ValidatorSet) : VoteCollector :=
  if validator_set_generation c =? generation vs then c
  else
    foldl (fun c vote => fst (add_vote_verified c vote vs))
      {| vc_slot := vc_slot c; buckets := ∅; vc_total_stake := total_stake vs;
         voter_first_hash := ∅; equivocators := ∅;
         validator_set_generation := generation vs |}
      (collector_votes c).
End signatures.

(** ** Invariant *)

Section invariant.
Context (ids : list AccountId) (w : AccountId -> Z).

(** The weight of the validators whose first vote was for [h]. *)
Definition first_weight (c : VoteCollector) (h : Hash) : Z :=
  wsum w (fun u => bool_decide (voter_first_hash c !! u = Some h)) ids.

Record vc_inv (c : VoteCollector) : Prop := {
  vc_voters : forall u h, voter_first_hash c !! u = Some h -> u ∈ ids \/ w u = 0;
  vc_stake : forall h, voted_stake_for c h = first_weight c h;
  vc_votes : forall h b v, buckets c !! h = Some b -> v ∈ votes b ->
    block_hash v = h /\ voter_stake v = w (voter v) /\
    voter_first_hash c !! voter v = Some h;
  vc_counted : forall u h, voter_first_hash c !! u = Some h ->
    exists b v, buckets c !! h = Some b /\ v ∈ votes b /\ voter v = u;
  vc_nodup : forall h b, buckets c !! h = Some b -> NoDup (map voter (votes b));
}.
End invariant.

Lemma find_map_Some {A B} (f : A -> option B) l y :
  find_map f l = Some y -> exists x, x ∈ l /\ f x = Some y.
Proof.
  induction l as [|x l IH]; simpl; [done|]. case_match eqn:E.
  - intros [= <-]. exists x. split; [by left|done].
  - intros (z & ? & ?)%IH. exists z. split; [by right|done].
Qed.

Lemma find_map_None {A B} (f : A -> option B) l x :
  find_map f l = None -> x ∈ l -> f x = None.
Proof.
  induction l as [|y l IH]; simpl; [by intros _ ?%elem_of_nil|].
  case_match eqn:E; [done|]. intros HN [->|?]%elem_of_cons; auto.
Qed.

(** [h] has collected a quorum. *)
Definition hash_has_quorum (c : VoteCollector) (h : Hash) : Prop :=
  has_quorum (voted_stake_for c h) (vc_total_stake c) = true.

Lemma hash_quorum_Some c h b h' :
  buckets c !! h = Some b ->
  hash_quorum c h b = Some h' <-> h' = h /\ hash_has_quorum c h.
Proof.
  intros E. unfold hash_quorum, hash_has_quorum, voted_stake_for. rewrite E.
  case_match; naive_solver.
Qed.

Lemma quorum_block_hash_sound c h :
  quorum_block_hash c = Some h -> hash_has_quorum c h.
Proof.
  unfold quorum_block_hash. case_match.
  - intros ([h' b] & Hin & E)%find_map_Some. apply elem_of_map_to_list in Hin.
    by apply (hash_quorum_Some c h' b h Hin) in E as [-> ?].
  - intros (h' & _ & E)%find_map_Some. destruct (buckets c !! h') as [b|] eqn:F; [|done].
    by apply (hash_quorum_Some c h' b h F) in E as [-> ?].
Qed.

Lemma quorum_block_hash_complete c h :
  0 <= vc_total_stake c -> hash_has_quorum c h -> is_Some (quorum_block_hash c).
Proof.
  intros Ht Hq. destruct (buckets c !! h) as [b|] eqn:Hb.
  2: { unfold hash_has_quorum, voted_stake_for in Hq. rewrite Hb in Hq.
       apply has_quorum_spec in Hq. lia. }
  assert (Hs : hash_quorum c h b = Some h) by (by apply (hash_quorum_Some c h b h Hb)).
  unfold quorum_block_hash. apply not_eq_None_Some. case_match; intros HN.
  - eapply (find_map_None _ _ (h, b)) in HN; [congruence|]. by apply elem_of_map_to_list.
  - eapply (find_map_None _ _ h) in HN; [simpl in HN; rewrite Hb in HN; congruence|].
    rewrite sort_by_perm. apply list_elem_of_fmap. exists (h, b).
    split; [done|]. by apply elem_of_map_to_list.
Qed.

Section invariant_facts.
Context (ids : list AccountId) (w : AccountId -> Z).
Context (Hids : NoDup ids) (Hw : Forall (fun u => 0 <= w u) ids).
Implicit Types (c : VoteCollector).

Abbreviation total_weight := (wsum w (fun _ => true) ids).

Lemma collector_new_inv slot total : vc_inv ids w (collector_new slot total).
Proof using Type.
  constructor; simpl; try (intros *; rewrite lookup_empty; done).
  intros h. unfold voted_stake_for, first_weight; simpl. rewrite lookup_empty.
  clear. induction ids as [|x l IH]; [done|]. rewrite wsum_cons, <-IH.
  rewrite lookup_empty, bool_decide_false by done. lia.
Qed.

Lemma first_weight_le c h : first_weight ids w c h <= total_weight.
Proof using Hw. by apply wsum_mono. Qed.

(** Adding a vote: what changes in the collector. *)
Lemma add_vote_internal_fresh c v s :
  voter_first_hash c !! voter v = None ->
  let '(c', added) := add_vote_internal c v s in
  added = true /\ vc_total_stake c' = vc_total_stake c /\
  voter_first_hash c' = <[voter v := block_hash v]> (voter_first_hash c) /\
  (forall h, buckets c' !! h =
    if decide (h = block_hash v) then
      let b := default bucket_new (buckets c !! h) in
      Some {| votes := votes b ++ [with_voter_stake v s];
              voted_stake := u64_add (voted_stake b) s |}
    else buckets c !! h).
Proof using Type.
  intros Hn. unfold add_vote_internal; simpl. rewrite Hn. split_and!; try done.
  intros h. simpl. case_decide; subst; by simplify_map_eq.
Qed.

Lemma add_vote_internal_seen c v s h :
  voter_first_hash c !! voter v = Some h ->
  let '(c', added) := add_vote_internal c v s in
  added = false /\ buckets c' = buckets c /\ vc_total_stake c' = vc_total_stake c /\
  voter_first_hash c' = voter_first_hash c /\
  (h <> block_hash v -> equivocators c' !! voter v = Some (h, block_hash v)).
Proof using Type.
  intros Hs. unfold add_vote_internal; simpl. rewrite Hs.
  destruct (negb _) eqn:E; bool_prop; simpl.
  - split_and!; try done. intros _. by simplify_map_eq.
  - split_and!; try done.
Qed.

Lemma vc_inv_ext c c' :
  buckets c' = buckets c -> voter_first_hash c' = voter_first_hash c ->
  vc_inv ids w c -> vc_inv ids w c'.
Proof using Type.
  intros Hb Hf [H1 H2 H3 H4 H5]. constructor; rewrite ?Hb, ?Hf; try done.
  intros h. unfold first_weight, voted_stake_for. rewrite Hb, Hf. apply H2.
Qed.

Lemma add_vote_internal_stake c v s h :
  vc_inv ids w c -> total_weight <= u64_max ->
  voter v ∈ ids \/ w (voter v) = 0 -> s = w (voter v) -> voter_first_hash c !! voter v = None ->
  voted_stake_for (fst (add_vote_internal c v s)) h =
  first_weight ids w (fst (add_vote_internal c v s)) h.
Proof using Hids Hw.
  intros Hinv Hm Hv Hs Hn. pose proof (add_vote_internal_fresh c v s Hn) as Hf.
  destruct (add_vote_internal c v s) as [c' added]; simpl.
  destruct Hf as (_ & _ & Hfh & Hb).
  unfold voted_stake_for. rewrite Hb. case_decide as Hh.
  - subst h. simpl.
    assert (E : first_weight ids w c' (block_hash v) = first_weight ids w c (block_hash v) + s).
    { subst s. destruct (decide (voter v ∈ ids)) as [Hi|Hi].
      - apply wsum_add; try done.
        + by rewrite Hn.
        + rewrite Hfh, lookup_insert_eq. by apply bool_decide_true.
        + intros x Hx. rewrite Hfh. by rewrite lookup_insert_ne by done.
      - destruct Hv as [?|Hz]; [done|]. rewrite Hz, Z.add_0_r. apply wsum_ext.
        intros x Hx. rewrite Hfh, lookup_insert_ne; [done|]. by intros <-. }
    pose proof (first_weight_le c' (block_hash v)) as Hle. rewrite E in Hle |- *.
    pose proof (vc_stake ids w c Hinv (block_hash v)) as Hst.
    assert (voted_stake (default bucket_new (buckets c !! block_hash v)) =
            first_weight ids w c (block_hash v)) as ->.
    { rewrite <-Hst. unfold voted_stake_for. by destruct (buckets c !! block_hash v). }
    apply u64_add_small. split; [|lia].
    rewrite <-E. by apply wsum_nonneg.
  - change (voted_stake_for c h = first_weight ids w c' h).
    rewrite (vc_stake ids w c Hinv h). apply wsum_ext. intros x _. rewrite Hfh.
    apply bool_decide_ext. destruct (decide (x = voter v)) as [->|Hne].
    + rewrite Hn, lookup_insert_eq. naive_solver.
    + by rewrite lookup_insert_ne by done.
Qed.

Lemma add_vote_internal_inv c v s :
  vc_inv ids w c -> total_weight <= u64_max ->
  voter v ∈ ids \/ w (voter v) = 0 -> s = w (voter v) ->
  vc_inv ids w (fst (add_vote_internal c v s)).
Proof using Hids Hw.
  intros Hinv Hm Hv Hs.
  destruct (voter_first_hash c !! voter v) as [h0|] eqn:Hn.
  { pose proof (add_vote_internal_seen c v s h0 Hn) as Hf.
    destruct (add_vote_internal c v s) as [c' added]; simpl.
    destruct Hf as (_ & ? & _ & ? & _). by eapply vc_inv_ext. }
  pose proof (fun h => add_vote_internal_stake c v s h Hinv Hm Hv Hs Hn) as Hst.
  pose proof (add_vote_internal_fresh c v s Hn) as Hf.
  destruct (add_vote_internal c v s) as [c' added]; simpl in *.
  destruct Hf as (_ & _ & Hfh & Hb). destruct Hinv as [H1 H2 H3 H4 H5].
  constructor; [|done| | |].
  - intros u h. rewrite Hfh, lookup_insert_Some. naive_solver.
  - intros h b x. rewrite Hb. case_decide as Hh.
    + subst h. intros [= <-]. simpl. rewrite Hfh, elem_of_app, list_elem_of_singleton.
      intros [Hx| ->]; [|by simplify_map_eq].
      destruct (buckets c !! block_hash v) as [b0|] eqn:Hb0; simpl in Hx; [|by apply elem_of_nil in Hx].
      destruct (H3 _ _ _ Hb0 Hx) as (? & ? & ?). split_and!; [done|done|].
      rewrite lookup_insert_ne by congruence. done.
    + intros Hl Hx. destruct (H3 _ _ _ Hl Hx) as (? & ? & ?). split_and!; [done|done|].
      rewrite Hfh, lookup_insert_ne by congruence. done.
  - intros u h. rewrite Hfh, lookup_insert_Some. intros [[<- <-]|[Hne Hu]].
    + exists {| votes := votes (default bucket_new (buckets c !! block_hash v)) ++
                          [with_voter_stake v s];
                voted_stake := u64_add (voted_stake (default bucket_new
                                  (buckets c !! block_hash v))) s |}, (with_voter_stake v s).
      rewrite Hb, decide_True by done. split_and!; [done| |done].
      simpl. apply elem_of_app; right. by left.
    + destruct (H4 u h Hu) as (b & x & Hb' & Hx & Hxu).
      destruct (decide (h = block_hash v)) as [->|Hh].
      * eexists _, x. rewrite Hb, decide_True by done. split_and!; [done| |done].
        simpl. rewrite Hb'. simpl. apply elem_of_app; by left.
      * exists b, x. rewrite Hb, decide_False by done. done.
  - intros h b. rewrite Hb. case_decide as Hh; [|by apply H5].
    intros [= <-]. simpl. rewrite map_app. simpl. apply NoDup_app. split_and!.
    + destruct (buckets c !! h) as [b0|] eqn:Hb0; simpl; [by eapply H5|constructor].
    + intros u (x & -> & Hx)%list_elem_of_fmap Hu%list_elem_of_singleton. subst h.
      destruct (buckets c !! block_hash v) as [b0|] eqn:Hb0; simpl in Hx; [|by apply elem_of_nil in Hx].
      destruct (H3 _ _ _ Hb0 Hx) as (_ & _ & Hfx). rewrite Hu, Hn in Hfx. done.
    + apply NoDup_singleton.
Qed.

(** Two hashes cannot both hold a quorum. *)
Lemma quorum_unique c h1 h2 :
  vc_inv ids w c -> total_weight <= vc_total_stake c ->
  hash_has_quorum c h1 -> hash_has_quorum c h2 -> h1 = h2.
Proof using Hw.
  intros Hinv Ht. unfold hash_has_quorum.
  rewrite !(vc_stake ids w c Hinv), !has_quorum_spec. intros [? Hq1] [? Hq2].
  destruct (decide (h1 = h2)) as [|Hne]; [done|]. exfalso.
  pose proof (wsum_overlap w
    (fun u => bool_decide (voter_first_hash c !! u = Some h1))
    (fun u => bool_decide (voter_first_hash c !! u = Some h2)) ids Hw) as Ho.
  assert (E : wsum w (fun u => bool_decide (voter_first_hash c !! u = Some h1) &&
                          bool_decide (voter_first_hash c !! u = Some h2)) ids = 0).
  { rewrite (wsum_ext w _ (fun _ => false)).
    - clear. induction ids; [done|]. by rewrite wsum_cons.
    - intros u _. apply andb_false_iff. rewrite !bool_decide_eq_false.
      destruct (decide (voter_first_hash c !! u = Some h1)) as [->|]; [right; congruence|by left]. }
  assert (0 <= total_weight) by (by apply wsum_nonneg).
  unfold first_weight in *. lia.
Qed.

Lemma quorum_block_hash_spec c h :
  vc_inv ids w c -> total_weight <= vc_total_stake c -> 0 <= vc_total_stake c ->
  quorum_block_hash c = Some h <-> hash_has_quorum c h.
Proof using Hw.
  intros Hinv Ht Hp. split; [apply quorum_block_hash_sound|]. intros Hq.
  destruct (quorum_block_hash_complete c h Hp Hq) as [h' Hh']. rewrite Hh'. f_equal.
  eapply quorum_unique; [done|done| |done]. by apply quorum_block_hash_sound.
Qed.
End invariant_facts.

(** ** Signed messages *)

(** Field values within their Rust types. *)
Definition vote_fields_ok (H r : Z) (h : Hash) (u : AccountId) (c : Z) : Prop :=
  is_u64 H /\ is_u32 r /\ is_u32 c /\ 0 <= h < 2 ^ 256 /\ 0 <= u < 2 ^ 256.

Definition tendermint_preimage (slot round : Z) (ty : VoteType) (h : Hash) (u : AccountId)
    (chain_id : Z) : list Z :=
  match ty with
  | Prevote => ascii_bytes "ACE-PREVOTE-V1"
  | Precommit => ascii_bytes "ACE-PRECOMMIT-V1"
  end ++ le_bytes 4 chain_id ++ le_bytes 8 slot ++ le_bytes 4 round ++
  be_bytes 32 h ++ be_bytes 32 u.

Lemma length_tendermint_preimage slot round ty h u c :
  length (tendermint_preimage slot round ty h u c) =
  match ty with Prevote => 94%nat | Precommit => 96%nat end.
Proof.
  unfold tendermint_preimage. rewrite !length_app, !length_be_bytes, !length_le_bytes.
  by destruct ty.
Qed.

Lemma tendermint_preimage_inj H r ty h u c H' r' ty' h' u' c' :
  vote_fields_ok H r h u c -> vote_fields_ok H' r' h' u' c' ->
  tendermint_preimage H r ty h u c = tendermint_preimage H' r' ty' h' u' c' ->
  ty = ty' /\ H = H' /\ r = r' /\ h = h' /\ u = u' /\ c = c'.
Proof.
  intros (? & ? & ? & ? & ?) (? & ? & ? & ? & ?) E.
  assert (ty = ty') as <-.
  { apply (f_equal length) in E. rewrite !length_tendermint_preimage in E. by destruct ty, ty'. }
  unfold tendermint_preimage in E. apply app_inv_head in E.
  apply app_inj_1 in E as [Ec E]; [|by rewrite !length_le_bytes].
  apply app_inj_1 in E as [EH E]; [|by rewrite !length_le_bytes].
  apply app_inj_1 in E as [Er E]; [|by rewrite !length_le_bytes].
  apply app_inj_1 in E as [Eh Eu]; [|by rewrite !length_be_bytes].
  apply le_bytes_inj in Ec, EH, Er; [|unfold_ints; simpl; lia..].
  apply be_bytes_inj in Eh, Eu; [|simpl; lia..]. done.
Qed.

(** Signed votes are bound to what they say.  If SHA-256 does not collide on
    the two inputs, two Tendermint votes are signed over the same message only
    when they are of the same kind and agree on height, round, block, voter and
    chain: a signature cannot be replayed for another vote. *)
Theorem tendermint_messages_distinct (sha256 : list Z -> list Z) H r ty h u c H' r' ty' h' u' c' :
  vote_fields_ok H r h u c -> vote_fields_ok H' r' h' u' c' ->
  (sha256 (tendermint_preimage H r ty h u c) = sha256 (tendermint_preimage H' r' ty' h' u' c') ->
   tendermint_preimage H r ty h u c = tendermint_preimage H' r' ty' h' u' c') ->
  sign_message_tendermint sha256 H r ty h u c = sign_message_tendermint sha256 H' r' ty' h' u' c' ->
  ty = ty' /\ H = H' /\ r = r' /\ h = h' /\ u = u' /\ c = c'.
Proof. intros F F' Hcol E. by apply tendermint_preimage_inj, Hcol. Qed.

Lemma tendermint_messages_distinct_witness :
  sign_message_tendermint id 9 1 Prevote 170 3 7 <> sign_message_tendermint id 9 1 Precommit 170 3 7.
Proof.
  intros E. destruct (tendermint_messages_distinct id 9 1 Prevote 170 3 7 9 1 Precommit 170 3 7)
    as [F _]; [unfold vote_fields_ok; ilia..|by intros|exact E|discriminate F].
Defined.

(** ** Collecting verified votes *)

Section verified.
Context (sha256 : list Z -> list Z) {SB : SigBackend}.

Abbreviation vs_ids vs := (map id_com (validators vs)).

(** A collector counting for the validator set [vs]. *)
Definition counts_for (vs : ValidatorSet) (c : VoteCollector) : Prop :=
  vc_inv (vs_ids vs) (stake_of vs) c /\ vc_total_stake c = total_stake vs.

(** [add_vote_verified] accepts the vote for counting. *)
Definition acceptable (slot : Z) (vs : ValidatorSet) (v : Vote) : Prop :=
  Vote.slot v = slot /\
  exists val, get_by_id vs (voter v) = Some val /\
              vote_verify_signature sha256 v (signing_pubkey val) = true.

Definition add_votes (c : VoteCollector) (vs : ValidatorSet) (l : list Vote) : VoteCollector :=
  foldl (fun c v => fst (add_vote_verified sha256 c v vs)) c l.

Lemma add_vote_internal_slot c v s : vc_slot (fst (add_vote_internal c v s)) = vc_slot c.
Proof. unfold add_vote_internal. repeat case_match; done. Qed.

Lemma add_vote_internal_total c v s :
  vc_total_stake (fst (add_vote_internal c v s)) = vc_total_stake c.
Proof. unfold add_vote_internal. repeat case_match; done. Qed.

Lemma add_vote_verified_cases c v vs :
  (~ acceptable (vc_slot c) vs v /\ add_vote_verified sha256 c v vs = (c, false)) \/
  (acceptable (vc_slot c) vs v /\
   add_vote_verified sha256 c v vs = add_vote_internal c v (stake_of vs (voter v))).
Proof.
  unfold add_vote_verified, acceptable, stake_of.
  destruct (negb _) eqn:E1; bool_prop; [left; naive_solver|].
  destruct (get_by_id vs (voter v)) as [val|]; [|left; naive_solver].
  destruct (vote_verify_signature _ _ _) eqn:E3; [right|left]; naive_solver congruence.
Qed.

Lemma add_vote_verified_counts c v vs :
  vs_wf vs -> counts_for vs c -> counts_for vs (fst (add_vote_verified sha256 c v vs)).
Proof.
  intros Hwf [Hi Ht].
  destruct (add_vote_verified_cases c v vs) as [[_ ->]|[_ ->]]; [done|]. split.
  - apply add_vote_internal_inv; try done.
    + by apply vs_wf_ids.
    + apply Forall_forall. intros u _. by apply stake_of_nonneg.
    + rewrite stake_of_total by done. apply Hwf.
    + apply stake_of_voter.
  - by rewrite add_vote_internal_total.
Qed.

Lemma add_votes_counts l c vs :
  vs_wf vs -> counts_for vs c -> counts_for vs (add_votes c vs l).
Proof.
  intros Hwf. revert c; induction l as [|v l IH]; intros c Hc; simpl; [done|].
  by apply IH, add_vote_verified_counts.
Qed.

Lemma counts_for_new slot vs : counts_for vs (collector_new slot (total_stake vs)).
Proof. split; [apply collector_new_inv|done]. Qed.

Lemma add_vote_verified_slot c v vs :
  vc_slot (fst (add_vote_verified sha256 c v vs)) = vc_slot c.
Proof.
  destruct (add_vote_verified_cases c v vs) as [[_ ->]|[_ ->]]; [done|].
  apply add_vote_internal_slot.
Qed.

Lemma add_vote_internal_first c v s :
  voter_first_hash (fst (add_vote_internal c v s)) =
  match voter_first_hash c !! voter v with
  | Some _ => voter_first_hash c
  | None => <[voter v := block_hash v]> (voter_first_hash c)
  end.
Proof. unfold add_vote_internal; simpl. repeat case_match; done. Qed.

(** Which votes end up counted, when no voter votes for two blocks. *)
Lemma add_votes_first vs l c :
  (forall v1 v2, v1 ∈ l -> v2 ∈ l -> voter v1 = voter v2 -> block_hash v1 = block_hash v2) ->
  (forall v h, v ∈ l -> voter_first_hash c !! voter v = Some h -> h = block_hash v) ->
  forall u h, voter_first_hash (add_votes c vs l) !! u = Some h <->
    voter_first_hash c !! u = Some h \/
    exists v, v ∈ l /\ voter v = u /\ block_hash v = h /\ acceptable (vc_slot c) vs v.
Proof.
  revert c; induction l as [|v l IH]; intros c Hl Hc u h; simpl.
  { split; [by left|]. intros [?|(v & []%elem_of_nil & _)]; done. }
  set (c1 := fst (add_vote_verified sha256 c v vs)).
  assert (Hc1 : forall u' h', voter_first_hash c1 !! u' = Some h' <->
    voter_first_hash c !! u' = Some h' \/
    (voter v = u' /\ block_hash v = h' /\ acceptable (vc_slot c) vs v)).
  { intros u' h'. unfold c1.
    destruct (add_vote_verified_cases c v vs) as [[Ha ->]|[Ha ->]]; [naive_solver|].
    rewrite add_vote_internal_first. destruct (voter_first_hash c !! voter v) as [h0|] eqn:E.
    - pose proof (Hc v h0 ltac:(by left) E). naive_solver.
    - rewrite lookup_insert_Some. destruct (decide (voter v = u')) as [<-|]; naive_solver. }
  fold (add_votes c1 vs l).
  assert (Hsl : vc_slot c1 = vc_slot c) by apply add_vote_verified_slot.
  rewrite IH, Hc1, Hsl.
  - setoid_rewrite elem_of_cons. naive_solver.
  - intros v1 v2 ? ?. apply Hl; by right.
  - intros v' h' Hv' Hf. apply Hc1 in Hf as [Hf|(E1 & E2 & _)].
    + apply (Hc v'); [by right|done].
    + rewrite <-E2. apply Hl; [by left|by right|done].
Qed.

Lemma collector_votes_elem c v :
  v ∈ collector_votes c <-> exists h b, buckets c !! h = Some b /\ v ∈ votes b.
Proof.
  unfold collector_votes. rewrite list_elem_of_join. split.
  - intros (l & Hv & Hl). apply list_elem_of_fmap in Hl as ([h b] & -> & Hb).
    apply elem_of_map_to_list in Hb. eauto.
  - intros (h & b & Hb & Hv). exists (votes b). split; [done|].
    apply list_elem_of_fmap. exists (h, b). by rewrite elem_of_map_to_list.
Qed.
End verified.

(** ** What the offered votes say

    The reference for the collector looks at the list of offered votes only. *)
Section offered.
Context (sha256 : list Z -> list Z) {SB : SigBackend} (slot : Z) (vs : ValidatorSet).

(** A vote for this slot of a validator of the set, signed over its own message
    with the key the set has for the validator. *)
Definition valid_vote (v : Vote) : bool :=
  (Vote.slot v =? slot) &&
  match List.find (fun x => id_com x =? voter v) (validators vs) with
  | Some x => verify_signature (signing_pubkey x) (vote_message sha256 v) (signature v)
  | None => false
  end.

(** The block of the first valid vote of [u]. *)
Definition first_choice (l : list Vote) (u : AccountId) : option Hash :=
  block_hash <$> List.find (fun v => (voter v =? u) && valid_vote v) l.

(** The stake of the validators whose first valid vote is for [h]. *)
Definition stake_behind (l : list Vote) (h : Hash) : Z :=
  wsum (stake_of vs) (fun u => bool_decide (first_choice l u = Some h)) (map id_com (validators vs)).

Lemma first_choice_snoc l v u :
  first_choice (l ++ [v]) u =
    match first_choice l u with
    | Some h => Some h
    | None => if (voter v =? u) && valid_vote v then Some (block_hash v) else None
    end.
Proof.
  unfold first_choice. induction l as [|x l IH]; simpl.
  - by destruct ((voter v =? u) && valid_vote v).
  - by destruct ((voter x =? u) && valid_vote x).
Qed.

Lemma valid_vote_acceptable v : valid_vote v = true <-> acceptable sha256 slot vs v.
Proof.
  unfold valid_vote, acceptable, get_by_id. rewrite andb_true_iff, Z.eqb_eq.
  destruct (List.find _ (validators vs)) as [x|]; [|naive_solver].
  assert (vote_verify_signature sha256 v (signing_pubkey x) =
          verify_signature (signing_pubkey x) (vote_message sha256 v) (signature v)) as E.
  { unfold vote_verify_signature.
    destruct (verify_signature _ _ _) eqn:Ev; [|by repeat case_match].
    apply verify_signature_well_formed in Ev as (E & _ & ->). simpl.
    by rewrite E, bool_decide_true. }
  rewrite <-E. naive_solver.
Qed.

Lemma first_choice_valid l v : v ∈ l -> valid_vote v = true -> is_Some (first_choice l (voter v)).
Proof.
  intros Hx Hy. apply fmap_is_Some. destruct (List.find _ l) eqn:El; [done|]. exfalso.
  pose proof (List.find_none _ _ El v (proj1 (list_elem_of_In _ _) Hx)) as Hz. cbv beta in Hz.
  by rewrite Hy, Z.eqb_refl in Hz.
Qed.

(** [u] has offered a valid vote for another block than its first. *)
Definition conflicting (l : list Vote) (u : AccountId) : Prop :=
  exists v, v ∈ l /\ voter v = u /\ valid_vote v = true /\ first_choice l u <> Some (block_hash v).

Lemma conflicting_snoc l v u :
  conflicting (l ++ [v]) u <->
  conflicting l u \/
  (voter v = u /\ valid_vote v = true /\ exists h, first_choice l u = Some h /\ h <> block_hash v).
Proof.
  unfold conflicting. setoid_rewrite elem_of_app. setoid_rewrite list_elem_of_singleton.
  rewrite first_choice_snoc. split.
  - intros (x & [Hx| ->] & <- & Hy & Hn).
    + left. exists x. split_and!; auto. by destruct (first_choice_valid l x Hx Hy) as [h E]; rewrite E in *.
    + rewrite Z.eqb_refl, Hy in Hn. destruct (first_choice l (voter v)) as [h|]; [|done].
      right. split_and!; try done. exists h. split; [done|congruence].
  - intros [(x & Hx & <- & Hy & Hn)|(<- & Hy & h & E & Hn)].
    + exists x. split_and!; auto. by destruct (first_choice_valid l x Hx Hy) as [h E]; rewrite E in *.
    + exists v. split_and!; auto. rewrite E. congruence.
Qed.

(** The collector agrees with the offered votes on every voter. *)
Lemma add_votes_choices total l :
  let c := add_votes sha256 (collector_new slot total) vs l in
  vc_slot c = slot /\
  (forall u, voter_first_hash c !! u = first_choice l u) /\
  (forall u, is_Some (equivocators c !! u) <-> conflicting l u).
Proof.
  induction l as [|v l IH] using rev_ind; intros c.
  { split_and!; [done|done|]. intros u. simpl. rewrite lookup_empty. split; [by intros []|].
    intros (v & []%elem_of_nil & _). }
  unfold c, add_votes. rewrite foldl_app. fold (add_votes sha256 (collector_new slot total) vs l).
  cbn [foldl]. set (c0 := add_votes _ _ _ _) in *. destruct IH as (Es & Ef & Eq).
  setoid_rewrite conflicting_snoc. setoid_rewrite <-Eq.
  destruct (add_vote_verified_cases sha256 c0 v vs) as [[Ha ->]|[Ha ->]];
    rewrite Es, <-valid_vote_acceptable in Ha; cbn [fst].
  { split_and!; [done| |naive_solver]. intros u. rewrite first_choice_snoc, Ef.
    apply not_true_iff_false in Ha. rewrite Ha, andb_false_r. by destruct (first_choice l u). }
  unfold add_vote_internal. cbn [voter with_voter_stake block_hash]. rewrite Ef.
  destruct (first_choice l (voter v)) as [h0|] eqn:Ev.
  - assert (forall u, first_choice (l ++ [v]) u = first_choice l u) as Hs.
    { intros u. rewrite first_choice_snoc. destruct (first_choice l u) eqn:Eu; [done|].
      destruct (Z.eqb_spec (voter v) u); [congruence|done]. }
    setoid_rewrite Hs. destruct (Z.eqb_spec h0 (block_hash v)) as [->|Hne]; cbn.
    + split_and!; [done|done|naive_solver congruence].
    + split_and!; [done|done|]. intros u. destruct (decide (u = voter v)) as [->|Hu].
      * rewrite lookup_insert_eq. naive_solver.
      * rewrite lookup_insert_ne by done. naive_solver.
  - cbn. split_and!; [done| |naive_solver congruence]. intros u. rewrite first_choice_snoc, Ha, andb_true_r.
    destruct (Z.eqb_spec (voter v) u) as [<-|Hne]; [by rewrite lookup_insert_eq, Ev|].
    rewrite lookup_insert_ne, Ef by done. by destruct (first_choice l u).
Qed.
End offered.

(** C7. The vote collector counts exactly the first valid vote of every
    validator.  Whatever votes are offered, valid or forged, repeated, conflicting,
    of strangers or of other slots: the block a validator is counted for is that of
    the first offered vote of this slot that its key in the set signed; the stake
    counted for a block is the stake of the validators whose first valid vote is
    for it; [quorum_block_hash] returns a block exactly when that stake reaches the
    quorum, and no two blocks ever do; and the recorded equivocators are exactly
    the validators with a valid vote for another block than their first. *)
Theorem collector_quorum_exact sha256 {SB : SigBackend} slot vs l :
  vs_wf vs ->
  let c := add_votes sha256 (collector_new slot (total_stake vs)) vs l in
  let behind := stake_behind sha256 slot vs l in
  (forall u, voter_block_hash c u = first_choice sha256 slot vs l u) /\
  (forall h, voted_stake_for c h = behind h) /\
  (forall h, quorum_block_hash c = Some h <-> has_quorum (behind h) (total_stake vs) = true) /\
  (forall h1 h2, has_quorum (behind h1) (total_stake vs) = true ->
     has_quorum (behind h2) (total_stake vs) = true -> h1 = h2) /\
  (forall u, is_Some (equivocators c !! u) <-> conflicting sha256 slot vs l u).
Proof.
  intros Hwf c behind.
  destruct (add_votes_counts sha256 l _ vs Hwf (counts_for_new slot vs)) as [Hi Ht]. fold c in Hi, Ht.
  destruct (add_votes_choices sha256 slot vs (total_stake vs) l) as (_ & Hf & He). fold c in Hf, He.
  assert (Hn : Forall (fun u => 0 <= stake_of vs u) (map id_com (validators vs))).
  { apply Forall_forall. intros u _. by apply stake_of_nonneg. }
  pose proof (stake_of_total vs Hwf) as Htot. pose proof (wsum_nonneg _ (fun _ => true) _ Hn).
  assert (Hb : forall h, voted_stake_for c h = behind h).
  { intros h. rewrite (vc_stake _ _ _ Hi). apply wsum_ext. intros u _. by rewrite Hf. }
  rewrite <-Ht. split_and!; try done.
  - intros h. rewrite <-Hb. apply (quorum_block_hash_spec _ _ Hn); [done|lia|lia].
  - intros h1 h2. rewrite <-!Hb. apply (quorum_unique _ _ Hn); [done|lia].
Qed.

(** Equivocation is caught and changes no count.  When a validator already
    counted for one block votes for another, the vote is refused, the pair of
    conflicting hashes is recorded against it, and the stake counted for every
    block stays what it was. *)
Theorem equivocation_recorded c v s h0 :
  voter_first_hash c !! voter v = Some h0 -> h0 <> block_hash v ->
  let '(c', added) := add_vote_internal c v s in
  added = false /\ equivocators c' !! voter v = Some (h0, block_hash v) /\
  (forall h, voted_stake_for c' h = voted_stake_for c h) /\
  quorum_block_hash c' = quorum_block_hash c /\
  voter_block_hash c' (voter v) = Some h0.
Proof.
  intros Hf Hne. pose proof (add_vote_internal_seen c v s h0 Hf) as Hs.
  destruct (add_vote_internal c v s) as [c' added].
  destruct Hs as (-> & Hb & Ht & Hv & He). split_and!; auto.
  - intros h. unfold voted_stake_for. by rewrite Hb.
  - unfold quorum_block_hash, hash_quorum. by rewrite Hb, Ht.
  - unfold voter_block_hash. by rewrite Hv.
Qed.

Lemma equivocation_recorded_witness :
  let c := fst (add_vote_raw (collector_new 1 300) 1 170 100) in
  let v := {| slot := 1; block_hash := 187; voter := 1; voter_stake := 100;
              signature := zero_ed25519; chain_id := 0; round := 0; vote_type := Prevote |} in
  equivocators (fst (add_vote_internal c v 100)) !! 1 = Some (170, 187).
Proof.
  intros c v.
  apply (equivocation_recorded c v 100 170); [vm_compute; reflexivity|done].
Defined.

(** Recounting after a validator-set change.  When the generation of the
    validator set has changed, [reconcile_validator_set] yields a collector that
    counts for the new set: a voter is counted for a block exactly when the old
    collector held its vote for that block, the vote is of this slot, the voter
    is in the new set and its signature verifies under the key the new set has
    for it; stakes and total are those of the new set. *)
Theorem reconcile_recounts sha256 {SB : SigBackend} ids w c vs :
  vs_wf vs -> vc_inv ids w c -> validator_set_generation c <> generation vs ->
  let c' := reconcile_validator_set sha256 c vs in
  counts_for vs c' /\
  forall u h, voter_first_hash c' !! u = Some h <->
    exists v b, buckets c !! h = Some b /\ v ∈ votes b /\ voter v = u /\
      acceptable sha256 (vc_slot c) vs v.
Proof.
  intros Hwf Hi Hg. unfold reconcile_validator_set. apply Z.eqb_neq in Hg as ->.
  set (c0 := {| vc_slot := _ |}). fold (add_votes sha256 c0 vs (collector_votes c)).
  assert (Hb : forall v, v ∈ collector_votes c ->
    voter_first_hash c !! voter v = Some (block_hash v)).
  { intros v (h & b & Hb & Hv)%collector_votes_elem.
    destruct (vc_votes _ _ _ Hi _ _ _ Hb Hv) as (-> & _ & ?). done. }
  split.
  - apply add_votes_counts; [done|]. split; [|done].
    eapply (vc_inv_ext _ _ (collector_new (vc_slot c) (total_stake vs)));
      [done|done|apply collector_new_inv].
  - intros u h. rewrite add_votes_first.
    + simpl. rewrite lookup_empty. setoid_rewrite collector_votes_elem. split.
      * intros [?|(v & (h' & b & Hb' & Hv) & <- & <- & Ha)]; [done|].
        destruct (vc_votes _ _ _ Hi _ _ _ Hb' Hv) as (E & _). subst h'. eauto 6.
      * intros (v & b & Hb' & Hv & <- & Ha). right. exists v.
        destruct (vc_votes _ _ _ Hi _ _ _ Hb' Hv) as (E & _).
        split_and!; [by exists h, b|done..].
    + intros v1 v2 H1 H2 E. apply Hb in H1, H2. rewrite E in H1. congruence.
    + intros v h' _. simpl. by rewrite lookup_empty.
Qed.

(** Votes of four equal validators: a valid one, a duplicate, an equivocation,
    and one with a foreign signature. *)
Module SampleVotes.
Import SampleSig SampleSet.
#[local] Existing Instance sample_backend.
Definition sample_vote (u signer : AccountId) (h : Hash) : Vote :=
  {| slot := 5; block_hash := h; voter := u; voter_stake := 1;
     signature := sample_sign signer []; chain_id := 7; round := 0; vote_type := Prevote |}.
Definition sample_votes : list Vote :=
  [sample_vote 1 1 170; sample_vote 1 1 170; sample_vote 2 2 187; sample_vote 2 2 170;
   sample_vote 3 1 170; sample_vote 3 3 170; sample_vote 4 4 170; sample_vote 9 9 170].
Definition sample_collector : VoteCollector :=
  add_votes id (collector_new 5 (total_stake sample_set)) sample_set sample_votes.
(** The same set without validator 3. *)
Definition shrunk_set : ValidatorSet :=
  set_generation (fst (remove_validator sample_set 3)) 1.

Lemma shrunk_set_wf : vs_wf shrunk_set.
Proof.
  pose proof (remove_validator_wf sample_set 3 sample_set_wf) as Hr. unfold shrunk_set.
  destruct (remove_validator sample_set 3) as [s' [v|]]; simpl.
  - destruct Hr as ([] & _). by constructor.
  - destruct Hr as [-> _]. destruct sample_set_wf. by constructor.
Qed.

Lemma sample_collector_inv :
  vc_inv (map id_com (validators sample_set)) (stake_of sample_set) sample_collector.
Proof. apply (add_votes_counts id), counts_for_new. exact sample_set_wf. Qed.

Lemma collector_quorum_exact_witness :
  quorum_block_hash sample_collector = Some 170 /\ voted_stake_for sample_collector 170 = 300 /\
  voter_block_hash sample_collector 2 = Some 187 /\ is_Some (equivocators sample_collector !! 2) /\
  voter_block_hash sample_collector 9 = None.
Proof.
  destruct (collector_quorum_exact id 5 sample_set sample_votes sample_set_wf)
    as (Hf & Hs & Hq & _ & He).
  split_and!.
  - apply Hq. vm_compute. reflexivity.
  - etransitivity; [apply Hs|vm_compute; reflexivity].
  - etransitivity; [apply Hf|vm_compute; reflexivity].
  - apply He. exists (sample_vote 2 2 170).
    split_and!; [apply (list_elem_of_lookup_2 _ 3); reflexivity|reflexivity|vm_compute; reflexivity|].
    vm_compute. discriminate.
  - etransitivity; [apply Hf|vm_compute; reflexivity].
Defined.

Lemma reconcile_recounts_witness :
  voter_first_hash (reconcile_validator_set id sample_collector shrunk_set) !! 3 <> Some 170.
Proof.
  assert (Hg : validator_set_generation sample_collector <> generation shrunk_set).
  { vm_compute. discriminate. }
  destruct (reconcile_recounts id _ _ sample_collector shrunk_set shrunk_set_wf
              sample_collector_inv Hg) as [_ Hf].
  intros (v & b & _ & _ & Hv & _ & val & Hval & _)%Hf. rewrite Hv in Hval.
  vm_compute in Hval. discriminate.
Defined.
End SampleVotes.
