(* ===== verification/Tendermint.v ===== *)
(** The Tendermint round state machine (ace-consensus/src/tendermint.rs).

    One height: rounds of propose, prevote, precommit; locking; buffered votes
    of future rounds.  Every handler returns the new state and the action the
    node must carry out.  The record keeps the seventeen fields of the struct;
    [set_f] replaces one field. *)

From S2P Require Import Prelude SigAlgo ValidatorSet Vote.
Local Open Scope Z_scope.
Local Open Scope ace_scope.

Inductive RoundStep : Type :=
| StepPropose
| StepPrevote
| StepPrecommit
| StepCommitWait
| StepCommitted.

#[global] Instance RoundStep_eq_dec : EqDecision RoundStep.
Proof. solve_decision. Defined.

Definition NIL_BLOCK_HASH : Hash := 0.

Inductive TendermintAction : Type :=
| ActNone
| ScheduleProposal (height round : Z)
| BroadcastPrevote (height round : Z) (block_hash : Hash)
| BroadcastPrecommit (height round : Z) (block_hash : Hash)
| Commit (height round : Z) (block_hash : Hash).

#[global] Instance TendermintAction_eq_dec : EqDecision TendermintAction.
Proof. solve_decision. Defined.

Record TendermintState := mkTM {
  tm_height : Z;
  tm_round : Z;
  tm_step : RoundStep;
  proposal_hash : option Hash;
  proposal_received : bool;
  locked_round : option Z;
  locked_hash : option Hash;
  valid_round : option Z;
  valid_hash : option Hash;
  prevotes : VoteCollector;
  precommits : VoteCollector;
  tm_total_stake : Z;
  prevoted : bool;
  precommitted : bool;
  committed_hash : option Hash;
  future_votes : gmap Z (list (AccountId * Hash * Z * bool));
  past_quorums : gmap (Z * Hash) bool;
}.

Definition set_tm_height (x : Z) (s : TendermintState) : TendermintState :=
  mkTM x (tm_round s) (tm_step s) (proposal_hash s) (proposal_received s) (locked_round
    s) (locked_hash s) (valid_round s) (valid_hash s) (prevotes s) (precommits s)
    (tm_total_stake s) (prevoted s) (precommitted s) (committed_hash s) (future_votes s)
    (past_quorums s).
Definition set_tm_round (x : Z) (s : TendermintState) : TendermintState :=
  mkTM (tm_height s) x (tm_step s) (proposal_hash s) (proposal_received s) (locked_round
    s) (locked_hash s) (valid_round s) (valid_hash s) (prevotes s) (precommits s)
    (tm_total_stake s) (prevoted s) (precommitted s) (committed_hash s) (future_votes s)
    (past_quorums s).
Definition set_tm_step (x : RoundStep) (s : TendermintState) : TendermintState :=
  mkTM (tm_height s) (tm_round s) x (proposal_hash s) (proposal_received s)
    (locked_round s) (locked_hash s) (valid_round s) (valid_hash s) (prevotes s)
    (precommits s) (tm_total_stake s) (prevoted s) (precommitted s) (committed_hash s)
    (future_votes s) (past_quorums s).
Definition set_proposal_hash (x : option Hash) (s : TendermintState) : TendermintState :=
  mkTM (tm_height s) (tm_round s) (tm_step s) x (proposal_received s) (locked_round s)
    (locked_hash s) (valid_round s) (valid_hash s) (prevotes s) (precommits s)
    (tm_total_stake s) (prevoted s) (precommitted s) (committed_hash s) (future_votes s)
    (past_quorums s).
Definition set_proposal_received (x : bool) (s : TendermintState) : TendermintState :=
  mkTM (tm_height s) (tm_round s) (tm_step s) (proposal_hash s) x (locked_round s)
    (locked_hash s) (valid_round s) (valid_hash s) (prevotes s) (precommits s)
    (tm_total_stake s) (prevoted s) (precommitted s) (committed_hash s) (future_votes s)
    (past_quorums s).
Definition set_locked_round (x : option Z) (s : TendermintState) : TendermintState :=
  mkTM (tm_height s) (tm_round s) (tm_step s) (proposal_hash s) (proposal_received s) x
    (locked_hash s) (valid_round s) (valid_hash s) (prevotes s) (precommits s)
    (tm_total_stake s) (prevoted s) (precommitted s) (committed_hash s) (future_votes s)
    (past_quorums s).
Definition set_locked_hash (x : option Hash) (s : TendermintState) : TendermintState :=
  mkTM (tm_height s) (tm_round s) (tm_step s) (proposal_hash s) (proposal_received s)
    (locked_round s) x (valid_round s) (valid_hash s) (prevotes s) (precommits s)
    (tm_total_stake s) (prevoted s) (precommitted s) (committed_hash s) (future_votes s)
    (past_quorums s).
Definition set_valid_round (x : option Z) (s : TendermintState) : TendermintState :=
  mkTM (tm_height s) (tm_round s) (tm_step s) (proposal_hash s) (proposal_received s)
    (locked_round s) (locked_hash s) x (valid_hash s) (prevotes s) (precommits s)
    (tm_total_stake s) (prevoted s) (precommitted s) (committed_hash s) (future_votes s)
    (past_quorums s).
Definition set_valid_hash (x : option Hash) (s : TendermintState) : TendermintState :=
  mkTM (tm_height s) (tm_round s) (tm_step s) (proposal_hash s) (proposal_received s)
    (locked_round s) (locked_hash s) (valid_round s) x (prevotes s) (precommits s)
    (tm_total_stake s) (prevoted s) (precommitted s) (committed_hash s) (future_votes s)
    (past_quorums s).
Definition set_prevotes (x : VoteCollector) (s : TendermintState) : TendermintState :=
  mkTM (tm_height s) (tm_round s) (tm_step s) (proposal_hash s) (proposal_received s)
    (locked_round s) (locked_hash s) (valid_round s) (valid_hash s) x (precommits s)
    (tm_total_stake s) (prevoted s) (precommitted s) (committed_hash s) (future_votes s)
    (past_quorums s).
Definition set_precommits (x : VoteCollector) (s : TendermintState) : TendermintState :=
  mkTM (tm_height s) (tm_round s) (tm_step s) (proposal_hash s) (proposal_received s)
    (locked_round s) (locked_hash s) (valid_round s) (valid_hash s) (prevotes s) x
    (tm_total_stake s) (prevoted s) (precommitted s) (committed_hash s) (future_votes s)
    (past_quorums s).
Definition set_tm_total_stake (x : Z) (s : TendermintState) : TendermintState :=
  mkTM (tm_height s) (tm_round s) (tm_step s) (proposal_hash s) (proposal_received s)
    (locked_round s) (locked_hash s) (valid_round s) (valid_hash s) (prevotes s)
    (precommits s) x (prevoted s) (precommitted s) (committed_hash s) (future_votes s)
    (past_quorums s).
Definition set_prevoted (x : bool) (s : TendermintState) : TendermintState :=
  mkTM (tm_height s) (tm_round s) (tm_step s) (proposal_hash s) (proposal_received s)
    (locked_round s) (locked_hash s) (valid_round s) (valid_hash s) (prevotes s)
    (precommits s) (tm_total_stake s) x (precommitted s) (committed_hash s) (future_votes
    s) (past_quorums s).
Definition set_precommitted (x : bool) (s : TendermintState) : TendermintState :=
  mkTM (tm_height s) (tm_round s) (tm_step s) (proposal_hash s) (proposal_received s)
    (locked_round s) (locked_hash s) (valid_round s) (valid_hash s) (prevotes s)
    (precommits s) (tm_total_stake s) (prevoted s) x (committed_hash s) (future_votes s)
    (past_quorums s).
Definition set_committed_hash (x : option Hash) (s : TendermintState) : TendermintState :=
  mkTM (tm_height s) (tm_round s) (tm_step s) (proposal_hash s) (proposal_received s)
    (locked_round s) (locked_hash s) (valid_round s) (valid_hash s) (prevotes s)
    (precommits s) (tm_total_stake s) (prevoted s) (precommitted s) x (future_votes s)
    (past_quorums s).
Definition set_future_votes (x : gmap Z (list (AccountId * Hash * Z * bool))) (s : TendermintState) : TendermintState :=
  mkTM (tm_height s) (tm_round s) (tm_step s) (proposal_hash s) (proposal_received s)
    (locked_round s) (locked_hash s) (valid_round s) (valid_hash s) (prevotes s)
    (precommits s) (tm_total_stake s) (prevoted s) (precommitted s) (committed_hash s) x
    (past_quorums s).
Definition set_past_quorums (x : gmap (Z * Hash) bool) (s : TendermintState) : TendermintState :=
  mkTM (tm_height s) (tm_round s) (tm_step s) (proposal_hash s) (proposal_received s)
    (locked_round s) (locked_hash s) (valid_round s) (valid_hash s) (prevotes s)
    (precommits s) (tm_total_stake s) (prevoted s) (precommitted s) (committed_hash s)
    (future_votes s) x.

Definition tendermint_new (height total_stake : Z) : TendermintState :=
  {| tm_height := height; tm_round := 0; tm_step := StepPropose;
     proposal_hash := None; proposal_received := false;
     locked_round := None; locked_hash := None;
     valid_round := None; valid_hash := None;
     prevotes := collector_new height total_stake;
     precommits := collector_new height total_stake;
     tm_total_stake := total_stake; prevoted := false; precommitted := false;
     committed_hash := None; future_votes := ∅; past_quorums := ∅ |}.

Definition has_proposal (s : TendermintState) : bool := proposal_received s.

Definition new_height (s : TendermintState) (height total_stake : Z) : TendermintState :=
  {| tm_height := height; tm_round := 0; tm_step := StepPropose;
     proposal_hash := None; proposal_received := false;
     locked_round := None; locked_hash := None;
     valid_round := None; valid_hash := None;
     prevotes := collector_new height total_stake;
     precommits := collector_new height total_stake;
     tm_total_stake := total_stake; prevoted := false; precommitted := false;
     committed_hash := None; future_votes := ∅; past_quorums := ∅ |}.

(** The locks, the valid block, the buffer and the observed quorums persist. *)
Definition new_round (s : TendermintState) (round : Z) : TendermintState :=
  {| tm_height := tm_height s; tm_round := round; tm_step := StepPropose;
     proposal_hash := None; proposal_received := false;
     locked_round := locked_round s; locked_hash := locked_hash s;
     valid_round := valid_round s; valid_hash := valid_hash s;
     prevotes := collector_new (tm_height s) (tm_total_stake s);
     precommits := collector_new (tm_height s) (tm_total_stake s);
     tm_total_stake := tm_total_stake s; prevoted := false; precommitted := false;
     committed_hash := committed_hash s; future_votes := future_votes s;
     past_quorums := past_quorums s |}.

Definition do_prevote (s : TendermintState) (h : Hash) : TendermintState * TendermintAction :=
  if prevoted s then (s, ActNone)
  else
    let s := set_prevoted true s in
    let s := if decide (tm_step s = StepPropose) then set_tm_step StepPrevote s else s in
    (s, BroadcastPrevote (tm_height s) (tm_round s) h).

Definition do_precommit (s : TendermintState) (h : Hash) : TendermintState * TendermintAction :=
  if precommitted s then (s, ActNone)
  else (set_precommitted true s, BroadcastPrecommit (tm_height s) (tm_round s) h).

Definition on_proposal (s : TendermintState) (height round : Z) (h : Hash)
    (vround : option Z) : TendermintState * TendermintAction :=
  if negb (height =? tm_height s) || negb (round =? tm_round s) then (s, ActNone)
  else if proposal_received s then (s, ActNone)
  else if negb (bool_decide (tm_step s = StepPropose)) then (s, ActNone)
  else
    let s := set_proposal_received true (set_proposal_hash (Some h) s) in
    match locked_hash s with
    | Some lh =>
        if h =? lh then do_prevote s h
        else match vround, locked_round s with
             | Some vr, Some lr =>
                 if lr <=? vr then
                   if bool_decide (is_Some (past_quorums s !! (vr, h))) then do_prevote s h
                   else do_prevote s NIL_BLOCK_HASH
                 else do_prevote s NIL_BLOCK_HASH
             | _, _ => do_prevote s NIL_BLOCK_HASH
             end
    | None =>
        match vround with
        | Some vr =>
            if negb (bool_decide (is_Some (past_quorums s !! (vr, h)))) then
              do_prevote s NIL_BLOCK_HASH
            else do_prevote s h
        | None => do_prevote s h
        end
    end.

(** [future_votes.entry(round).or_default().push(..)] *)
Definition buffer_vote (s : TendermintState) (round : Z)
    (v : AccountId * Hash * Z * bool) : TendermintState :=
  set_future_votes
    (<[round := default [] (future_votes s !! round) ++ [v]]> (future_votes s)) s.

(** The tail of [on_prevote]: prevote now if a proposal is waiting. *)
Definition prevote_pending (s : TendermintState) : TendermintState * TendermintAction :=
  if bool_decide (tm_step s = StepPropose) && proposal_received s && negb (prevoted s) then
    let h := default NIL_BLOCK_HASH (proposal_hash s) in
    match locked_hash s with
    | Some lh => if negb (h =? lh) then do_prevote s NIL_BLOCK_HASH else do_prevote s h
    | None => do_prevote s h
    end
  else (s, ActNone).

Definition on_prevote (s : TendermintState) (height round : Z) (h : Hash)
    (u : AccountId) (st : Z) : TendermintState * TendermintAction :=
  if negb (height =? tm_height s) then (s, ActNone)
  else if tm_round s <? round then (buffer_vote s round (u, h, st, false), ActNone)
  else if negb (round =? tm_round s) then (s, ActNone)
  else if bool_decide (tm_step s = StepCommitted) || bool_decide (tm_step s = StepCommitWait)
  then (s, ActNone)
  else
    let s := set_prevotes (fst (add_vote_raw (prevotes s) u h st)) s in
    match quorum_block_hash (prevotes s) with
    | Some q =>
        if negb (q =? NIL_BLOCK_HASH) then
          let s := set_past_quorums (<[(tm_round s, q) := true]> (past_quorums s)) s in
          let s := set_valid_round (Some (tm_round s)) s in
          let s := set_valid_hash (Some q) s in
          if decide (tm_step s = StepPrevote) then
            let s := set_locked_round (Some (tm_round s)) s in
            let s := set_locked_hash (Some q) s in
            let s := set_tm_step StepPrecommit s in
            do_precommit s q
          else prevote_pending s
        else
          if decide (tm_step s = StepPrevote) then
            do_precommit (set_tm_step StepPrecommit s) NIL_BLOCK_HASH
          else prevote_pending s
    | None => prevote_pending s
    end.

Definition on_precommit (s : TendermintState) (height round : Z) (h : Hash)
    (u : AccountId) (st : Z) : TendermintState * TendermintAction :=
  if negb (height =? tm_height s) then (s, ActNone)
  else if tm_round s <? round then (buffer_vote s round (u, h, st, true), ActNone)
  else if negb (round =? tm_round s) then (s, ActNone)
  else if bool_decide (tm_step s = StepCommitted) || bool_decide (tm_step s = StepCommitWait)
  then
    (if bool_decide (tm_step s = StepCommitWait) then
       set_precommits (fst (add_vote_raw (precommits s) u h st)) s
     else s, ActNone)
  else
    let s := set_precommits (fst (add_vote_raw (precommits s) u h st)) s in
    match quorum_block_hash (precommits s) with
    | Some q =>
        if negb (q =? NIL_BLOCK_HASH) then
          let s := set_tm_step StepCommitWait s in
          let s := set_committed_hash (Some q) s in
          (s, Commit (tm_height s) (tm_round s) q)
        else (s, ActNone)
    | None => (s, ActNone)
    end.

Definition on_propose_timeout (s : TendermintState) : TendermintState * TendermintAction :=
  if negb (bool_decide (tm_step s = StepPropose)) then (s, ActNone)
  else do_prevote s NIL_BLOCK_HASH.

Definition on_prevote_timeout (s : TendermintState) : TendermintState * TendermintAction :=
  if negb (bool_decide (tm_step s = StepPrevote)) then (s, ActNone)
  else do_precommit (set_tm_step StepPrecommit s) NIL_BLOCK_HASH.

Definition on_precommit_timeout (s : TendermintState) : TendermintState * TendermintAction :=
  if bool_decide (tm_step s = StepCommitted) || bool_decide (tm_step s = StepCommitWait)
  then (s, ActNone)
  else
    let r := u32_add (tm_round s) 1 in
    (new_round s r, ScheduleProposal (tm_height s) r).

Definition on_commit_wait_timeout (s : TendermintState) : TendermintState * TendermintAction :=
  (if decide (tm_step s = StepCommitWait) then set_tm_step StepCommitted s else s, ActNone).

(** [ConsensusEngine::on_timeout] dispatches on the step. *)
Definition on_timeout (s : TendermintState) : TendermintState * TendermintAction :=
  match tm_step s with
  | StepPropose => on_propose_timeout s
  | StepPrevote => on_prevote_timeout s
  | StepPrecommit => on_precommit_timeout s
  | StepCommitWait => on_commit_wait_timeout s
  | StepCommitted => (s, ActNone)
  end.

Definition force_commit (s : TendermintState) (height round : Z) (h : Hash) : TendermintState :=
  if negb (height =? tm_height s) then s
  else set_committed_hash (Some h) (set_tm_step StepCommitWait (set_tm_round round s)).

Definition restore_lock (s : TendermintState) (round : Z) (h : Hash) : TendermintState :=
  set_locked_hash (Some h) (set_locked_round (Some round) s).

(** The precommit entries win, as in [extend]. *)
Definition tendermint_equivocators (s : TendermintState) : gmap AccountId (Hash * Hash) :=
  equivocators (precommits s) ∪ equivocators (prevotes s).

Definition replay_vote (s : TendermintState) (v : AccountId * Hash * Z * bool)
    : TendermintState * TendermintAction :=
  let '(u, h, st, is_precommit) := v in
  if is_precommit then on_precommit s (tm_height s) (tm_round s) h u st
  else on_prevote s (tm_height s) (tm_round s) h u st.

Fixpoint replay_votes (s : TendermintState) (vs : list (AccountId * Hash * Z * bool))
    : TendermintState * list TendermintAction :=
  match vs with
  | [] => (s, [])
  | v :: vs =>
      let '(s, a) := replay_vote s v in
      let '(s, acts) := replay_votes s vs in
      (s, if decide (a = ActNone) then acts else a :: acts)
  end.

Definition drain_buffered_votes (s : TendermintState)
    : TendermintState * list TendermintAction :=
  match future_votes s !! tm_round s with
  | None => (s, [])
  | Some vs =>
      let s := set_future_votes (delete (tm_round s) (future_votes s)) s in
      let s := if 0 <? tm_round s then
                 set_future_votes (filter (fun '(r, _) => tm_round s <= r) (future_votes s)) s
               else s in
      replay_votes s vs
  end.

(** ** The unit tests of the module, replayed *)

Example basic_commit_flow :
  let s := tendermint_new 1 300 in
  let '(s, a0) := on_proposal s 1 0 170 None in
  let '(s, a1) := on_prevote s 1 0 170 1 100 in
  let '(s, a2) := on_prevote s 1 0 170 2 100 in
  let '(s, a3) := on_precommit s 1 0 170 1 100 in
  let '(s, a4) := on_precommit s 1 0 170 2 100 in
  (a0, a1, a2, a3, a4, tm_step s) =
  (BroadcastPrevote 1 0 170, ActNone, BroadcastPrecommit 1 0 170, ActNone,
   Commit 1 0 170, StepCommitWait).
Proof. vm_compute. reflexivity. Qed.

Example future_precommits_commit_on_drain :
  let s := tendermint_new 1 400 in
  let '(s, _) := on_precommit s 1 1 221 1 100 in
  let '(s, _) := on_precommit s 1 1 221 2 100 in
  let '(s, _) := on_precommit s 1 1 221 3 100 in
  snd (drain_buffered_votes (new_round s 1)) = [Commit 1 1 221].
Proof. vm_compute. reflexivity. Qed.
