(* ===== verification/Wal.v ===== *)
(** The consensus write-ahead log (ace-consensus/src/wal.rs).

    The log is a text file of one JSON object per line, or nothing for a node
    without a data directory.  The file is its bytes: a crash in the middle of a
    write leaves a part of the line, and the next write continues that line.  JSON
    is a third-party crate, so the printer and the parser are parameters; what the
    log relies on is [json_ok].  The disk is assumed to accept every write of a
    node that does not crash. *)

From S2P Require Import Prelude.
Local Open Scope Z_scope.
Local Open Scope ace_scope.

Inductive WalEntry : Type :=
| WalProposal (height round : Z) (block_hash : Hash)
| WalPrevote (height round : Z) (block_hash : Hash)
| WalPrecommit (height round : Z) (block_hash : Hash)
| WalLock (height round : Z) (block_hash : Hash)
| WalHeightAdvance (new_height : Z).

#[global] Instance WalEntry_eq_dec : EqDecision WalEntry.
Proof. solve_decision. Defined.

(** The bytes of the file; [None] is the no-op log. *)
Record ConsensusWal := { wal_file : option (list Z) }.

Definition wal_open (existing : list Z) : ConsensusWal := {| wal_file := Some existing |}.
Definition wal_noop : ConsensusWal := {| wal_file := None |}.

(** ** The standard library's lines

    [BufRead::lines] splits at line feeds and drops a carriage return before one;
    what follows the last line feed is a line if it is not empty.  A line that is
    not UTF-8 is an error. *)

Definition end_line (cur : list Z) : list Z :=
  match cur with
  | b :: l => if b =? 13 then rev l else rev cur
  | [] => []
  end.

(** [cur] is the part of the line that was read, in reverse. *)
Fixpoint split_lines (cur bytes : list Z) : list (list Z) :=
  match bytes with
  | [] => match cur with [] => [] | _ :: _ => [rev cur] end
  | b :: bytes => if b =? 10 then end_line cur :: split_lines [] bytes else split_lines (b :: cur) bytes
  end.

Definition in_range (lo hi b : Z) : bool := (lo <=? b) && (b <=? hi).
Definition is_cont (b : Z) : bool := in_range 128 191 b.

(** Well-formed UTF-8: no overlong form, no surrogate, at most U+10FFFF. *)
Fixpoint utf8_valid (l : list Z) : bool :=
  match l with
  | [] => true
  | a :: l =>
      if a <? 128 then utf8_valid l
      else match l with
      | [] => false
      | b :: l =>
          if in_range 194 223 a then is_cont b && utf8_valid l
          else match l with
          | [] => false
          | c :: l =>
              if in_range 224 239 a then
                in_range (if a =? 224 then 160 else 128) (if a =? 237 then 159 else 191) b && is_cont c && utf8_valid l
              else match l with
              | [] => false
              | d :: l =>
                  in_range 240 244 a && in_range (if a =? 240 then 144 else 128) (if a =? 244 then 143 else 191) b &&
                  is_cont c && is_cont d && utf8_valid l
              end
          end
      end
  end.

(** [line.trim().is_empty()]: only characters with the White_Space property. *)
Fixpoint is_blank (l : list Z) : bool :=
  match l with
  | [] => true
  | a :: l =>
      if in_range 9 13 a || (a =? 32) then is_blank l
      else match l with
      | [] => false
      | b :: l =>
          if (a =? 194) && ((b =? 133) || (b =? 160)) then is_blank l
          else match l with
          | [] => false
          | c :: l =>
              (((a =? 225) && (b =? 154) && (c =? 128)) ||
               ((a =? 226) && (b =? 128) && (in_range 128 138 c || (c =? 168) || (c =? 169) || (c =? 175))) ||
               ((a =? 226) && (b =? 129) && (c =? 159)) ||
               ((a =? 227) && (b =? 128) && (c =? 128))) && is_blank l
          end
      end
  end.

Definition wal_truncate (w : ConsensusWal) : ConsensusWal :=
  match wal_file w with
  | None => w
  | Some _ => {| wal_file := Some [] |}
  end.

Record WalRecovery := {
  rec_height : Z;
  rec_locked_round : option Z;
  rec_locked_hash : option Hash;
  rec_prevoted_round : option Z;
  rec_prevoted_hash : option Hash;
  rec_precommitted_round : option Z;
  rec_precommitted_hash : option Hash;
}.

Definition recovery_default : WalRecovery :=
  {| rec_height := 0; rec_locked_round := None; rec_locked_hash := None;
     rec_prevoted_round := None; rec_prevoted_hash := None;
     rec_precommitted_round := None; rec_precommitted_hash := None |}.

(** The body of the loop of [recover]. *)
Definition recover_step (r : WalRecovery) (e : WalEntry) : WalRecovery :=
  match e with
  | WalHeightAdvance h =>
      {| rec_height := h; rec_locked_round := None; rec_locked_hash := None;
         rec_prevoted_round := None; rec_prevoted_hash := None;
         rec_precommitted_round := None; rec_precommitted_hash := None |}
  | WalLock h rd b =>
      if rec_height r <=? h then
        {| rec_height := h; rec_locked_round := Some rd; rec_locked_hash := Some b;
           rec_prevoted_round := rec_prevoted_round r; rec_prevoted_hash := rec_prevoted_hash r;
           rec_precommitted_round := rec_precommitted_round r;
           rec_precommitted_hash := rec_precommitted_hash r |}
      else r
  | WalPrevote h rd b =>
      if rec_height r <=? h then
        {| rec_height := h; rec_locked_round := rec_locked_round r;
           rec_locked_hash := rec_locked_hash r;
           rec_prevoted_round := Some rd; rec_prevoted_hash := Some b;
           rec_precommitted_round := rec_precommitted_round r;
           rec_precommitted_hash := rec_precommitted_hash r |}
      else r
  | WalPrecommit h rd b =>
      if rec_height r <=? h then
        {| rec_height := h; rec_locked_round := rec_locked_round r;
           rec_locked_hash := rec_locked_hash r;
           rec_prevoted_round := rec_prevoted_round r; rec_prevoted_hash := rec_prevoted_hash r;
           rec_precommitted_round := Some rd; rec_precommitted_hash := Some b |}
      else r
  | WalProposal h _ _ =>
      if rec_height r <=? h then
        {| rec_height := h; rec_locked_round := rec_locked_round r;
           rec_locked_hash := rec_locked_hash r;
           rec_prevoted_round := rec_prevoted_round r; rec_prevoted_hash := rec_prevoted_hash r;
           rec_precommitted_round := rec_precommitted_round r;
           rec_precommitted_hash := rec_precommitted_hash r |}
      else r
  end.

Definition recover_entries (es : list WalEntry) : WalRecovery :=
  foldl recover_step recovery_default es.

(** [io::Error] of kind [InvalidData]. *)
Inductive WalError := InvalidData.

Section json.
Context (to_json : WalEntry -> list Z) (from_json : list Z -> option WalEntry).

Definition wal_write (w : ConsensusWal) (e : WalEntry) : ConsensusWal :=
  match wal_file w with
  | None => w
  | Some bytes => {| wal_file := Some (bytes ++ to_json e ++ [10]) |}
  end.

(** Blank lines and lines that do not parse are skipped. *)
Fixpoint read_lines (lines : list (list Z)) : result WalError (list WalEntry) :=
  match lines with
  | [] => Ok []
  | l :: lines =>
      if negb (utf8_valid l) then Err InvalidData
      else
        let? es := read_lines lines in
        Ok (if is_blank l then es else match from_json l with Some e => e :: es | None => es end)
  end.

Definition wal_read_all (w : ConsensusWal) : result WalError (list WalEntry) :=
  match wal_file w with
  | None => Ok []
  | Some bytes => read_lines (split_lines [] bytes)
  end.

Definition recover (w : ConsensusWal) : WalRecovery :=
  recover_entries (match wal_read_all w with Ok es => es | Err _ => [] end).

(** What the log relies on of the JSON crate: the parser inverts the printer; the
    printed text of an entry has only visible ASCII characters; and neither a
    proper part of it that a crash left, nor such a part or a whole text with more
    texts after it on the same line, is a JSON text of an entry. *)
Definition torn_part (l : list Z) : Prop := l <> [] /\ exists e, l `prefix_of` to_json e.

Record json_ok : Prop := {
  js_parse e : from_json (to_json e) = Some e;
  js_text e : to_json e <> [] /\ Forall (fun b => 33 <= b <= 126) (to_json e);
  js_part e l : l `prefix_of` to_json e -> l <> to_json e -> from_json l = None;
  js_merge ls : (2 <= length ls)%nat -> Forall torn_part ls -> from_json (concat ls) = None;
}.

(** ** The log over its life *)

(** A write, a truncation, and a crash that leaves the first [k] bytes of the
    line of an entry, after which the log is opened again. *)
Inductive WalOp : Type :=
| WWrite (e : WalEntry)
| WTruncate
| WCrash (e : WalEntry) (k : nat).

Definition apply_wal (w : ConsensusWal) (op : WalOp) : ConsensusWal :=
  match op with
  | WWrite e => wal_write w e
  | WTruncate => wal_truncate w
  | WCrash e k => {| wal_file := (fun bytes => bytes ++ take k (to_json e ++ [10])) <$> wal_file w |}
  end.

(** What survives: the entries of the finished lines, and the line that a crash
    left unfinished, with the entry it holds if only its line feed is missing. *)
Record LogView := { lv_done : list WalEntry; lv_open : option (option WalEntry) }.

Definition view_write (v : LogView) (e : WalEntry) : LogView :=
  {| lv_done := lv_done v ++ match lv_open v with None => [e] | Some _ => [] end; lv_open := None |}.

Definition view_op (v : LogView) (op : WalOp) : LogView :=
  match op with
  | WWrite e => view_write v e
  | WTruncate => {| lv_done := []; lv_open := None |}
  | WCrash e k =>
      if bool_decide (k = 0%nat) then v
      else if bool_decide (length (to_json e) < k)%nat then view_write v e
      else
        {| lv_done := lv_done v;
           lv_open := Some (match lv_open v with
                            | None => if bool_decide (k = length (to_json e)) then Some e else None
                            | Some _ => None
                            end) |}
  end.

Definition surviving (ops : list WalOp) : list WalEntry :=
  let v := foldl view_op {| lv_done := []; lv_open := None |} ops in
  lv_done v ++ match lv_open v with Some (Some e) => [e] | _ => [] end.

(** *** The bytes of a log *)

Definition visible (l : list Z) : Prop := Forall (fun b => 33 <= b <= 126) l.

Lemma split_visible l cur bytes :
  visible l -> split_lines cur (l ++ bytes) = split_lines (rev l ++ cur) bytes.
Proof.
  intros Hl. revert cur. induction Hl as [|b l Hb _ IH]; intros cur; [done|]. cbn [app split_lines].
  destruct (Z.eqb_spec b 10); [lia|]. rewrite IH. cbn [rev]. by rewrite <-app_assoc.
Qed.

Lemma split_line l bytes : visible l -> split_lines [] (l ++ [10] ++ bytes) = l :: split_lines [] bytes.
Proof.
  intros Hl. rewrite split_visible, app_nil_r by done. cbn [app split_lines]. rewrite Z.eqb_refl. f_equal.
  unfold end_line. destruct (rev l) as [|b r] eqn:E; [by rewrite <-(rev_involutive l), E|].
  assert (b ∈ l) as Hin by (rewrite <-(rev_involutive l), E; cbn; set_solver).
  unfold visible in Hl. rewrite Forall_forall in Hl. destruct (Z.eqb_spec b 13); [apply Hl in Hin; lia|]. by rewrite <-E, rev_involutive.
Qed.

Lemma split_tail l : visible l -> split_lines [] l = match l with [] => [] | _ => [l] end.
Proof.
  intros Hl. rewrite <-(app_nil_r l) at 1. rewrite split_visible, app_nil_r by done. cbn.
  destruct (rev l) as [|b r] eqn:E; rewrite <-(rev_involutive l), E; [done|]. cbn. by destruct (rev r).
Qed.

Lemma utf8_visible l : visible l -> utf8_valid l = true.
Proof. induction 1 as [|b l Hb _ IH]; [done|]. cbn. destruct (Z.ltb_spec b 128); [done|lia]. Qed.

Lemma blank_visible l : visible l -> l <> [] -> is_blank l = false.
Proof.
  intros Hl Hne. destruct Hl as [|a l Ha Hl]; [done|]. cbn.
  assert (in_range 9 13 a || (a =? 32) = false) as -> by (unfold in_range; lia).
  destruct l as [|b l]; [done|]. destruct (Z.eqb_spec a 194); [lia|]. cbn. destruct l as [|c l]; [done|].
  destruct (Z.eqb_spec a 225); [lia|]. destruct (Z.eqb_spec a 226); [lia|]. by destruct (Z.eqb_spec a 227); [lia|].
Qed.

(** What a line of visible characters gives. *)
Lemma read_visible l : visible l -> l <> [] -> read_lines [l] = Ok (option_list (from_json l)).
Proof.
  intros Hl Hne. cbn. rewrite utf8_visible, blank_visible by done. cbn. by destruct (from_json l).
Qed.

Lemma read_lines_app l1 l2 es1 es2 :
  read_lines l1 = Ok es1 -> read_lines l2 = Ok es2 -> read_lines (l1 ++ l2) = Ok (es1 ++ es2).
Proof.
  revert es1. induction l1 as [|l l1 IH]; intros es1 H1 H2; cbn in *; [by injection H1 as <-|].
  destruct (negb _); [done|]. destruct (read_lines l1) as [es|] eqn:E; [|done]. rewrite (IH es eq_refl H2). cbn in *.
  injection H1 as <-. destruct (is_blank l); [done|]. by destruct (from_json l).
Qed.

(** A file of finished lines and an open one, and its view. *)
Definition open_line (v : LogView) (parts : list (list Z)) : Prop :=
  match lv_open v with
  | None => parts = []
  | Some (Some e) => parts = [to_json e]
  | Some None => parts <> [] /\ from_json (concat parts) = None
  end.

Definition file_view (bytes : list Z) (v : LogView) : Prop :=
  exists lines parts,
    bytes = concat (map (fun l => l ++ [10]) lines) ++ concat parts /\ Forall visible lines /\
    read_lines lines = Ok (lv_done v) /\ Forall torn_part parts /\ open_line v parts.

Section codec.
Hypothesis Hj : json_ok.

Lemma torn_visible parts : Forall torn_part parts -> visible (concat parts).
Proof.
  induction 1 as [|l ls [_ [e [k He]]] _ IH]; [constructor|]. apply Forall_app. split; [|done].
  pose proof (proj2 (js_text Hj e)) as Ht. rewrite He in Ht. by apply Forall_app in Ht as [? _].
Qed.

Lemma parts_nonempty parts : Forall torn_part parts -> parts <> [] -> concat parts <> [].
Proof. destruct 1 as [|l ls [Hl _] _]; [done|]. intros _. cbn. by destruct l. Qed.

Lemma json_part e : torn_part (to_json e).
Proof. split; [apply (js_text Hj e)|by exists e]. Qed.

Lemma split_file lines tail :
  Forall visible lines ->
  split_lines [] (concat (map (fun l => l ++ [10]) lines) ++ tail) = lines ++ split_lines [] tail.
Proof.
  induction 1 as [|l ls Hl _ IH]; [done|]. cbn [map concat]. rewrite <-!app_assoc.
  rewrite split_line by done. cbn [app]. by rewrite IH.
Qed.

(** The open line with one more piece at its end. *)
Lemma parse_more v parts e l :
  open_line v parts -> Forall torn_part parts -> l `prefix_of` to_json e -> l <> [] ->
  from_json (concat (parts ++ [l])) =
    match lv_open v with None => from_json l | Some _ => None end.
Proof.
  intros Ho Ht Hl Hne. unfold open_line in Ho. destruct (lv_open v) as [o|].
  - apply (js_merge Hj); [|apply Forall_app; split; [done|]; constructor; [|done]; split; eauto].
    rewrite length_app. cbn. destruct parts; [|cbn; lia]. by destruct o; naive_solver.
  - subst. cbn. by rewrite app_nil_r.
Qed.

Lemma file_view_write bytes v e :
  file_view bytes v -> file_view (bytes ++ to_json e ++ [10]) (view_write v e).
Proof.
  intros (lines & parts & -> & Hv & Hr & Ht & Ho). destruct (json_part e) as [Hne Hp].
  assert (Forall torn_part (parts ++ [to_json e])) as Ht' by (apply Forall_app; auto using json_part).
  exists (lines ++ [concat (parts ++ [to_json e])]), []. split_and!; [| | |constructor|done].
  - rewrite map_app, concat_app, concat_app. cbn. by rewrite !app_nil_r, <-!app_assoc.
  - apply Forall_app. split; [done|]. constructor; [by apply torn_visible|constructor].
  - apply read_lines_app; [done|]. rewrite read_visible;
      [|by apply torn_visible|by apply parts_nonempty; [|destruct parts]].
    rewrite (parse_more v parts e) by done. rewrite (js_parse Hj). by destruct (lv_open v).
Qed.

Lemma file_view_op bytes v op w :
  file_view bytes v -> apply_wal (wal_open bytes) op = w ->
  exists bytes', w = wal_open bytes' /\ file_view bytes' (view_op v op).
Proof.
  intros H <-. destruct op as [e| |e k]; cbn.
  - eexists. split; [done|]. by apply file_view_write.
  - eexists. split; [done|]. exists [], []. split_and!; constructor || done.
  - eexists. split; [done|]. case_bool_decide as Hk; [subst; by rewrite take_0, app_nil_r|].
    case_bool_decide as Hl; [rewrite take_ge by (rewrite length_app; cbn; lia); by apply file_view_write|].
    rewrite take_app_le by lia. destruct H as (lines & parts & -> & Hv & Hr & Ht & Ho).
    assert (take k (to_json e) <> []) as Hne.
    { intros E%(f_equal length). rewrite length_take in E. cbn in E. lia. }
    assert (take k (to_json e) `prefix_of` to_json e) as Hp by (exists (drop k (to_json e)); by rewrite take_drop).
    exists lines, (parts ++ [take k (to_json e)]). split_and!; [|done|done| |].
    + rewrite concat_app. cbn. by rewrite app_nil_r, app_assoc.
    + apply Forall_app. split; [done|]. constructor; [|done]. split; eauto.
    + pose proof (parse_more v parts e _ Ho Ht Hp Hne) as Hm. unfold open_line in *. cbn.
      destruct (lv_open v) as [o|]; [split; [by destruct parts|done]|]. subst parts.
      case_bool_decide as Hk'; [by rewrite take_ge by lia|]. split; [done|]. rewrite Hm.
      apply (js_part Hj e); [done|]. intros E%(f_equal length). rewrite length_take in E. lia.
Qed.

(** Reading a log gives the entries that survive. *)
Lemma read_all_surviving ops : wal_read_all (foldl apply_wal (wal_open []) ops) = Ok (surviving ops).
Proof.
  assert (forall bytes v, file_view bytes v -> exists bytes',
    foldl apply_wal (wal_open bytes) ops = wal_open bytes' /\ file_view bytes' (foldl view_op v ops)) as Hrun.
  { induction ops as [|op ops IH]; intros bytes v H; cbn [foldl]; [by eauto|].
    destruct (file_view_op bytes v op _ H eq_refl) as (b1 & -> & H1). by apply IH. }
  destruct (Hrun [] {| lv_done := []; lv_open := None |}) as (bytes & -> & lines & parts & -> & Hv & Hr & Ht & Ho).
  { exists [], []. split_and!; constructor || done. }
  unfold surviving. set (v := foldl view_op _ ops) in *. cbn [wal_read_all wal_open wal_file].
  rewrite split_file by done. apply read_lines_app; [done|]. rewrite split_tail by by apply torn_visible.
  unfold open_line in Ho. destruct (lv_open v) as [[e|]|].
  - subst parts. cbn [concat]. rewrite app_nil_r. destruct (js_text Hj e) as [Hne Hvis].
    destruct (to_json e) eqn:E; [done|]. rewrite <-E in *. rewrite read_visible by done. by rewrite (js_parse Hj).
  - destruct Ho as [Hne Hn]. pose proof (parts_nonempty parts Ht Hne) as Hc. pose proof (torn_visible parts Ht) as Hcv.
    destruct (concat parts) as [|b l]; [done|]. rewrite read_visible by done. by rewrite Hn.
  - by subst.
Qed.
End codec.
End json.

(** The height an entry belongs to, and the votes and locks of a height. *)
Definition entry_height (e : WalEntry) : Z :=
  match e with
  | WalProposal h _ _ | WalPrevote h _ _ | WalPrecommit h _ _ | WalLock h _ _ => h
  | WalHeightAdvance h => h
  end.

Definition lock_of (e : WalEntry) : option (Z * Hash) :=
  match e with WalLock _ r b => Some (r, b) | _ => None end.
Definition prevote_of (e : WalEntry) : option (Z * Hash) :=
  match e with WalPrevote _ r b => Some (r, b) | _ => None end.
Definition precommit_of (e : WalEntry) : option (Z * Hash) :=
  match e with WalPrecommit _ r b => Some (r, b) | _ => None end.

(** The last entry selected by [f]. *)
Definition last_of (f : WalEntry -> option (Z * Hash)) (es : list WalEntry) : option (Z * Hash) :=
  last (omap f es).

(** Abstract content of a recovery. *)
Definition recovered (r : WalRecovery) (H : Z) (lk pv pc : option (Z * Hash)) : Prop :=
  rec_height r = H /\
  rec_locked_round r = fst <$> lk /\ rec_locked_hash r = snd <$> lk /\
  rec_prevoted_round r = fst <$> pv /\ rec_prevoted_hash r = snd <$> pv /\
  rec_precommitted_round r = fst <$> pc /\ rec_precommitted_hash r = snd <$> pc.

(** The entries after the last height change, and the height of the last entry. *)
Definition since_step (acc : list WalEntry) (e : WalEntry) : list WalEntry :=
  match e with WalHeightAdvance _ => [] | _ => acc ++ [e] end.
Definition since_advance (es : list WalEntry) : list WalEntry := foldl since_step [] es.
Definition last_height (es : list WalEntry) : Z := foldl (fun _ e => entry_height e) 0 es.

(** Heights only grow: the engine never returns to an earlier height. *)
Fixpoint heights_from (h : Z) (es : list WalEntry) : Prop :=
  match es with
  | [] => True
  | e :: es => h <= entry_height e /\ heights_from (entry_height e) es
  end.

Lemma last_of_snoc f es e :
  last_of f (es ++ [e]) = match f e with Some x => Some x | None => last_of f es end.
Proof.
  unfold last_of. rewrite omap_app. change (omap f [e]) with (match f e with Some x => [x] | None => [] end).
  destruct (f e); [by rewrite last_snoc|by rewrite app_nil_r].
Qed.

Lemma recover_step_recovered r H acc e :
  recovered r H (last_of lock_of acc) (last_of prevote_of acc) (last_of precommit_of acc) -> H <= entry_height e ->
  let acc' := since_step acc e in
  recovered (recover_step r e) (entry_height e) (last_of lock_of acc') (last_of prevote_of acc') (last_of precommit_of acc').
Proof.
  intros (Hh & Hr) He. destruct e as [h a b|h a b|h a b|h a b|h]; cbn [since_step recover_step entry_height] in *;
    [..|done]; rewrite !last_of_snoc; cbn [lock_of prevote_of precommit_of];
    rewrite Hh, (proj2 (Z.leb_le H h)) by lia; unfold recovered; cbn; naive_solver.
Qed.

Lemma recover_from es r H acc :
  recovered r H (last_of lock_of acc) (last_of prevote_of acc) (last_of precommit_of acc) -> heights_from H es ->
  let acc' := foldl since_step acc es in
  recovered (foldl recover_step r es) (foldl (fun _ e => entry_height e) H es)
    (last_of lock_of acc') (last_of prevote_of acc') (last_of precommit_of acc').
Proof.
  revert r H acc. induction es as [|e es IH]; intros r H acc Hr; [done|]. intros [He Hes]. cbn [foldl].
  apply (IH _ (entry_height e)); [|done]. by apply (recover_step_recovered r H acc e).
Qed.

(** C10. Crash recovery.  With a JSON codec that reads back what it writes and
    rejects lines that are cut short or merged ([json_ok]): from a new log, after any sequence of writes, truncations
    and crashes in the middle of a write, reading gives exactly the entries that
    survive: those written since the last truncation, except an entry whose write
    was cut short and the one whose write came next, on the same line.  If the
    heights of these entries only grow, [recover] returns the height of the last
    one, with the last lock, the last prevote and the last precommit since the last
    height change, whatever their height. *)
Theorem wal_recovers_last_votes to_json from_json ops :
  json_ok to_json from_json ->
  let w := foldl (apply_wal to_json) (wal_open []) ops in
  let es := surviving to_json ops in
  wal_read_all from_json w = Ok es /\
  (heights_from 0 es ->
   recovered (recover from_json w) (last_height es) (last_of lock_of (since_advance es))
     (last_of prevote_of (since_advance es)) (last_of precommit_of (since_advance es))).
Proof.
  intros Hj w es. pose proof (read_all_surviving to_json from_json Hj ops) as Hr. split; [done|]. intros Hes.
  unfold recover, w. rewrite Hr. by apply recover_from.
Qed.

(** A log of one height and its votes: no crash, no height change. *)
Lemma recover_one_height to_json from_json es H :
  json_ok to_json from_json -> 0 <= H -> es <> [] ->
  Forall (fun e => entry_height e = H /\ forall h, e <> WalHeightAdvance h) es ->
  recovered (recover from_json (foldl (apply_wal to_json) (wal_open []) (map WWrite es))) H
    (last_of lock_of es) (last_of prevote_of es) (last_of precommit_of es).
Proof.
  intros Hj HH Hne Hes.
  assert (surviving to_json (map WWrite es) = es) as Es.
  { unfold surviving. assert (forall l, foldl (view_op to_json) {| lv_done := l; lv_open := None |} (map WWrite es) =
      {| lv_done := l ++ es; lv_open := None |}) as ->; [|by rewrite app_nil_r].
    clear. induction es as [|e es IH]; intros l; cbn; [by rewrite app_nil_r|]. unfold view_write. cbn.
    by rewrite IH, <-app_assoc. }
  assert (heights_from 0 es /\ last_height es = H /\ since_advance es = es) as (Hg & Hl & Hs).
  { unfold last_height, since_advance. assert (forall h0 acc, h0 <= H -> heights_from h0 es /\
      foldl (fun _ e => entry_height e) h0 es = (if decide (es = []) then h0 else H) /\
      foldl since_step acc es = acc ++ es) as Hall.
    { clear Hne Es. induction Hes as [|e es [He Hn] _ IH]; intros h0 acc Hle; cbn; [by rewrite app_nil_r|].
      rewrite He. destruct (IH H (since_step acc e) ltac:(lia)) as (I1 & I2 & I3). rewrite I2, I3.
      split_and!; [lia|done|by case_decide|]. destruct e; cbn; [by rewrite <-app_assoc..|]. by destruct (Hn new_height). }
    destruct (Hall 0 [] HH) as (? & E2 & ?). rewrite decide_False in E2 by done. done. }
  unfold recover. rewrite (read_all_surviving to_json from_json Hj), Es.
  pose proof (recover_from es recovery_default 0 [] ltac:(done) Hg) as Hr. fold (since_advance es) in Hr.
  fold (last_height es) in Hr. by rewrite Hl, Hs in Hr.
Qed.

(** A line that is not UTF-8 hides the whole log. *)
Lemma recover_bad_line from_json bytes l :
  l ∈ split_lines [] bytes -> utf8_valid l = false -> recover from_json (wal_open bytes) = recovery_default.
Proof.
  intros Hl Hu. unfold recover. cbn [wal_read_all wal_open wal_file].
  assert (read_lines from_json (split_lines [] bytes) = Err InvalidData) as ->; [|done].
  induction (split_lines [] bytes) as [|x ls IH]; [by apply not_elem_of_nil in Hl|].
  cbn. apply elem_of_cons in Hl as [<-|Hl]; [by rewrite Hu|]. by rewrite (IH Hl); destruct (negb _).
Qed.

(** A concrete codec: the entry's code in binary digits, in braces. *)
Module SampleCodec.
Definition entry_tuple (e : WalEntry) : Z * (Z * (Z * Z)) :=
  match e with
  | WalProposal h r b => (0, (h, (r, b)))
  | WalPrevote h r b => (1, (h, (r, b)))
  | WalPrecommit h r b => (2, (h, (r, b)))
  | WalLock h r b => (3, (h, (r, b)))
  | WalHeightAdvance h => (4, (h, (0, 0)))
  end.
Definition tuple_entry (t : Z * (Z * (Z * Z))) : WalEntry :=
  let '(k, (h, (r, b))) := t in
  if k =? 0 then WalProposal h r b
  else if k =? 1 then WalPrevote h r b
  else if k =? 2 then WalPrecommit h r b
  else if k =? 3 then WalLock h r b
  else WalHeightAdvance h.

Fixpoint digits (p : positive) : list Z :=
  match p with
  | xH => [125]
  | xO p => 48 :: digits p
  | xI p => 49 :: digits p
  end.
Fixpoint read_digits (l : list Z) : option positive :=
  match l with
  | [] => None
  | b :: l =>
      if b =? 125 then match l with [] => Some xH | _ => None end
      else if b =? 48 then xO <$> read_digits l
      else if b =? 49 then xI <$> read_digits l
      else None
  end.
Definition sample_json (e : WalEntry) : list Z := 123 :: digits (encode (entry_tuple e)).
Definition sample_parse (l : list Z) : option WalEntry :=
  match l with
  | b :: l => if b =? 123 then tuple_entry <$> (read_digits l ≫= decode) else None
  | [] => None
  end.

Lemma read_digits_digits p : read_digits (digits p) = Some p.
Proof. induction p as [p IH|p IH|]; cbn; [by rewrite IH..|done]. Qed.

Lemma digits_visible p : Forall (fun b => 33 <= b <= 126) (digits p).
Proof. induction p; cbn; constructor; (lia || done). Qed.

Lemma read_digits_part p l : l `prefix_of` digits p -> l <> digits p -> read_digits l = None.
Proof.
  revert l. induction p as [p IH|p IH|]; intros l [k Hk] Hne; cbn in Hk, Hne; destruct l as [|b l]; try done;
    injection Hk as <- Hk; cbn.
  1, 2: rewrite (IH l); [done|by eexists|congruence].
  destruct l; [done|discriminate Hk].
Qed.

Lemma read_digits_brace l : 123 ∈ l -> read_digits l = None.
Proof.
  induction l as [|b l IH]; [done|]. intros [<-|Hl]%elem_of_cons; [done|]. cbn. rewrite (IH Hl).
  destruct (b =? 125); [|by destruct (b =? 48), (b =? 49)]. destruct l; [by apply not_elem_of_nil in Hl|done].
Qed.

Lemma sample_part_brace l : torn_part sample_json l -> exists l', l = 123 :: l'.
Proof. intros [Hne [e [k Hk]]]. destruct l as [|b l]; [done|]. injection Hk as <- _. eauto. Qed.

Lemma sample_json_ok : json_ok sample_json sample_parse.
Proof.
  split.
  - intros e. unfold sample_parse, sample_json. cbn. rewrite read_digits_digits. cbn. rewrite decode_encode. by destruct e.
  - intros e. split; [done|]. constructor; [lia|apply digits_visible].
  - intros e l [k Hk] Hne. destruct l as [|b l]; [done|]. unfold sample_json in *. injection Hk as <- Hk. cbn.
    rewrite (read_digits_part (encode (entry_tuple e)) l); [done|by eexists|congruence].
  - intros ls Hl Hls. destruct Hls as [|a ls Ha Hls]; [cbn in Hl; lia|]. destruct Hls as [|b ls Hb Hls]; [cbn in Hl; lia|].
    apply sample_part_brace in Ha as [a' ->]. apply sample_part_brace in Hb as [b' ->]. cbn.
    rewrite read_digits_brace; [done|]. set_solver.
Qed.

(** Two crashes: the lock of height 8 is cut short, the vote after it is lost with
    it, and the log goes on at height 9. *)
Definition crashes : list WalOp :=
  [WWrite (WalProposal 8 0 170); WTruncate; WWrite (WalPrevote 8 0 170); WCrash (WalLock 8 0 170) 5;
   WWrite (WalPrevote 8 1 0); WWrite (WalLock 8 1 171); WWrite (WalPrecommit 9 0 5); WCrash (WalLock 9 0 5) 3].

Lemma wal_recovers_last_votes_witness :
  let w := foldl (apply_wal sample_json) (wal_open []) crashes in
  wal_read_all sample_parse w = Ok [WalPrevote 8 0 170; WalLock 8 1 171; WalPrecommit 9 0 5] /\
  recovered (recover sample_parse w) 9 (Some (1, 171)) (Some (0, 170)) (Some (0, 5)).
Proof.
  destruct (wal_recovers_last_votes sample_json sample_parse crashes sample_json_ok) as [Hr Hv].
  assert (surviving sample_json crashes = [WalPrevote 8 0 170; WalLock 8 1 171; WalPrecommit 9 0 5]) as E
    by (vm_compute; reflexivity).
  rewrite E in Hr, Hv. split; [exact Hr|]. apply Hv. cbn. split_and!; lia || done.
Defined.
End SampleCodec.
