(* ===== verification/Node.v ===== *)
(** The consensus loop of a validator node (ace-node/src/node.rs): the handlers
    of authenticated prevotes, precommits and commit certificates, the execution
    of the state machine's actions (signing, broadcasting, feeding the node's
    own votes back, write-ahead logging), round timeouts, height changes, and
    the restoration of the lock at start-up.

    The model keeps what consensus depends on: the Tendermint state, the
    validator set, the entries of the write-ahead log ([Wal] has its file), the buffer of signed precommits and the
    pending commit.  Block building and execution, timers and metrics are
    outside; a validated proposal arrives as an event with its block hash. *)

From S2P Require Import Prelude SigAlgo ValidatorSet Vote Tendermint Wal.
Local Open Scope Z_scope.
Local Open Scope ace_scope.

(** ** Messages (ace-p2p/src/messages.rs) *)

Record NetworkPrevote := {
  pv_height : Z;
  pv_round : Z;
  pv_block_hash : Hash;
  pv_voter : AccountId;
  pv_voter_stake : Z;
  pv_signature : TaggedSignature;
  pv_chain_id : Z;
}.

Record NetworkPrecommit := {
  pc_height : Z;
  pc_round : Z;
  pc_block_hash : Hash;
  pc_voter : AccountId;
  pc_voter_stake : Z;
  pc_signature : TaggedSignature;
  pc_chain_id : Z;
}.

Record CommitCertificate := {
  cert_height : Z;
  cert_round : Z;
  cert_block_hash : Hash;
  cert_chain_id : Z;
  cert_precommits : list NetworkPrecommit;
}.

Inductive NetworkMessage : Type :=
| NetPrevote (pv : NetworkPrevote)
| NetPrecommit (pc : NetworkPrecommit)
| NetCommitCertificate (cert : CommitCertificate).

(** ** The node *)

Record NodeState := {
  engine_tm : TendermintState;
  engine_validator_set : ValidatorSet;
  consensus_wal : list WalEntry;
  signed_precommits_for_cert : list NetworkPrecommit;
  pending_commit : option (Z * Z * Hash);
}.

Definition set_tm (nd : NodeState) (s : TendermintState) : NodeState :=
  {| engine_tm := s; engine_validator_set := engine_validator_set nd;
     consensus_wal := consensus_wal nd;
     signed_precommits_for_cert := signed_precommits_for_cert nd;
     pending_commit := pending_commit nd |}.

Definition append_wal (nd : NodeState) (es : list WalEntry) : NodeState :=
  {| engine_tm := engine_tm nd; engine_validator_set := engine_validator_set nd;
     consensus_wal := consensus_wal nd ++ es;
     signed_precommits_for_cert := signed_precommits_for_cert nd;
     pending_commit := pending_commit nd |}.

Definition set_pending (nd : NodeState) (p : option (Z * Z * Hash)) : NodeState :=
  {| engine_tm := engine_tm nd; engine_validator_set := engine_validator_set nd;
     consensus_wal := consensus_wal nd;
     signed_precommits_for_cert := signed_precommits_for_cert nd;
     pending_commit := p |}.

(** One signed precommit per voter and round is kept. *)
Definition buffer_precommit (nd : NodeState) (pc : NetworkPrecommit) : NodeState :=
  if existsb (fun p => (pc_voter p =? pc_voter pc) && (pc_round p =? pc_round pc))
       (signed_precommits_for_cert nd)
  then nd
  else {| engine_tm := engine_tm nd; engine_validator_set := engine_validator_set nd;
          consensus_wal := consensus_wal nd;
          signed_precommits_for_cert := signed_precommits_for_cert nd ++ [pc];
          pending_commit := pending_commit nd |}.

Section node.
(** SHA-256 and the signature crates are third-party code; [local_sign] is
    the node's own signing key. *)
Context (sha256 : list Z -> list Z) {SB : SigBackend}.
Context (chain_id : Z) (local_id : AccountId) (local_sign : list Z -> TaggedSignature).

Definition prevote_sign_message (height round : Z) (h : Hash) (u : AccountId) (cid : Z)
    : list Z :=
  sha256 (ascii_bytes "ACE-PREVOTE-V1" ++ le_bytes 4 cid ++ le_bytes 8 height ++
          le_bytes 4 round ++ be_bytes 32 h ++ be_bytes 32 u).

Definition precommit_sign_message (height round : Z) (h : Hash) (u : AccountId) (cid : Z)
    : list Z :=
  sha256 (ascii_bytes "ACE-PRECOMMIT-V1" ++ le_bytes 4 cid ++ le_bytes 8 height ++
          le_bytes 4 round ++ be_bytes 32 h ++ be_bytes 32 u).

Definition verify_tendermint_prevote (vs : ValidatorSet) (pv : NetworkPrevote) : bool :=
  if negb (pv_chain_id pv =? chain_id) then false
  else match get_by_id vs (pv_voter pv) with
       | None => false
       | Some validator =>
           if negb (signature_is_well_formed (pv_signature pv)) then false
           else verify_signature (signing_pubkey validator)
                  (prevote_sign_message (pv_height pv) (pv_round pv) (pv_block_hash pv)
                     (pv_voter pv) (pv_chain_id pv)) (pv_signature pv)
       end.

Definition verify_tendermint_precommit (vs : ValidatorSet) (pc : NetworkPrecommit) : bool :=
  if negb (pc_chain_id pc =? chain_id) then false
  else match get_by_id vs (pc_voter pc) with
       | None => false
       | Some validator =>
           if negb (signature_is_well_formed (pc_signature pc)) then false
           else verify_signature (signing_pubkey validator)
                  (precommit_sign_message (pc_height pc) (pc_round pc) (pc_block_hash pc)
                     (pc_voter pc) (pc_chain_id pc)) (pc_signature pc)
       end.

(** *** Executing an action

    The function is recursive in the code; [fuel] bounds the nesting, and
    [execute_stable] below shows that five levels are always enough.  The
    second component is what was put on the network, in order. *)
Fixpoint execute_action (fuel : nat) (nd : NodeState) (a : TendermintAction)
    : NodeState * list NetworkMessage :=
  match fuel with
  | O => (nd, [])
  | S fuel =>
      let vs := engine_validator_set nd in
      match a with
      | ActNone => (nd, [])
      | BroadcastPrevote height round h =>
          let signature := local_sign (prevote_sign_message height round h local_id chain_id) in
          let st := stake_of vs local_id in
          let '(s, next) := on_prevote (engine_tm nd) height round h local_id st in
          let pv := {| pv_height := height; pv_round := round; pv_block_hash := h;
                       pv_voter := local_id; pv_voter_stake := st;
                       pv_signature := signature; pv_chain_id := chain_id |} in
          let nd := append_wal (set_tm nd s) [WalPrevote height round h] in
          let '(nd, sent) := execute_action fuel nd next in
          (nd, NetPrevote pv :: sent)
      | BroadcastPrecommit height round h =>
          let signature := local_sign (precommit_sign_message height round h local_id chain_id) in
          let st := stake_of vs local_id in
          let '(s, next) := on_precommit (engine_tm nd) height round h local_id st in
          let pc := {| pc_height := height; pc_round := round; pc_block_hash := h;
                       pc_voter := local_id; pc_voter_stake := st;
                       pc_signature := signature; pc_chain_id := chain_id |} in
          let nd := buffer_precommit (set_tm nd s) pc in
          let nd := append_wal nd [WalPrecommit height round h] in
          let nd := if negb (h =? NIL_BLOCK_HASH) then append_wal nd [WalLock height round h]
                    else nd in
          let '(nd, sent) := execute_action fuel nd next in
          (nd, NetPrecommit pc :: sent)
      | Commit height round h => (set_pending nd (Some (height, round, h)), [])
      | ScheduleProposal _ _ =>
          let '(s, actions) := drain_buffered_votes (engine_tm nd) in
          foldl (fun '(nd, sent) a =>
                   let '(nd, sent') := execute_action fuel nd a in (nd, sent ++ sent'))
            (set_tm nd s, []) actions
      end
  end.

Definition execute_tendermint_action := execute_action 5.

(** *** Handlers of network messages *)

Definition handle_prevote (nd : NodeState) (pv : NetworkPrevote)
    : NodeState * list NetworkMessage :=
  let canonical_stake := stake_of (engine_validator_set nd) (pv_voter pv) in
  if canonical_stake =? 0 then (nd, [])
  else if negb (verify_tendermint_prevote (engine_validator_set nd) pv) then (nd, [])
  else
    let '(s, action) := on_prevote (engine_tm nd) (pv_height pv) (pv_round pv)
                          (pv_block_hash pv) (pv_voter pv) canonical_stake in
    execute_tendermint_action (set_tm nd s) action.

Definition handle_precommit (nd : NodeState) (pc : NetworkPrecommit)
    : NodeState * list NetworkMessage :=
  let canonical_stake := stake_of (engine_validator_set nd) (pc_voter pc) in
  if canonical_stake =? 0 then (nd, [])
  else if negb (verify_tendermint_precommit (engine_validator_set nd) pc) then (nd, [])
  else
    let nd := if pc_height pc =? tm_height (engine_tm nd) then buffer_precommit nd pc else nd in
    let '(s, action) := on_precommit (engine_tm nd) (pc_height pc) (pc_round pc)
                          (pc_block_hash pc) (pc_voter pc) canonical_stake in
    execute_tendermint_action (set_tm nd s) action.

Definition pc_matches (cert : CommitCertificate) (pc : NetworkPrecommit) : bool :=
  (pc_height pc =? cert_height cert) && (pc_round pc =? cert_round cert) &&
  (pc_block_hash pc =? cert_block_hash cert).

(** The loop that accumulates the stake of a certificate; [seen] is the set
    of voters already met. *)
Fixpoint cert_stake (vs : ValidatorSet) (cert : CommitCertificate) (seen : gset AccountId)
    (acc : Z) (pcs : list NetworkPrecommit) : Z :=
  match pcs with
  | [] => acc
  | pc :: pcs =>
      if negb (pc_matches cert pc) then cert_stake vs cert seen acc pcs
      else if decide (pc_voter pc ∈ seen) then cert_stake vs cert seen acc pcs
      else
        let seen := {[pc_voter pc]} ∪ seen in
        match get_by_id vs (pc_voter pc) with
        | None => cert_stake vs cert seen acc pcs
        | Some validator =>
            if negb (verify_tendermint_precommit vs pc) then cert_stake vs cert seen acc pcs
            else cert_stake vs cert seen (u64_add acc (stake validator)) pcs
        end
  end.

Definition handle_commit_certificate (nd : NodeState) (cert : CommitCertificate)
    : NodeState * list NetworkMessage :=
  let s := engine_tm nd in
  if negb (cert_height cert =? tm_height s) then (nd, [])
  else if bool_decide (tm_step s = StepCommitWait) || bool_decide (tm_step s = StepCommitted)
  then (nd, [])
  else if negb (cert_chain_id cert =? chain_id) then (nd, [])
  else if cert_block_hash cert =? NIL_BLOCK_HASH then (nd, [])
  else
    let vs := engine_validator_set nd in
    let verified_stake := cert_stake vs cert ∅ 0 (cert_precommits cert) in
    if negb (has_quorum verified_stake (total_stake vs)) then (nd, [])
    else
      let nd := foldl (fun nd pc => if pc_matches cert pc then buffer_precommit nd pc else nd)
                  nd (cert_precommits cert) in
      let nd := set_tm nd (force_commit s (cert_height cert) (cert_round cert)
                             (cert_block_hash cert)) in
      (set_pending nd (Some (cert_height cert, cert_round cert, cert_block_hash cert)),
       [NetCommitCertificate cert]).

(** *** Local events *)

(** A proposal whose block passed validation ([ProposalValidated]). *)
Definition handle_proposal_validated (nd : NodeState) (height round : Z) (h : Hash)
    (valid_round : option Z) : NodeState * list NetworkMessage :=
  if negb (height =? tm_height (engine_tm nd)) then (nd, [])
  else
    let nd := append_wal nd [WalProposal height round h] in
    let '(s, action) := on_proposal (engine_tm nd) height round h valid_round in
    execute_tendermint_action (set_tm nd s) action.

(** The node's own proposal ([LocalProposalBuilt]); [is_proposer] is the
    leader schedule's answer for the height and round. *)
Definition handle_local_proposal (nd : NodeState) (height round : Z) (h : Hash)
    (is_proposer : bool) : NodeState * list NetworkMessage :=
  let s := engine_tm nd in
  if (height =? tm_height s) && (round =? tm_round s) &&
     bool_decide (tm_step s = StepPropose) && is_proposer && negb (has_proposal s)
  then
    let '(s, action) := on_proposal s height round h None in
    execute_tendermint_action (set_tm nd s) action
  else (nd, []).

Definition handle_timeout (nd : NodeState) : NodeState * list NetworkMessage :=
  let '(s, action) := on_timeout (engine_tm nd) in
  execute_tendermint_action (set_tm nd s) action.

(** [ConsensusEngine::advance_height], with the effective validator set of
    the new height. *)
Definition advance_height (nd : NodeState) (height : Z) (vs : ValidatorSet) : NodeState :=
  {| engine_tm := new_height (engine_tm nd) height (total_stake vs);
     engine_validator_set := vs; consensus_wal := consensus_wal nd;
     signed_precommits_for_cert := signed_precommits_for_cert nd;
     pending_commit := pending_commit nd |}.

(** The end of the loop body: once the commit wait is over and the block is
    applied, the log is truncated and the next height begins. *)
Definition finish_height (nd : NodeState) (vs : ValidatorSet) : NodeState :=
  let s := engine_tm nd in
  if bool_decide (tm_step s = StepCommitted) && bool_decide (is_Some (committed_hash s)) &&
     bool_decide (pending_commit nd = None)
  then
    let nd := advance_height nd (u64_add (tm_height s) 1) vs in
    {| engine_tm := engine_tm nd; engine_validator_set := engine_validator_set nd;
       consensus_wal := []; signed_precommits_for_cert := []; pending_commit := None |}
  else nd.

(** A block of slot [block_slot] was applied by block sync. *)
Definition maybe_advance_engine_to_synced_block (nd : NodeState) (block_slot : Z)
    (vs : ValidatorSet) : NodeState :=
  let next_height := u64_saturating_add block_slot 1 in
  if next_height <=? tm_height (engine_tm nd) then nd
  else advance_height nd next_height vs.

(** The committed block was applied to the state. *)
Definition commit_applied (nd : NodeState) : NodeState := set_pending nd None.

(** *** Start-up

    The engine starts at the height after the stored tip; the lock of the
    write-ahead log is restored only if it is of this height and its block is
    in the block store, otherwise the log is truncated. *)
Definition startup (wal : list WalEntry) (starting_height : Z) (vs : ValidatorSet)
    (block_exists : Hash -> bool) : NodeState :=
  let recovery := recover_entries wal in
  let s := new_height (tendermint_new 1 (total_stake vs)) starting_height (total_stake vs) in
  let '(s, lock_valid) :=
    match rec_locked_round recovery, rec_locked_hash recovery with
    | Some lr, Some lh =>
        if (rec_height recovery =? starting_height) && block_exists lh
        then (restore_lock s lr lh, true) else (s, false)
    | _, _ => (s, false)
    end in
  {| engine_tm := s; engine_validator_set := vs;
     consensus_wal := if lock_valid then wal else [];
     signed_precommits_for_cert := []; pending_commit := None |}.
End node.

(** ** The recursion of [execute_tendermint_action] is at most five deep *)

Definition action_depth (s : TendermintState) (a : TendermintAction) : nat :=
  match a with
  | ActNone | Commit _ _ _ => 1
  | BroadcastPrecommit _ _ _ => 2
  | BroadcastPrevote _ _ _ => if prevoted s then 3 else 4
  | ScheduleProposal _ _ => 5
  end.

Lemma do_precommit_depth s h :
  let '(s', a) := do_precommit s h in (action_depth s' a <= 2)%nat.
Proof. unfold do_precommit. destruct (precommitted s); simpl; lia. Qed.

Lemma do_prevote_depth s h :
  let '(s', a) := do_prevote s h in (action_depth s' a <= 3)%nat.
Proof. unfold do_prevote. destruct (prevoted s); simpl; [lia|]. case_decide; simpl; lia. Qed.

Lemma prevote_pending_depth s :
  let '(s', a) := prevote_pending s in
  (action_depth s' a < (if prevoted s then 3 else 4))%nat.
Proof.
  unfold prevote_pending. destruct (_ && _) eqn:E; [|simpl; case_match; lia]. bool_prop.
  rewrite H0. pose proof (do_prevote_depth s) as Hd. cbv zeta.
  destruct (locked_hash s) as [lh|].
  - destruct (negb _).
    + specialize (Hd NIL_BLOCK_HASH). destruct (do_prevote _ _). lia.
    + specialize (Hd (default NIL_BLOCK_HASH (proposal_hash s))). destruct (do_prevote _ _). lia.
  - specialize (Hd (default NIL_BLOCK_HASH (proposal_hash s))). destruct (do_prevote _ _). lia.
Qed.

Lemma on_prevote_depth s H r h u st :
  let '(s', a) := on_prevote s H r h u st in
  (action_depth s' a < (if prevoted s then 3 else 4))%nat.
Proof.
  assert (Hnone : (1 < (if prevoted s then 3 else 4))%nat) by (case_match; lia).
  assert (Hpc : forall s1 h1, let '(s', a) := do_precommit s1 h1 in
                (action_depth s' a < (if prevoted s then 3 else 4))%nat).
  { intros s1 h1. pose proof (do_precommit_depth s1 h1). destruct (do_precommit s1 h1).
    case_match; lia. }
  unfold on_prevote.
  destruct (negb (H =? _)); [done|]. destruct (_ <? r); [done|].
  destruct (negb (r =? _)); [done|]. destruct (_ || _); [done|]. cbv zeta.
  set (s1 := set_prevotes _ _).
  destruct (quorum_block_hash _) as [q|]; [|apply (prevote_pending_depth s1)].
  destruct (negb _).
  - case_decide; [apply Hpc|].
    match goal with |- context [prevote_pending ?x] => apply (prevote_pending_depth x) end.
  - case_decide; [apply Hpc|apply (prevote_pending_depth s1)].
Qed.

Lemma on_precommit_depth s H r h u st :
  let '(s', a) := on_precommit s H r h u st in (action_depth s' a <= 1)%nat.
Proof. unfold on_precommit. repeat first [done | case_match; simplify_eq]. Qed.

(** Replayed votes never ask for a new round. *)
Lemma on_prevote_no_schedule s H r h u st H' r' :
  snd (on_prevote s H r h u st) <> ScheduleProposal H' r'.
Proof.
  intros E. pose proof (on_prevote_depth s H r h u st) as Hd.
  destruct (on_prevote s H r h u st) as [s' a]. simpl in E. subst a. simpl in Hd.
  case_match; lia.
Qed.

Lemma replay_votes_no_schedule vs s a :
  a ∈ snd (replay_votes s vs) -> (forall s', (action_depth s' a <= 4)%nat).
Proof.
  revert s; induction vs as [|[[[u h] st] b] vs IH]; intros s; cbn [replay_votes].
  { intros Ha. by apply elem_of_nil in Ha. }
  destruct (replay_vote s (u, h, st, b)) as [s1 a1] eqn:E1.
  destruct (replay_votes s1 vs) as [s2 acts] eqn:E2. simpl.
  assert (Ha1 : forall s', (action_depth s' a1 <= 4)%nat).
  { intros s'. destruct a1; simpl; try lia; [|case_match; lia]. exfalso.
    unfold replay_vote in E1. destruct b.
    - pose proof (on_precommit_depth s (tm_height s) (tm_round s) h u st) as Hd.
      rewrite E1 in Hd. simpl in Hd. lia.
    - eapply (on_prevote_no_schedule s (tm_height s) (tm_round s) h u st). by rewrite E1. }
  specialize (IH s1). rewrite E2 in IH. simpl in IH.
  case_decide; [done|]. intros [->|?]%elem_of_cons; auto.
Qed.

Section depth.
Context (sha256 : list Z -> list Z) {SB : SigBackend}.
Context (chain_id : Z) (local_id : AccountId) (local_sign : list Z -> TaggedSignature).
Abbreviation exec := (execute_action sha256 chain_id local_id local_sign).

Lemma execute_stable d n m nd a :
  (action_depth (engine_tm nd) a <= d)%nat -> (d <= n)%nat -> (d <= m)%nat ->
  exec n nd a = exec m nd a.
Proof.
  revert n m nd a; induction d as [|d IH]; intros n m nd a Hd Hn Hm.
  { destruct a; simpl in Hd; try lia. case_match; lia. }
  destruct n as [|n]; [lia|]. destruct m as [|m]; [lia|]. simpl.
  destruct a as [|H r|H r h|H r h|H r h]; try done.
  - unfold drain_buffered_votes. simpl in Hd.
    destruct (future_votes _ !! _) as [vs|]; [|done]. cbv zeta.
    match goal with |- context [replay_votes ?x vs] => set (s1 := x) end.
    pose proof (fun a => replay_votes_no_schedule vs s1 a) as Hacts.
    destruct (replay_votes s1 vs) as [s2 acts]. simpl in Hacts.
    generalize (@nil NetworkMessage) at 1 2, (set_tm nd s2).
    induction acts as [|a acts IHa]; intros sent nd'; simpl; [done|].
    rewrite (IH n m nd' a); [|specialize (Hacts a ltac:(by left) (engine_tm nd')); lia|lia..].
    destruct (exec m nd' a) as [nd1 sent1]. apply IHa. intros; apply Hacts; by right.
  - pose proof (on_prevote_depth (engine_tm nd) H r h local_id
                  (stake_of (engine_validator_set nd) local_id)) as Hp.
    destruct (on_prevote _ _ _ _ _ _) as [s next]. simpl in Hd.
    rewrite (IH n m); [done| |lia..]. simpl. lia.
  - pose proof (on_precommit_depth (engine_tm nd) H r h local_id
                  (stake_of (engine_validator_set nd) local_id)) as Hp.
    destruct (on_precommit _ _ _ _ _ _) as [s next]. simpl in Hd.
    rewrite (IH n m); [done| |lia..].
    match goal with |- (action_depth (engine_tm ?x) _ <= _)%nat =>
      assert (engine_tm x = s) as ->; [|lia] end.
    unfold buffer_precommit. repeat case_match; done.
Qed.

Lemma execute_prevote_sends n nd H r h :
  exists out, snd (exec (S n) nd (BroadcastPrevote H r h)) =
    NetPrevote {| pv_height := H; pv_round := r; pv_block_hash := h; pv_voter := local_id;
      pv_voter_stake := stake_of (engine_validator_set nd) local_id;
      pv_signature := local_sign (prevote_sign_message sha256 H r h local_id chain_id);
      pv_chain_id := chain_id |} :: out.
Proof.
  simpl. destruct (on_prevote _ _ _ _ _ _) as [s next].
  destruct (exec n _ _) as [nd' out]. by exists out.
Qed.
End depth.

(** C11. Executing an action always terminates: the recursion of
    [execute_tendermint_action] (a vote is fed back to the state machine, whose
    answer is executed, and a new round replays buffered votes) is at most five
    calls deep, so that a larger bound changes nothing. *)
Theorem execute_terminates sha256 {SB : SigBackend} chain_id local_id local_sign n nd a :
  execute_action sha256 chain_id local_id local_sign (5 + n) nd a =
  execute_tendermint_action sha256 chain_id local_id local_sign nd a.
Proof.
  unfold execute_tendermint_action. apply (execute_stable _ _ _ _ 5); [|lia..].
  destruct a; simpl; try lia. case_match; lia.
Qed.

(** C12. A restarted node votes again.  The write-ahead log records that the node
    prevoted, precommitted and locked block [h] in round 0 of height [H]; after
    a restart, the block not being in the block store, the node answers a
    proposal of another block [h'] in the same round with a prevote for [h']. *)
Theorem restart_votes_again sha256 {SB : SigBackend} chain_id local_id local_sign H vs h h' :
  let wal := [WalPrevote H 0 h; WalPrecommit H 0 h; WalLock H 0 h] in
  let nd := startup wal H vs (fun _ => false) in
  match snd (handle_proposal_validated sha256 chain_id local_id local_sign nd H 0 h' None) with
  | NetPrevote pv :: _ =>
      pv_voter pv = local_id /\ pv_height pv = H /\ pv_round pv = 0 /\ pv_block_hash pv = h'
  | _ => False
  end.
Proof.
  intros wal nd.
  assert (E : engine_tm nd = tendermint_new H (total_stake vs)).
  { unfold nd, startup, wal. simpl. repeat case_match; simplify_eq; try done;
      rewrite ?andb_false_r in *; done. }
  unfold handle_proposal_validated. rewrite E. simpl. rewrite Z.eqb_refl. simpl.
  unfold on_proposal. rewrite E. simpl. rewrite Z.eqb_refl. simpl.
  match goal with |- context [execute_tendermint_action _ _ _ _ ?x _] =>
    destruct (execute_prevote_sends sha256 chain_id local_id local_sign 4 x H 0 h') as [out Eo] end.
  unfold execute_tendermint_action. by rewrite Eo.
Qed.

(** Block sync moves the engine to a later height and leaves the log alone, so a
    lock of the old height and the votes of the new one can be in the log together.
    After a restart at the new height the node is locked on the block of the old
    height, which the store has since it was synced. *)
Lemma startup_restores_old_lock H H' r h r' h' vs exists_block :
  0 <= H < H' -> exists_block h = true ->
  let nd := startup [WalLock H r h; WalPrevote H' r' h'] H' vs exists_block in
  tm_height (engine_tm nd) = H' /\ locked_hash (engine_tm nd) = Some h.
Proof.
  intros HH Hb nd. unfold nd, startup, recover_entries. cbn.
  destruct (Z.leb_spec 0 H); [|lia]. cbn. destruct (Z.leb_spec H H'); [|lia]. cbn. by rewrite Z.eqb_refl, Hb.
Qed.
