(* ===== verification/History.v ===== *)
(** Vote histories: the abstract argument behind agreement.

    A history lists the votes validators cast, newest first.  [good] says that
    every vote of an honest validator was justified by what had been cast
    before it; [no_conflicting_quorum] derives from it that once a block has a
    quorum of precommits no other block can gather a quorum of prevotes in the
    same or a later round.  The state machine is shown to cast only justified
    votes in the agreement file. *)

From S2P Require Import Prelude SigAlgo ValidatorSet Vote Tendermint Node.
Local Open Scope Z_scope.
Local Open Scope ace_scope.

Record Cast := mkCast {
  c_ty : VoteType;
  c_voter : AccountId;
  c_height : Z;
  c_round : Z;
  c_hash : Hash;
}.

#[global] Instance Cast_eq_dec : EqDecision Cast.
Proof. solve_decision. Defined.

Section history.
(** The validator set of every height and the faulty validators, whose stake
    is less than a third at every height. *)
Context (VS : Z -> ValidatorSet) (byz : AccountId -> bool).

Definition ids (H : Z) : list AccountId := map id_com (validators (VS H)).
Definition weight (H : Z) (u : AccountId) : Z := stake_of (VS H) u.

Record bft_assumption : Prop := {
  bft_wf : forall H, vs_wf (VS H);
  bft_pos : forall H, 0 < total_stake (VS H);
  bft_byz : forall H, 3 * wsum (weight H) byz (ids H) < total_stake (VS H);
}.

(** What a receiver may believe of a verified vote: the voter is faulty, or
    the vote really was cast. *)
Definition auth (L : list Cast) (m : Cast) : Prop := byz (c_voter m) = true \/ m ∈ L.

Definition quorum (ty : VoteType) (L : list Cast) (H r : Z) (h : Hash) : Prop :=
  2 * total_stake (VS H) <=
  3 * wsum (weight H) (fun u => byz u || bool_decide (mkCast ty u H r h ∈ L)) (ids H).

Definition justified (L : list Cast) (m : Cast) : Prop :=
  let '(mkCast ty u H r h) := m in
  (forall h', mkCast ty u H r h' ∉ L) /\
  match ty with
  | Prevote =>
      h <> NIL_BLOCK_HASH ->
      forall r0 h0, h0 <> NIL_BLOCK_HASH -> mkCast Precommit u H r0 h0 ∈ L ->
      h0 = h \/ exists vr, r0 <= vr /\ quorum Prevote L H vr h
  | Precommit =>
      (h <> NIL_BLOCK_HASH -> quorum Prevote L H r h) /\
      (forall r' h', mkCast Prevote u H r' h' ∈ L -> r' <= r)
  end.

Fixpoint good (L : list Cast) : Prop :=
  match L with
  | [] => True
  | m :: L => (byz (c_voter m) = false -> justified L m) /\ good L
  end.

(** ** Weights *)

Lemma weight_nonneg H u : bft_assumption -> 0 <= weight H u.
Proof. intros Hb. apply stake_of_nonneg, Hb. Qed.

Lemma weights_nonneg H : bft_assumption -> Forall (fun u => 0 <= weight H u) (ids H).
Proof. intros Hb. apply Forall_forall. intros u _. by apply weight_nonneg. Qed.

Lemma ids_nodup H : bft_assumption -> NoDup (ids H).
Proof. intros Hb. apply vs_wf_ids, Hb. Qed.

Lemma weight_total H :
  bft_assumption -> wsum (weight H) (fun _ => true) (ids H) = total_stake (VS H).
Proof. intros Hb. apply stake_of_total, Hb. Qed.

Lemma weight_voter H u : u ∈ ids H \/ weight H u = 0.
Proof. apply stake_of_voter. Qed.

(** ** Monotonicity *)

Lemma auth_mono L L' m : L ⊆ L' -> auth L m -> auth L' m.
Proof. unfold auth. set_solver. Qed.

Lemma quorum_mono ty L L' H r h :
  bft_assumption -> L ⊆ L' -> quorum ty L H r h -> quorum ty L' H r h.
Proof.
  intros Hb HL Hq. unfold quorum in *. etrans; [apply Hq|].
  apply Z.mul_le_mono_nonneg_l; [lia|]. apply wsum_mono; [by apply weights_nonneg|].
  intros u _. rewrite !orb_true_iff, !bool_decide_eq_true. set_solver.
Qed.

(** Two quorums share an honest validator. *)
Lemma quorum_intersection ty1 ty2 L1 L2 H r1 r2 h1 h2 :
  bft_assumption -> quorum ty1 L1 H r1 h1 -> quorum ty2 L2 H r2 h2 ->
  exists u, byz u = false /\ mkCast ty1 u H r1 h1 ∈ L1 /\ mkCast ty2 u H r2 h2 ∈ L2.
Proof.
  intros Hb Hq1 Hq2. unfold quorum in *.
  set (P := fun u => byz u || bool_decide (mkCast ty1 u H r1 h1 ∈ L1)) in *.
  set (Q := fun u => byz u || bool_decide (mkCast ty2 u H r2 h2 ∈ L2)) in *.
  pose proof (weights_nonneg H Hb) as Hn.
  pose proof (wsum_overlap (weight H) P Q (ids H) Hn) as Ho.
  rewrite weight_total in Ho by done.
  pose proof (wsum_split (weight H) (fun u => P u && Q u) byz (ids H)) as Hs.
  cbv beta in Hs.
  pose proof (wsum_mono (weight H) (fun u => P u && Q u && byz u) byz (ids H) Hn) as Hm.
  pose proof (bft_byz Hb H). pose proof (bft_pos Hb H).
  destruct (wsum_pos_elem (weight H) (fun u => P u && Q u && negb (byz u)) (ids H))
    as (u & _ & Hu).
  { assert (wsum (weight H) (fun u => P u && Q u && byz u) (ids H) <=
            wsum (weight H) byz (ids H)); [|lia].
    apply Hm. intros u _ ?. by bool_prop. }
  exists u. unfold P, Q in Hu. bool_prop.
  repeat match goal with
         | X : _ \/ _ |- _ => destruct X as [X|X]; [congruence|]; bool_prop
         end. done.
Qed.

(** ** Honest votes in a good history *)

Lemma good_elem L m :
  good L -> m ∈ L -> byz (c_voter m) = false ->
  exists K L', L = K ++ m :: L' /\ justified L' m.
Proof.
  induction L as [|x L IH]; intros Hg Hm Hh; [by apply elem_of_nil in Hm|].
  destruct Hg as [Hx Hg]. apply elem_of_cons in Hm as [->|Hm].
  - exists [], L. split; [done|by apply Hx].
  - destruct (IH Hg Hm Hh) as (K & L' & -> & Hj). by exists (x :: K), L'.
Qed.

(** An honest validator casts at most one vote of a kind per round. *)
Lemma good_unique L ty u H r h h' :
  good L -> byz u = false -> mkCast ty u H r h ∈ L -> mkCast ty u H r h' ∈ L -> h = h'.
Proof.
  induction L as [|x L IH]; intros Hg Hh H1 H2; [by apply elem_of_nil in H1|].
  destruct Hg as [Hx Hg].
  apply elem_of_cons in H1 as [<-|H1]; apply elem_of_cons in H2 as [H2|H2].
  - by injection H2.
  - destruct (proj1 (Hx Hh) h' H2).
  - subst x. destruct (proj1 (Hx Hh) h H1).
  - by apply IH.
Qed.

(** Prevote quorums of one round are for one block. *)
Lemma prevote_quorum_unique L L1 L2 H r h1 h2 :
  bft_assumption -> good L -> L1 ⊆ L -> L2 ⊆ L ->
  quorum Prevote L1 H r h1 -> quorum Prevote L2 H r h2 -> h1 = h2.
Proof.
  intros Hb Hg H1 H2 Hq1 Hq2.
  destruct (quorum_intersection _ _ _ _ _ _ _ _ _ Hb Hq1 Hq2) as (u & Hu & Hc1 & Hc2).
  eapply good_unique; [done|done|by apply H1|by apply H2].
Qed.

(** A precommit quorum rests on a prevote quorum of the same round. *)
Lemma precommit_quorum_prevotes L H r h :
  bft_assumption -> good L -> h <> NIL_BLOCK_HASH ->
  quorum Precommit L H r h -> quorum Prevote L H r h.
Proof.
  intros Hb Hg Hne Hq.
  destruct (quorum_intersection _ _ _ _ _ _ _ _ _ Hb Hq Hq) as (u & Hu & Hc & _).
  destruct (good_elem L _ Hg Hc Hu) as (K & L' & -> & _ & Hj & _).
  eapply quorum_mono; [done| |by apply Hj]. set_solver.
Qed.

(** An honest validator's precommit precedes its prevotes of later rounds. *)
Lemma precommit_first K K' u H r h r' h' :
  good (K ++ mkCast Prevote u H r' h' :: K') -> byz u = false -> r < r' ->
  mkCast Precommit u H r h ∈ K ++ mkCast Prevote u H r' h' :: K' ->
  mkCast Precommit u H r h ∈ K'.
Proof.
  intros Hg Hu Hr. induction K as [|x K IH]; simpl in *.
  - intros [E|?]%elem_of_cons; [discriminate E|done].
  - destruct Hg as [Hx Hg]. intros [<-|Hin]%elem_of_cons; [|by apply IH].
    destruct (Hx Hu) as (_ & _ & Hle). specialize (Hle r' h').
    assert (r' <= r); [|lia]. apply Hle, elem_of_app; right; by left.
Qed.

Lemma good_app K L : good (K ++ L) -> good L.
Proof. induction K as [|x K IH]; [done|]. intros Hg. apply IH, Hg. Qed.

(** Once a block has a quorum of precommits in round [r], no prefix of the
    history holds a prevote quorum for another block in round [r] or later. *)
Lemma no_conflicting_quorum L H r h :
  bft_assumption -> good L -> h <> NIL_BLOCK_HASH -> quorum Precommit L H r h ->
  forall n K L' r' h', length L' = n -> L = K ++ L' -> h' <> NIL_BLOCK_HASH -> r <= r' ->
  quorum Prevote L' H r' h' -> h' = h.
Proof.
  intros Hb Hg Hne Hq n. induction n as [n IH] using lt_wf_ind.
  intros K L' r' h' Hn HL Hne' Hr Hq'.
  destruct (decide (r = r')) as [<-|Hrr].
  { eapply (prevote_quorum_unique L); [done|done| |done|done|].
    - subst L; set_solver.
    - by apply precommit_quorum_prevotes. }
  destruct (quorum_intersection _ _ _ _ _ _ _ _ _ Hb Hq Hq') as (u & Hu & Hpc & Hpv).
  assert (Hg' : good L') by (subst L; by eapply good_app).
  destruct (good_elem L' _ Hg' Hpv Hu) as (A & B & HL' & _ & Hj).
  assert (HpcB : mkCast Precommit u H r h ∈ B).
  { assert (E : L = (K ++ A) ++ mkCast Prevote u H r' h' :: B)
      by (by rewrite <-app_assoc, <-HL').
    rewrite E in Hg, Hpc. eapply precommit_first; [exact Hg|done| |exact Hpc]; lia. }
  destruct (Hj Hne' r h Hne HpcB) as [?|(vr & ? & HqB)]; [done|].
  eapply (IH (length B)); [|done| |done| |exact HqB]; [| |lia].
  - subst n L'. rewrite length_app. simpl. lia.
  - rewrite HL, HL'. by rewrite (cons_middle _ A B), !app_assoc.
Qed.

(** Two precommit quorums of one height are for the same block. *)
Lemma precommit_quorums_agree L H r1 r2 h1 h2 :
  bft_assumption -> good L -> h1 <> NIL_BLOCK_HASH -> h2 <> NIL_BLOCK_HASH ->
  quorum Precommit L H r1 h1 -> quorum Precommit L H r2 h2 -> h1 = h2.
Proof.
  intros Hb Hg Hn1 Hn2 Hq1 Hq2. destruct (Z.le_ge_cases r1 r2).
  - symmetry. eapply (no_conflicting_quorum L H r1 h1 Hb Hg Hn1 Hq1 _ [] L r2); try done.
    by apply precommit_quorum_prevotes.
  - eapply (no_conflicting_quorum L H r2 h2 Hb Hg Hn2 Hq2 _ [] L r1); try done.
    by apply precommit_quorum_prevotes.
Qed.
End history.
