(* ===== verification/Agreement.v ===== *)
(** Agreement: no two honest validators commit different blocks at a height.

    [tm_inv] relates one node's Tendermint state to a history of cast votes;
    every handler preserves it and casts only justified votes.  The network is
    a step relation over many nodes in which faulty validators send anything,
    messages are lost, delayed, duplicated and reordered, timers fire at any
    moment and nodes change height; the only thing assumed of a message is that
    a signature of an honest validator that verifies was made by it. *)

From S2P Require Import Prelude SigAlgo ValidatorSet Vote Tendermint Wal Node History.
Local Open Scope Z_scope.
Local Open Scope ace_scope.

(** The node still takes part in the votes of its height. *)
Definition live (s : TendermintState) : bool :=
  match tm_step s with
  | StepPropose | StepPrevote | StepPrecommit => true
  | StepCommitWait | StepCommitted => false
  end.

(** The votes an action casts for node [p]. *)
Definition casts (p : AccountId) (a : TendermintAction) : list Cast :=
  match a with
  | BroadcastPrevote H r h => [mkCast Prevote p H r h]
  | BroadcastPrecommit H r h => [mkCast Precommit p H r h]
  | _ => []
  end.

(** ** Collectors *)

Lemma add_vote_raw_facts c u h st :
  let c' := fst (add_vote_raw c u h st) in
  vc_total_stake c' = vc_total_stake c /\
  forall u' h', voter_first_hash c' !! u' = Some h' ->
    voter_first_hash c !! u' = Some h' \/ (u' = u /\ h' = h).
Proof.
  unfold add_vote_raw. set (v := {| slot := _ |}).
  destruct (voter_first_hash c !! u) as [h0|] eqn:E.
  - pose proof (add_vote_internal_seen c v st h0 E) as Hs.
    destruct (add_vote_internal c v st) as [c' b]. simpl.
    destruct Hs as (_ & _ & ? & -> & _). auto.
  - pose proof (add_vote_internal_fresh c v st E) as Hs.
    destruct (add_vote_internal c v st) as [c' b]. simpl.
    destruct Hs as (_ & ? & -> & _). split; [done|]. intros u' h'. simpl.
    rewrite lookup_insert_Some. naive_solver.
Qed.

(** [L'] extends [L] by votes of [p] only. *)
Definition extends (p : AccountId) (L L' : list Cast) : Prop :=
  L ⊆ L' /\ forall m, m ∈ L' -> m ∈ L \/ c_voter m = p.

Lemma extends_refl p L : extends p L L.
Proof. split; auto. Qed.

Lemma extends_trans p L1 L2 L3 : extends p L1 L2 -> extends p L2 L3 -> extends p L1 L3.
Proof. unfold extends. set_solver. Qed.

Lemma extends_casts p L a : extends p L (casts p a ++ L).
Proof. split; [set_solver|]. intros m [Hm|Hm]%elem_of_app; [right|by left].
  destruct a; simpl in Hm; try (by apply elem_of_nil in Hm);
    by apply list_elem_of_singleton in Hm as ->. Qed.

Section agreement.
Context (VS : Z -> ValidatorSet) (byz : AccountId -> bool).
Context (Hbft : bft_assumption VS byz).

Abbreviation ids := (ids VS).
Abbreviation weight := (weight VS).
Abbreviation auth := (auth byz).
Abbreviation quorum := (quorum VS byz).
Abbreviation good := (good VS byz).

(** A collector of the votes [ty] of height [H], round [r]. *)
Record col_inv (ty : VoteType) (L : list Cast) (H r : Z) (lv : bool) (c : VoteCollector)
    : Prop := {
  ci_inv : vc_inv (ids H) (weight H) c;
  ci_total : vc_total_stake c = total_stake (VS H);
  ci_auth : lv = true -> forall u h, voter_first_hash c !! u = Some h ->
    auth L (mkCast ty u H r h);
}.

(** The state of node [p]; what relates it to the node's own votes and its lock is
    required of honest nodes only. *)
Record tm_inv (p : AccountId) (L : list Cast) (s : TendermintState) : Prop := {
  ti_total : tm_total_stake s = total_stake (VS (tm_height s));
  ti_round : live s = true -> 0 <= tm_round s;
  ti_prevotes : col_inv Prevote L (tm_height s) (tm_round s) (live s) (prevotes s);
  ti_precommits : col_inv Precommit L (tm_height s) (tm_round s) (live s) (precommits s);
  ti_future : forall r vs u h st (b : bool),
    future_votes s !! r = Some vs -> (u, h, st, b) ∈ vs ->
    st = weight (tm_height s) u /\
    auth L (mkCast (if b then Precommit else Prevote) u (tm_height s) r h);
  ti_past : forall r h, is_Some (past_quorums s !! (r, h)) ->
    quorum Prevote L (tm_height s) r h;
  ti_lock : byz p = false -> match locked_round s, locked_hash s with
            | Some lr, Some lh => quorum Prevote L (tm_height s) lr lh
            | None, None => True
            | _, _ => False
            end;
  ti_own_pv : byz p = false -> live s = true -> forall r h, mkCast Prevote p (tm_height s) r h ∈ L ->
    r <= tm_round s /\ (r = tm_round s -> prevoted s = true);
  ti_own_pc : byz p = false -> live s = true -> forall r h, mkCast Precommit p (tm_height s) r h ∈ L ->
    r <= tm_round s /\ (r = tm_round s -> precommitted s = true);
  ti_own_lock : byz p = false -> forall r h, h <> NIL_BLOCK_HASH ->
    mkCast Precommit p (tm_height s) r h ∈ L ->
    exists lr, locked_round s = Some lr /\ r <= lr;
  ti_own_height : byz p = false -> forall m, m ∈ L -> c_voter m = p -> c_height m <= tm_height s;
  ti_commit : forall h, committed_hash s = Some h ->
    h <> NIL_BLOCK_HASH /\ exists r, quorum Precommit L (tm_height s) r h;
}.

(** The result of a handler: the votes it casts are justified and the
    invariant holds of the extended history. *)
Definition ok_result (p : AccountId) (L : list Cast) (H : Z)
    (sa : TendermintState * TendermintAction) : Prop :=
  tm_inv p (casts p (snd sa) ++ L) (fst sa) /\ good (casts p (snd sa) ++ L) /\
  tm_height (fst sa) = H.

(** ** Collectors *)

Lemma col_inv_mono ty L L' H r lv c : L ⊆ L' -> col_inv ty L H r lv c -> col_inv ty L' H r lv c.
Proof.
  intros HL [H1 H2 H3]. constructor; [done|done|]. intros Hl u h E.
  eapply auth_mono; [done|by apply H3].
Qed.

Lemma col_inv_new ty L H r lv slot :
  col_inv ty L H r lv (collector_new slot (total_stake (VS H))).
Proof.
  constructor; [apply collector_new_inv|done|]. intros _ u h. simpl.
  by rewrite lookup_empty.
Qed.

Lemma col_inv_add ty L H r lv c u h :
  col_inv ty L H r lv c -> (lv = true -> auth L (mkCast ty u H r h)) ->
  col_inv ty L H r lv (fst (add_vote_raw c u h (weight H u))).
Proof.
  intros [H1 H2 H3] Ha. destruct (add_vote_raw_facts c u h (weight H u)) as [Ht Hf].
  constructor.
  - apply add_vote_internal_inv; try done.
    + by apply (ids_nodup VS byz).
    + by apply (weights_nonneg VS byz).
    + rewrite (weight_total VS byz) by done. apply (bft_wf VS byz Hbft).
    + apply weight_voter.
  - by rewrite Ht.
  - intros Hl u' h' [E|[-> ->]]%Hf; auto.
Qed.

(** A quorum in a live collector is a quorum of the history. *)
Lemma col_inv_quorum ty L H r c q :
  col_inv ty L H r true c -> quorum_block_hash c = Some q -> quorum ty L H r q.
Proof.
  intros [H1 H2 H3] Hq%quorum_block_hash_sound. unfold hash_has_quorum in Hq.
  rewrite (vc_stake _ _ _ H1), H2 in Hq. apply has_quorum_spec in Hq as [_ Hq].
  unfold History.quorum. etrans; [exact Hq|].
  apply Z.mul_le_mono_nonneg_l; [lia|]. apply wsum_mono; [by apply (weights_nonneg VS byz)|].
  intros u _ Hu. bool_prop. destruct (H3 eq_refl u q Hu) as [Hb|Hin]; simpl in *.
  - by rewrite Hb.
  - rewrite orb_true_iff, bool_decide_eq_true. by right.
Qed.

(** ** Changing fields *)

Lemma tm_inv_mono p L L' s :
  L ⊆ L' -> (forall m, m ∈ L' -> c_voter m = p -> m ∈ L) -> tm_inv p L s -> tm_inv p L' s.
Proof.
  intros HL Hown []. constructor; eauto using col_inv_mono.
  - intros r vs u h st b E Hin. edestruct ti_future0 as (? & ?); [done|done|].
    eauto using auth_mono.
  - intros r h E. eapply quorum_mono; eauto.
  - intros Hbz. specialize (ti_lock0 Hbz). repeat case_match; try done. eapply quorum_mono; eauto.
  - intros h E. edestruct ti_commit0 as (? & r & ?); [done|]. split; [done|].
    exists r. eapply quorum_mono; eauto.
Qed.

(** Moving to another step of the same kind keeps everything. *)
Lemma tm_inv_step p L s x :
  live s = true -> tm_inv p L s -> tm_inv p L (set_tm_step x s).
Proof.
  intros Hl []. rewrite Hl in *.
  constructor; simpl; eauto; [destruct ti_prevotes0|destruct ti_precommits0]; constructor; eauto.
Qed.

Lemma tm_inv_proposal p L s h :
  tm_inv p L s -> tm_inv p L (set_proposal_received true (set_proposal_hash h s)).
Proof. intros []. by constructor. Qed.

Lemma tm_inv_valid p L s r h :
  tm_inv p L s -> tm_inv p L (set_valid_hash h (set_valid_round r s)).
Proof. intros []. by constructor. Qed.

Lemma tm_inv_past p L s r q :
  tm_inv p L s -> quorum Prevote L (tm_height s) r q ->
  tm_inv p L (set_past_quorums (<[(r, q) := true]> (past_quorums s)) s).
Proof.
  intros [] Hq. constructor; simpl; auto. intros r' h'.
  destruct (decide ((r', h') = (r, q))) as [[= -> ->]|Hne]; [done|].
  rewrite lookup_insert_ne by done. apply ti_past0.
Qed.

Lemma tm_inv_lock p L s q :
  tm_inv p L s -> live s = true -> quorum Prevote L (tm_height s) (tm_round s) q ->
  tm_inv p L (set_locked_hash (Some q) (set_locked_round (Some (tm_round s)) s)).
Proof.
  intros [] Hl Hq. constructor; simpl; auto. intros Hbz r h Hne Hin.
  exists (tm_round s). split; [done|]. by apply (ti_own_pc0 Hbz Hl r h).
Qed.

Lemma tm_inv_prevotes p L s c :
  tm_inv p L s -> col_inv Prevote L (tm_height s) (tm_round s) (live s) c ->
  tm_inv p L (set_prevotes c s).
Proof. intros [] Hc. by constructor. Qed.

Lemma tm_inv_precommits p L s c :
  tm_inv p L s -> col_inv Precommit L (tm_height s) (tm_round s) (live s) c ->
  tm_inv p L (set_precommits c s).
Proof. intros [] Hc. by constructor. Qed.

Lemma tm_inv_buffer p L s r u h (b : bool) :
  tm_inv p L s ->
  auth L (mkCast (if b then Precommit else Prevote) u (tm_height s) r h) ->
  tm_inv p L (buffer_vote s r (u, h, weight (tm_height s) u, b)).
Proof.
  intros [] Ha. constructor; simpl; auto. intros r' vs u' h' st' b'.
  rewrite lookup_insert_Some. intros [[<- <-]|[? E]] Hin; [|by eapply ti_future0].
  apply elem_of_app in Hin as [Hin|[= -> -> -> ->]%list_elem_of_singleton]; [|done].
  destruct (future_votes s !! r) as [vs|] eqn:E; simpl in Hin; [|by apply elem_of_nil in Hin].
  by eapply ti_future0.
Qed.

Lemma tm_inv_round p L s r :
  tm_inv p L s -> live s = true -> tm_round s < r -> tm_inv p L (new_round s r).
Proof.
  intros [] Hl Hr. specialize (ti_round0 Hl).
  constructor; simpl; auto; try (rewrite ti_total0; apply col_inv_new); [lia| |].
  - intros Hbz _ r' h' Hin. destruct (ti_own_pv0 Hbz Hl r' h' Hin). split; [lia|intros ->; lia].
  - intros Hbz _ r' h' Hin. destruct (ti_own_pc0 Hbz Hl r' h' Hin). split; [lia|intros ->; lia].
Qed.

Lemma tm_inv_height p L s H :
  tm_inv p L s -> tm_height s < H -> tm_inv p L (new_height s H (total_stake (VS H))).
Proof.
  intros Hi Hlt.
  assert (Hno : byz p = false -> forall ty r h, mkCast ty p H r h ∉ L).
  { intros Hbz ty r h Hin. pose proof (ti_own_height p L s Hi Hbz _ Hin eq_refl). simpl in *. lia. }
  constructor; simpl; auto using col_inv_new.
  all: try (intros Hbz _ r h Hin; by apply (Hno Hbz) in Hin).
  - lia.
  - intros r vs u h st b. by rewrite lookup_empty.
  - intros r h [x Hx]. by rewrite lookup_empty in Hx.
  - intros Hbz r h _ Hin. by apply (Hno Hbz) in Hin.
  - intros Hbz m Hin Hm. pose proof (ti_own_height p L s Hi Hbz _ Hin Hm). lia.
  - done.
Qed.

(** ** Casting votes *)

Definition mark_cast (ty : VoteType) (s : TendermintState) : TendermintState :=
  match ty with
  | Prevote => set_prevoted true s
  | Precommit => set_precommitted true s
  end.

Lemma tm_inv_cast p L s ty h :
  tm_inv p L s ->
  (ty = Precommit -> h <> NIL_BLOCK_HASH -> locked_round s = Some (tm_round s)) ->
  tm_inv p (mkCast ty p (tm_height s) (tm_round s) h :: L) (mark_cast ty s).
Proof.
  intros [] Hlk. set (m := mkCast _ _ _ _ _). assert (HL : L ⊆ m :: L) by set_solver.
  assert (Hq : forall ty' H r h', quorum ty' L H r h' -> quorum ty' (m :: L) H r h').
  { intros; by eapply quorum_mono. }
  destruct ty; constructor; simpl; eauto using col_inv_mono.
  all: try solve [intros r vs u h' st b E Hin; edestruct ti_future0 as (? & ?);
                  eauto using auth_mono].
  all: try (intros Hbz; specialize (ti_lock0 Hbz); by repeat case_match; eauto).
  all: try solve [intros h' E; edestruct ti_commit0 as (? & ? & ?); eauto].
  all: try (intros Hbz Hl r h' [E|Hin]%elem_of_cons; [by simplify_eq/=|]; split; [|done];
            first [by eapply (ti_own_pv0 Hbz Hl) | by eapply (ti_own_pc0 Hbz Hl)]).
  all: try (intros Hbz Hl r h' [E|Hin]%elem_of_cons; [by simplify_eq/=|];
            first [by eapply (ti_own_pv0 Hbz Hl) | by eapply (ti_own_pc0 Hbz Hl)]).
  all: try (intros Hbz m' [->|Hin]%elem_of_cons Hm; [done|]; by apply ti_own_height0).
  all: intros Hbz r h' Hne [E|Hin]%elem_of_cons; simplify_eq/=; eauto.
  exists (tm_round s). split; [by apply Hlk|done].
Qed.

Lemma do_prevote_ok p L s h :
  tm_inv p L s -> good L -> live s = true ->
  (byz p = false -> h <> NIL_BLOCK_HASH -> forall r0 h0, h0 <> NIL_BLOCK_HASH ->
     mkCast Precommit p (tm_height s) r0 h0 ∈ L ->
     h0 = h \/ exists vr, r0 <= vr /\ quorum Prevote L (tm_height s) vr h) ->
  ok_result p L (tm_height s) (do_prevote s h).
Proof.
  intros Hi Hg Hl Hj. unfold do_prevote. destruct (prevoted s) eqn:Hp; [done|].
  pose proof (tm_inv_cast p L s Prevote h Hi ltac:(done)) as Hi'.
  unfold ok_result; simpl. case_decide; simpl; split_and!; auto using tm_inv_step.
  all: intros Hbz; split; [|by apply Hj].
  all: intros h' Hin; destruct (ti_own_pv _ _ _ Hi Hbz Hl _ _ Hin) as [_ E];
    rewrite E in Hp by done; done.
Qed.

Lemma do_precommit_ok p L s h :
  tm_inv p L s -> good L -> live s = true ->
  (h <> NIL_BLOCK_HASH -> locked_round s = Some (tm_round s) /\
     quorum Prevote L (tm_height s) (tm_round s) h) ->
  ok_result p L (tm_height s) (do_precommit s h).
Proof.
  intros Hi Hg Hl Hj. unfold do_precommit. destruct (precommitted s) eqn:Hp; [done|].
  pose proof (tm_inv_cast p L s Precommit h Hi ltac:(naive_solver)) as Hi'.
  unfold ok_result; simpl. split_and!; try done. intros Hbz. split_and!.
  - intros h' Hin; destruct (ti_own_pc _ _ _ Hi Hbz Hl _ _ Hin) as [_ E].
    rewrite E in Hp by done; done.
  - naive_solver.
  - intros r' h' Hin. by apply (ti_own_pv _ _ _ Hi Hbz Hl _ _ Hin).
Qed.

(** A locked node may prevote its lock, or a block with a prevote quorum at
    or above its lock. *)
Lemma prevote_nil_ok p L s :
  tm_inv p L s -> good L -> live s = true ->
  ok_result p L (tm_height s) (do_prevote s NIL_BLOCK_HASH).
Proof. intros. by apply do_prevote_ok. Qed.

Lemma prevote_quorum_ok p L s h vr :
  tm_inv p L s -> good L -> live s = true ->
  (forall lr, locked_round s = Some lr -> lr <= vr) ->
  (byz p = false -> quorum Prevote L (tm_height s) vr h) ->
  ok_result p L (tm_height s) (do_prevote s h).
Proof.
  intros Hi Hg Hl Hlr Hq. apply do_prevote_ok; try done. intros Hbz _ r0 h0 Hne Hin. right.
  destruct (ti_own_lock _ _ _ Hi Hbz r0 h0 Hne Hin) as (lr & E & ?). exists vr.
  specialize (Hlr lr E). split; [lia|by apply Hq].
Qed.

Lemma prevote_lock_ok p L s lh :
  tm_inv p L s -> good L -> live s = true -> locked_hash s = Some lh ->
  ok_result p L (tm_height s) (do_prevote s lh).
Proof.
  intros Hi Hg Hl Hlh. pose proof (ti_lock _ _ _ Hi) as Hk. rewrite Hlh in Hk.
  apply do_prevote_ok; try done. intros Hbz _ r0 h0 Hne Hin. right. specialize (Hk Hbz).
  destruct (ti_own_lock _ _ _ Hi Hbz r0 h0 Hne Hin) as (lr & E & ?). rewrite E in Hk. by exists lr.
Qed.

Lemma prevote_unlocked_ok p L s h :
  tm_inv p L s -> good L -> live s = true -> locked_hash s = None ->
  ok_result p L (tm_height s) (do_prevote s h).
Proof.
  intros Hi Hg Hl Hlh. apply do_prevote_ok; try done. intros Hbz _ r0 h0 Hne Hin.
  destruct (ti_own_lock _ _ _ Hi Hbz r0 h0 Hne Hin) as (lr & E & ?).
  pose proof (ti_lock _ _ _ Hi Hbz) as Hk. by rewrite E, Hlh in Hk.
Qed.

(** ** Handlers *)

Lemma on_proposal_ok p L s height round h vr :
  tm_inv p L s -> good L -> ok_result p L (tm_height s) (on_proposal s height round h vr).
Proof.
  intros Hi Hg. unfold on_proposal.
  destruct (_ || _) eqn:E1; [done|]. destruct (proposal_received s) eqn:E2; [done|].
  destruct (negb (bool_decide (tm_step s = StepPropose))) eqn:E3; [done|]. bool_prop.
  set (s1 := set_proposal_received true (set_proposal_hash (Some h) s)).
  assert (Hi1 : tm_inv p L s1) by (by apply tm_inv_proposal).
  assert (Hl : live s1 = true) by (unfold live; simpl; by rewrite E3).
  change (tm_height s) with (tm_height s1).
  destruct (locked_hash s1) as [lh|] eqn:Elh.
  - destruct (h =? lh) eqn:Eh; bool_prop; [subst; by apply prevote_lock_ok|].
    destruct vr as [vr|]; [|by apply prevote_nil_ok].
    destruct (locked_round s1) as [lr|] eqn:Elr; [|by apply prevote_nil_ok].
    destruct (lr <=? vr) eqn:Ele; bool_prop; [|by apply prevote_nil_ok].
    case_bool_decide; [|by apply prevote_nil_ok].
    eapply (prevote_quorum_ok _ _ _ _ vr); try done; [intros; by simplify_eq|].
    intros _. by apply (ti_past _ _ _ Hi1).
  - destruct vr as [vr|]; [|by apply prevote_unlocked_ok].
    case_bool_decide; cbn [negb]; [by apply prevote_unlocked_ok|by apply prevote_nil_ok].
Qed.

Lemma prevote_pending_ok p L s :
  tm_inv p L s -> good L -> ok_result p L (tm_height s) (prevote_pending s).
Proof.
  intros Hi Hg. unfold prevote_pending. destruct (_ && _) eqn:E1; [|done]. bool_prop.
  assert (Hl : live s = true) by (unfold live; by case_match).
  destruct (locked_hash s) as [lh|] eqn:Elh; [|by apply prevote_unlocked_ok].
  destruct (negb _) eqn:Eh; bool_prop; [by apply prevote_nil_ok|].
  rewrite Eh. by apply prevote_lock_ok.
Qed.

Lemma on_prevote_ok p L s round h u :
  tm_inv p L s -> good L ->
  auth L (mkCast Prevote u (tm_height s) round h) ->
  ok_result p L (tm_height s)
    (on_prevote s (tm_height s) round h u (weight (tm_height s) u)).
Proof.
  intros Hi Hg Ha. unfold on_prevote. rewrite Z.eqb_refl. simpl.
  destruct (tm_round s <? round) eqn:E1.
  { split_and!; [|done|done]. by apply (tm_inv_buffer _ _ _ _ _ _ false). }
  destruct (negb (round =? tm_round s)) eqn:E2; [done|]. bool_prop. subst round.
  destruct (_ || _) eqn:E3; [done|]. bool_prop.
  assert (Hl : live s = true) by (unfold live; by destruct (tm_step s)).
  set (c := fst (add_vote_raw _ _ _ _)).
  assert (Hc : col_inv Prevote L (tm_height s) (tm_round s) (live s) c).
  { apply col_inv_add; [by eapply ti_prevotes|done]. }
  assert (Hi1 : tm_inv p L (set_prevotes c s)) by (by apply tm_inv_prevotes).
  cbv zeta. cbn [prevotes set_prevotes].
  destruct (quorum_block_hash c) as [q|] eqn:Eq; [|by apply (prevote_pending_ok _ _ (set_prevotes c s))].
  assert (Hq : quorum Prevote L (tm_height s) (tm_round s) q).
  { rewrite Hl in Hc. by eapply col_inv_quorum. }
  destruct (negb (q =? NIL_BLOCK_HASH)) eqn:Enil.
  - set (s2 := set_valid_hash _ _).
    assert (Hi2 : tm_inv p L s2).
    { apply tm_inv_valid. by apply (tm_inv_past _ _ (set_prevotes c s)). }
    case_decide as Est; [|by apply (prevote_pending_ok _ _ s2)].
    set (s3 := set_tm_step _ _).
    assert (Hi3 : tm_inv p L s3) by (apply tm_inv_step; [done|]; by apply (tm_inv_lock _ _ s2)).
    by apply (do_precommit_ok _ _ s3).
  - case_decide as Est; [|by apply (prevote_pending_ok _ _ (set_prevotes c s))].
    apply (do_precommit_ok _ _ (set_tm_step StepPrecommit (set_prevotes c s))); try done.
    by apply tm_inv_step.
Qed.

Lemma tm_inv_commit p L s q :
  tm_inv p L s -> live s = true -> q <> NIL_BLOCK_HASH ->
  (exists r, quorum Precommit L (tm_height s) r q) ->
  tm_inv p L (set_committed_hash (Some q) (set_tm_step StepCommitWait s)).
Proof.
  intros Hi Hl Hne Hq. apply (tm_inv_step p L s StepCommitWait) in Hi; [|done].
  destruct Hi. constructor; simpl in *; auto. intros h [= <-]. done.
Qed.

Lemma on_precommit_ok p L s round h u :
  tm_inv p L s -> good L ->
  auth L (mkCast Precommit u (tm_height s) round h) ->
  ok_result p L (tm_height s)
    (on_precommit s (tm_height s) round h u (weight (tm_height s) u)).
Proof.
  intros Hi Hg Ha. unfold on_precommit. rewrite Z.eqb_refl. simpl.
  destruct (tm_round s <? round) eqn:E1.
  { split_and!; [|done|done]. by apply (tm_inv_buffer _ _ _ _ _ _ true). }
  destruct (negb (round =? tm_round s)) eqn:E2; [done|]. bool_prop. subst round.
  set (c := fst (add_vote_raw _ _ _ _)).
  assert (Hc : col_inv Precommit L (tm_height s) (tm_round s) (live s) c).
  { apply col_inv_add; [by eapply ti_precommits|done]. }
  assert (Hi1 : tm_inv p L (set_precommits c s)) by (by apply tm_inv_precommits).
  destruct (_ || _) eqn:E3.
  { destruct (bool_decide (tm_step s = StepCommitWait)); done. }
  bool_prop. assert (Hl : live s = true) by (unfold live; by destruct (tm_step s)).
  cbv zeta. cbn [precommits set_precommits].
  destruct (quorum_block_hash c) as [q|] eqn:Eq; [|done].
  destruct (negb (q =? NIL_BLOCK_HASH)) eqn:Enil; [|done]. bool_prop.
  split_and!; [|done|done]. simpl. apply tm_inv_commit; try done.
  exists (tm_round s). rewrite Hl in Hc. by eapply col_inv_quorum.
Qed.

Lemma on_timeout_ok p L s :
  tm_inv p L s -> good L -> tm_round s < u32_max ->
  ok_result p L (tm_height s) (on_timeout s).
Proof.
  intros Hi Hg Hr. unfold on_timeout.
  destruct (tm_step s) eqn:Est; try done;
    try (assert (Hl : live s = true) by (unfold live; by rewrite Est)).
  - unfold on_propose_timeout. rewrite bool_decide_true by done. simpl.
    by apply prevote_nil_ok.
  - unfold on_prevote_timeout. rewrite bool_decide_true by done. simpl.
    apply (do_precommit_ok _ _ (set_tm_step StepPrecommit s)); try done.
    by apply tm_inv_step.
  - unfold on_precommit_timeout. rewrite Est, !bool_decide_false by done. simpl.
    pose proof (ti_round _ _ _ Hi Hl). rewrite u32_add_small by ilia.
    split_and!; [|done|done]. apply tm_inv_round; [done|done|lia].
  - unfold on_commit_wait_timeout. rewrite decide_True by done.
    split_and!; [|done|done]. destruct Hi. unfold live in *. rewrite Est in *.
    by constructor.
Qed.

Lemma force_commit_ok p L s height round h :
  tm_inv p L s -> h <> NIL_BLOCK_HASH ->
  (exists r, quorum Precommit L (tm_height s) r h) ->
  tm_inv p L (force_commit s height round h).
Proof.
  intros Hi Hne Hq. unfold force_commit. case_match; [done|].
  destruct Hi. constructor; simpl; auto; try done.
  - destruct ti_prevotes0. by constructor.
  - destruct ti_precommits0. by constructor.
  - intros ? [= <-]. done.
Qed.

(** ** Replaying buffered votes *)

Lemma do_prevote_round s h : tm_round (fst (do_prevote s h)) = tm_round s.
Proof. unfold do_prevote. split_matches. Qed.

Lemma prevote_pending_round s : tm_round (fst (prevote_pending s)) = tm_round s.
Proof.
  unfold prevote_pending. case_match; [|done].
  repeat case_match; apply do_prevote_round.
Qed.

Lemma do_precommit_round s h : tm_round (fst (do_precommit s h)) = tm_round s.
Proof. unfold do_precommit. split_matches. Qed.

Lemma on_prevote_round s H r h u st : tm_round (fst (on_prevote s H r h u st)) = tm_round s.
Proof.
  unfold on_prevote.
  repeat first [done | rewrite prevote_pending_round; done
               | rewrite do_precommit_round; done | case_match].
Qed.

Lemma on_precommit_round s H r h u st : tm_round (fst (on_precommit s H r h u st)) = tm_round s.
Proof. unfold on_precommit. repeat first [done | case_match]. Qed.

Lemma replay_vote_ok p L s u h st (b : bool) :
  tm_inv p L s -> good L -> st = weight (tm_height s) u ->
  auth L (mkCast (if b then Precommit else Prevote) u (tm_height s) (tm_round s) h) ->
  ok_result p L (tm_height s) (replay_vote s (u, h, st, b)) /\
  tm_round (fst (replay_vote s (u, h, st, b))) = tm_round s.
Proof.
  intros Hi Hg -> Ha. unfold replay_vote. destruct b.
  - split; [by apply on_precommit_ok|apply on_precommit_round].
  - split; [by apply on_prevote_ok|apply on_prevote_round].
Qed.

Lemma replay_votes_ok p vs L s :
  tm_inv p L s -> good L ->
  (forall u h st (b : bool), (u, h, st, b) ∈ vs -> st = weight (tm_height s) u /\
     auth L (mkCast (if b then Precommit else Prevote) u (tm_height s) (tm_round s) h)) ->
  let '(s', acts) := replay_votes s vs in
  exists L', extends p L L' /\ tm_inv p L' s' /\ good L' /\ tm_height s' = tm_height s /\
    forall a, a ∈ acts -> casts p a ⊆ L'.
Proof.
  revert L s; induction vs as [|[[[u h] st] b] vs IH]; intros L s Hi Hg Hvs; cbn [replay_votes].
  { exists L. split_and!; auto using extends_refl. intros a Ha. by apply elem_of_nil in Ha. }
  destruct (Hvs u h st b ltac:(by left)) as [Hst Ha].
  pose proof (replay_vote_ok p L s u h st b Hi Hg Hst Ha) as [Hok Hr].
  destruct (replay_vote s (u, h, st, b)) as [s1 a1] eqn:E1. simpl in Hr.
  destruct Hok as (Hi1 & Hg1 & Hh1); simpl in *.
  specialize (IH (casts p a1 ++ L) s1 Hi1 Hg1).
  destruct (replay_votes s1 vs) as [s2 acts] eqn:E2.
  destruct IH as (L' & He & Hi' & Hg' & Hh' & Hacts).
  { intros u' h' st' b' Hin. rewrite Hh1, Hr.
    destruct (Hvs u' h' st' b' ltac:(by right)) as [? ?]. split; [done|].
    eapply auth_mono; [|done]. set_solver. }
  exists L'. split_and!; [|done|done|congruence|].
  - eapply extends_trans; [apply extends_casts|exact He].
  - assert (casts p a1 ⊆ L') by (destruct He as [He _]; set_solver).
    intros a. case_decide; [by auto|]. intros [->|?]%elem_of_cons; auto.
Qed.

Lemma tm_inv_future p L s f :
  tm_inv p L s -> (forall r vs, f !! r = Some vs -> future_votes s !! r = Some vs) ->
  tm_inv p L (set_future_votes f s).
Proof. intros [] Hf. constructor; simpl; eauto. Qed.

Lemma drain_ok p L s :
  tm_inv p L s -> good L ->
  let '(s', acts) := drain_buffered_votes s in
  exists L', extends p L L' /\ tm_inv p L' s' /\ good L' /\ tm_height s' = tm_height s /\
    forall a, a ∈ acts -> casts p a ⊆ L'.
Proof.
  intros Hi Hg. unfold drain_buffered_votes.
  destruct (future_votes s !! tm_round s) as [vs|] eqn:E.
  2: { exists L. split_and!; auto using extends_refl. intros a Ha. by apply elem_of_nil in Ha. }
  cbv zeta. match goal with |- context [replay_votes ?x _] => set (s1 := x) end.
  assert (Hs1 : tm_inv p L s1 /\ tm_height s1 = tm_height s /\ tm_round s1 = tm_round s).
  { unfold s1. case_match; simpl; (split; [|done]).
    - apply tm_inv_future; [apply tm_inv_future; [done|]|]; simpl; intros r vs'.
      + intros [_ ?]%lookup_delete_Some; done.
      + intros [? _]%map_lookup_filter_Some; done.
    - apply tm_inv_future; [done|]. intros r vs' [_ ?]%lookup_delete_Some; done. }
  destruct Hs1 as (Hi1 & Hh1 & Hr1).
  pose proof (replay_votes_ok p vs L s1 Hi1 Hg) as Hrep.
  destruct (replay_votes s1 vs) as [s2 acts]. rewrite Hh1, Hr1 in Hrep. apply Hrep.
  intros u h st b Hin. by eapply (ti_future _ _ _ Hi).
Qed.
End agreement.
