(* ===== verification/Network.v ===== *)
(** The network of validators: a step relation over many nodes, its invariant,
    and the agreement theorem. *)

From S2P Require Import Prelude SigAlgo ValidatorSet Vote Tendermint Wal Node History Agreement.
Local Open Scope Z_scope.
Local Open Scope ace_scope.

(** What can happen to a node. *)
Inductive NodeEvent : Type :=
| EvMessage (m : NetworkMessage)
| EvProposalValidated (height round : Z) (h : Hash) (valid_round : option Z)
| EvLocalProposal (height round : Z) (h : Hash) (is_proposer : bool)
| EvTimeout
| EvCommitApplied
| EvFinishHeight
| EvSyncedBlock (slot : Z).

Record NetState := {
  net_nodes : gmap AccountId NodeState;
  net_sent : list NetworkMessage;
}.

(** The votes in a message, as history entries. *)
Definition cast_of (m : NetworkMessage) : list Cast :=
  match m with
  | NetPrevote pv =>
      [mkCast Prevote (pv_voter pv) (pv_height pv) (pv_round pv) (pv_block_hash pv)]
  | NetPrecommit pc =>
      [mkCast Precommit (pc_voter pc) (pc_height pc) (pc_round pc) (pc_block_hash pc)]
  | NetCommitCertificate _ => []
  end.

Section network.
Context (VS : Z -> ValidatorSet) (byz : AccountId -> bool).
Context (sha256 : list Z -> list Z) {SB : SigBackend} (chain_id : Z).
Context (sign : AccountId -> list Z -> TaggedSignature).

Definition handle_message (p : AccountId) (nd : NodeState) (m : NetworkMessage)
    : NodeState * list NetworkMessage :=
  match m with
  | NetPrevote pv => handle_prevote sha256 chain_id p (sign p) nd pv
  | NetPrecommit pc => handle_precommit sha256 chain_id p (sign p) nd pc
  | NetCommitCertificate cert => handle_commit_certificate sha256 chain_id nd cert
  end.

Definition node_step (p : AccountId) (nd : NodeState) (e : NodeEvent)
    : NodeState * list NetworkMessage :=
  match e with
  | EvMessage m => handle_message p nd m
  | EvProposalValidated H r h vr =>
      handle_proposal_validated sha256 chain_id p (sign p) nd H r h vr
  | EvLocalProposal H r h b => handle_local_proposal sha256 chain_id p (sign p) nd H r h b
  | EvTimeout => handle_timeout sha256 chain_id p (sign p) nd
  | EvCommitApplied => (commit_applied nd, [])
  | EvFinishHeight =>
      (finish_height nd (VS (u64_add (tm_height (engine_tm nd)) 1)), [])
  | EvSyncedBlock slot =>
      (maybe_advance_engine_to_synced_block nd slot (VS (u64_saturating_add slot 1)), [])
  end.

(** Unforgeability: a signature that verifies is a faulty validator's, or of
    a vote its owner has sent. *)
Definition genuine (sent : list NetworkMessage) (c : Cast) : Prop :=
  byz (c_voter c) = true \/ exists m, m ∈ sent /\ c ∈ cast_of m.

Definition prevote_genuine (sent : list NetworkMessage) (vs : ValidatorSet)
    (pv : NetworkPrevote) : Prop :=
  verify_tendermint_prevote sha256 chain_id vs pv = true ->
  genuine sent (mkCast Prevote (pv_voter pv) (pv_height pv) (pv_round pv) (pv_block_hash pv)).

Definition precommit_genuine (sent : list NetworkMessage) (vs : ValidatorSet)
    (pc : NetworkPrecommit) : Prop :=
  verify_tendermint_precommit sha256 chain_id vs pc = true ->
  genuine sent (mkCast Precommit (pc_voter pc) (pc_height pc) (pc_round pc) (pc_block_hash pc)).

(** Rounds and heights have not run into the end of their integer type. *)
Definition allowed (sent : list NetworkMessage) (nd : NodeState) (e : NodeEvent) : Prop :=
  match e with
  | EvMessage (NetPrevote pv) => prevote_genuine sent (engine_validator_set nd) pv
  | EvMessage (NetPrecommit pc) => precommit_genuine sent (engine_validator_set nd) pc
  | EvMessage (NetCommitCertificate cert) =>
      forall pc, pc ∈ cert_precommits cert ->
      precommit_genuine sent (engine_validator_set nd) pc
  | EvTimeout => tm_round (engine_tm nd) < u32_max
  | EvFinishHeight => 0 <= tm_height (engine_tm nd) < u64_max
  | _ => True
  end.

(** A node reacts to an event, or is restarted: it comes up at the height after its
    stored tip with what it reads from its log and its block store, whatever they
    hold.  Since a restarted validator may vote again ([restart_votes_again]), a
    validator that is ever restarted counts as faulty. *)
Inductive net_step (N : NetState) : NetState -> Prop :=
| NetStep p nd e nd' out :
    net_nodes N !! p = Some nd ->
    allowed (net_sent N) nd e ->
    node_step p nd e = (nd', out) ->
    net_step N {| net_nodes := <[p := nd']> (net_nodes N); net_sent := net_sent N ++ out |}
| NetRestart p nd wal H exists_block :
    net_nodes N !! p = Some nd ->
    byz p = true ->
    net_step N {| net_nodes := <[p := startup wal H (VS H) exists_block]> (net_nodes N);
                  net_sent := net_sent N |}.

(** A node that starts at height [H]. *)
Definition node_start (H : Z) : NodeState :=
  {| engine_tm := tendermint_new H (total_stake (VS H)); engine_validator_set := VS H;
     consensus_wal := []; signed_precommits_for_cert := []; pending_commit := None |}.

Definition net_start (N : NetState) : Prop :=
  net_sent N = [] /\ forall p nd, net_nodes N !! p = Some nd -> exists H, nd = node_start H.

(** Node [p] has committed [h] at height [H] in [N]. *)
Definition committed (N : NetState) (p : AccountId) (H : Z) (h : Hash) : Prop :=
  exists nd, net_nodes N !! p = Some nd /\ tm_height (engine_tm nd) = H /\
             committed_hash (engine_tm nd) = Some h.

(** ** Invariant *)

Context (Hbft : bft_assumption VS byz).

Record nd_inv (p : AccountId) (L : list Cast) (nd : NodeState) : Prop := {
  ni_tm : tm_inv VS byz p L (engine_tm nd);
  ni_vs : engine_validator_set nd = VS (tm_height (engine_tm nd));
}.

Record net_inv (L : list Cast) (N : NetState) : Prop := {
  nv_good : good VS byz L;
  nv_nodes : forall p nd, net_nodes N !! p = Some nd -> nd_inv p L nd;
  nv_sent : forall m, m ∈ net_sent N -> cast_of m ⊆ L;
}.

(** What a node's reaction to an event may do to the history. *)
Definition reaction_ok (p : AccountId) (L : list Cast)
    (r : NodeState * list NetworkMessage) : Prop :=
  exists L', extends p L L' /\ good VS byz L' /\ nd_inv p L' (fst r) /\
    forall m, m ∈ snd r -> cast_of m ⊆ L'.

Lemma reaction_done p L nd : good VS byz L -> nd_inv p L nd -> reaction_ok p L (nd, []).
Proof.
  intros Hg Hi. exists L. split_and!; auto using extends_refl.
  intros m Hm. by apply elem_of_nil in Hm.
Qed.

(** The parts of a node the invariant does not look at. *)
Lemma nd_inv_ext p L nd nd' :
  engine_tm nd' = engine_tm nd -> engine_validator_set nd' = engine_validator_set nd ->
  nd_inv p L nd -> nd_inv p L nd'.
Proof. intros E1 E2 [H1 H2]. constructor; by rewrite ?E1, ?E2. Qed.

Lemma nd_inv_set_tm p L nd s :
  nd_inv p L nd -> tm_inv VS byz p L s -> tm_height s = tm_height (engine_tm nd) ->
  nd_inv p L (set_tm nd s).
Proof. intros [H1 H2] Hi E. constructor; simpl; [done|]. by rewrite E. Qed.

Lemma buffer_precommit_tm nd pc :
  engine_tm (buffer_precommit nd pc) = engine_tm nd /\
  engine_validator_set (buffer_precommit nd pc) = engine_validator_set nd.
Proof. unfold buffer_precommit. by case_match. Qed.

Lemma nd_inv_mono p q L L' nd :
  p <> q -> extends q L L' -> nd_inv p L nd -> nd_inv p L' nd.
Proof.
  intros Hne [HL He] [H1 H2]. constructor; [|done].
  eapply tm_inv_mono; [done|done| |done]. intros m Hm Hp.
  destruct (He m Hm) as [?|?]; [done|congruence].
Qed.

(** ** Executing actions *)

(** Composing reactions: a step to [nd1] with a longer history, then a
    reaction from there. *)
Lemma reaction_extend p L L1 nd out out1 :
  extends p L L1 -> reaction_ok p L1 (nd, out) ->
  (forall m, m ∈ out1 -> cast_of m ⊆ L1) -> reaction_ok p L (nd, out1 ++ out).
Proof.
  intros He (L' & He' & Hg & Hi & Hs) Hm. exists L'. split_and!; try done.
  - by eapply extends_trans.
  - simpl in *. intros m [Hin|Hin]%elem_of_app; [|by apply Hs].
    specialize (Hm m Hin). destruct He' as [He' _]. set_solver.
Qed.

(** Feeding a handler's result to the execution of its action. *)
Lemma ok_result_node p L nd sa :
  nd_inv p L nd -> ok_result VS byz p L (tm_height (engine_tm nd)) sa ->
  nd_inv p (casts p (snd sa) ++ L) (set_tm nd (fst sa)).
Proof. intros [H1 H2] (Hi & Hg & Hh). constructor; simpl; [done|]. by rewrite Hh. Qed.

Section execute.
Context (p : AccountId).
Abbreviation exec := (execute_action sha256 chain_id p (sign p)).

Definition exec_ok_at (fuel : nat) : Prop :=
  forall L nd a, good VS byz L -> nd_inv p L nd -> casts p a ⊆ L ->
  reaction_ok p L (exec fuel nd a).

Lemma exec_list_ok fuel :
  exec_ok_at fuel ->
  forall acts L nd sent, good VS byz L -> nd_inv p L nd ->
  (forall a, a ∈ acts -> casts p a ⊆ L) -> (forall m, m ∈ sent -> cast_of m ⊆ L) ->
  reaction_ok p L
    (foldl (fun '(nd, sent) a => let '(nd, sent') := exec fuel nd a in (nd, sent ++ sent'))
       (nd, sent) acts).
Proof.
  intros Hex acts. induction acts as [|a acts IH]; intros L nd sent Hg Hi Ha Hs; simpl.
  { exists L. split_and!; auto using extends_refl. }
  pose proof (Hex L nd a Hg Hi ltac:(apply Ha; by left)) as Hr.
  destruct (exec fuel nd a) as [nd1 sent1]. destruct Hr as (L1 & He & Hg1 & Hi1 & Hs1).
  destruct (IH L1 nd1 (sent ++ sent1) Hg1 Hi1) as (L2 & He2 & ? & ? & ?).
  - intros a' Ha'. destruct He as [He _]. specialize (Ha a' ltac:(by right)). set_solver.
  - intros m [Hm|Hm]%elem_of_app; [|by apply Hs1]. destruct He as [He _].
    specialize (Hs m Hm). set_solver.
  - exists L2. split_and!; try done. by eapply extends_trans.
Qed.

Lemma own_prevote_ok L nd H r h :
  good VS byz L -> nd_inv p L nd -> mkCast Prevote p H r h ∈ L ->
  ok_result VS byz p L (tm_height (engine_tm nd))
    (on_prevote (engine_tm nd) H r h p (stake_of (engine_validator_set nd) p)).
Proof.
  intros Hg [Hi Hvs] Hin. destruct (decide (H = tm_height (engine_tm nd))) as [->|Hne].
  - rewrite Hvs. apply on_prevote_ok; try done. by right.
  - unfold on_prevote. apply Z.eqb_neq in Hne as ->. done.
Qed.

Lemma own_precommit_ok L nd H r h :
  good VS byz L -> nd_inv p L nd -> mkCast Precommit p H r h ∈ L ->
  ok_result VS byz p L (tm_height (engine_tm nd))
    (on_precommit (engine_tm nd) H r h p (stake_of (engine_validator_set nd) p)).
Proof.
  intros Hg [Hi Hvs] Hin. destruct (decide (H = tm_height (engine_tm nd))) as [->|Hne].
  - rewrite Hvs. apply on_precommit_ok; try done. by right.
  - unfold on_precommit. apply Z.eqb_neq in Hne as ->. done.
Qed.

Lemma execute_ok fuel : exec_ok_at fuel.
Proof.
  induction fuel as [|fuel IH]; intros L nd a Hg Hi Ha; simpl; [by apply reaction_done|].
  destruct a as [|H r|H r h|H r h|H r h].
  - by apply reaction_done.
  - pose proof (drain_ok VS byz Hbft p L (engine_tm nd) (ni_tm _ _ _ Hi) Hg) as Hd.
    destruct (drain_buffered_votes (engine_tm nd)) as [s acts].
    destruct Hd as (L' & He & Hi' & Hg' & Hh & Hacts).
    destruct (exec_list_ok fuel IH acts L' (set_tm nd s) []) as (L2 & He2 & ? & ? & ?);
      try done.
    + constructor; simpl; [done|]. rewrite Hh. apply Hi.
    + intros m Hm. by apply elem_of_nil in Hm.
    + exists L2. split_and!; try done. by eapply extends_trans.
  - assert (Hin : mkCast Prevote p H r h ∈ L) by set_solver.
    pose proof (own_prevote_ok L nd H r h Hg Hi Hin) as Hok.
    destruct (on_prevote _ _ _ _ _ _) as [s next].
    pose proof (ok_result_node p L nd _ Hi Hok) as Hn. destruct Hok as (_ & Hg' & _).
    set (nd1 := append_wal _ _).
    pose proof (IH _ nd1 next Hg' (nd_inv_ext _ _ (set_tm nd s) nd1 eq_refl eq_refl Hn)
                  ltac:(set_solver)) as Hr.
    destruct (exec fuel nd1 next) as [nd2 sent].
    apply (reaction_extend p L _ nd2 sent [_] (extends_casts p L next) Hr).
    intros m ->%list_elem_of_singleton. set_solver.
  - assert (Hin : mkCast Precommit p H r h ∈ L) by set_solver.
    pose proof (own_precommit_ok L nd H r h Hg Hi Hin) as Hok.
    destruct (on_precommit _ _ _ _ _ _) as [s next].
    pose proof (ok_result_node p L nd _ Hi Hok) as Hn. destruct Hok as (_ & Hg' & _).
    set (pc := {| pc_height := _ |}). set (nd0 := append_wal _ _).
    match goal with |- context [exec fuel ?x next] => set (nd1 := x) end.
    assert (E : engine_tm nd1 = s /\ engine_validator_set nd1 = engine_validator_set nd).
    { destruct (buffer_precommit_tm (set_tm nd s) pc) as [E1 E2].
      unfold nd1. destruct (negb _); (split; [exact E1|exact E2]). }
    pose proof (IH _ nd1 next Hg' (nd_inv_ext _ _ (set_tm nd s) nd1 (proj1 E) (proj2 E) Hn)
                  ltac:(set_solver)) as Hr.
    destruct (exec fuel nd1 next) as [nd2 sent].
    apply (reaction_extend p L _ nd2 sent [_] (extends_casts p L next) Hr).
    intros m ->%list_elem_of_singleton. set_solver.
  - apply reaction_done; [done|]. by apply (nd_inv_ext _ _ nd).
Qed.

(** A handler followed by the execution of its action. *)
Lemma handler_ok L nd sa :
  good VS byz L -> nd_inv p L nd -> ok_result VS byz p L (tm_height (engine_tm nd)) sa ->
  reaction_ok p L (exec 5 (set_tm nd (fst sa)) (snd sa)).
Proof.
  intros Hg Hi Hok. pose proof (ok_result_node p L nd sa Hi Hok) as Hn.
  destruct Hok as (_ & Hg' & _).
  pose proof (execute_ok 5 _ _ (snd sa) Hg' Hn ltac:(set_solver)) as Hr.
  destruct (exec 5 _ _) as [nd' out].
  apply (reaction_extend p L _ nd' out [] (extends_casts p L (snd sa)) Hr).
  intros m Hm. by apply elem_of_nil in Hm.
Qed.
End execute.

(** ** Commit certificates *)

Lemma u64_add_le a b : 0 <= a -> 0 <= b -> 0 <= u64_add a b <= a + b.
Proof. intros. unfold u64_add. split; [apply Z.mod_pos_bound; lia|apply Z.mod_le; lia]. Qed.

(** The verified stake of a certificate is the weight of distinct validators
    with a verified matching precommit in it. *)
Lemma cert_stake_bound H cert pcs seen acc :
  0 <= acc ->
  exists ks, NoDup ks /\
    (forall k, k ∈ ks -> (k ∉ seen) /\ k ∈ ids VS H /\
       exists pc, pc ∈ pcs /\ pc_voter pc = k /\ pc_matches cert pc = true /\
                  verify_tendermint_precommit sha256 chain_id (VS H) pc = true) /\
    cert_stake sha256 chain_id (VS H) cert seen acc pcs <= acc + Zsum (map (weight VS H) ks).
Proof.
  revert seen acc; induction pcs as [|pc pcs IH]; intros seen acc Hacc; simpl.
  { exists []. split_and!; [constructor| |unfold Zsum; simpl; lia].
    intros k Hk. by apply elem_of_nil in Hk. }
  assert (Hskip : forall seen', seen ⊆ seen' ->
    exists ks, NoDup ks /\
      (forall k, k ∈ ks -> (k ∉ seen) /\ k ∈ ids VS H /\
         exists pc', pc' ∈ pc :: pcs /\ pc_voter pc' = k /\ pc_matches cert pc' = true /\
                  verify_tendermint_precommit sha256 chain_id (VS H) pc' = true) /\
      cert_stake sha256 chain_id (VS H) cert seen' acc pcs <=
      acc + Zsum (map (weight VS H) ks)).
  { intros seen' Hs. destruct (IH seen' acc Hacc) as (ks & Hnd & Hks & Hle).
    exists ks. split_and!; [done| |done]. intros k Hk.
    destruct (Hks k Hk) as (? & ? & pc' & ? & ?). split_and!; [set_solver|done|].
    exists pc'. split; [by right|done]. }
  destruct (negb (pc_matches cert pc)) eqn:Em; [by apply Hskip|].
  case_decide as Hseen; [by apply Hskip|].
  destruct (get_by_id (VS H) (pc_voter pc)) as [v|] eqn:Ev; [|apply Hskip; set_solver].
  destruct (negb (verify_tendermint_precommit _ _ _ _)) eqn:Es; [apply Hskip; set_solver|].
  bool_prop.
  assert (Hst : stake v = weight VS H (pc_voter pc)).
  { unfold weight, stake_of. by rewrite Ev. }
  pose proof (weight_nonneg VS byz H (pc_voter pc) Hbft) as Hnn.
  destruct (u64_add_le acc (stake v)) as [H1 H2]; [done|lia|].
  destruct (IH ({[pc_voter pc]} ∪ seen) (u64_add acc (stake v)) H1) as (ks & Hnd & Hks & Hle).
  exists (pc_voter pc :: ks). split_and!.
  - constructor; [|done]. intros Hk. destruct (Hks _ Hk) as [Hk' _]. set_solver.
  - intros k [->|Hk]%elem_of_cons.
    + split_and!; [done| |exists pc; split_and!; [by left|done..]].
      apply get_by_id_Some in Ev as [Hv <-]. by apply list_elem_of_fmap_2.
    + destruct (Hks k Hk) as (? & ? & pc' & ? & ?). split_and!; [set_solver|done|].
      exists pc'. split; [by right|done].
  - simpl. rewrite Zsum_cons. lia.
Qed.

Lemma genuine_auth L sent c :
  (forall m, m ∈ sent -> cast_of m ⊆ L) -> genuine sent c -> auth byz L c.
Proof. intros Hs [Hb|(m & Hm & Hc)]; [by left|right]. by apply (Hs m Hm). Qed.

(** An accepted certificate proves a quorum of precommits. *)
Lemma cert_quorum L sent H cert :
  (forall m, m ∈ sent -> cast_of m ⊆ L) ->
  (forall pc, pc ∈ cert_precommits cert -> precommit_genuine sent (VS H) pc) ->
  cert_height cert = H ->
  has_quorum (cert_stake sha256 chain_id (VS H) cert ∅ 0 (cert_precommits cert))
    (total_stake (VS H)) = true ->
  quorum VS byz Precommit L H (cert_round cert) (cert_block_hash cert).
Proof.
  intros Hs Hgen Hh [_ Hq]%has_quorum_spec. unfold quorum. etrans; [exact Hq|].
  apply Z.mul_le_mono_nonneg_l; [lia|].
  destruct (cert_stake_bound H cert (cert_precommits cert) ∅ 0 ltac:(lia))
    as (ks & Hnd & Hks & Hle).
  etrans; [exact Hle|]. rewrite Z.add_0_l.
  apply Zsum_le_wsum; [by apply (weights_nonneg VS byz)|done|].
  intros k Hk. destruct (Hks k Hk) as (_ & Hid & pc & Hin & <- & Hm & Hv). split; [done|].
  unfold pc_matches in Hm. bool_prop.
  destruct (genuine_auth L sent _ Hs (Hgen pc Hin Hv)) as [Hb|Hc]; simpl in *.
  - by rewrite Hb.
  - rewrite orb_true_iff, bool_decide_eq_true. right. congruence.
Qed.

Lemma merge_precommits_tm f pcs nd :
  let nd' := foldl (fun nd pc => if f pc : bool then buffer_precommit nd pc else nd) nd pcs in
  engine_tm nd' = engine_tm nd /\ engine_validator_set nd' = engine_validator_set nd.
Proof.
  revert nd; induction pcs as [|pc pcs IH]; intros nd; simpl; [done|].
  destruct (IH (if f pc then buffer_precommit nd pc else nd)) as [E1 E2]. simpl in E1, E2.
  rewrite E1, E2. destruct (buffer_precommit_tm nd pc). by case_match.
Qed.

Lemma handle_commit_certificate_ok p L sent nd cert :
  good VS byz L -> nd_inv p L nd -> (forall m, m ∈ sent -> cast_of m ⊆ L) ->
  allowed sent nd (EvMessage (NetCommitCertificate cert)) ->
  reaction_ok p L (handle_commit_certificate sha256 chain_id nd cert).
Proof.
  intros Hg Hi Hs Hall. simpl in Hall. unfold handle_commit_certificate.
  destruct (negb (_ =? _)) eqn:E1; [by apply reaction_done|].
  destruct (_ || _); [by apply reaction_done|].
  destruct (negb (_ =? chain_id)); [by apply reaction_done|].
  destruct (_ =? NIL_BLOCK_HASH) eqn:E4; [by apply reaction_done|].
  destruct (negb (has_quorum _ _)) eqn:E5; [by apply reaction_done|].
  bool_prop. cbv zeta. set (nd0 := foldl _ _ _).
  destruct (merge_precommits_tm (pc_matches cert) (cert_precommits cert) nd) as [M1 M2].
  rewrite (ni_vs _ _ _ Hi) in Hall, E5.
  pose proof (cert_quorum L sent _ cert Hs Hall E1 E5) as Hq.
  exists L. split_and!; auto using extends_refl.
  - constructor; simpl.
    + apply force_commit_ok; try done; [apply Hi|]. by eexists.
    + fold nd0 in M2. rewrite M2, (ni_vs _ _ _ Hi). unfold force_commit.
      by case_match.
  - intros m ->%list_elem_of_singleton. simpl. set_solver.
Qed.

(** ** Every event keeps the invariant *)

Lemma handle_prevote_ok p L sent nd pv :
  good VS byz L -> nd_inv p L nd -> (forall m, m ∈ sent -> cast_of m ⊆ L) ->
  allowed sent nd (EvMessage (NetPrevote pv)) ->
  reaction_ok p L (handle_prevote sha256 chain_id p (sign p) nd pv).
Proof.
  intros Hg Hi Hs Hall. simpl in Hall. unfold handle_prevote.
  destruct (_ =? 0); [by apply reaction_done|].
  destruct (negb _) eqn:Ev; [by apply reaction_done|]. bool_prop.
  pose proof (genuine_auth L sent _ Hs (Hall Ev)) as Ha.
  assert (Hok : ok_result VS byz p L (tm_height (engine_tm nd))
    (on_prevote (engine_tm nd) (pv_height pv) (pv_round pv) (pv_block_hash pv) (pv_voter pv)
       (stake_of (engine_validator_set nd) (pv_voter pv)))).
  { destruct (decide (pv_height pv = tm_height (engine_tm nd))) as [E|Hne].
    - rewrite E in *. rewrite (ni_vs _ _ _ Hi). apply on_prevote_ok; try done. apply Hi.
    - unfold on_prevote. apply Z.eqb_neq in Hne as ->. split_and!; [apply Hi|done|done]. }
  pose proof (handler_ok p L nd _ Hg Hi Hok) as Hr. by destruct (on_prevote _ _ _ _ _ _).
Qed.

Lemma handle_precommit_ok p L sent nd pc :
  good VS byz L -> nd_inv p L nd -> (forall m, m ∈ sent -> cast_of m ⊆ L) ->
  allowed sent nd (EvMessage (NetPrecommit pc)) ->
  reaction_ok p L (handle_precommit sha256 chain_id p (sign p) nd pc).
Proof.
  intros Hg Hi Hs Hall. simpl in Hall. unfold handle_precommit.
  destruct (_ =? 0); [by apply reaction_done|].
  destruct (negb _) eqn:Ev; [by apply reaction_done|]. bool_prop.
  pose proof (genuine_auth L sent _ Hs (Hall Ev)) as Ha. cbv zeta.
  set (nd1 := if pc_height pc =? _ then _ else nd).
  assert (E : engine_tm nd1 = engine_tm nd /\
              engine_validator_set nd1 = engine_validator_set nd).
  { unfold nd1. case_match; [apply buffer_precommit_tm|done]. }
  destruct E as [E1 E2].
  assert (Hi1 : nd_inv p L nd1) by (by eapply nd_inv_ext).
  assert (Hok : ok_result VS byz p L (tm_height (engine_tm nd1))
    (on_precommit (engine_tm nd1) (pc_height pc) (pc_round pc) (pc_block_hash pc) (pc_voter pc)
       (stake_of (engine_validator_set nd) (pc_voter pc)))).
  { rewrite E1. destruct (decide (pc_height pc = tm_height (engine_tm nd))) as [E|Hne].
    - rewrite E in *. rewrite (ni_vs _ _ _ Hi). apply on_precommit_ok; try done. apply Hi.
    - unfold on_precommit. apply Z.eqb_neq in Hne as ->. split_and!; [apply Hi|done|done]. }
  pose proof (handler_ok p L nd1 _ Hg Hi1 Hok) as Hr. by destruct (on_precommit _ _ _ _ _ _).
Qed.

Lemma advance_height_inv p L nd H :
  nd_inv p L nd -> tm_height (engine_tm nd) < H -> nd_inv p L (advance_height nd H (VS H)).
Proof. intros [H1 H2] Hlt. constructor; simpl; [|done]. by apply tm_inv_height. Qed.

Lemma node_step_ok p L sent nd e :
  good VS byz L -> nd_inv p L nd -> (forall m, m ∈ sent -> cast_of m ⊆ L) ->
  allowed sent nd e -> reaction_ok p L (node_step p nd e).
Proof.
  intros Hg Hi Hs Hall. destruct e as [m|H r h vr|H r h b| | | |slot]; cbn [node_step].
  - destruct m as [pv|pc|cert]; simpl.
    + by eapply handle_prevote_ok.
    + by eapply handle_precommit_ok.
    + by eapply handle_commit_certificate_ok.
  - unfold handle_proposal_validated. case_match; [by apply reaction_done|]. cbv zeta.
    set (nd1 := append_wal _ _).
    assert (Hi1 : nd_inv p L nd1) by (by apply (nd_inv_ext _ _ nd)).
    pose proof (on_proposal_ok VS byz Hbft p L (engine_tm nd1) H r h vr (ni_tm _ _ _ Hi1) Hg) as Hok.
    pose proof (handler_ok p L nd1 _ Hg Hi1 Hok) as Hr. by destruct (on_proposal _ _ _ _ _).
  - unfold handle_local_proposal. case_match; [|by apply reaction_done].
    pose proof (on_proposal_ok VS byz Hbft p L (engine_tm nd) H r h None (ni_tm _ _ _ Hi) Hg) as Hok.
    pose proof (handler_ok p L nd _ Hg Hi Hok) as Hr. by destruct (on_proposal _ _ _ _ _).
  - unfold handle_timeout.
    pose proof (on_timeout_ok VS byz Hbft p L (engine_tm nd) (ni_tm _ _ _ Hi) Hg Hall) as Hok.
    pose proof (handler_ok p L nd _ Hg Hi Hok) as Hr. by destruct (on_timeout _).
  - apply reaction_done; [done|]. by apply (nd_inv_ext _ _ nd).
  - apply reaction_done; [done|]. unfold finish_height. case_match; [|done].
    simpl in Hall. apply (nd_inv_ext _ _ (advance_height nd
      (u64_add (tm_height (engine_tm nd)) 1) (VS (u64_add (tm_height (engine_tm nd)) 1))));
      [done|done|].
    apply advance_height_inv; [done|]. rewrite u64_add_small by ilia. lia.
  - apply reaction_done; [done|]. unfold maybe_advance_engine_to_synced_block.
    case_match; bool_prop; [done|]. by apply advance_height_inv.
Qed.

(** A faulty validator's node after a restart. *)
Lemma startup_inv p L wal H exists_block : byz p = true -> nd_inv p L (startup wal H (VS H) exists_block).
Proof.
  intros Hbz. set (s0 := new_height (tendermint_new 1 (total_stake (VS H))) H (total_stake (VS H))).
  assert (forall s, tm_inv VS byz p L s -> tm_height s = H -> forall es : list WalEntry,
    nd_inv p L {| engine_tm := s; engine_validator_set := VS H; consensus_wal := es;
                  signed_precommits_for_cert := []; pending_commit := None |}) as Hnd.
  { intros s Hs Hh es. constructor; [done|]. simpl. by rewrite Hh. }
  assert (tm_inv VS byz p L s0) as H0.
  { constructor; simpl; auto using col_inv_new; try (rewrite Hbz; discriminate); try done.
    intros r h [x E]. by rewrite lookup_empty in E. }
  unfold startup. fold s0. repeat case_match; simplify_eq; apply Hnd; try done.
  destruct H0. constructor; simpl; auto; rewrite Hbz; discriminate.
Qed.

Lemma net_step_inv L N N' :
  net_inv L N -> net_step N N' -> exists L', L ⊆ L' /\ net_inv L' N'.
Proof.
  intros [Hg Hn Hs] [p nd e nd' out Hp Hall E|p nd wal H exists_block Hp Hbz].
  2: { exists L. split; [done|]. constructor; simpl; [done| |done]. intros q ndq.
       destruct (decide (q = p)) as [->|Hne]; [rewrite lookup_insert_eq; intros [= <-]; by apply startup_inv|].
       rewrite lookup_insert_ne by done. apply Hn. }
  pose proof (node_step_ok p L (net_sent N) nd e Hg (Hn p nd Hp) Hs Hall) as Hr.
  rewrite E in Hr. destruct Hr as (L' & He & Hg' & Hi' & Hs'). exists L'.
  split; [apply He|]. constructor; simpl; [done| |].
  - intros q ndq. destruct (decide (q = p)) as [->|Hne].
    + rewrite lookup_insert_eq. by intros [= <-].
    + rewrite lookup_insert_ne by done. intros Hq. eapply nd_inv_mono; [done|done|by apply Hn].
  - intros m [Hm|Hm]%elem_of_app; [|by apply Hs'].
    specialize (Hs m Hm). destruct He as [He _]. set_solver.
Qed.

Lemma net_steps_inv L N N' :
  net_inv L N -> rtc net_step N N' -> exists L', L ⊆ L' /\ net_inv L' N'.
Proof.
  intros Hi Hr. revert L Hi. induction Hr as [N|N1 N2 N3 H12 _ IH]; intros L Hi.
  { by exists L. }
  destruct (net_step_inv L N1 N2 Hi H12) as (L2 & Hs2 & Hi2).
  destruct (IH L2 Hi2) as (L3 & ? & ?). exists L3. split; [set_solver|done].
Qed.

Lemma net_start_inv N : net_start N -> net_inv [] N.
Proof.
  intros [Hs Hn]. constructor; [done| |].
  - intros p nd Hp. destruct (Hn p nd Hp) as [H ->]. constructor; [|done].
    constructor; simpl; try done; try apply col_inv_new.
    + intros r h [x E]. by rewrite lookup_empty in E.
    + intros _ _ r h Hin. by apply elem_of_nil in Hin.
    + intros _ _ r h Hin. by apply elem_of_nil in Hin.
    + intros _ r h _ Hin. by apply elem_of_nil in Hin.
    + intros _ m Hin. by apply elem_of_nil in Hin.
  - rewrite Hs. intros m Hm. by apply elem_of_nil in Hm.
Qed.
End network.

(** C1. Agreement.  In a network of any number of nodes running the consensus
    loop, in which validators holding less than a third of the stake are
    arbitrarily faulty, messages are lost, delayed, duplicated, reordered and
    invented (only signatures of honest validators cannot be forged), timeouts
    fire at any moment, nodes jump ahead by block sync and enter new heights, and
    faulty ones are restarted (a validator that is restarted counts as faulty): if a node has committed block [h] at height [H] and, then or at any later
    point, another node has committed [h'] at the same height, by its own
    quorum or through a commit certificate, then [h = h']. *)
Theorem agreement (VS : Z -> ValidatorSet) (byz : AccountId -> bool) (sha256 : list Z -> list Z)
    {SB : SigBackend} (chain_id : Z) (sign : AccountId -> list Z -> TaggedSignature)
    (N0 N1 N2 : NetState) (p q : AccountId) (H : Z) (h h' : Hash) :
  bft_assumption VS byz ->
  net_start VS N0 ->
  rtc (net_step VS byz sha256 chain_id sign) N0 N1 ->
  rtc (net_step VS byz sha256 chain_id sign) N1 N2 ->
  committed N1 p H h -> committed N2 q H h' -> h = h'.
Proof.
  intros Hb H0 H01 H12 (nd & Hp & <- & Hh) (nd' & Hq & HH & Hh').
  pose proof (net_start_inv VS byz N0 H0) as Hi0.
  destruct (net_steps_inv VS byz sha256 chain_id sign Hb _ _ _ Hi0 H01) as (L1 & _ & Hi1).
  destruct (net_steps_inv VS byz sha256 chain_id sign Hb _ _ _ Hi1 H12) as (L2 & Hsub & Hi2).
  destruct (ti_commit _ _ _ _ _ (ni_tm _ _ _ _ _ (nv_nodes _ _ _ _ Hi1 p nd Hp)) h Hh)
    as (Hne & r & Hr).
  destruct (ti_commit _ _ _ _ _ (ni_tm _ _ _ _ _ (nv_nodes _ _ _ _ Hi2 q nd' Hq)) h' Hh')
    as (Hne' & r' & Hr').
  rewrite HH in Hr'.
  eapply precommit_quorums_agree; [done|apply Hi2|done|done| |done].
  by eapply quorum_mono.
Qed.

(** C2. A validator that runs the code and is not restarted never equivocates.  In
    the same network, all the prevotes such a validator has ever sent for one height
    and round are for the same block, and likewise its precommits, whatever the
    faulty and the restarted validators, the network and the timers did. *)
Theorem honest_votes_once (VS : Z -> ValidatorSet) (byz : AccountId -> bool)
    (sha256 : list Z -> list Z) {SB : SigBackend} (chain_id : Z)
    (sign : AccountId -> list Z -> TaggedSignature) (N0 N : NetState) (m1 m2 : NetworkMessage)
    (ty : VoteType) (u : AccountId) (H r : Z) (h1 h2 : Hash) :
  bft_assumption VS byz -> net_start VS N0 ->
  rtc (net_step VS byz sha256 chain_id sign) N0 N ->
  byz u = false -> m1 ∈ net_sent N -> m2 ∈ net_sent N ->
  mkCast ty u H r h1 ∈ cast_of m1 -> mkCast ty u H r h2 ∈ cast_of m2 -> h1 = h2.
Proof.
  intros Hb H0 HN Hu Hm1 Hm2 Hc1 Hc2.
  destruct (net_steps_inv VS byz sha256 chain_id sign Hb _ _ _ (net_start_inv VS byz N0 H0) HN)
    as (L & _ & [Hg _ Hs]).
  eapply good_unique; [done|done|by apply (Hs m1)|by apply (Hs m2)].
Qed.

(** ** Executing a network *)

Section run.
Context (VS : Z -> ValidatorSet) (byz : AccountId -> bool).
Context (sha256 : list Z -> list Z) {SB : SigBackend} (chain_id : Z).
Context (sign : AccountId -> list Z -> TaggedSignature).

Definition genuineb (sent : list NetworkMessage) (c : Cast) : bool :=
  byz (c_voter c) || existsb (fun m => bool_decide (c ∈ cast_of m)) sent.

Definition precommit_genuineb (sent : list NetworkMessage) (pc : NetworkPrecommit) : bool :=
  genuineb sent
    (mkCast Precommit (pc_voter pc) (pc_height pc) (pc_round pc) (pc_block_hash pc)).

(** A decidable strengthening of [allowed]. *)
Definition allowedb (sent : list NetworkMessage) (nd : NodeState) (e : NodeEvent) : bool :=
  match e with
  | EvMessage (NetPrevote pv) =>
      genuineb sent
        (mkCast Prevote (pv_voter pv) (pv_height pv) (pv_round pv) (pv_block_hash pv))
  | EvMessage (NetPrecommit pc) => precommit_genuineb sent pc
  | EvMessage (NetCommitCertificate cert) =>
      forallb (precommit_genuineb sent) (cert_precommits cert)
  | EvTimeout => tm_round (engine_tm nd) <? u32_max
  | EvFinishHeight =>
      (0 <=? tm_height (engine_tm nd)) && (tm_height (engine_tm nd) <? u64_max)
  | _ => true
  end.

Fixpoint net_run (N : NetState) (evs : list (AccountId * NodeEvent)) : option NetState :=
  match evs with
  | [] => Some N
  | (p, e) :: evs =>
      match net_nodes N !! p with
      | None => None
      | Some nd =>
          if allowedb (net_sent N) nd e then
            let '(nd', out) := node_step VS sha256 chain_id sign p nd e in
            net_run {| net_nodes := <[p := nd']> (net_nodes N);
                       net_sent := net_sent N ++ out |} evs
          else None
      end
  end.

Lemma genuineb_genuine sent c : genuineb sent c = true -> genuine byz sent c.
Proof.
  unfold genuineb, genuine. rewrite orb_true_iff, existsb_exists.
  intros [?|(m & Hm & Hc)]; [by left|right]. bool_prop. exists m.
  by rewrite list_elem_of_In.
Qed.

Lemma allowedb_allowed sent nd e :
  allowedb sent nd e = true -> allowed byz sha256 chain_id sent nd e.
Proof.
  destruct e as [[pv|pc|cert]| | | | | |]; simpl; intros Ha; try done.
  - intros _. by apply genuineb_genuine.
  - intros _. by apply genuineb_genuine.
  - intros pc Hpc _. rewrite forallb_forall in Ha. apply genuineb_genuine, Ha.
    by apply list_elem_of_In.
  - by bool_prop.
  - by bool_prop.
Qed.

Lemma net_run_steps N evs N' :
  net_run N evs = Some N' -> rtc (net_step VS byz sha256 chain_id sign) N N'.
Proof.
  revert N; induction evs as [|[p e] evs IH]; intros N; simpl; [by intros [= ->]|].
  destruct (net_nodes N !! p) as [nd|] eqn:Hp; [|done].
  destruct (allowedb _ _ _) eqn:Ha; [|done].
  destruct (node_step _ _ _ _ _ _ _) as [nd' out] eqn:E. intros Hr.
  eapply rtc_l; [|by apply IH]. econstructor; [done|by apply allowedb_allowed|done].
Qed.
End run.

(** ** A scenario: four validators of equal stake, one of them faulty

    Nodes 1 to 3 accept a proposal, exchange prevotes and precommits; node 1
    commits by its own quorum, node 2 through a commit certificate. *)
Module Scenario.
Import SampleSig SampleSet.
#[local] Existing Instance sample_backend.
Definition toy_vs (H : Z) : ValidatorSet := sample_set.
Definition toy_byz (u : AccountId) : bool := u =? 4.
Definition toy_start : NetState :=
  {| net_nodes := list_to_map (map (fun u => (u, node_start toy_vs 1)) [1; 2; 3]);
     net_sent := [] |}.
Definition pv_msg (u : AccountId) : NodeEvent :=
  EvMessage (NetPrevote {| pv_height := 1; pv_round := 0; pv_block_hash := 170;
    pv_voter := u; pv_voter_stake := 100; pv_signature := sample_sign u []; pv_chain_id := 7 |}).
Definition pc_msg (u : AccountId) : NetworkPrecommit :=
  {| pc_height := 1; pc_round := 0; pc_block_hash := 170; pc_voter := u;
     pc_voter_stake := 100; pc_signature := sample_sign u []; pc_chain_id := 7 |}.
Definition events1 : list (AccountId * NodeEvent) :=
  map (fun u => (u, EvProposalValidated 1 0 170 None)) [1; 2; 3] ++
  [(1, pv_msg 2); (1, pv_msg 3); (2, pv_msg 1); (2, pv_msg 4); (3, pv_msg 1); (3, pv_msg 2);
   (1, EvMessage (NetPrecommit (pc_msg 2))); (1, EvMessage (NetPrecommit (pc_msg 3)))].
Definition events2 : list (AccountId * NodeEvent) :=
  [(3, EvTimeout); (1, EvTimeout); (1, EvCommitApplied); (1, EvFinishHeight);
   (2, EvMessage (NetCommitCertificate {| cert_height := 1; cert_round := 0;
      cert_block_hash := 170; cert_chain_id := 7;
      cert_precommits := map pc_msg [1; 1; 2; 4] |}))].
Definition toy_run (N : NetState) (evs : list (AccountId * NodeEvent)) : NetState :=
  default N (net_run toy_vs toy_byz id 7 sample_sign N evs).
Definition toy_mid : NetState := toy_run toy_start events1.
Definition toy_end : NetState := toy_run toy_mid events2.

Lemma toy_bft : bft_assumption toy_vs toy_byz.
Proof.
  constructor; intros H; [apply sample_set_wf|by vm_compute..].
Qed.

Lemma toy_mid_committed : committed toy_mid 1 1 170.
Proof. eexists. split; [vm_compute; reflexivity|]. by vm_compute. Qed.

Lemma toy_end_committed : committed toy_end 2 1 170.
Proof. eexists. split; [vm_compute; reflexivity|]. by vm_compute. Qed.

Lemma toy_start_ok : net_start toy_vs toy_start.
Proof.
  split; [done|]. intros p nd Hp%elem_of_list_to_map_2. simpl in Hp.
  exists 1. set_solver.
Qed.

Lemma toy_steps1 : rtc (net_step toy_vs toy_byz id 7 sample_sign) toy_start toy_mid.
Proof. apply net_run_steps with events1. by vm_compute. Qed.

Lemma toy_steps2 : rtc (net_step toy_vs toy_byz id 7 sample_sign) toy_mid toy_end.
Proof. apply net_run_steps with events2. by vm_compute. Qed.

Lemma agreement_witness :
  committed toy_mid 1 1 170 /\ committed toy_end 2 1 170 /\ 170 = 170.
Proof.
  split; [exact toy_mid_committed|]. split; [exact toy_end_committed|].
  exact (agreement toy_vs toy_byz id 7 sample_sign toy_start toy_mid toy_end 1 2 1 170 170
           toy_bft toy_start_ok toy_steps1 toy_steps2 toy_mid_committed toy_end_committed).
Defined.

Lemma honest_votes_once_witness :
  net_sent toy_end !! 0%nat = Some (NetPrevote {| pv_height := 1; pv_round := 0;
    pv_block_hash := 170; pv_voter := 1; pv_voter_stake := 100;
    pv_signature := sample_sign 1 []; pv_chain_id := 7 |}) /\
  forall m h, m ∈ net_sent toy_end -> mkCast Prevote 1 1 0 h ∈ cast_of m -> 170 = h.
Proof.
  split; [vm_compute; reflexivity|]. intros m h Hm Hc.
  eapply (honest_votes_once toy_vs toy_byz id 7 sample_sign toy_start toy_end _ m Prevote 1 1 0
            170 h toy_bft toy_start_ok);
    [etransitivity; [exact toy_steps1|exact toy_steps2]|reflexivity| |exact Hm| |exact Hc].
  - apply (list_elem_of_lookup_2 _ 0). vm_compute. reflexivity.
  - apply list_elem_of_singleton. reflexivity.
Defined.
End Scenario.
