(* ===== verification/Liveness.v ===== *)
(** Progress of a round in the good case: a node that receives the proposal
    and the votes of a quorum commits the proposed block. *)

From S2P Require Import Prelude SigAlgo ValidatorSet Vote Tendermint.
Local Open Scope Z_scope.
Local Open Scope ace_scope.

(** Votes for one hash delivered in some order: (voter, stake). *)
Definition deliver_prevotes (H r : Z) (h : Hash) (s : TendermintState)
    (vs : list (AccountId * Z)) : TendermintState :=
  foldl (fun s '(u, st) => fst (on_prevote s H r h u st)) s vs.

Definition deliver_precommits (H r : Z) (h : Hash) (s : TendermintState)
    (vs : list (AccountId * Z)) : TendermintState :=
  foldl (fun s '(u, st) => fst (on_precommit s H r h u st)) s vs.

(** The state at the beginning of a round. *)
Record fresh_round (s : TendermintState) : Prop := {
  fr_step : tm_step s = StepPropose;
  fr_proposal : proposal_received s = false;
  fr_prevoted : prevoted s = false;
  fr_precommitted : precommitted s = false;
  fr_prevotes : prevotes s = collector_new (tm_height s) (tm_total_stake s);
  fr_precommits : precommits s = collector_new (tm_height s) (tm_total_stake s);
}.

Lemma new_round_fresh s r : fresh_round (new_round s r).
Proof. by constructor. Qed.

(** ** A collector that has only seen votes for [h] *)

Record uniform (c : VoteCollector) (h : Hash) (T : Z) (vs : list (AccountId * Z)) : Prop := {
  un_total : vc_total_stake c = T;
  un_seen : forall u h', voter_first_hash c !! u = Some h' -> u ∈ map fst vs;
  un_buckets : forall h', h' <> h -> buckets c !! h' = None;
  un_stake : voted_stake_for c h = Zsum (map snd vs);
}.

Lemma uniform_new slot T h : uniform (collector_new slot T) h T [].
Proof.
  by constructor.
Qed.

Lemma uniform_add c h T vs u st :
  uniform c h T vs -> u ∉ map fst vs -> 0 <= Zsum (map snd vs) + st <= u64_max ->
  uniform (fst (add_vote_raw c u h st)) h T (vs ++ [(u, st)]).
Proof.
  intros [Ht Hs Hb Hst] Hu Hm. unfold add_vote_raw. set (v := {| slot := _ |}).
  assert (Hn : voter_first_hash c !! voter v = None).
  { destruct (voter_first_hash c !! voter v) as [h'|] eqn:E; [|done]. by destruct (Hu (Hs _ _ E)). }
  pose proof (add_vote_internal_fresh c v st Hn) as Hf.
  destruct (add_vote_internal c v st) as [c' b]. destruct Hf as (_ & Ht' & Hf & Hb'). simpl.
  constructor.
  - by rewrite Ht'.
  - intros u' h'. rewrite Hf, map_app, elem_of_app, lookup_insert_Some. simpl.
    intros [[<- _]|[_ E]]; [right; by left|left; by eapply Hs].
  - intros h' Hne. rewrite Hb', decide_False by done. by apply Hb.
  - unfold voted_stake_for. rewrite Hb', decide_True by done. simpl.
    rewrite map_app. simpl. rewrite Zsum_snoc. rewrite <-Hst in *. unfold voted_stake_for in *.
    destruct (buckets c !! h) as [b0|]; simpl in *; rewrite u64_add_small; lia.
Qed.

Lemma uniform_quorum c h T vs :
  uniform c h T vs -> 0 < T ->
  quorum_block_hash c = if has_quorum (Zsum (map snd vs)) T then Some h else None.
Proof.
  intros [Ht Hs Hb Hst] HT. destruct (quorum_block_hash c) as [h'|] eqn:E.
  - apply quorum_block_hash_sound in E. unfold hash_has_quorum in E. rewrite Ht in E.
    destruct (decide (h' = h)) as [->|Hne]; [by rewrite <-Hst, E|].
    unfold voted_stake_for in E. rewrite (Hb h' Hne) in E. apply has_quorum_spec in E. lia.
  - destruct (has_quorum _ T) eqn:Eq; [|done].
    destruct (quorum_block_hash_complete c h) as [h' Eh']; [lia| |congruence].
    unfold hash_has_quorum. by rewrite Hst, Ht.
Qed.

(** ** Prevotes *)

(** After the proposal: waiting for prevotes, with the ones of [vs] seen; or
    already past them. *)
Record voting (s : TendermintState) (H r : Z) (h : Hash) (T : Z) (vs : list (AccountId * Z))
    : Prop := {
  vt_height : tm_height s = H;
  vt_round : tm_round s = r;
  vt_prevoted : prevoted s = true;
  vt_prevotes : uniform (prevotes s) h T vs;
  vt_precommits : precommits s = collector_new H T;
  vt_step : if has_quorum (Zsum (map snd vs)) T then tm_step s = StepPrecommit
            else tm_step s = StepPrevote;
}.

Lemma prevote_pending_done s : prevoted s = true -> prevote_pending s = (s, ActNone).
Proof. intros E. unfold prevote_pending. by rewrite E, !andb_false_r. Qed.

Lemma do_precommit_fields s h :
  let s' := fst (do_precommit s h) in
  tm_height s' = tm_height s /\ tm_round s' = tm_round s /\ prevoted s' = prevoted s /\
  prevotes s' = prevotes s /\ precommits s' = precommits s /\ tm_step s' = tm_step s.
Proof. unfold do_precommit. by destruct (precommitted s). Qed.

Lemma voting_step s H r h T vs u st :
  voting s H r h T vs -> h <> NIL_BLOCK_HASH -> 0 < T -> 0 <= st ->
  u ∉ map fst vs -> 0 <= Zsum (map snd vs) -> Zsum (map snd vs) + st <= u64_max ->
  voting (fst (on_prevote s H r h u st)) H r h T (vs ++ [(u, st)]).
Proof.
  intros [Hh Hr Hp Hv Hc Hs] Hne HT Hst Hu H0 Hm. subst H r.
  pose proof (uniform_add _ _ _ _ u st Hv Hu ltac:(lia)) as Hv'.
  pose proof (uniform_quorum _ _ _ _ Hv' HT) as Hq.
  assert (Hsum : Zsum (map snd (vs ++ [(u, st)])) = Zsum (map snd vs) + st).
  { rewrite map_app. apply Zsum_snoc. }
  assert (Hmono : has_quorum (Zsum (map snd vs)) T = true ->
                  has_quorum (Zsum (map snd (vs ++ [(u, st)]))) T = true).
  { rewrite Hsum. apply has_quorum_mono. lia. }
  unfold on_prevote. rewrite !Z.eqb_refl, Z.ltb_irrefl. simpl.
  assert (tm_step s <> StepCommitted /\ tm_step s <> StepCommitWait) as [N1 N2]
    by (destruct (has_quorum _ T); rewrite Hs; done).
  rewrite !bool_decide_false by done. simpl. cbv zeta.
  set (c := fst (add_vote_raw _ _ _ _)) in *. rewrite Hq.
  destruct (has_quorum (Zsum (map snd (vs ++ [(u, st)]))) T) eqn:EQ.
  - apply Z.eqb_neq in Hne. rewrite Hne. simpl. case_decide as Est.
    + match goal with |- context [do_precommit ?x _] =>
        pose proof (do_precommit_fields x h) as (E1 & E2 & E3 & E4 & E5 & E6);
        destruct (do_precommit x h) as [s' a] end. simpl in *.
      constructor; simpl; rewrite ?E1, ?E2, ?E3, ?E4, ?E5, ?E6, ?EQ; done.
    + rewrite prevote_pending_done by done. constructor; simpl; try done. rewrite EQ.
      by destruct (has_quorum (Zsum (map snd vs)) T).
  - rewrite prevote_pending_done by done. constructor; simpl; try done. rewrite EQ.
    destruct (has_quorum (Zsum (map snd vs)) T); [by specialize (Hmono eq_refl)|done].
Qed.

(** The stakes of distinct voters within [u64]. *)
Record votes_fit (vs : list (AccountId * Z)) : Prop := {
  vf_nodup : NoDup (map fst vs);
  vf_nonneg : Forall (fun x => 0 <= x) (map snd vs);
  vf_fit : Zsum (map snd vs) <= u64_max;
}.

Lemma votes_fit_app vs ws : votes_fit (vs ++ ws) -> votes_fit vs.
Proof.
  intros [H1 H2 H3]. rewrite map_app in *. apply Forall_app in H2 as [? Hn].
  pose proof (Zsum_nonneg _ Hn). rewrite Zsum_app in H3.
  apply NoDup_app in H1 as (? & _ & _). constructor; try done. lia.
Qed.

Lemma deliver_prevotes_voting H r h T ws s vs :
  voting s H r h T vs -> h <> NIL_BLOCK_HASH -> 0 < T -> votes_fit (vs ++ ws) ->
  voting (deliver_prevotes H r h s ws) H r h T (vs ++ ws).
Proof.
  revert s vs; induction ws as [|[u st] ws IH]; intros s vs Hv Hne HT Hf; simpl.
  { by rewrite app_nil_r. }
  assert (E : vs ++ (u, st) :: ws = (vs ++ [(u, st)]) ++ ws) by (by rewrite <-app_assoc).
  rewrite E in *. apply IH; [|done|done|done].
  pose proof (votes_fit_app _ _ Hf) as [F1 F2 F3]. rewrite !map_app in *. simpl in *.
  apply Forall_app in F2 as [F2 F2']. inversion F2'; subst.
  rewrite Zsum_snoc in F3.
  apply NoDup_app in F1 as (_ & F1 & _).
  apply voting_step; try done; [|by apply Zsum_nonneg].
  intros Hin. apply (F1 u Hin). by left.
Qed.

(** ** Precommits *)

Record committing (s : TendermintState) (H r : Z) (h : Hash) (T : Z)
    (vs : list (AccountId * Z)) : Prop := {
  cm_height : tm_height s = H;
  cm_round : tm_round s = r;
  cm_precommits : uniform (precommits s) h T vs;
  cm_step : if has_quorum (Zsum (map snd vs)) T
            then tm_step s = StepCommitWait /\ committed_hash s = Some h
            else tm_step s <> StepCommitWait /\ tm_step s <> StepCommitted;
}.

Lemma committing_step s H r h T vs u st :
  committing s H r h T vs -> h <> NIL_BLOCK_HASH -> 0 < T -> 0 <= st ->
  u ∉ map fst vs -> 0 <= Zsum (map snd vs) -> Zsum (map snd vs) + st <= u64_max ->
  committing (fst (on_precommit s H r h u st)) H r h T (vs ++ [(u, st)]).
Proof.
  intros [Hh Hr Hv Hs] Hne HT Hst Hu H0 Hm. subst H r.
  pose proof (uniform_add _ _ _ _ u st Hv Hu ltac:(lia)) as Hv'.
  pose proof (uniform_quorum _ _ _ _ Hv' HT) as Hq.
  assert (Hmono : has_quorum (Zsum (map snd vs)) T = true ->
                  has_quorum (Zsum (map snd (vs ++ [(u, st)]))) T = true).
  { rewrite map_app. simpl. rewrite Zsum_snoc. apply has_quorum_mono. lia. }
  unfold on_precommit. rewrite !Z.eqb_refl, Z.ltb_irrefl. simpl. cbv zeta.
  set (c := fst (add_vote_raw _ _ _ _)) in *.
  destruct (has_quorum (Zsum (map snd vs)) T) eqn:EQ0.
  - destruct Hs as [Hs Hc]. rewrite Hs. simpl.
    constructor; simpl; try done. by rewrite Hmono, Hs.
  - destruct Hs as [N1 N2]. rewrite !bool_decide_false by done. simpl. rewrite Hq.
    destruct (has_quorum (Zsum (map snd (vs ++ [(u, st)]))) T) eqn:EQ.
    + apply Z.eqb_neq in Hne. rewrite Hne. simpl. constructor; simpl; try done. by rewrite EQ.
    + constructor; simpl; try done. by rewrite EQ.
Qed.

Lemma deliver_precommits_committing H r h T ws s vs :
  committing s H r h T vs -> h <> NIL_BLOCK_HASH -> 0 < T -> votes_fit (vs ++ ws) ->
  committing (deliver_precommits H r h s ws) H r h T (vs ++ ws).
Proof.
  revert s vs; induction ws as [|[u st] ws IH]; intros s vs Hv Hne HT Hf; simpl.
  { by rewrite app_nil_r. }
  assert (E : vs ++ (u, st) :: ws = (vs ++ [(u, st)]) ++ ws) by (by rewrite <-app_assoc).
  rewrite E in *. apply IH; [|done|done|done].
  pose proof (votes_fit_app _ _ Hf) as [F1 F2 F3]. rewrite !map_app in *. simpl in *.
  apply Forall_app in F2 as [F2 F2']. inversion F2'; subst. rewrite Zsum_snoc in F3.
  apply NoDup_app in F1 as (_ & F1 & _).
  apply committing_step; try done; [|by apply Zsum_nonneg].
  intros Hin. apply (F1 u Hin). by left.
Qed.

(** The state after the proposal of a fresh round. *)
Lemma on_proposal_voting s h :
  fresh_round s -> (locked_hash s = None \/ locked_hash s = Some h) -> 0 < tm_total_stake s ->
  voting (fst (on_proposal s (tm_height s) (tm_round s) h None)) (tm_height s) (tm_round s) h
    (tm_total_stake s) [].
Proof.
  intros [F1 F2 F3 F4 F5 F6] Hlk HT. unfold on_proposal. rewrite !Z.eqb_refl, F1, F2. simpl.
  assert (E : forall s1, prevoted s1 = false -> tm_step s1 = StepPropose ->
    fst (do_prevote s1 h) = set_tm_step StepPrevote (set_prevoted true s1)).
  { intros s1 E1 E2. unfold do_prevote. rewrite E1. simpl. by rewrite decide_True. }
  set (s1 := set_proposal_received true (set_proposal_hash (Some h) s)).
  assert (Hgoal : voting (fst (do_prevote s1 h)) (tm_height s) (tm_round s) h
                    (tm_total_stake s) []).
  { rewrite E by done. constructor; simpl; try done.
    - rewrite F5. apply uniform_new.
    - rewrite Zsum_nil. destruct (has_quorum 0 _) eqn:Eq; [|done].
      apply has_quorum_spec in Eq. lia. }
  destruct Hlk as [-> | ->]; [done|]. by rewrite Z.eqb_refl.
Qed.

(** C3. A round in the good case commits.  A node at the beginning of a round,
    not locked on another block, receives the proposal [h], then prevotes for
    [h] from distinct validators holding a quorum of the stake, then precommits
    for [h] from distinct validators holding a quorum, each in any order and
    possibly more than needed: it is then in the commit phase with [h]
    committed. *)
Theorem good_round_commits (s : TendermintState) (h : Hash) (pvs pcs : list (AccountId * Z)) :
  fresh_round s -> h <> NIL_BLOCK_HASH ->
  (locked_hash s = None \/ locked_hash s = Some h) -> 0 < tm_total_stake s ->
  votes_fit pvs -> votes_fit pcs ->
  has_quorum (Zsum (map snd pvs)) (tm_total_stake s) = true ->
  has_quorum (Zsum (map snd pcs)) (tm_total_stake s) = true ->
  let s1 := fst (on_proposal s (tm_height s) (tm_round s) h None) in
  let s2 := deliver_prevotes (tm_height s) (tm_round s) h s1 pvs in
  let s3 := deliver_precommits (tm_height s) (tm_round s) h s2 pcs in
  tm_step s2 = StepPrecommit /\ tm_step s3 = StepCommitWait /\ committed_hash s3 = Some h.
Proof.
  intros Hf Hne Hlk HT Hpv Hpc Hq1 Hq2 s1 s2 s3.
  pose proof (on_proposal_voting s h Hf Hlk HT) as V1.
  pose proof (deliver_prevotes_voting _ _ _ _ pvs _ [] V1 Hne HT Hpv) as V2.
  destruct V2 as [V1' V2' V3 V4 V5 V6]. simpl in V6. rewrite Hq1 in V6.
  assert (C : committing s2 (tm_height s) (tm_round s) h (tm_total_stake s) []).
  { constructor; try done.
    - unfold s2, s1. rewrite V5. apply uniform_new.
    - cbn [map]. rewrite Zsum_nil. destruct (has_quorum 0 _) eqn:Eq.
      + apply has_quorum_spec in Eq. lia.
      + unfold s2, s1. by rewrite V6. }
  pose proof (deliver_precommits_committing _ _ _ _ pcs _ [] C Hne HT Hpc) as [_ _ _ C4].
  simpl in C4. rewrite Hq2 in C4. done.
Qed.

Lemma good_round_commits_witness :
  let s := new_round (tendermint_new 5 400) 2 in
  let s1 := fst (on_proposal s 5 2 170 None) in
  let s2 := deliver_prevotes 5 2 170 s1 [(1, 100); (3, 100); (4, 100)] in
  let s3 := deliver_precommits 5 2 170 s2 [(2, 100); (1, 100); (3, 100); (4, 100)] in
  tm_step s2 = StepPrecommit /\ tm_step s3 = StepCommitWait /\ committed_hash s3 = Some 170.
Proof.
  apply (good_round_commits (new_round (tendermint_new 5 400) 2) 170
           [(1, 100); (3, 100); (4, 100)] [(2, 100); (1, 100); (3, 100); (4, 100)]);
    [apply new_round_fresh|done|by left|done| | |done|done].
  - constructor; simpl; [repeat constructor; set_solver|repeat constructor; lia|by vm_compute].
  - constructor; simpl; [repeat constructor; set_solver|repeat constructor; lia|by vm_compute].
Defined.
