(* ===== verification/LeaderSchedule.v ===== *)
(** Proposer selection (ace-consensus/src/leader_schedule.rs).

    The proposer is drawn from SHA-256 of the seed and the position, by
    rejection sampling against the total stake.  SHA-256 is a parameter.  The
    rejection loop of the code has no bound; [fuel] bounds it here and
    [sample_first] shows that any fuel that reaches an accepted draw gives the
    loop's result. *)

From S2P Require Import Prelude SigAlgo ValidatorSet.
Local Open Scope Z_scope.
Local Open Scope ace_scope.

Record LeaderSchedule := { seed : Hash }.

Definition leader_schedule_new (s : Hash) : LeaderSchedule := {| seed := s |}.
Definition rotate_seed (ls : LeaderSchedule) (s : Hash) : LeaderSchedule := {| seed := s |}.

(** [u64::MAX - (u64::MAX % total_stake)] *)
Definition threshold (total : Z) : Z := u64_max - u64_max mod total.

(** The walk over the validators, [accumulated] so far. *)
Fixpoint walk (accumulated target : Z) (vs : list Validator) : option AccountId :=
  match vs with
  | [] => None
  | v :: vs =>
      let accumulated := u64_add accumulated (stake v) in
      if target <? accumulated then Some (id_com v) else walk accumulated target vs
  end.

(** The last validator is the fallback of the code. *)
Definition pick (vs : ValidatorSet) (value : Z) : AccountId :=
  match walk 0 (value mod total_stake vs) (validators vs) with
  | Some id => id
  | None => default 0 (id_com <$> last (validators vs))
  end.

Section schedule.
Context (sha256 : list Z -> list Z).

(** [u64::from_le_bytes(result[0..8])] *)
Definition draw (bytes : list Z) : Z := le_num (take 8 (sha256 bytes)).

(** The [while value >= threshold] loop. *)
Fixpoint sample (fuel : nat) (prefix : list Z) (limit counter value : Z) : option Z :=
  if value <? limit then Some value
  else match fuel with
       | O => None
       | S fuel =>
           let counter := u32_add counter 1 in
           sample fuel prefix limit counter (draw (prefix ++ le_bytes 4 counter))
       end.

Definition select (fuel : nat) (prefix : list Z) (vs : ValidatorSet) : option AccountId :=
  if is_empty vs || (total_stake vs =? 0) then Some 0
  else match sample fuel prefix (threshold (total_stake vs)) 0 (draw prefix) with
       | Some value => Some (pick vs value)
       | None => None
       end.

Definition leader_for_slot (fuel : nat) (ls : LeaderSchedule) (slot : Z) (vs : ValidatorSet)
    : option AccountId :=
  select fuel (be_bytes 32 (seed ls) ++ le_bytes 8 slot) vs.

Definition proposer_for_height_round (fuel : nat) (ls : LeaderSchedule) (height round : Z)
    (vs : ValidatorSet) : option AccountId :=
  select fuel (be_bytes 32 (seed ls) ++ le_bytes 8 height ++ le_bytes 4 round) vs.

(** The [k]-th draw of the loop. *)
Definition nth_draw (prefix : list Z) (k : nat) : Z :=
  match k with
  | O => draw prefix
  | S _ => draw (prefix ++ le_bytes 4 (Z.of_nat k))
  end.

Lemma sample_from prefix limit k n fuel :
  (n <= fuel)%nat -> Z.of_nat (k + n) <= u32_max ->
  (forall i, (i < n)%nat -> limit <= nth_draw prefix (k + i)) ->
  nth_draw prefix (k + n) < limit ->
  sample fuel prefix limit (Z.of_nat k) (nth_draw prefix k) = Some (nth_draw prefix (k + n)).
Proof.
  revert k fuel; induction n as [|n IH]; intros k fuel Hf Hk Hrej Hacc.
  { rewrite Nat.add_0_r in *. apply Z.ltb_lt in Hacc. destruct fuel; simpl; by rewrite Hacc. }
  destruct fuel as [|fuel]; [lia|]. pose proof (Hrej 0%nat ltac:(lia)) as H0.
  rewrite Nat.add_0_r in H0. apply Z.ltb_ge in H0. simpl. rewrite H0.
  rewrite u32_add_small by ilia.
  replace (Z.of_nat k + 1) with (Z.of_nat (S k)) by lia.
  change (draw (prefix ++ le_bytes 4 (Z.of_nat (S k)))) with (nth_draw prefix (S k)).
  replace (k + S n)%nat with (S k + n)%nat in * by lia. apply IH; [lia|done| |done].
  intros i Hi. replace (S k + i)%nat with (k + S i)%nat by lia. apply Hrej. lia.
Qed.

(** The loop returns the first draw below the threshold. *)
Lemma sample_first prefix limit n fuel :
  (n <= fuel)%nat -> Z.of_nat n <= u32_max ->
  (forall i, (i < n)%nat -> limit <= nth_draw prefix i) -> nth_draw prefix n < limit ->
  sample fuel prefix limit 0 (draw prefix) = Some (nth_draw prefix n).
Proof. intros. by apply (sample_from prefix limit 0 n fuel). Qed.
End schedule.

(** ** The walk hits every validator on exactly its stake *)

Definition stake_before (l : list Validator) : Z := Zsum (map stake l).

Lemma walk_spec l1 v l2 acc target :
  Forall (fun v => 0 <= stake v) (l1 ++ v :: l2) ->
  NoDup (map id_com (l1 ++ v :: l2)) ->
  0 <= acc -> acc + stake_before (l1 ++ v :: l2) <= u64_max ->
  acc <= target ->
  walk acc target (l1 ++ v :: l2) = Some (id_com v) <->
  acc + stake_before l1 <= target < acc + stake_before l1 + stake v.
Proof.
  unfold stake_before. revert acc; induction l1 as [|x l1 IH]; intros acc Hn Hnd Hacc Hm Ht; simpl in *.
  - inversion Hn as [|? ? Hv Hn']; subst. rewrite Zsum_cons, ?Zsum_nil in *.
    pose proof (Zsum_nonneg (map stake l2) ltac:(by apply Forall_fmap)).
    rewrite u64_add_small by lia. destruct (target <? _) eqn:E; bool_prop; [split; [lia|done]|].
    split; [|lia]. intros Hw. exfalso.
    inversion Hnd as [|? ? Hni _]; subst. apply Hni.
    clear -Hw. revert Hw. generalize (acc + stake v).
    induction l2 as [|y l2 IH]; intros z; simpl; [done|]. case_match.
    + intros [= ->]. by left.
    + intros ?%IH. by right.
  - inversion Hn as [|? ? Hx Hn']; subst. inversion Hnd as [|? ? Hni Hnd']; subst.
    rewrite Zsum_cons in *.
    assert (Hall : Forall (fun x => 0 <= x) (map stake (l1 ++ v :: l2))) by (by apply Forall_fmap).
    pose proof (Zsum_nonneg _ Hall).
    rewrite u64_add_small by lia. destruct (target <? _) eqn:E; bool_prop.
    + split; [|rewrite map_app in Hall; apply Forall_app in Hall as [Hall _];
               pose proof (Zsum_nonneg _ Hall); lia].
      intros [= Ex]. exfalso. apply Hni. rewrite Ex, map_app, elem_of_app. right; by left.
    + rewrite IH; [lia|done|done|lia|lia|lia].
Qed.

Lemma walk_some l acc target :
  Forall (fun v => 0 <= stake v) l -> 0 <= acc -> acc + stake_before l <= u64_max ->
  acc <= target < acc + stake_before l ->
  exists v, v ∈ l /\ walk acc target l = Some (id_com v).
Proof.
  unfold stake_before. intros Hn. revert acc; induction Hn as [|x l Hx Hn IH]; intros acc Hacc Hm Ht; simpl in *.
  { rewrite Zsum_nil in *. lia. }
  rewrite Zsum_cons in *. assert (0 <= Zsum (map stake l)) by (by apply Zsum_nonneg, Forall_fmap).
  rewrite u64_add_small by lia. destruct (target <? _) eqn:E; bool_prop.
  - exists x. split; [by left|done].
  - destruct (IH (acc + stake x)) as (v & ? & ?); [lia..|]. exists v. split; [by right|done].
Qed.

Lemma threshold_spec total :
  0 < total <= u64_max -> 0 < threshold total <= u64_max /\ threshold total mod total = 0.
Proof.
  intros Ht. unfold threshold. pose proof (Z.mod_pos_bound u64_max total ltac:(lia)).
  pose proof (Z.div_mod u64_max total ltac:(lia)) as E.
  assert (u64_max - u64_max mod total = total * (u64_max / total)) as -> by lia.
  assert (0 < u64_max / total) by (apply Z.div_str_pos; lia).
  split; [nia|]. rewrite Z.mul_comm. apply Z_mod_mult.
Qed.

(** Proposers are drawn exactly in proportion to stake.  Accepted draws
    range over a multiple of the total stake, so that every residue is equally
    likely; and a draw selects a validator [v] precisely when its residue modulo
    the total lies in a block of [stake v] consecutive residues, the blocks of
    the validators being laid end to end in the set's order. *)
Theorem proposer_stake_weighted vs l1 v l2 value :
  vs_wf vs -> validators vs = l1 ++ v :: l2 -> 0 <= value ->
  threshold (total_stake vs) mod total_stake vs = 0 /\
  (pick vs value = id_com v <->
   stake_before l1 <= value mod total_stake vs < stake_before l1 + stake v).
Proof.
  intros Hwf Hvs Hval. pose proof (vs_wf_nonneg vs Hwf) as Hn.
  pose proof (vs_wf_ids vs Hwf) as Hnd. destruct Hwf as [_ _ Hst Ht Hu].
  assert (Hpos : 0 < total_stake vs).
  { rewrite Ht, Hvs, map_app, Zsum_app. simpl. rewrite Zsum_cons.
    rewrite Hvs in Hst. apply Forall_app in Hst as [H1 [H2 H3]%Forall_cons].
    unfold MIN_VALIDATOR_STAKE in *.
    assert (0 <= Zsum (map stake l1)).
    { apply Zsum_nonneg, Forall_fmap. eapply Forall_impl; [done|]. simpl; lia. }
    assert (0 <= Zsum (map stake l2)).
    { apply Zsum_nonneg, Forall_fmap. eapply Forall_impl; [done|]. simpl; lia. }
    lia. }
  split; [apply threshold_spec; lia|].
  pose proof (Z.mod_pos_bound value (total_stake vs) Hpos) as Hmod.
  destruct (walk_some (validators vs) 0 (value mod total_stake vs)) as (x & Hx & Hw);
    [done|lia|unfold stake_before; lia|unfold stake_before; lia|].
  unfold pick. rewrite Hw.
  pose proof (walk_spec l1 v l2 0 (value mod total_stake vs)) as Hspec.
  rewrite <-Hvs in Hspec. specialize (Hspec Hn Hnd ltac:(lia)).
  rewrite Hw in Hspec. unfold stake_before in Hspec at 1. rewrite <-Ht in Hspec.
  specialize (Hspec ltac:(lia) ltac:(lia)). rewrite Z.add_0_l in Hspec. rewrite <-Hspec.
  split; [by intros ->|by intros [= ->]].
Qed.

(** The proposer is well defined.  For a non-empty validator set, once one of
    the first [n] draws falls below the threshold, the selection terminates with
    the same validator whatever the fuel, and it is a member of the set. *)
Theorem proposer_defined sha256 ls height round vs n :
  vs_wf vs -> validators vs <> [] -> Z.of_nat n <= u32_max ->
  let prefix := be_bytes 32 (seed ls) ++ le_bytes 8 height ++ le_bytes 4 round in
  nth_draw sha256 prefix n < threshold (total_stake vs) ->
  exists v, v ∈ validators vs /\
    forall fuel, (n <= fuel)%nat ->
      proposer_for_height_round sha256 fuel ls height round vs = Some (id_com v).
Proof.
  intros Hwf Hne Hn prefix Hacc.
  assert (exists m, (m <= n)%nat /\ nth_draw sha256 prefix m < threshold (total_stake vs) /\
            forall i, (i < m)%nat -> threshold (total_stake vs) <= nth_draw sha256 prefix i)
    as (m & Hm & Hma & Hmr).
  { clear -Hacc. induction n as [n IH] using lt_wf_ind.
    destruct (decide (Exists (fun i => nth_draw sha256 prefix i < threshold (total_stake vs)) (seq 0 n)))
      as [Hex|Hex].
    - apply Exists_exists in Hex as (i & Hi & Hlt). apply elem_of_seq in Hi.
      destruct (IH i ltac:(lia) Hlt) as (m & ? & ? & ?). exists m. split; [lia|done].
    - exists n. split_and!; [done|done|]. intros i Hi. apply Z.nlt_ge. intros Hlt. apply Hex.
      apply Exists_exists. exists i. split; [apply elem_of_seq; lia|done]. }
  pose proof (vs_wf_nonneg vs Hwf) as Hnn. destruct Hwf as [_ _ Hst Ht Hu].
  assert (Htot : 0 < total_stake vs).
  { rewrite Ht. destruct (validators vs) as [|x l]; [done|]. simpl. rewrite Zsum_cons.
    inversion Hst; inversion Hnn; subst. unfold MIN_VALIDATOR_STAKE in *.
    assert (0 <= Zsum (map stake l)) by (by apply Zsum_nonneg, Forall_fmap). lia. }
  destruct (walk_some (validators vs) 0 (nth_draw sha256 prefix m mod total_stake vs))
    as (v & Hv & Hw); [done|lia|unfold stake_before; lia| |].
  { pose proof (Z.mod_pos_bound (nth_draw sha256 prefix m) (total_stake vs) Htot).
    unfold stake_before. lia. }
  exists v. split; [done|]. intros fuel Hf. unfold proposer_for_height_round, select.
  fold prefix. assert (is_empty vs || (total_stake vs =? 0) = false) as ->.
  { unfold is_empty. destruct (validators vs); [done|]. simpl. apply Z.eqb_neq. lia. }
  rewrite (sample_first sha256 prefix _ m fuel); [|lia|lia|done|done].
  unfold pick. by rewrite Hw.
Qed.

Lemma proposer_stake_weighted_witness : pick SampleSet.sample_set 550 = 2.
Proof.
  apply (proposer_stake_weighted SampleSet.sample_set [SampleSet.sample_validator 1]
           (SampleSet.sample_validator 2)
           [SampleSet.sample_validator 3; SampleSet.sample_validator 4] 550
           SampleSet.sample_set_wf eq_refl ltac:(lia)).
  vm_compute. split; [discriminate|reflexivity].
Defined.

(** A digest whose first draw is above every threshold and whose later ones are
    below: the loop runs once. *)
Definition sample_digest (bytes : list Z) : list Z :=
  if (length bytes =? 44)%nat then replicate 32 255 else replicate 32 3.

Lemma proposer_defined_witness :
  exists v, v ∈ validators SampleSet.sample_set /\
    proposer_for_height_round sample_digest 9 (leader_schedule_new 77) 10 2 SampleSet.sample_set =
    Some (id_com v).
Proof.
  destruct (proposer_defined sample_digest (leader_schedule_new 77) 10 2 SampleSet.sample_set 1
              SampleSet.sample_set_wf ltac:(discriminate) ltac:(by vm_compute)
              ltac:(by vm_compute)) as (v & Hv & Hp).
  exists v. split; [exact Hv|]. apply Hp. lia.
Defined.
