(* ===== verification/Rewards.v ===== *)
(** Epochs and validator rewards (ace-consensus/src/rewards.rs).

    An epoch's pool is minted under a halving schedule and a supply cap, added
    to the fees, and split over three buckets; the remainders of the divisions
    are handed out one unit at a time.  The theorem shows that no unit is lost
    or created by the split.  Settlement pays the rewards out.
    [usize] is 64 bits wide. *)

From S2P Require Import Prelude.
Local Open Scope Z_scope.
Local Open Scope ace_scope.

Definition BLOCKS_PER_EPOCH : Z := 216000.
Definition INITIAL_DAILY_REWARD : Z := 100000 * 1000000000.
Definition WARMUP_TARGET_VALIDATORS : Z := 1000.
Definition TARGET_DAILY_REWARD_PER_VALIDATOR : Z :=
  INITIAL_DAILY_REWARD / WARMUP_TARGET_VALIDATORS.
Definition TX_FEE : Z := 20000.
Definition HALVING_INTERVAL_EPOCHS : Z := 1461.
Definition MAX_SUPPLY : Z := 1000000000 * 1000000000.
Definition BASE_REWARD_BPS : Z := 7500.
Definition PERFORMANCE_REWARD_BPS : Z := 1700.
Definition AGE_REWARD_BPS : Z := 800.
Definition BPS_DENOMINATOR : Z := 10000.
Definition PERF_WEIGHT_FLOOR_BPS : Z := 8500.
Definition PERF_WEIGHT_CEIL_BPS : Z := 11500.

Record RewardProfile := {
  rp_validator : AccountId;
  perf_weight_bps : Z;
  age_weight_bps : Z;
}.

(** ** Epoch tracker *)

Record EpochTracker := {
  current_epoch : Z;
  accumulated_fees : Z;
  total_minted : Z;
  blocks_in_epoch : Z;
  epoch_tx_count : Z;
  last_epoch_tx_count : Z;
}.

Definition tracker_new : EpochTracker :=
  {| current_epoch := 0; accumulated_fees := 0; total_minted := 0; blocks_in_epoch := 0;
     epoch_tx_count := 0; last_epoch_tx_count := 0 |}.

Definition with_checkpoint (epoch minted fees blocks : Z) : EpochTracker :=
  {| current_epoch := epoch; accumulated_fees := fees; total_minted := minted;
     blocks_in_epoch := blocks; epoch_tx_count := 0; last_epoch_tx_count := 0 |}.

(** The epoch completed by this block, if any. *)
Definition on_block (t : EpochTracker) (tx_count : Z) : EpochTracker * option Z :=
  let fees := u64_saturating_add (accumulated_fees t) (u64_saturating_mul tx_count TX_FEE) in
  let txs := u64_saturating_add (epoch_tx_count t) tx_count in
  let blocks := u64_add (blocks_in_epoch t) 1 in
  if BLOCKS_PER_EPOCH <=? blocks then
    ({| current_epoch := u64_add (current_epoch t) 1; accumulated_fees := fees;
        total_minted := total_minted t; blocks_in_epoch := 0; epoch_tx_count := 0;
        last_epoch_tx_count := txs |}, Some (current_epoch t))
  else
    ({| current_epoch := current_epoch t; accumulated_fees := fees;
        total_minted := total_minted t; blocks_in_epoch := blocks; epoch_tx_count := txs;
        last_epoch_tx_count := last_epoch_tx_count t |}, None).

Definition take_fees (t : EpochTracker) : EpochTracker * Z :=
  ({| current_epoch := current_epoch t; accumulated_fees := 0; total_minted := total_minted t;
      blocks_in_epoch := blocks_in_epoch t; epoch_tx_count := epoch_tx_count t;
      last_epoch_tx_count := last_epoch_tx_count t |}, accumulated_fees t).

Definition record_mint (t : EpochTracker) (amount : Z) : EpochTracker :=
  {| current_epoch := current_epoch t; accumulated_fees := accumulated_fees t;
     total_minted := u64_saturating_add (total_minted t) amount;
     blocks_in_epoch := blocks_in_epoch t; epoch_tx_count := epoch_tx_count t;
     last_epoch_tx_count := last_epoch_tx_count t |}.

(** ** Reward engine *)

Definition epoch_reward_pool (epoch minted active : Z) : Z :=
  if active =? 0 then 0
  else
    let halvings := epoch / HALVING_INTERVAL_EPOCHS in
    if 20 <=? halvings then 0
    else
      let warmup_validators := Z.min active WARMUP_TARGET_VALIDATORS in
      let warmup_pool :=
        u64_saturating_mul warmup_validators TARGET_DAILY_REWARD_PER_VALIDATOR in
      let pool := Z.shiftr warmup_pool halvings in
      Z.min pool (u64_saturating_sub MAX_SUPPLY minted).

Definition gets_extra (count rotation remainder i : Z) : bool :=
  (i + count - rotation mod count) mod count <? remainder.

Definition distribute_equal (amount : Z) (outputs : list Z) (rotation : Z) : list Z :=
  if bool_decide (outputs = []) || (amount =? 0) then outputs
  else
    let count := Z.of_nat (length outputs) in
    let per := amount / count in
    let remainder := amount mod count in
    imap (fun i o => u64_saturating_add o
            (per + (if gets_extra count rotation remainder (Z.of_nat i) then 1 else 0))) outputs.

(** [for j in 0..k]: one unit at the rotated index. *)
Definition add_units (k : nat) (outputs : list Z) (rotation : Z) : list Z :=
  foldl (fun out j =>
           let idx := Z.to_nat (u64_add rotation (Z.of_nat j) mod Z.of_nat (length outputs)) in
           <[idx := u64_saturating_add (out !!! idx) 1]> out) outputs (seq 0 k).

Definition distribute_weighted (amount : Z) (weights outputs : list Z) (rotation : Z) : list Z :=
  if bool_decide (outputs = []) || (amount =? 0) then outputs
  else
    let total_weight := foldl u64_saturating_add 0 weights in
    if total_weight =? 0 then distribute_equal amount outputs rotation
    else
      let shares := map (fun w => amount * w / total_weight) weights in
      let outputs := zip_with u64_saturating_add outputs shares in
      let distributed := foldl u64_saturating_add 0 shares in
      let remainder := u64_saturating_sub amount distributed in
      add_units (Z.to_nat (Z.min remainder (Z.of_nat (length outputs)))) outputs rotation.

Definition clamp (lo hi x : Z) : Z := Z.max lo (Z.min hi x).

(** The amount of every profile, before the zero entries are dropped. *)
Definition reward_amounts (epoch total_reward : Z) (profiles : list RewardProfile) : list Z :=
  let base_pool := u64_saturating_mul total_reward BASE_REWARD_BPS / BPS_DENOMINATOR in
  let perf_pool := u64_saturating_mul total_reward PERFORMANCE_REWARD_BPS / BPS_DENOMINATOR in
  let age_pool := u64_saturating_sub (u64_saturating_sub total_reward base_pool) perf_pool in
  let rewards := replicate (length profiles) 0 in
  let rewards := distribute_equal base_pool rewards epoch in
  let rewards := distribute_weighted perf_pool
    (map (fun p => clamp PERF_WEIGHT_FLOOR_BPS PERF_WEIGHT_CEIL_BPS (perf_weight_bps p)) profiles)
    rewards epoch in
  distribute_weighted age_pool (map age_weight_bps profiles) rewards epoch.

Definition distribute (epoch minted fees : Z) (profiles : list RewardProfile)
    : list (AccountId * Z) :=
  if bool_decide (length profiles = 0%nat) then []
  else
    let block_reward := epoch_reward_pool epoch minted (Z.of_nat (length profiles)) in
    let total_reward := u64_saturating_add block_reward fees in
    if total_reward =? 0 then []
    else
      List.filter (fun '(_, amount) => 0 <? amount)
        (zip (map rp_validator profiles) (reward_amounts epoch total_reward profiles)).

(** ** Sums of updated vectors *)

Lemma Zsum_insert (l : list Z) i y :
  (i < length l)%nat -> Zsum (<[i := y]> l) = Zsum l - l !!! i + y.
Proof.
  revert i; induction l as [|x l IH]; intros [|i] Hi; simpl in *; try lia; rewrite !Zsum_cons.
  - lia.
  - rewrite IH by lia. lia.
Qed.

(** Adding a vector of increments, entry by entry. *)
Lemma Zsum_zip_add (l d : list Z) :
  length l = length d -> Zsum (zip_with Z.add l d) = Zsum l + Zsum d.
Proof.
  revert d; induction l as [|x l IH]; intros [|y d] Hl; simplify_eq/=; [done|].
  rewrite !Zsum_cons, IH by done. lia.
Qed.

Lemma zip_saturating_small (l d : list Z) :
  length l = length d -> Forall (fun x => 0 <= x) l -> Forall (fun x => 0 <= x) d ->
  Zsum l + Zsum d <= u64_max ->
  zip_with u64_saturating_add l d = zip_with Z.add l d.
Proof.
  revert d; induction l as [|x l IH]; intros [|y d] Hl Hn Hd Hm; simplify_eq/=; [done|].
  inversion Hn as [|? ? Hx Hn']; inversion Hd as [|? ? Hy Hd']; subst.
  rewrite !Zsum_cons in Hm. pose proof (Zsum_nonneg l Hn'). pose proof (Zsum_nonneg d Hd').
  rewrite u64_saturating_add_small by lia. f_equal. apply IH; [done..|lia].
Qed.

Lemma imap_zip_with {A B C} (f : nat -> B) (g : A -> B -> C) (l : list A) :
  imap (fun i x => g x (f i)) l = zip_with g l (map f (seq 0 (length l))).
Proof.
  revert f; induction l as [|x l IH]; intros f; simpl; [done|]. f_equal.
  rewrite <-seq_shift, map_map. rewrite <-IH. done.
Qed.

(** [l'] pays [amount] on top of [l]: entry by entry no less, in total exactly
    [amount] more. *)
Record pays (amount : Z) (l l' : list Z) : Prop := {
  pays_length : length l' = length l;
  pays_nonneg : Forall (fun x => 0 <= x) l';
  pays_sum : Zsum l' = Zsum l + amount;
}.

Lemma pays_add (l d : list Z) :
  length l = length d -> Forall (fun x => 0 <= x) l -> Forall (fun x => 0 <= x) d ->
  Zsum l + Zsum d <= u64_max -> pays (Zsum d) l (zip_with u64_saturating_add l d).
Proof.
  intros Hl Hn Hd Hm. rewrite zip_saturating_small by done. constructor.
  - rewrite length_zip_with. lia.
  - clear Hm. revert d Hl Hd. induction Hn as [|x l Hx Hn IH]; intros [|y d] Hl Hd; simplify_eq/=;
      constructor; inversion Hd; subst; [lia|]. by apply IH.
  - by apply Zsum_zip_add.
Qed.

(** ** Equal split *)

Definition count_lt (r : Z) (l : list Z) : Z :=
  Zsum (map (fun x => if x <? r then 1 else 0) l).

Lemma count_lt_seq r n :
  0 <= r -> count_lt r (map Z.of_nat (seq 0 n)) = Z.min r (Z.of_nat n).
Proof.
  intros Hr. unfold count_lt. induction n as [|n IH]; [simpl; rewrite Zsum_nil; lia|].
  rewrite seq_S, !map_app, Zsum_app, IH. cbn [map Nat.add]. rewrite Zsum_cons, Zsum_nil.
  destruct (Z.of_nat n <? r) eqn:E; bool_prop; lia.
Qed.

(** The rotation is a permutation of the indices. *)
Lemma rotation_perm n k :
  (k < n)%nat ->
  map (fun i => (Z.of_nat i + Z.of_nat n - Z.of_nat k) mod Z.of_nat n) (seq 0 n) ≡ₚ
  map Z.of_nat (seq 0 n).
Proof.
  intros Hk. set (f := fun i : nat => _).
  assert (E1 : seq 0 n = seq 0 k ++ seq k (n - k)).
  { rewrite <-seq_app. f_equal. lia. }
  assert (E2 : map Z.of_nat (seq 0 n) = map Z.of_nat (seq 0 (n - k)) ++ map Z.of_nat (seq (n - k) k)).
  { rewrite <-map_app, <-seq_app. do 2 f_equal. lia. }
  rewrite E2, E1, map_app, Permutation_app_comm. unfold f.
  assert (Heq : forall l1 l2 : list Z, l1 = l2 -> l1 ≡ₚ l2) by (by intros ? ? ->).
  apply Permutation_app; apply Heq.
  - apply (list_eq_same_length _ _ (n - k)); rewrite ?length_map, ?length_seq; try done.
    intros i x y Hi Hx Hy.
    rewrite list_lookup_fmap, lookup_seq_lt in Hx, Hy by lia. simplify_eq/=.
    replace (Z.of_nat (k + i) + Z.of_nat n - Z.of_nat k) with (Z.of_nat i + 1 * Z.of_nat n) by lia.
    rewrite Z_mod_plus_full, Z.mod_small; lia.
  - apply (list_eq_same_length _ _ k); rewrite ?length_map, ?length_seq; try done.
    intros i x y Hi Hx Hy.
    rewrite list_lookup_fmap, lookup_seq_lt in Hx, Hy by lia. simplify_eq/=.
    rewrite Z.mod_small; lia.
Qed.

Lemma extras_sum n rotation r :
  (0 < n)%nat -> 0 <= rotation -> 0 <= r <= Z.of_nat n ->
  Zsum (map (fun i => if gets_extra (Z.of_nat n) rotation r (Z.of_nat i) then 1 else 0)
          (seq 0 n)) = r.
Proof.
  intros Hn Hrot Hr.
  pose proof (Z.mod_pos_bound rotation (Z.of_nat n) ltac:(lia)) as Hk.
  set (k := Z.to_nat (rotation mod Z.of_nat n)).
  assert (Ek : rotation mod Z.of_nat n = Z.of_nat k) by lia.
  transitivity (count_lt r (map (fun i => (Z.of_nat i + Z.of_nat n - Z.of_nat k) mod Z.of_nat n)
                              (seq 0 n))).
  { unfold count_lt. rewrite map_map. unfold gets_extra. by rewrite Ek. }
  unfold count_lt. rewrite (rotation_perm n k) by lia. fold (count_lt r (map Z.of_nat (seq 0 n))).
  rewrite count_lt_seq; lia.
Qed.

Lemma Zsum_map_add {A} (f g : A -> Z) l :
  Zsum (map (fun x => f x + g x) l) = Zsum (map f l) + Zsum (map g l).
Proof. induction l as [|x l IH]; simpl; [done|]. rewrite !Zsum_cons, IH. lia. Qed.

Lemma distribute_equal_pays amount outputs rotation :
  outputs <> [] -> 0 <= amount -> 0 <= rotation -> Forall (fun x => 0 <= x) outputs ->
  Zsum outputs + amount <= u64_max -> pays amount outputs (distribute_equal amount outputs rotation).
Proof.
  intros Hne Ha Hrot Hn Hm. unfold distribute_equal. rewrite bool_decide_false by done. simpl.
  destruct (amount =? 0) eqn:E; bool_prop; [subst; constructor; [done|done|lia]|].
  set (n := length outputs). assert (0 < n)%nat by (unfold n; destruct outputs; simpl; [done|lia]).
  rewrite imap_zip_with. fold n.
  set (d := map _ (seq 0 n)).
  assert (Hsum : Zsum d = amount).
  { unfold d. rewrite Zsum_map_add, Zsum_map_const, length_seq.
    pose proof (Z.mod_pos_bound amount (Z.of_nat n) ltac:(lia)).
    rewrite extras_sum by lia. pose proof (Z.div_mod amount (Z.of_nat n) ltac:(lia)). lia. }
  rewrite <-Hsum. apply pays_add; [|done| |lia].
  - unfold d. by rewrite length_map, length_seq.
  - unfold d. apply Forall_fmap, Forall_forall. intros i _. simpl.
    assert (0 <= amount / Z.of_nat n) by (apply Z.div_pos; lia). case_match; lia.
Qed.

(** ** Weighted split *)

Lemma foldl_saturating_small l a :
  0 <= a -> Forall (fun x => 0 <= x) l -> a + Zsum l <= u64_max ->
  foldl u64_saturating_add a l = a + Zsum l.
Proof.
  intros Ha Hn. revert a Ha; induction Hn as [|x l Hx Hn IH]; intros a Ha Hm; simpl.
  { rewrite Zsum_nil. lia. }
  rewrite Zsum_cons in *. pose proof (Zsum_nonneg l Hn).
  rewrite u64_saturating_add_small, IH by lia. lia.
Qed.

(** Rounding down loses less than one unit per share. *)
Lemma shares_bounds amount W weights :
  0 <= amount -> 0 < W ->
  let shares := map (fun w => amount * w / W) weights in
  W * Zsum shares <= amount * Zsum weights /\
  amount * Zsum weights - W * Z.of_nat (length weights) <= W * Zsum shares.
Proof.
  intros Ha HW shares. unfold shares. clear shares.
  induction weights as [|w l IH]; simpl; [rewrite !Zsum_nil; lia|]. rewrite !Zsum_cons.
  pose proof (Z.div_mod (amount * w) W ltac:(lia)).
  pose proof (Z.mod_pos_bound (amount * w) W HW). nia.
Qed.

Lemma shares_remainder amount weights :
  0 <= amount -> weights <> [] -> 0 < Zsum weights ->
  let shares := map (fun w => amount * w / Zsum weights) weights in
  Zsum shares <= amount /\ amount - Zsum shares <= Z.of_nat (length weights).
Proof.
  intros Ha Hne HW shares. destruct (shares_bounds amount (Zsum weights) weights Ha HW) as [H1 H2].
  fold shares in H1, H2. nia.
Qed.

Lemma add_unit_pays out idx :
  (idx < length out)%nat -> Forall (fun x => 0 <= x) out -> Zsum out + 1 <= u64_max ->
  pays 1 out (<[idx := u64_saturating_add (out !!! idx) 1]> out).
Proof.
  intros Hi Hn Hm. destruct (lookup_lt_is_Some_2 out idx Hi) as [x Hx].
  pose proof (list_lookup_total_correct _ _ _ Hx) as Ex.
  assert (x <= Zsum out) as Hle.
  { rewrite <-(list_fmap_id out). apply (Zsum_elem_le id); [|by eapply list_elem_of_lookup_2].
    intros y Hy. rewrite Forall_forall in Hn. by apply Hn. }
  assert (0 <= x) by (rewrite Forall_lookup in Hn; by eapply Hn).
  rewrite u64_saturating_add_small by lia. constructor.
  - apply length_insert.
  - apply Forall_insert; [done|lia].
  - rewrite Zsum_insert by done. lia.
Qed.

Lemma add_units_pays k outputs rotation :
  outputs <> [] -> Forall (fun x => 0 <= x) outputs -> Zsum outputs + Z.of_nat k <= u64_max ->
  pays (Z.of_nat k) outputs (add_units k outputs rotation).
Proof.
  intros Hne Hn.
  assert (0 < length outputs)%nat as Hlen by (destruct outputs; simpl; [done|lia]).
  unfold add_units. induction k as [|k IH]; intros Hm; [constructor; simpl; [done|done|lia]|].
  rewrite seq_S, foldl_app. cbn [foldl Nat.add].
  destruct IH as [Hl Hp Hs]; [lia|]. set (out := foldl _ _ _) in *.
  destruct (add_unit_pays out
    (Z.to_nat (u64_add rotation (Z.of_nat k) mod Z.of_nat (length outputs)))) as [Q1 Q2 Q3].
  - rewrite Hl. pose proof (Z.mod_pos_bound (u64_add rotation (Z.of_nat k))
                              (Z.of_nat (length outputs)) ltac:(lia)). lia.
  - done.
  - lia.
  - constructor; [congruence|done|]. rewrite Q3, Hs. lia.
Qed.

Lemma distribute_weighted_pays amount weights outputs rotation :
  length weights = length outputs -> outputs <> [] -> 0 <= amount -> 0 <= rotation ->
  Forall (fun x => 0 <= x) outputs -> Forall (fun x => 0 <= x) weights ->
  Zsum weights <= u64_max -> Zsum outputs + amount <= u64_max ->
  pays amount outputs (distribute_weighted amount weights outputs rotation).
Proof.
  intros Hl Hne Ha Hrot Hn Hw HW Hm. unfold distribute_weighted.
  rewrite bool_decide_false by done. simpl.
  destruct (amount =? 0) eqn:E; bool_prop; [subst; constructor; [done|done|lia]|].
  rewrite foldl_saturating_small by (done || lia). rewrite Z.add_0_l.
  destruct (Zsum weights =? 0) eqn:E0; bool_prop; [by apply distribute_equal_pays|].
  assert (Hwne : weights <> []) by (intros ->; by rewrite Zsum_nil in E0).
  assert (HW0 : 0 < Zsum weights) by (pose proof (Zsum_nonneg weights Hw); lia).
  destruct (shares_remainder amount weights Ha Hwne HW0) as [H1 H2].
  set (shares := map _ weights) in *.
  assert (Hsn : Forall (fun x => 0 <= x) shares).
  { apply Forall_fmap, Forall_forall. intros w Hin. rewrite Forall_forall in Hw. simpl.
    apply Z.div_pos; [|done]. specialize (Hw w Hin). nia. }
  pose proof (Zsum_nonneg outputs Hn) as Ho. pose proof (Zsum_nonneg shares Hsn) as Hs0.
  assert (Hls : length outputs = length shares) by (unfold shares; by rewrite length_map).
  destruct (pays_add outputs shares Hls Hn Hsn ltac:(lia)) as [P1 P2 P3].
  rewrite (foldl_saturating_small shares) by (done || lia). rewrite Z.add_0_l.
  rewrite u64_saturating_sub_small by lia.
  set (out := zip_with _ _ _) in *.
  destruct (add_units_pays (Z.to_nat (Z.min (amount - Zsum shares) (Z.of_nat (length out))))
              out rotation) as [Q1 Q2 Q3].
  - intros Hnil. rewrite Hnil in P1. by destruct outputs.
  - done.
  - lia.
  - constructor; [congruence|done|]. rewrite Q3, P3, Z2Nat.id by lia.
    rewrite P1, <-Hl. lia.
Qed.

(** ** The whole distribution *)

Lemma weights_fit {A} (f : A -> Z) (b : Z) (l : list A) :
  Forall (fun p => 0 <= f p <= b) l -> b * Z.of_nat (length l) <= u64_max ->
  Zsum (map f l) <= u64_max.
Proof.
  intros Hl Hm. enough (Zsum (map f l) <= b * Z.of_nat (length l)) by lia. clear Hm.
  induction Hl as [|x l Hx Hl IH]; simpl; [rewrite Zsum_nil; lia|]. rewrite Zsum_cons. lia.
Qed.

Lemma reward_amounts_pay epoch total profiles :
  profiles <> [] -> 0 <= epoch -> 0 <= total <= u64_max ->
  Forall (fun p => 0 <= age_weight_bps p <= 65535) profiles ->
  Z.of_nat (length profiles) <= u32_max ->
  let amounts := reward_amounts epoch total profiles in
  length amounts = length profiles /\ Forall (fun x => 0 <= x) amounts /\ Zsum amounts = total.
Proof.
  intros Hne He Ht Hage Hlen. unfold reward_amounts. cbv zeta.
  set (base := u64_saturating_mul total BASE_REWARD_BPS / BPS_DENOMINATOR).
  set (perf := u64_saturating_mul total PERFORMANCE_REWARD_BPS / BPS_DENOMINATOR).
  assert (Hb : 0 <= base /\ 0 <= perf /\ base + perf <= total).
  { unfold base, perf, u64_saturating_mul, BASE_REWARD_BPS, PERFORMANCE_REWARD_BPS, BPS_DENOMINATOR.
    pose proof (Z.div_mod (Z.min (total * 7500) u64_max) 10000 ltac:(lia)).
    pose proof (Z.div_mod (Z.min (total * 1700) u64_max) 10000 ltac:(lia)).
    pose proof (Z.mod_pos_bound (Z.min (total * 7500) u64_max) 10000 ltac:(lia)).
    pose proof (Z.mod_pos_bound (Z.min (total * 1700) u64_max) 10000 ltac:(lia)).
    ilia. }
  rewrite (u64_saturating_sub_small total base) by lia.
  rewrite (u64_saturating_sub_small (total - base) perf) by lia.
  assert (Hr0 : replicate (length profiles) 0 <> []) by (by destruct profiles).
  assert (Hs0 : Zsum (replicate (length profiles) 0) = 0).
  { clear. induction profiles; simpl; [done|]. by rewrite Zsum_cons. }
  destruct (distribute_equal_pays base (replicate (length profiles) 0) epoch) as [L1 N1 S1];
    [done|lia|done|by apply Forall_replicate|lia|].
  rewrite length_replicate in L1. set (o1 := distribute_equal _ _ _) in *.
  assert (Ho1 : o1 <> []) by (intros E; rewrite E in L1; by destruct profiles).
  destruct (distribute_weighted_pays perf (map (fun p => clamp PERF_WEIGHT_FLOOR_BPS
    PERF_WEIGHT_CEIL_BPS (perf_weight_bps p)) profiles) o1 epoch) as [L2 N2 S2];
    [by rewrite length_map|done|lia|done|done| | |lia|].
  { apply Forall_fmap, Forall_forall. intros p _.
    unfold clamp, PERF_WEIGHT_FLOOR_BPS, PERF_WEIGHT_CEIL_BPS. simpl. lia. }
  { eapply (weights_fit _ 11500); [|ilia]. apply Forall_forall. intros p _.
    unfold clamp, PERF_WEIGHT_FLOOR_BPS, PERF_WEIGHT_CEIL_BPS. lia. }
  set (o2 := distribute_weighted perf _ _ _) in *.
  destruct (distribute_weighted_pays (total - base - perf) (map age_weight_bps profiles) o2 epoch)
    as [L3 N3 S3]; [by rewrite length_map; congruence| |lia|done|done| | |lia|].
  { intros E; rewrite E in L2; by destruct o1. }
  { apply Forall_fmap. eapply Forall_impl; [done|]. simpl; lia. }
  { eapply (weights_fit _ 65535); [done|ilia]. }
  split_and!; [congruence|done|lia].
Qed.

Lemma Zsum_filter_pos (ids : list AccountId) (amounts : list Z) :
  length ids = length amounts -> Forall (fun x => 0 <= x) amounts ->
  Zsum (map snd (List.filter (fun '(_, a) => 0 <? a) (zip ids amounts))) = Zsum amounts.
Proof.
  revert amounts; induction ids as [|i ids IH]; intros [|a amounts] Hl Hn; simplify_eq/=; [done|].
  inversion Hn; subst. destruct (0 <? a) eqn:E; bool_prop; simpl; rewrite ?Zsum_cons, IH by done; lia.
Qed.

(** Well-formed reward inputs: [u16] weights, at most [u32::MAX] validators. *)
Definition profiles_ok (profiles : list RewardProfile) : Prop :=
  Forall (fun p => 0 <= age_weight_bps p <= 65535) profiles /\
  Z.of_nat (length profiles) <= u32_max.

Lemma epoch_reward_pool_bounds epoch minted active :
  0 <= epoch -> 0 <= active -> 0 <= minted <= MAX_SUPPLY ->
  0 <= epoch_reward_pool epoch minted active <= MAX_SUPPLY - minted.
Proof.
  intros He Ha Hm. unfold epoch_reward_pool. case_match; [lia|]. case_match; [lia|].
  rewrite (u64_saturating_sub_small MAX_SUPPLY) by lia.
  split; [|lia]. apply Z.min_glb; [|lia]. apply Z.shiftr_nonneg.
  unfold u64_saturating_mul. apply Z.min_glb; [|by vm_compute].
  apply Z.mul_nonneg_nonneg; [unfold WARMUP_TARGET_VALIDATORS; lia|by vm_compute].
Qed.

Lemma distribute_sum epoch minted fees profiles :
  0 <= epoch -> 0 <= minted <= MAX_SUPPLY -> 0 <= fees -> profiles_ok profiles ->
  profiles <> [] ->
  epoch_reward_pool epoch minted (Z.of_nat (length profiles)) + fees <= u64_max ->
  Zsum (map snd (distribute epoch minted fees profiles)) =
  epoch_reward_pool epoch minted (Z.of_nat (length profiles)) + fees.
Proof.
  intros He Hm Hf [Hage Hlen] Hne Hfit. unfold distribute.
  pose proof (epoch_reward_pool_bounds epoch minted (Z.of_nat (length profiles)) He
                ltac:(lia) Hm) as Hpool.
  rewrite bool_decide_false by (by destruct profiles). cbv zeta.
  rewrite u64_saturating_add_small by lia.
  destruct (_ =? 0) eqn:E; bool_prop; [simpl; rewrite Zsum_nil; lia|].
  destruct (reward_amounts_pay epoch
    (epoch_reward_pool epoch minted (Z.of_nat (length profiles)) + fees) profiles)
    as (L & N & S); try done; [lia|].
  rewrite Zsum_filter_pos; [done|by rewrite length_map|done].
Qed.

(** Reward distribution conserves value: what the validators of an epoch are
    paid is exactly the minted pool plus the collected fees, to the last unit,
    whatever their performance and age weights and whatever the rounding; every
    listed amount is positive and goes to a validator of the epoch. *)
Theorem distribute_conserves epoch minted fees profiles :
  0 <= epoch -> 0 <= minted <= MAX_SUPPLY -> 0 <= fees -> profiles_ok profiles ->
  profiles <> [] ->
  epoch_reward_pool epoch minted (Z.of_nat (length profiles)) + fees <= u64_max ->
  let rewards := distribute epoch minted fees profiles in
  Zsum (map snd rewards) = epoch_reward_pool epoch minted (Z.of_nat (length profiles)) + fees /\
  Forall (fun '(u, amount) => 0 < amount /\ u ∈ map rp_validator profiles) rewards.
Proof.
  intros. split; [by apply distribute_sum|]. unfold rewards, distribute. cbv zeta.
  destruct (bool_decide _); [constructor|]. destruct (_ =? 0); [constructor|]. apply Forall_forall. intros [u a] Hin%list_elem_of_In%filter_In.
  destruct Hin as [Hin%list_elem_of_In Ha]. bool_prop. split; [done|].
  by apply elem_of_zip_l in Hin.
Qed.

(** Three validators with uneven weights. *)
Definition sample_profiles : list RewardProfile :=
  [{| rp_validator := 1; perf_weight_bps := 10000; age_weight_bps := 10000 |};
   {| rp_validator := 2; perf_weight_bps := 11500; age_weight_bps := 0 |};
   {| rp_validator := 3; perf_weight_bps := 9000; age_weight_bps := 333 |}].

Lemma sample_profiles_ok : profiles_ok sample_profiles.
Proof. split; [repeat constructor; simpl; lia|by vm_compute]. Qed.

Lemma distribute_conserves_witness :
  Zsum (map snd (distribute 7 1000 12345 sample_profiles)) = 300000000000 + 12345.
Proof.
  etransitivity.
  - apply (distribute_conserves 7 1000 12345 sample_profiles); [lia|by vm_compute|lia| | |by vm_compute].
    + exact sample_profiles_ok.
    + discriminate.
  - vm_compute. reflexivity.
Defined.
