(* ===== verification/Finality.v ===== *)
(** Proof-based finality (ace-runtime/src/consensus/finality.rs,
    consensus/timeout.rs, types/finality.rs) and the per-slot finality tracking
    of ace-consensus/src/engine.rs.

    A block is soft once a quorum voted for it, hard once a finality certificate
    for it verifies, and rolled back when both proof windows pass.  The proof
    system is outside: [verify_fc] and [verify_fc_for_block] are its two
    verification entry points; blocks and state snapshots are opaque. *)

From S2P Require Import Prelude SigAlgo ValidatorSet Vote.
Local Open Scope Z_scope.
Local Open Scope ace_scope.

(** ** Types *)

Inductive FinalityState : Type :=
| Pending
| Soft
| BackupWait
| Hard
| RolledBack.

#[global] Instance FinalityState_eq_dec : EqDecision FinalityState.
Proof. solve_decision. Defined.

Definition is_terminal (s : FinalityState) : bool :=
  match s with
  | Hard | RolledBack => true
  | _ => false
  end.

Definition is_confirmed (s : FinalityState) : bool :=
  match s with
  | Soft | BackupWait | Hard => true
  | _ => false
  end.

Record FinalityCertificate := {
  fc_block_hash : Hash;
  fc_slot : Z;
  fc_proof : list Z;
  fc_id_com_commitment : Hash;
}.

Inductive FinalityEvent : Type :=
| BlockReceived (votes total_stake : Z) (h : Hash)
| FinalityCertReceived (fc : FinalityCertificate)
| BuilderTimeout
| BackupTimeout.

Inductive FinalityAction : Type :=
| FinNone
| SlashBuilder
| RequeueTxs
| SlashAndRequeue.

#[global] Instance FinalityAction_eq_dec : EqDecision FinalityAction.
Proof. solve_decision. Defined.

Record FinalityStateMachine := {
  fsm_state : FinalityState;
  fsm_slot : Z;
  builder_slashed : bool;
  expected_block_hash : option Hash;
  invalid_fc_seen : bool;
}.

Definition fsm_new (slot : Z) : FinalityStateMachine :=
  {| fsm_state := Pending; fsm_slot := slot; builder_slashed := false;
     expected_block_hash := None; invalid_fc_seen := false |}.

Definition set_fsm_state (m : FinalityStateMachine) (s : FinalityState) : FinalityStateMachine :=
  {| fsm_state := s; fsm_slot := fsm_slot m; builder_slashed := builder_slashed m;
     expected_block_hash := expected_block_hash m; invalid_fc_seen := invalid_fc_seen m |}.

(** ** The state machine *)

Definition on_block_received (m : FinalityStateMachine) (votes total_stake : Z) (h : Hash)
    : FinalityStateMachine * FinalityAction :=
  if negb (bool_decide (fsm_state m = Pending)) then (m, FinNone)
  else if has_quorum votes total_stake then
    ({| fsm_state := Soft; fsm_slot := fsm_slot m; builder_slashed := builder_slashed m;
        expected_block_hash := Some h; invalid_fc_seen := invalid_fc_seen m |}, FinNone)
  else (m, FinNone).

(** The certificate names the tracked slot and block. *)
Definition context_valid (m : FinalityStateMachine) (fc : FinalityCertificate) : bool :=
  (fc_slot fc =? fsm_slot m) &&
  match expected_block_hash m with
  | Some h => fc_block_hash fc =? h
  | None => false
  end.

Definition on_builder_timeout (m : FinalityStateMachine) : FinalityStateMachine * FinalityAction :=
  if negb (bool_decide (fsm_state m = Soft)) then (m, FinNone)
  else
    let m := set_fsm_state m BackupWait in
    if negb (builder_slashed m) then
      ({| fsm_state := fsm_state m; fsm_slot := fsm_slot m; builder_slashed := true;
          expected_block_hash := expected_block_hash m;
          invalid_fc_seen := invalid_fc_seen m |}, SlashBuilder)
    else (m, FinNone).

Definition on_backup_timeout (m : FinalityStateMachine) : FinalityStateMachine * FinalityAction :=
  if negb (bool_decide (fsm_state m = BackupWait)) then (m, FinNone)
  else (set_fsm_state m RolledBack, RequeueTxs).

(** ** Timeouts *)

Definition K_BUILDER_SLOTS : Z := 3.
Definition K_BACKUP_SLOTS : Z := 3.

Inductive TimeoutPhase : Type :=
| BuilderWindow
| BackupWindow
| Expired
| Resolved.

Record TimeoutProtocol := {
  tp_block_slot : Z;
  tp_resolved : bool;
}.

Definition timeout_new (slot : Z) : TimeoutProtocol :=
  {| tp_block_slot := slot; tp_resolved := false |}.

Definition resolve (t : TimeoutProtocol) : TimeoutProtocol :=
  {| tp_block_slot := tp_block_slot t; tp_resolved := true |}.

Definition phase (t : TimeoutProtocol) (current_slot : Z) : TimeoutPhase :=
  if tp_resolved t then Resolved
  else
    let elapsed := u64_saturating_sub current_slot (tp_block_slot t) in
    if elapsed <=? K_BUILDER_SLOTS then BuilderWindow
    else if elapsed <=? K_BUILDER_SLOTS + K_BACKUP_SLOTS then BackupWindow
    else Expired.

Definition is_builder_expired (t : TimeoutProtocol) (current_slot : Z) : bool :=
  negb (tp_resolved t) && (u64_add (tp_block_slot t) K_BUILDER_SLOTS <? current_slot).

(** ** Witness availability *)

Record WitnessAvailability := {
  wa_received : gmap Z Z;
  total_validators : Z;
  valid_validators : option (gmap Z Z);
}.

Definition witness_new (total : Z) : WitnessAvailability :=
  {| wa_received := ∅; total_validators := total; valid_validators := None |}.

Definition witness_new_with_set (total : Z) (valid : gmap Z Z) : WitnessAvailability :=
  {| wa_received := ∅; total_validators := total; valid_validators := Some valid |}.

Definition record_receipt (w : WitnessAvailability) (id : Z) : WitnessAvailability * bool :=
  match wa_received w !! id with
  | Some _ => (w, false)
  | None =>
      let add s := ({| wa_received := <[id := s]> (wa_received w);
                       total_validators := total_validators w;
                       valid_validators := valid_validators w |}, true) in
      match valid_validators w with
      | Some valid => match valid !! id with
                      | Some s => add s
                      | None => (w, false)
                      end
      | None => add 1
      end
  end.

Definition received_stake (w : WitnessAvailability) : Z :=
  u64_sum (map snd (map_to_list (wa_received w))).

Definition is_available (w : WitnessAvailability) : bool :=
  QUORUM_NUMERATOR * total_validators w <=? received_stake w * QUORUM_DENOMINATOR.

Section engine.
Context {Block Snapshot : Type}.
Context (verify_fc : FinalityCertificate -> bool)
        (verify_fc_for_block : FinalityCertificate -> Block -> bool).
Context (sha256 : list Z -> list Z) {SB : SigBackend}.

Definition on_finality_certificate (m : FinalityStateMachine) (fc : FinalityCertificate)
    (block : option Block) : FinalityStateMachine * FinalityAction :=
  let valid := context_valid m fc &&
               match block with
               | Some b => verify_fc_for_block fc b
               | None => verify_fc fc
               end in
  match fsm_state m with
  | Soft =>
      if valid then (set_fsm_state m Hard, FinNone)
      else ({| fsm_state := fsm_state m; fsm_slot := fsm_slot m;
               builder_slashed := builder_slashed m;
               expected_block_hash := expected_block_hash m; invalid_fc_seen := true |}, FinNone)
  | BackupWait => if valid then (set_fsm_state m Hard, FinNone) else (m, FinNone)
  | _ => (m, FinNone)
  end.

Definition on_event (m : FinalityStateMachine) (e : FinalityEvent)
    : FinalityStateMachine * FinalityAction :=
  if is_terminal (fsm_state m) then (m, FinNone)
  else match e with
       | BlockReceived votes total h => on_block_received m votes total h
       | FinalityCertReceived fc => on_finality_certificate m fc None
       | BuilderTimeout => on_builder_timeout m
       | BackupTimeout => on_backup_timeout m
       end.

(** *** The engine's per-slot tracking *)

Record FinalityEngine := {
  fe_validator_set : ValidatorSet;
  finality_machines : gmap Z FinalityStateMachine;
  timeout_trackers : gmap Z TimeoutProtocol;
  vote_collectors : gmap Z VoteCollector;
  observed_votes : gmap (Z * AccountId) Hash;
  state_snapshots : gmap Z Snapshot;
}.

Definition set_machine (e : FinalityEngine) (slot : Z) (m : FinalityStateMachine)
    : FinalityEngine :=
  {| fe_validator_set := fe_validator_set e;
     finality_machines := <[slot := m]> (finality_machines e);
     timeout_trackers := timeout_trackers e; vote_collectors := vote_collectors e;
     observed_votes := observed_votes e; state_snapshots := state_snapshots e |}.

Definition set_collector (e : FinalityEngine) (slot : Z) (c : VoteCollector)
    : FinalityEngine :=
  {| fe_validator_set := fe_validator_set e; finality_machines := finality_machines e;
     timeout_trackers := timeout_trackers e;
     vote_collectors := <[slot := c]> (vote_collectors e);
     observed_votes := observed_votes e; state_snapshots := state_snapshots e |}.

Definition observe (e : FinalityEngine) (slot : Z) (u : AccountId) (h : Hash)
    : FinalityEngine :=
  {| fe_validator_set := fe_validator_set e; finality_machines := finality_machines e;
     timeout_trackers := timeout_trackers e; vote_collectors := vote_collectors e;
     observed_votes := <[(slot, u) := h]> (observed_votes e);
     state_snapshots := state_snapshots e |}.

Definition machine_or_new (e : FinalityEngine) (slot : Z) : FinalityStateMachine :=
  default (fsm_new slot) (finality_machines e !! slot).

Definition register_produced_block (e : FinalityEngine) (slot : Z) (snapshot : Snapshot)
    : FinalityEngine :=
  {| fe_validator_set := fe_validator_set e;
     finality_machines := <[slot := fsm_new slot]> (finality_machines e);
     timeout_trackers := <[slot := timeout_new slot]> (timeout_trackers e);
     vote_collectors := <[slot := collector_new slot (total_stake (fe_validator_set e))]>
                          (vote_collectors e);
     observed_votes := observed_votes e;
     state_snapshots := <[slot := snapshot]> (state_snapshots e) |}.

Definition store_snapshot (e : FinalityEngine) (slot : Z) (snapshot : Snapshot)
    : FinalityEngine :=
  {| fe_validator_set := fe_validator_set e;
     finality_machines := <[slot := machine_or_new e slot]> (finality_machines e);
     timeout_trackers := <[slot := default (timeout_new slot) (timeout_trackers e !! slot)]>
                           (timeout_trackers e);
     vote_collectors :=
       <[slot := default (collector_new slot (total_stake (fe_validator_set e)))
                   (vote_collectors e !! slot)]> (vote_collectors e);
     observed_votes := observed_votes e;
     state_snapshots := <[slot := snapshot]> (state_snapshots e) |}.

Definition on_vote (e : FinalityEngine) (v : Vote) : FinalityEngine * FinalityAction :=
  let s := slot v in
  if match observed_votes e !! (s, voter v) with
     | Some h => negb (h =? block_hash v)
     | None => false
     end
  then (e, FinNone)
  else
    let vs := fe_validator_set e in
    let c := default (collector_new s (total_stake vs)) (vote_collectors e !! s) in
    let '(c, added) := add_vote_verified sha256 c v vs in
    let e := set_collector e s c in
    let e := if added : bool then observe e s (voter v) (block_hash v) else e in
    match quorum_block_hash c with
    | Some q =>
        let '(m, a) := on_event (machine_or_new e s)
                         (BlockReceived (voted_stake_for c q) (total_stake vs) q) in
        (set_machine e s m, a)
    | None => (e, FinNone)
    end.

Definition on_finality_cert (e : FinalityEngine) (fc : FinalityCertificate)
    (block : option Block) : FinalityEngine * FinalityAction :=
  let s := fc_slot fc in
  let '(m, a) := on_finality_certificate (machine_or_new e s) fc block in
  let e := set_machine e s m in
  if bool_decide (fsm_state m = Hard) then
    ({| fe_validator_set := fe_validator_set e; finality_machines := finality_machines e;
        timeout_trackers := alter resolve s (timeout_trackers e);
        vote_collectors := vote_collectors e; observed_votes := observed_votes e;
        state_snapshots := state_snapshots e |}, a)
  else (e, a).

(** The event a tracker produces at [current_slot]. *)
Definition timeout_event (t : TimeoutProtocol) (current_slot : Z) : option FinalityEvent :=
  match phase t current_slot with
  | BackupWindow => if is_builder_expired t current_slot then Some BuilderTimeout else None
  | Expired => Some BackupTimeout
  | _ => None
  end.

Definition check_slot (current_slot : Z) (st : FinalityEngine * list (Z * FinalityAction))
    (block_slot : Z) : FinalityEngine * list (Z * FinalityAction) :=
  let '(e, actions) := st in
  match timeout_trackers e !! block_slot with
  | None => (e, actions)
  | Some t =>
      match timeout_event t current_slot, finality_machines e !! block_slot with
      | Some ev, Some m =>
          let '(m, a) := on_event m ev in
          (set_machine e block_slot m,
           if decide (a = FinNone) then actions else actions ++ [(block_slot, a)])
      | _, _ => (e, actions)
      end
  end.

Definition check_timeouts (e : FinalityEngine) (current_slot : Z)
    : FinalityEngine * list (Z * FinalityAction) :=
  foldl (check_slot current_slot) (e, []) (map fst (map_to_list (timeout_trackers e))).

Definition validator_changed (a b : Validator) : bool :=
  negb (id_com a =? id_com b) || negb (stake a =? stake b) || negb (index a =? index b) ||
  negb (bool_decide (signing_pubkey a = signing_pubkey b)) ||
  negb (bool_decide (capabilities a = capabilities b)).

Definition set_effective_validator_set (e : FinalityEngine) (vs : ValidatorSet)
    : FinalityEngine :=
  let old := fe_validator_set e in
  let changed :=
    negb (total_stake old =? total_stake vs) ||
    negb (bool_decide (length (validators old) = length (validators vs))) ||
    existsb (fun '(a, b) => validator_changed a b) (zip (validators old) (validators vs)) in
  if negb changed then e
  else
    let vs := set_generation vs (u64_add (generation old) 1) in
    {| fe_validator_set := vs; finality_machines := finality_machines e;
       timeout_trackers := timeout_trackers e;
       vote_collectors := (fun c => reconcile_validator_set sha256 c vs) <$> vote_collectors e;
       observed_votes := observed_votes e; state_snapshots := state_snapshots e |}.

Definition cleanup_finalized (e : FinalityEngine) (current_slot retention : Z)
    : FinalityEngine :=
  let cutoff := u64_saturating_sub current_slot retention in
  let terminal (s : Z) : bool :=
    match finality_machines e !! s with
    | Some m => (s <? cutoff) && is_terminal (fsm_state m)
    | None => false
    end in
  let keep (s : Z) : Prop := terminal s = false in
  let machines := filter (fun '(s, _) => keep s) (finality_machines e) in
  let snapshot_cutoff :=
    u64_saturating_sub current_slot (K_BUILDER_SLOTS + K_BACKUP_SLOTS + 2) in
  {| fe_validator_set := fe_validator_set e; finality_machines := machines;
     timeout_trackers := filter (fun '(s, _) => keep s) (timeout_trackers e);
     vote_collectors := filter (fun '(s, _) => keep s) (vote_collectors e);
     observed_votes := filter (fun '((s, _), _) => keep s) (observed_votes e);
     state_snapshots :=
       filter (fun '(s, _) =>
                 (snapshot_cutoff <=? s) &&
                 match machines !! s with
                 | Some m => negb (is_terminal (fsm_state m))
                 | None => false
                 end = true)
         (filter (fun '(s, _) => keep s) (state_snapshots e)) |}.

Definition reset_slot (e : FinalityEngine) (s : Z) : FinalityEngine :=
  {| fe_validator_set := fe_validator_set e;
     finality_machines := delete s (finality_machines e);
     timeout_trackers := delete s (timeout_trackers e);
     vote_collectors := delete s (vote_collectors e);
     observed_votes := observed_votes e;
     state_snapshots := delete s (state_snapshots e) |}.
End engine.

(** ** Runs of one state machine *)

Section fsm_runs.
Context {Block : Type}.
Context (verify_fc : FinalityCertificate -> bool)
        (verify_fc_for_block : FinalityCertificate -> Block -> bool).

(** The two ways into a machine: [on_event] and [on_finality_certificate]. *)
Inductive FsmInput : Type :=
| InEvent (e : FinalityEvent)
| InCert (fc : FinalityCertificate) (b : option Block).

Definition fsm_input (m : FinalityStateMachine) (i : FsmInput)
    : FinalityStateMachine * FinalityAction :=
  match i with
  | InEvent e => on_event (Block := Block) verify_fc verify_fc_for_block m e
  | InCert fc b => on_finality_certificate verify_fc verify_fc_for_block m fc b
  end.

(** The final machine and the actions other than [FinNone], in order. *)
Fixpoint fsm_run (m : FinalityStateMachine) (ins : list FsmInput)
    : FinalityStateMachine * list FinalityAction :=
  match ins with
  | [] => (m, [])
  | i :: ins =>
      let '(m, a) := fsm_input m i in
      let '(m, acts) := fsm_run m ins in
      (m, if decide (a = FinNone) then acts else a :: acts)
  end.

(** The block [h] received a quorum of votes in [ins]. *)
Definition voted_in (ins : list FsmInput) (h : Hash) : Prop :=
  exists votes total, InEvent (BlockReceived votes total h) ∈ ins /\
                      has_quorum votes total = true.

(** A certificate for [slot] and [h] that verifies is in [ins]. *)
Definition certified_in (ins : list FsmInput) (slot : Z) (h : Hash) : Prop :=
  exists fc, fc_slot fc = slot /\ fc_block_hash fc = h /\
    ((InEvent (FinalityCertReceived fc) ∈ ins /\ verify_fc fc = true) \/
     (InCert fc None ∈ ins /\ verify_fc fc = true) \/
     (exists b, InCert fc (Some b) ∈ ins /\ verify_fc_for_block fc b = true)).

Definition actions_of (m : FinalityStateMachine) : list FinalityAction :=
  match fsm_state m with
  | RolledBack => [SlashBuilder; RequeueTxs]
  | _ => if builder_slashed m then [SlashBuilder] else []
  end.

Record fsm_inv (slot : Z) (ins : list FsmInput) (m : FinalityStateMachine) : Prop := {
  fi_slot : fsm_slot m = slot;
  fi_voted : fsm_state m <> Pending ->
    exists h, expected_block_hash m = Some h /\ voted_in ins h;
  fi_cert : fsm_state m = Hard ->
    exists h, expected_block_hash m = Some h /\ certified_in ins slot h;
  fi_slashed : match fsm_state m with
               | Pending | Soft => builder_slashed m = false
               | BackupWait | RolledBack => builder_slashed m = true
               | Hard => True
               end;
}.

Lemma voted_in_mono ins ins' h : ins ⊆ ins' -> voted_in ins h -> voted_in ins' h.
Proof. intros Hs (v & t & ? & ?). exists v, t. auto. Qed.

Lemma certified_in_mono ins ins' slot h :
  ins ⊆ ins' -> certified_in ins slot h -> certified_in ins' slot h.
Proof. intros Hs (fc & ? & ? & ?). exists fc. naive_solver. Qed.

Lemma fsm_inv_mono slot ins ins' m : ins ⊆ ins' -> fsm_inv slot ins m -> fsm_inv slot ins' m.
Proof.
  intros Hs [? Hv Hc ?]. constructor; try done.
  - intros H. destruct (Hv H) as (h & ? & ?). eauto using voted_in_mono.
  - intros H. destruct (Hc H) as (h & ? & ?). eauto using certified_in_mono.
Qed.

Lemma cert_inv slot ins m fc b :
  fsm_inv slot ins m ->
  (context_valid m fc = true ->
   match b with Some b => verify_fc_for_block fc b | None => verify_fc fc end = true ->
   certified_in ins slot (fc_block_hash fc)) ->
  let '(m', a) := on_finality_certificate verify_fc verify_fc_for_block m fc b in
  fsm_inv slot ins m' /\ a = FinNone /\ actions_of m' = actions_of m.
Proof.
  intros Hi Hc. unfold on_finality_certificate.
  destruct (context_valid m fc && _) eqn:Ev.
  - bool_prop. specialize (Hc H H0). unfold context_valid in H. bool_prop.
    destruct Hi as [Hsl Hv Hcert Hslash].
    destruct (fsm_state m) eqn:Es; simpl; (split; [|split; [done|]]);
      try (constructor; rewrite ?Es; done); unfold actions_of; simpl; rewrite ?Es; try done.
    + constructor; simpl; try done; intros _; [by apply Hv|].
      destruct (expected_block_hash m) as [h|] eqn:Eh; [|done]. bool_prop.
      exists h. by subst h.
    + constructor; simpl; try done; intros _; [by apply Hv|].
      destruct (expected_block_hash m) as [h|] eqn:Eh; [|done]. bool_prop.
      exists h. by subst h.
  - destruct (fsm_state m) eqn:Es; try done. split_and!; [|done|unfold actions_of; simpl; by rewrite Es].
    destruct Hi as [Hsl Hv Hcert Hslash]. constructor; simpl; rewrite ?Es in *; done.
Qed.

Lemma fsm_input_inv slot ins m i :
  fsm_inv slot ins m ->
  let '(m', a) := fsm_input m i in
  fsm_inv slot (ins ++ [i]) m' /\
  actions_of m' = actions_of m ++ (if decide (a = FinNone) then [] else [a]).
Proof.
  intros Hi. apply (fsm_inv_mono _ _ (ins ++ [i])) in Hi; [|set_solver].
  assert (Hin : i ∈ ins ++ [i]) by set_solver.
  assert (Hsame : fsm_inv slot (ins ++ [i]) m /\
    actions_of m = actions_of m ++ (if decide (FinNone = FinNone) then [] else [FinNone])).
  { split; [done|]. by rewrite app_nil_r. }
  destruct i as [e|fc b]; simpl.
  - unfold on_event. destruct (is_terminal (fsm_state m)) eqn:Et; [done|].
    destruct e as [votes total h|fc| |].
    + unfold on_block_received. destruct (negb _) eqn:E; [done|]. bool_prop.
      destruct (has_quorum votes total) eqn:Eq; [|done].
      destruct Hi as [Hsl Hv Hc Hs]. rewrite E in Hs.
      split; [|unfold actions_of; simpl; by rewrite E, app_nil_r].
      constructor; simpl; try done. intros _. exists h. split; [done|]. by exists votes, total.
    + pose proof (cert_inv slot (ins ++ [InEvent (FinalityCertReceived fc)]) m fc None Hi) as Hc.
      destruct (on_finality_certificate _ _ m fc None) as [m' a].
      destruct Hc as (? & -> & ->); [|split; [done|by rewrite app_nil_r]].
      intros Hcv Hver. exists fc. unfold context_valid in Hcv. bool_prop.
      rewrite (fi_slot _ _ _ Hi) in *. naive_solver.
    + unfold on_builder_timeout. destruct (negb _) eqn:E; [done|]. bool_prop.
      destruct Hi as [Hsl Hv Hc Hs]. rewrite E in Hs. simpl. rewrite Hs. simpl.
      split; [|unfold actions_of; simpl; by rewrite E, Hs].
      constructor; simpl; try done. intros _. apply Hv. by rewrite E.
    + unfold on_backup_timeout. destruct (negb _) eqn:E; [done|]. bool_prop.
      destruct Hi as [Hsl Hv Hc Hs]. rewrite E in Hs.
      split; [|unfold actions_of; simpl; by rewrite E, Hs].
      constructor; simpl; try done. intros _. apply Hv. by rewrite E.
  - pose proof (cert_inv slot (ins ++ [InCert fc b]) m fc b Hi) as Hc.
    destruct (on_finality_certificate _ _ m fc b) as [m' a].
    destruct Hc as (? & -> & ->); [|split; [done|by rewrite app_nil_r]].
    intros Hcv Hver. exists fc. unfold context_valid in Hcv. bool_prop.
    rewrite (fi_slot _ _ _ Hi) in *. destruct b; naive_solver.
Qed.

Lemma fsm_run_inv slot m ins0 ins :
  fsm_inv slot ins0 m ->
  let '(m', acts) := fsm_run m ins in
  fsm_inv slot (ins0 ++ ins) m' /\ actions_of m' = actions_of m ++ acts.
Proof.
  revert m ins0; induction ins as [|i ins IH]; intros m ins0 Hi; simpl.
  { by rewrite !app_nil_r. }
  pose proof (fsm_input_inv slot ins0 m i Hi) as Hs.
  destruct (fsm_input m i) as [m1 a]. destruct Hs as [Hi1 Ha1].
  specialize (IH m1 (ins0 ++ [i]) Hi1). destruct (fsm_run m1 ins) as [m2 acts].
  rewrite <-app_assoc in IH. simpl in IH. destruct IH as [Hi2 Ha2]. split; [done|].
  rewrite Ha2, Ha1. case_decide; rewrite <-app_assoc; done.
Qed.

Lemma fsm_terminal m ins : is_terminal (fsm_state m) = true -> fsm_run m ins = (m, []).
Proof.
  intros Ht. induction ins as [|i ins IH]; simpl; [done|].
  assert (fsm_input m i = (m, FinNone)) as ->.
  { destruct i as [e|fc b]; simpl; [unfold on_event; by rewrite Ht|].
    unfold on_finality_certificate. by destruct (fsm_state m). }
  by rewrite IH.
Qed.
End fsm_runs.

(** C16. Hard finality is earned.  Whatever events and certificates a block's
    finality machine receives, in whatever order, it is hard only if the block
    received a quorum of votes and a certificate for exactly this slot and block
    verified; the builder is slashed at most once, transactions are requeued at
    most once, only after the slash and exactly when the block is rolled back;
    and hard and rolled back are final. *)
Theorem finality_machine_safe {Block} verify_fc (verify_fc_for_block : _ -> Block -> bool)
    slot ins ins' :
  let '(m, acts) := fsm_run verify_fc verify_fc_for_block (fsm_new slot) ins in
  (fsm_state m = Hard -> exists h, expected_block_hash m = Some h /\ voted_in ins h /\
     certified_in verify_fc verify_fc_for_block ins slot h) /\
  (acts = [] \/ acts = [SlashBuilder] \/
   (acts = [SlashBuilder; RequeueTxs] /\ fsm_state m = RolledBack)) /\
  (fsm_state m = RolledBack -> acts = [SlashBuilder; RequeueTxs]) /\
  (is_terminal (fsm_state m) = true -> fsm_run verify_fc verify_fc_for_block m ins' = (m, [])).
Proof.
  assert (H0 : fsm_inv verify_fc verify_fc_for_block slot [] (fsm_new slot)) by (by constructor).
  pose proof (fsm_run_inv verify_fc verify_fc_for_block slot _ [] ins H0) as Hr.
  destruct (fsm_run verify_fc verify_fc_for_block (fsm_new slot) ins) as [m acts].
  destruct Hr as [[_ Hv Hc _] Ha]. simpl in Ha. subst acts. split_and!.
  - intros E. destruct (Hc E) as (h & Eh & ?). destruct (Hv ltac:(by rewrite E)) as (h' & Eh' & ?).
    simplify_eq. eauto.
  - unfold actions_of. destruct (fsm_state m), (builder_slashed m); auto.
  - unfold actions_of. by intros ->.
  - by apply fsm_terminal.
Qed.

(** ** Timeouts of the engine *)

Section engine_timeouts.
Context {Block Snapshot : Type}.
Context (verify_fc : FinalityCertificate -> bool)
        (verify_fc_for_block : FinalityCertificate -> Block -> bool).
Abbreviation Engine := (@FinalityEngine Snapshot).
Abbreviation event := (on_event (Block := Block) verify_fc verify_fc_for_block).
Abbreviation check := (check_timeouts (Snapshot := Snapshot) verify_fc verify_fc_for_block).
Abbreviation check1 := (check_slot (Snapshot := Snapshot) verify_fc verify_fc_for_block).

(** What one check does to the machine of a slot. *)
Definition timed_machine (e : Engine) (cur s : Z)
    : option (FinalityStateMachine * FinalityAction) :=
  match timeout_trackers e !! s, finality_machines e !! s with
  | Some t, Some m => event m <$> timeout_event t cur
  | _, _ => None
  end.

Lemma check_slot_spec cur e acts s :
  let '(e', acts') := check1 cur (e, acts) s in
  timeout_trackers e' = timeout_trackers e /\
  (forall s', s' <> s -> finality_machines e' !! s' = finality_machines e !! s') /\
  match timed_machine e cur s with
  | Some (m, a) => finality_machines e' !! s = Some m /\
      acts' = if decide (a = FinNone) then acts else acts ++ [(s, a)]
  | None => finality_machines e' !! s = finality_machines e !! s /\ acts' = acts
  end.
Proof.
  unfold check_slot, timed_machine.
  destruct (timeout_trackers e !! s) as [t|]; [|done].
  destruct (timeout_event t cur) as [ev|]; [|by destruct (finality_machines e !! s)].
  destruct (finality_machines e !! s) as [m|] eqn:Em; [|done]. simpl.
  destruct (event m ev) as [m' a]. simpl. split_and!; [done| |by rewrite lookup_insert_eq|done].
  intros s' Hne. by rewrite lookup_insert_ne by done.
Qed.

Lemma check_slots_spec cur l e acts :
  NoDup l ->
  let '(e', acts') := foldl (check1 cur) (e, acts) l in
  timeout_trackers e' = timeout_trackers e /\
  forall s,
    (s ∉ l -> finality_machines e' !! s = finality_machines e !! s) /\
    (s ∈ l -> finality_machines e' !! s =
       match timed_machine e cur s with
       | Some (m, _) => Some m
       | None => finality_machines e !! s
       end) /\
    (forall a, (s, a) ∈ acts' <->
       (s, a) ∈ acts \/ (s ∈ l /\ a <> FinNone /\
                         exists m, timed_machine e cur s = Some (m, a))).
Proof.
  intros Hnd. revert e acts; induction Hnd as [|x l Hx Hnd IH]; intros e acts; cbn [foldl].
  { split; [done|]. intros s. split_and!; [done|by intros ?%elem_of_nil|].
    intros a. split; [by left|]. intros [?|(?%elem_of_nil & _)]; done. }
  pose proof (check_slot_spec cur e acts x) as Hs.
  destruct (check1 cur (e, acts) x) as [e1 acts1]. destruct Hs as (Ht & Hne & Hx1).
  specialize (IH e1 acts1). destruct (foldl (check1 cur) (e1, acts1) l) as [e2 acts2].
  destruct IH as [Ht2 IH]. split; [congruence|]. intros s.
  destruct (IH s) as (IH1 & IH2 & IH3).
  assert (Htm : s <> x -> timed_machine e1 cur s = timed_machine e cur s).
  { intros Hsx. unfold timed_machine. by rewrite Ht, Hne by done. }
  rewrite elem_of_cons. clear IH. destruct (decide (s = x)) as [->|Hsx].
  - rewrite IH1 by done. clear IH1 IH2 Htm Hne. split_and!.
    + intros Hn. destruct Hn. by left.
    + intros _. destruct (timed_machine e cur x) as [[m a]|]; by destruct Hx1.
    + intros a. rewrite IH3. clear IH3. split.
      * intros [Hin|[? _]]; [|done].
        destruct (timed_machine e cur x) as [[m a']|]; destruct Hx1 as [_ ->]; [|by left].
        case_decide; [by left|]. apply elem_of_app in Hin as [?|Hin]; [by left|].
        apply list_elem_of_singleton in Hin. simplify_eq. right.
        split_and!; [by left|done|by exists m].
      * intros [Hin|(_ & Ha & m & Em)]; left.
        -- destruct (timed_machine e cur x) as [[m a']|]; destruct Hx1 as [_ ->]; [|done].
           case_decide; [done|]. apply elem_of_app. by left.
        -- rewrite Em in Hx1. destruct Hx1 as [_ ->]. rewrite decide_False by done.
           apply elem_of_app. right. by apply list_elem_of_singleton.
  - assert (Hacts : forall a, (s, a) ∈ acts1 <-> (s, a) ∈ acts).
    { intros a. destruct (timed_machine e cur x) as [[m a']|]; destruct Hx1 as [_ ->]; [|done].
      case_decide; [done|]. rewrite elem_of_app, list_elem_of_singleton.
      split; [intros [?|?]; [done|simplify_eq]|by left]. }
    rewrite Htm, Hne in * by done. clear Htm Hne Hx1. split_and!.
    + intros Hn. apply IH1. intros ?. apply Hn. by right.
    + intros [?|?]; [done|]. by apply IH2.
    + intros a. rewrite IH3, Hacts. split; (intros [?|(Hl & ?)]; [by left|right]).
      * split; [by right|done].
      * apply elem_of_cons in Hl as [E|Hl]; [by destruct (Hsx E)|]. split; [exact Hl|assumption].
Qed.

Lemma check_timeouts_spec cur e :
  let '(e', acts) := check e cur in
  timeout_trackers e' = timeout_trackers e /\
  forall s,
    finality_machines e' !! s = match timed_machine e cur s with
                                | Some (m, _) => Some m
                                | None => finality_machines e !! s
                                end /\
    (forall a, (s, a) ∈ acts <->
       a <> FinNone /\ exists m, timed_machine e cur s = Some (m, a)).
Proof.
  unfold check_timeouts.
  assert (Hnd : NoDup (map fst (map_to_list (timeout_trackers e)))) by apply NoDup_fst_map_to_list.
  assert (Hin : forall s p, timed_machine e cur s = Some p ->
    s ∈ map fst (map_to_list (timeout_trackers e))).
  { intros s p. unfold timed_machine. destruct (timeout_trackers e !! s) as [t|] eqn:Et; [|done].
    intros _. apply list_elem_of_fmap. exists (s, t). by rewrite elem_of_map_to_list. }
  pose proof (check_slots_spec cur _ e [] Hnd) as Hs.
  destruct (foldl (check1 cur) _ _) as [e' acts]. destruct Hs as [Ht Hs]. split; [done|].
  intros s. destruct (Hs s) as (H1 & H2 & H3). split.
  - destruct (decide (s ∈ map fst (map_to_list (timeout_trackers e)))) as [Hi|Hi]; [by apply H2|].
    rewrite H1 by done. destruct (timed_machine e cur s) as [[m a]|] eqn:E; [|done].
    destruct (Hi (Hin _ _ E)).
  - intros a. rewrite H3. split.
    + intros [?%elem_of_nil|(_ & ?)]; done.
    + intros (? & m & Em). right. split_and!; [by eapply Hin|done|by exists m].
Qed.

(** A block that is soft with an unresolved tracker. *)
Definition awaiting_proof (e : Engine) (s : Z) (m : FinalityStateMachine) : Prop :=
  finality_machines e !! s = Some m /\ fsm_state m = Soft /\ builder_slashed m = false /\
  timeout_trackers e !! s = Some (timeout_new s) /\ 0 <= s /\
  s + K_BUILDER_SLOTS + K_BACKUP_SLOTS <= u64_max.

Lemma timeout_event_backup s cur :
  0 <= s -> s + K_BUILDER_SLOTS + K_BACKUP_SLOTS <= u64_max ->
  s + K_BUILDER_SLOTS < cur <= s + K_BUILDER_SLOTS + K_BACKUP_SLOTS ->
  timeout_event (timeout_new s) cur = Some BuilderTimeout.
Proof.
  unfold timeout_event, phase, is_builder_expired, K_BUILDER_SLOTS, K_BACKUP_SLOTS. simpl.
  intros. rewrite u64_saturating_sub_small by lia.
  rewrite (proj2 (Z.leb_gt _ _)), (proj2 (Z.leb_le _ _)) by lia.
  rewrite u64_add_small by lia. by rewrite (proj2 (Z.ltb_lt _ _)) by lia.
Qed.

Lemma timeout_event_expired s cur :
  s + K_BUILDER_SLOTS + K_BACKUP_SLOTS < cur ->
  timeout_event (timeout_new s) cur = Some BackupTimeout.
Proof.
  unfold timeout_event, phase, K_BUILDER_SLOTS, K_BACKUP_SLOTS. simpl. intros.
  rewrite u64_saturating_sub_small by lia.
  by rewrite !(proj2 (Z.leb_gt _ _)) by lia.
Qed.
End engine_timeouts.

(** A block without a proof is rolled back in two steps.  If the engine
    checks timeouts at a slot of the backup window and again after it, a block
    that was soft and gets no certificate has its builder slashed at the first
    check and is rolled back, its transactions requeued, at the second. *)
Theorem missing_proof_rolls_back {Block Snapshot} verify_fc
    (verify_fc_for_block : _ -> Block -> bool) (e : @FinalityEngine Snapshot) s m c1 c2 :
  awaiting_proof e s m ->
  s + K_BUILDER_SLOTS < c1 <= s + K_BUILDER_SLOTS + K_BACKUP_SLOTS ->
  s + K_BUILDER_SLOTS + K_BACKUP_SLOTS < c2 ->
  let '(e1, a1) := check_timeouts verify_fc verify_fc_for_block e c1 in
  let '(e2, a2) := check_timeouts verify_fc verify_fc_for_block e1 c2 in
  (s, SlashBuilder) ∈ a1 /\ (s, RequeueTxs) ∈ a2 /\
  (fsm_state <$> finality_machines e2 !! s) = Some RolledBack.
Proof.
  intros (Hm & Hs & Hb & Ht & H0 & Hmax) H1 H2.
  pose proof (check_timeouts_spec verify_fc verify_fc_for_block c1 e) as Hc1.
  destruct (check_timeouts _ _ e c1) as [e1 a1]. destruct Hc1 as [Ht1 Hc1].
  destruct (Hc1 s) as [Hm1 Ha1]. unfold timed_machine in Hm1, Ha1.
  rewrite Ht, Hm, timeout_event_backup in Hm1, Ha1 by done. simpl in Hm1, Ha1.
  unfold on_event, on_builder_timeout in Hm1, Ha1. rewrite Hs in Hm1, Ha1. simpl in Hm1, Ha1.
  rewrite Hb in Hm1, Ha1. simpl in Hm1, Ha1.
  pose proof (check_timeouts_spec verify_fc verify_fc_for_block c2 e1) as Hc2.
  destruct (check_timeouts _ _ e1 c2) as [e2 a2]. destruct Hc2 as [_ Hc2].
  destruct (Hc2 s) as [Hm2 Ha2]. unfold timed_machine in Hm2, Ha2.
  rewrite Ht1, Ht, Hm1, timeout_event_expired in Hm2, Ha2 by done. simpl in Hm2, Ha2.
  split_and!.
  - apply Ha1. eauto.
  - apply Ha2. eauto.
  - by rewrite Hm2.
Qed.

(** A missed backup window leaves a block soft for ever.  If no timeout
    check falls into the backup window, no later check does anything: the block
    stays soft, its builder is not slashed and its transactions are not
    requeued. *)
Theorem missed_window_stuck {Block Snapshot} verify_fc
    (verify_fc_for_block : _ -> Block -> bool) (e : @FinalityEngine Snapshot) s m cs :
  awaiting_proof e s m ->
  Forall (fun c => s + K_BUILDER_SLOTS + K_BACKUP_SLOTS < c) cs ->
  let e' := foldl (fun e c => fst (check_timeouts verify_fc verify_fc_for_block e c)) e cs in
  finality_machines e' !! s = Some m.
Proof.
  intros Ha Hcs. revert e Ha. induction Hcs as [|c cs Hc _ IH]; intros e Ha; simpl; [apply Ha|].
  apply IH. destruct Ha as (Hm & Hs & Hb & Ht & H0 & Hmax).
  pose proof (check_timeouts_spec verify_fc verify_fc_for_block c e) as Hc1.
  destruct (check_timeouts _ _ e c) as [e1 a1]. destruct Hc1 as [Ht1 Hc1].
  destruct (Hc1 s) as [Hm1 _]. unfold timed_machine in Hm1.
  rewrite Ht, Hm, timeout_event_expired in Hm1 by done. simpl in Hm1.
  unfold on_event, on_backup_timeout in Hm1. rewrite Hs in Hm1. simpl in Hm1.
  unfold awaiting_proof. simpl. rewrite Ht1. done.
Qed.

(** A soft block at slot 10 in an otherwise empty engine. *)
Module SampleFinality.
Definition soft_machine : FinalityStateMachine :=
  fst (on_block_received (fsm_new 10) 300 400 170).
Definition soft_engine : @FinalityEngine unit :=
  {| fe_validator_set := SampleSet.sample_set; finality_machines := {[10 := soft_machine]};
     timeout_trackers := {[10 := timeout_new 10]}; vote_collectors := ∅;
     observed_votes := ∅; state_snapshots := ∅ |}.

Lemma soft_awaiting : awaiting_proof soft_engine 10 soft_machine.
Proof. unfold awaiting_proof. split_and!; try reflexivity; by vm_compute. Qed.

Lemma missing_proof_rolls_back_witness :
  let no_proof (fc : FinalityCertificate) := false in
  let no_proof_for (fc : FinalityCertificate) (b : unit) := false in
  let '(e1, a1) := check_timeouts no_proof no_proof_for soft_engine 15 in
  let '(e2, a2) := check_timeouts no_proof no_proof_for e1 40 in
  (10, SlashBuilder) ∈ a1 /\ (10, RequeueTxs) ∈ a2 /\
  (fsm_state <$> finality_machines e2 !! 10) = Some RolledBack.
Proof.
  intros no_proof no_proof_for.
  apply (missing_proof_rolls_back no_proof no_proof_for soft_engine 10 soft_machine 15 40);
    [exact soft_awaiting|unfold K_BUILDER_SLOTS, K_BACKUP_SLOTS; lia..].
Defined.

Lemma missed_window_stuck_witness :
  let no_proof (fc : FinalityCertificate) := false in
  let no_proof_for (fc : FinalityCertificate) (b : unit) := false in
  let e' := foldl (fun e c => fst (check_timeouts no_proof no_proof_for e c)) soft_engine
              [17; 18; 1000] in
  finality_machines e' !! 10 = Some soft_machine.
Proof.
  intros no_proof no_proof_for.
  apply (missed_window_stuck no_proof no_proof_for soft_engine 10 soft_machine [17; 18; 1000]);
    [exact soft_awaiting|].
  repeat constructor; unfold K_BUILDER_SLOTS, K_BACKUP_SLOTS; lia.
Defined.
End SampleFinality.
