(* ===== verification/Account.v ===== *)
(** Accounts (ace-model/src/account.rs).

    The account record, its constructors, the multi-algorithm key ring, the
    byte encoding that the state tree hashes, and the stubs and resurrection
    proofs of state expiry.  The theorems say that the key ring holds at most
    one key per algorithm, and that the hashed bytes determine the account and
    its storage although the key block has no "absent" tag. *)

From S2P Require Import Prelude SigAlgo.
Local Open Scope Z_scope.
Local Open Scope ace_scope.

(* ------------------------------------------------------------------ *)
(** * Data *)

(** Byte arrays of 20 and 32 bytes are numbers; [acc_code] and
    [acc_btc_address] are byte vectors. *)
Record Account := {
  acc_id_com : AccountId;
  acc_balance : Z;
  acc_nonce : Z;
  acc_code_hash : option Z;
  acc_code : option (list Z);
  acc_storage_root : Z;
  acc_xid : option Z;
  acc_xaddress : option Z;
  acc_evm_address : option Z;
  acc_tron_address : option Z;
  acc_solana_address : option Z;
  acc_btc_address : option (list Z);
  acc_auth_pubkey : TaggedPubkey;
  acc_auth_keys : list TaggedPubkey;
  acc_last_touched_slot : Z;
}.

#[global] Instance Account_eq_dec : EqDecision Account.
Proof. solve_decision. Defined.

(** Contract storage of one account: slot to value. *)
Abbreviation Storage := (gmap Z Z) (only parsing).

Definition account_new (id_com : AccountId) : Account :=
  {| acc_id_com := id_com; acc_balance := 0; acc_nonce := 0; acc_code_hash := None;
     acc_code := None; acc_storage_root := 0; acc_xid := None; acc_xaddress := None;
     acc_evm_address := None; acc_tron_address := None; acc_solana_address := None;
     acc_btc_address := None; acc_auth_pubkey := pubkey_default; acc_auth_keys := [];
     acc_last_touched_slot := 0 |}.

(** Record update, for the fields the code assigns. *)
Definition set_balance (a : Account) (x : Z) : Account :=
  {| acc_id_com := acc_id_com a; acc_balance := x; acc_nonce := acc_nonce a;
     acc_code_hash := acc_code_hash a; acc_code := acc_code a;
     acc_storage_root := acc_storage_root a; acc_xid := acc_xid a;
     acc_xaddress := acc_xaddress a; acc_evm_address := acc_evm_address a;
     acc_tron_address := acc_tron_address a; acc_solana_address := acc_solana_address a;
     acc_btc_address := acc_btc_address a; acc_auth_pubkey := acc_auth_pubkey a;
     acc_auth_keys := acc_auth_keys a; acc_last_touched_slot := acc_last_touched_slot a |}.

Definition set_nonce (a : Account) (x : Z) : Account :=
  {| acc_id_com := acc_id_com a; acc_balance := acc_balance a; acc_nonce := x;
     acc_code_hash := acc_code_hash a; acc_code := acc_code a;
     acc_storage_root := acc_storage_root a; acc_xid := acc_xid a;
     acc_xaddress := acc_xaddress a; acc_evm_address := acc_evm_address a;
     acc_tron_address := acc_tron_address a; acc_solana_address := acc_solana_address a;
     acc_btc_address := acc_btc_address a; acc_auth_pubkey := acc_auth_pubkey a;
     acc_auth_keys := acc_auth_keys a; acc_last_touched_slot := acc_last_touched_slot a |}.

Definition set_last_touched (a : Account) (x : Z) : Account :=
  {| acc_id_com := acc_id_com a; acc_balance := acc_balance a; acc_nonce := acc_nonce a;
     acc_code_hash := acc_code_hash a; acc_code := acc_code a;
     acc_storage_root := acc_storage_root a; acc_xid := acc_xid a;
     acc_xaddress := acc_xaddress a; acc_evm_address := acc_evm_address a;
     acc_tron_address := acc_tron_address a; acc_solana_address := acc_solana_address a;
     acc_btc_address := acc_btc_address a; acc_auth_pubkey := acc_auth_pubkey a;
     acc_auth_keys := acc_auth_keys a; acc_last_touched_slot := x |}.

Definition account_set_code (a : Account) (h : option Z) (c : option (list Z)) : Account :=
  {| acc_id_com := acc_id_com a; acc_balance := acc_balance a; acc_nonce := acc_nonce a;
     acc_code_hash := h; acc_code := c;
     acc_storage_root := acc_storage_root a; acc_xid := acc_xid a;
     acc_xaddress := acc_xaddress a; acc_evm_address := acc_evm_address a;
     acc_tron_address := acc_tron_address a; acc_solana_address := acc_solana_address a;
     acc_btc_address := acc_btc_address a; acc_auth_pubkey := acc_auth_pubkey a;
     acc_auth_keys := acc_auth_keys a; acc_last_touched_slot := acc_last_touched_slot a |}.

Definition set_keys (a : Account) (k : TaggedPubkey) (ks : list TaggedPubkey) : Account :=
  {| acc_id_com := acc_id_com a; acc_balance := acc_balance a; acc_nonce := acc_nonce a;
     acc_code_hash := acc_code_hash a; acc_code := acc_code a;
     acc_storage_root := acc_storage_root a; acc_xid := acc_xid a;
     acc_xaddress := acc_xaddress a; acc_evm_address := acc_evm_address a;
     acc_tron_address := acc_tron_address a; acc_solana_address := acc_solana_address a;
     acc_btc_address := acc_btc_address a; acc_auth_pubkey := k;
     acc_auth_keys := ks; acc_last_touched_slot := acc_last_touched_slot a |}.

Definition set_aliases (a : Account) (xid evm tron : option Z) : Account :=
  {| acc_id_com := acc_id_com a; acc_balance := acc_balance a; acc_nonce := acc_nonce a;
     acc_code_hash := acc_code_hash a; acc_code := acc_code a;
     acc_storage_root := acc_storage_root a; acc_xid := xid;
     acc_xaddress := acc_xaddress a; acc_evm_address := evm;
     acc_tron_address := tron; acc_solana_address := acc_solana_address a;
     acc_btc_address := acc_btc_address a; acc_auth_pubkey := acc_auth_pubkey a;
     acc_auth_keys := acc_auth_keys a; acc_last_touched_slot := acc_last_touched_slot a |}.

Definition with_balance (id_com : AccountId) (balance : Z) : Account :=
  set_balance (account_new id_com) balance.

Definition with_auth (id_com : AccountId) (balance : Z) (k : TaggedPubkey) : Account :=
  set_keys (with_balance id_com balance) k [].

Definition with_xid (id_com : AccountId) (xid : Z) (k : TaggedPubkey) : Account :=
  set_keys (set_aliases (account_new id_com) (Some xid) None None) k [].

Definition with_evm_address (id_com : AccountId) (addr : Z) : Account :=
  set_aliases (account_new id_com) None (Some addr) None.

Definition with_tron_address (id_com : AccountId) (addr : Z) : Account :=
  set_aliases (account_new id_com) None None (Some addr).

(* ------------------------------------------------------------------ *)
(** * The key ring *)

Definition MAX_AUTH_KEYS : nat := 4.

Inductive AuthKeyError : Type :=
| PrimaryAlgorithmUsed
| AlgorithmPresent
| MaximumReached.

Definition auth_key_for_algorithm (a : Account) (alg : SignatureAlgorithm)
    : option TaggedPubkey :=
  if negb (pubkey_is_zero (acc_auth_pubkey a)) &&
     bool_decide (pk_algorithm (acc_auth_pubkey a) = alg)
  then Some (acc_auth_pubkey a)
  else List.find (fun k => bool_decide (pk_algorithm k = alg)) (acc_auth_keys a).

Definition all_auth_keys (a : Account) : list TaggedPubkey :=
  acc_auth_pubkey a :: acc_auth_keys a.

Definition has_provisioned_auth_key (a : Account) : bool :=
  negb (pubkey_is_zero (acc_auth_pubkey a)) ||
  existsb (fun k => negb (pubkey_is_zero k)) (acc_auth_keys a).

Definition add_auth_key (a : Account) (key : TaggedPubkey) : result AuthKeyError Account :=
  if pubkey_is_zero (acc_auth_pubkey a) then Ok (set_keys a key (acc_auth_keys a))
  else if bool_decide (pk_algorithm (acc_auth_pubkey a) = pk_algorithm key) then
    Err PrimaryAlgorithmUsed
  else if existsb (fun k => bool_decide (pk_algorithm k = pk_algorithm key)) (acc_auth_keys a)
  then Err AlgorithmPresent
  else if (MAX_AUTH_KEYS <=? length (acc_auth_keys a) + 1)%nat then Err MaximumReached
  else Ok (set_keys a (acc_auth_pubkey a)
             (sort_by (fun k => algorithm_tag (pk_algorithm k)) (acc_auth_keys a ++ [key]))).

(* ------------------------------------------------------------------ *)
(** * Hashing *)

(** A tagged optional field: the tag and the bytes, or a zero byte. *)
Definition opt_bytes {A} (tag : Z) (f : A -> list Z) (o : option A) : list Z :=
  match o with
  | Some x => tag :: f x
  | None => [0]
  end.

(** A script with its 16-bit little-endian length, truncated as [as u16] does. *)
Definition script_bytes (script : list Z) : list Z :=
  le_bytes 2 (Z.of_nat (length script) mod 2 ^ 16) ++ script.

(** A run of 32-byte values. *)
Definition words (l : list Z) : list Z := mjoin (be_bytes 32 <$> l).

Section hashing.
Context (sha256 : list Z -> list Z).

(** The fingerprints in the order they are hashed. *)
Definition sorted_fingerprints (ks : list TaggedPubkey) : list Z :=
  sort_by id (fingerprint sha256 <$> ks).

Definition auth_keys_bytes (ks : list TaggedPubkey) : list Z :=
  match ks with
  | [] => []
  | _ => 6 :: Z.of_nat (length ks) mod 2 ^ 8 :: words (sorted_fingerprints ks)
  end.

Definition to_hash_bytes (a : Account) : list Z :=
  be_bytes 32 (acc_id_com a) ++
  le_bytes 8 (acc_balance a) ++
  le_bytes 8 (acc_nonce a) ++
  be_bytes 32 (acc_storage_root a) ++
  opt_bytes 16 (be_bytes 32) (acc_xid a) ++
  opt_bytes 17 (be_bytes 32) (acc_xaddress a) ++
  opt_bytes 1 (be_bytes 20) (acc_evm_address a) ++
  opt_bytes 2 (be_bytes 20) (acc_tron_address a) ++
  opt_bytes 3 (be_bytes 32) (acc_solana_address a) ++
  opt_bytes 4 script_bytes (acc_btc_address a) ++
  opt_bytes 5 (be_bytes 32) (acc_code_hash a) ++
  be_bytes 32 (fingerprint sha256 (acc_auth_pubkey a)) ++
  auth_keys_bytes (acc_auth_keys a) ++
  le_bytes 8 (acc_last_touched_slot a).

Definition storage_bytes (s : Storage) : list Z :=
  mjoin ((fun '(slot, value) => be_bytes 32 slot ++ be_bytes 32 value) <$> entries s).

(** An absent storage map contributes nothing. *)
Definition opt_storage_bytes (s : option Storage) : list Z :=
  match s with
  | Some s => storage_bytes s
  | None => []
  end.

(** The message hashed for an account's stub. *)
Definition stub_preimage (a : Account) (s : option Storage) : list Z :=
  ascii_bytes "ACE-STUB-V1" ++ to_hash_bytes a ++ opt_storage_bytes s.

Definition compute_stub_hash (a : Account) (s : option Storage) : Hash :=
  digest sha256 (stub_preimage a s).
End hashing.

Record AccountStub := {
  stub_id_com : AccountId;
  stub_hash : Hash;
  stub_expired_at_slot : Z;
}.

Record ResurrectionProof := {
  proof_account : Account;
  proof_storage : Storage;
}.

#[global] Instance AccountStub_eq_dec : EqDecision AccountStub.
Proof. solve_decision. Defined.

Definition proof_verify (sha256 : list Z -> list Z) (p : ResurrectionProof) (stub : AccountStub)
    : bool :=
  (acc_id_com (proof_account p) =? stub_id_com stub) &&
  (compute_stub_hash sha256 (proof_account p) (Some (proof_storage p)) =? stub_hash stub).

(* ------------------------------------------------------------------ *)
(** * The key ring holds one key per algorithm *)

Definition key_ring_ok (a : Account) : Prop :=
  NoDup (pk_algorithm <$> all_auth_keys a) /\
  (acc_auth_keys a <> [] -> pubkey_is_zero (acc_auth_pubkey a) = false).

Lemma find_algorithm (ks : list TaggedPubkey) alg k :
  NoDup (pk_algorithm <$> ks) -> k ∈ ks -> pk_algorithm k = alg ->
  List.find (fun k => bool_decide (pk_algorithm k = alg)) ks = Some k.
Proof.
  intros Hnd Hk Ha. induction ks as [|x ks IH]; [by apply elem_of_nil in Hk|].
  apply NoDup_cons in Hnd as [Hx Hnd]. simpl. case_bool_decide as E.
  - apply elem_of_cons in Hk as [->|Hk]; [done|]. destruct Hx.
    apply list_elem_of_fmap. exists k. split; [congruence|done].
  - apply IH; [done|]. apply elem_of_cons in Hk as [->|Hk]; done.
Qed.

Lemma find_algorithm_none (ks : list TaggedPubkey) alg :
  (forall k, k ∈ ks -> pk_algorithm k <> alg) ->
  List.find (fun k => bool_decide (pk_algorithm k = alg)) ks = None.
Proof.
  induction ks as [|x ks IH]; intros H; [done|]. simpl.
  rewrite bool_decide_eq_false_2 by (apply H; by left). apply IH. intros; apply H; by right.
Qed.

(** Only the algorithms present matter to a lookup. *)
Lemma find_algorithm_perm (l l' : list TaggedPubkey) alg key :
  l' ≡ₚ l ++ [key] -> NoDup (pk_algorithm <$> l') -> pk_algorithm key <> alg ->
  List.find (fun k => bool_decide (pk_algorithm k = alg)) l' =
  List.find (fun k => bool_decide (pk_algorithm k = alg)) l.
Proof.
  intros Hp Hnd Hne. destruct (List.find _ l) as [k|] eqn:E.
  - apply find_some in E as [Hk E]. bool_prop. apply find_algorithm; [done| |done].
    rewrite Hp. apply elem_of_app; left. by apply list_elem_of_In.
  - apply find_algorithm_none. intros k Hk Ha. rewrite Hp in Hk.
    apply elem_of_app in Hk as [Hk|Hk%list_elem_of_singleton]; [|congruence].
    apply list_elem_of_In in Hk. pose proof (find_none _ _ E k Hk) as En. simpl in En.
    by rewrite bool_decide_eq_true_2 in En.
Qed.

(** There are four algorithms. *)
Lemma algorithms_length (l : list SignatureAlgorithm) : NoDup l -> (length l <= 4)%nat.
Proof.
  intros Hnd. change 4%nat with (length [Ed25519; Secp256k1; MlDsa44; HmacSha256]).
  apply submseteq_length, NoDup_submseteq; [done|].
  intros [] _; rewrite !elem_of_cons; auto.
Qed.

Lemma key_ring_length a : key_ring_ok a -> (length (acc_auth_keys a) <= 3)%nat.
Proof.
  intros [Hnd _]. apply algorithms_length in Hnd. rewrite length_fmap in Hnd.
  simpl in Hnd. lia.
Qed.

Lemma key_ring_snoc a key l :
  key_ring_ok a -> (forall k, k ∈ all_auth_keys a -> pk_algorithm k <> pk_algorithm key) ->
  l ≡ₚ acc_auth_keys a ++ [key] -> NoDup (pk_algorithm <$> acc_auth_pubkey a :: l).
Proof.
  intros [Hnd _] Hne ->.
  change (_ :: _ ++ [key]) with (all_auth_keys a ++ [key]). rewrite fmap_app.
  apply NoDup_app. split_and!; [done| |apply NoDup_singleton].
  intros alg (k & -> & Hk)%list_elem_of_fmap Ha%list_elem_of_singleton. by eapply Hne.
Qed.

(** The key ring of an account holds at most one key per algorithm and at
    most four keys.  [add_auth_key] keeps this; a key it accepts is the one
    found for its algorithm, the keys of the other algorithms stay the ones
    they were and no other field changes; it refuses exactly the keys whose
    algorithm the ring already has, so the bound on the number of keys is
    never what refuses one. *)
Theorem add_auth_key_ring a key :
  key_ring_ok a ->
  match add_auth_key a key with
  | Ok a' =>
      key_ring_ok a' /\ (length (all_auth_keys a') <= MAX_AUTH_KEYS)%nat /\
      (pubkey_is_zero key = false ->
         auth_key_for_algorithm a' (pk_algorithm key) = Some key) /\
      (forall alg, alg <> pk_algorithm key ->
         auth_key_for_algorithm a' alg = auth_key_for_algorithm a alg) /\
      a' = set_keys a (acc_auth_pubkey a') (acc_auth_keys a')
  | Err e =>
      e <> MaximumReached /\ pubkey_is_zero (acc_auth_pubkey a) = false /\
      exists k, k ∈ all_auth_keys a /\ pk_algorithm k = pk_algorithm key
  end.
Proof.
  intros Hr. pose proof Hr as [Hnd Hz]. unfold add_auth_key.
  destruct (pubkey_is_zero (acc_auth_pubkey a)) eqn:Ez.
  { assert (acc_auth_keys a = []) as Enil.
    { destruct (acc_auth_keys a); [done|]. by specialize (Hz ltac:(done)). }
    unfold key_ring_ok, all_auth_keys, auth_key_for_algorithm. simpl. rewrite Enil, Ez. simpl.
    split_and!; [apply NoDup_singleton|done|unfold MAX_AUTH_KEYS; lia| | |done].
    - intros ->. by rewrite bool_decide_eq_true_2.
    - intros alg Hne. by rewrite bool_decide_eq_false_2, andb_false_r. }
  case_bool_decide as Ep; [split_and!; [done|done|]; eexists; split; [by left|done]|].
  destruct (existsb _ _) eqn:Ee.
  { split_and!; [done|done|]. apply existsb_exists in Ee as (k & Hk & Ha). bool_prop.
    exists k. split; [right; by apply list_elem_of_In|done]. }
  assert (forall k, k ∈ all_auth_keys a -> pk_algorithm k <> pk_algorithm key) as Hne.
  { intros k [->|Hk]%elem_of_cons Ha; [done|]. apply not_true_iff_false in Ee. destruct Ee.
    apply existsb_exists. exists k. split; [by apply list_elem_of_In|].
    by apply bool_decide_eq_true. }
  pose proof (key_ring_snoc a key _ Hr Hne (reflexivity _)) as Hs.
  apply algorithms_length in Hs as Hlen. rewrite length_fmap in Hlen. simpl in Hlen.
  rewrite length_app in Hlen. simpl in Hlen.
  destruct (MAX_AUTH_KEYS <=? _)%nat eqn:Em.
  { apply Nat.leb_le in Em. unfold MAX_AUTH_KEYS in Em. exfalso; lia. }
  set (l := sort_by _ _).
  assert (l ≡ₚ acc_auth_keys a ++ [key]) as Hp by apply sort_by_perm.
  pose proof (key_ring_snoc a key l Hr Hne Hp) as Hl.
  assert (NoDup (pk_algorithm <$> l)) as Hl' by (by apply NoDup_cons in Hl as [_ ?]).
  unfold key_ring_ok, auth_key_for_algorithm, all_auth_keys. simpl. rewrite Ez. simpl.
  split_and!.
  - done.
  - done.
  - rewrite Hp, length_app. simpl. unfold MAX_AUTH_KEYS. lia.
  - intros _. rewrite bool_decide_eq_false_2 by done. apply find_algorithm; [done| |done].
    rewrite Hp. apply elem_of_app; right. by apply list_elem_of_singleton.
  - intros alg Ha. rewrite (find_algorithm_perm (acc_auth_keys a) l alg key) by done. done.
  - done.
Qed.

Lemma add_auth_key_ring_witness :
  match add_auth_key (with_auth 1 0 {| pk_algorithm := Ed25519; pk_bytes := [9] |})
          {| pk_algorithm := MlDsa44; pk_bytes := [7] |} with
  | Ok a' => (length (all_auth_keys a') <= MAX_AUTH_KEYS)%nat /\
             auth_key_for_algorithm a' MlDsa44 =
               Some {| pk_algorithm := MlDsa44; pk_bytes := [7] |}
  | Err _ => False
  end.
Proof.
  assert (key_ring_ok (with_auth 1 0 {| pk_algorithm := Ed25519; pk_bytes := [9] |})) as H.
  { split; [apply NoDup_singleton|done]. }
  pose proof (add_auth_key_ring _ {| pk_algorithm := MlDsa44; pk_bytes := [7] |} H) as Hr.
  destruct (add_auth_key _ _) eqn:E; [|by vm_compute in E].
  destruct Hr as (_ & Hl & Hk & _). split; [done|]. apply Hk. reflexivity.
Defined.

(* ------------------------------------------------------------------ *)
(** * The hashed bytes determine the account *)

(** An encoder whose output can be read off the front of a longer message. *)
Definition prefix_inj {A} (P : A -> Prop) (f : A -> list Z) : Prop :=
  forall x y r s, P x -> P y -> f x ++ r = f y ++ s -> x = y /\ r = s.

Definition opt_ok {A} (P : A -> Prop) (o : option A) : Prop :=
  match o with
  | Some x => P x
  | None => True
  end.

Lemma be_bytes_prefix n : prefix_inj (fun x => 0 <= x < 256 ^ Z.of_nat n) (be_bytes n).
Proof.
  intros x y r s Hx Hy E. apply app_inj_1 in E as [E ->]; [|by rewrite !length_be_bytes].
  split; [|done]. by eapply be_bytes_inj.
Qed.

Lemma le_bytes_prefix n : prefix_inj (fun x => 0 <= x < 256 ^ Z.of_nat n) (le_bytes n).
Proof.
  intros x y r s Hx Hy E. apply app_inj_1 in E as [E ->]; [|by rewrite !length_le_bytes].
  split; [|done]. by eapply le_bytes_inj.
Qed.

Lemma u64_bytes_prefix : prefix_inj is_u64 (le_bytes 8).
Proof.
  intros x y r s Hx Hy. apply (le_bytes_prefix 8);
    change (256 ^ Z.of_nat 8) with (u64_max + 1); unfold is_u64 in *; lia.
Qed.

Lemma opt_bytes_prefix {A} (P : A -> Prop) (f : A -> list Z) tag :
  tag <> 0 -> prefix_inj P f -> prefix_inj (opt_ok P) (opt_bytes tag f).
Proof.
  intros Ht Hf [x|] [y|] r s Hx Hy E; simpl in *; simplify_eq; [|done].
  destruct (Hf x y r s) as [-> ->]; done.
Qed.

Lemma script_bytes_prefix : prefix_inj (fun l => Z.of_nat (length l) < 2 ^ 16) script_bytes.
Proof.
  intros x y r s Hx Hy E. unfold script_bytes in E. rewrite <-!app_assoc in E.
  rewrite !Z.mod_small in E by lia.
  apply (le_bytes_prefix 2) in E as [El E]; [|lia|lia].
  apply app_inj_1 in E; [done|lia].
Qed.

Lemma words_cons x l : words (x :: l) = be_bytes 32 x ++ words l.
Proof. done. Qed.

Lemma words_prefix l k r s :
  length l = length k -> Forall is_u256 l -> Forall is_u256 k ->
  words l ++ r = words k ++ s -> l = k /\ r = s.
Proof.
  revert k. induction l as [|x l IH]; intros [|y k] Hlen Hl Hk E; [done|done|done|].
  rewrite !words_cons, <-!app_assoc in E.
  apply Forall_cons in Hl as [Hx Hl]. apply Forall_cons in Hk as [Hy Hk].
  apply (be_bytes_prefix 32) in E as [-> E]; [|done|done].
  destruct (IH k ltac:(simpl in Hlen; lia) Hl Hk E) as [-> ->]. done.
Qed.

Lemma length_words l : length (words l) = (32 * length l)%nat.
Proof.
  induction l as [|x l IH]; [done|].
  rewrite words_cons, length_app, length_be_bytes, IH. simpl. lia.
Qed.

Lemma words_inj l k : Forall is_u256 l -> Forall is_u256 k -> words l = words k -> l = k.
Proof.
  intros Hl Hk E. assert (length l = length k) as Hlen.
  { apply (f_equal length) in E. rewrite !length_words in E. lia. }
  destruct (words_prefix l k [] []) as [? _]; [done|done|done|by rewrite E|done].
Qed.

(** Storage as the run of its slots and values. *)
Definition storage_words (s : Storage) : list Z :=
  mjoin ((fun '(k, v) => [k; v]) <$> entries s).

Definition storage_ok (s : Storage) : Prop :=
  forall k v, s !! k = Some v -> is_u256 k /\ is_u256 v.

Lemma storage_bytes_words s : storage_bytes s = words (storage_words s).
Proof.
  unfold storage_bytes, storage_words. induction (entries s) as [|[k v] l IH]; [done|].
  rewrite !fmap_cons. cbn [mjoin list_join]. rewrite <-app_assoc. unfold words.
  cbn [app fmap list_fmap mjoin list_join]. do 2 f_equal. exact IH.
Qed.

Lemma storage_words_ok s : storage_ok s -> Forall is_u256 (storage_words s).
Proof.
  intros Hs. apply Forall_forall. intros x Hx. unfold storage_words in Hx.
  apply list_elem_of_join in Hx as (l & Hx & ([k v] & -> & Hkv)%list_elem_of_fmap).
  apply elem_of_entries in Hkv. destruct (Hs k v Hkv).
  rewrite !elem_of_cons, elem_of_nil in Hx. naive_solver.
Qed.

Lemma pair_words_inj (l k : list (Z * Z)) :
  mjoin ((fun '(k, v) => [k; v]) <$> l) = mjoin ((fun '(k, v) => [k; v]) <$> k) -> l = k.
Proof.
  revert k. induction l as [|[a b] l IH]; intros [|[c d] k] E; simplify_eq/=; [done|].
  by rewrite (IH k).
Qed.

Lemma storage_words_inj s t : storage_words s = storage_words t -> s = t.
Proof.
  intros E%pair_words_inj. by apply entries_inj.
Qed.

(** The ranges of the field types, and the lengths the encoder's [as u16] and
    [as u8] conversions keep. *)
Definition account_ok (a : Account) : Prop :=
  is_u256 (acc_id_com a) /\ is_u64 (acc_balance a) /\ is_u64 (acc_nonce a) /\
  is_u256 (acc_storage_root a) /\
  opt_ok is_u256 (acc_xid a) /\ opt_ok is_u256 (acc_xaddress a) /\
  opt_ok (fun x => 0 <= x < 256 ^ 20) (acc_evm_address a) /\
  opt_ok (fun x => 0 <= x < 256 ^ 20) (acc_tron_address a) /\
  opt_ok is_u256 (acc_solana_address a) /\
  opt_ok (fun l => Z.of_nat (length l) < 2 ^ 16) (acc_btc_address a) /\
  opt_ok is_u256 (acc_code_hash a) /\
  (length (acc_auth_keys a) < 256)%nat /\ is_u64 (acc_last_touched_slot a).

(** Equality of everything that is hashed: all fields but the bytecode (its
    hash is covered), with the keys by fingerprint. *)
Definition same_hashed (sha256 : list Z -> list Z) (a b : Account) : Prop :=
  acc_id_com a = acc_id_com b /\ acc_balance a = acc_balance b /\
  acc_nonce a = acc_nonce b /\ acc_storage_root a = acc_storage_root b /\
  acc_xid a = acc_xid b /\ acc_xaddress a = acc_xaddress b /\
  acc_evm_address a = acc_evm_address b /\ acc_tron_address a = acc_tron_address b /\
  acc_solana_address a = acc_solana_address b /\ acc_btc_address a = acc_btc_address b /\
  acc_code_hash a = acc_code_hash b /\
  fingerprint sha256 (acc_auth_pubkey a) = fingerprint sha256 (acc_auth_pubkey b) /\
  sorted_fingerprints sha256 (acc_auth_keys a) = sorted_fingerprints sha256 (acc_auth_keys b) /\
  acc_last_touched_slot a = acc_last_touched_slot b.

Section injective.
Context (sha256 : list Z -> list Z) (Hsha : digest_shape sha256).

Lemma sorted_fingerprints_ok ks : Forall is_u256 (sorted_fingerprints sha256 ks).
Proof.
  unfold sorted_fingerprints. rewrite sort_by_perm. apply Forall_fmap, Forall_forall.
  intros k _. by apply digest_range.
Qed.

Lemma length_sorted_fingerprints ks : length (sorted_fingerprints sha256 ks) = length ks.
Proof. unfold sorted_fingerprints. by rewrite sort_by_perm, length_fmap. Qed.

Lemma length_auth_keys_bytes ks :
  length (auth_keys_bytes sha256 ks) = match ks with [] => 0 | _ => 2 + 32 * length ks end%nat.
Proof.
  destruct ks as [|k ks]; [done|]. unfold auth_keys_bytes. simpl length.
  by rewrite length_words, length_sorted_fingerprints.
Qed.

(** The block of additional keys is either absent or starts with the byte 6,
    which may as well be the first byte of the slot number that follows.
    The length of the message tells the two apart. *)
Lemma auth_keys_bytes_inj ks ls t u (s r : list Z) :
  (length ks < 256)%nat -> (length ls < 256)%nat ->
  auth_keys_bytes sha256 ks ++ le_bytes 8 t ++ words s =
    auth_keys_bytes sha256 ls ++ le_bytes 8 u ++ words r ->
  sorted_fingerprints sha256 ks = sorted_fingerprints sha256 ls /\
  le_bytes 8 t ++ words s = le_bytes 8 u ++ words r.
Proof.
  intros Hk Hl E. pose proof (f_equal length E) as Elen.
  rewrite !length_app, !length_le_bytes, !length_words, !length_auth_keys_bytes in Elen.
  destruct ks as [|k ks], ls as [|l ls]; [done|exfalso; lia|exfalso; lia|].
  set (ks' := k :: ks) in *. set (ls' := l :: ls) in *.
  change (6 :: Z.of_nat (length ks') mod 2 ^ 8 :: words (sorted_fingerprints sha256 ks') ++
          le_bytes 8 t ++ words s =
          6 :: Z.of_nat (length ls') mod 2 ^ 8 :: words (sorted_fingerprints sha256 ls') ++
          le_bytes 8 u ++ words r) in E.
  rewrite (Z.mod_small (Z.of_nat (length ks'))), (Z.mod_small (Z.of_nat (length ls'))) in E by lia.
  apply cons_eq_inj in E as [_ [En E]%cons_eq_inj].
  apply words_prefix in E; [done| |apply sorted_fingerprints_ok|apply sorted_fingerprints_ok].
  rewrite !length_sorted_fingerprints. lia.
Qed.

Lemma leaf_bytes_inj a b s t :
  account_ok a -> account_ok b -> storage_ok s -> storage_ok t ->
  to_hash_bytes sha256 a ++ storage_bytes s = to_hash_bytes sha256 b ++ storage_bytes t ->
  same_hashed sha256 a b /\ s = t.
Proof.
  intros (Ha1&Ha2&Ha3&Ha4&Ha5&Ha6&Ha7&Ha8&Ha9&Ha10&Ha11&Ha12&Ha13)
    (Hb1&Hb2&Hb3&Hb4&Hb5&Hb6&Hb7&Hb8&Hb9&Hb10&Hb11&Hb12&Hb13) Hs Ht E.
  unfold to_hash_bytes in E. rewrite <-!app_assoc in E. rewrite !storage_bytes_words in E.
  apply (be_bytes_prefix 32) in E as [E1 E]; [|done|done].
  apply u64_bytes_prefix in E as [E2 E]; [|done|done].
  apply u64_bytes_prefix in E as [E3 E]; [|done|done].
  apply (be_bytes_prefix 32) in E as [E4 E]; [|done|done].
  apply (opt_bytes_prefix _ _ 16 ltac:(done) (be_bytes_prefix 32)) in E as [E5 E]; [|done|done].
  apply (opt_bytes_prefix _ _ 17 ltac:(done) (be_bytes_prefix 32)) in E as [E6 E]; [|done|done].
  apply (opt_bytes_prefix _ _ 1 ltac:(done) (be_bytes_prefix 20)) in E as [E7 E]; [|done|done].
  apply (opt_bytes_prefix _ _ 2 ltac:(done) (be_bytes_prefix 20)) in E as [E8 E]; [|done|done].
  apply (opt_bytes_prefix _ _ 3 ltac:(done) (be_bytes_prefix 32)) in E as [E9 E]; [|done|done].
  apply (opt_bytes_prefix _ _ 4 ltac:(done) script_bytes_prefix) in E as [E10 E]; [|done|done].
  apply (opt_bytes_prefix _ _ 5 ltac:(done) (be_bytes_prefix 32)) in E as [E11 E]; [|done|done].
  apply (be_bytes_prefix 32) in E as [E12 E]; [|by apply digest_range|by apply digest_range].
  apply auth_keys_bytes_inj in E as [E13 E]; [|done|done].
  apply u64_bytes_prefix in E as [E14 E]; [|done|done].
  apply words_inj, storage_words_inj in E; [|by apply storage_words_ok|by apply storage_words_ok].
  done.
Qed.
End injective.

Lemma opt_storage_default s : opt_storage_bytes s = storage_bytes (default ∅ s).
Proof. destruct s; [done|]. vm_compute. reflexivity. Qed.

Lemma auth_keys_bytes_sorted sha256 ks ls :
  sorted_fingerprints sha256 ks = sorted_fingerprints sha256 ls ->
  auth_keys_bytes sha256 ks = auth_keys_bytes sha256 ls.
Proof.
  intros E. assert (length ks = length ls) as El.
  { by rewrite <-(length_sorted_fingerprints sha256 ks), E, length_sorted_fingerprints. }
  destruct ks as [|k ks], ls as [|l ls]; try done.
  unfold auth_keys_bytes. by rewrite El, E.
Qed.

Lemma same_hashed_bytes sha256 a b :
  same_hashed sha256 a b -> to_hash_bytes sha256 a = to_hash_bytes sha256 b.
Proof.
  intros (E1&E2&E3&E4&E5&E6&E7&E8&E9&E10&E11&E12&E13&E14). unfold to_hash_bytes.
  rewrite E1, E2, E3, E4, E5, E6, E7, E8, E9, E10, E11, E12, E14.
  by rewrite (auth_keys_bytes_sorted sha256 _ _ E13).
Qed.

(** A resurrection proof is accepted against the stub of an expired account
    exactly when it carries that account: the same identity, balance, nonce,
    storage root, aliases, code hash, key fingerprints and last touched slot,
    and the same storage.  The only assumption about SHA-256 is that the two
    messages hashed do not collide. *)
Theorem resurrection_proof_binding sha256 a s slot p :
  digest_shape sha256 ->
  collision_free sha256
    [stub_preimage sha256 a s; stub_preimage sha256 (proof_account p) (Some (proof_storage p))] ->
  account_ok a -> account_ok (proof_account p) ->
  storage_ok (default ∅ s) -> storage_ok (proof_storage p) ->
  proof_verify sha256 p
    {| stub_id_com := acc_id_com a; stub_hash := compute_stub_hash sha256 a s;
       stub_expired_at_slot := slot |} = true <->
  same_hashed sha256 (proof_account p) a /\ proof_storage p = default ∅ s.
Proof.
  intros Hsha Hcf Ha Hp Hs Hps. unfold proof_verify, compute_stub_hash. simpl.
  rewrite andb_true_iff, !Z.eqb_eq. split.
  - intros [_ E%digest_eq]; [|done]. symmetry in E. apply Hcf in E; [|by left|by right; left].
    unfold stub_preimage in E. apply app_inv_head in E. rewrite !opt_storage_default in E.
    symmetry in E. by apply (leaf_bytes_inj sha256 Hsha) in E.
  - intros [Hsame ->]. split; [apply Hsame|]. f_equal. unfold stub_preimage.
    by rewrite (same_hashed_bytes _ _ _ Hsame), !opt_storage_default.
Qed.

(** A digest of the right shape that keeps the byte sum of the message. *)
Module SampleDigest.
Definition sample_sha256 (m : list Z) : list Z := replicate 31 0 ++ [Zsum m mod 256].

Lemma sample_shape : digest_shape sample_sha256.
Proof.
  intros m. split; [done|]. apply Forall_app. split; [by apply Forall_replicate|].
  constructor; [|done]. apply Z.mod_pos_bound. lia.
Qed.

Definition owner : Account := with_evm_address 5 77.
Definition slots : Storage := <[1 := 10]> ∅.
End SampleDigest.

Lemma resurrection_proof_binding_witness :
  let sha := SampleDigest.sample_sha256 in
  let stub := {| stub_id_com := 5;
                 stub_hash := compute_stub_hash sha SampleDigest.owner (Some SampleDigest.slots);
                 stub_expired_at_slot := 9 |} in
  proof_verify sha {| proof_account := SampleDigest.owner; proof_storage := SampleDigest.slots |} stub
    = true /\
  proof_verify sha {| proof_account := set_balance SampleDigest.owner 50;
                      proof_storage := SampleDigest.slots |} stub <> true.
Proof.
  cbv zeta.
  assert (account_ok SampleDigest.owner) as H1 by (repeat split; vm_compute; congruence || lia).
  assert (account_ok (set_balance SampleDigest.owner 50)) as H2
    by (repeat split; vm_compute; congruence || lia).
  assert (storage_ok SampleDigest.slots) as H3.
  { unfold SampleDigest.slots. intros k v [[<- <-]|[_ H]]%lookup_insert_Some; [split; split; vm_compute; congruence|].
    by rewrite lookup_empty in H. }
  split.
  - apply (resurrection_proof_binding SampleDigest.sample_sha256 SampleDigest.owner
      (Some SampleDigest.slots) 9
      {| proof_account := SampleDigest.owner; proof_storage := SampleDigest.slots |});
      [apply SampleDigest.sample_shape| |done|done|done|done|repeat split].
    intros x y [->|[->|[]%elem_of_nil]%elem_of_cons]%elem_of_cons
      [->|[->|[]%elem_of_nil]%elem_of_cons]%elem_of_cons; done.
  - intros H. eapply (resurrection_proof_binding SampleDigest.sample_sha256 SampleDigest.owner
      (Some SampleDigest.slots) 9
      {| proof_account := set_balance SampleDigest.owner 50;
         proof_storage := SampleDigest.slots |}) in H;
      [|apply SampleDigest.sample_shape| |done|done|done|done].
    + destruct H as [(_ & Hb & _) _]. by vm_compute in Hb.
    + intros x y [->|[->|[]%elem_of_nil]%elem_of_cons]%elem_of_cons
        [->|[->|[]%elem_of_nil]%elem_of_cons]%elem_of_cons E; [done| | |done];
        exfalso; vm_compute in E; discriminate E.
Defined.
