(* ===== verification/StateTree.v ===== *)
(** The state tree (ace-model/src/state_tree.rs).

    Hot accounts, expired stubs, contract storage, the six address indices, the
    HFI Pay stores and the ZK-ACE replay registry, with every operation of the
    source, the Merkle root and the snapshots.  [Arc] only shares: a state is
    its value and [make_mut] is an update, so the maps are [gmap]s.  BTreeMap
    iteration order is restored by sorting on the key.

    The theorems show that the address indices agree with the accounts as long
    as no two accounts claim one address, that an account is hot or expired and
    never both, that expiry followed by resurrection restores the account and
    its storage and that nothing else resurrects it, that sweeping moves no
    balance, and that equal Merkle roots over equally many leaves mean equal
    leaves. *)

From S2P Require Import Prelude SigAlgo Account.
Local Open Scope Z_scope.
Local Open Scope ace_scope.

(* ------------------------------------------------------------------ *)
(** * Data *)

Record StateTree := {
  accounts : gmap AccountId Account;
  stubs : gmap AccountId AccountStub;
  contract_storage : gmap AccountId Storage;
  xid_index : gmap Z AccountId;
  evm_index : gmap Z AccountId;
  tron_index : gmap Z AccountId;
  solana_index : gmap Z AccountId;
  btc_index : gmap (list Z) AccountId;
  xaddress_index : gmap Z AccountId;
  hfi_intents : gmap Z (list Z);
  hfi_recipients : gmap Z (list Z);
  hfi_idcom_index : gmap Z Z;
  zk_replay_registry : gmap Z Z;
}.

Definition state_new : StateTree :=
  {| accounts := ∅; stubs := ∅; contract_storage := ∅; xid_index := ∅; evm_index := ∅;
     tron_index := ∅; solana_index := ∅; btc_index := ∅; xaddress_index := ∅;
     hfi_intents := ∅; hfi_recipients := ∅; hfi_idcom_index := ∅; zk_replay_registry := ∅ |}.

(** Updates of the fields outside the indices. *)
Definition set_tiers (t : StateTree) (accs : gmap AccountId Account)
    (ss : gmap AccountId AccountStub) (store : gmap AccountId Storage) : StateTree :=
  {| accounts := accs; stubs := ss; contract_storage := store;
     xid_index := xid_index t; evm_index := evm_index t; tron_index := tron_index t;
     solana_index := solana_index t; btc_index := btc_index t;
     xaddress_index := xaddress_index t; hfi_intents := hfi_intents t;
     hfi_recipients := hfi_recipients t; hfi_idcom_index := hfi_idcom_index t;
     zk_replay_registry := zk_replay_registry t |}.

Definition set_registries (t : StateTree) (intents recipients : gmap Z (list Z))
    (idcoms replay : gmap Z Z) : StateTree :=
  {| accounts := accounts t; stubs := stubs t; contract_storage := contract_storage t;
     xid_index := xid_index t; evm_index := evm_index t; tron_index := tron_index t;
     solana_index := solana_index t; btc_index := btc_index t;
     xaddress_index := xaddress_index t; hfi_intents := intents;
     hfi_recipients := recipients; hfi_idcom_index := idcoms; zk_replay_registry := replay |}.

(* ------------------------------------------------------------------ *)
(** * Registries *)

Definition zk_replay_contains (t : StateTree) (rp_com : Z) : bool :=
  bool_decide (is_Some (zk_replay_registry t !! rp_com)).

Definition zk_replay_consume (t : StateTree) (rp_com idcom : Z) : StateTree * bool :=
  if zk_replay_contains t rp_com then (t, false)
  else (set_registries t (hfi_intents t) (hfi_recipients t) (hfi_idcom_index t)
          (<[rp_com := idcom]> (zk_replay_registry t)), true).

Definition hfi_recipient_by_idcom (t : StateTree) (idcom : Z) : option (Z * list Z) :=
  match hfi_idcom_index t !! idcom with
  | Some id_hash =>
      match hfi_recipients t !! id_hash with
      | Some bytes => Some (id_hash, bytes)
      | None => None
      end
  | None => None
  end.

(** The identity commitment inside an encoded recipient: bytes 64 to 96. *)
Definition encoded_idcom (bytes : list Z) : option Z :=
  if (96 <=? length bytes)%nat then Some (be_num (take 32 (drop 64 bytes))) else None.

Definition hfi_recipient_put (t : StateTree) (id_hash identity_commitment : Z) (bytes : list Z)
    : StateTree :=
  let prev_idcom := hfi_recipients t !! id_hash ≫= encoded_idcom in
  let idx :=
    match prev_idcom with
    | Some prev =>
        if negb (prev =? identity_commitment) then delete prev (hfi_idcom_index t)
        else hfi_idcom_index t
    | None => hfi_idcom_index t
    end in
  set_registries t (hfi_intents t) (<[id_hash := bytes]> (hfi_recipients t))
    (<[identity_commitment := id_hash]> idx) (zk_replay_registry t).

Definition hfi_intent_put (t : StateTree) (intent_id : Z) (bytes : list Z) : StateTree :=
  set_registries t (<[intent_id := bytes]> (hfi_intents t)) (hfi_recipients t)
    (hfi_idcom_index t) (zk_replay_registry t).

Definition hfi_intent_remove (t : StateTree) (intent_id : Z) : StateTree * option (list Z) :=
  (set_registries t (delete intent_id (hfi_intents t)) (hfi_recipients t)
     (hfi_idcom_index t) (zk_replay_registry t), hfi_intents t !! intent_id).

(* ------------------------------------------------------------------ *)
(** * Index entries *)

(** One index in [insert]: drop the old key, then claim the new one unless
    another account holds it. *)
Definition reindex {K} `{Countable K} (old new : option K) (id : AccountId)
    (idx : gmap K AccountId) : gmap K AccountId :=
  let idx := match old with Some k => delete k idx | None => idx end in
  match new with
  | Some k =>
      match idx !! k with
      | None => <[k := id]> idx
      | Some owner => if owner =? id then <[k := id]> idx else idx
      end
  | None => idx
  end.

(** One index in [remove] and [expire_account]. *)
Definition unindex {K} `{Countable K} (old : option K) (idx : gmap K AccountId)
    : gmap K AccountId :=
  match old with
  | Some k => delete k idx
  | None => idx
  end.

Arguments reindex : simpl never.
Arguments unindex : simpl never.

(* ------------------------------------------------------------------ *)
(** * Operations *)

Section operations.
Context (sha256 : list Z -> list Z).

(** Bytes 12 to 32 of a digest: a 20-byte address. *)
Definition address_of_digest (m : list Z) : Z := be_num (take 20 (drop 12 (sha256 m))).

Definition derive_evm_address (id_com : AccountId) : Z :=
  address_of_digest (ascii_bytes "evm:" ++ be_bytes 32 id_com).

Definition derive_tron_address (id_com : AccountId) : Z :=
  address_of_digest (ascii_bytes "tron:" ++ be_bytes 32 id_com).

Definition account_evm_address (a : Account) : Z :=
  default (derive_evm_address (acc_id_com a)) (acc_evm_address a).

Definition account_tron_address (a : Account) : Z :=
  default (derive_tron_address (acc_id_com a)) (acc_tron_address a).

Definition insert_account (t : StateTree) (account : Account) : StateTree :=
  let id_com := acc_id_com account in
  let old := accounts t !! id_com in
  {| stubs := delete id_com (stubs t);
     evm_index :=
       reindex (account_evm_address <$> old) (Some (account_evm_address account)) id_com
         (evm_index t);
     tron_index :=
       reindex (account_tron_address <$> old) (Some (account_tron_address account)) id_com
         (tron_index t);
     xid_index := reindex (old ≫= acc_xid) (acc_xid account) id_com (xid_index t);
     solana_index :=
       reindex (old ≫= acc_solana_address) (acc_solana_address account) id_com (solana_index t);
     btc_index :=
       reindex (old ≫= acc_btc_address) (acc_btc_address account) id_com (btc_index t);
     xaddress_index :=
       reindex (old ≫= acc_xaddress) (acc_xaddress account) id_com (xaddress_index t);
     accounts := <[id_com := account]> (accounts t);
     contract_storage := contract_storage t;
     hfi_intents := hfi_intents t; hfi_recipients := hfi_recipients t;
     hfi_idcom_index := hfi_idcom_index t; zk_replay_registry := zk_replay_registry t |}.

(** What [remove] and [expire_account] share: the account leaves the hot tier,
    its storage and its index entries are dropped. *)
Definition take_account (t : StateTree) (id : AccountId) (account : Account) : StateTree :=
  {| accounts := delete id (accounts t);
     stubs := stubs t;
     evm_index := unindex (Some (account_evm_address account)) (evm_index t);
     tron_index := unindex (Some (account_tron_address account)) (tron_index t);
     xid_index := unindex (acc_xid account) (xid_index t);
     solana_index := unindex (acc_solana_address account) (solana_index t);
     btc_index := unindex (acc_btc_address account) (btc_index t);
     xaddress_index := unindex (acc_xaddress account) (xaddress_index t);
     contract_storage := delete id (contract_storage t);
     hfi_intents := hfi_intents t; hfi_recipients := hfi_recipients t;
     hfi_idcom_index := hfi_idcom_index t; zk_replay_registry := zk_replay_registry t |}.

Definition remove_account (t : StateTree) (id : AccountId) : StateTree * option Account :=
  match accounts t !! id with
  | None => (t, None)
  | Some account => (take_account t id account, Some account)
  end.

(** ** Address resolution *)

Definition legacy_idcom_evm (addr : Z) : AccountId :=
  digest sha256 (ascii_bytes "ace-legacy-evm" ++ be_bytes 20 addr).
Definition legacy_idcom_tron (addr : Z) : AccountId :=
  digest sha256 (ascii_bytes "ace-legacy-tron" ++ be_bytes 20 addr).
Definition legacy_idcom_solana (pubkey : Z) : AccountId :=
  digest sha256 (ascii_bytes "ace-legacy-solana" ++ be_bytes 32 pubkey).
Definition legacy_idcom_btc_script (script : list Z) : AccountId :=
  digest sha256 (ascii_bytes "ace-legacy-btc-output" ++ script).
Definition idcom_xid (xid : Z) : AccountId :=
  digest sha256 (ascii_bytes "ace-native-xid" ++ be_bytes 32 xid).

Definition or_legacy (t : StateTree) (found : option AccountId) (legacy : AccountId)
    : option AccountId :=
  match found with
  | Some id => Some id
  | None => if bool_decide (is_Some (accounts t !! legacy)) then Some legacy else None
  end.

Definition resolve_evm_account_id (t : StateTree) (addr : Z) : option AccountId :=
  or_legacy t (evm_index t !! addr) (legacy_idcom_evm addr).
Definition resolve_tron_account_id (t : StateTree) (addr : Z) : option AccountId :=
  or_legacy t (tron_index t !! addr) (legacy_idcom_tron addr).
Definition resolve_xid_account_id (t : StateTree) (xid : Z) : option AccountId :=
  or_legacy t (xid_index t !! xid) (idcom_xid xid).
Definition resolve_solana_account_id (t : StateTree) (pubkey : Z) : option AccountId :=
  or_legacy t (solana_index t !! pubkey) (legacy_idcom_solana pubkey).
Definition resolve_btc_account_id (t : StateTree) (script : list Z) : option AccountId :=
  or_legacy t (btc_index t !! script) (legacy_idcom_btc_script script).
Definition resolve_xaddress_account_id (t : StateTree) (xaddress : Z) : option AccountId :=
  xaddress_index t !! xaddress.

(** ** Contract storage and code *)

Definition get_storage (t : StateTree) (account : AccountId) (slot : Z) : Z :=
  default 0 (contract_storage t !! account ≫= (fun m : Storage => m !! slot)).

Definition set_storage (t : StateTree) (account : AccountId) (slot value : Z) : StateTree :=
  set_tiers t (accounts t) (stubs t)
    (<[account := <[slot := value]> (default ∅ (contract_storage t !! account))]>
       (contract_storage t)).

Definition set_code (t : StateTree) (account : AccountId) (code : list Z)
    : StateTree * option Hash :=
  match accounts t !! account with
  | None => (t, None)
  | Some acct =>
      let hash := digest sha256 code in
      (set_tiers t (<[account := account_set_code acct (Some hash) (Some code)]> (accounts t))
         (stubs t) (contract_storage t), Some hash)
  end.

Definition get_code (t : StateTree) (account : AccountId) : option (list Z) :=
  accounts t !! account ≫= acc_code.

(** ** State expiry *)

Definition insert_stub (t : StateTree) (stub : AccountStub) : StateTree :=
  set_tiers t (accounts t) (<[stub_id_com stub := stub]> (stubs t)) (contract_storage t).

Definition expire_account (t : StateTree) (id : AccountId) (current_slot : Z)
    : StateTree * option AccountStub :=
  match accounts t !! id with
  | None => (t, None)
  | Some account =>
      let stub :=
        {| stub_id_com := id;
           stub_hash := compute_stub_hash sha256 account (contract_storage t !! id);
           stub_expired_at_slot := current_slot |} in
      let t := take_account t id account in
      (set_tiers t (accounts t) (<[id := stub]> (stubs t)) (contract_storage t), Some stub)
  end.

Inductive ResurrectError : Type :=
| NotExpired
| ProofMismatch.

Definition restore_storage (t : StateTree) (id : AccountId) (l : list (Z * Z)) : StateTree :=
  foldl (fun t '(slot, value) => set_storage t id slot value) t l.

Definition resurrect_account (t : StateTree) (proof : ResurrectionProof) (new_slot : Z)
    : result ResurrectError StateTree :=
  let id := acc_id_com (proof_account proof) in
  let? stub := ok_or (stubs t !! id) NotExpired in
  if negb (proof_verify sha256 proof stub) then Err ProofMismatch
  else
    let t := set_tiers t (accounts t) (delete id (stubs t)) (contract_storage t) in
    let t := insert_account t (set_last_touched (proof_account proof) new_slot) in
    Ok (restore_storage t id (entries (proof_storage proof))).

Definition expirable (cutoff : Z) (acct : Account) : bool :=
  (acc_last_touched_slot acct <? cutoff) && (acc_balance acct =? 0) &&
  bool_decide (acc_code_hash acct = None).

Definition sweep_expired (t : StateTree) (current_slot expiry_period : Z) : StateTree * nat :=
  let cutoff := u64_saturating_sub current_slot expiry_period in
  let to_expire :=
    map fst (List.filter (fun '(_, acct) => expirable cutoff acct) (entries (accounts t))) in
  (foldl (fun t id => fst (expire_account t id current_slot)) t to_expire, length to_expire).

(** ** Merkle root *)

Definition account_message (t : StateTree) (id : AccountId) (acct : Account) : list Z :=
  to_hash_bytes sha256 acct ++ opt_storage_bytes (contract_storage t !! id).
Definition intent_message (e : Z * list Z) : list Z :=
  ascii_bytes "hfi:intent:v1:" ++ be_bytes 32 e.1 ++ e.2.
Definition recipient_message (e : Z * list Z) : list Z :=
  ascii_bytes "hfi:recipient:v1:" ++ be_bytes 32 e.1 ++ e.2.
Definition replay_message (e : Z * Z) : list Z :=
  ascii_bytes "zkace:replay:v1:" ++ be_bytes 32 e.1 ++ be_bytes 32 e.2.

(** Leaves by account id: a hot account's leaf is inserted after, hence over,
    a stub's. *)
Definition leaf_map (t : StateTree) : gmap AccountId Hash :=
  map_imap (fun id acct => Some (digest sha256 (account_message t id acct))) (accounts t)
  ∪ (stub_hash <$> stubs t).

Definition state_leaves (t : StateTree) : list Hash :=
  (entries (leaf_map t)).*2 ++
  (digest sha256 ∘ intent_message <$> entries (hfi_intents t)) ++
  (digest sha256 ∘ recipient_message <$> entries (hfi_recipients t)) ++
  (digest sha256 ∘ replay_message <$> entries (zk_replay_registry t)).

Definition node_message (a b : Hash) : list Z := be_bytes 32 a ++ be_bytes 32 b.

(** The messages of one level: consecutive pairs, an odd node with itself. *)
Fixpoint level_messages (hashes : list Hash) : list (list Z) :=
  match hashes with
  | a :: b :: rest => node_message a b :: level_messages rest
  | [a] => [node_message a a]
  | [] => []
  end.

Definition next_level (hashes : list Hash) : list Hash :=
  digest sha256 <$> level_messages hashes.

(** The reduction loop; a level is shorter than the one below it, so as many
    rounds as there are leaves are enough ([merkle_loop_total]). *)
Fixpoint merkle_loop (fuel : nat) (hashes : list Hash) : option Hash :=
  match hashes with
  | [] => None
  | [h] => Some h
  | _ =>
      match fuel with
      | O => None
      | S fuel => merkle_loop fuel (next_level hashes)
      end
  end.

Definition state_is_empty (t : StateTree) : bool :=
  bool_decide (accounts t = ∅) && bool_decide (stubs t = ∅) &&
  bool_decide (hfi_intents t = ∅) && bool_decide (hfi_recipients t = ∅) &&
  bool_decide (zk_replay_registry t = ∅).

Definition compute_root (t : StateTree) : option Hash :=
  if state_is_empty t then Some (digest sha256 (ascii_bytes "ACE-EMPTY-STATE-V1"))
  else merkle_loop (length (state_leaves t)) (state_leaves t).
End operations.

(* ------------------------------------------------------------------ *)
(** * Snapshots *)

Record StateSnapshot := {
  snap_accounts : gmap AccountId Account;
  snap_stubs : gmap AccountId AccountStub;
  snap_contract_storage : gmap AccountId Storage;
  snap_xid_index : gmap Z AccountId;
  snap_evm_index : gmap Z AccountId;
  snap_tron_index : gmap Z AccountId;
  snap_solana_index : gmap Z AccountId;
  snap_btc_index : gmap (list Z) AccountId;
  snap_xaddress_index : gmap Z AccountId;
  snap_hfi_intents : gmap Z (list Z);
  snap_hfi_recipients : gmap Z (list Z);
  snap_hfi_idcom_index : gmap Z Z;
  snap_zk_replay_registry : gmap Z Z;
}.

Definition snapshot (t : StateTree) : StateSnapshot :=
  {| snap_accounts := accounts t; snap_stubs := stubs t;
     snap_contract_storage := contract_storage t; snap_xid_index := xid_index t;
     snap_evm_index := evm_index t; snap_tron_index := tron_index t;
     snap_solana_index := solana_index t; snap_btc_index := btc_index t;
     snap_xaddress_index := xaddress_index t; snap_hfi_intents := hfi_intents t;
     snap_hfi_recipients := hfi_recipients t; snap_hfi_idcom_index := hfi_idcom_index t;
     snap_zk_replay_registry := zk_replay_registry t |}.

Definition rollback (t : StateTree) (s : StateSnapshot) : StateTree :=
  {| accounts := snap_accounts s; stubs := snap_stubs s;
     contract_storage := snap_contract_storage s; xid_index := snap_xid_index s;
     evm_index := snap_evm_index s; tron_index := snap_tron_index s;
     solana_index := snap_solana_index s; btc_index := snap_btc_index s;
     xaddress_index := snap_xaddress_index s; hfi_intents := snap_hfi_intents s;
     hfi_recipients := snap_hfi_recipients s; hfi_idcom_index := snap_hfi_idcom_index s;
     zk_replay_registry := snap_zk_replay_registry s |}.

(** Whatever happened since, rolling back restores the state of the snapshot. *)
Lemma rollback_snapshot t t' : rollback t' (snapshot t) = t.
Proof. by destruct t. Qed.

(* ------------------------------------------------------------------ *)
(** * Sequences of operations *)

(** A call of one of the mutating methods.  [OpUpdate] is a write through
    [get_mut].  A rollback is not listed: it returns to the state of the snapshot
    ([rollback_snapshot]), which an earlier part of the sequence reached. *)
Inductive TreeOp : Type :=
| OpInsert (a : Account)
| OpUpdate (id : AccountId) (f : Account -> Account)
| OpRemove (id : AccountId)
| OpExpire (id : AccountId) (slot : Z)
| OpResurrect (p : ResurrectionProof) (slot : Z)
| OpSweep (slot period : Z)
| OpSetStorage (id : AccountId) (slot value : Z)
| OpSetCode (id : AccountId) (code : list Z)
| OpReplay (rp_com idcom : Z)
| OpRecipient (id_hash idcom : Z) (bytes : list Z)
| OpIntentPut (id : Z) (bytes : list Z)
| OpIntentRemove (id : Z)
| OpInsertStub (stub : AccountStub).

Definition get_mut_update (t : StateTree) (id : AccountId) (f : Account -> Account) : StateTree :=
  match accounts t !! id with
  | Some a => set_tiers t (<[id := f a]> (accounts t)) (stubs t) (contract_storage t)
  | None => t
  end.

Definition apply_op (sha256 : list Z -> list Z) (t : StateTree) (op : TreeOp) : StateTree :=
  match op with
  | OpInsert a => insert_account sha256 t a
  | OpUpdate id f => get_mut_update t id f
  | OpRemove id => fst (remove_account sha256 t id)
  | OpExpire id slot => fst (expire_account sha256 t id slot)
  | OpResurrect p slot =>
      match resurrect_account sha256 t p slot with
      | Ok t' => t'
      | Err _ => t
      end
  | OpSweep slot period => fst (sweep_expired sha256 t slot period)
  | OpSetStorage id slot value => set_storage t id slot value
  | OpSetCode id code => fst (set_code sha256 t id code)
  | OpReplay rp idcom => fst (zk_replay_consume t rp idcom)
  | OpRecipient id_hash idcom bytes => hfi_recipient_put t id_hash idcom bytes
  | OpIntentPut id bytes => hfi_intent_put t id bytes
  | OpIntentRemove id => fst (hfi_intent_remove t id)
  | OpInsertStub stub => insert_stub t stub
  end.

(* ------------------------------------------------------------------ *)
(** * The invariant *)

(** An index lists exactly the keys of the accounts. *)
Definition idx_ok {K} `{Countable K} (key : Account -> option K) (accs : gmap AccountId Account)
    (idx : gmap K AccountId) : Prop :=
  forall k id, idx !! k = Some id <-> exists a, accs !! id = Some a /\ key a = Some k.

(** No other account has the key of [a]. *)
Definition no_clash {K} (key : Account -> option K) (accs : gmap AccountId Account)
    (a : Account) : Prop :=
  forall id b, accs !! id = Some b -> id <> acc_id_com a -> key a <> None -> key b <> key a.

Section indices.
Context {K : Type} `{Countable K} (key : Account -> option K).
Implicit Types (accs : gmap AccountId Account) (idx : gmap K AccountId).

Lemma idx_ok_empty : idx_ok key ∅ ∅.
Proof.
  intros k id. rewrite lookup_empty. split; [done|].
  intros (a & Ha & _). by rewrite lookup_empty in Ha.
Qed.

Lemma idx_ok_unindex accs idx id a :
  idx_ok key accs idx -> accs !! id = Some a ->
  idx_ok key (delete id accs) (unindex (key a) idx).
Proof.
  unfold idx_ok. intros Hok Ha k i. unfold unindex. destruct (key a) as [ka|] eqn:Ek.
  - rewrite lookup_delete_Some, Hok. split.
    + intros (Hne & b & Hb & Hkb). exists b. rewrite lookup_delete_Some. split_and!; [|done|done].
      intros <-. assert (b = a) as -> by congruence. congruence.
    + intros (b & [Hne Hb]%lookup_delete_Some & Hkb). split; [|eauto].
      intros <-. assert (idx !! ka = Some i) as E1 by (apply Hok; eauto).
      assert (idx !! ka = Some id) as E2 by (apply Hok; eauto). congruence.
  - rewrite Hok. split; intros (b & Hb & Hkb); exists b; split; try done.
    + apply lookup_delete_Some. split; [|done]. intros <-. congruence.
    + by apply lookup_delete_Some in Hb as [_ ?].
Qed.

Lemma idx_ok_claim accs idx a :
  idx_ok key accs idx -> accs !! acc_id_com a = None -> no_clash key accs a ->
  idx_ok key (<[acc_id_com a := a]> accs) (reindex None (key a) (acc_id_com a) idx).
Proof.
  unfold idx_ok. intros Hok Hnone Hnc k i. unfold reindex. destruct (key a) as [ka|] eqn:Ek.
  - assert (idx !! ka = None) as ->.
    { destruct (idx !! ka) as [o|] eqn:E; [|done]. exfalso. apply Hok in E as (b & Hb & Hkb).
      apply (Hnc o b Hb); congruence. }
    rewrite lookup_insert_Some, Hok. setoid_rewrite lookup_insert_Some. split.
    + intros [[<- <-]|[Hne (b & Hb & Hkb)]]; [eauto|]. exists b. split; [|done]. right.
      split; [|done]. intros <-. congruence.
    + intros (b & [[<- <-]|[Hne Hb]] & Hkb); [left; split; congruence|]. right. split; [|eauto].
      intros ->. apply (Hnc i b Hb); [done|congruence|congruence].
  - rewrite Hok. setoid_rewrite lookup_insert_Some. split.
    + intros (b & Hb & Hkb). exists b. split; [|done]. right. split; [|done]. intros <-. congruence.
    + intros (b & [[<- <-]|[Hne Hb]] & Hkb); [congruence|eauto].
Qed.

Lemma reindex_unindex (old new : option K) id idx :
  reindex old new id idx = reindex None new id (unindex old idx).
Proof. done. Qed.

Lemma no_clash_delete accs a id : no_clash key accs a -> no_clash key (delete id accs) a.
Proof. intros Hn i b [_ Hb]%lookup_delete_Some. by apply Hn. Qed.

Lemma idx_ok_insert accs idx a :
  idx_ok key accs idx -> no_clash key accs a ->
  idx_ok key (<[acc_id_com a := a]> accs)
    (reindex (accs !! acc_id_com a ≫= key) (key a) (acc_id_com a) idx).
Proof.
  intros Hok Hnc. destruct (accs !! acc_id_com a) as [o|] eqn:Eo; simpl.
  - rewrite reindex_unindex, <-insert_delete_eq. apply idx_ok_claim.
    + by apply idx_ok_unindex.
    + apply lookup_delete_eq.
    + by apply no_clash_delete.
  - by apply idx_ok_claim.
Qed.

(** A write that keeps the key keeps the index. *)
Lemma idx_ok_update accs idx id a b :
  idx_ok key accs idx -> accs !! id = Some a -> key b = key a -> idx_ok key (<[id := b]> accs) idx.
Proof.
  unfold idx_ok. intros Hok Ha Hb k i. rewrite Hok. setoid_rewrite lookup_insert_Some. split.
  - intros (c & Hc & Hk). destruct (decide (id = i)) as [->|Hne]; [|by exists c; eauto].
    exists b. split; [by left|]. congruence.
  - intros (c & [[<- <-]|[Hne Hc]] & Hk); [exists a; split; congruence|eauto].
Qed.
End indices.

Section invariant.
Context (sha256 : list Z -> list Z).

Definition evm_key (a : Account) : option Z := Some (account_evm_address sha256 a).
Definition tron_key (a : Account) : option Z := Some (account_tron_address sha256 a).

Record indices_ok (t : StateTree) : Prop := {
  ok_evm : idx_ok evm_key (accounts t) (evm_index t);
  ok_tron : idx_ok tron_key (accounts t) (tron_index t);
  ok_xid : idx_ok acc_xid (accounts t) (xid_index t);
  ok_solana : idx_ok acc_solana_address (accounts t) (solana_index t);
  ok_btc : idx_ok acc_btc_address (accounts t) (btc_index t);
  ok_xaddress : idx_ok acc_xaddress (accounts t) (xaddress_index t);
}.

(** Accounts and stubs are filed under their own id, and no id has both. *)
Record tiers_ok (t : StateTree) : Prop := {
  ok_account_id : forall id a, accounts t !! id = Some a -> acc_id_com a = id;
  ok_stub_id : forall id s, stubs t !! id = Some s -> stub_id_com s = id;
  ok_disjoint : forall id, is_Some (accounts t !! id) -> stubs t !! id = None;
}.

Definition state_ok (t : StateTree) : Prop := tiers_ok t /\ indices_ok t.

(** No other account claims an address or alias of [a]. *)
Record no_alias_clash (t : StateTree) (a : Account) : Prop := {
  nc_evm : no_clash evm_key (accounts t) a;
  nc_tron : no_clash tron_key (accounts t) a;
  nc_xid : no_clash acc_xid (accounts t) a;
  nc_solana : no_clash acc_solana_address (accounts t) a;
  nc_btc : no_clash acc_btc_address (accounts t) a;
  nc_xaddress : no_clash acc_xaddress (accounts t) a;
}.

(** Two versions of an account with the same id and the same index keys. *)
Record same_keys (a b : Account) : Prop := {
  sk_id : acc_id_com a = acc_id_com b;
  sk_evm : acc_evm_address a = acc_evm_address b;
  sk_tron : acc_tron_address a = acc_tron_address b;
  sk_xid : acc_xid a = acc_xid b;
  sk_solana : acc_solana_address a = acc_solana_address b;
  sk_btc : acc_btc_address a = acc_btc_address b;
  sk_xaddress : acc_xaddress a = acc_xaddress b;
}.

Lemma state_new_ok : state_ok state_new.
Proof. split; split; try apply idx_ok_empty; done. Qed.

Lemma same_keys_evm a b : same_keys a b -> evm_key a = evm_key b.
Proof. intros []. unfold evm_key, account_evm_address. congruence. Qed.

Lemma same_keys_tron a b : same_keys a b -> tron_key a = tron_key b.
Proof. intros []. unfold tron_key, account_tron_address. congruence. Qed.

Lemma no_clash_same {K} (key : Account -> option K) accs a b :
  acc_id_com a = acc_id_com b -> key a = key b -> no_clash key accs a -> no_clash key accs b.
Proof. intros Hid Hk Hn i c Hc Hi Hb. rewrite <-Hk in *. apply (Hn i); congruence. Qed.

Lemma no_alias_clash_same t a b : same_keys a b -> no_alias_clash t a -> no_alias_clash t b.
Proof.
  intros Hs []. pose proof (same_keys_evm _ _ Hs). pose proof (same_keys_tron _ _ Hs).
  destruct Hs. split; by eapply no_clash_same.
Qed.

(** A hot account does not clash with itself. *)
Lemma idx_ok_no_clash {K} `{Countable K} (key : Account -> option K) accs idx id a :
  idx_ok key accs idx -> accs !! id = Some a -> acc_id_com a = id -> no_clash key accs a.
Proof.
  intros Hok Ha Hid i b Hb Hne Hk E. destruct (key a) as [k|] eqn:Ek; [|done].
  assert (idx !! k = Some i) as E1 by (apply Hok; eauto).
  assert (idx !! k = Some id) as E2 by (apply Hok; eauto). congruence.
Qed.

Lemma state_ok_no_clash t id a : state_ok t -> accounts t !! id = Some a -> no_alias_clash t a.
Proof.
  intros [Ht []] Ha. pose proof (ok_account_id _ Ht _ _ Ha).
  split; by eapply idx_ok_no_clash.
Qed.

Lemma fmap_bind_some {A B} (f : A -> B) (o : option A) : f <$> o = o ≫= (fun x => Some (f x)).
Proof. by destruct o. Qed.

Lemma insert_account_ok t a :
  state_ok t -> no_alias_clash t a -> state_ok (insert_account sha256 t a).
Proof.
  intros [[] []] []. split.
  - split; simpl.
    + intros id b [[<- <-]|[_ Hb]]%lookup_insert_Some; auto.
    + intros id s [_ Hs]%lookup_delete_Some. auto.
    + intros id [b [[<- _]|[Hne Hb]]%lookup_insert_Some]; [apply lookup_delete_eq|].
      rewrite lookup_delete_ne by done. eauto.
  - split; simpl; rewrite ?fmap_bind_some.
    + by apply (idx_ok_insert evm_key).
    + by apply (idx_ok_insert tron_key).
    + by apply (idx_ok_insert acc_xid).
    + by apply (idx_ok_insert acc_solana_address).
    + by apply (idx_ok_insert acc_btc_address).
    + by apply (idx_ok_insert acc_xaddress).
Qed.

Lemma take_account_ok t id a :
  state_ok t -> accounts t !! id = Some a -> state_ok (take_account sha256 t id a).
Proof.
  intros [[] []] Ha. split.
  - split; simpl.
    + intros i b [_ Hb]%lookup_delete_Some. auto.
    + auto.
    + intros i [b [_ Hb]%lookup_delete_Some]. eauto.
  - split; simpl.
    + by apply (idx_ok_unindex evm_key).
    + by apply (idx_ok_unindex tron_key).
    + by apply (idx_ok_unindex acc_xid).
    + by apply (idx_ok_unindex acc_solana_address).
    + by apply (idx_ok_unindex acc_btc_address).
    + by apply (idx_ok_unindex acc_xaddress).
Qed.

(** Writes of the tiers that keep ids, keys and disjointness. *)
Lemma set_tiers_ok t ss store :
  state_ok t ->
  (forall id s, ss !! id = Some s -> stub_id_com s = id /\ accounts t !! id = None) ->
  state_ok (set_tiers t (accounts t) ss store).
Proof.
  intros [[] []] Hs. split; split; simpl; try done.
  - intros id s H. by apply Hs.
  - intros id [a Ha]. destruct (ss !! id) as [s|] eqn:E; [|done]. apply Hs in E as [_ ?]. congruence.
Qed.

Lemma state_ok_stub t id s :
  state_ok t -> stubs t !! id = Some s -> stub_id_com s = id /\ accounts t !! id = None.
Proof.
  intros [[] _] Hs. split; [auto|]. destruct (accounts t !! id) eqn:E; [|done].
  rewrite ok_disjoint0 in Hs; [done|by eexists].
Qed.
Local Hint Resolve state_ok_stub : core.

Lemma update_account_ok t id a b :
  state_ok t -> accounts t !! id = Some a -> same_keys b a ->
  state_ok (set_tiers t (<[id := b]> (accounts t)) (stubs t) (contract_storage t)).
Proof.
  intros [[] []] Ha Hs. pose proof (same_keys_evm _ _ Hs). pose proof (same_keys_tron _ _ Hs).
  destruct Hs. split.
  - split; simpl; [| done |].
    + intros i c [[<- <-]|[_ Hc]]%lookup_insert_Some; [|auto]. rewrite sk_id0. auto.
    + intros i [c [[<- _]|[_ Hc]]%lookup_insert_Some]; eauto.
  - split; simpl; by eapply idx_ok_update.
Qed.
End invariant.

(* ------------------------------------------------------------------ *)
(** * Every operation keeps the invariant *)

Section preservation.
Context (sha256 : list Z -> list Z).

Lemma expire_account_ok t id slot :
  state_ok sha256 t -> state_ok sha256 (fst (expire_account sha256 t id slot)).
Proof.
  intros Hok. unfold expire_account. destruct (accounts t !! id) as [a|] eqn:Ea; [|done].
  apply set_tiers_ok; [by apply take_account_ok|]. simpl.
  intros i s [[<- <-]|[Hne Hs]]%lookup_insert_Some; [split; [done|apply lookup_delete_eq]|].
  rewrite lookup_delete_ne by done. by eapply state_ok_stub.
Qed.

Lemma sweep_expired_ok t slot period :
  state_ok sha256 t -> state_ok sha256 (fst (sweep_expired sha256 t slot period)).
Proof.
  unfold sweep_expired. simpl. generalize (map fst (List.filter
    (fun '(_, acct) => expirable (u64_saturating_sub slot period) acct) (entries (accounts t)))).
  intros l. revert t. induction l as [|id l IH]; intros t Hok; [done|].
  cbn [foldl]. apply IH. by apply expire_account_ok.
Qed.

Lemma set_storage_ok t id slot value :
  state_ok sha256 t -> state_ok sha256 (set_storage t id slot value).
Proof. intros Hok. apply set_tiers_ok; [done|]. intros i s Hs. by eapply state_ok_stub. Qed.

Lemma restore_storage_ok t id l :
  state_ok sha256 t -> state_ok sha256 (restore_storage t id l).
Proof.
  revert t. induction l as [|[k v] l IH]; intros t Hok; [done|].
  unfold restore_storage. cbn [foldl]. apply IH. by apply set_storage_ok.
Qed.

Lemma resurrect_account_ok t p slot t' :
  state_ok sha256 t -> no_alias_clash sha256 t (proof_account p) ->
  resurrect_account sha256 t p slot = Ok t' -> state_ok sha256 t'.
Proof.
  intros Hok Hnc Hr. unfold resurrect_account in Hr.
  apply rbind_ok in Hr as (stub & Hs%ok_or_ok & Hr). case_match; [done|]. simplify_eq.
  apply restore_storage_ok, insert_account_ok.
  - apply set_tiers_ok; [done|]. intros i s [_ H']%lookup_delete_Some. by eapply state_ok_stub.
  - eapply no_alias_clash_same; [|by destruct Hnc; split]. by split.
Qed.

(** What the callers see to: [insert_stub] does not look at the hot tier, and
    neither [insert] nor a write through [get_mut] at the owners of an address. *)
Definition op_ok (t : StateTree) (op : TreeOp) : Prop :=
  match op with
  | OpInsert a => no_alias_clash sha256 t a
  | OpUpdate id f => forall a, accounts t !! id = Some a -> same_keys (f a) a
  | OpResurrect p _ => no_alias_clash sha256 t (proof_account p)
  | OpInsertStub stub => accounts t !! stub_id_com stub = None
  | _ => True
  end.

Fixpoint ops_ok (t : StateTree) (ops : list TreeOp) : Prop :=
  match ops with
  | [] => True
  | op :: ops => op_ok t op /\ ops_ok (apply_op sha256 t op) ops
  end.

Lemma registries_ok t i r x z :
  state_ok sha256 t -> state_ok sha256 (set_registries t i r x z).
Proof. intros [[] []]. by split; split. Qed.

Lemma apply_op_ok t op :
  state_ok sha256 t -> op_ok t op -> state_ok sha256 (apply_op sha256 t op).
Proof.
  intros Hok Hop. destruct op; simpl in *.
  - by apply insert_account_ok.
  - unfold get_mut_update. destruct (accounts t !! id) as [a|] eqn:E; [|done].
    eapply update_account_ok; [done|done|by apply Hop].
  - unfold remove_account. destruct (accounts t !! id) eqn:E; [|done]. by apply take_account_ok.
  - by apply expire_account_ok.
  - destruct (resurrect_account _ _ _ _) eqn:E; [|done]. by eapply resurrect_account_ok.
  - by apply sweep_expired_ok.
  - by apply set_storage_ok.
  - unfold set_code. destruct (accounts t !! id) eqn:E; [|done].
    eapply update_account_ok; [done|done|by split].
  - unfold zk_replay_consume. case_match; [done|]. by apply registries_ok.
  - by apply registries_ok.
  - by apply registries_ok.
  - by apply registries_ok.
  - apply set_tiers_ok; [done|]. intros i x [[<- <-]|[_ Hx]]%lookup_insert_Some; [done|by eapply state_ok_stub].
Qed.

Lemma run_ops_ok ops t :
  state_ok sha256 t -> ops_ok t ops -> state_ok sha256 (foldl (apply_op sha256) t ops).
Proof.
  revert t. induction ops as [|op ops IH]; intros t Hok Hops; [done|].
  destruct Hops as [Hop Hops]. cbn [foldl]. apply IH; [by apply apply_op_ok|done].
Qed.

Lemma idx_ok_resolve {K} `{Countable K} (key : Account -> option K) accs idx id a k :
  idx_ok key accs idx -> accs !! id = Some a -> key a = Some k -> idx !! k = Some id.
Proof. intros Hok Ha Hk. apply Hok. eauto. Qed.
End preservation.

(** C13. After any sequence of operations on a new state tree in which no
    inserted or resurrected account claims an address of another account, writes
    through [get_mut] keep an account's id and addresses, and [insert_stub] is
    called only for ids without a hot account: every hot account
    is filed under its own id and has no stub; each of its six addresses resolves
    to it; and an index entry always points to a hot account that has that
    address, so no entry is stale and no address has two owners. *)
Theorem addresses_resolve sha256 ops t :
  ops_ok sha256 state_new ops -> t = foldl (apply_op sha256) state_new ops ->
  (forall id a, accounts t !! id = Some a ->
     acc_id_com a = id /\ stubs t !! id = None /\
     resolve_evm_account_id sha256 t (account_evm_address sha256 a) = Some id /\
     resolve_tron_account_id sha256 t (account_tron_address sha256 a) = Some id /\
     (forall x, acc_xid a = Some x -> resolve_xid_account_id sha256 t x = Some id) /\
     (forall x, acc_solana_address a = Some x -> resolve_solana_account_id sha256 t x = Some id) /\
     (forall x, acc_btc_address a = Some x -> resolve_btc_account_id sha256 t x = Some id) /\
     (forall x, acc_xaddress a = Some x -> resolve_xaddress_account_id t x = Some id)) /\
  indices_ok sha256 t.
Proof.
  intros Hops ->. pose proof (run_ops_ok sha256 ops state_new (state_new_ok sha256) Hops) as Hok.
  split; [|apply Hok]. destruct Hok as [[] []]. intros id a Ha. split_and!; [by auto|by eauto|..].
  - unfold resolve_evm_account_id. by rewrite (idx_ok_resolve _ _ _ id a _ ok_evm0 Ha eq_refl).
  - unfold resolve_tron_account_id. by rewrite (idx_ok_resolve _ _ _ id a _ ok_tron0 Ha eq_refl).
  - intros x Hx. unfold resolve_xid_account_id. by rewrite (idx_ok_resolve _ _ _ id a x ok_xid0 Ha Hx).
  - intros x Hx. unfold resolve_solana_account_id.
    by rewrite (idx_ok_resolve _ _ _ id a x ok_solana0 Ha Hx).
  - intros x Hx. unfold resolve_btc_account_id. by rewrite (idx_ok_resolve _ _ _ id a x ok_btc0 Ha Hx).
  - intros x Hx. by apply (idx_ok_resolve _ _ _ id a x ok_xaddress0).
Qed.

(* ------------------------------------------------------------------ *)
(** * Expiry and resurrection *)

Section resurrection.
Context (sha256 : list Z -> list Z).

Lemma reindex_restore {K} `{Countable K} (key : Account -> option K) accs idx id a :
  idx_ok key accs idx -> accs !! id = Some a ->
  reindex None (key a) id (unindex (key a) idx) = idx.
Proof.
  intros Hok Ha. unfold reindex, unindex. destruct (key a) as [k|] eqn:Ek; [|done].
  rewrite lookup_delete_eq. apply insert_delete_id. apply Hok. eauto.
Qed.

Lemma restore_storage_spec t id l :
  let t' := restore_storage t id l in
  t' = set_tiers t (accounts t) (stubs t) (contract_storage t') /\
  (forall i, i <> id -> contract_storage t' !! i = contract_storage t !! i) /\
  default ∅ (contract_storage t' !! id) =
    foldl (fun m '(k, v) => <[k := v]> m) (default ∅ (contract_storage t !! id)) l.
Proof.
  revert t. induction l as [|[k v] l IH]; intros t; cbv zeta; [by destruct t|].
  unfold restore_storage. cbn [foldl].
  change (foldl _ (set_storage t id k v) l) with (restore_storage (set_storage t id k v) id l).
  destruct (IH (set_storage t id k v)) as (E & Hne & Heq). split_and!.
  - rewrite E at 1. done.
  - intros i Hi. rewrite Hne by done. simpl. by rewrite lookup_insert_ne.
  - rewrite Heq. simpl. by rewrite lookup_insert_eq.
Qed.

Lemma foldl_insert_lookup (l : list (Z * Z)) (m : Storage) k :
  NoDup l.*1 ->
  foldl (fun m '(k, v) => <[k := v]> m) m l !! k =
    match (list_to_map l : Storage) !! k with Some v => Some v | None => m !! k end.
Proof.
  revert m. induction l as [|[k' v'] l IH]; intros m Hnd; simpl; [by rewrite lookup_empty|].
  apply NoDup_cons in Hnd as [Hk' Hnd]. rewrite IH by done. destruct (decide (k' = k)) as [->|Hne].
  - rewrite lookup_insert_eq. rewrite (not_elem_of_list_to_map_1 l k) by done.
    by rewrite lookup_insert_eq.
  - by rewrite !lookup_insert_ne by done.
Qed.

Lemma foldl_insert_entries (m : Storage) :
  foldl (fun m '(k, v) => <[k := v]> m) ∅ (entries m) = m.
Proof.
  apply map_eq. intros k. rewrite foldl_insert_lookup by apply NoDup_entries.
  rewrite (list_to_map_proper _ (map_to_list m)); [|apply NoDup_entries|apply entries_perm].
  rewrite list_to_map_to_list. destruct (m !! k); [done|]. apply lookup_empty.
Qed.

(** The root sees contract storage only through its entries. *)
Lemma compute_root_storage t store :
  (forall i, default ∅ (store !! i) = default ∅ (contract_storage t !! i)) ->
  compute_root sha256 (set_tiers t (accounts t) (stubs t) store) = compute_root sha256 t.
Proof.
  intros H. assert (leaf_map sha256 (set_tiers t (accounts t) (stubs t) store) = leaf_map sha256 t)
    as E.
  { unfold leaf_map, account_message. simpl. f_equal. apply map_imap_ext. intros i.
    destruct (accounts t !! i); simpl; [|done]. by rewrite !opt_storage_default, H. }
  unfold compute_root, state_leaves. by rewrite E.
Qed.

Lemma expire_resurrect_tree t id a slot new_slot :
  state_ok sha256 t -> accounts t !! id = Some a ->
  exists t2,
    resurrect_account sha256 (fst (expire_account sha256 t id slot))
      {| proof_account := a; proof_storage := default ∅ (contract_storage t !! id) |} new_slot
      = Ok t2 /\
    t2 = set_tiers t (<[id := set_last_touched a new_slot]> (accounts t)) (stubs t)
           (contract_storage t2) /\
    forall i, default ∅ (contract_storage t2 !! i) = default ∅ (contract_storage t !! i).
Proof.
  intros Hok Ha. pose proof Hok as [[Hid _ Hdis] []]. pose proof (Hid _ _ Ha) as Hia.
  subst id. unfold expire_account. rewrite Ha. unfold resurrect_account. cbn [fst].
  set (p := {| proof_account := a; proof_storage := _ |}).
  cbn [proof_account p stubs set_tiers]. rewrite lookup_insert_eq. cbn [ok_or rbind].
  assert (proof_verify sha256 p {| stub_id_com := acc_id_com a;
     stub_hash := compute_stub_hash sha256 a (contract_storage t !! acc_id_com a);
     stub_expired_at_slot := slot |} = true) as ->.
  { unfold proof_verify, compute_stub_hash, stub_preimage, p. simpl.
    rewrite opt_storage_default, !Z.eqb_refl. done. }
  cbn [negb]. eexists. split; [reflexivity|].
  match goal with |- context [restore_storage ?x ?i ?l] =>
    destruct (restore_storage_spec x i l) as (E & Hne & Heq); set (t2 := restore_storage x i l) in *
  end. split.
  - rewrite E at 1. unfold set_tiers, insert_account. simpl. rewrite lookup_delete_eq. simpl. f_equal.
    + by rewrite insert_delete_eq.
    + rewrite delete_delete_eq, delete_insert_eq. rewrite delete_id; [done|]. by apply Hdis.
    + by apply (reindex_restore acc_xid (accounts t) _ _ a).
    + by apply (reindex_restore (evm_key sha256) (accounts t) _ _ a).
    + by apply (reindex_restore (tron_key sha256) (accounts t) _ _ a).
    + by apply (reindex_restore acc_solana_address (accounts t) _ _ a).
    + by apply (reindex_restore acc_btc_address (accounts t) _ _ a).
    + by apply (reindex_restore acc_xaddress (accounts t) _ _ a).
  - intros i. destruct (decide (i = acc_id_com a)) as [->|Hi].
    + rewrite Heq. simpl. rewrite lookup_delete_eq. apply foldl_insert_entries.
    + rewrite Hne by done. simpl. by rewrite lookup_delete_ne.
Qed.
End resurrection.

(** Expiring a hot account and resurrecting it with its own data succeeds.
    In between the account, its storage and its addresses are gone and a stub
    stands for it; afterwards the account is back with the new touch slot, its
    storage, every index and all other accounts are as before, the state root
    is the one of a tree in which only the touch slot was written, and no
    further proof resurrects the account. *)
Theorem expire_resurrect_roundtrip sha256 t id a slot new_slot :
  state_ok sha256 t -> accounts t !! id = Some a ->
  let t1 := fst (expire_account sha256 t id slot) in
  (accounts t1 !! id = None /\ contract_storage t1 !! id = None /\ is_Some (stubs t1 !! id) /\
   evm_index t1 !! account_evm_address sha256 a = None) /\
  exists t2,
    resurrect_account sha256 t1
      {| proof_account := a; proof_storage := default ∅ (contract_storage t !! id) |} new_slot
      = Ok t2 /\
    accounts t2 = <[id := set_last_touched a new_slot]> (accounts t) /\
    stubs t2 = stubs t /\
    (forall i s, get_storage t2 i s = get_storage t i s) /\
    evm_index t2 = evm_index t /\ tron_index t2 = tron_index t /\ xid_index t2 = xid_index t /\
    solana_index t2 = solana_index t /\ btc_index t2 = btc_index t /\
    xaddress_index t2 = xaddress_index t /\
    compute_root sha256 t2 =
      compute_root sha256 (get_mut_update t id (fun a => set_last_touched a new_slot)) /\
    forall p s, acc_id_com (proof_account p) = id ->
      resurrect_account sha256 t2 p s = Err NotExpired.
Proof.
  intros Hok Ha. cbv zeta.
  destruct (expire_resurrect_tree sha256 t id a slot new_slot Hok Ha) as (t2 & Hr & E & Hs).
  split.
  { unfold expire_account. rewrite Ha. simpl. split_and!; [apply lookup_delete_eq|
      apply lookup_delete_eq|rewrite lookup_insert_eq; by eexists|apply lookup_delete_eq]. }
  exists t2. split_and!; [done|by rewrite E|by rewrite E| |by rewrite E|by rewrite E|by rewrite E|
    by rewrite E|by rewrite E|by rewrite E| |].
  - intros i s. unfold get_storage. specialize (Hs i).
    destruct (contract_storage t2 !! i), (contract_storage t !! i); simpl in *; subst; try done;
      by rewrite lookup_empty.
  - unfold get_mut_update. rewrite Ha, E.
    apply (compute_root_storage sha256 (set_tiers t (<[id := set_last_touched a new_slot]> (accounts t))
      (stubs t) (contract_storage t))). done.
  - intros p s Hp. unfold resurrect_account. rewrite Hp, E. simpl.
    destruct Hok as [[_ _ Hdis] _]. by rewrite (Hdis id) by by eexists.
Qed.

(* ------------------------------------------------------------------ *)
(** * Sweeping *)

(** The sum of the balances of the hot accounts. *)
Definition total_balance (t : StateTree) : Z :=
  map_fold (fun _ a acc => acc_balance a + acc) 0 (accounts t).

Section sweep.
Context (sha256 : list Z -> list Z).

Lemma total_balance_delete (accs : gmap AccountId Account) id a :
  accs !! id = Some a ->
  map_fold (fun _ a acc => acc_balance a + acc) 0 accs =
    acc_balance a + map_fold (fun _ a acc => acc_balance a + acc) 0 (delete id accs).
Proof.
  intros Ha. apply (map_fold_delete_L (fun _ a acc => acc_balance a + acc) 0 id a accs);
    [intros; lia|done].
Qed.

(** The stub [expire_account] leaves for [id]. *)
Definition stub_of (t : StateTree) (slot : Z) (id : AccountId) (a : Account) : AccountStub :=
  {| stub_id_com := id; stub_hash := compute_stub_hash sha256 a (contract_storage t !! id);
     stub_expired_at_slot := slot |}.

Lemma expire_list_spec l t slot :
  NoDup l -> (forall id, id ∈ l -> is_Some (accounts t !! id)) ->
  let t' := foldl (fun t id => fst (expire_account sha256 t id slot)) t l in
  (forall id, accounts t' !! id = if bool_decide (id ∈ l) then None else accounts t !! id) /\
  (forall id, stubs t' !! id =
     if bool_decide (id ∈ l) then stub_of t slot id <$> accounts t !! id else stubs t !! id) /\
  (size (accounts t') + length l = size (accounts t))%nat /\
  ((forall id a, id ∈ l -> accounts t !! id = Some a -> acc_balance a = 0) ->
   total_balance t' = total_balance t).
Proof.
  revert t. induction l as [|x l IH]; intros t Hnd Hl; cbv zeta.
  { cbn [foldl]. split_and!; [done|done|simpl; lia|done]. }
  apply NoDup_cons in Hnd as [Hx Hnd]. destruct (Hl x ltac:(by left)) as [a Ha].
  cbn [foldl]. set (t1 := fst (expire_account sha256 t x slot)).
  assert (accounts t1 = delete x (accounts t)) as Ea1
    by (unfold t1, expire_account; by rewrite Ha).
  assert (stubs t1 = <[x := stub_of t slot x a]> (stubs t)) as Es1
    by (unfold t1, expire_account; by rewrite Ha).
  assert (contract_storage t1 = delete x (contract_storage t)) as Ec1
    by (unfold t1, expire_account; by rewrite Ha).
  destruct (IH t1 Hnd) as (IHa & IHs & IHn & IHb).
  { intros i Hi. rewrite Ea1, lookup_delete_ne by (intros ->; done). apply Hl. by right. }
  split_and!.
  - intros i. rewrite IHa, Ea1. destruct (decide (i = x)) as [->|Hi].
    + rewrite lookup_delete_eq, (bool_decide_eq_true_2 (x ∈ x :: l)) by by left. by case_bool_decide.
    + rewrite lookup_delete_ne by done. rewrite (bool_decide_ext (i ∈ x :: l) (i ∈ l)); [done|].
      rewrite elem_of_cons. naive_solver.
  - intros i. rewrite IHs. destruct (decide (i = x)) as [->|Hi].
    + rewrite bool_decide_eq_false_2, bool_decide_eq_true_2 by (done || by left).
      by rewrite Es1, Ha, lookup_insert_eq.
    + rewrite (bool_decide_ext (i ∈ x :: l) (i ∈ l)) by (rewrite elem_of_cons; naive_solver).
      unfold stub_of. rewrite Ea1, Es1, Ec1, !lookup_delete_ne, lookup_insert_ne by done. done.
  - rewrite Ea1, map_size_delete_Some in IHn by by eexists.
    assert (size (accounts t) <> 0%nat) by (intros E%map_size_empty_iff; by rewrite E, lookup_empty in Ha).
    simpl. lia.
  - intros Hz. rewrite IHb.
    + unfold total_balance. rewrite Ea1, (total_balance_delete (accounts t) x a) by done.
      rewrite (Hz x a) by (done || by left). lia.
    + intros i b Hi Hb. rewrite Ea1 in Hb. apply lookup_delete_Some in Hb as [_ Hb].
      eapply Hz; [by right|done].
Qed.
End sweep.

(** The expiry rule as documented. *)
Definition expiry_due (current_slot period : Z) (a : Account) : Prop :=
  acc_last_touched_slot a + period < current_slot /\ acc_balance a = 0 /\ acc_code_hash a = None.

#[global] Instance expiry_due_dec current_slot period a : Decision (expiry_due current_slot period a).
Proof. unfold expiry_due. apply _. Defined.

Lemma expirable_due current_slot period a :
  0 <= acc_last_touched_slot a ->
  expirable (u64_saturating_sub current_slot period) a = true <-> expiry_due current_slot period a.
Proof.
  intros H. unfold expirable, expiry_due, u64_saturating_sub.
  rewrite !andb_true_iff, Z.ltb_lt, Z.eqb_eq, bool_decide_eq_true. split; intros; split_and!; lia || tauto.
Qed.

Lemma elem_of_sweep_list t current_slot period id :
  (forall i a, accounts t !! i = Some a -> 0 <= acc_last_touched_slot a) ->
  id ∈ map fst (List.filter (fun '(_, acct) =>
         expirable (u64_saturating_sub current_slot period) acct) (entries (accounts t))) <->
  exists a, accounts t !! id = Some a /\ expiry_due current_slot period a.
Proof.
  intros Hn. rewrite list_elem_of_fmap. split.
  - intros ([i a] & -> & Hi). apply list_elem_of_In, filter_In in Hi as [Hi Hx].
    apply list_elem_of_In, elem_of_entries in Hi. exists a. split; [done|].
    apply expirable_due in Hx; eauto.
  - intros (a & Ha & Hd). exists (id, a). split; [done|]. apply list_elem_of_In, filter_In.
    split; [by apply list_elem_of_In, elem_of_entries|]. apply expirable_due; eauto.
Qed.

Lemma NoDup_sweep_list {V} (f : Z * V -> bool) (l : list (Z * V)) :
  NoDup l.*1 -> NoDup (map fst (List.filter f l)).
Proof.
  induction l as [|x l IH]; simpl; intros Hnd; [done|]. apply NoDup_cons in Hnd as [Hx Hnd].
  destruct (f x); simpl; [|by apply IH]. apply NoDup_cons. split; [|by apply IH].
  intros (y & Hy & Hin)%list_elem_of_fmap. apply Hx. rewrite Hy. apply list_elem_of_fmap_2.
  apply list_elem_of_In in Hin. apply filter_In in Hin as [Hin _]. by apply list_elem_of_In.
Qed.

(** A sweep expires exactly the accounts the documentation names: those
    with [last_touched_slot + expiry_period < current_slot], no balance and no
    code.  Each is replaced by the stub of its data, every other account and
    stub stays, the number returned is the number of accounts expired, and the
    total balance of the hot accounts does not change. *)
Theorem sweep_expires_due sha256 t current_slot period :
  (forall i a, accounts t !! i = Some a -> 0 <= acc_last_touched_slot a) ->
  let '(t', n) := sweep_expired sha256 t current_slot period in
  (forall id a, accounts t' !! id = Some a <->
     accounts t !! id = Some a /\ ~ expiry_due current_slot period a) /\
  (forall id a, accounts t !! id = Some a -> expiry_due current_slot period a ->
     stubs t' !! id = Some (stub_of sha256 t current_slot id a)) /\
  (forall id, (forall a, accounts t !! id = Some a -> ~ expiry_due current_slot period a) ->
     stubs t' !! id = stubs t !! id) /\
  (n + size (accounts t') = size (accounts t))%nat /\
  total_balance t' = total_balance t.
Proof.
  intros Hn. unfold sweep_expired. cbv zeta.
  pose proof (fun id => elem_of_sweep_list t current_slot period id Hn) as Hel.
  pose proof (NoDup_sweep_list (fun '(_, acct) =>
    expirable (u64_saturating_sub current_slot period) acct) _ (NoDup_entries (accounts t))) as Hnd.
  set (l := map fst _) in *.
  destruct (expire_list_spec sha256 l t current_slot Hnd) as (Ha & Hs & Hsz & Hb).
  { intros id (a & ? & _)%Hel. by eexists. }
  split_and!; [| | |lia|].
  - intros id a. rewrite Ha. case_bool_decide as Hin; rewrite Hel in Hin.
    + split; [done|]. intros [Hx Hd]. destruct Hin as (b & Hb' & ?). congruence.
    + split; [|naive_solver]. intros Hx. split; [done|]. intros Hd. apply Hin. eauto.
  - intros id a Hx Hd. rewrite Hs, bool_decide_eq_true_2 by (apply Hel; eauto). by rewrite Hx.
  - intros id Hx. rewrite Hs, bool_decide_eq_false_2; [done|]. rewrite Hel.
    intros (a & ? & ?). by eapply Hx.
  - apply Hb. intros id a (b & Hb' & Hd)%Hel Hx. assert (b = a) as -> by congruence. apply Hd.
Qed.

(* ------------------------------------------------------------------ *)
(** * Two accounts with one address *)

(** The first account to claim an EVM address keeps it when a second account
    with the same address is inserted, but loses it as soon as that second
    account is written again: [insert] drops the entry of the address without
    looking whose it is and then claims it.  Removing the second account instead
    leaves the address resolving to nobody while its owner is hot. *)
Theorem rewrite_takes_address sha256 t a b :
  state_ok sha256 t -> accounts t !! acc_id_com a = Some a -> accounts t !! acc_id_com b = None ->
  acc_id_com a <> acc_id_com b ->
  account_evm_address sha256 b = account_evm_address sha256 a ->
  let addr := account_evm_address sha256 a in
  let t1 := insert_account sha256 t b in
  evm_index t !! addr = Some (acc_id_com a) /\
  evm_index t1 !! addr = Some (acc_id_com a) /\
  evm_index (insert_account sha256 t1 b) !! addr = Some (acc_id_com b) /\
  evm_index (fst (remove_account sha256 t1 (acc_id_com b))) !! addr = None /\
  accounts (fst (remove_account sha256 t1 (acc_id_com b))) !! acc_id_com a = Some a.
Proof.
  intros [_ Hix] Ha Hb Hne Haddr. cbv zeta.
  assert (evm_index t !! account_evm_address sha256 a = Some (acc_id_com a)) as E0.
  { by apply (idx_ok_resolve (evm_key sha256) (accounts t) _ _ a _ (ok_evm _ _ Hix)). }
  assert (evm_index (insert_account sha256 t b) = evm_index t) as E1.
  { simpl. rewrite Hb. unfold reindex. simpl. rewrite Haddr, E0.
    by rewrite (proj2 (Z.eqb_neq _ _) Hne). }
  split_and!; [done|by rewrite E1| | |].
  - set (t1 := insert_account sha256 t b) in *.
    assert (accounts t1 !! acc_id_com b = Some b) as Hb1 by (simpl; by rewrite lookup_insert_eq).
    clearbody t1. simpl. rewrite Hb1, E1. unfold reindex. simpl. rewrite Haddr, lookup_delete_eq.
    by rewrite lookup_insert_eq.
  - unfold remove_account. simpl. rewrite lookup_insert_eq. simpl.
    unfold unindex. rewrite Haddr. apply lookup_delete_eq.
  - unfold remove_account. simpl. rewrite lookup_insert_eq. simpl.
    rewrite lookup_delete_ne, lookup_insert_ne by done. done.
Qed.

(* ------------------------------------------------------------------ *)
(** * Replay commitments *)

Lemma expire_registry sha256 t id slot :
  zk_replay_registry (fst (expire_account sha256 t id slot)) = zk_replay_registry t.
Proof. unfold expire_account. by destruct (accounts t !! id). Qed.

Lemma sweep_registry sha256 t slot period :
  zk_replay_registry (fst (sweep_expired sha256 t slot period)) = zk_replay_registry t.
Proof.
  unfold sweep_expired. simpl. generalize (map fst (List.filter
    (fun '(_, acct) => expirable (u64_saturating_sub slot period) acct) (entries (accounts t)))).
  intros l. revert t. induction l as [|id l IH]; intros t; [done|].
  cbn [foldl]. by rewrite IH, expire_registry.
Qed.

Lemma apply_op_registry sha256 t op rp :
  zk_replay_contains t rp = true -> zk_replay_contains (apply_op sha256 t op) rp = true.
Proof.
  intros Hc. destruct op; cbn [apply_op]; try done.
  - unfold get_mut_update. by case_match.
  - unfold remove_account. by case_match.
  - unfold zk_replay_contains. by rewrite expire_registry.
  - unfold resurrect_account. destruct (stubs t !! _); simpl; [|done].
    destruct (proof_verify _ _ _); simpl; [|done].
    match goal with |- context [restore_storage ?x ?i ?l] =>
      destruct (restore_storage_spec x i l) as (-> & _) end. done.
  - unfold zk_replay_contains. by rewrite sweep_registry.
  - unfold set_code. by case_match.
  - unfold zk_replay_consume. case_match; [done|]. simpl. unfold zk_replay_contains in *. simpl.
    apply bool_decide_eq_true in Hc. apply bool_decide_eq_true. rewrite lookup_insert_is_Some'. by right.
Qed.

(** A replay-prevention commitment is consumed at most once: after it has
    been consumed, and whatever operations follow (inserting, expiring,
    resurrecting accounts, consuming other commitments, ...), consuming it again
    is refused and changes nothing. *)
Theorem replay_consumed_once sha256 t rp idcom t1 ops idcom' :
  zk_replay_consume t rp idcom = (t1, true) ->
  let t2 := foldl (apply_op sha256) t1 ops in
  zk_replay_contains t rp = false /\ zk_replay_consume t2 rp idcom' = (t2, false).
Proof.
  intros Hc. cbv zeta. unfold zk_replay_consume in Hc.
  destruct (zk_replay_contains t rp) eqn:E; [done|]. injection Hc as <-. split; [done|].
  match goal with |- context [foldl _ ?x ops] => assert (zk_replay_contains x rp = true) as H1 end.
  { unfold zk_replay_contains. simpl. apply bool_decide_eq_true. rewrite lookup_insert_eq. by eexists. }
  revert H1. generalize (set_registries t (hfi_intents t) (hfi_recipients t) (hfi_idcom_index t)
    (<[rp := idcom]> (zk_replay_registry t))).
  induction ops as [|op ops IH]; intros u Hu.
  - cbn [foldl]. unfold zk_replay_consume. by rewrite Hu.
  - cbn [foldl]. apply IH. by apply apply_op_registry.
Qed.

(* ------------------------------------------------------------------ *)
(** * Concrete trees *)

Module SampleTree.
Definition sha := SampleDigest.sample_sha256.
Definition alice : Account := with_evm_address 5 77.
Definition bob : Account := with_balance 6 100.
Definition ops : list TreeOp :=
  [OpInsert alice; OpInsert bob; OpUpdate 6 (fun a => set_balance a 90); OpSetStorage 5 1 10;
   OpInsertStub {| stub_id_com := 8; stub_hash := 3; stub_expired_at_slot := 1 |}].
Definition tree : StateTree := foldl (apply_op sha) state_new ops.

Lemma alice_free : no_alias_clash sha state_new alice.
Proof. split; intros i b Hb; cbn [accounts state_new] in Hb; by rewrite lookup_empty in Hb. Qed.

Lemma bob_free : no_alias_clash sha (insert_account sha state_new alice) bob.
Proof.
  split; intros i b Hb _ Hk E; unfold insert_account in Hb;
    cbn [accounts state_new] in Hb;
    apply lookup_insert_Some in Hb as [[<- <-]|[_ Hb]];
    try (rewrite lookup_empty in Hb; discriminate Hb);
    first [by destruct Hk|vm_compute in E; discriminate E].
Qed.

Lemma ops_fine : ops_ok sha state_new ops.
Proof.
  cbn [ops ops_ok op_ok]. split_and!; [apply alice_free|apply bob_free| |done|vm_compute; reflexivity|done].
  intros a _. by split.
Qed.

Lemma tree_ok : state_ok sha tree.
Proof. apply run_ops_ok; [apply state_new_ok|apply ops_fine]. Qed.
End SampleTree.

Lemma addresses_resolve_witness :
  resolve_evm_account_id SampleTree.sha SampleTree.tree 77 = Some 5 /\
  evm_index SampleTree.tree !! 77 = Some 5.
Proof.
  destruct (addresses_resolve SampleTree.sha SampleTree.ops SampleTree.tree
    SampleTree.ops_fine eq_refl) as [H Hix].
  destruct (H 5 SampleTree.alice) as (_ & _ & Hr & _); [vm_compute; reflexivity|]. split; [exact Hr|].
  apply (ok_evm _ _ Hix). exists SampleTree.alice. split; vm_compute; reflexivity.
Defined.

Lemma expire_resurrect_roundtrip_witness :
  exists t2,
    resurrect_account SampleTree.sha (fst (expire_account SampleTree.sha SampleTree.tree 5 40))
      {| proof_account := SampleTree.alice; proof_storage := <[1 := 10]> ∅ |} 50 = Ok t2 /\
    get_storage t2 5 1 = 10.
Proof.
  assert (accounts SampleTree.tree !! 5 = Some SampleTree.alice) as Ha by (vm_compute; reflexivity).
  destruct (expire_resurrect_roundtrip SampleTree.sha SampleTree.tree 5 SampleTree.alice 40 50
    SampleTree.tree_ok Ha) as (_ & t2 & Hr & _ & _ & Hs & _).
  exists t2. split; [exact Hr|]. rewrite Hs. vm_compute. reflexivity.
Defined.

Lemma sweep_expires_due_witness :
  let '(t', n) := sweep_expired SampleTree.sha SampleTree.tree 40 30 in
  accounts t' !! 5 = None /\ accounts t' !! 6 = Some (set_balance SampleTree.bob 90) /\
  total_balance t' = 90.
Proof.
  assert (forall i a, accounts SampleTree.tree !! i = Some a -> 0 <= acc_last_touched_slot a) as Hn.
  { change (accounts SampleTree.tree) with
      (<[6 := set_balance SampleTree.bob 90]> (<[6 := SampleTree.bob]>
         (<[5 := SampleTree.alice]> (∅ : gmap AccountId Account)))).
    intros i a [[_ <-]|[_ [[_ <-]|[_ [[_ <-]|[_ H]]%lookup_insert_Some]]%lookup_insert_Some]]%lookup_insert_Some;
      [done|done|done|by rewrite lookup_empty in H]. }
  pose proof (sweep_expires_due SampleTree.sha SampleTree.tree 40 30 Hn) as H.
  destruct (sweep_expired _ _ _ _) as [t' n]. destruct H as (Ha & _ & _ & _ & Hb). split_and!.
  - destruct (accounts t' !! 5) as [a|] eqn:E; [|done]. apply Ha in E as [E Hd].
    assert (accounts SampleTree.tree !! 5 = Some SampleTree.alice) as E5 by (vm_compute; reflexivity).
    rewrite E5 in E. injection E as <-.
    exfalso. apply Hd. split_and!; [vm_compute; reflexivity|done|done].
  - apply Ha. split; [vm_compute; reflexivity|]. intros (_ & Hz & _). vm_compute in Hz. discriminate.
  - rewrite Hb. vm_compute. reflexivity.
Defined.

Lemma rewrite_takes_address_witness :
  let carol := with_evm_address 9 77 in
  let t1 := insert_account SampleTree.sha SampleTree.tree carol in
  evm_index t1 !! 77 = Some 5 /\
  evm_index (insert_account SampleTree.sha t1 carol) !! 77 = Some 9.
Proof.
  cbv zeta.
  destruct (rewrite_takes_address SampleTree.sha SampleTree.tree SampleTree.alice
    (with_evm_address 9 77) SampleTree.tree_ok) as (_ & H1 & H2 & _);
    [vm_compute; reflexivity|vm_compute; reflexivity|done|done|].
  split; [exact H1|exact H2].
Defined.

Lemma replay_consumed_once_witness :
  snd (zk_replay_consume
    (foldl (apply_op SampleTree.sha) (fst (zk_replay_consume state_new 3 5)) SampleTree.ops) 3 6)
  = false.
Proof.
  destruct (replay_consumed_once SampleTree.sha state_new 3 5
    (fst (zk_replay_consume state_new 3 5)) SampleTree.ops 6 eq_refl) as [_ E].
  rewrite E. reflexivity.
Defined.
