(* ===== verification/Slots.v ===== *)
(** Storage slots as words: the 64-bit numbers and bytes inside a 32-byte slot
    value, what reading returns after a write, and the chunks a longer byte string
    is stored in. *)

From S2P Require Import Prelude SigAlgo Account StateTree.
Local Open Scope Z_scope.

(** [value[from..from + 8]] of a slot value as a number, and one byte of it. *)
Definition u64_at (value : Z) (from : nat) : Z := le_num (take 8 (drop from (be_bytes 32 value))).
Definition byte_of (value : Z) (i : nat) : Z := default 0 (be_bytes 32 value !! i).

Definition slot_u64 (t : StateTree) (owner : AccountId) (slot : Z) : Z :=
  u64_at (get_storage t owner slot) 0.
Definition write_slot_u64 (t : StateTree) (owner : AccountId) (slot value : Z) : StateTree :=
  set_storage t owner slot (be_num (le_bytes 8 value ++ replicate 24 0)).

Lemma value_bytes l : length l = 32%nat -> Forall is_byte l -> be_bytes 32 (be_num l) = l.
Proof. intros H Hb. rewrite <-H. by apply be_bytes_num. Qed.

Lemma u64_at_range v i : (i <= 24)%nat -> is_u64 (u64_at v i).
Proof.
  intros Hi. unfold u64_at. set (l := take 8 (drop i (be_bytes 32 v))).
  assert (Forall is_byte l) as Hb by apply Forall_take, Forall_drop, be_bytes_byte.
  pose proof (le_num_range l Hb) as H. unfold is_u64, u64_max.
  assert (length l = 8%nat) as E by (unfold l; rewrite length_take, length_drop, length_be_bytes; lia).
  rewrite E in H. cbn in H. lia.
Qed.

Lemma u64_at_write v : is_u64 v -> u64_at (be_num (le_bytes 8 v ++ replicate 24 0)) 0 = v.
Proof.
  intros Hv. unfold u64_at. rewrite value_bytes.
  - rewrite drop_0, take_app_length' by (by rewrite length_le_bytes). apply le_num_bytes.
    unfold is_u64, u64_max in Hv. cbn. lia.
  - by rewrite length_app, length_le_bytes.
  - apply Forall_app. split; [apply le_bytes_byte|]. by repeat constructor.
Qed.

Lemma get_set_storage t id slot v : get_storage (set_storage t id slot v) id slot = v.
Proof. unfold get_storage, set_storage. cbn. by rewrite lookup_insert_eq; cbn; rewrite lookup_insert_eq. Qed.

Lemma get_set_storage_ne t id id' slot slot' v :
  id <> id' \/ slot <> slot' ->
  get_storage (set_storage t id slot v) id' slot' = get_storage t id' slot'.
Proof.
  intros H. unfold get_storage, set_storage. cbn. destruct (decide (id = id')) as [->|Hid].
  - destruct H as [?|H]; [done|]. rewrite lookup_insert_eq. cbn.
    rewrite lookup_insert_ne by done. by destruct (contract_storage t !! id').
  - by rewrite lookup_insert_ne.
Qed.

Lemma slot_u64_range owner t slot : is_u64 (slot_u64 t owner slot).
Proof. apply u64_at_range. lia. Qed.

(* ------------------------------------------------------------------ *)
(** * Byte strings in slots *)

(** [bytes.chunks(32)]. *)
Fixpoint chunks32 (fuel : nat) (bytes : list Z) : list (list Z) :=
  match fuel with
  | O => []
  | S fuel => match bytes with [] => [] | _ => take 32 bytes :: chunks32 fuel (drop 32 bytes) end
  end.

(** A chunk as a slot value, filled up with zeros. *)
Definition chunk_value (chunk : list Z) : Z := be_num (take 32 (chunk ++ replicate 32 0)).

Lemma chunk_value_bytes chunk :
  Forall is_byte chunk -> (length chunk <= 32)%nat ->
  be_bytes 32 (chunk_value chunk) = chunk ++ replicate (32 - length chunk) 0.
Proof.
  intros Hb Hl. unfold chunk_value.
  assert (take 32 (chunk ++ replicate 32 0) = chunk ++ replicate (32 - length chunk) 0) as E.
  { rewrite take_app, take_ge by lia. by rewrite take_replicate, Nat.min_l by lia. }
  rewrite E. apply value_bytes.
  - rewrite length_app, length_replicate. lia.
  - apply Forall_app. split; [done|]. apply Forall_replicate. unfold is_byte. lia.
Qed.

(** What [chunks] leave when they are read back: the bytes, filled up at the end. *)
Lemma chunks32_concat fuel bytes :
  (length bytes <= fuel)%nat -> Forall is_byte bytes ->
  exists pad, concat ((fun c => be_bytes 32 (chunk_value c)) <$> chunks32 fuel bytes) = bytes ++ pad /\
    (32 * length (chunks32 fuel bytes) = length (bytes ++ pad))%nat /\
    (length (chunks32 fuel bytes) <= length bytes)%nat /\
    (bytes <> [] -> chunks32 fuel bytes <> []).
Proof.
  revert bytes. induction fuel as [|fuel IH]; intros bytes Hl Hb.
  { destruct bytes; cbn in Hl; [|lia]. by exists []. }
  cbn [chunks32]. destruct bytes as [|b bytes]; [by exists []|]. set (l := b :: bytes) in *.
  destruct (IH (drop 32 l)) as (pad & E & Hlen & Hle & _).
  { rewrite length_drop. cbn in *. lia. }
  { by apply Forall_drop. }
  cbn [fmap list_fmap concat length]. rewrite E.
  rewrite chunk_value_bytes by (first [by apply Forall_take|rewrite length_take; lia]).
  destruct (decide (length l <= 32)%nat) as [Hs|Hs].
  - exists (replicate (32 - length l) 0 ++ pad).
    rewrite take_ge, drop_ge in * by lia. rewrite length_app in Hlen.
    split_and!; [by rewrite <-app_assoc| |cbn in *; lia|done].
    rewrite !length_app, length_replicate. cbn in Hlen. lia.
  - exists pad. rewrite length_take, Nat.min_l, Nat.sub_diag by lia. cbn [replicate]. rewrite app_nil_r.
    split_and!; [by rewrite app_assoc, take_drop| | |done].
    + rewrite length_app, length_drop in Hlen. rewrite length_app. lia.
    + rewrite length_drop in Hle. lia.
Qed.
