(* ===== verification/StateRoot.v ===== *)
(** The Merkle root of the state tree ([compute_root] of
    ace-model/src/state_tree.rs) commits to the state.

    The reduction loop always ends with one hash; over equally many leaves it
    is injective as long as the messages it hashes do not collide; hence two
    states over the same keys with the same root hold the same accounts,
    storage, stubs, intents, recipients and replay commitments. *)

From S2P Require Import Prelude SigAlgo Account StateTree.
Local Open Scope Z_scope.
Local Open Scope ace_scope.

(* ------------------------------------------------------------------ *)
(** * The reduction loop *)

(** Induction two elements at a time. *)
Lemma list_pair_ind {A} (P : list A -> Prop) :
  P [] -> (forall a, P [a]) -> (forall a b l, P l -> P (a :: b :: l)) -> forall l, P l.
Proof.
  intros H0 H1 H2 l. enough (P l /\ forall a, P (a :: l)) as [? _] by done.
  induction l as [|a l [IHl IHa]]; [split; [done|apply H1]|]. split; [apply IHa|].
  intros b. by apply H2.
Qed.

Section merkle.
Context (sha256 : list Z -> list Z) (Hsha : digest_shape sha256).

(** The messages hashed by [merkle_loop]. *)
Fixpoint loop_messages (fuel : nat) (hashes : list Hash) : list (list Z) :=
  match hashes with
  | [] | [_] => []
  | _ =>
      match fuel with
      | O => []
      | S fuel => level_messages hashes ++ loop_messages fuel (next_level sha256 hashes)
      end
  end.

Lemma length_level_messages l :
  (2 * length (level_messages l) = length l \/ 2 * length (level_messages l) = length l + 1)%nat.
Proof. induction l as [|a|a b l IH] using list_pair_ind; simpl in *; lia. Qed.

Lemma length_next_level l : length (next_level sha256 l) = length (level_messages l).
Proof. apply length_fmap. Qed.

Lemma merkle_loop_total fuel l :
  (length l <= fuel)%nat -> l <> [] -> is_Some (merkle_loop sha256 fuel l).
Proof.
  revert l. induction fuel as [|fuel IH]; intros [|a [|b l]] Hlen Hne; try done; [simpl in Hlen; lia|].
  cbn [merkle_loop]. pose proof (length_level_messages (a :: b :: l)) as Hl.
  apply IH; [rewrite length_next_level; simpl in *; lia|].
  intros E%(f_equal length). rewrite length_next_level in E. simpl in *; lia.
Qed.

Lemma node_message_inj a b c d :
  is_u256 a -> is_u256 b -> is_u256 c -> is_u256 d ->
  node_message a b = node_message c d -> a = c /\ b = d.
Proof.
  intros Ha Hb Hc Hd E. unfold node_message in E.
  apply (be_bytes_prefix 32) in E as [-> E]; [|done|done]. split; [done|].
  by apply (be_bytes_inj 32).
Qed.

Lemma level_messages_inj l k :
  length l = length k -> Forall is_u256 l -> Forall is_u256 k ->
  level_messages l = level_messages k -> l = k.
Proof.
  revert k. induction l as [|a|a b l IH] using list_pair_ind;
    intros [|c [|d k]] Hlen Hl Hk E; try done; rewrite ?Forall_cons in *.
  - apply cons_eq_inj in E as [E _]. destruct Hl, Hk. by apply node_message_inj in E as [-> _].
  - apply cons_eq_inj in E as [E1 E2]. destruct Hl as (? & ? & ?), Hk as (? & ? & ?).
    apply node_message_inj in E1 as [-> ->]; try done.
    rewrite (IH k); [done|simpl in Hlen; lia|done..].
Qed.

Lemma next_level_ok l : Forall is_u256 (next_level sha256 l).
Proof. apply Forall_fmap, Forall_forall. intros m _. by apply digest_range. Qed.

Lemma digests_inj (ms ns : list (list Z)) :
  collision_free sha256 (ms ++ ns) -> digest sha256 <$> ms = digest sha256 <$> ns -> ms = ns.
Proof.
  intros Hcf. revert ns Hcf. induction ms as [|m ms IH]; intros [|n ns] Hcf E; try done.
  simplify_eq/=. f_equal.
  - apply Hcf; [set_solver|set_solver|by apply digest_eq].
  - apply IH; [|done]. intros x y Hx Hy. apply Hcf; set_solver.
Qed.

Lemma next_level_inj l k :
  length l = length k -> Forall is_u256 l -> Forall is_u256 k ->
  collision_free sha256 (level_messages l ++ level_messages k) ->
  next_level sha256 l = next_level sha256 k -> l = k.
Proof. intros Hlen Hl Hk Hcf E%digests_inj; [|done]. by apply level_messages_inj. Qed.

Lemma collision_free_sub ms ns :
  (forall m, m ∈ ns -> m ∈ ms) -> collision_free sha256 ms -> collision_free sha256 ns.
Proof. intros Hsub Hcf x y Hx Hy. apply Hcf; auto. Qed.

Lemma merkle_loop_inj fuel l k h :
  length l = length k -> Forall is_u256 l -> Forall is_u256 k ->
  collision_free sha256 (loop_messages fuel l ++ loop_messages fuel k) ->
  merkle_loop sha256 fuel l = Some h -> merkle_loop sha256 fuel k = Some h -> l = k.
Proof.
  revert l k. induction fuel as [|fuel IH]; intros [|a [|b l]] [|c [|d k]] Hlen Hl Hk Hcf El Ek;
    try done; cbn [merkle_loop] in El, Ek; try congruence.
  cbn [loop_messages] in Hcf.
  apply next_level_inj; [done|done|done| |].
  - eapply collision_free_sub; [|done]. intros m. rewrite !elem_of_app. tauto.
  - apply IH; [|apply next_level_ok|apply next_level_ok| |done|done].
    + rewrite !length_next_level. pose proof (length_level_messages (a :: b :: l)).
      pose proof (length_level_messages (c :: d :: k)). simpl in *. lia.
    + eapply collision_free_sub; [|done]. intros m. rewrite !elem_of_app. tauto.
Qed.
End merkle.

(* ------------------------------------------------------------------ *)
(** * The root commits to the state *)

(** The value ranges of the tree's types. *)
Record tree_typed (t : StateTree) : Prop := {
  typed_accounts : forall id a, accounts t !! id = Some a -> account_ok a;
  typed_storage : forall id, storage_ok (default ∅ (contract_storage t !! id));
  typed_stubs : forall id s, stubs t !! id = Some s -> is_u256 (stub_hash s);
  typed_replay : forall k v, zk_replay_registry t !! k = Some v -> is_u256 v;
}.

(** Two trees with the same keys in every hashed map. *)
Record same_domains (t u : StateTree) : Prop := {
  dom_accounts : forall k, is_Some (accounts t !! k) <-> is_Some (accounts u !! k);
  dom_stubs : forall k, is_Some (stubs t !! k) <-> is_Some (stubs u !! k);
  dom_intents : forall k, is_Some (hfi_intents t !! k) <-> is_Some (hfi_intents u !! k);
  dom_recipients : forall k, is_Some (hfi_recipients t !! k) <-> is_Some (hfi_recipients u !! k);
  dom_replay : forall k, is_Some (zk_replay_registry t !! k) <-> is_Some (zk_replay_registry u !! k);
}.

Section binding.
Context (sha256 : list Z -> list Z) (Hsha : digest_shape sha256).

(** Every message hashed to compute the root of [t]. *)
Definition root_messages (t : StateTree) : list (list Z) :=
  ((fun e => account_message sha256 t e.1 e.2) <$> entries (accounts t)) ++
  (intent_message <$> entries (hfi_intents t)) ++
  (recipient_message <$> entries (hfi_recipients t)) ++
  (replay_message <$> entries (zk_replay_registry t)) ++
  loop_messages sha256 (length (state_leaves sha256 t)) (state_leaves sha256 t).

Lemma leaf_map_hot t id a :
  accounts t !! id = Some a ->
  leaf_map sha256 t !! id = Some (digest sha256 (account_message sha256 t id a)).
Proof.
  intros Ha. unfold leaf_map. apply lookup_union_Some_l. by rewrite map_lookup_imap, Ha.
Qed.

Lemma leaf_map_cold t id :
  accounts t !! id = None -> leaf_map sha256 t !! id = stub_hash <$> stubs t !! id.
Proof.
  intros Ha. unfold leaf_map. rewrite lookup_union_r; [apply lookup_fmap|].
  by rewrite map_lookup_imap, Ha.
Qed.

Lemma leaf_map_dom t u :
  same_domains t u -> forall k, is_Some (leaf_map sha256 t !! k) <-> is_Some (leaf_map sha256 u !! k).
Proof.
  intros [Ha Hs _ _ _] k. destruct (accounts t !! k) as [a|] eqn:E1, (accounts u !! k) as [b|] eqn:E2.
  - rewrite (leaf_map_hot t k a), (leaf_map_hot u k b) by done. by split; eexists.
  - specialize (Ha k). rewrite E1, E2 in Ha. destruct (proj1 Ha ltac:(by eexists)). done.
  - specialize (Ha k). rewrite E1, E2 in Ha. destruct (proj2 Ha ltac:(by eexists)). done.
  - rewrite !leaf_map_cold by done. rewrite !fmap_is_Some. apply Hs.
Qed.

Lemma entries_length {V W} (m1 : gmap Z V) (m2 : gmap Z W) :
  (forall k, is_Some (m1 !! k) <-> is_Some (m2 !! k)) -> length (entries m1) = length (entries m2).
Proof.
  intros H%entries_keys_eq%(f_equal length). by rewrite !length_fmap in H.
Qed.

Lemma length_state_leaves t u :
  same_domains t u -> length (state_leaves sha256 t) = length (state_leaves sha256 u).
Proof.
  intros Hd. unfold state_leaves. rewrite !length_app, !length_fmap.
  rewrite (entries_length _ _ (leaf_map_dom t u Hd)), (entries_length _ _ (dom_intents _ _ Hd)),
    (entries_length _ _ (dom_recipients _ _ Hd)), (entries_length _ _ (dom_replay _ _ Hd)). done.
Qed.

Lemma state_leaves_ok t : tree_typed t -> Forall is_u256 (state_leaves sha256 t).
Proof.
  intros Ht. unfold state_leaves. rewrite !Forall_app, !Forall_fmap. split_and!;
    try (apply Forall_forall; intros; by apply digest_range).
  apply Forall_forall. intros [k v] Hkv%elem_of_entries. simpl.
  destruct (accounts t !! k) as [a|] eqn:E.
  - rewrite (leaf_map_hot t k a E) in Hkv. simplify_eq. by apply digest_range.
  - rewrite leaf_map_cold in Hkv by done. apply fmap_Some in Hkv as (s & Hs & ->).
    by eapply typed_stubs.
Qed.

(** Two keyed lists with the same keys and the same digests. *)
Lemma keyed_digests {V} (f : Z * V -> list Z) (m1 m2 : gmap Z V) :
  (forall k, is_Some (m1 !! k) <-> is_Some (m2 !! k)) ->
  collision_free sha256 ((f <$> entries m1) ++ (f <$> entries m2)) ->
  (forall k v w, m1 !! k = Some v -> m2 !! k = Some w -> f (k, v) = f (k, w) -> v = w) ->
  digest sha256 ∘ f <$> entries m1 = digest sha256 ∘ f <$> entries m2 -> m1 = m2.
Proof.
  intros Hk Hcf Hf E. rewrite !list_fmap_compose in E.
  apply (digests_inj sha256 Hsha) in E; [|done]. apply entries_keys_eq in Hk.
  apply entries_inj.
  assert (forall k v, (k, v) ∈ entries m1 -> m1 !! k = Some v) as H1 by (by intros; apply elem_of_entries).
  assert (forall k v, (k, v) ∈ entries m2 -> m2 !! k = Some v) as H2 by (by intros; apply elem_of_entries).
  clear Hcf. revert Hk E H1 H2. generalize (entries m1) (entries m2).
  induction l as [|[k v] l IH]; intros [|[k' v'] l'] Hk E H1 H2; try done.
  apply cons_eq_inj in Hk as [Hk Hk']. apply cons_eq_inj in E as [E E']. simpl in Hk. subst k'.
  rewrite (Hf k v v'); [|apply H1; by left|apply H2; by left|done].
  rewrite (IH l'); [done|done|done| |]; intros; [apply H1|apply H2]; by right.
Qed.

Lemma state_is_empty_leaves t : state_is_empty t = true -> state_leaves sha256 t = [].
Proof.
  unfold state_is_empty. intros H. bool_prop. unfold state_leaves, leaf_map.
  repeat match goal with E : _ = ∅ |- _ => rewrite E; clear E end. done.
Qed.

(** Equal roots over the same keys come from equal leaves. *)
Lemma root_leaves t u h :
  tree_typed t -> tree_typed u -> same_domains t u ->
  collision_free sha256 (root_messages t ++ root_messages u) ->
  compute_root sha256 t = Some h -> compute_root sha256 u = Some h ->
  state_leaves sha256 t = state_leaves sha256 u.
Proof.
  intros Ht Hu Hd Hcf Et Eu. pose proof (length_state_leaves t u Hd) as Hlen.
  unfold compute_root in Et, Eu.
  destruct (state_is_empty t) eqn:E1.
  { rewrite (state_is_empty_leaves t E1) in *. symmetry in Hlen. by apply nil_length_inv in Hlen. }
  destruct (state_is_empty u) eqn:E2.
  { rewrite (state_is_empty_leaves u E2) in *. by apply nil_length_inv in Hlen. }
  eapply (merkle_loop_inj sha256 Hsha (length (state_leaves sha256 t)));
    [done|by apply state_leaves_ok|by apply state_leaves_ok| |done|by rewrite Hlen].
  eapply collision_free_sub; [|done]. unfold root_messages. rewrite <-Hlen.
  intros m. rewrite !elem_of_app. tauto.
Qed.
End binding.

Lemma entries_nil {V} (m : gmap Z V) : entries m = [] -> m = ∅.
Proof. intros E. apply entries_inj. rewrite E. done. Qed.

Lemma state_leaves_nil sha256 t : state_leaves sha256 t = [] -> state_is_empty t = true.
Proof.
  unfold state_leaves. intros [El [Ei [Er Ez]%app_eq_nil]%app_eq_nil]%app_eq_nil.
  apply fmap_nil_inv, entries_nil in El, Ei, Er, Ez.
  assert (forall k, leaf_map sha256 t !! k = None) as Hl by (intros k; by rewrite El, lookup_empty).
  assert (forall k, accounts t !! k = None) as Ha.
  { intros k. destruct (accounts t !! k) as [a|] eqn:E; [|done].
    specialize (Hl k). by rewrite (leaf_map_hot sha256 t k a) in Hl. }
  assert (accounts t = ∅) as Ea by (apply map_eq; intros k; by rewrite Ha, lookup_empty).
  assert (stubs t = ∅) as Es.
  { apply map_eq. intros k. specialize (Hl k). rewrite leaf_map_cold in Hl by done.
    rewrite lookup_empty. by destruct (stubs t !! k). }
  unfold state_is_empty. by rewrite Ea, Es, Ei, Er, Ez.
Qed.

(** [compute_root] always returns a root: the reduction loop ends with a single
    hash within as many levels as there are leaves. *)
Lemma compute_root_total sha256 t : is_Some (compute_root sha256 t).
Proof.
  unfold compute_root. destruct (state_is_empty t) eqn:E; [by eexists|].
  apply merkle_loop_total; [done|]. intros En. by rewrite (state_leaves_nil sha256 t En) in E.
Qed.

(** C14. The root exists and commits to the whole hashed state.  If two states with the same
    account ids, stub ids, intent ids, recipient ids and replay commitments have
    the same root, and no two of the messages hashed for them collide, then every
    hot account agrees in all hashed fields, every storage map, every stub hash,
    every intent, every recipient and every replay entry is the same. *)
Theorem state_root_binding sha256 t u :
  digest_shape sha256 -> tree_typed t -> tree_typed u -> same_domains t u ->
  collision_free sha256 (root_messages sha256 t ++ root_messages sha256 u) ->
  is_Some (compute_root sha256 t) /\
  (compute_root sha256 t = compute_root sha256 u ->
  (forall id a b, accounts t !! id = Some a -> accounts u !! id = Some b ->
     same_hashed sha256 a b /\
     default ∅ (contract_storage t !! id) = default ∅ (contract_storage u !! id)) /\
  (forall id s r, accounts t !! id = None -> stubs t !! id = Some s -> stubs u !! id = Some r ->
     stub_hash s = stub_hash r) /\
  hfi_intents t = hfi_intents u /\ hfi_recipients t = hfi_recipients u /\
  zk_replay_registry t = zk_replay_registry u).
Proof.
  intros Hsha Ht Hu Hd Hcf. destruct (compute_root_total sha256 t) as [h Et].
  split; [by eexists|]. intros Eu. rewrite Et in Eu. symmetry in Eu.
  pose proof (root_leaves sha256 Hsha t u h Ht Hu Hd Hcf Et Eu) as E. unfold state_leaves in E.
  apply app_inj_1 in E as [El E]; [|rewrite !length_fmap; by apply entries_length, leaf_map_dom].
  apply app_inj_1 in E as [Ei E]; [|rewrite !length_fmap; by apply entries_length, dom_intents].
  apply app_inj_1 in E as [Er Ez]; [|rewrite !length_fmap; by apply entries_length, dom_recipients].
  assert (leaf_map sha256 t = leaf_map sha256 u) as Hleaf.
  { apply entries_eq; [|done]. by apply entries_keys_eq, leaf_map_dom. }
  assert (forall ms ns, (forall m, m ∈ ms -> m ∈ root_messages sha256 t) ->
    (forall m, m ∈ ns -> m ∈ root_messages sha256 u) -> collision_free sha256 (ms ++ ns)) as Hsub.
  { intros ms ns Hm Hn. eapply collision_free_sub; [|done]. intros m. rewrite !elem_of_app. naive_solver. }
  unfold root_messages in Hsub.
  split_and!.
  - intros id a b Ha Hb. pose proof (leaf_map_hot sha256 t id a Ha) as E1.
    rewrite Hleaf, (leaf_map_hot sha256 u id b Hb) in E1. injection E1 as E1.
    apply digest_eq in E1; [|done].
    apply (Hsub [account_message sha256 t id a] [account_message sha256 u id b]) in E1.
    + unfold account_message in E1. rewrite !opt_storage_default in E1. symmetry in E1.
      apply (leaf_bytes_inj sha256 Hsha) in E1; [done|..].
      * by apply (typed_accounts t Ht id).
      * by apply (typed_accounts u Hu id).
      * by apply typed_storage.
      * by apply typed_storage.
    + intros m ->%list_elem_of_singleton. rewrite !elem_of_app. left.
      apply list_elem_of_fmap. exists (id, a). split; [done|]. by apply elem_of_entries.
    + intros m ->%list_elem_of_singleton. rewrite !elem_of_app. left.
      apply list_elem_of_fmap. exists (id, b). split; [done|]. by apply elem_of_entries.
    + right; by left.
    + by left.
  - intros id s r Ha Hs Hr. assert (accounts u !! id = None) as Hb.
    { destruct (accounts u !! id) eqn:Eb; [|done]. destruct (proj2 (dom_accounts _ _ Hd id)); [by eexists|].
      congruence. }
    pose proof (leaf_map_cold sha256 t id Ha) as E1. rewrite Hleaf, leaf_map_cold, Hs, Hr in E1 by done.
    by injection E1.
  - eapply (keyed_digests sha256 Hsha intent_message); [apply Hd| | |done].
    + apply Hsub; intros m; rewrite !elem_of_app; tauto.
    + intros k v w _ _ E1. unfold intent_message in E1. cbn [fst snd] in E1.
      apply app_inv_head, app_inv_head in E1. done.
  - eapply (keyed_digests sha256 Hsha recipient_message); [apply Hd| | |done].
    + apply Hsub; intros m; rewrite !elem_of_app; tauto.
    + intros k v w _ _ E1. unfold recipient_message in E1. cbn [fst snd] in E1.
      apply app_inv_head, app_inv_head in E1. done.
  - eapply (keyed_digests sha256 Hsha replay_message); [apply Hd| | |done].
    + apply Hsub; intros m; rewrite !elem_of_app; tauto.
    + intros k v w Hv Hw E1. unfold replay_message in E1. cbn [fst snd] in E1.
      apply app_inv_head, app_inv_head in E1. apply (be_bytes_inj 32) in E1; [done| |].
      * by apply (typed_replay t Ht k).
      * by apply (typed_replay u Hu k).
Qed.

(** Two trees that differ only in the bytecode they keep in memory. *)
Module SampleRoot.
Definition sha := SampleDigest.sample_sha256.
Definition plain : StateTree := insert_account sha state_new (with_evm_address 5 77).
Definition coded : StateTree :=
  insert_account sha state_new (account_set_code (with_evm_address 5 77) None (Some [1; 2])).

Lemma typed a : account_ok a -> tree_typed (insert_account sha state_new a).
Proof.
  intros Ha. split; simpl.
  - intros id b [[_ <-]|[_ H]]%lookup_insert_Some; [done|by rewrite lookup_empty in H].
  - intros id k v H. rewrite lookup_empty in H. simpl in H. by rewrite lookup_empty in H.
  - intros id s [_ H]%lookup_delete_Some. by rewrite lookup_empty in H.
  - intros k v H. by rewrite lookup_empty in H.
Qed.
End SampleRoot.

Lemma state_root_binding_witness :
  SampleRoot.plain <> SampleRoot.coded /\
  same_hashed SampleRoot.sha (with_evm_address 5 77)
    (account_set_code (with_evm_address 5 77) None (Some [1; 2])).
Proof.
  split; [intros E; by apply (f_equal (fun t => acc_code <$> accounts t !! 5)) in E|].
  destruct (state_root_binding SampleRoot.sha SampleRoot.plain SampleRoot.coded
    SampleDigest.sample_shape) as [_ H].
  - apply SampleRoot.typed. repeat split; vm_compute; congruence || lia.
  - apply SampleRoot.typed. repeat split; vm_compute; congruence || lia.
  - split; intros k; simpl; try done. destruct (decide (k = 5)) as [->|Hk].
    + by rewrite !lookup_insert_eq; split; eexists.
    + by rewrite !lookup_insert_ne.
  - assert (forall m, m ∈ root_messages SampleRoot.sha SampleRoot.plain ++
      root_messages SampleRoot.sha SampleRoot.coded ->
      m = account_message SampleRoot.sha SampleRoot.plain 5 (with_evm_address 5 77)) as Hm.
    { intros m Hm. vm_compute in Hm. vm_compute.
      apply elem_of_cons in Hm as [->|Hm]; [done|]. by apply list_elem_of_singleton in Hm as ->. }
    intros x y Hx Hy _. by rewrite (Hm x Hx), (Hm y Hy).
  - destruct H as [H _]; [vm_compute; reflexivity|]. destruct (H 5 (with_evm_address 5 77)
      (account_set_code (with_evm_address 5 77) None (Some [1; 2]))) as [Hs _];
      [vm_compute; reflexivity|vm_compute; reflexivity|exact Hs].
Defined.
