(* ===== verification/Sharded.v ===== *)
(** State in several shards (ace-model/src/sharded_state.rs): a map of state
    trees, of which shard 0 is the default one, and an index of the accounts that
    were placed through it.

    A BTreeMap is walked in the order of its keys ([entries]); [find_shard] is the
    loop that stops at the first shard with a property.  [expect] on the default
    shard is [None]. *)

From S2P Require Import Prelude SigAlgo Account StateTree StateRoot.
Local Open Scope Z_scope.
Local Open Scope ace_scope.

Record ShardedState := {
  shards : gmap Z StateTree;
  shard_index : gmap AccountId Z;
}.

Record ShardedStateSnapshot := {
  shard_snapshots : gmap Z StateSnapshot;
  snap_shard_index : gmap AccountId Z;
}.

Definition NUM_VIRTUAL_SHARDS : Z := 1024.

Definition sharded_new : ShardedState := {| shards := {[0 := state_new]}; shard_index := ∅ |}.

(** The first two bytes of the id, in big-endian order. *)
Definition deterministic_shard (id : AccountId) : Z :=
  be_num (take 2 (be_bytes 32 id)) mod NUM_VIRTUAL_SHARDS.

Definition target_shard (s : ShardedState) (id : AccountId) : Z :=
  default (deterministic_shard id) (shard_index s !! id).

Definition from_state_tree (t : StateTree) : ShardedState :=
  {| shards := {[0 := t]}; shard_index := ∅ |}.

Definition into_default_state_tree (s : ShardedState) : StateTree := default state_new (shards s !! 0).

Definition default_shard (s : ShardedState) : option StateTree := shards s !! 0.

(** [shards.entry(id).or_default()] and a change of the tree. *)
Definition shard_mut (s : ShardedState) (id : Z) (f : StateTree -> StateTree) : ShardedState :=
  {| shards := <[id := f (default state_new (shards s !! id))]> (shards s); shard_index := shard_index s |}.

(** [expect] and a change of the default shard. *)
Definition default_shard_mut (s : ShardedState) (f : StateTree -> StateTree) : option ShardedState :=
  t ← shards s !! 0;
  Some {| shards := <[0 := f t]> (shards s); shard_index := shard_index s |}.

(** A change of every shard. *)
Definition iter_shards_mut (s : ShardedState) (f : Z -> StateTree -> StateTree) : ShardedState :=
  {| shards := map_imap (fun i t => Some (f i t)) (shards s); shard_index := shard_index s |}.

(** A change of a shard that exists. *)
Definition get_shard_mut (s : ShardedState) (id : Z) (f : StateTree -> StateTree) : ShardedState :=
  {| shards := alter f id (shards s); shard_index := shard_index s |}.

Definition set_index (s : ShardedState) (index : gmap AccountId Z) : ShardedState :=
  {| shards := shards s; shard_index := index |}.

Definition shard_get (s : ShardedState) (shard : Z) (id : AccountId) : option Account :=
  shards s !! shard ≫= fun t => accounts t !! id.

(** The first shard with a property, in the order of the ids. *)
Definition find_shard (s : ShardedState) (p : StateTree -> bool) : option (Z * StateTree) :=
  List.find (fun x => p (snd x)) (entries (shards s)).

Definition has_account (id : AccountId) (t : StateTree) : bool := bool_decide (is_Some (accounts t !! id)).

(* ------------------------------------------------------------------ *)
(** * Accounts *)

Definition sharded_get (s : ShardedState) (id : AccountId) : option Account :=
  let shard := target_shard s id in
  match shard_get s shard id with
  | Some a => Some a
  | None => if negb (shard =? 0) then shard_get s 0 id else None
  end.

Definition sharded_contains (s : ShardedState) (id : AccountId) : bool :=
  let shard := target_shard s id in
  bool_decide (is_Some (shard_get s shard id)) ||
  (negb (shard =? 0) && bool_decide (is_Some (shard_get s 0 id))).

(** [get_mut] with a change of the account it finds. *)
Definition sharded_get_mut (s : ShardedState) (id : AccountId) (f : Account -> Account) : ShardedState :=
  let shard := target_shard s id in
  if bool_decide (is_Some (shard_get s shard id)) then
    get_shard_mut s shard (fun t => get_mut_update t id f)
  else if negb (shard =? 0) && bool_decide (is_Some (shard_get s 0 id)) then
    get_shard_mut s 0 (fun t => get_mut_update t id f)
  else s.

Definition total_account_count (s : ShardedState) : nat :=
  foldr (fun x n => size (accounts (snd x)) + n)%nat 0%nat (entries (shards s)).

Section operations.
Context (sha256 : list Z -> list Z).

Definition shard_remove (id : AccountId) (t : StateTree) : StateTree := fst (remove_account sha256 t id).

Definition sharded_insert (s : ShardedState) (account : Account) : ShardedState :=
  let id := acc_id_com account in
  let shard := target_shard s id in
  let s :=
    match shard_index s !! id with
    | Some old => if negb (old =? shard) then get_shard_mut s old (shard_remove id) else s
    | None => if negb (shard =? 0) then get_shard_mut s 0 (shard_remove id) else s
    end in
  let s := shard_mut s shard (fun t => insert_account sha256 t account) in
  set_index s (<[id := shard]> (shard_index s)).

Definition insert_into_shard (s : ShardedState) (shard : Z) (account : Account) : ShardedState :=
  let id := acc_id_com account in
  let s :=
    match shard_index s !! id with
    | Some old => if negb (old =? shard) then get_shard_mut s old (shard_remove id) else s
    | None => s
    end in
  let s := shard_mut s shard (fun t => insert_account sha256 t account) in
  set_index s (<[id := shard]> (shard_index s)).

Definition sharded_remove (s : ShardedState) (id : AccountId) : ShardedState * option Account :=
  match find_shard s (has_account id) with
  | Some (i, t) =>
      let '(t', account) := remove_account sha256 t id in
      let s := {| shards := <[i := t']> (shards s); shard_index := shard_index s |} in
      (match account with Some _ => set_index s (delete id (shard_index s)) | None => s end, account)
  | None => (s, None)
  end.

(** ** Addresses *)

(** The answer of the first shard that has one. *)
Definition first_answer {A} (s : ShardedState) (f : StateTree -> option A) : option A :=
  match find_shard s (fun t => bool_decide (is_Some (f t))) with
  | Some (_, t) => f t
  | None => None
  end.

Definition sharded_resolve_evm (s : ShardedState) (addr : Z) : option AccountId :=
  first_answer s (fun t => resolve_evm_account_id sha256 t addr).
Definition sharded_resolve_tron (s : ShardedState) (addr : Z) : option AccountId :=
  first_answer s (fun t => resolve_tron_account_id sha256 t addr).
Definition sharded_resolve_solana (s : ShardedState) (pubkey : Z) : option AccountId :=
  first_answer s (fun t => resolve_solana_account_id sha256 t pubkey).
Definition sharded_resolve_btc (s : ShardedState) (script : list Z) : option AccountId :=
  first_answer s (fun t => resolve_btc_account_id sha256 t script).
Definition sharded_resolve_xid (s : ShardedState) (xid : Z) : option AccountId :=
  first_answer s (fun t => resolve_xid_account_id sha256 t xid).
Definition sharded_resolve_xaddress (s : ShardedState) (xaddress : Z) : option AccountId :=
  first_answer s (fun t => resolve_xaddress_account_id t xaddress).

(** ** Storage and code *)

Definition sharded_get_storage (s : ShardedState) (account : AccountId) (slot : Z) : Z :=
  match find_shard s (has_account account) with
  | Some (_, t) => get_storage t account slot
  | None => 0
  end.

Definition sharded_set_storage (s : ShardedState) (account : AccountId) (slot value : Z)
    : option ShardedState :=
  match find_shard s (has_account account) with
  | Some (i, _) => Some (get_shard_mut s i (fun t => set_storage t account slot value))
  | None =>
      _ ← default_shard s;
      Some (get_shard_mut s 0 (fun t => set_storage t account slot value))
  end.

Definition sharded_set_code (s : ShardedState) (account : AccountId) (code : list Z)
    : ShardedState * option Hash :=
  match find_shard s (has_account account) with
  | Some (i, t) =>
      let '(t', hash) := set_code sha256 t account code in
      ({| shards := <[i := t']> (shards s); shard_index := shard_index s |}, hash)
  | None => (s, None)
  end.

Definition sharded_get_code (s : ShardedState) (account : AccountId) : option (list Z) :=
  first_answer s (fun t => get_code t account).

(** ** Expiry *)

Definition is_stubbed_in (id : AccountId) (t : StateTree) : bool := bool_decide (is_Some (stubs t !! id)).

Definition sharded_is_stubbed (s : ShardedState) (id : AccountId) : bool :=
  bool_decide (is_Some (find_shard s (is_stubbed_in id))).

Definition sharded_get_stub (s : ShardedState) (id : AccountId) : option AccountStub :=
  first_answer s (fun t => stubs t !! id).

Definition sharded_insert_stub (s : ShardedState) (stub : AccountStub) : option ShardedState :=
  _ ← default_shard s;
  Some (get_shard_mut s 0 (fun t => insert_stub t stub)).

Definition sharded_expire (s : ShardedState) (id : AccountId) (current_slot : Z)
    : ShardedState * option AccountStub :=
  match find_shard s (has_account id) with
  | Some (i, t) =>
      let '(t', stub) := expire_account sha256 t id current_slot in
      let s := {| shards := <[i := t']> (shards s); shard_index := shard_index s |} in
      (match stub with Some _ => set_index s (delete id (shard_index s)) | None => s end, stub)
  | None => (s, None)
  end.

Definition sharded_resurrect (s : ShardedState) (proof : ResurrectionProof) (new_slot : Z)
    : result ResurrectError ShardedState :=
  let id := acc_id_com (proof_account proof) in
  match find_shard s (is_stubbed_in id) with
  | Some (i, t) =>
      let? t' := resurrect_account sha256 t proof new_slot in
      Ok {| shards := <[i := t']> (shards s); shard_index := <[id := i]> (shard_index s) |}
  | None => Err NotExpired
  end.

Definition sharded_sweep (s : ShardedState) (current_slot expiry_period : Z) : ShardedState * nat :=
  ({| shards := (fun t => fst (sweep_expired sha256 t current_slot expiry_period)) <$> shards s;
      shard_index := shard_index s |},
   foldr (fun x n => snd (sweep_expired sha256 (snd x) current_slot expiry_period) + n)%nat 0%nat
     (entries (shards s))).

(** ** Root and snapshots *)

Definition shard_root (x : Z * StateTree) : option (list Z) :=
  root ← compute_root sha256 (snd x);
  Some (le_bytes 8 (fst x) ++ be_bytes 32 root).

Definition sharded_root (s : ShardedState) : option Hash :=
  match entries (shards s) with
  | [(_, t)] => compute_root sha256 t
  | l =>
      roots ← mapM shard_root l;
      Some (digest sha256 (ascii_bytes "ACE-SHARDED-STATE-V1" ++ concat roots))
  end.

Definition sharded_snapshot (s : ShardedState) : ShardedStateSnapshot :=
  {| shard_snapshots := snapshot <$> shards s; snap_shard_index := shard_index s |}.

Definition sharded_rollback (s : ShardedState) (snap : ShardedStateSnapshot) : ShardedState :=
  {| shards := map_imap (fun i x => Some (rollback (default state_new (shards s !! i)) x))
       (shard_snapshots snap);
     shard_index := snap_shard_index snap |}.
End operations.

(* ------------------------------------------------------------------ *)
(** * Where accounts are *)

Lemma find_shard_some s p i t : find_shard s p = Some (i, t) -> shards s !! i = Some t /\ p t = true.
Proof.
  intros [Hin Hp]%List.find_some. split; [|done]. by apply elem_of_entries, list_elem_of_In.
Qed.

Lemma find_shard_none s p i t : find_shard s p = None -> shards s !! i = Some t -> p t = false.
Proof.
  intros H Hi. apply elem_of_entries, list_elem_of_In in Hi. exact (List.find_none _ _ H (i, t) Hi).
Qed.

Lemma has_account_true id t : has_account id t = true <-> is_Some (accounts t !! id).
Proof. unfold has_account. by rewrite bool_decide_eq_true. Qed.

Lemma shard_get_some s i id a :
  shard_get s i id = Some a <-> exists t, shards s !! i = Some t /\ accounts t !! id = Some a.
Proof. unfold shard_get. rewrite bind_Some. done. Qed.

(** Every account is in one shard, where [get] looks for it: its shard, or the
    default one when it was never placed. *)
Record one_home (s : ShardedState) : Prop := {
  oh_default : is_Some (shards s !! 0);
  oh_place i id : is_Some (shard_get s i id) ->
    i = target_shard s id \/ (i = 0 /\ shard_index s !! id = None);
  oh_unique i j id : is_Some (shard_get s i id) -> is_Some (shard_get s j id) -> i = j;
}.

Lemma one_home_get s id a : one_home s -> sharded_get s id = Some a <-> exists i, shard_get s i id = Some a.
Proof.
  intros [_ Hp Hu]. unfold sharded_get. split.
  - destruct (shard_get s (target_shard s id) id) as [b|] eqn:E; [intros [= <-]; by eexists|].
    destruct (_ =? 0); [done|]. cbn. by eexists.
  - intros [i Hi]. destruct (Hp i id) as [-> |[-> Hn]]; [by rewrite Hi|by rewrite Hi|].
    destruct (shard_get s (target_shard s id) id) as [b|] eqn:E.
    + assert (target_shard s id = 0) as E0 by (apply (Hu _ _ id); by rewrite ?E, ?Hi).
      rewrite E0 in E. by rewrite <-E.
    + destruct (Z.eqb_spec (target_shard s id) 0) as [E0|]; [|done]. rewrite E0, Hi in E. done.
Qed.

(** A change that adds no account anywhere. *)
Lemma one_home_fewer s s' :
  one_home s -> is_Some (shards s' !! 0) ->
  (forall i id, is_Some (shard_get s' i id) -> is_Some (shard_get s i id)) ->
  (forall id, shard_index s' !! id = shard_index s !! id \/ forall i, shard_get s' i id = None) ->
  one_home s'.
Proof.
  intros [_ Hp Hu] H0 Hsub Hidx. split; [done| |].
  - intros i id Hi. destruct (Hidx id) as [E|E]; [|rewrite E in Hi; by destruct Hi].
    unfold target_shard. rewrite E. by apply Hp, Hsub.
  - intros i j id Hi Hj. by apply (Hu i j id); apply Hsub.
Qed.

Section homes.
Context (sha256 : list Z -> list Z).

Lemma from_state_tree_home t : one_home (from_state_tree t).
Proof.
  assert (forall i id, is_Some (shard_get (from_state_tree t) i id) -> i = 0) as H0.
  { intros i id [a Hi]. apply shard_get_some in Hi as (t' & Hi & _). cbn in Hi.
    by apply lookup_singleton_Some in Hi as [<- _]. }
  split; [by eexists| |].
  - intros i id Hi. right. split; [by apply (H0 i id)|done].
  - intros i j id Hi Hj. by rewrite (H0 i id Hi), (H0 j id Hj).
Qed.

Lemma remove_accounts t id : accounts (fst (remove_account sha256 t id)) = delete id (accounts t).
Proof.
  unfold remove_account. destruct (accounts t !! id) eqn:E; [done|]. cbn. by rewrite delete_id.
Qed.

(** The accounts of a shard after a change of one shard. *)
Lemma shard_get_put (m : gmap Z StateTree) x i t j id :
  shard_get {| shards := <[i := t]> m; shard_index := x |} j id =
    if decide (i = j) then accounts t !! id else m !! j ≫= fun t => accounts t !! id.
Proof.
  unfold shard_get. cbn. destruct (decide (i = j)) as [->|Hne];
    [by rewrite lookup_insert_eq|by rewrite lookup_insert_ne].
Qed.

Lemma shard_get_alter s f i j id :
  shard_get (get_shard_mut s i f) j id =
    if decide (i = j) then shards s !! i ≫= fun t => accounts (f t) !! id else shard_get s j id.
Proof.
  unfold shard_get. cbn. destruct (decide (i = j)) as [->|Hne].
  - rewrite lookup_alter_eq. by destruct (shards s !! j).
  - by rewrite lookup_alter_ne.
Qed.

Lemma shard_get_mut s f i j id :
  shard_get (shard_mut s i f) j id =
    if decide (i = j) then accounts (f (default state_new (shards s !! i))) !! id else shard_get s j id.
Proof. apply shard_get_put. Qed.

(** Before an insertion no shard but the target has the account. *)
Definition cleared (s : ShardedState) (id : AccountId) : ShardedState :=
  if negb (target_shard s id =? 0) && bool_decide (shard_index s !! id = None)
  then get_shard_mut s 0 (shard_remove sha256 id) else s.

Lemma cleared_spec s id :
  one_home s -> one_home (cleared s id) /\ shard_index (cleared s id) = shard_index s /\
  (forall i id', id' <> id -> shard_get (cleared s id) i id' = shard_get s i id') /\
  (forall i, i <> target_shard s id -> shard_get (cleared s id) i id = None).
Proof.
  intros H. unfold cleared.
  destruct (negb _ && _) eqn:E.
  - apply andb_true_iff in E as [Et En]. apply bool_decide_eq_true in En.
    destruct (Z.eqb_spec (target_shard s id) 0) as [|Ht]; [done|]. clear Et.
    assert (forall i id', shard_get (get_shard_mut s 0 (shard_remove sha256 id)) i id' =
      if decide (i = 0 /\ id' = id) then None else shard_get s i id') as Eg.
    { intros i id'. rewrite shard_get_alter. unfold shard_remove, shard_get.
      destruct (decide (0 = i)) as [<-|Hi]; [|rewrite decide_False by naive_solver; done].
      destruct (shards s !! 0) as [t|]; cbn; [|by case_decide]. rewrite remove_accounts.
      destruct (decide (id' = id)) as [->|Hne];
        [rewrite lookup_delete_eq, decide_True by done|rewrite lookup_delete_ne, decide_False by naive_solver]; done. }
    split_and!; [|done| |].
    + apply (one_home_fewer s); [done| | |by left].
      * cbn. rewrite lookup_alter_eq. destruct (oh_default s H) as [t ->]. by eexists.
      * intros i id'. rewrite Eg. case_decide; [by intros []|done].
    + intros i id' Hne. by rewrite Eg, decide_False by naive_solver.
    + intros i Hi. rewrite Eg. case_decide as Hd; [done|].
      destruct (shard_get s i id) eqn:Es; [|done].
      destruct (oh_place s H i id) as [|[-> _]]; [by rewrite Es|done|]. by destruct Hd.
  - split_and!; [done|done|done|]. intros i Hi. destruct (shard_get s i id) eqn:Es; [|done].
    destruct (oh_place s H i id) as [|[-> Hn]]; [by rewrite Es|done|].
    rewrite bool_decide_true, andb_true_r in E by done. apply negb_false_iff, Z.eqb_eq in E. by rewrite E in Hi.
Qed.

Lemma sharded_insert_cleared s a :
  let id := acc_id_com a in
  sharded_insert sha256 s a =
    set_index (shard_mut (cleared s id) (target_shard s id) (fun t => insert_account sha256 t a))
      (<[id := target_shard s id]> (shard_index s)).
Proof.
  intros id. unfold sharded_insert, cleared. fold id. unfold target_shard. destruct (shard_index s !! id) as [x|] eqn:E.
  - cbn. by rewrite Z.eqb_refl, andb_false_r.
  - cbn. rewrite andb_true_r. by destruct (_ =? 0).
Qed.

(** After an insertion the account is found, and the others are where they were. *)
Lemma sharded_insert_get s a i id' :
  one_home s ->
  shard_get (sharded_insert sha256 s a) i id' =
    if decide (id' = acc_id_com a) then (if decide (i = target_shard s id') then Some a else None)
    else shard_get s i id'.
Proof.
  intros H. rewrite sharded_insert_cleared. set (id := acc_id_com a).
  destruct (cleared_spec s id H) as (_ & _ & Hother & Hgone).
  change (shard_get (set_index ?x _) i id') with (shard_get x i id'). rewrite shard_get_mut.
  destruct (decide (target_shard s id = i)) as [<-|Hi].
  - cbn [accounts insert_account]. fold id. destruct (decide (id' = id)) as [->|Hne].
    + by rewrite lookup_insert_eq, decide_True.
    + rewrite lookup_insert_ne by done. rewrite <-(Hother (target_shard s id) id' Hne).
      unfold shard_get. by destruct (shards (cleared s id) !! _).
  - destruct (decide (id' = id)) as [->|Hne]; [|by apply Hother].
    rewrite decide_False by done. by apply Hgone.
Qed.

(** The accounts after one arrives in a shard that is the only one to have it. *)
Lemma one_home_arrive s i t a :
  one_home s -> (forall j, j <> i -> shard_get s j (acc_id_com a) = None) ->
  accounts t = <[acc_id_com a := a]> (accounts (default state_new (shards s !! i))) ->
  one_home {| shards := <[i := t]> (shards s); shard_index := <[acc_id_com a := i]> (shard_index s) |}.
Proof.
  intros H Hgone Et. set (id := acc_id_com a).
  assert (forall j id', shard_get {| shards := <[i := t]> (shards s); shard_index := <[id := i]> (shard_index s) |} j id' =
    if decide (id' = id) then (if decide (j = i) then Some a else None) else shard_get s j id') as Eg.
  { intros j id'. rewrite shard_get_put. destruct (decide (i = j)) as [<-|Hj].
    - rewrite Et. fold id. destruct (decide (id' = id)) as [->|Hne]; [by rewrite lookup_insert_eq, decide_True|].
      rewrite lookup_insert_ne by done. unfold shard_get. by destruct (shards s !! i).
    - destruct (decide (id' = id)) as [->|Hne]; [|done]. rewrite decide_False by done. by apply Hgone. }
  split.
  - cbn. destruct (decide (i = 0)) as [->|]; [rewrite lookup_insert_eq; by eexists|].
    rewrite lookup_insert_ne by done. apply H.
  - intros j id'. rewrite Eg. unfold target_shard. cbn. destruct (decide (id' = id)) as [->|Hne].
    + rewrite lookup_insert_eq. case_decide; [by left|by intros []].
    + rewrite lookup_insert_ne by done. apply (oh_place s H).
  - intros j k id'. rewrite !Eg. destruct (decide (id' = id)) as [->|Hne]; [|apply (oh_unique s H)].
    case_decide; [|by intros []]. case_decide; [|by intros _ []]. congruence.
Qed.

Lemma sharded_insert_home s a : one_home s -> one_home (sharded_insert sha256 s a).
Proof.
  intros H. rewrite sharded_insert_cleared. destruct (cleared_spec s (acc_id_com a) H) as (Hc & Ei & _ & Hgone).
  unfold set_index. rewrite <-Ei. by apply one_home_arrive.
Qed.
End homes.

(* ------------------------------------------------------------------ *)
(** * Sequences of calls *)

(** A call of one of the methods that change the state.  The four methods that
    lend out whole shards come with what the caller does to the trees. *)
Inductive ShardedOp : Type :=
| ShInsert (a : Account)
| ShInsertInto (shard : Z) (a : Account)
| ShUpdate (id : AccountId) (f : Account -> Account)
| ShRemove (id : AccountId)
| ShExpire (id : AccountId) (slot : Z)
| ShResurrect (p : ResurrectionProof) (slot : Z)
| ShSweep (slot period : Z)
| ShInsertStub (s : AccountStub)
| ShSetStorage (id : AccountId) (slot value : Z)
| ShSetCode (id : AccountId) (code : list Z)
| ShDefault (f : StateTree -> StateTree)
| ShShard (shard : Z) (f : StateTree -> StateTree)
| ShExisting (shard : Z) (f : StateTree -> StateTree)
| ShShards (f : Z -> StateTree -> StateTree)
| ShRollback (snap : ShardedStateSnapshot).

Definition apply_sharded (sha256 : list Z -> list Z) (s : ShardedState) (op : ShardedOp) : ShardedState :=
  match op with
  | ShInsert a => sharded_insert sha256 s a
  | ShInsertInto i a => insert_into_shard sha256 s i a
  | ShUpdate id f => sharded_get_mut s id f
  | ShRemove id => fst (sharded_remove sha256 s id)
  | ShExpire id slot => fst (sharded_expire sha256 s id slot)
  | ShResurrect p slot => match sharded_resurrect sha256 s p slot with Ok s' => s' | Err _ => s end
  | ShSweep slot period => fst (sharded_sweep sha256 s slot period)
  | ShInsertStub x => default s (sharded_insert_stub s x)
  | ShSetStorage id slot value => default s (sharded_set_storage s id slot value)
  | ShSetCode id code => fst (sharded_set_code sha256 s id code)
  | ShDefault f => default s (default_shard_mut s f)
  | ShShard i f => shard_mut s i f
  | ShExisting i f => get_shard_mut s i f
  | ShShards f => iter_shards_mut s f
  | ShRollback snap => sharded_rollback s snap
  end.

(** What a caller that changes shard [i] itself may do there: an account it adds
    is in no shard yet, and [i] is the shard it belongs to, or the default one
    when the account was never placed. *)
Definition adds_homeless (s : ShardedState) (i : Z) (f : StateTree -> StateTree) : Prop :=
  forall id, is_Some (accounts (f (default state_new (shards s !! i))) !! id) ->
    is_Some (shard_get s i id) \/
    (sharded_get s id = None /\ (i = target_shard s id \/ (i = 0 /\ shard_index s !! id = None))).

(** What the methods that name a shard need: [insert_into_shard] looks for an
    older copy through the index only, [resurrect_account] not at all, and a
    change of a whole shard never; [rollback] needs a snapshot of a state that
    was in order. *)
Definition sharded_op_ok (s : ShardedState) (op : ShardedOp) : Prop :=
  match op with
  | ShInsertInto i a =>
      is_Some (shard_index s !! acc_id_com a) \/ sharded_get s (acc_id_com a) = None \/
      is_Some (shard_get s i (acc_id_com a))
  | ShResurrect p _ => sharded_get s (acc_id_com (proof_account p)) = None
  | ShDefault f => adds_homeless s 0 f
  | ShShard i f | ShExisting i f => adds_homeless s i f
  | ShShards f => forall i t id, shards s !! i = Some t -> is_Some (accounts (f i t) !! id) -> is_Some (accounts t !! id)
  | ShRollback snap => exists s0, one_home s0 /\ snap = sharded_snapshot s0
  | _ => True
  end.

Fixpoint sharded_ops_ok (sha256 : list Z -> list Z) (s : ShardedState) (ops : list ShardedOp) : Prop :=
  match ops with
  | [] => True
  | op :: ops => sharded_op_ok s op /\ sharded_ops_ok sha256 (apply_sharded sha256 s op) ops
  end.

Section calls.
Context (sha256 : list Z -> list Z).

(** One shard changes and gains no account; the index forgets at most accounts
    that left. *)
Lemma one_home_shard s i t t' x :
  one_home s -> shards s !! i = Some t ->
  (forall id, is_Some (accounts t' !! id) -> is_Some (accounts t !! id)) ->
  (forall id, x !! id = shard_index s !! id \/ (is_Some (accounts t !! id) /\ accounts t' !! id = None)) ->
  one_home {| shards := <[i := t']> (shards s); shard_index := x |}.
Proof.
  intros H Hi Hsub Hx.
  assert (forall id, shard_get s i id = accounts t !! id) as Et by (intros id; unfold shard_get; by rewrite Hi).
  apply (one_home_fewer s); [done| | |].
  - cbn. destruct (decide (i = 0)) as [->|]; [by rewrite lookup_insert_eq; eexists|].
    rewrite lookup_insert_ne by done. apply H.
  - intros j id. rewrite shard_get_put. case_decide as Hd; [subst j; rewrite Et; apply Hsub|done].
  - intros id. destruct (Hx id) as [|[Hin Hout]]; [by left|right]. intros j. rewrite shard_get_put.
    case_decide as Hd; [done|]. destruct (shard_get s j id) as [a|] eqn:E; [|exact E].
    destruct Hd. apply (oh_unique s H _ _ id); [by rewrite Et|by rewrite E].
Qed.

Lemma alter_put s i f t :
  shards s !! i = Some t -> get_shard_mut s i f = {| shards := <[i := f t]> (shards s); shard_index := shard_index s |}.
Proof.
  intros H. unfold get_shard_mut. f_equal. apply map_eq. intros j. destruct (decide (i = j)) as [<-|Hne];
    [by rewrite lookup_alter_eq, lookup_insert_eq, H|by rewrite lookup_alter_ne, lookup_insert_ne].
Qed.

Lemma one_home_alter s i f :
  one_home s -> (forall t id, is_Some (accounts (f t) !! id) -> is_Some (accounts t !! id)) ->
  one_home (get_shard_mut s i f).
Proof.
  intros H Hf. destruct (shards s !! i) as [t|] eqn:E.
  - rewrite (alter_put s i f t E). apply (one_home_shard s i t); auto.
  - unfold get_shard_mut. rewrite alter_id by (intros t; by rewrite E). by destruct s.
Qed.

Lemma get_mut_update_dom t id f id' : is_Some (accounts (get_mut_update t id f) !! id') -> is_Some (accounts t !! id').
Proof.
  unfold get_mut_update. destruct (accounts t !! id) as [a|] eqn:E; [|done]. cbn.
  destruct (decide (id = id')) as [<-|]; [by rewrite E; eexists|by rewrite lookup_insert_ne].
Qed.

Lemma set_code_dom t id code id' : is_Some (accounts (fst (set_code sha256 t id code)) !! id') -> is_Some (accounts t !! id').
Proof.
  unfold set_code. destruct (accounts t !! id) as [a|] eqn:E; [|done]. cbn.
  destruct (decide (id = id')) as [<-|]; [by rewrite E; eexists|by rewrite lookup_insert_ne].
Qed.

Lemma expire_accounts t id slot : accounts (fst (expire_account sha256 t id slot)) = delete id (accounts t).
Proof. unfold expire_account. destruct (accounts t !! id) eqn:E; [done|]. cbn. by rewrite delete_id. Qed.

Lemma sweep_dom t slot period id :
  is_Some (accounts (fst (sweep_expired sha256 t slot period)) !! id) -> is_Some (accounts t !! id).
Proof.
  unfold sweep_expired. cbn. generalize (map fst (List.filter (fun '(_, acct) => expirable (u64_saturating_sub slot period) acct) (entries (accounts t)))).
  intros l. revert t. induction l as [|x l IH]; intros t; [done|]. cbn. intros Hl%IH. rewrite expire_accounts in Hl.
  destruct Hl as [a Ha]. apply lookup_delete_Some in Ha as [_ ->]. by eexists.
Qed.

(** The account leaves its shard, and the index forgets it or keeps it. *)
Lemma one_home_leave s i t t' id {A} (o : option A) :
  one_home s -> shards s !! i = Some t -> has_account id t = true -> accounts t' = delete id (accounts t) ->
  let s' := {| shards := <[i := t']> (shards s); shard_index := shard_index s |} in
  one_home match o with Some _ => set_index s' (delete id (shard_index s')) | None => s' end.
Proof.
  intros H Hi Ha%has_account_true Er. cbv zeta.
  assert (forall x, (forall id', x !! id' = shard_index s !! id' \/ id' = id) ->
    one_home {| shards := <[i := t']> (shards s); shard_index := x |}) as Hx.
  { intros x Hx. apply (one_home_shard s i t); [done|done| |].
    - intros id'. rewrite Er. intros [a [_ ->]%lookup_delete_Some]. by eexists.
    - intros id'. destruct (Hx id') as [| ->]; [by left|]. right. by rewrite Er, lookup_delete_eq. }
  destruct o; cbn; apply Hx; intros id'; [|by left].
  destruct (decide (id' = id)); [by right|left; by rewrite lookup_delete_ne].
Qed.

Lemma sharded_remove_home s id : one_home s -> one_home (fst (sharded_remove sha256 s id)).
Proof.
  intros H. unfold sharded_remove. destruct (find_shard _ _) as [[i t]|] eqn:E; [|done].
  apply find_shard_some in E as [Hi Ha]. pose proof (remove_accounts sha256 t id) as Er.
  destruct (remove_account sha256 t id) as [t' o]. by apply (one_home_leave s i t t' id o).
Qed.

Lemma sharded_expire_home s id slot : one_home s -> one_home (fst (sharded_expire sha256 s id slot)).
Proof.
  intros H. unfold sharded_expire. destruct (find_shard _ _) as [[i t]|] eqn:E; [|done].
  apply find_shard_some in E as [Hi Ha]. pose proof (expire_accounts t id slot) as Er.
  destruct (expire_account sha256 t id slot) as [t' o]. by apply (one_home_leave s i t t' id o).
Qed.

Lemma sharded_sweep_home s slot period : one_home s -> one_home (fst (sharded_sweep sha256 s slot period)).
Proof.
  intros H. apply (one_home_fewer s); [done| | |by left].
  - cbn. rewrite lookup_fmap. destruct (oh_default s H) as [t ->]. by eexists.
  - intros i id. unfold shard_get. cbn. rewrite lookup_fmap. destruct (shards s !! i); [apply sweep_dom|done].
Qed.

Lemma one_home_elsewhere s i j id : one_home s -> is_Some (shard_get s i id) -> j <> i -> shard_get s j id = None.
Proof.
  intros H Hi Hne. destruct (shard_get s j id) eqn:E; [|done]. destruct Hne. apply (oh_unique s H _ _ id); [by rewrite E|done].
Qed.

Lemma one_home_absent s j id : one_home s -> sharded_get s id = None -> shard_get s j id = None.
Proof.
  intros H Hn. destruct (shard_get s j id) as [a|] eqn:E; [|done].
  assert (sharded_get s id = Some a) by (apply one_home_get; [done|by eexists]). congruence.
Qed.

Lemma insert_into_home s i a :
  one_home s -> sharded_op_ok s (ShInsertInto i a) -> one_home (insert_into_shard sha256 s i a).
Proof.
  intros H Hok. unfold insert_into_shard. set (id := acc_id_com a) in *.
  set (s1 := match shard_index s !! id with Some _ => _ | None => _ end).
  assert (one_home s1 /\ forall j, j <> i -> shard_get s1 j id = None) as [H1 Hgone]; [|by apply (one_home_arrive s1)].
  unfold s1. destruct (shard_index s !! id) as [old|] eqn:E.
  - assert (forall j, j <> old -> shard_get s j id = None) as Hold.
    { intros j Hj. destruct (shard_get s j id) eqn:Ej; [|done].
      destruct (oh_place s H j id) as [Ht|[_ Hn]]; [by rewrite Ej| |by rewrite E in Hn].
      unfold target_shard in Ht. by rewrite E in Ht. }
    destruct (Z.eqb_spec old i) as [->|Hne]; cbn [negb]; [done|].
    split.
    + apply one_home_alter; [done|]. intros t id'. unfold shard_remove. rewrite remove_accounts.
      intros [b [_ ->]%lookup_delete_Some]. by eexists.
    + intros j _. rewrite shard_get_alter. case_decide as Hd; [|by apply Hold].
      destruct (shards s !! old); [|done]. cbn. unfold shard_remove. by rewrite remove_accounts, lookup_delete_eq.
  - split; [done|]. intros j Hj.
    destruct Hok as [[x Hx]|[Hn|Hi]]; [by fold id in Hx; rewrite E in Hx|by apply one_home_absent|by apply (one_home_elsewhere s i)].
Qed.

Lemma resurrect_accounts t p slot t' :
  resurrect_account sha256 t p slot = Ok t' ->
  let a := set_last_touched (proof_account p) slot in
  accounts t' = <[acc_id_com a := a]> (accounts t).
Proof.
  unfold resurrect_account. destruct (stubs t !! _) as [x|]; [|done]. cbn [ok_or rbind].
  destruct (negb _); [done|]. intros [= <-].
  set (t1 := insert_account _ _ _). destruct (restore_storage_spec t1 (acc_id_com (proof_account p)) (entries (proof_storage p))) as [-> _].
  done.
Qed.

Lemma sharded_resurrect_home s p slot s' :
  one_home s -> sharded_op_ok s (ShResurrect p slot) -> sharded_resurrect sha256 s p slot = Ok s' -> one_home s'.
Proof.
  intros H Hn. unfold sharded_resurrect. destruct (find_shard _ _) as [[i t]|] eqn:E; [|done].
  apply find_shard_some in E as [Hi _].
  destruct (resurrect_account sha256 t p slot) as [t'|] eqn:Er; [|done]. intros [= <-].
  apply (one_home_arrive s i t' (set_last_touched (proof_account p) slot)); [done| |].
  - intros j _. by apply one_home_absent.
  - rewrite Hi. by apply resurrect_accounts.
Qed.

Lemma sharded_get_mut_home s id f : one_home s -> one_home (sharded_get_mut s id f).
Proof.
  intros H. unfold sharded_get_mut.
  destruct (bool_decide _); [|destruct (negb _ && _); [|done]]; apply one_home_alter; try done; intros t; apply get_mut_update_dom.
Qed.

Lemma sharded_set_storage_home s id slot value : one_home s -> one_home (default s (sharded_set_storage s id slot value)).
Proof.
  intros H. unfold sharded_set_storage, default_shard. destruct (find_shard _ _) as [[i t]|]; cbn.
  - by apply one_home_alter.
  - destruct (shards s !! 0); [|done]. by apply one_home_alter.
Qed.

Lemma sharded_insert_stub_home s x : one_home s -> one_home (default s (sharded_insert_stub s x)).
Proof.
  intros H. unfold sharded_insert_stub, default_shard. destruct (shards s !! 0); [|done]. by apply one_home_alter.
Qed.

Lemma sharded_set_code_home s id code : one_home s -> one_home (fst (sharded_set_code sha256 s id code)).
Proof.
  intros H. unfold sharded_set_code. destruct (find_shard _ _) as [[i t]|] eqn:E; [|done].
  apply find_shard_some in E as [Hi _]. pose proof (set_code_dom t id code) as Hd.
  destruct (set_code sha256 t id code) as [t' h]. apply (one_home_shard s i t); auto.
Qed.

(** A rollback restores every shard of the snapshot and forgets the later ones. *)
Lemma sharded_rollback_restores s s' : sharded_rollback s' (sharded_snapshot s) = s.
Proof.
  destruct s as [m x]. unfold sharded_rollback. cbn. f_equal. apply map_eq. intros i.
  rewrite map_lookup_imap, lookup_fmap. destruct (m !! i); [|done]. cbn. by rewrite rollback_snapshot.
Qed.
(** A change of one shard by the caller. *)
Lemma one_home_raw s i f :
  one_home s -> adds_homeless s i f ->
  one_home {| shards := <[i := f (default state_new (shards s !! i))]> (shards s); shard_index := shard_index s |}.
Proof.
  intros H Hf. set (s' := {| shards := _; shard_index := _ |}).
  assert (forall j id, is_Some (shard_get s' j id) -> is_Some (shard_get s j id) \/
    (j = i /\ sharded_get s id = None /\ (i = target_shard s id \/ (i = 0 /\ shard_index s !! id = None)))) as Hadd.
  { intros j id. unfold s'. rewrite shard_get_put. case_decide as Hd; [subst j|by left].
    intros [Hin|[Hn Hp]]%Hf; [by left|by right]. }
  split.
  - unfold s'. cbn. destruct (decide (i = 0)) as [->|]; [rewrite lookup_insert_eq; by eexists|].
    rewrite lookup_insert_ne by done. apply H.
  - intros j id [Hin|(-> & _ & Hp)]%Hadd; [by apply (oh_place s H)|exact Hp].
  - intros j k id [Hj|(-> & Hn & _)]%Hadd [Hk|(-> & Hn' & _)]%Hadd; [by apply (oh_unique s H _ _ id)| | |done].
    + rewrite (one_home_absent s j id H Hn') in Hj. by destruct Hj.
    + rewrite (one_home_absent s k id H Hn) in Hk. by destruct Hk.
Qed.

Lemma one_home_raw_all s f :
  one_home s -> sharded_op_ok s (ShShards f) -> one_home (iter_shards_mut s f).
Proof.
  intros H Hf. apply (one_home_fewer s); [done| | |by left].
  - cbn. rewrite map_lookup_imap. destruct (oh_default s H) as [t ->]. by eexists.
  - intros i id. unfold shard_get. cbn. rewrite map_lookup_imap. destruct (shards s !! i) as [t|] eqn:E; [|done].
    by apply (Hf i t).
Qed.

Lemma apply_sharded_home s op : one_home s -> sharded_op_ok s op -> one_home (apply_sharded sha256 s op).
Proof.
  intros H Hok. destruct op; cbn [apply_sharded].
  - by apply sharded_insert_home.
  - by apply insert_into_home.
  - by apply sharded_get_mut_home.
  - by apply sharded_remove_home.
  - by apply sharded_expire_home.
  - destruct (sharded_resurrect sha256 s p slot) eqn:E; [|done]. by apply (sharded_resurrect_home s p slot).
  - by apply sharded_sweep_home.
  - by apply sharded_insert_stub_home.
  - by apply sharded_set_storage_home.
  - by apply sharded_set_code_home.
  - unfold default_shard_mut. destruct (shards s !! 0) as [t|] eqn:E; cbn; [|done].
    pose proof (one_home_raw s 0 f H Hok) as Hr. by rewrite E in Hr.
  - by apply one_home_raw.
  - destruct (shards s !! shard) as [t|] eqn:E.
    + rewrite (alter_put s shard f t E). pose proof (one_home_raw s shard f H Hok) as Hr. by rewrite E in Hr.
    + unfold get_shard_mut. rewrite alter_id by (intros t; by rewrite E). by destruct s.
  - by apply one_home_raw_all.
  - destruct Hok as (s0 & H0 & ->). by rewrite sharded_rollback_restores.
Qed.

End calls.

(** C15. Sharding loses and doubles no account: from any state tree, after any
    sequence of the mutating calls, each account is in at most one shard and
    [get] returns it from there.  Conditions ([sharded_op_ok]) are needed where the
    caller names a shard: [insert_into_shard] must not meet a copy that the index
    does not know, [resurrect_account] no account of that id, and a caller that
    changes a shard lent out by [default_shard_mut], [shard_mut], [get_shard_mut]
    or [iter_shards_mut] adds only accounts that are in no shard and that belong
    there; [rollback] takes a snapshot of a state in order. *)
Theorem sharded_one_home sha256 ops t :
  sharded_ops_ok sha256 (from_state_tree t) ops ->
  let s := foldl (apply_sharded sha256) (from_state_tree t) ops in
  (forall i j id, is_Some (shard_get s i id) -> is_Some (shard_get s j id) -> i = j) /\
  (forall id a, sharded_get s id = Some a <-> exists i, shard_get s i id = Some a).
Proof.
  intros Hok. assert (one_home (foldl (apply_sharded sha256) (from_state_tree t) ops)) as H.
  { pose proof (from_state_tree_home t) as H. revert Hok H. generalize (from_state_tree t). clear t.
    induction ops as [|op ops IH]; intros s Hok H; [done|]. destruct Hok as [Ho Hok].
    apply (IH (apply_sharded sha256 s op)); [done|]. by apply apply_sharded_home. }
  split; [apply (oh_unique _ H)|]. intros id a. by apply one_home_get.
Qed.

(* ------------------------------------------------------------------ *)
(** * What the moves between shards get wrong *)

(** [insert] of an account of the default shard whose deterministic shard is
    another one moves it there and drops its contract storage. *)
Lemma sharded_insert_drops_storage sha256 t a slot :
  accounts t !! acc_id_com a = Some a -> deterministic_shard (acc_id_com a) <> 0 ->
  sharded_get_storage (from_state_tree t) (acc_id_com a) slot = get_storage t (acc_id_com a) slot /\
  sharded_get_storage (sharded_insert sha256 (from_state_tree t) a) (acc_id_com a) slot = 0.
Proof.
  intros Ha Hd. set (id := acc_id_com a). set (d := deterministic_shard id) in *. split.
  { unfold sharded_get_storage. destruct (find_shard (from_state_tree t) (has_account id)) as [[i u]|] eqn:E.
    - apply find_shard_some in E as [Hi _]. cbn in Hi. by apply lookup_singleton_Some in Hi as [_ <-].
    - pose proof (find_shard_none _ _ 0 t E ltac:(apply lookup_singleton_eq)) as Hf.
      unfold has_account in Hf. fold id in Ha. rewrite Ha in Hf. done. }
  unfold sharded_get_storage. destruct (find_shard _ _) as [[i u]|] eqn:E; [|done].
  apply find_shard_some in E as [Hi Hu%has_account_true].
  pose proof (sharded_insert_get sha256 (from_state_tree t) a i id (from_state_tree_home t)) as Eg.
  rewrite (decide_True (P := id = acc_id_com a)) in Eg by done. unfold shard_get in Eg. rewrite Hi in Eg. cbn in Eg.
  case_decide as Hid; [|rewrite Eg in Hu; by destruct Hu].
  change (target_shard (from_state_tree t) id) with d in Hid. subst i.
  revert Hi. unfold sharded_insert. fold id. cbn [from_state_tree shard_index shards target_shard]. rewrite lookup_empty.
  change (target_shard (from_state_tree t) id) with d. destruct (Z.eqb_spec d 0) as [|_]; [done|]. cbn.
  rewrite lookup_insert_eq, lookup_alter_ne, lookup_singleton_ne by done. intros [= <-]. done.
Qed.

Lemma find_shard_single t p : p t = true -> find_shard (from_state_tree t) p = Some (0, t).
Proof.
  intros Hp. destruct (find_shard (from_state_tree t) p) as [[i u]|] eqn:E.
  - apply find_shard_some in E as [Hi _]. cbn in Hi. by apply lookup_singleton_Some in Hi as [<- <-].
  - rewrite (find_shard_none _ _ 0 t E) in Hp; [done|apply lookup_singleton_eq].
Qed.

(** The state after the expiry of an account of the default shard and the
    insertion of a new one under the same id. *)
Lemma sharded_recreate sha256 t a b slot :
  let id := acc_id_com b in
  accounts t !! id = Some a -> deterministic_shard id <> 0 ->
  sharded_insert sha256 (fst (sharded_expire sha256 (from_state_tree t) id slot)) b =
    {| shards := <[deterministic_shard id := insert_account sha256 state_new b]>
         {[0 := fst (expire_account sha256 t id slot)]};
       shard_index := {[id := deterministic_shard id]} |}.
Proof.
  intros id Ha Hd. unfold sharded_expire.
  rewrite (find_shard_single t) by (apply has_account_true; rewrite Ha; by eexists).
  pose proof (expire_accounts sha256 t id slot) as Ea.
  destruct (expire_account sha256 t id slot) as [t1 o] eqn:E1. cbn [fst] in *.
  assert (match o with Some _ => set_index _ _ | None => _ end = from_state_tree t1) as ->.
  { unfold from_state_tree, set_index. cbn. rewrite insert_singleton_eq. destruct o; [|done]. by rewrite delete_empty. }
  unfold sharded_insert. fold id. cbn [from_state_tree shard_index shards]. rewrite lookup_empty.
  change (target_shard (from_state_tree t1) id) with (deterministic_shard id).
  destruct (Z.eqb_spec (deterministic_shard id) 0) as [|_]; [done|]. cbn [negb].
  unfold set_index, shard_mut, get_shard_mut. cbn [shards shard_index from_state_tree].
  assert (alter (shard_remove sha256 id) 0 {[0 := t1]} = {[0 := t1]} :> gmap Z StateTree) as ->.
  { apply alter_id. intros u Hu. apply lookup_singleton_Some in Hu as [_ <-].
    unfold shard_remove, remove_account. by rewrite Ea, lookup_delete_eq. }
  by rewrite lookup_singleton_ne.
Qed.

(** A stub of the default shard survives the creation of a new account under
    its id, since that account is placed in another shard.  Resurrecting the old
    account then hides the new one: [get] returns the old account with the old
    balance, and the new one stays in its shard where nothing finds it. *)
Theorem resurrection_hides_account sha256 t a b slot new_slot :
  let id := acc_id_com b in
  state_ok sha256 t -> accounts t !! id = Some a -> deterministic_shard id <> 0 ->
  let s2 := sharded_insert sha256 (fst (sharded_expire sha256 (from_state_tree t) id slot)) b in
  sharded_get s2 id = Some b /\
  exists s3,
    sharded_resurrect sha256 s2
      {| proof_account := a; proof_storage := default ∅ (contract_storage t !! id) |} new_slot = Ok s3 /\
    sharded_get s3 id = Some (set_last_touched a new_slot) /\
    shard_get s3 (deterministic_shard id) id = Some b.
Proof.
  intros id Hok Ha Hd s2. pose proof (sharded_recreate sha256 t a b slot Ha Hd) as Er. fold id in Er.
  unfold s2. clear s2. rewrite Er. clear Er.
  destruct (expire_resurrect_tree sha256 t id a slot new_slot Hok Ha) as (t2 & Hr & E2 & _).
  assert (acc_id_com a = id) as Hia by (destruct Hok as [[Hid _ _] _]; by apply Hid).
  set (d := deterministic_shard id) in *. set (t1 := fst (expire_account sha256 t id slot)) in *.
  set (s2 := {| shards := _; shard_index := _ |}).
  assert (find_shard s2 (is_stubbed_in id) = Some (0, t1)) as Ef.
  { assert (shards s2 !! 0 = Some t1) as H0 by (unfold s2; cbn; by rewrite lookup_insert_ne, lookup_singleton_eq).
    destruct (find_shard s2 (is_stubbed_in id)) as [[i u]|] eqn:E.
    - apply find_shard_some in E as [Hi Hu]. cbn in Hi. apply lookup_insert_Some in Hi as [[<- <-]|[_ Hi]].
      + unfold is_stubbed_in in Hu. cbn in Hu. by rewrite lookup_delete_eq in Hu.
      + by apply lookup_singleton_Some in Hi as [<- <-].
    - pose proof (find_shard_none _ _ 0 t1 E H0) as Hf. unfold is_stubbed_in, t1, expire_account in Hf.
      rewrite Ha in Hf. cbn in Hf. by rewrite lookup_insert_eq in Hf. }
  split.
  { unfold sharded_get, shard_get, target_shard, s2. cbn. rewrite lookup_singleton_eq. cbn.
    rewrite lookup_insert_eq. cbn. by rewrite lookup_insert_eq. }
  eexists. split.
  { unfold sharded_resurrect. cbn [proof_account]. rewrite Hia, Ef, Hr. cbn [rbind]. done. }
  unfold sharded_get, target_shard, shard_get. cbn. rewrite lookup_insert_eq. cbn. rewrite lookup_insert_eq. cbn.
  split; [by rewrite E2; cbn; rewrite lookup_insert_eq|]. rewrite lookup_insert_ne, lookup_insert_eq by done. cbn.
  by rewrite lookup_insert_eq.
Qed.

(* ------------------------------------------------------------------ *)
(** * Concrete states *)

Lemma no_alias_clash_new sha256 a : no_alias_clash sha256 state_new a.
Proof. split; intros i b Hb; cbn [accounts state_new] in Hb; by rewrite lookup_empty in Hb. Qed.

Module SampleSharded.
Definition sha := SampleTree.sha.
(** The first two bytes of the id are 0 and 3. *)
Definition carol : Account := with_balance (3 * 256 ^ 30) 100.
Definition fresh : Account := with_balance (3 * 256 ^ 30) 7.
Definition tree : StateTree := insert_account sha state_new fresh.
Definition dave : Account := with_balance (4 * 256 ^ 30) 9.
Definition ops : list ShardedOp :=
  [ShInsert carol; ShExpire (acc_id_com carol) 9; ShResurrect {| proof_account := carol; proof_storage := ∅ |} 12;
   ShInsertInto 5 carol; ShDefault (fun t => insert_account sha t dave)].

Lemma sharded_tree_ok : state_ok sha tree.
Proof. apply insert_account_ok; [apply state_new_ok|apply no_alias_clash_new]. Qed.
End SampleSharded.

Lemma sharded_one_home_witness :
  let s := foldl (apply_sharded SampleSharded.sha) (from_state_tree SampleSharded.tree) SampleSharded.ops in
  sharded_get s (acc_id_com SampleSharded.carol) = Some SampleSharded.carol /\
  sharded_get s (acc_id_com SampleSharded.dave) = Some SampleSharded.dave.
Proof.
  assert (sharded_ops_ok SampleSharded.sha (from_state_tree SampleSharded.tree) SampleSharded.ops) as Hok.
  { cbn [SampleSharded.ops sharded_ops_ok sharded_op_ok].
    split_and!; [exact I|exact I|vm_compute; reflexivity| | |exact I].
    - left. apply (bool_decide_unpack _). vm_compute. exact I.
    - intros id Hid. destruct (decide (id = acc_id_com SampleSharded.dave)) as [->|Hne].
      + right. split; [vm_compute; reflexivity|right]. split; vm_compute; reflexivity.
      + exfalso. revert Hid. match goal with |- context [default state_new ?x] => set (o := x) end.
        assert (accounts (default state_new o) = ∅) as E0 by (vm_compute; reflexivity).
        cbn [accounts insert_account]. rewrite lookup_insert_ne by (intros E; apply Hne; symmetry; exact E).
        rewrite E0, lookup_empty. intros [x Hx]. discriminate Hx. }
  pose proof (sharded_one_home SampleSharded.sha SampleSharded.ops SampleSharded.tree Hok) as [_ Hget].
  split; apply Hget; [exists 5|exists 0]; vm_compute; reflexivity.
Defined.

Lemma resurrection_hides_account_witness :
  exists s3,
    sharded_get s3 (acc_id_com SampleSharded.carol) = Some (set_last_touched SampleSharded.fresh 12) /\
    shard_get s3 3 (acc_id_com SampleSharded.carol) = Some SampleSharded.carol.
Proof.
  destruct (resurrection_hides_account SampleSharded.sha SampleSharded.tree SampleSharded.fresh
    SampleSharded.carol 9 12 SampleSharded.sharded_tree_ok) as (_ & s3 & _ & H & H').
  - vm_compute. reflexivity.
  - vm_compute. discriminate.
  - exists s3. split; [exact H|exact H'].
Defined.
