(* ===== verification/StateM.v ===== *)
(** Code that changes a state tree and may fail.

    A Rust function taking [&mut StateTree] and returning [Result] is a
    computation of [M]: it yields the changed state with the result, so that
    what an error leaves behind is part of the model.  [let!] sequences
    computations and stops at the first error, as [?] does.  [wp] is the
    weakest precondition of a computation, and [wp_go] runs one symbolically. *)

From S2P Require Import Prelude SigAlgo Account StateTree.
Local Open Scope Z_scope.
Local Open Scope ace_scope.

Definition M (E A : Type) : Type := StateTree -> StateTree * result E A.

Definition ret {E A} (a : A) : M E A := fun t => (t, Ok a).
Definition fail {E A} (e : E) : M E A := fun t => (t, Err e).

Definition bind {E A B} (m : M E A) (k : A -> M E B) : M E B := fun t =>
  match m t with
  | (t', Ok a) => k a t'
  | (t', Err e) => (t', Err e)
  end.

Notation "'let!' x := m 'in' k" := (bind m (fun x => k))
  (at level 10, x pattern, m at level 100, k at level 200) : ace_scope.
Notation "'do!' m 'in' k" := (bind m (fun _ => k))
  (at level 10, m at level 100, k at level 200) : ace_scope.

Definition get {E} : M E StateTree := fun t => (t, Ok t).
Definition gets {E A} (f : StateTree -> A) : M E A := fun t => (t, Ok (f t)).
Definition modify {E} (f : StateTree -> StateTree) : M E unit := fun t => (f t, Ok tt).

(** [ok_or(e)?], [if c return Err(e)] and a pure fallible step. *)
Definition require {E A} (o : option A) (e : E) : M E A :=
  match o with
  | Some a => ret a
  | None => fail e
  end.
Definition fail_if {E} (c : bool) (e : E) : M E unit := if c then fail e else ret tt.
Definition lift {E A} (r : result E A) : M E A := fun t => (t, r).

(** [f] under another error type. *)
Definition map_err {E F A} (f : E -> F) (m : M E A) : M F A := fun t =>
  match m t with
  | (t', Ok a) => (t', Ok a)
  | (t', Err e) => (t', Err (f e))
  end.

(** [let snapshot = state.snapshot(); ...; on error state.rollback(snapshot)]. *)
Definition atomically {E A} (m : M E A) : M E A := fun t =>
  let saved := snapshot t in
  match m t with
  | (t', Ok a) => (t', Ok a)
  | (t', Err e) => (rollback t' saved, Err e)
  end.

(** An update of the account behind [get_mut]. *)
Definition update {E} (id : AccountId) (f : Account -> Account) : M E unit :=
  modify (fun t => get_mut_update t id f).

(** [state.get(id)], [state.is_stubbed(id)] and [state.contains(id)]. *)
Definition get_account {E} (id : AccountId) : M E (option Account) :=
  gets (fun t => accounts t !! id).
Definition is_stubbed {E} (id : AccountId) : M E bool :=
  gets (fun t => bool_decide (is_Some (stubs t !! id))).
Definition contains {E} (id : AccountId) : M E bool :=
  gets (fun t => bool_decide (is_Some (accounts t !! id))).

(* ------------------------------------------------------------------ *)
(** * Weakest preconditions *)

Definition wp {E A} (m : M E A) (t : StateTree) (Q : StateTree -> result E A -> Prop) : Prop :=
  Q (fst (m t)) (snd (m t)).

Section rules.
Context {E A B : Type}.
Implicit Types (t : StateTree).

Lemma wp_ret (a : A) t (Q : StateTree -> result E A -> Prop) : Q t (Ok a) -> wp (ret a) t Q.
Proof. done. Qed.

Lemma wp_fail (e : E) t (Q : StateTree -> result E A -> Prop) : Q t (Err e) -> wp (fail e) t Q.
Proof. done. Qed.

Lemma wp_bind (m : M E A) (k : A -> M E B) t (Q : StateTree -> result E B -> Prop) :
  wp m t (fun t' r => match r with Ok a => wp (k a) t' Q | Err e => Q t' (Err e) end) ->
  wp (bind m k) t Q.
Proof. unfold wp, bind. destruct (m t) as [t' [a|e]]; done. Qed.

Lemma bind_run (m : M E A) (k : A -> M E B) t t1 a : m t = (t1, Ok a) -> bind m k t = k a t1.
Proof. unfold bind. by intros ->. Qed.

Lemma wp_get t (Q : StateTree -> result E StateTree -> Prop) : Q t (Ok t) -> wp get t Q.
Proof. done. Qed.

Lemma wp_gets (f : StateTree -> A) t (Q : StateTree -> result E A -> Prop) :
  Q t (Ok (f t)) -> wp (gets f) t Q.
Proof. done. Qed.

Lemma wp_modify f t (Q : StateTree -> result E unit -> Prop) : Q (f t) (Ok tt) -> wp (modify f) t Q.
Proof. done. Qed.

Lemma wp_update id f t (Q : StateTree -> result E unit -> Prop) :
  Q (get_mut_update t id f) (Ok tt) -> wp (update id f) t Q.
Proof. done. Qed.

Lemma wp_require (o : option A) (e : E) t (Q : StateTree -> result E A -> Prop) :
  (forall a, o = Some a -> Q t (Ok a)) -> (o = None -> Q t (Err e)) -> wp (require o e) t Q.
Proof. destruct o; intros H1 H2; [by apply H1|by apply H2]. Qed.

Lemma wp_fail_if c (e : E) t (Q : StateTree -> result E unit -> Prop) :
  (c = false -> Q t (Ok tt)) -> (c = true -> Q t (Err e)) -> wp (fail_if c e) t Q.
Proof. destruct c; intros H1 H2; [by apply H2|by apply H1]. Qed.

Lemma wp_lift (r : result E A) t (Q : StateTree -> result E A -> Prop) : Q t r -> wp (lift r) t Q.
Proof. done. Qed.

Lemma wp_if (c : bool) (m n : M E A) t (Q : StateTree -> result E A -> Prop) :
  (c = true -> wp m t Q) -> (c = false -> wp n t Q) -> wp (if c then m else n) t Q.
Proof. destruct c; auto. Qed.

Lemma wp_mono (m : M E A) t (Q R : StateTree -> result E A -> Prop) :
  (forall t' r, Q t' r -> R t' r) -> wp m t Q -> wp m t R.
Proof. intros H. apply H. Qed.

Lemma wp_run (m : M E A) t t' r (Q : StateTree -> result E A -> Prop) :
  wp m t Q -> m t = (t', r) -> Q t' r.
Proof. unfold wp. intros H Hr. by rewrite Hr in H. Qed.

(** A failed atomic computation changes nothing. *)
Lemma wp_atomically (m : M E A) t (Q : StateTree -> result E A -> Prop) :
  wp m t (fun t' r => match r with Ok a => Q t' (Ok a) | Err e => Q t (Err e) end) ->
  wp (atomically m) t Q.
Proof.
  unfold wp, atomically. destruct (m t) as [t' [a|e]]; simpl; [done|].
  by rewrite rollback_snapshot.
Qed.

Lemma atomically_err (m : M E A) t t' e : atomically m t = (t', Err e) -> t' = t.
Proof.
  unfold atomically. destruct (m t) as [s [a|f]]; [done|]. intros [= <- _].
  apply rollback_snapshot.
Qed.

Lemma atomically_ok (m : M E A) t t' a : atomically m t = (t', Ok a) -> m t = (t', Ok a).
Proof. unfold atomically. by destruct (m t) as [s [b|f]]. Qed.
End rules.

(** One step of symbolic execution. *)
Ltac wp_step :=
  lazymatch goal with
  | |- wp (bind _ _) _ _ => apply wp_bind
  | |- wp (ret _) _ _ => apply wp_ret
  | |- wp (fail _) _ _ => apply wp_fail
  | |- wp get _ _ => apply wp_get
  | |- wp (gets _) _ _ => apply wp_gets
  | |- wp (get_account _) _ _ => apply wp_gets
  | |- wp (is_stubbed _) _ _ => apply wp_gets
  | |- wp (contains _) _ _ => apply wp_gets
  | |- wp (modify _) _ _ => apply wp_modify
  | |- wp (update _ _) _ _ => apply wp_update
  | |- wp (require _ _) _ _ => apply wp_require; [intros ? ?|intros ?]
  | |- wp (fail_if _ _) _ _ => apply wp_fail_if; intros ?
  | |- wp (lift _) _ _ => apply wp_lift
  | |- wp (if _ then _ else _) _ _ => apply wp_if; intros ?
  end; cbv beta iota zeta.
Ltac wp_go := cbv beta iota zeta; repeat wp_step.
