(* ===== verification/Wire.v ===== *)
(** Reading and writing byte strings, shared by the codecs of the repository.

    A parser of the source takes slices and indices of its input and returns an
    error with a message.  A slice or index out of bounds panics in Rust; here
    it is [Err Panicked], so that the absence of panics is a theorem.  [safe]
    and its lemmas prove it, and the [rd] tactic runs a parser on a
    concatenation of written fields. *)

From S2P Require Import Prelude SigAlgo.
Local Open Scope Z_scope.
Local Open Scope ace_scope.

(** A message is the static part of the message of the source. *)
Inductive DecodeError : Type :=
| Rejected (msg : string)
| Panicked.

(* ------------------------------------------------------------------ *)
(** * Reading *)

Definition read_byte (p : nat) (l : list Z) : result DecodeError Z := ok_or (l !! p) Panicked.

(** [data[p..p + n]]. *)
Definition slice (p n : nat) (l : list Z) : result DecodeError (list Z) :=
  if (p + n <=? length l)%nat then Ok (take n (drop p l)) else Err Panicked.

(** [data[p..]]. *)
Definition slice_from (p : nat) (l : list Z) : result DecodeError (list Z) :=
  if (p <=? length l)%nat then Ok (drop p l) else Err Panicked.

Definition read_le (p n : nat) (l : list Z) : result DecodeError Z :=
  let? b := slice p n l in Ok (le_num b).

Definition read_u64 (p : nat) (l : list Z) : result DecodeError Z := read_le p 8 l.
Definition read_u16 (p : nat) (l : list Z) : result DecodeError nat :=
  let? n := read_le p 2 l in Ok (Z.to_nat n).

Definition read_u32 (p : nat) (l : list Z) : result DecodeError Z := read_le p 4 l.

(** A length of type [u32]. *)
Definition read_len32 (p : nat) (l : list Z) : result DecodeError nat :=
  let? n := read_le p 4 l in Ok (Z.to_nat n).

(** A [[u8; 16]] and a [[u8; 32]]. *)
Definition read_16 (p : nat) (l : list Z) : result DecodeError Z :=
  let? b := slice p 16 l in Ok (be_num b).
Definition read_32 (p : nat) (l : list Z) : result DecodeError Z :=
  let? b := slice p 32 l in Ok (be_num b).

(** [from_wire_bytes(..).map_err(..)]. *)
Definition map_wire_err {A} (msg : string) (r : result WireError A) : result DecodeError A :=
  match r with
  | Ok a => Ok a
  | Err _ => Err (Rejected msg)
  end.

(** [if cond return Err(msg)]. *)
Definition reject {A} (cond : bool) (msg : string) (k : result DecodeError A)
    : result DecodeError A :=
  if cond then Err (Rejected msg) else k.

(** [len as u16] and [len as u32], little endian. *)
Definition len16 (l : list Z) : list Z := le_bytes 2 (Z.of_nat (length l)).
Definition len32 (l : list Z) : list Z := le_bytes 4 (Z.of_nat (length l)).

(* ------------------------------------------------------------------ *)
(** * No panics *)

Definition safe {A} (r : result DecodeError A) : Prop := r <> Err Panicked.

Lemma safe_bind {A B} (r : result DecodeError A) (k : A -> result DecodeError B) :
  safe r -> (forall a, r = Ok a -> safe (k a)) -> safe (rbind r k).
Proof. unfold safe. destruct r; simpl; [auto|congruence]. Qed.

Lemma safe_reject {A} c msg (k : result DecodeError A) : (c = false -> safe k) -> safe (reject c msg k).
Proof. unfold reject, safe. destruct c; [done|auto]. Qed.

Lemma safe_ok {A} (a : A) : safe (Ok a).
Proof. done. Qed.

Lemma safe_invalid {A} msg : safe (Err (Rejected msg) : result DecodeError A).
Proof. done. Qed.

Lemma safe_byte p l : (p < length l)%nat -> safe (read_byte p l).
Proof. intros H. unfold read_byte. by destruct (lookup_lt_is_Some_2 l p H) as [x ->]. Qed.

Lemma safe_slice p n l : (p + n <= length l)%nat -> safe (slice p n l).
Proof. intros H. unfold slice. by rewrite (proj2 (Nat.leb_le _ _) H). Qed.

Lemma safe_slice_from p l : (p <= length l)%nat -> safe (slice_from p l).
Proof. intros H. unfold slice_from. by rewrite (proj2 (Nat.leb_le _ _) H). Qed.

Lemma safe_le p n l : (p + n <= length l)%nat -> safe (read_le p n l).
Proof. intros H. apply safe_bind; [by apply safe_slice|done]. Qed.

Lemma safe_u64 p l : (p + 8 <= length l)%nat -> safe (read_u64 p l).
Proof. apply safe_le. Qed.

Lemma safe_u16 p l : (p + 2 <= length l)%nat -> safe (read_u16 p l).
Proof. intros H. apply safe_bind; [by apply safe_le|done]. Qed.

Lemma safe_u32 p l : (p + 4 <= length l)%nat -> safe (read_u32 p l).
Proof. apply safe_le. Qed.

Lemma safe_len32 p l : (p + 4 <= length l)%nat -> safe (read_len32 p l).
Proof. intros H. apply safe_bind; [by apply safe_le|done]. Qed.

Lemma safe_16 p l : (p + 16 <= length l)%nat -> safe (read_16 p l).
Proof. intros H. apply safe_bind; [by apply safe_slice|done]. Qed.

Lemma safe_32 p l : (p + 32 <= length l)%nat -> safe (read_32 p l).
Proof. intros H. apply safe_bind; [by apply safe_slice|done]. Qed.

Lemma safe_map_wire {A} msg (r : result WireError A) : safe (map_wire_err msg r).
Proof. by destruct r. Qed.

Lemma safe_ok_or {A} (o : option A) msg : safe (ok_or o (Rejected msg)).
Proof. by destruct o. Qed.

Lemma map_wire_ok {A} msg (r : result WireError A) a : map_wire_err msg r = Ok a -> r = Ok a.
Proof. destruct r; simpl; congruence. Qed.

Lemma slice_from_ok p l r : slice_from p l = Ok r -> r = drop p l /\ (p <= length l)%nat.
Proof. unfold slice_from. case_match eqn:E; [|done]. apply Nat.leb_le in E. naive_solver. Qed.

Lemma slice_ok p n l r : slice p n l = Ok r -> length r = n /\ (p + n <= length l)%nat.
Proof.
  unfold slice. case_match eqn:E; [|done]. apply Nat.leb_le in E. intros [= <-].
  rewrite length_take, length_drop. lia.
Qed.

Lemma pubkey_consumed l pk c : pubkey_from_wire_bytes l = Ok (pk, c) -> (c <= length l)%nat.
Proof.
  unfold pubkey_from_wire_bytes. destruct l as [|x [|y [|z l]]]; try done. intros H.
  apply rbind_ok in H as (a & _ & H). case_match; [done|]. case_match eqn:E; [done|].
  simplify_eq. apply Nat.ltb_ge in E. lia.
Qed.

Lemma signature_consumed l s c : signature_from_wire_bytes l = Ok (s, c) -> (c <= length l)%nat.
Proof.
  unfold signature_from_wire_bytes. destruct l as [|x [|y [|z l]]]; try done. intros H.
  apply rbind_ok in H as (a & _ & H). case_match; [done|]. case_match eqn:E; [done|].
  simplify_eq. apply Nat.ltb_ge in E. lia.
Qed.

(** Reading off what a bound check of the source established. *)
Ltac nat_prop :=
  repeat match goal with
  | H : (_ <? _)%nat = false |- _ => apply Nat.ltb_ge in H
  | H : (_ <? _)%nat = true |- _ => apply Nat.ltb_lt in H
  | H : (_ <=? _)%nat = false |- _ => apply Nat.leb_gt in H
  | H : (_ <=? _)%nat = true |- _ => apply Nat.leb_le in H
  | H : (_ =? _)%nat = true |- _ => apply Nat.eqb_eq in H
  | H : (_ =? _)%nat = false |- _ => apply Nat.eqb_neq in H
  | H : negb _ = false |- _ => apply negb_false_iff in H
  | H : _ || _ = false |- _ => apply orb_false_iff in H as [? ?]
  | H : _ && _ = true |- _ => apply andb_true_iff in H as [? ?]
  | H : slice_from _ _ = Ok _ |- _ => apply slice_from_ok in H as [-> ?]
  | H : slice _ _ _ = Ok _ |- _ => apply slice_ok in H as [? ?]
  | H : map_wire_err _ _ = Ok _ |- _ => apply map_wire_ok in H
  | H : pubkey_from_wire_bytes _ = Ok _ |- _ => apply pubkey_consumed in H
  | H : signature_from_wire_bytes _ = Ok _ |- _ => apply signature_consumed in H
  | H : context [length (drop _ _)] |- _ => rewrite length_drop in H
  end.

(** The parsers already shown safe. *)
Create HintDb safe.
#[export] Hint Extern 3 (_ < _)%nat => lia : safe.
#[export] Hint Extern 3 (_ <= _)%nat => lia : safe.

Ltac safe_step :=
  first
    [ solve [auto 2 with safe nocore] | apply safe_ok | apply safe_invalid | apply safe_map_wire | apply safe_ok_or
    | apply safe_reject; intros ?; nat_prop
    | apply safe_u64; lia | apply safe_u32; lia | apply safe_len32; lia | apply safe_16; lia
    | apply safe_u16; lia | apply safe_32; lia | apply safe_byte; lia
    | apply safe_slice; lia | apply safe_slice_from; lia
    | apply safe_bind; [|intros ? ?; nat_prop]
    | match goal with |- safe (let (_, _) := ?x in _) => is_var x; destruct x; nat_prop end
    | match goal with |- safe (if ?c then _ else _) => destruct c eqn:?; nat_prop end ].

Ltac solve_safe := repeat safe_step.

(* ------------------------------------------------------------------ *)
(** * Reading back what was written *)

Lemma slice_here p n a b : p = 0%nat -> length a = n -> slice p n (a ++ b) = Ok a.
Proof.
  intros -> <-. unfold slice. rewrite length_app. rewrite (proj2 (Nat.leb_le _ _)) by lia.
  rewrite drop_0. by rewrite take_app_length.
Qed.

Lemma slice_skip p n a b : (length a <= p)%nat -> slice p n (a ++ b) = slice (p - length a) n b.
Proof.
  intros H. unfold slice. rewrite length_app, drop_app_ge by done.
  assert ((p + n <=? length a + length b)%nat = (p - length a + n <=? length b)%nat) as ->; [|done].
  apply Bool.eq_iff_eq_true. rewrite !Nat.leb_le. lia.
Qed.

Lemma slice_from_here p a : p = 0%nat -> slice_from p a = Ok a.
Proof. by intros ->. Qed.

Lemma slice_from_skip p a b :
  (length a <= p)%nat -> slice_from p (a ++ b) = slice_from (p - length a) b.
Proof.
  intros H. unfold slice_from. rewrite length_app, drop_app_ge by done.
  assert ((p <=? length a + length b)%nat = (p - length a <=? length b)%nat) as ->; [|done].
  apply Bool.eq_iff_eq_true. rewrite !Nat.leb_le. lia.
Qed.

Lemma read_byte_here p x b : p = 0%nat -> read_byte p ([x] ++ b) = Ok x.
Proof. by intros ->. Qed.

Lemma read_byte_skip p a b :
  (length a <= p)%nat -> read_byte p (a ++ b) = read_byte (p - length a) b.
Proof. intros H. unfold read_byte. by rewrite lookup_app_r. Qed.

Lemma read_u64_here p x b : p = 0%nat -> is_u64 x -> read_u64 p (le_bytes 8 x ++ b) = Ok x.
Proof.
  intros -> H. unfold read_u64, read_le. rewrite slice_here by (rewrite ?length_le_bytes; done).
  simpl. rewrite le_num_bytes; [done|]. change (256 ^ Z.of_nat 8) with (u64_max + 1). ilia.
Qed.

Lemma read_u64_skip p a b : (length a <= p)%nat -> read_u64 p (a ++ b) = read_u64 (p - length a) b.
Proof. intros H. unfold read_u64, read_le. by rewrite slice_skip. Qed.

Lemma read_32_here p x b : p = 0%nat -> is_u256 x -> read_32 p (be_bytes 32 x ++ b) = Ok x.
Proof.
  intros -> H. unfold read_32. rewrite slice_here by (rewrite ?length_be_bytes; done).
  simpl. by rewrite be_num_bytes.
Qed.

Lemma read_32_skip p a b : (length a <= p)%nat -> read_32 p (a ++ b) = read_32 (p - length a) b.
Proof. intros H. unfold read_32. by rewrite slice_skip. Qed.

Lemma read_u16_here p l b :
  p = 0%nat -> Z.of_nat (length l) < 65536 -> read_u16 p (len16 l ++ b) = Ok (length l).
Proof.
  intros -> H. unfold read_u16, read_le, len16. rewrite slice_here by (rewrite ?length_le_bytes; done).
  simpl. rewrite le_num_bytes; [by rewrite Nat2Z.id|]. change (256 ^ Z.of_nat 2) with 65536. lia.
Qed.

Lemma read_u16_skip p a b : (length a <= p)%nat -> read_u16 p (a ++ b) = read_u16 (p - length a) b.
Proof. intros H. unfold read_u16, read_le. by rewrite slice_skip. Qed.

Lemma read_u32_here p x b : p = 0%nat -> is_u32 x -> read_u32 p (le_bytes 4 x ++ b) = Ok x.
Proof.
  intros -> H. unfold read_u32, read_le. rewrite slice_here by (rewrite ?length_le_bytes; done).
  simpl. rewrite le_num_bytes; [done|]. change (256 ^ Z.of_nat 4) with (2 ^ 32). ilia.
Qed.

Lemma read_u32_skip p a b : (length a <= p)%nat -> read_u32 p (a ++ b) = read_u32 (p - length a) b.
Proof. intros H. unfold read_u32, read_le. by rewrite slice_skip. Qed.

Lemma read_len32_here p l b :
  p = 0%nat -> Z.of_nat (length l) < 2 ^ 32 -> read_len32 p (len32 l ++ b) = Ok (length l).
Proof.
  intros -> H. unfold read_len32, read_le, len32.
  rewrite slice_here by (rewrite ?length_le_bytes; done).
  simpl. rewrite le_num_bytes; [by rewrite Nat2Z.id|]. change (256 ^ Z.of_nat 4) with (2 ^ 32). lia.
Qed.

Lemma read_len32_skip p a b :
  (length a <= p)%nat -> read_len32 p (a ++ b) = read_len32 (p - length a) b.
Proof. intros H. unfold read_len32, read_le. by rewrite slice_skip. Qed.

Lemma read_16_here p x b : p = 0%nat -> is_u128 x -> read_16 p (be_bytes 16 x ++ b) = Ok x.
Proof.
  intros -> H. unfold read_16. rewrite slice_here by (rewrite ?length_be_bytes; done).
  simpl. rewrite be_num_bytes; [done|]. change (256 ^ Z.of_nat 16) with (u128_max + 1). ilia.
Qed.

Lemma read_16_skip p a b : (length a <= p)%nat -> read_16 p (a ++ b) = read_16 (p - length a) b.
Proof. intros H. unfold read_16. by rewrite slice_skip. Qed.

(** The last field of a payload. *)
Lemma read_u64_last p x : p = 0%nat -> is_u64 x -> read_u64 p (le_bytes 8 x) = Ok x.
Proof. intros. rewrite <-(app_nil_r (le_bytes 8 x)). by apply read_u64_here. Qed.

Lemma read_byte_last p x : p = 0%nat -> read_byte p [x] = Ok x.
Proof. by intros ->. Qed.

Lemma read_32_last p x : p = 0%nat -> is_u256 x -> read_32 p (be_bytes 32 x) = Ok x.
Proof. intros. rewrite <-(app_nil_r (be_bytes 32 x)). by apply read_32_here. Qed.

Lemma slice_last p n a : p = 0%nat -> length a = n -> slice p n a = Ok a.
Proof. intros. rewrite <-(app_nil_r a) at 1. by apply slice_here. Qed.

Lemma length_len16 l : length (len16 l) = 2%nat.
Proof. apply length_le_bytes. Qed.

Lemma length_len32 l : length (len32 l) = 4%nat.
Proof. apply length_le_bytes. Qed.

Lemma length_one (x : Z) : length [x] = 1%nat.
Proof. done. Qed.

Create Rewrite HintDb lens.
#[export] Hint Rewrite @length_app length_le_bytes length_be_bytes length_len16 length_len32 length_one : lens.

(** Side conditions of the reading lemmas: lengths, bound checks and ranges. *)
Ltac rd_side :=
  first
    [ assumption
    | autorewrite with lens;
      solve
        [ reflexivity
        | lia
        | rewrite ?negb_false_iff, ?orb_false_iff, ?andb_false_iff, ?negb_false_iff, ?Nat.ltb_ge,
            ?Nat.ltb_lt, ?Nat.leb_gt, ?Nat.leb_le, ?Nat.eqb_eq, ?Nat.eqb_neq; lia ] ].

Lemma rbind_step {A B} (r : result DecodeError A) a (k : A -> result DecodeError B) v :
  r = Ok a -> k a = v -> rbind r k = v.
Proof. by intros ->. Qed.

Lemma reject_step {A} c msg (k : result DecodeError A) v : c = false -> k = v -> reject c msg k = v.
Proof. by intros ->. Qed.

Lemma if_true_step {A} c (a b v : A) : c = true -> a = v -> (if c then a else b) = v.
Proof. by intros ->. Qed.

Lemma if_false_step {A} c (a b v : A) : c = false -> b = v -> (if c then a else b) = v.
Proof. by intros ->. Qed.

(** Reads the field at the current offset, or skips one field. *)
Ltac rd_read :=
  lazymatch goal with
  | |- read_u64 _ _ = _ =>
      first [ rewrite read_u64_here by rd_side; reflexivity | rewrite read_u64_last by rd_side; reflexivity
            | rewrite read_u64_skip by rd_side; rd_read ]
  | |- read_32 _ _ = _ =>
      first [ rewrite read_32_here by rd_side; reflexivity | rewrite read_32_last by rd_side; reflexivity
            | rewrite read_32_skip by rd_side; rd_read ]
  | |- read_u32 _ _ = _ =>
      first [ rewrite read_u32_here by rd_side; reflexivity
            | rewrite read_u32_skip by rd_side; rd_read ]
  | |- read_len32 _ _ = _ =>
      first [ rewrite read_len32_here by rd_side; reflexivity
            | rewrite read_len32_skip by rd_side; rd_read ]
  | |- read_16 _ _ = _ =>
      first [ rewrite read_16_here by rd_side; reflexivity
            | rewrite read_16_skip by rd_side; rd_read ]
  | |- read_u16 _ _ = _ =>
      first [ rewrite read_u16_here by rd_side; reflexivity | rewrite read_u16_skip by rd_side; rd_read ]
  | |- read_byte _ _ = _ =>
      first [ rewrite read_byte_here by rd_side; reflexivity
            | rewrite read_byte_last by rd_side; reflexivity
            | rewrite read_byte_skip by rd_side; rd_read ]
  | |- slice _ _ _ = _ =>
      first [ rewrite slice_here by rd_side; reflexivity | rewrite slice_last by rd_side; reflexivity
            | rewrite slice_skip by rd_side; rd_read ]
  | |- slice_from _ _ = _ =>
      first [ rewrite slice_from_here by rd_side; reflexivity | rewrite slice_from_skip by rd_side; rd_read ]
  end.

Ltac rd_step :=
  lazymatch goal with
  | |- reject _ _ _ = _ => apply reject_step; [rd_side|]
  | |- rbind _ _ = _ => eapply rbind_step; [rd_read|cbv beta]
  | |- (if ?c then ?a else ?b) = ?v =>
      first [ refine (if_true_step c a b v _ _); [rd_side|]
            | refine (if_false_step c a b v _ _); [rd_side|] ]
  end.

Ltac rd := repeat rd_step.

(* ------------------------------------------------------------------ *)
(** * What a decoder yields *)

Definition post {A} (P : A -> Prop) (r : result DecodeError A) : Prop :=
  match r with Ok a => P a | Err _ => True end.

Lemma post_bind {A B} (P : B -> Prop) (r : result DecodeError A) k :
  (forall a, r = Ok a -> post P (k a)) -> post P (rbind r k).
Proof. destruct r; cbn; auto. Qed.
Lemma post_reject {A} (P : A -> Prop) c msg k : post P k -> post P (reject c msg k).
Proof. by destruct c. Qed.

Ltac solve_post :=
  repeat match goal with
  | |- post _ (rbind _ _) => apply post_bind; intros
  | |- post _ (reject _ _ _) => apply post_reject
  | |- post _ (let '(_, _) := ?x in _) => destruct x
  | |- post _ (match ?x with _ => _ end) => destruct x
  | |- post _ (Ok _) => cbn
  | |- post _ (Err _) => done
  end.
