(* ===== verification/Payload.v ===== *)
(** Native transaction payloads (ace-engine/src/executor.rs).

    [TransactionOp] with its byte decoder and encoder.  A slice or an index of
    the source that would be out of bounds is [Err Panicked]; the theorems show
    that no input makes the decoder panic, that every operation an account can
    be asked to perform survives encoding and decoding, and where the encoder
    and the decoder disagree. *)

From S2P Require Import Prelude SigAlgo Wire.
Local Open Scope Z_scope.
Local Open Scope ace_scope.

(* ------------------------------------------------------------------ *)
(** * Data *)

Definition OP_TRANSFER : Z := 1.
Definition OP_CREATE_ACCOUNT : Z := 2.
Definition OP_SET_AUTH_PUBKEY : Z := 3.
Definition OP_ADD_AUTH_KEY : Z := 4.
Definition OP_REGISTER_ADDRESSES : Z := 5.
Definition OP_HFI_PAY_CLAIM : Z := 6.
Definition OP_HFI_PAY_CREATE : Z := 7.
Definition OP_HFI_PAY_FUND : Z := 8.
Definition OP_HFI_PAY_EXPIRE : Z := 9.
Definition OP_HFI_PAY_REFUND : Z := 10.
Definition OP_HFI_PAY_REGISTER_RECIPIENT : Z := 11.
Definition OP_APPROVE_VALIDATOR : Z := 12.

Definition ADDR_TYPE_EVM : Z := 1.
Definition ADDR_TYPE_TRON : Z := 2.
Definition ADDR_TYPE_SOLANA : Z := 3.
Definition ADDR_TYPE_BTC : Z := 4.
Definition ADDR_TYPE_XID : Z := 16.
Definition ADDR_TYPE_XADDRESS : Z := 17.

Record AddressBinding := {
  address_type : Z;
  address : list Z;
  proof_pubkey : option (list Z);
  proof_sig : TaggedSignature;
}.

Inductive TransactionOp : Type :=
| Transfer (nonce : Z) (to : AccountId) (amount : Z)
| CreateAccount (id_com : AccountId) (auth_pubkey : TaggedPubkey)
| SetAuthPubkey (nonce : Z) (auth_pubkey : TaggedPubkey)
| AddAuthKey (nonce : Z) (auth_pubkey : TaggedPubkey)
| RegisterAddresses (nonce : Z) (bindings : list AddressBinding)
| HfiPayClaim (intent_id : Z) (destination : list Z) (destination_auth : option TaggedPubkey)
    (auth_commitment : Z)
| HfiPayCreate (nonce intent_id blinded_binding amount chain_id mint deposit_address
    binding_epoch expiry_slot refund_dest refund_authorizer identity_commitment : Z)
| HfiPayFund (nonce intent_id deposit_evidence deposit_amount : Z)
| HfiPayExpire (intent_id : Z)
| HfiPayRefund (nonce intent_id : Z) (refund_auth : option (list Z * list Z))
| ApproveValidator (nonce : Z) (candidate_id_com : AccountId) (signing_pubkey : list Z)
| HfiPayRegisterRecipient (nonce xid : Z) (identifier : list Z)
    (identity_commitment claim_binding_handle binding_epoch chain_tag valid_until_slot : Z)
    (pubkey signature : list Z).

(** The length assertion of the second constructor holds at both its uses. *)
Definition ed25519 (bytes : list Z) : TaggedPubkey :=
  {| pk_algorithm := Ed25519; pk_bytes := bytes |}.
Definition ml_dsa_44 (bytes : list Z) : TaggedPubkey :=
  {| pk_algorithm := MlDsa44; pk_bytes := bytes |}.

(* ------------------------------------------------------------------ *)
(** * Decoding *)

Definition decode_transfer (l : list Z) : result DecodeError TransactionOp :=
  reject (negb (length l =? 49)%nat) "transfer payload must be exactly 49 bytes" (
  let? nonce := read_u64 1 l in
  let? to := read_32 9 l in
  let? amount := read_u64 41 l in
  Ok (Transfer nonce to amount)).

Definition decode_create_account (l : list Z) : result DecodeError TransactionOp :=
  reject (length l <? 33)%nat "create_account payload too short" (
  let? id_com := read_32 1 l in
  let? auth_pubkey :=
    (if (length l =? 65)%nat then
       let? auth_bytes := slice 33 32 l in
       reject (bool_decide (auth_bytes = replicate 32 0))
         "create_account auth_pubkey must be non-zero"
         (Ok (ed25519 auth_bytes))
     else
       reject (length l <? 36)%nat "create_account extended payload too short for alg+len" (
       let? alg_tag := read_byte 33 l in
       let? pk_len := read_u16 34 l in
       reject (negb (length l =? 36 + pk_len)%nat)
         "create_account extended payload length mismatch" (
       let? pk_bytes := slice 36 pk_len l in
       let? algorithm :=
         ok_or (algorithm_from_tag alg_tag) (Rejected "create_account unknown alg_tag") in
       Ok {| pk_algorithm := algorithm; pk_bytes := pk_bytes |}))) in
  reject (pubkey_is_zero auth_pubkey) "create_account auth_pubkey must be non-zero"
    (Ok (CreateAccount id_com auth_pubkey))).

Definition decode_set_auth_pubkey (l : list Z) : result DecodeError TransactionOp :=
  let n := length l in
  if (n =? 33)%nat then
    let? pk := slice 1 32 l in
    Ok (SetAuthPubkey 0 (ed25519 pk))
  else if (n =? 41)%nat then
    let? nonce := read_u64 1 l in
    let? pk := slice 9 32 l in
    Ok (SetAuthPubkey nonce (ed25519 pk))
  else if (n =? 1313)%nat then
    let? pk := slice_from 1 l in
    Ok (SetAuthPubkey 0 (ml_dsa_44 pk))
  else if (n =? 1321)%nat then
    let? nonce := read_u64 1 l in
    let? pk := slice_from 9 l in
    Ok (SetAuthPubkey nonce (ml_dsa_44 pk))
  else if (12 <=? n)%nat then
    let? nonce := read_u64 1 l in
    let? key_bytes := slice_from 9 l in
    let? (auth_pubkey, consumed) :=
      map_wire_err "SetAuthPubkey" (pubkey_from_wire_bytes key_bytes) in
    reject (negb (consumed =? length key_bytes)%nat)
      "SetAuthPubkey: trailing bytes after pubkey"
      (Ok (SetAuthPubkey nonce auth_pubkey))
  else Err (Rejected "SetAuthPubkey: invalid payload length").

(** The closure [parse_tagged]. *)
Definition parse_tagged (key_bytes : list Z) : result DecodeError TaggedPubkey :=
  let? (auth_pubkey, consumed) :=
    map_wire_err "AddAuthKey" (pubkey_from_wire_bytes key_bytes) in
  reject (negb (consumed =? length key_bytes)%nat) "AddAuthKey: trailing bytes after pubkey"
    (Ok auth_pubkey).

Definition decode_legacy_add_auth_key (l : list Z) : result DecodeError TransactionOp :=
  let? key_bytes := slice_from 1 l in
  let? auth_pubkey := parse_tagged key_bytes in
  Ok (AddAuthKey 0 auth_pubkey).

Definition decode_add_auth_key (l : list Z) : result DecodeError TransactionOp :=
  if (12 <=? length l)%nat then
    let? key_bytes := slice_from 9 l in
    match pubkey_from_wire_bytes key_bytes with
    | Ok (pk, consumed) =>
        if (consumed =? length l - 9)%nat then
          let? nonce := read_u64 1 l in
          Ok (AddAuthKey nonce pk)
        else decode_legacy_add_auth_key l
    | Err _ => decode_legacy_add_auth_key l
    end
  else decode_legacy_add_auth_key l.

(** The optional public key of a binding, and the offset after it. *)
Definition decode_proof_pubkey (l : list Z) (flag : Z) (offset : nat)
    : result DecodeError (option (list Z) * nat) :=
  if negb (flag =? 0) then
    let? rest := slice_from offset l in
    let? (pk, consumed) := map_wire_err "binding proof_pubkey" (pubkey_from_wire_bytes rest) in
    Ok (Some (pk_bytes pk), (offset + consumed)%nat)
  else Ok (None, offset).

Definition decode_binding (l : list Z) (offset : nat) : result DecodeError (AddressBinding * nat) :=
  reject (length l - offset <? 4)%nat "binding: truncated header" (
  let? address_type := read_byte offset l in
  let? address_len := read_u16 (offset + 1) l in
  let offset := (offset + 3)%nat in
  reject (length l - offset <? address_len)%nat "binding: truncated address" (
  let? address := slice offset address_len l in
  let offset := (offset + address_len)%nat in
  reject (length l <=? offset)%nat "binding: missing has_pubkey flag" (
  let? flag := read_byte offset l in
  let offset := (offset + 1)%nat in
  let? (proof_pubkey, offset) := decode_proof_pubkey l flag offset in
  let? rest := slice_from offset l in
  let? (proof_sig, consumed) := map_wire_err "binding proof_sig" (signature_from_wire_bytes rest) in
  Ok ({| address_type := address_type; address := address; proof_pubkey := proof_pubkey;
         proof_sig := proof_sig |}, (offset + consumed)%nat)))).

Fixpoint decode_bindings (l : list Z) (count offset : nat)
    : result DecodeError (list AddressBinding) :=
  match count with
  | O => Ok []
  | S count =>
      let? (binding, offset) := decode_binding l offset in
      let? bindings := decode_bindings l count offset in
      Ok (binding :: bindings)
  end.

Definition decode_register_addresses (l : list Z) : result DecodeError TransactionOp :=
  reject (length l <? 10)%nat "RegisterAddresses payload too short" (
  let? nonce := read_u64 1 l in
  let? count := read_byte 9 l in
  reject ((count =? 0) || (6 <? count)) "RegisterAddresses binding count must be 1..=6" (
  let? bindings := decode_bindings l (Z.to_nat count) 10 in
  Ok (RegisterAddresses nonce bindings))).

Definition decode_hfi_pay_create (l : list Z) : result DecodeError TransactionOp :=
  reject (negb (length l =? 258)%nat) "HfiPayCreate payload must be 258 bytes" (
  let? nonce := read_u64 1 l in
  let? intent_id := read_32 9 l in
  let? blinded_binding := read_32 41 l in
  let? amount := read_u64 73 l in
  let? chain_id := read_byte 81 l in
  let? mint := read_32 82 l in
  let? deposit_address := read_32 114 l in
  let? binding_epoch := read_u64 146 l in
  let? expiry_slot := read_u64 154 l in
  let? refund_dest := read_32 162 l in
  let? refund_authorizer := read_32 194 l in
  let? identity_commitment := read_32 226 l in
  Ok (HfiPayCreate nonce intent_id blinded_binding amount chain_id mint deposit_address
        binding_epoch expiry_slot refund_dest refund_authorizer identity_commitment)).

Definition decode_hfi_pay_fund (l : list Z) : result DecodeError TransactionOp :=
  reject (negb (length l =? 81)%nat) "HfiPayFund payload must be 81 bytes" (
  let? nonce := read_u64 1 l in
  let? intent_id := read_32 9 l in
  let? deposit_evidence := read_32 41 l in
  let? deposit_amount := read_u64 73 l in
  Ok (HfiPayFund nonce intent_id deposit_evidence deposit_amount)).

Definition decode_hfi_pay_expire (l : list Z) : result DecodeError TransactionOp :=
  reject (negb (length l =? 33)%nat) "HfiPayExpire payload must be 33 bytes" (
  let? intent_id := read_32 1 l in
  Ok (HfiPayExpire intent_id)).

Definition decode_hfi_pay_refund (l : list Z) : result DecodeError TransactionOp :=
  reject (length l <? 41)%nat "HfiPayRefund payload must be at least 41 bytes" (
  let? nonce := read_u64 1 l in
  let? intent_id := read_32 9 l in
  if (length l =? 41)%nat then Ok (HfiPayRefund nonce intent_id None)
  else
    let? auth_present := read_byte 41 l in
    reject (negb (auth_present =? 1)) "HfiPayRefund extended: auth_present must be 0x01" (
    reject (length l <? 44)%nat "HfiPayRefund extended: truncated" (
    let? pk_len := read_u16 42 l in
    reject (length l <? 44 + pk_len + 2)%nat "HfiPayRefund extended: pubkey truncated" (
    let? pk := slice 44 pk_len l in
    let sig_offset := (44 + pk_len)%nat in
    let? sig_len := read_u16 sig_offset l in
    let expected_total := (sig_offset + 2 + sig_len)%nat in
    reject (length l <? expected_total)%nat "HfiPayRefund extended: sig truncated" (
    reject (negb (length l =? expected_total)%nat)
      "HfiPayRefund extended: trailing bytes after sig" (
    let? sig := slice (sig_offset + 2) sig_len l in
    Ok (HfiPayRefund nonce intent_id (Some (pk, sig))))))))).

Definition decode_approve_validator (l : list Z) : result DecodeError TransactionOp :=
  reject (length l <? 73)%nat "ApproveValidator payload too short" (
  let? nonce := read_u64 1 l in
  let? id := read_32 9 l in
  let? signing_pubkey := slice_from 41 l in
  let pk_len := length signing_pubkey in
  reject (negb (pk_len =? 32)%nat && negb (pk_len =? 1312)%nat)
    "ApproveValidator: signing_pubkey must be 32 or 1312 bytes"
    (Ok (ApproveValidator nonce id signing_pubkey))).

Definition MAX_ID_LEN : nat := 256.

Definition decode_hfi_pay_register_recipient (l : list Z) : result DecodeError TransactionOp :=
  reject (length l <? 128)%nat "HfiPayRegisterRecipient payload must be at least 128 bytes" (
  let? nonce := read_u64 1 l in
  let? xid := read_32 9 l in
  let? id_len := read_u16 41 l in
  let p := 43%nat in
  reject (MAX_ID_LEN <? id_len)%nat "HfiPayRegisterRecipient: identifier length exceeds max" (
  reject (length l <? p + id_len + 32 + 32 + 8 + 1 + 8 + 2 + 2)%nat
    "HfiPayRegisterRecipient: identifier truncated" (
  let? identifier := slice p id_len l in
  let p := (p + id_len)%nat in
  let? identity_commitment := read_32 p l in
  let p := (p + 32)%nat in
  let? claim_binding_handle := read_32 p l in
  let p := (p + 32)%nat in
  let? binding_epoch := read_u64 p l in
  let p := (p + 8)%nat in
  let? chain_tag := read_byte p l in
  let p := (p + 1)%nat in
  let? valid_until_slot := read_u64 p l in
  let p := (p + 8)%nat in
  let? pk_len := read_u16 p l in
  let p := (p + 2)%nat in
  reject (length l <? p + pk_len + 2)%nat "HfiPayRegisterRecipient: pubkey truncated" (
  let? pubkey := slice p pk_len l in
  let p := (p + pk_len)%nat in
  let? sig_len := read_u16 p l in
  let p := (p + 2)%nat in
  let expected := (p + sig_len)%nat in
  reject (negb (length l =? expected)%nat)
    "HfiPayRegisterRecipient: trailing or truncated signature" (
  let? signature := slice p sig_len l in
  Ok (HfiPayRegisterRecipient nonce xid identifier identity_commitment claim_binding_handle
        binding_epoch chain_tag valid_until_slot pubkey signature)))))).

Definition decode_hfi_pay_claim (l : list Z) : result DecodeError TransactionOp :=
  reject (length l <? 67)%nat "HFI claim payload too short" (
  let? intent_id := read_32 1 l in
  let? dest_len := read_byte 33 l in
  let dest_len := Z.to_nat dest_len in
  let p := 34%nat in
  reject ((32 <? dest_len)%nat || (length l <? p + dest_len + 1 + 32)%nat)
    "HFI claim: invalid dest_len or truncated payload" (
  let? destination := slice p dest_len l in
  let p := (p + dest_len)%nat in
  let? has_auth := read_byte p l in
  let p := (p + 1)%nat in
  let? (destination_auth, p) :=
    (if has_auth =? 0 then Ok (None, p)
     else if negb (has_auth =? 1) then
       Err (Rejected "HFI claim: has_auth must be 0 or 1")
     else
       reject (length l <? p + 2)%nat "HFI claim: truncated dest auth length" (
       let? auth_len := read_u16 p l in
       let p := (p + 2)%nat in
       reject (length l <? p + auth_len + 32)%nat "HFI claim: truncated dest auth pubkey" (
       let? wire := slice p auth_len l in
       let? (pk, consumed) := map_wire_err "HFI claim dest auth" (pubkey_from_wire_bytes wire) in
       reject (negb (consumed =? auth_len)%nat) "HFI claim: dest auth wire format mismatch"
         (Ok (Some pk, (p + auth_len)%nat))))) in
  reject (negb (p + 32 =? length l)%nat) "HFI claim: expected 32-byte auth_commitment at end" (
  let? auth_commitment := read_32 p l in
  Ok (HfiPayClaim intent_id destination destination_auth auth_commitment)))).

Definition decode (l : list Z) : result DecodeError TransactionOp :=
  match l with
  | [] => Err (Rejected "empty payload")
  | op :: _ =>
      if op =? OP_TRANSFER then decode_transfer l
      else if op =? OP_CREATE_ACCOUNT then decode_create_account l
      else if op =? OP_SET_AUTH_PUBKEY then decode_set_auth_pubkey l
      else if op =? OP_ADD_AUTH_KEY then decode_add_auth_key l
      else if op =? OP_REGISTER_ADDRESSES then decode_register_addresses l
      else if op =? OP_HFI_PAY_CLAIM then decode_hfi_pay_claim l
      else if op =? OP_HFI_PAY_CREATE then decode_hfi_pay_create l
      else if op =? OP_HFI_PAY_FUND then decode_hfi_pay_fund l
      else if op =? OP_HFI_PAY_EXPIRE then decode_hfi_pay_expire l
      else if op =? OP_HFI_PAY_REFUND then decode_hfi_pay_refund l
      else if op =? OP_HFI_PAY_REGISTER_RECIPIENT then decode_hfi_pay_register_recipient l
      else if op =? OP_APPROVE_VALIDATOR then decode_approve_validator l
      else Err (Rejected "unknown opcode")
  end.

(* ------------------------------------------------------------------ *)
(** * Encoding *)

(** The algorithm [encode] derives from an address type. *)
Definition binding_algorithm (address_type : Z) : SignatureAlgorithm :=
  if (address_type =? ADDR_TYPE_EVM) || (address_type =? ADDR_TYPE_TRON) ||
     (address_type =? ADDR_TYPE_BTC) then Secp256k1
  else if address_type =? ADDR_TYPE_SOLANA then Ed25519
  else if address_type =? ADDR_TYPE_XADDRESS then MlDsa44
  else Ed25519.

(** [None] is the panic of [to_wire_bytes]. *)
Definition encode_binding (b : AddressBinding) : option (list Z) :=
  pk ← match proof_pubkey b with
       | Some pk_bytes =>
           w ← pubkey_to_wire_bytes
                 {| pk_algorithm := binding_algorithm (address_type b); pk_bytes := pk_bytes |};
           Some ([1] ++ w)
       | None => Some [0]
       end;
  sig ← signature_to_wire_bytes (proof_sig b);
  Some ([address_type b] ++ len16 (address b) ++ address b ++ pk ++ sig).

Fixpoint encode_bindings (bs : list AddressBinding) : option (list Z) :=
  match bs with
  | [] => Some []
  | b :: bs =>
      x ← encode_binding b;
      y ← encode_bindings bs;
      Some (x ++ y)
  end.

(** The optional destination key of a claim; [None] is the panic of
    [u16::try_from(..).expect(..)] or of [to_wire_bytes]. *)
Definition encode_destination_auth (a : option TaggedPubkey) : option (list Z) :=
  match a with
  | None => Some [0]
  | Some pk =>
      w ← pubkey_to_wire_bytes pk;
      if (Z.of_nat (length w) <=? 65535) then Some ([1] ++ len16 w ++ w) else None
  end.

Definition encode (op : TransactionOp) : option (list Z) :=
  match op with
  | Transfer nonce to amount =>
      Some ([OP_TRANSFER] ++ le_bytes 8 nonce ++ be_bytes 32 to ++ le_bytes 8 amount)
  | CreateAccount id_com k =>
      if bool_decide (pk_algorithm k = Ed25519) && (length (pk_bytes k) =? 32)%nat then
        Some ([OP_CREATE_ACCOUNT] ++ be_bytes 32 id_com ++ pk_bytes k)
      else
        Some ([OP_CREATE_ACCOUNT] ++ be_bytes 32 id_com ++
              [algorithm_tag (pk_algorithm k)] ++ len16 (pk_bytes k) ++ pk_bytes k)
  | SetAuthPubkey nonce k => Some ([OP_SET_AUTH_PUBKEY] ++ le_bytes 8 nonce ++ pk_bytes k)
  | AddAuthKey nonce k =>
      wire ← pubkey_to_wire_bytes k;
      Some ([OP_ADD_AUTH_KEY] ++ le_bytes 8 nonce ++ wire)
  | RegisterAddresses nonce bindings =>
      bs ← encode_bindings bindings;
      Some ([OP_REGISTER_ADDRESSES] ++ le_bytes 8 nonce ++
            [Z.of_nat (length bindings) mod 2 ^ 8] ++ bs)
  | HfiPayClaim intent_id destination auth auth_commitment =>
      if (32 <? length destination)%nat then None
      else
        a ← encode_destination_auth auth;
        Some ([OP_HFI_PAY_CLAIM] ++ be_bytes 32 intent_id ++
              [Z.of_nat (length destination)] ++ destination ++ a ++ be_bytes 32 auth_commitment)
  | HfiPayCreate nonce intent_id blinded_binding amount chain_id mint deposit_address
      binding_epoch expiry_slot refund_dest refund_authorizer identity_commitment =>
      Some ([OP_HFI_PAY_CREATE] ++ le_bytes 8 nonce ++ be_bytes 32 intent_id ++
            be_bytes 32 blinded_binding ++ le_bytes 8 amount ++ [chain_id] ++
            be_bytes 32 mint ++ be_bytes 32 deposit_address ++ le_bytes 8 binding_epoch ++
            le_bytes 8 expiry_slot ++ be_bytes 32 refund_dest ++ be_bytes 32 refund_authorizer ++
            be_bytes 32 identity_commitment)
  | HfiPayFund nonce intent_id deposit_evidence deposit_amount =>
      Some ([OP_HFI_PAY_FUND] ++ le_bytes 8 nonce ++ be_bytes 32 intent_id ++
            be_bytes 32 deposit_evidence ++ le_bytes 8 deposit_amount)
  | HfiPayExpire intent_id => Some ([OP_HFI_PAY_EXPIRE] ++ be_bytes 32 intent_id)
  | HfiPayRefund nonce intent_id auth =>
      Some ([OP_HFI_PAY_REFUND] ++ le_bytes 8 nonce ++ be_bytes 32 intent_id ++
            match auth with
            | None => []
            | Some (pk, sig) => [1] ++ len16 pk ++ pk ++ len16 sig ++ sig
            end)
  | HfiPayRegisterRecipient nonce xid identifier identity_commitment claim_binding_handle
      binding_epoch chain_tag valid_until_slot pubkey signature =>
      Some ([OP_HFI_PAY_REGISTER_RECIPIENT] ++ le_bytes 8 nonce ++ be_bytes 32 xid ++
            len16 identifier ++ identifier ++ be_bytes 32 identity_commitment ++
            be_bytes 32 claim_binding_handle ++ le_bytes 8 binding_epoch ++ [chain_tag] ++
            le_bytes 8 valid_until_slot ++ len16 pubkey ++ pubkey ++ len16 signature ++ signature)
  | ApproveValidator nonce candidate_id_com signing_pubkey =>
      Some ([OP_APPROVE_VALIDATOR] ++ le_bytes 8 nonce ++ be_bytes 32 candidate_id_com ++
            signing_pubkey)
  end.

(* ------------------------------------------------------------------ *)
(** * The decoder never panics *)

Lemma decode_proof_pubkey_safe l f o : (o <= length l)%nat -> safe (decode_proof_pubkey l f o).
Proof. intros. unfold decode_proof_pubkey. destruct (negb _); solve_safe. Qed.

Lemma decode_proof_pubkey_offset l f o pk o' :
  decode_proof_pubkey l f o = Ok (pk, o') -> (o <= length l)%nat -> (o <= o' <= length l)%nat.
Proof.
  unfold decode_proof_pubkey. destruct (negb _); [|naive_solver]. intros H Ho.
  apply rbind_ok in H as (r & Hr & H). apply slice_from_ok in Hr as [-> ?].
  apply rbind_ok in H as ([k c] & Hc%map_wire_ok%pubkey_consumed & H).
  rewrite length_drop in Hc. simplify_eq. lia.
Qed.

Lemma decode_binding_safe l o : safe (decode_binding l o).
Proof.
  unfold decode_binding. cbv zeta. solve_safe; [apply decode_proof_pubkey_safe; lia|].
  match goal with H : decode_proof_pubkey _ _ _ = Ok _ |- _ =>
    apply decode_proof_pubkey_offset in H; [|lia] end. solve_safe.
Qed.

Lemma decode_bindings_safe l n o : safe (decode_bindings l n o).
Proof.
  revert o. induction n as [|n IH]; intros o; cbn [decode_bindings]; [apply safe_ok|].
  apply safe_bind; [apply decode_binding_safe|]. intros [b o'] _. apply safe_bind; [apply IH|].
  intros bs _. apply safe_ok.
Qed.

Lemma decode_register_safe l : safe (decode_register_addresses l).
Proof. unfold decode_register_addresses. solve_safe. apply decode_bindings_safe. Qed.

Lemma decode_add_auth_key_safe l : l <> [] -> safe (decode_add_auth_key l).
Proof.
  intros Hl. assert (1 <= length l)%nat by (destruct l; [done|simpl; lia]).
  assert (safe (decode_legacy_add_auth_key l)).
  { unfold decode_legacy_add_auth_key, parse_tagged. solve_safe. }
  unfold decode_add_auth_key. destruct (12 <=? length l)%nat eqn:E; [|done]. nat_prop. solve_safe.
  destruct (pubkey_from_wire_bytes _) as [[pk c]|]; [|done]. destruct (_ =? _)%nat; [|done].
  solve_safe.
Qed.

Lemma decode_set_auth_pubkey_safe l : safe (decode_set_auth_pubkey l).
Proof.
  unfold decode_set_auth_pubkey. cbv zeta.
  repeat (match goal with |- safe (if ?c then _ else _) => destruct c eqn:? end; nat_prop; solve_safe).
Qed.

Lemma decode_claim_safe l : safe (decode_hfi_pay_claim l).
Proof. unfold decode_hfi_pay_claim. cbv zeta. solve_safe. Qed.

(** The decoder accepts any bytes whatsoever without panicking: every index
    and slice it takes is within the payload. *)
Lemma decode_never_panics l : decode l <> Err Panicked.
Proof.
  change (safe (decode l)). unfold decode. destruct l as [|op l']; [apply safe_invalid|].
  set (l := op :: l'). assert (l <> []) by done. clearbody l.
  repeat match goal with |- safe (if ?c then _ else _) => destruct c end.
  - unfold decode_transfer. solve_safe.
  - unfold decode_create_account. solve_safe.
  - apply decode_set_auth_pubkey_safe.
  - by apply decode_add_auth_key_safe.
  - apply decode_register_safe.
  - apply decode_claim_safe.
  - unfold decode_hfi_pay_create. solve_safe.
  - unfold decode_hfi_pay_fund. solve_safe.
  - unfold decode_hfi_pay_expire. solve_safe.
  - unfold decode_hfi_pay_refund. cbv zeta. solve_safe.
  - unfold decode_hfi_pay_register_recipient. cbv zeta. solve_safe.
  - unfold decode_approve_validator. cbv zeta. solve_safe.
  - apply safe_invalid.
Qed.

(* ------------------------------------------------------------------ *)
(** * Round trip *)

(** The operations the two sides of the wire agree on: integers in range, keys
    and signatures of their algorithm's length, one to six bindings, the key of
    a [SetAuthPubkey] of one of the two algorithms with an untagged form. *)
Definition binding_wire_ok (b : AddressBinding) : Prop :=
  Z.of_nat (length (address b)) < 65536 /\
  (forall k, proof_pubkey b = Some k ->
    Z.of_nat (length k) = pubkey_len (binding_algorithm (address_type b))) /\
  (signature_is_well_formed (proof_sig b) = true \/ proof_sig b = ml_dsa_44_stripped).

Definition op_wire_ok (op : TransactionOp) : Prop :=
  match op with
  | Transfer nonce to amount => is_u64 nonce /\ is_u256 to /\ is_u64 amount
  | CreateAccount id_com k =>
      is_u256 id_com /\ pubkey_is_well_formed k = true /\ pubkey_is_zero k = false
  | SetAuthPubkey nonce k =>
      is_u64 nonce /\ pubkey_is_well_formed k = true /\
      (pk_algorithm k = Ed25519 \/ pk_algorithm k = MlDsa44)
  | AddAuthKey nonce k => is_u64 nonce /\ pubkey_is_well_formed k = true
  | RegisterAddresses nonce bindings =>
      is_u64 nonce /\ (1 <= length bindings <= 6)%nat /\ Forall binding_wire_ok bindings
  | HfiPayClaim intent_id destination auth auth_commitment =>
      is_u256 intent_id /\ (length destination <= 32)%nat /\ is_u256 auth_commitment /\
      (forall k, auth = Some k -> pubkey_is_well_formed k = true)
  | HfiPayCreate nonce intent_id blinded_binding amount chain_id mint deposit_address
      binding_epoch expiry_slot refund_dest refund_authorizer identity_commitment =>
      is_u64 nonce /\ is_u256 intent_id /\ is_u256 blinded_binding /\ is_u64 amount /\
      is_u256 mint /\ is_u256 deposit_address /\ is_u64 binding_epoch /\ is_u64 expiry_slot /\
      is_u256 refund_dest /\ is_u256 refund_authorizer /\ is_u256 identity_commitment
  | HfiPayFund nonce intent_id deposit_evidence deposit_amount =>
      is_u64 nonce /\ is_u256 intent_id /\ is_u256 deposit_evidence /\ is_u64 deposit_amount
  | HfiPayExpire intent_id => is_u256 intent_id
  | HfiPayRefund nonce intent_id auth =>
      is_u64 nonce /\ is_u256 intent_id /\
      (forall pk sig, auth = Some (pk, sig) ->
        Z.of_nat (length pk) < 65536 /\ Z.of_nat (length sig) < 65536)
  | ApproveValidator nonce candidate_id_com signing_pubkey =>
      is_u64 nonce /\ is_u256 candidate_id_com /\
      (Z.of_nat (length signing_pubkey) = 32 \/ Z.of_nat (length signing_pubkey) = 1312)
  | HfiPayRegisterRecipient nonce xid identifier identity_commitment claim_binding_handle
      binding_epoch chain_tag valid_until_slot pubkey signature =>
      is_u64 nonce /\ is_u256 xid /\ Z.of_nat (length identifier) <= 256 /\
      is_u256 identity_commitment /\ is_u256 claim_binding_handle /\ is_u64 binding_epoch /\
      is_u64 valid_until_slot /\ Z.of_nat (length pubkey) < 65536 /\
      Z.of_nat (length signature) < 65536
  end.
Definition round_trips (op : TransactionOp) : Prop :=
  exists l, encode op = Some l /\ decode l = Ok op.

(** Enters the branch of [decode] of the operation at hand. *)
Ltac rt_with dec :=
  eexists; split; [reflexivity|]; cbn [pk_bytes pk_algorithm];
  lazymatch goal with |- decode ?l = ?r => change (dec l = r) end;
  unfold dec; cbv zeta; rd; try reflexivity.

Lemma create_account_rt id_com k :
  op_wire_ok (CreateAccount id_com k) -> round_trips (CreateAccount id_com k).
Proof.
  intros (Hid & Hl%well_formed_length & Hz). unfold round_trips. cbn [encode].
  destruct k as [a kb]; cbn [pk_bytes pk_algorithm] in *.
  destruct (bool_decide (a = Ed25519) && (length kb =? 32)%nat) eqn:E.
  - apply andb_true_iff in E as [->%bool_decide_eq_true E]. nat_prop.
    assert (bool_decide (kb = replicate 32 0) = false).
    { apply bool_decide_eq_false. intros ->. done. }
    rt_with decode_create_account.
    eapply rbind_step; [rd; reflexivity|]. cbv beta. rd. reflexivity.
  - assert (length kb <> 29)%nat by (destruct a; cbn [pubkey_len] in Hl; lia).
    assert (Z.of_nat (length kb) < 65536) by (destruct a; cbn [pubkey_len] in Hl; lia).
    rt_with decode_create_account.
    eapply rbind_step; [rd|]. 
    + eapply rbind_step; [rewrite algorithm_from_tag_tag; reflexivity|reflexivity].
    + cbv beta. rd. reflexivity.
Qed.

Lemma set_auth_rt nonce k :
  op_wire_ok (SetAuthPubkey nonce k) -> round_trips (SetAuthPubkey nonce k).
Proof.
  intros (Hn & Hk%well_formed_length & Ha). destruct k as [a kb]; cbn [pk_bytes pk_algorithm] in *.
  destruct Ha as [-> | ->]; cbn [pubkey_len] in Hk; rt_with decode_set_auth_pubkey.
Qed.

Lemma add_auth_rt nonce k : op_wire_ok (AddAuthKey nonce k) -> round_trips (AddAuthKey nonce k).
Proof.
  intros (Hn & Hk).
  destruct (pubkey_wire_roundtrip k [] Hk) as (w & Hw & Hlen & Hr). rewrite app_nil_r in Hr.
  unfold round_trips. cbn [encode]. rewrite Hw. cbn [mbind option_bind].
  rt_with decode_add_auth_key. rewrite Hr. rd. reflexivity.
Qed.

Lemma refund_rt nonce intent_id auth :
  op_wire_ok (HfiPayRefund nonce intent_id auth) -> round_trips (HfiPayRefund nonce intent_id auth).
Proof.
  intros (Hn & Hk & Ha). destruct auth as [[pk sig]|].
  - destruct (Ha _ _ eq_refl). rt_with decode_hfi_pay_refund.
  - rt_with decode_hfi_pay_refund.
Qed.

Lemma claim_rt i d a c : op_wire_ok (HfiPayClaim i d a c) -> round_trips (HfiPayClaim i d a c).
Proof.
  intros (Hi & Hd & Hc & Ha). unfold round_trips. cbn [encode].
  rewrite (proj2 (Nat.ltb_ge _ _) Hd). destruct a as [k|]; cbn [encode_destination_auth].
  - destruct (pubkey_wire_roundtrip k [] (Ha k eq_refl)) as (w & Hw & Hlen & Hr).
    rewrite app_nil_r in Hr. rewrite Hw. cbn [mbind option_bind].
    assert (Z.of_nat (length w) < 65536).
    { rewrite Hlen. pose proof (well_formed_length k (Ha k eq_refl)).
      destruct (pk_algorithm k); cbn [pubkey_len] in *; lia. }
    rewrite (proj2 (Z.leb_le _ _)) by lia. cbn [mbind option_bind]. rewrite <-!app_assoc.
    rt_with decode_hfi_pay_claim. rewrite Nat2Z.id. rd. eapply rbind_step.
    + rd. rewrite Hr. cbn [map_wire_err]. eapply rbind_step; [reflexivity|]. cbv beta iota. rd. reflexivity.
    + cbv beta iota. rd. reflexivity.
  - cbn [mbind option_bind]. rt_with decode_hfi_pay_claim. rewrite Nat2Z.id. rd.
    eapply rbind_step; [rd; reflexivity|]. cbv beta iota. rd. reflexivity.
Qed.

Lemma binding_rt pre b rest :
  binding_wire_ok b ->
  exists w, encode_binding b = Some w /\
    decode_binding (pre ++ w ++ rest) (length pre) = Ok (b, (length pre + length w)%nat).
Proof.
  intros (Ha & Hk & Hs). destruct b as [t a k s]; cbn [address address_type proof_pubkey proof_sig] in *.
  destruct (signature_wire_roundtrip s rest Hs) as (ws & Hws & Hrs).
  unfold encode_binding; cbn [address address_type proof_pubkey proof_sig]. rewrite Hws.
  destruct k as [k|].
  - set (tk := {| pk_algorithm := binding_algorithm t; pk_bytes := k |}).
    destruct (pubkey_wire_roundtrip tk (ws ++ rest)) as (wk & Hwk & Hlen & Hrk).
    { apply Z.eqb_eq, Hk. done. }
    rewrite Hwk. cbn [mbind option_bind]. eexists; split; [reflexivity|]. rewrite <-!app_assoc.
    unfold decode_binding. cbv zeta. rd. eapply rbind_step.
    + unfold decode_proof_pubkey. rd. rewrite Hrk. cbn [map_wire_err].
      eapply rbind_step; reflexivity.
    + cbv beta iota. rd. rewrite Hrs. cbn [map_wire_err]. eapply rbind_step; [reflexivity|].
      cbv beta iota. f_equal. f_equal. autorewrite with lens. lia.
  - cbn [mbind option_bind]. eexists; split; [reflexivity|]. rewrite <-!app_assoc.
    unfold decode_binding. cbv zeta. rd. eapply rbind_step; [reflexivity|].
    cbv beta iota. rd. rewrite Hrs. cbn [map_wire_err]. eapply rbind_step; [reflexivity|].
    cbv beta iota. f_equal. f_equal. autorewrite with lens. lia.
Qed.

Lemma bindings_rt bs pre :
  Forall binding_wire_ok bs ->
  exists w, encode_bindings bs = Some w /\
    decode_bindings (pre ++ w) (length bs) (length pre) = Ok bs.
Proof.
  intros Hbs. revert pre. induction Hbs as [|b bs Hb _ IH]; intros pre; [by eexists|].
  cbn [encode_bindings decode_bindings length].
  destruct (binding_rt pre b [] Hb) as (w & Hw & _).
  destruct (IH (pre ++ w)) as (ws & Hws & Hd).
  destruct (binding_rt pre b ws Hb) as (w' & Hw' & Hdb). assert (w' = w) as -> by congruence.
  rewrite Hw, Hws. cbn [mbind option_bind]. eexists; split; [reflexivity|].
  eapply rbind_step; [apply Hdb|]. cbv beta iota. rewrite length_app, <-app_assoc in Hd.
  by eapply rbind_step.
Qed.

Lemma register_rt nonce bs :
  op_wire_ok (RegisterAddresses nonce bs) -> round_trips (RegisterAddresses nonce bs).
Proof.
  intros (Hn & Hlen & Hbs). unfold round_trips. cbn [encode].
  set (n := Z.of_nat (length bs) mod 2 ^ 8).
  assert (n = Z.of_nat (length bs)) as Hcount by (apply Z.mod_small; lia).
  destruct (bindings_rt bs ([OP_REGISTER_ADDRESSES] ++ le_bytes 8 nonce ++ [n]) Hbs) as (w & Hw & Hd).
  rewrite Hw. cbn [mbind option_bind]. rewrite <-!app_assoc in Hd.
  rt_with decode_register_addresses.
  assert (((n =? 0) || (6 <? n)) = false).
  { rewrite Hcount. lia. }
  rd. eapply rbind_step; [|reflexivity]. rewrite Hcount, Nat2Z.id. rewrite Hcount in Hd. apply Hd.
Qed.

(** The payload codec.  The decoder accepts any bytes whatsoever without
    panicking; and every operation with fields in range is encoded without panic
    and its bytes decode to the same operation, for all twelve opcodes: nested
    wire keys and signatures, optional fields and lists of address bindings
    included. *)
Theorem payload_roundtrip :
  (forall l, decode l <> Err Panicked) /\
  (forall op, op_wire_ok op -> exists l, encode op = Some l /\ decode l = Ok op).
Proof.
  split; [exact decode_never_panics|].
  change (forall op, op_wire_ok op -> round_trips op). intros op H.
  destruct op; try (cbn [op_wire_ok] in H; destruct_and? H).
  - rt_with decode_transfer.
  - by apply create_account_rt.
  - by apply set_auth_rt.
  - by apply add_auth_rt.
  - by apply register_rt.
  - by apply claim_rt.
  - rt_with decode_hfi_pay_create.
  - rt_with decode_hfi_pay_fund.
  - rt_with decode_hfi_pay_expire.
  - by apply refund_rt.
  - rt_with decode_approve_validator.
  - rt_with decode_hfi_pay_register_recipient. unfold MAX_ID_LEN. rd. reflexivity.
Qed.

Lemma payload_roundtrip_witness :
  let op := RegisterAddresses 7
    [{| address_type := ADDR_TYPE_EVM; address := replicate 20 170;
        proof_pubkey := Some (replicate 33 2);
        proof_sig := {| sig_algorithm := Secp256k1; sig_bytes := replicate 64 1 |} |};
     {| address_type := ADDR_TYPE_XID; address := replicate 32 9; proof_pubkey := None;
        proof_sig := ml_dsa_44_stripped |}] in
  op_wire_ok op /\ exists l, encode op = Some l /\ decode l = Ok op.
Proof.
  intros op. assert (op_wire_ok op) as Hok.
  { split; [done|]. split; [simpl; lia|]. repeat apply List.Forall_cons; [| |done].
    - split; [done|]. split; [by intros k [= <-]|by left].
    - split; [done|]. split; [done|by right]. }
  split; [exact Hok|]. exact (proj2 payload_roundtrip op Hok).
Defined.

Lemma pubkey_consumed_len l k c :
  pubkey_from_wire_bytes l = Ok (k, c) -> Z.of_nat c = 3 + pubkey_len (pk_algorithm k).
Proof.
  unfold pubkey_from_wire_bytes. destruct l as [|x [|y [|z l]]]; try done. intros H.
  apply rbind_ok in H as (a & _ & H). case_match eqn:E1; [done|]. case_match eqn:E; [done|].
  apply negb_false_iff, Z.eqb_eq in E1. rewrite E1 in H. injection H as <- <-. by destruct a.
Qed.

(** The encoder of [SetAuthPubkey] writes the raw key without its algorithm,
    and the decoder takes the algorithm from the length: an HMAC-SHA256 key comes
    back as an Ed25519 key with the same bytes, and the bytes written for a
    secp256k1 key decode to no operation at all, although the tagged form of both
    keys is accepted by the decoder. *)
Theorem set_auth_pubkey_loses_algorithm nonce bytes :
  is_u64 nonce ->
  let hmac := {| pk_algorithm := HmacSha256; pk_bytes := bytes |} in
  let secp := {| pk_algorithm := Secp256k1; pk_bytes := bytes |} in
  (pubkey_is_well_formed hmac = true ->
    exists l, encode (SetAuthPubkey nonce hmac) = Some l /\
      decode l = Ok (SetAuthPubkey nonce (ed25519 bytes))) /\
  (pubkey_is_well_formed secp = true ->
    exists l, encode (SetAuthPubkey nonce secp) = Some l /\ (forall op, decode l <> Ok op)) /\
  (forall k, pubkey_is_well_formed k = true -> k = hmac \/ k = secp ->
    exists w, pubkey_to_wire_bytes k = Some w /\
      decode ([OP_SET_AUTH_PUBKEY] ++ le_bytes 8 nonce ++ w) = Ok (SetAuthPubkey nonce k)).
Proof.
  intros Hn hmac secp. split; [|split].
  - intros Hk%well_formed_length. subst hmac. cbn [pk_bytes pk_algorithm pubkey_len] in Hk.
    rt_with decode_set_auth_pubkey.
  - intros Hk%well_formed_length. subst secp. cbn [pk_bytes pk_algorithm pubkey_len] in Hk.
    eexists; split; [reflexivity|]. intros op. cbn [pk_bytes].
    match goal with |- decode ?l <> ?r => change (decode_set_auth_pubkey l <> r) end.
    destruct (pubkey_from_wire_bytes bytes) as [[k c]|e] eqn:E.
    + assert (decode_set_auth_pubkey ([OP_SET_AUTH_PUBKEY] ++ le_bytes 8 nonce ++ bytes) =
              Err (Rejected "SetAuthPubkey: trailing bytes after pubkey")) as ->; [|done].
      unfold decode_set_auth_pubkey. cbv zeta. rd. rewrite E. cbn [map_wire_err].
      eapply rbind_step; [reflexivity|]. cbv beta iota. unfold reject.
      apply if_true_step; [|reflexivity]. apply negb_true_iff, Nat.eqb_neq.
      apply pubkey_consumed_len in E. destruct k as [[] ?]; cbn in E; lia.
    + assert (decode_set_auth_pubkey ([OP_SET_AUTH_PUBKEY] ++ le_bytes 8 nonce ++ bytes) =
              Err (Rejected "SetAuthPubkey")) as ->; [|done].
      unfold decode_set_auth_pubkey. cbv zeta. rd. by rewrite E.
  - intros k Hk Hkk. destruct (pubkey_wire_roundtrip k [] Hk) as (w & Hw & Hlen & Hr).
    rewrite app_nil_r in Hr. exists w. split; [done|]. apply well_formed_length in Hk.
    match goal with |- decode ?l = ?r => change (decode_set_auth_pubkey l = r) end.
    assert (length w = 35 \/ length w = 36)%nat.
    { destruct Hkk as [-> | ->]; subst hmac secp; cbn [pk_bytes pk_algorithm pubkey_len] in *; lia. }
    unfold decode_set_auth_pubkey. cbv zeta. rd. rewrite Hr. cbn [map_wire_err].
    eapply rbind_step; [reflexivity|]. cbv beta iota. rd. reflexivity.
Qed.

Lemma set_auth_pubkey_loses_algorithm_witness :
  is_u64 3 /\ pubkey_is_well_formed {| pk_algorithm := HmacSha256; pk_bytes := replicate 32 5 |} = true /\
  exists l, encode (SetAuthPubkey 3 {| pk_algorithm := HmacSha256; pk_bytes := replicate 32 5 |}) = Some l /\
    decode l = Ok (SetAuthPubkey 3 (ed25519 (replicate 32 5))).
Proof.
  split; [done|]. split; [reflexivity|].
  apply (proj1 (set_auth_pubkey_loses_algorithm 3 (replicate 32 5) ltac:(done))). reflexivity.
Defined.
