(* ===== verification/Transaction.v ===== *)
(** Transactions and attestations (ace-runtime/src/types/transaction.rs,
    types/attestation.rs, types/capability.rs, crypto/attestation.rs).

    An attestation binds the hash of a payload, an identity and a domain to a
    credential; a transaction adds the bytes of a foreign chain or a zero
    knowledge authorisation.  The file has the wire codecs, the transaction
    hash, the stripping of credentials for gossip and the verification of
    credentials.  The theorems show that the parser of a transaction never
    panics and inverts the encoder, that the transaction hash determines
    everything but the credential, the certificate and the authorisation, and
    that stripping keeps the hash and never leaves a transaction executable. *)

From S2P Require Import Prelude SigAlgo ValidatorSet Account Wire.
Local Open Scope Z_scope.
Local Open Scope ace_scope.

(* ------------------------------------------------------------------ *)
(** * Data *)

Record Domain := {
  chain_id : Z;
  domain_slot : Z;
}.

(** [context_tag] is a [[u8; 16]]. *)
Record Attestation := {
  obj_hash : Hash;
  idcom : AccountId;
  att_domain : Domain;
  context_tag : Z;
  credential : TaggedSignature;
}.

Record CommitteeApproval := {
  approval_signer : TaggedPubkey;
  approval_signature : TaggedSignature;
}.

Record CommitteeCertificate := {
  cert_domain : CommitteeDomain;
  cert_tx_hash : Hash;
  approvals : list CommitteeApproval;
}.

Inductive RawChainKind : Type :=
| RawEvm
| RawSolana
| RawBtc
| RawTron.

Record RawChainPayload := {
  raw_kind : RawChainKind;
  raw_bytes : list Z;
  committee_certificate : option CommitteeCertificate;
}.

Record ZkAuth := {
  zk_proof : list Z;
  zk_target : Z;
  rp_com : Z;
  zk_nonce : Z;
}.

Record Transaction := {
  payload : list Z;
  attestation : Attestation;
  raw_chain : option RawChainPayload;
  zk_auth : option ZkAuth;
}.

Definition raw_kind_tag (k : RawChainKind) : Z :=
  match k with
  | RawEvm => 1
  | RawSolana => 2
  | RawBtc => 3
  | RawTron => 4
  end.

Definition raw_kind_from_tag (tag : Z) : option RawChainKind :=
  if tag =? 1 then Some RawEvm
  else if tag =? 2 then Some RawSolana
  else if tag =? 3 then Some RawBtc
  else if tag =? 4 then Some RawTron
  else None.

Definition raw_committee_domain (k : RawChainKind) : option CommitteeDomain :=
  match k with
  | RawEvm => None
  | RawSolana => Some SolanaLight
  | RawBtc => Some BtcPayments
  | RawTron => None
  end.

Definition is_zk_auth (tx : Transaction) : bool := bool_decide (is_Some (zk_auth tx)).
Definition is_raw_chain (tx : Transaction) : bool := bool_decide (is_Some (raw_chain tx)).

(* ------------------------------------------------------------------ *)
(** * Attestations on the wire *)

Definition domain_to_bytes (d : Domain) : list Z :=
  le_bytes 4 (chain_id d) ++ le_bytes 4 (domain_slot d).

Definition ATTESTATION_FIXED_SIZE : nat := 88.

Definition to_identity_bytes (a : Attestation) : list Z :=
  be_bytes 32 (obj_hash a) ++ be_bytes 32 (idcom a) ++ domain_to_bytes (att_domain a) ++
  be_bytes 16 (context_tag a).

Definition attestation_to_bytes (a : Attestation) : option (list Z) :=
  w ← signature_to_wire_bytes (credential a);
  Some (be_bytes 32 (obj_hash a) ++ be_bytes 32 (idcom a) ++ domain_to_bytes (att_domain a) ++
        be_bytes 16 (context_tag a) ++ w).

Definition attestation_from_bytes (data : list Z) : result DecodeError Attestation :=
  reject (length data <? ATTESTATION_FIXED_SIZE + 3)%nat "attestation data too short" (
  let? obj_hash := read_32 0 data in
  let? idcom := read_32 32 data in
  let? chain_id := read_u32 64 data in
  let? slot := read_u32 68 data in
  let? context_tag := read_16 72 data in
  let? rest := slice_from 88 data in
  let? (credential, consumed) := map_wire_err "credential" (signature_from_wire_bytes rest) in
  reject (negb (ATTESTATION_FIXED_SIZE + consumed =? length data)%nat)
    "attestation has trailing bytes"
    (Ok {| obj_hash := obj_hash; idcom := idcom;
           att_domain := {| chain_id := chain_id; domain_slot := slot |};
           context_tag := context_tag; credential := credential |})).

Definition bytes_consumed (data : list Z) : result DecodeError nat :=
  reject (length data <? ATTESTATION_FIXED_SIZE + 3)%nat "attestation data too short" (
  let? rest := slice_from 88 data in
  let? (_, consumed) := map_wire_err "credential" (signature_from_wire_bytes rest) in
  Ok (ATTESTATION_FIXED_SIZE + consumed)%nat).

(* ------------------------------------------------------------------ *)
(** * Committee certificates on the wire *)

Definition committee_domain_tag (d : CommitteeDomain) : Z :=
  match d with
  | BtcPayments => 1
  | SolanaLight => 2
  end.

Definition committee_domain_from_tag (tag : Z) : option CommitteeDomain :=
  if tag =? 1 then Some BtcPayments
  else if tag =? 2 then Some SolanaLight
  else None.

Fixpoint approvals_to_bytes (l : list CommitteeApproval) : option (list Z) :=
  match l with
  | [] => Some []
  | a :: l =>
      k ← pubkey_to_wire_bytes (approval_signer a);
      s ← signature_to_wire_bytes (approval_signature a);
      rest ← approvals_to_bytes l;
      Some (k ++ s ++ rest)
  end.

(** The assertion on the number of approvals is active in debug builds only. *)
Definition certificate_to_bytes (c : CommitteeCertificate) : option (list Z) :=
  l ← approvals_to_bytes (approvals c);
  Some ([committee_domain_tag (cert_domain c)] ++
        [Z.min (Z.of_nat (length (approvals c))) 255] ++ be_bytes 32 (cert_tx_hash c) ++ l).

Fixpoint read_approvals (data : list Z) (count offset : nat)
    : result DecodeError (list CommitteeApproval * nat) :=
  match count with
  | O => Ok ([], offset)
  | S count =>
      let? rest := slice_from offset data in
      let? (signer, pk_consumed) :=
        map_wire_err "invalid committee approval signer" (pubkey_from_wire_bytes rest) in
      let offset := (offset + pk_consumed)%nat in
      let? rest := slice_from offset data in
      let? (signature, sig_consumed) :=
        map_wire_err "invalid committee approval signature" (signature_from_wire_bytes rest) in
      let offset := (offset + sig_consumed)%nat in
      let? (l, offset) := read_approvals data count offset in
      Ok ({| approval_signer := signer; approval_signature := signature |} :: l, offset)
  end.

Definition certificate_from_bytes (data : list Z) : result DecodeError CommitteeCertificate :=
  reject (length data <? 34)%nat "committee certificate truncated" (
  let? tag := read_byte 0 data in
  let? domain :=
    ok_or (committee_domain_from_tag tag) (Rejected "invalid committee certificate domain") in
  let? approval_count := read_byte 1 data in
  let? tx_hash := read_32 2 data in
  let? (approvals, offset) := read_approvals data (Z.to_nat approval_count) 34 in
  reject (negb (offset =? length data)%nat) "committee certificate has trailing bytes"
    (Ok {| cert_domain := domain; cert_tx_hash := tx_hash; approvals := approvals |})).

(* ------------------------------------------------------------------ *)
(** * Transactions on the wire *)

(** The part after the attestation; a raw chain hides an authorisation. *)
Definition extension_bytes (include_certificate : bool) (tx : Transaction) : option (list Z) :=
  match raw_chain tx with
  | Some r =>
      cert ← (if include_certificate then
                match committee_certificate r with
                | Some c => b ← certificate_to_bytes c; Some ([1] ++ len32 b ++ b)
                | None => Some [0]
                end
              else Some []);
      Some ([raw_kind_tag (raw_kind r)] ++ len32 (raw_bytes r) ++ raw_bytes r ++ cert)
  | None =>
      match zk_auth tx with
      | Some zk =>
          Some ([255] ++ len32 (zk_proof zk) ++ zk_proof zk ++ be_bytes 32 (zk_target zk) ++
                be_bytes 32 (rp_com zk) ++ le_bytes 8 (zk_nonce zk))
      | None => Some []
      end
  end.

Definition encode_bytes (include_certificate : bool) (tx : Transaction) : option (list Z) :=
  a ← attestation_to_bytes (attestation tx);
  e ← extension_bytes include_certificate tx;
  Some (len32 (payload tx) ++ payload tx ++ a ++ e).

Definition to_bytes (tx : Transaction) : option (list Z) := encode_bytes true tx.

Definition MAX_PAYLOAD_SIZE : Z := 65536.
Definition MAX_ZK_PROOF_LEN : Z := 65536.

Definition read_zk_auth (data : list Z) (base_end : nat) : result DecodeError ZkAuth :=
  let zk_start := (base_end + 1)%nat in
  reject (length data <? zk_start + 4)%nat "zk_auth proof length truncated" (
  let? proof_len := read_len32 zk_start data in
  reject (MAX_ZK_PROOF_LEN <? Z.of_nat proof_len)
    "zk_auth proof_len exceeds maximum allowed size" (
  let payload_start := (zk_start + 4)%nat in
  reject (negb (length data =? payload_start + proof_len + 32 + 32 + 8)%nat)
    "zk_auth body length mismatch" (
  let? proof := slice payload_start proof_len data in
  let target_start := (payload_start + proof_len)%nat in
  let? target := read_32 target_start data in
  let rp_start := (target_start + 32)%nat in
  let? rp_com := read_32 rp_start data in
  let nonce_start := (rp_start + 32)%nat in
  let? nonce := read_u64 nonce_start data in
  Ok {| zk_proof := proof; zk_target := target; rp_com := rp_com; zk_nonce := nonce |}))).

Definition read_certificate (data : list Z) (raw_end : nat)
    : result DecodeError (option CommitteeCertificate) :=
  if (raw_end <? length data)%nat then
    let? cert_present := read_byte raw_end data in
    reject (1 <? cert_present) "invalid raw_chain committee_certificate tag" (
    if cert_present =? 1 then
      reject (length data <? raw_end + 1 + 4)%nat
        "transaction committee_certificate length truncated" (
      let? cert_len := read_len32 (raw_end + 1) data in
      reject (negb (length data =? raw_end + 1 + 4 + cert_len)%nat)
        "transaction committee_certificate bytes truncated" (
      let? b := slice (raw_end + 5) cert_len data in
      match certificate_from_bytes b with
      | Ok c => Ok (Some c)
      | Err Panicked => Err Panicked
      | Err (Rejected _) => Err (Rejected "invalid committee_certificate")
      end))
    else
      reject (negb (length data =? raw_end + 1)%nat) "unexpected trailing transaction bytes"
        (Ok None))
  else Ok None.

Definition read_raw_chain (data : list Z) (base_end : nat) : result DecodeError RawChainPayload :=
  let? tag := read_byte base_end data in
  let? kind := ok_or (raw_kind_from_tag tag) (Rejected "invalid raw_chain tag") in
  reject (length data <? base_end + 1 + 4)%nat "transaction raw_chain length truncated" (
  let? raw_len := read_len32 (base_end + 1) data in
  reject (length data <? base_end + 1 + 4 + raw_len)%nat "transaction raw_chain bytes truncated" (
  let? raw_bytes := slice (base_end + 5) raw_len data in
  let raw_end := (base_end + 5 + raw_len)%nat in
  let? cert := read_certificate data raw_end in
  Ok {| raw_kind := kind; raw_bytes := raw_bytes; committee_certificate := cert |})).

(** The marker test [data.len() > base_end && data[base_end] == 0xFF]. *)
Definition has_zk_marker (data : list Z) (base_end : nat) : result DecodeError bool :=
  if (base_end <? length data)%nat then
    let? marker := read_byte base_end data in Ok (marker =? 255)
  else Ok false.

(** What follows the attestation. *)
Definition read_extensions (data : list Z) (base_end : nat)
    : result DecodeError (option ZkAuth * option RawChainPayload) :=
  let? zk := has_zk_marker data base_end in
  let? zk_auth :=
    (if zk : bool then let? z := read_zk_auth data base_end in Ok (Some z) else Ok None) in
  let? raw_chain :=
    (if negb (bool_decide (is_Some zk_auth)) && (base_end <? length data)%nat then
       let? r := read_raw_chain data base_end in Ok (Some r)
     else Ok None) in
  Ok (zk_auth, raw_chain).

Definition from_bytes (data : list Z) : result DecodeError Transaction :=
  reject (length data <? 4)%nat "transaction data too short" (
  let? payload_len := read_len32 0 data in
  reject (MAX_PAYLOAD_SIZE <? Z.of_nat payload_len) "transaction payload exceeds maximum size" (
  let attest_start := (4 + payload_len)%nat in
  reject (length data <? attest_start + 3)%nat
    "transaction data too short for payload + attestation" (
  let? payload := slice 4 payload_len data in
  let? rest := slice_from attest_start data in
  let? attest_consumed := bytes_consumed rest in
  let? att_bytes := slice attest_start attest_consumed data in
  let? attestation := attestation_from_bytes att_bytes in
  let base_end := (attest_start + attest_consumed)%nat in
  let? (zk_auth, raw_chain) := read_extensions data base_end in
  Ok {| payload := payload; attestation := attestation; raw_chain := raw_chain;
        zk_auth := zk_auth |}))).

(* ------------------------------------------------------------------ *)
(** * Hashes, stripping and credentials *)

(** The message of the transaction hash. *)
Definition tx_message (tx : Transaction) : list Z :=
  len32 (payload tx) ++ payload tx ++ to_identity_bytes (attestation tx) ++
  match raw_chain tx with
  | Some r => [raw_kind_tag (raw_kind r)] ++ len32 (raw_bytes r) ++ raw_bytes r
  | None => []
  end.

Definition tx_hash (sha256 : list Z -> list Z) (tx : Transaction) : Hash :=
  digest sha256 (tx_message tx).

Definition is_credential_stripped (tx : Transaction) : bool :=
  if is_zk_auth tx then false
  else bool_decide (sig_algorithm (credential (attestation tx)) = MlDsa44) &&
       bool_decide (sig_bytes (credential (attestation tx)) = []).

Definition set_credential (tx : Transaction) (s : TaggedSignature) : Transaction :=
  {| payload := payload tx;
     attestation :=
       {| obj_hash := obj_hash (attestation tx); idcom := idcom (attestation tx);
          att_domain := att_domain (attestation tx);
          context_tag := context_tag (attestation tx); credential := s |};
     raw_chain := raw_chain tx; zk_auth := zk_auth tx |}.

Definition stripped_for_gossip (tx : Transaction) : Transaction :=
  if bool_decide (head (payload tx) = Some 3) || bool_decide (head (payload tx) = Some 4) then tx
  else if bool_decide (sig_algorithm (credential (attestation tx)) = MlDsa44) then
    set_credential tx ml_dsa_44_stripped
  else tx.

Section credentials.
Context (sha256 : list Z -> list Z) `{SigBackend} (devnet : bool).

Definition verify_payload_binding (a : Attestation) (payload : list Z) : bool :=
  obj_hash a =? digest sha256 payload.

Definition signing_message (alg_tag : Z) (a : Attestation) : list Z :=
  [alg_tag] ++ be_bytes 32 (obj_hash a) ++ be_bytes 32 (idcom a) ++
  domain_to_bytes (att_domain a) ++ be_bytes 16 (context_tag a).

(** [devnet] is the build feature that admits HMAC credentials. *)
Definition verify_credential (a : Attestation) (payload : list Z) (auth_pubkey : TaggedPubkey)
    : bool :=
  let binding_ok := verify_payload_binding a payload in
  let key_ok := negb (pubkey_is_zero auth_pubkey) in
  if negb binding_ok || negb key_ok then false
  else if negb devnet && bool_decide (pk_algorithm auth_pubkey = HmacSha256) then false
  else
    verify_signature auth_pubkey
      (signing_message (algorithm_tag (pk_algorithm auth_pubkey)) a) (credential a).
End credentials.

(* ------------------------------------------------------------------ *)
(** * The parser never panics *)

Lemma attestation_from_bytes_safe data : safe (attestation_from_bytes data).
Proof. unfold attestation_from_bytes, ATTESTATION_FIXED_SIZE. solve_safe. Qed.

Lemma bytes_consumed_safe data : safe (bytes_consumed data).
Proof. unfold bytes_consumed, ATTESTATION_FIXED_SIZE. solve_safe. Qed.

Lemma bytes_consumed_le data n : bytes_consumed data = Ok n -> (n <= length data)%nat.
Proof.
  unfold bytes_consumed, ATTESTATION_FIXED_SIZE, reject. case_match; [done|]. nat_prop.
  intros H0. apply rbind_ok in H0 as (r & Hr%slice_from_ok & H0). destruct Hr as [-> ?].
  apply rbind_ok in H0 as ([s c] & Hs%map_wire_ok%signature_consumed & H0).
  rewrite length_drop in Hs. simplify_eq. lia.
Qed.

Lemma read_approvals_safe data count offset :
  (offset <= length data)%nat -> safe (read_approvals data count offset).
Proof.
  revert offset. induction count as [|n IH]; intros offset Ho; cbn [read_approvals]; [apply safe_ok|].
  cbv zeta. solve_safe.
Qed.

Lemma certificate_from_bytes_safe data : safe (certificate_from_bytes data).
Proof. unfold certificate_from_bytes. solve_safe. apply read_approvals_safe. lia. Qed.

Lemma read_zk_auth_safe data base_end : safe (read_zk_auth data base_end).
Proof. unfold read_zk_auth. cbv zeta. solve_safe. Qed.

Lemma read_certificate_safe data raw_end : safe (read_certificate data raw_end).
Proof.
  unfold read_certificate. solve_safe.
  destruct (certificate_from_bytes _) as [c|[]] eqn:E; [apply safe_ok|apply safe_invalid|].
  by apply certificate_from_bytes_safe in E.
Qed.

Lemma read_raw_chain_safe data base_end :
  (base_end < length data)%nat -> safe (read_raw_chain data base_end).
Proof. intros. unfold read_raw_chain. cbv zeta. solve_safe. apply read_certificate_safe. Qed.

#[local] Hint Resolve attestation_from_bytes_safe bytes_consumed_safe read_zk_auth_safe
  read_raw_chain_safe : safe.

Lemma from_bytes_safe data : safe (from_bytes data).
Proof.
  unfold from_bytes, read_extensions, has_zk_marker. cbv zeta. solve_safe.
  all: match goal with H : bytes_consumed _ = Ok _ |- _ => apply bytes_consumed_le in H; nat_prop end.
  solve_safe.
Qed.

(* ------------------------------------------------------------------ *)
(** * Round trips *)

Definition signature_wire_ok (s : TaggedSignature) : Prop :=
  signature_is_well_formed s = true \/ s = ml_dsa_44_stripped.

Definition identity_ok (a : Attestation) : Prop :=
  is_u256 (obj_hash a) /\ is_u256 (idcom a) /\ is_u32 (chain_id (att_domain a)) /\
  is_u32 (domain_slot (att_domain a)) /\ is_u128 (context_tag a).

Definition approval_wire_ok (a : CommitteeApproval) : Prop :=
  pubkey_is_well_formed (approval_signer a) = true /\ signature_wire_ok (approval_signature a).

Definition certificate_wire_ok (c : CommitteeCertificate) : Prop :=
  is_u256 (cert_tx_hash c) /\ Z.of_nat (length (approvals c)) <= 255 /\
  Forall approval_wire_ok (approvals c).

Definition raw_wire_ok (r : RawChainPayload) : Prop :=
  Z.of_nat (length (raw_bytes r)) < 2 ^ 32 /\
  (forall c, committee_certificate r = Some c -> certificate_wire_ok c).

Definition zk_wire_ok (z : ZkAuth) : Prop :=
  Z.of_nat (length (zk_proof z)) <= MAX_ZK_PROOF_LEN /\ is_u256 (zk_target z) /\
  is_u256 (rp_com z) /\ is_u64 (zk_nonce z).

(** A transaction a node may send: sizes within the limits, and not both a raw
    chain and a zero-knowledge authorisation. *)
Definition tx_wire_ok (tx : Transaction) : Prop :=
  Z.of_nat (length (payload tx)) <= MAX_PAYLOAD_SIZE /\
  identity_ok (attestation tx) /\ signature_wire_ok (credential (attestation tx)) /\
  (forall r, raw_chain tx = Some r -> raw_wire_ok r /\ zk_auth tx = None) /\
  (forall z, zk_auth tx = Some z -> zk_wire_ok z).

Lemma length_identity_bytes a : length (to_identity_bytes a) = 88%nat.
Proof. unfold to_identity_bytes, domain_to_bytes. by autorewrite with lens. Qed.

(** An attestation is read back in front of anything, by both parsers. *)
Lemma attestation_rt a :
  identity_ok a -> signature_wire_ok (credential a) ->
  exists w, attestation_to_bytes a = Some w /\ (3 <= length w)%nat /\
    attestation_from_bytes w = Ok a /\
    forall rest, bytes_consumed (w ++ rest) = Ok (length w).
Proof.
  intros (Ho & Hi & Hc & Hs & Ht) Hcred. unfold attestation_to_bytes.
  destruct (signature_wire_roundtrip _ [] Hcred) as (w & Hw & Hr). rewrite Hw.
  assert (3 <= length w)%nat.
  { unfold signature_to_wire_bytes, wire_bytes in Hw. case_match; [|done]. injection Hw as <-.
    simpl. lia. }
  cbn [mbind option_bind]. eexists; split; [reflexivity|].
  unfold domain_to_bytes. rewrite <-!app_assoc. split_and!; [autorewrite with lens; lia| |].
  - rewrite app_nil_r in Hr. unfold attestation_from_bytes, ATTESTATION_FIXED_SIZE. rd.
    rewrite Hr. cbn [map_wire_err]. eapply rbind_step; [reflexivity|]. cbv beta iota. rd.
    by destruct a as [? ? [] ? ?].
  - intros rest. rewrite <-!app_assoc. unfold bytes_consumed, ATTESTATION_FIXED_SIZE. rd.
    destruct (signature_wire_roundtrip _ rest Hcred) as (w' & Hw' & Hr').
    assert (w' = w) as -> by congruence. rewrite Hr'. cbn [map_wire_err].
    by eapply rbind_step.
Qed.

Lemma approvals_rt l pre :
  Forall approval_wire_ok l ->
  exists w, approvals_to_bytes l = Some w /\
    read_approvals (pre ++ w) (length l) (length pre) = Ok (l, (length pre + length w)%nat).
Proof.
  intros Hl. revert pre. induction Hl as [|a l [Hk Hs] _ IH]; intros pre.
  { exists []. split; [done|]. simpl. by rewrite Nat.add_0_r. }
  cbn [approvals_to_bytes read_approvals length].
  destruct (pubkey_wire_roundtrip _ [] Hk) as (wk & Hwk & _ & _).
  destruct (signature_wire_roundtrip _ [] Hs) as (ws & Hws & _).
  destruct (IH (pre ++ wk ++ ws)) as (w & Hw & Hr).
  rewrite Hwk, Hws, Hw. cbn [mbind option_bind]. eexists; split; [reflexivity|]. cbv zeta.
  rd. destruct (pubkey_wire_roundtrip _ (ws ++ w) Hk) as (wk' & Hwk' & _ & Hrk).
  assert (wk' = wk) as -> by congruence. rewrite Hrk. cbn [map_wire_err].
  eapply rbind_step; [reflexivity|]. cbv beta iota. rd.
  destruct (signature_wire_roundtrip _ w Hs) as (ws' & Hws' & Hrs).
  assert (ws' = ws) as -> by congruence. rewrite Hrs. cbn [map_wire_err].
  eapply rbind_step; [reflexivity|]. cbv beta iota.
  rewrite <-!app_assoc in Hr. autorewrite with lens in *.
  rewrite Nat.add_assoc in Hr. rewrite Hr. cbn [rbind]. f_equal.
  destruct a. f_equal. lia.
Qed.

Lemma committee_tag_rt d : committee_domain_from_tag (committee_domain_tag d) = Some d.
Proof. by destruct d. Qed.

Lemma raw_kind_tag_rt k : raw_kind_from_tag (raw_kind_tag k) = Some k.
Proof. by destruct k. Qed.

Lemma certificate_rt c :
  certificate_wire_ok c ->
  exists w, certificate_to_bytes c = Some w /\ certificate_from_bytes w = Ok c.
Proof.
  intros (Hh & Hn & Hl). unfold certificate_to_bytes.
  rewrite Z.min_l by done.
  destruct (approvals_rt (approvals c) ([committee_domain_tag (cert_domain c)] ++
    [Z.of_nat (length (approvals c))] ++ be_bytes 32 (cert_tx_hash c)) Hl) as (w & Hw & Hr).
  rewrite Hw. cbn [mbind option_bind]. eexists; split; [reflexivity|].
  rewrite <-!app_assoc in Hr. unfold certificate_from_bytes. rd.
  eapply rbind_step; [rewrite committee_tag_rt; reflexivity|]. cbv beta. rd. rewrite Nat2Z.id.
  eapply rbind_step; [apply Hr|]. cbv beta iota. rd. by destruct c.
Qed.

(** The two extensions, read at the end of a prefix. *)
Lemma zk_extension_rt pre z :
  zk_wire_ok z ->
  read_zk_auth (pre ++ [255] ++ len32 (zk_proof z) ++ zk_proof z ++ be_bytes 32 (zk_target z) ++
                be_bytes 32 (rp_com z) ++ le_bytes 8 (zk_nonce z)) (length pre) = Ok z.
Proof.
  intros (Hp & Ht & Hr & Hn). unfold MAX_ZK_PROOF_LEN in Hp.
  unfold read_zk_auth, MAX_ZK_PROOF_LEN. cbv zeta. rd. by destruct z.
Qed.

Lemma wire_bytes_length a bytes w : wire_bytes a bytes = Some w -> length w = (3 + length bytes)%nat.
Proof.
  unfold wire_bytes. case_match; [|done]. by intros [= <-].
Qed.

(** The largest approval has an ML-DSA-44 key and signature. *)
Lemma approvals_length l w :
  Forall approval_wire_ok l -> approvals_to_bytes l = Some w ->
  Z.of_nat (length w) <= 3738 * Z.of_nat (length l).
Proof.
  intros Hl. revert w. induction Hl as [|a l [Hk Hs] _ IH]; intros w; cbn [approvals_to_bytes].
  { intros [= <-]. done. }
  intros (k & Ek & (s & Es & (r & Er & Hw)%bind_Some)%bind_Some)%bind_Some.
  apply (inj Some) in Hw as <-.
  specialize (IH _ Er). apply wire_bytes_length in Ek, Es. apply well_formed_length in Hk.
  assert (pubkey_len (pk_algorithm (approval_signer a)) <= 1312) by (by destruct (pk_algorithm _)).
  assert (Z.of_nat (length (sig_bytes (approval_signature a))) <= 2420).
  { destruct Hs as [Hs| ->]; [|done]. apply Z.eqb_eq in Hs. rewrite Hs.
    by destruct (sig_algorithm _). }
  autorewrite with lens. cbn [length]. lia.
Qed.

Lemma certificate_length c w :
  certificate_wire_ok c -> certificate_to_bytes c = Some w -> Z.of_nat (length w) < 2 ^ 32.
Proof.
  intros (_ & Hn & Hl). unfold certificate_to_bytes. intros (l & El & Hw)%bind_Some.
  apply (inj Some) in Hw as <-.   apply approvals_length in El; [|done]. autorewrite with lens. lia.
Qed.

Lemma raw_extension_rt pre tx r :
  raw_chain tx = Some r -> raw_wire_ok r ->
  exists w, extension_bytes true tx = Some w /\ (1 <= length w)%nat /\
    read_byte (length pre) (pre ++ w) = Ok (raw_kind_tag (raw_kind r)) /\
    read_raw_chain (pre ++ w) (length pre) = Ok r.
Proof.
  intros Hraw (Hb & Hc). unfold extension_bytes. rewrite Hraw.
  destruct (committee_certificate r) as [c|] eqn:Ec.
  - destruct (certificate_rt c (Hc c eq_refl)) as (b & Hcb & Hrb). rewrite Hcb.
    pose proof (certificate_length c b (Hc c eq_refl) Hcb).
    cbn [mbind option_bind]. eexists; split; [reflexivity|].
    split_and!; [simpl; lia|rd_read|].
    unfold read_raw_chain. cbv zeta. rd.
    eapply rbind_step; [rewrite raw_kind_tag_rt; reflexivity|]. cbv beta. rd.
    eapply rbind_step; [|by destruct r; simpl in *; subst].
    unfold read_certificate. rd. by rewrite Hrb.
  - cbn [mbind option_bind]. eexists; split; [reflexivity|].
    split_and!; [simpl; lia|rd_read|].
    unfold read_raw_chain. cbv zeta. rd.
    eapply rbind_step; [rewrite raw_kind_tag_rt; reflexivity|]. cbv beta. rd.
    eapply rbind_step; [|by destruct r; simpl in *; subst].
    unfold read_certificate. rd. reflexivity.
Qed.

Lemma has_zk_marker_at pre x w :
  has_zk_marker (pre ++ [x] ++ w) (length pre) = Ok (x =? 255).
Proof. unfold has_zk_marker. rd. reflexivity. Qed.

Lemma extensions_rt pre tx :
  (forall r, raw_chain tx = Some r -> raw_wire_ok r /\ zk_auth tx = None) ->
  (forall z, zk_auth tx = Some z -> zk_wire_ok z) ->
  exists e, extension_bytes true tx = Some e /\
    read_extensions (pre ++ e) (length pre) = Ok (zk_auth tx, raw_chain tx).
Proof.
  intros Hraw Hzk. destruct (raw_chain tx) as [r|] eqn:Er.
  - destruct (Hraw r eq_refl) as [Hr Hnone].
    destruct (raw_extension_rt pre tx r Er Hr) as (e & He & Hlen & Hb & Hread).
    exists e. split; [done|]. unfold read_extensions, has_zk_marker. rewrite Hnone.
    eapply rbind_step.
    { apply if_true_step; [rd_side|]. eapply rbind_step; [exact Hb|reflexivity]. }
    assert ((raw_kind_tag (raw_kind r) =? 255) = false) as -> by (by destruct (raw_kind r)).
    cbn [rbind]. apply rbind_step with (Some r); [|done].
    apply if_true_step; [|by rewrite Hread]. change (negb (bool_decide (is_Some (@None ZkAuth)))) with true.
    cbn [andb]. rd_side.
  - unfold extension_bytes. rewrite Er. destruct (zk_auth tx) as [z|] eqn:Ez.
    + eexists; split; [reflexivity|]. unfold read_extensions. rewrite has_zk_marker_at.
      cbn [rbind]. rewrite (zk_extension_rt pre z (Hzk z eq_refl)). reflexivity.
    + exists []. split; [done|]. unfold read_extensions, has_zk_marker. rewrite app_nil_r.
      rewrite Nat.ltb_irrefl. cbn [rbind].
      by rewrite andb_false_r.
Qed.

(** C24. Transactions on the wire.  The parser accepts any bytes without
    panicking; and every transaction within the size limits, with a credential of
    its algorithm's length or stripped, with or without raw chain bytes, a
    committee certificate or a zero-knowledge authorisation, is encoded without
    panic and parsed back unchanged. *)
Theorem transaction_wire_roundtrip :
  (forall data, from_bytes data <> Err Panicked) /\
  (forall tx, tx_wire_ok tx -> exists w, to_bytes tx = Some w /\ from_bytes w = Ok tx).
Proof.
  split; [exact from_bytes_safe|]. intros tx (Hp & Hid & Hcred & Hraw & Hzk).
  unfold MAX_PAYLOAD_SIZE in Hp. unfold to_bytes, encode_bytes.
  destruct (attestation_rt _ Hid Hcred) as (a & Ha & Hla & Hra & Hca). rewrite Ha.
  assert (Z.of_nat (length (payload tx)) < 2 ^ 32) by lia.
  destruct (extensions_rt (len32 (payload tx) ++ payload tx ++ a) tx Hraw Hzk) as (e & He & Hr).
  rewrite He. cbn [mbind option_bind]. eexists; split; [reflexivity|].
  unfold from_bytes, MAX_PAYLOAD_SIZE. cbv zeta. rd.
  eapply rbind_step; [apply Hca|]. cbv beta. rd.
  eapply rbind_step; [apply Hra|]. cbv beta.
  rewrite <-!app_assoc in Hr. autorewrite with lens in Hr. rewrite !Nat.add_assoc in Hr.
  rewrite Hr. by destruct tx.
Qed.

Lemma transaction_wire_roundtrip_witness :
  let tx := {| payload := [1; 2; 3];
    attestation := {| obj_hash := 5; idcom := 7; att_domain := {| chain_id := 1; domain_slot := 9 |};
                      context_tag := 0; credential := ml_dsa_44_stripped |};
    raw_chain := Some {| raw_kind := RawBtc; raw_bytes := [8; 8];
      committee_certificate := Some {| cert_domain := BtcPayments; cert_tx_hash := 11;
        approvals := [{| approval_signer := SampleSig.sample_key 3;
                         approval_signature := SampleSig.sample_sign 3 [] |}] |} |};
    zk_auth := None |} in
  tx_wire_ok tx /\ exists w, to_bytes tx = Some w /\ from_bytes w = Ok tx.
Proof.
  intros tx. assert (tx_wire_ok tx) as Hok.
  { split_and!; [done|by split_and!|by right| |done].
    intros r [= <-]. split; [|done]. split; [done|]. intros c [= <-].
    split_and!; [done|done|]. constructor; [|done]. split; [done|by left]. }
  split; [exact Hok|]. exact (proj2 transaction_wire_roundtrip tx Hok).
Defined.

(* ------------------------------------------------------------------ *)
(** * The transaction hash *)

(** The sizes for which the 32-bit length fields do not wrap. *)
Definition hash_sizes_ok (tx : Transaction) : Prop :=
  Z.of_nat (length (payload tx)) < 2 ^ 32 /\ identity_ok (attestation tx) /\
  (forall r, raw_chain tx = Some r -> Z.of_nat (length (raw_bytes r)) < 2 ^ 32).

Definition same_identity (a b : Attestation) : Prop :=
  obj_hash a = obj_hash b /\ idcom a = idcom b /\ att_domain a = att_domain b /\
  context_tag a = context_tag b.

Definition raw_identity (tx : Transaction) : option (RawChainKind * list Z) :=
  (fun r => (raw_kind r, raw_bytes r)) <$> raw_chain tx.

Lemma len32_prefix (x y r s : list Z) :
  Z.of_nat (length x) < 2 ^ 32 -> Z.of_nat (length y) < 2 ^ 32 ->
  len32 x ++ x ++ r = len32 y ++ y ++ s -> x = y /\ r = s.
Proof.
  intros Hx Hy E. apply (le_bytes_prefix 4) in E as [El E];
    [|change (256 ^ Z.of_nat 4) with (2 ^ 32); lia..].
  apply app_inj_1 in E; [done|lia].
Qed.

Lemma identity_prefix a b r s :
  identity_ok a -> identity_ok b ->
  to_identity_bytes a ++ r = to_identity_bytes b ++ s -> same_identity a b /\ r = s.
Proof.
  intros (? & ? & ? & ? & ?) (? & ? & ? & ? & ?) E.
  unfold to_identity_bytes, domain_to_bytes in E. rewrite <-!app_assoc in E.
  apply (be_bytes_prefix 32) in E as [E1 E]; [|done..].
  apply (be_bytes_prefix 32) in E as [E2 E]; [|done..].
  apply (le_bytes_prefix 4) in E as [E3 E]; [|change (256 ^ Z.of_nat 4) with (2 ^ 32); ilia..].
  apply (le_bytes_prefix 4) in E as [E4 E]; [|change (256 ^ Z.of_nat 4) with (2 ^ 32); ilia..].
  apply (be_bytes_prefix 16) in E as [E5 E]; [|change (256 ^ Z.of_nat 16) with (2 ^ 128); ilia..].
  split; [|done]. split_and!; try done. destruct (att_domain a), (att_domain b). simpl in *. congruence.
Qed.

Lemma raw_kind_tag_inj j k : raw_kind_tag j = raw_kind_tag k -> j = k.
Proof. by destruct j, k. Qed.

Lemma tx_message_inj tx tx' :
  hash_sizes_ok tx -> hash_sizes_ok tx' -> tx_message tx = tx_message tx' ->
  payload tx = payload tx' /\ same_identity (attestation tx) (attestation tx') /\
  raw_identity tx = raw_identity tx'.
Proof.
  intros (Hp & Hi & Hr) (Hp' & Hi' & Hr') E. unfold tx_message in E.
  apply len32_prefix in E as [-> E]; [|done..].
  apply identity_prefix in E as [Hid E]; [|done..]. split_and!; [done|done|].
  unfold raw_identity. destruct (raw_chain tx) as [r|], (raw_chain tx') as [r'|]; try done.
  apply cons_eq_inj in E as [Ek%raw_kind_tag_inj E].
  assert (raw_bytes r = raw_bytes r') as Eb.
  { apply (len32_prefix _ _ [] []); [by apply Hr|by apply Hr'|]. by rewrite !app_nil_r. }
  simpl. congruence.
Qed.

Lemma tx_message_credential tx s : tx_message (set_credential tx s) = tx_message tx.
Proof. done. Qed.

Lemma stripped_unverifiable `{SigBackend} sha256 devnet tx k :
  is_credential_stripped tx = true ->
  verify_credential sha256 devnet (attestation tx) (payload tx) k = false.
Proof.
  unfold is_credential_stripped. case_match; [done|]. intros Hs. bool_prop.
  unfold verify_credential. case_match; [done|]. case_match; [done|].
  apply not_true_iff_false. intros Hv%verify_signature_well_formed.
  destruct Hv as (_ & _ & Hw). unfold signature_is_well_formed in Hw.
  destruct (credential (attestation tx)) as [a b]; simpl in *; subst. done.
Qed.

(** C25. The transaction hash is the identity of a transaction.  If SHA-256 does
    not collide on the two messages, transactions with the same hash have the same
    payload, the same attested object, identity, domain and context, and the same
    raw chain bytes.  Stripping a credential for gossip keeps the hash, and a
    stripped transaction passes the credential check under no key: it can be
    recognised but not executed. *)
Theorem tx_hash_identifies `{SigBackend} sha256 devnet :
  (forall tx tx', hash_sizes_ok tx -> hash_sizes_ok tx' -> digest_shape sha256 ->
     collision_free sha256 [tx_message tx; tx_message tx'] ->
     tx_hash sha256 tx = tx_hash sha256 tx' ->
     payload tx = payload tx' /\ same_identity (attestation tx) (attestation tx') /\
     raw_identity tx = raw_identity tx') /\
  (forall tx, tx_hash sha256 (stripped_for_gossip tx) = tx_hash sha256 tx) /\
  (forall tx k, is_credential_stripped tx = true ->
     verify_credential sha256 devnet (attestation tx) (payload tx) k = false).
Proof.
  split_and!.
  - intros tx tx' Hs Hs' Hshape Hcol E%digest_eq; [|done].
    apply tx_message_inj, Hcol; [done|done|by left|by right; left|done].
  - intros tx. unfold stripped_for_gossip. case_match; [done|]. by case_match.
  - intros tx k. apply stripped_unverifiable.
Qed.

Lemma tx_hash_identifies_witness :
  let att := {| obj_hash := 5; idcom := 7; att_domain := {| chain_id := 1; domain_slot := 9 |};
                context_tag := 0; credential := ml_dsa_44_stripped |} in
  let tx := {| payload := [1]; attestation := att; raw_chain := None; zk_auth := None |} in
  let tx' := {| payload := [2]; attestation := att; raw_chain := None; zk_auth := None |} in
  tx_hash SampleDigest.sample_sha256 tx <> tx_hash SampleDigest.sample_sha256 tx' /\
  is_credential_stripped tx = true /\
  verify_credential (H := SampleSig.sample_backend) SampleDigest.sample_sha256 true att [1]
    (SampleSig.sample_key 7) = false.
Proof.
  intros att tx tx'.
  destruct (@tx_hash_identifies SampleSig.sample_backend SampleDigest.sample_sha256 true)
    as (Hinj & _ & Hs).
  split_and!; [|reflexivity|exact (Hs tx (SampleSig.sample_key 7) eq_refl)].
  intros E. destruct (Hinj tx tx') as [F _]; [by split_and!|by split_and!
    |exact SampleDigest.sample_shape| |exact E|discriminate F].
  intros x y Hx Hy. rewrite !elem_of_cons, elem_of_nil in Hx, Hy.
  destruct Hx as [->|[->|[]]], Hy as [->|[->|[]]]; try done; intros C; exfalso;
    vm_compute in C; discriminate C.
Defined.
