(* ===== verification/Engine.v ===== *)
(** Native execution (ace-engine/src/executor.rs from line 20, transfer.rs,
    receipt.rs, error.rs).

    Transfers, account creation, key rotation, address bindings and validator
    approvals on the state tree, with authorisation by credential or by a
    zero-knowledge proof, one transaction at a time ([execute_transaction]) and
    as a block whose signatures are checked beforehand ([execute_block]).

    Hash functions, curve arithmetic and the proof verifier are third-party
    code: they are the fields of [CryptoEnv]. *)

From S2P Require Import Prelude SigAlgo Account StateTree StateM Wire Payload Transaction.
Local Open Scope Z_scope.
Local Open Scope ace_scope.

(* ------------------------------------------------------------------ *)
(** * Data *)

(** Third-party cryptography and the build feature that admits HMAC keys.
    [env_uncompress] is [PublicKey::from_sec1_bytes] followed by
    [to_encoded_point(false)]. *)
Class CryptoEnv := {
  env_backend :: SigBackend;
  env_sha256 : list Z -> list Z;
  env_keccak256 : list Z -> list Z;
  env_ripemd160 : list Z -> list Z;
  env_uncompress : list Z -> option (list Z);
  env_verify_zk : Transaction -> ZkAuth -> bool;
  env_devnet : bool;
}.

(** [EnginePanic] stands for an [unwrap] of [None].  The variant [ModelError] of
    the source is never constructed by the engine and is left out. *)
Inductive EngineError : Type :=
| InsufficientBalance (have need : Z)
| AccountNotFound (id : AccountId)
| InvalidNonce (expected got : Z)
| InvalidPayload (msg : string)
| AccountAlreadyExists (id : AccountId)
| AccountExpired (id : AccountId)
| BalanceOverflow (balance amount : Z)
| NonceOverflow (id : AccountId)
| InvalidCredential (id : AccountId)
| AddressAlreadyBound (id : AccountId)
| InvalidBindingProof (address_type : Z)
| EnginePanic.

Inductive StateChange : Type :=
| BalanceChange (account : AccountId) (old new : Z)
| NonceIncrement (account : AccountId) (new_nonce : Z)
| AccountCreated (account : AccountId)
| StorageChange (account : AccountId) (slot old_value new_value : Z)
| CodeDeployed (account : AccountId) (code_hash : Hash)
| Fee (amount : Z)
| AddressBound (account : AccountId) (address_type : Z)
| AuthKeyUpdated (account : AccountId) (algorithm : Z)
| IntentChange (intent_id old_status new_status : Z) (claim_tag : option Hash)
| ZkReplayConsumed (rp_com : Z) (account : AccountId).

Record ExecutionReceipt := {
  receipt_tx_hash : Hash;
  receipt_success : bool;
  receipt_sender : AccountId;
  receipt_changes : list StateChange;
  receipt_error : option string;
}.

Record ExecutionPolicy := { founder_id_com : option AccountId }.

(** The static part of an error's message. *)
Definition error_text (e : EngineError) : string :=
  match e with
  | InsufficientBalance _ _ => "insufficient balance"
  | AccountNotFound _ => "account not found"
  | InvalidNonce _ _ => "invalid nonce"
  | InvalidPayload m => "invalid transaction payload: " +:+ m
  | AccountAlreadyExists _ => "account already exists"
  | AccountExpired _ => "account expired (stubbed)"
  | BalanceOverflow _ _ => "balance overflow"
  | NonceOverflow _ => "nonce overflow"
  | InvalidCredential _ => "invalid credential"
  | AddressAlreadyBound _ => "address already bound"
  | InvalidBindingProof _ => "invalid address binding proof"
  | EnginePanic => "panic"
  end.

Definition tx_sender (tx : Transaction) : AccountId := idcom (attestation tx).

Definition engine_decode (l : list Z) : result EngineError TransactionOp :=
  match decode l with
  | Ok op => Ok op
  | Err (Rejected m) => Err (InvalidPayload m)
  | Err Panicked => Err EnginePanic
  end.

Definition is_transfer (op : TransactionOp) : bool :=
  match op with Transfer _ _ _ => true | _ => false end.

Definition secp256k1 (bytes : list Z) : TaggedPubkey :=
  {| pk_algorithm := Secp256k1; pk_bytes := bytes |}.

(** The addresses an account can bind. *)
Definition set_xaddress (a : Account) (x : option Z) : Account :=
  {| acc_id_com := acc_id_com a; acc_balance := acc_balance a; acc_nonce := acc_nonce a;
     acc_code_hash := acc_code_hash a; acc_code := acc_code a;
     acc_storage_root := acc_storage_root a; acc_xid := acc_xid a;
     acc_xaddress := x; acc_evm_address := acc_evm_address a;
     acc_tron_address := acc_tron_address a; acc_solana_address := acc_solana_address a;
     acc_btc_address := acc_btc_address a; acc_auth_pubkey := acc_auth_pubkey a;
     acc_auth_keys := acc_auth_keys a; acc_last_touched_slot := acc_last_touched_slot a |}.
Definition set_chain_addresses (a : Account) (sol : option Z) (btc : option (list Z)) : Account :=
  {| acc_id_com := acc_id_com a; acc_balance := acc_balance a; acc_nonce := acc_nonce a;
     acc_code_hash := acc_code_hash a; acc_code := acc_code a;
     acc_storage_root := acc_storage_root a; acc_xid := acc_xid a;
     acc_xaddress := acc_xaddress a; acc_evm_address := acc_evm_address a;
     acc_tron_address := acc_tron_address a; acc_solana_address := sol;
     acc_btc_address := btc; acc_auth_pubkey := acc_auth_pubkey a;
     acc_auth_keys := acc_auth_keys a; acc_last_touched_slot := acc_last_touched_slot a |}.

(* ------------------------------------------------------------------ *)
(** * Transfers *)

Section engine.
Context {CE : CryptoEnv}.

(** The balances and the nonce, once both accounts are there. *)
Definition transfer_pay (from to : AccountId) (amount : Z) (increment_nonce : bool)
    : M EngineError (list StateChange) :=
  let! found := get_account from in
  let! sender := require found EnginePanic in
  let old_sender_balance := acc_balance sender in
  if from =? to then
    if negb increment_nonce then ret []
    else
      let! new_nonce := require (u64_checked_add (acc_nonce sender) 1) (NonceOverflow from) in
      do! update from (fun a => set_nonce a new_nonce) in
      ret [NonceIncrement from new_nonce]
  else
    let! found := get_account to in
    let! receiver := require found EnginePanic in
    let old_receiver_balance := acc_balance receiver in
    do! fail_if (bool_decide (u64_checked_add old_receiver_balance amount = None))
      (BalanceOverflow old_receiver_balance amount) in
    let new_sender_balance := old_sender_balance - amount in
    do! update from (fun a => set_balance a new_sender_balance) in
    let! nonce_change :=
      (if increment_nonce then
         let! new_nonce := require (u64_checked_add (acc_nonce sender) 1) (NonceOverflow from) in
         do! update from (fun a => set_nonce a new_nonce) in
         ret [NonceIncrement from new_nonce]
       else ret []) in
    let new_receiver_balance := old_receiver_balance + amount in
    do! update to (fun a => set_balance a new_receiver_balance) in
    ret ([BalanceChange from old_sender_balance new_sender_balance] ++ nonce_change ++
         [BalanceChange to old_receiver_balance new_receiver_balance]).

Definition transfer_with_nonce_policy (from to : AccountId) (amount : Z)
    (expected_nonce : option Z) (increment_nonce : bool) : M EngineError (list StateChange) :=
  let! expired := is_stubbed from in
  do! fail_if expired (AccountExpired from) in
  let! found := get_account from in
  let! sender := require found (AccountNotFound from) in
  do! match expected_nonce with
      | Some nonce =>
          fail_if (negb (acc_nonce sender =? nonce)) (InvalidNonce (acc_nonce sender) nonce)
      | None => ret tt
      end in
  do! fail_if (acc_balance sender <? amount) (InsufficientBalance (acc_balance sender) amount) in
  let! expired := is_stubbed to in
  do! fail_if expired (AccountExpired to) in
  let! present := contains to in
  do! (if present : bool then ret tt
       else modify (fun t => insert_account env_sha256 t (with_balance to 0))) in
  transfer_pay from to amount increment_nonce.

Definition transfer (from to : AccountId) (amount : Z) (expected_nonce : option Z)
    : M EngineError (list StateChange) :=
  transfer_with_nonce_policy from to amount expected_nonce true.

(* ------------------------------------------------------------------ *)
(** * Address bindings *)

Definition register_address_message (sender_idcom : AccountId) (address_type : Z)
    (address_bytes : list Z) : list Z :=
  env_sha256 (ascii_bytes "ace-register-address-v1" ++ be_bytes 32 sender_idcom ++
              [address_type] ++ address_bytes).

Definition xaddress_hash (ml_dsa_pubkey : list Z) : Z :=
  digest env_sha256 (ascii_bytes "ace-xaddress-v1" ++ ml_dsa_pubkey).

Definition btc_hash160 (data : list Z) : list Z := env_ripemd160 (env_sha256 data).

Definition evm_address_from_secp256k1 (compressed_pubkey : list Z) : result EngineError Z :=
  let? uncompressed :=
    ok_or (env_uncompress compressed_pubkey) (InvalidPayload "invalid secp256k1 pubkey") in
  Ok (be_num (take 20 (drop 12 (env_keccak256 (drop 1 uncompressed))))).

Definition require_len (n : nat) (l : list Z) (e : EngineError) : result EngineError (list Z) :=
  if (length l =? n)%nat then Ok l else Err e.

(** A conflict with another account's index entry. *)
Definition check_free {K} `{Countable K} (idx : gmap K AccountId) (k : K) (id : AccountId)
    : result EngineError unit :=
  match idx !! k with
  | Some existing => if negb (existing =? id) then Err (AddressAlreadyBound existing) else Ok tt
  | None => Ok tt
  end.

Definition check_proof (ok : bool) (address_type : Z) : result EngineError unit :=
  if ok then Ok tt else Err (InvalidBindingProof address_type).

(** The key of a secp256k1 binding: present, 33 bytes, and the proof verifies. *)
Definition secp_proof (msg : list Z) (b : AddressBinding) : result EngineError (list Z) :=
  let bad := InvalidBindingProof (address_type b) in
  let? pk_bytes := ok_or (proof_pubkey b) bad in
  let? pk33 := require_len 33 pk_bytes bad in
  let? _ := check_proof (verify_signature (secp256k1 pk33) msg (proof_sig b)) (address_type b) in
  Ok pk_bytes.

(** The 20-byte address of a secp256k1 key, when it is the declared one. *)
Definition declared_secp_address (pk_bytes : list Z) (b : AddressBinding) (msg : string)
    : result EngineError Z :=
  let? derived_addr := evm_address_from_secp256k1 pk_bytes in
  let? declared := require_len 20 (address b) (InvalidPayload msg) in
  let? _ := check_proof (derived_addr =? be_num declared) (address_type b) in
  Ok (be_num declared).

Definition byte_is (l : list Z) (i : nat) (x : Z) : bool := bool_decide (l !! i = Some x).

(** P2PKH or P2WPKH of the key's hash; [None] for any other script. *)
Definition btc_script_matches (addr pk_hash : list Z) : option bool :=
  if (length addr =? 25)%nat && byte_is addr 0 118 && byte_is addr 1 169 && byte_is addr 2 20 &&
     byte_is addr 23 136 && byte_is addr 24 172
  then Some (bool_decide (take 20 (drop 3 addr) = pk_hash))
  else if (length addr =? 22)%nat && byte_is addr 0 0 && byte_is addr 1 20
  then Some (bool_decide (take 20 (drop 2 addr) = pk_hash))
  else None.

Definition verify_and_apply_binding (state : StateTree) (account : Account)
    (sender_idcom : AccountId) (b : AddressBinding) : result EngineError (Account * StateChange) :=
  let msg := register_address_message sender_idcom (address_type b) (address b) in
  let ty := address_type b in
  let id := acc_id_com account in
  let? updated :=
    (if ty =? ADDR_TYPE_EVM then
       let? pk_bytes := secp_proof msg b in
       let? declared := declared_secp_address pk_bytes b "EVM address must be 20 bytes" in
       let? _ := check_free (evm_index state) declared id in
       Ok (set_aliases account (acc_xid account) (Some declared) (acc_tron_address account))
     else if ty =? ADDR_TYPE_TRON then
       let? pk_bytes := secp_proof msg b in
       let? declared := declared_secp_address pk_bytes b "TRON address must be 20 bytes" in
       let? _ := check_free (tron_index state) declared id in
       Ok (set_aliases account (acc_xid account) (acc_evm_address account) (Some declared))
     else if ty =? ADDR_TYPE_SOLANA then
       let? sol_pk := require_len 32 (address b) (InvalidPayload "Solana address must be 32 bytes") in
       let? _ := check_proof (verify_signature (ed25519 sol_pk) msg (proof_sig b)) ty in
       let? _ := check_free (solana_index state) (be_num sol_pk) id in
       Ok (set_chain_addresses account (Some (be_num sol_pk)) (acc_btc_address account))
     else if ty =? ADDR_TYPE_BTC then
       let? pk_bytes := secp_proof msg b in
       let? valid_script :=
         ok_or (btc_script_matches (address b) (btc_hash160 pk_bytes))
           (InvalidPayload "BTC binding with proof_pubkey requires P2PKH or P2WPKH script") in
       let? _ := check_proof valid_script ty in
       let? _ := check_free (btc_index state) (address b) id in
       Ok (set_chain_addresses account (acc_solana_address account) (Some (address b)))
     else if ty =? ADDR_TYPE_XID then
       let? xid := require_len 32 (address b) (InvalidPayload "XID must be 32 bytes") in
       let? _ := check_proof (idcom_xid env_sha256 (be_num xid) =? sender_idcom) ty in
       let? _ := check_free (xid_index state) (be_num xid) id in
       Ok (set_aliases account (Some (be_num xid)) (acc_evm_address account)
             (acc_tron_address account))
     else if ty =? ADDR_TYPE_XADDRESS then
       let? pk_bytes := ok_or (proof_pubkey b) (InvalidBindingProof ty) in
       let? declared := require_len 32 (address b) (InvalidPayload "xaddress must be 32 bytes") in
       let? _ := check_proof (xaddress_hash pk_bytes =? be_num declared) ty in
       let? _ := check_proof (verify_signature (ml_dsa_44 pk_bytes) msg (proof_sig b)) ty in
       let? _ := check_free (xaddress_index state) (be_num declared) id in
       Ok (set_xaddress account (Some (be_num declared)))
     else Err (InvalidPayload "unknown address type")) in
  Ok (updated, AddressBound (acc_id_com account) ty).

Fixpoint apply_bindings (state : StateTree) (account : Account) (sender_idcom : AccountId)
    (bs : list AddressBinding) : result EngineError (Account * list StateChange) :=
  match bs with
  | [] => Ok (account, [])
  | b :: bs =>
      let? (account, change) := verify_and_apply_binding state account sender_idcom b in
      let? (account, changes) := apply_bindings state account sender_idcom bs in
      Ok (account, change :: changes)
  end.

(* ------------------------------------------------------------------ *)
(** * Operations *)

Definition consume_account_nonce (sender : AccountId) (nonce : Z) : M EngineError StateChange :=
  let! found := get_account sender in
  let! account := require found (AccountNotFound sender) in
  do! fail_if (negb (acc_nonce account =? nonce)) (InvalidNonce (acc_nonce account) nonce) in
  let! new_nonce := require (u64_checked_add (acc_nonce account) 1) (NonceOverflow sender) in
  do! update sender (fun a => set_nonce a new_nonce) in
  ret (NonceIncrement sender new_nonce).

Definition validate_approve_validator_sender (policy : ExecutionPolicy) (sender : AccountId)
    : result EngineError unit :=
  let? founder :=
    ok_or (founder_id_com policy)
      (InvalidPayload "validator admission is disabled (no founder_id_com in genesis)") in
  if negb (sender =? founder) then
    Err (InvalidPayload "OP_APPROVE_VALIDATOR sender is not the founder")
  else Ok tt.

Definition apply_approve_validator_nonce (sender : AccountId) (nonce : Z)
    (policy : ExecutionPolicy) : M EngineError (list StateChange) :=
  do! lift (validate_approve_validator_sender policy sender) in
  let! nonce_change := consume_account_nonce sender nonce in
  ret [nonce_change].

Definition consume_zk_replay (tx : Transaction) (sender : AccountId)
    : M EngineError (list StateChange) :=
  let! zk := require (zk_auth tx) (InvalidCredential (tx_sender tx)) in
  let! consumed := gets (fun t => zk_replay_contains t (rp_com zk)) in
  do! fail_if consumed
    (InvalidPayload "ZK-ACE replay commitment already consumed") in
  do! modify (fun t => fst (zk_replay_consume t (rp_com zk) sender)) in
  ret [ZkReplayConsumed (rp_com zk) sender].

Definition map_key_err (r : result AuthKeyError Account) : result EngineError Account :=
  match r with
  | Ok a => Ok a
  | Err PrimaryAlgorithmUsed => Err (InvalidPayload "primary key already uses the algorithm")
  | Err AlgorithmPresent => Err (InvalidPayload "auth key for the algorithm already exists")
  | Err MaximumReached => Err (InvalidPayload "maximum auth keys reached")
  end.

Definition same_alg (key k : TaggedPubkey) : bool :=
  bool_decide (pk_algorithm k = pk_algorithm key).

(** [remove(pos)] and [keys[pos] = key] for the first key of the algorithm. *)
Fixpoint remove_first_alg (key : TaggedPubkey) (ks : list TaggedPubkey) : list TaggedPubkey :=
  match ks with
  | [] => []
  | k :: ks => if same_alg key k then ks else k :: remove_first_alg key ks
  end.
Fixpoint replace_first_alg (key : TaggedPubkey) (ks : list TaggedPubkey) : list TaggedPubkey :=
  match ks with
  | [] => []
  | k :: ks => if same_alg key k then key :: ks else k :: replace_first_alg key ks
  end.

(** The key change of [SetAuthPubkey]. *)
Definition rotate_key (a : Account) (key : TaggedPubkey) : result EngineError Account :=
  if pubkey_is_zero (acc_auth_pubkey a) then
    Ok (set_keys a key (remove_first_alg key (acc_auth_keys a)))
  else if bool_decide (pk_algorithm key = pk_algorithm (acc_auth_pubkey a)) then
    Ok (set_keys a key (acc_auth_keys a))
  else if existsb (same_alg key) (acc_auth_keys a) then
    Ok (set_keys a (acc_auth_pubkey a) (replace_first_alg key (acc_auth_keys a)))
  else map_key_err (add_auth_key a key).

(** [SetAuthPubkey] and [AddAuthKey] after the nonce: [change] is applied
    through [get_mut]. *)
Definition change_keys (sender : AccountId) (nonce : Z) (key : TaggedPubkey)
    (change : Account -> TaggedPubkey -> result EngineError Account)
    : M EngineError (list StateChange) :=
  let! nonce_change := consume_account_nonce sender nonce in
  let! found := get_account sender in
  let! account := require found (AccountNotFound sender) in
  let! updated := lift (change account key) in
  do! update sender (fun _ => updated) in
  ret [nonce_change; AuthKeyUpdated sender (algorithm_tag (pk_algorithm key))].

(** The effect of a decoded operation, shared by both execution paths. *)
Definition apply_operation (tx : Transaction) (op : TransactionOp) (policy : ExecutionPolicy)
    : M EngineError (list StateChange) :=
  let sender := tx_sender tx in
  match op with
  | HfiPayClaim _ _ _ _ | HfiPayCreate _ _ _ _ _ _ _ _ _ _ _ _ | HfiPayFund _ _ _ _
  | HfiPayExpire _ | HfiPayRefund _ _ _ | HfiPayRegisterRecipient _ _ _ _ _ _ _ _ _ _ =>
      fail (InvalidPayload "HFI Pay opcode (0x06..=0x0B) is executed by the n-VM HFI hook")
  | ApproveValidator nonce _ _ => apply_approve_validator_nonce sender nonce policy
  | Transfer nonce to amount =>
      if is_zk_auth tx then
        let! changes := consume_zk_replay tx sender in
        let! more := transfer_with_nonce_policy sender to amount None false in
        ret (changes ++ more)
      else transfer sender to amount (Some nonce)
  | CreateAccount id_com auth_pubkey =>
      do! fail_if (negb (id_com =? sender))
        (InvalidPayload "CreateAccount id_com must equal sender") in
      let! present := contains id_com in
      do! fail_if present (AccountAlreadyExists id_com) in
      do! modify (fun t => insert_account env_sha256 t (with_auth id_com 0 auth_pubkey)) in
      ret [AccountCreated id_com]
  | SetAuthPubkey nonce auth_pubkey => change_keys sender nonce auth_pubkey rotate_key
  | AddAuthKey nonce auth_pubkey =>
      change_keys sender nonce auth_pubkey (fun a k => map_key_err (add_auth_key a k))
  | RegisterAddresses nonce bindings =>
      let! nonce_change := consume_account_nonce sender nonce in
      let! t := get in
      let! account := require (accounts t !! sender) (AccountNotFound sender) in
      let! (updated, changes) := lift (apply_bindings t account sender bindings) in
      do! modify (fun t => insert_account env_sha256 t updated) in
      ret (nonce_change :: changes)
  end.

(* ------------------------------------------------------------------ *)
(** * Authorisation and execution *)

(** The key an account update is verified with: the account's key of the
    credential's algorithm, its first non-zero key, or the new key when it has
    none. *)
Definition key_update_key (a : Account) (alg : SignatureAlgorithm) (new : TaggedPubkey)
    : TaggedPubkey :=
  let fallback :=
    if has_provisioned_auth_key a then
      if negb (pubkey_is_zero (acc_auth_pubkey a)) then acc_auth_pubkey a
      else default new (List.find (fun k => negb (pubkey_is_zero k)) (acc_auth_keys a))
    else new in
  match auth_key_for_algorithm a alg with
  | Some k => if negb (pubkey_is_zero k) then k else fallback
  | None => fallback
  end.

(** The key a transaction is verified with, given the sender's account; [None]
    when there is no account and the operation does not bring a key. *)
Definition verification_key (sender_account : option Account) (tx : Transaction)
    (op : TransactionOp) : option TaggedPubkey :=
  let sender := tx_sender tx in
  let sig_alg := sig_algorithm (credential (attestation tx)) in
  let ordinary :=
    (fun a => default (acc_auth_pubkey a) (auth_key_for_algorithm a sig_alg)) <$>
      sender_account in
  match op with
  | CreateAccount id_com auth_pubkey => if id_com =? sender then Some auth_pubkey else ordinary
  | SetAuthPubkey _ auth_pubkey | AddAuthKey _ auth_pubkey =>
      (fun a => key_update_key a sig_alg auth_pubkey) <$> sender_account
  | _ => ordinary
  end.

Definition success_receipt (tx : Transaction) (changes : list StateChange) : ExecutionReceipt :=
  {| receipt_tx_hash := tx_hash env_sha256 tx; receipt_success := true;
     receipt_sender := tx_sender tx; receipt_changes := changes; receipt_error := None |}.

Definition failure_receipt (tx : Transaction) (msg : string) : ExecutionReceipt :=
  {| receipt_tx_hash := tx_hash env_sha256 tx; receipt_success := false;
     receipt_sender := tx_sender tx; receipt_changes := []; receipt_error := Some msg |}.

Definition zk_only_transfer (tx : Transaction) (op : TransactionOp) : M EngineError unit :=
  fail_if (is_zk_auth tx && negb (is_transfer op))
    (InvalidPayload "ZK-ACE authorization is only permitted for Transfer operations").

(** The proof or the credential of a decoded transaction. *)
Definition authorize (tx : Transaction) (op : TransactionOp) : M EngineError unit :=
  match zk_auth tx with
  | Some zk => fail_if (negb (env_verify_zk tx zk)) (InvalidCredential (tx_sender tx))
  | None =>
      let! sender_account := get_account (tx_sender tx) in
      let! verify_pubkey :=
        require (verification_key sender_account tx op) (AccountNotFound (tx_sender tx)) in
      fail_if
        (negb (verify_credential env_sha256 env_devnet (attestation tx) (payload tx)
                 verify_pubkey))
        (InvalidCredential (tx_sender tx))
  end.

Definition execute_transaction (tx : Transaction) (policy : ExecutionPolicy)
    : M EngineError ExecutionReceipt :=
  let! op := lift (engine_decode (payload tx)) in
  do! zk_only_transfer tx op in
  do! authorize tx op in
  let! changes := apply_operation tx op policy in
  ret (success_receipt tx changes).

Definition execute_transaction_presigned (tx : Transaction) (policy : ExecutionPolicy)
    : M EngineError ExecutionReceipt :=
  let! op := lift (engine_decode (payload tx)) in
  do! zk_only_transfer tx op in
  let! changes := apply_operation tx op policy in
  ret (success_receipt tx changes).

(** Phase 1 of a block: the key from the state before the block. *)
Definition pre_result (t : StateTree) (tx : Transaction) : option TaggedPubkey :=
  match decode (payload tx) with
  | Ok op => verification_key (accounts t !! tx_sender tx) tx op
  | Err _ => None
  end.

Definition sig_ok (t : StateTree) (tx : Transaction) : bool :=
  match zk_auth tx with
  | Some zk => env_verify_zk tx zk
  | None =>
      match pre_result t tx with
      | Some pk =>
          if pubkey_is_zero pk then false
          else verify_credential env_sha256 env_devnet (attestation tx) (payload tx) pk
      | None => false
      end
  end.

(** One transaction of phase 2; an error keeps what the operation wrote. *)
Definition run_presigned (policy : ExecutionPolicy) (ok : bool) (t : StateTree) (tx : Transaction)
    : StateTree * ExecutionReceipt :=
  if ok then
    match execute_transaction_presigned tx policy t with
    | (t', Ok r) => (t', r)
    | (t', Err e) => (t', failure_receipt tx (error_text e))
    end
  else (t, failure_receipt tx "Invalid attestation signature").

Fixpoint run_presigned_all (policy : ExecutionPolicy) (t : StateTree)
    (l : list (Transaction * bool)) : StateTree * list ExecutionReceipt :=
  match l with
  | [] => (t, [])
  | (tx, ok) :: l =>
      let '(t, r) := run_presigned policy ok t tx in
      let '(t, rs) := run_presigned_all policy t l in
      (t, r :: rs)
  end.

Definition execute_block (policy : ExecutionPolicy) (t : StateTree) (txs : list Transaction)
    : StateTree * list ExecutionReceipt :=
  run_presigned_all policy t ((fun tx => (tx, sig_ok t tx)) <$> txs).
End engine.

(* ------------------------------------------------------------------ *)
(** * Balances and nonces *)

(** Accounts are stored under their id, with balances and nonces of 64 bits. *)
Definition account_fits (id : AccountId) (a : Account) : Prop :=
  acc_id_com a = id /\ is_u64 (acc_balance a) /\ is_u64 (acc_nonce a).
Definition tree_fits (t : StateTree) : Prop := map_Forall account_fits (accounts t).

Lemma total_balance_insert t t' id a :
  accounts t' = <[id := a]> (accounts t) ->
  total_balance t' =
    total_balance t + acc_balance a - default 0 (acc_balance <$> accounts t !! id).
Proof.
  intros E. unfold total_balance. rewrite E, (total_balance_delete (<[id:=a]> _) id a)
    by apply lookup_insert_eq.
  rewrite delete_insert_eq. destruct (accounts t !! id) as [b|] eqn:Hb; cbn.
  - rewrite (total_balance_delete (accounts t) id b Hb). lia.
  - rewrite delete_id by done. lia.
Qed.

Lemma get_mut_accounts t id f a :
  accounts t !! id = Some a -> accounts (get_mut_update t id f) = <[id := f a]> (accounts t).
Proof. intros H. unfold get_mut_update. by rewrite H. Qed.

Lemma tree_fits_insert t t' id a :
  accounts t' = <[id := a]> (accounts t) -> tree_fits t -> account_fits id a -> tree_fits t'.
Proof. intros E Ht Ha. unfold tree_fits. rewrite E. by apply map_Forall_insert_2. Qed.

(** From [t] to [t'] no account is lost, no nonce falls, the widths hold, no
    replay commitment is forgotten, and the hot accounts gain [d] in total. *)
Definition grows (t t' : StateTree) : Prop :=
  forall id a, accounts t !! id = Some a ->
  exists a', accounts t' !! id = Some a' /\ acc_nonce a <= acc_nonce a'.

Record moved (t t' : StateTree) (d : Z) : Prop := {
  moved_fits : tree_fits t';
  moved_grows : grows t t';
  moved_total : total_balance t' = total_balance t + d;
  moved_registry : zk_replay_registry t ⊆ zk_replay_registry t';
}.

Lemma grows_trans t1 t2 t3 : grows t1 t2 -> grows t2 t3 -> grows t1 t3.
Proof.
  intros H1 H2 id a Ha. destruct (H1 id a Ha) as (b & Hb & ?). destruct (H2 id b Hb) as (c & Hc & ?).
  exists c. split; [done|lia].
Qed.

Lemma moved_refl t : tree_fits t -> moved t t 0.
Proof. intros H. split; [done|intros id a Ha; exists a; split; [done|lia]|lia|done]. Qed.

Lemma moved_trans t1 t2 t3 d e : moved t1 t2 d -> moved t2 t3 e -> moved t1 t3 (d + e).
Proof. intros [] []. split; [done|by eapply grows_trans|lia|by etrans]. Qed.

(** Steps that leave the accounts alone. *)
Lemma moved_same t t' :
  tree_fits t -> accounts t' = accounts t -> zk_replay_registry t ⊆ zk_replay_registry t' ->
  moved t t' 0.
Proof.
  intros Hf E Hr. split; [unfold tree_fits; by rewrite E| |unfold total_balance; rewrite E; lia|done].
  intros id a Ha. exists a. rewrite E. split; [done|lia].
Qed.

Lemma moved_insert t t' id a b :
  tree_fits t -> accounts t' = <[id := b]> (accounts t) -> accounts t !! id = Some a ->
  account_fits id b -> acc_nonce a <= acc_nonce b ->
  zk_replay_registry t' = zk_replay_registry t ->
  moved t t' (acc_balance b - acc_balance a).
Proof.
  intros Hf E Ha Hb Hn Hr. split; [by eapply tree_fits_insert| | |by rewrite Hr].
  - intros i c Hc. rewrite E. destruct (decide (i = id)) as [->|].
    + rewrite lookup_insert_eq. exists b. split; [done|]. congruence || (simplify_eq; lia).
    + rewrite lookup_insert_ne by done. exists c. split; [done|lia].
  - rewrite (total_balance_insert t t' id b E), Ha. cbn. lia.
Qed.

Lemma moved_new t t' id b :
  tree_fits t -> accounts t' = <[id := b]> (accounts t) -> accounts t !! id = None ->
  account_fits id b -> zk_replay_registry t' = zk_replay_registry t ->
  moved t t' (acc_balance b).
Proof.
  intros Hf E Ha Hb Hr. split; [by eapply tree_fits_insert| | |by rewrite Hr].
  - intros i c Hc. rewrite E. rewrite lookup_insert_ne by congruence. exists c. split; [done|lia].
  - rewrite (total_balance_insert t t' id b E), Ha. cbn. lia.
Qed.

(** An update through [get_mut] of an account that is there. *)
Lemma moved_update t id a f :
  tree_fits t -> accounts t !! id = Some a -> account_fits id (f a) ->
  acc_nonce a <= acc_nonce (f a) ->
  moved t (get_mut_update t id f) (acc_balance (f a) - acc_balance a).
Proof.
  intros Hf Ha Hb Hn. eapply moved_insert; eauto using get_mut_accounts.
  unfold get_mut_update. by rewrite Ha.
Qed.

Section moves.
Context {CE : CryptoEnv}.

(** What every operation does: money moves only when the nonce overflows half
    way through a transfer. *)
Definition conserves (t t' : StateTree) {A} (r : result EngineError A) : Prop :=
  exists d, moved t t' d /\
    match r with
    | Err (NonceOverflow _) => True
    | _ => d = 0
    end.

Lemma conserves_refl {A} t (r : result EngineError A) : tree_fits t -> conserves t t r.
Proof. intros H. exists 0. split; [by apply moved_refl|]. by destruct r as [|[]]. Qed.

Lemma conserves_moved {A} t t' (r : result EngineError A) : moved t t' 0 -> conserves t t' r.
Proof. intros H. exists 0. split; [done|]. by destruct r as [|[]]. Qed.

Lemma conserves_after {A} t1 t2 t3 (r : result EngineError A) :
  moved t1 t2 0 -> conserves t2 t3 r -> conserves t1 t3 r.
Proof.
  intros H (d & Hm & Hr). exists (0 + d). split; [by eapply moved_trans|]. by destruct r as [|[]].
Qed.

Lemma fits_lookup t id a : tree_fits t -> accounts t !! id = Some a -> account_fits id a.
Proof. intros H. apply H. Qed.

Lemma set_nonce_fits id a n : account_fits id a -> is_u64 n -> account_fits id (set_nonce a n).
Proof. by intros (? & ? & ?). Qed.
Lemma set_balance_fits id a n : account_fits id a -> is_u64 n -> account_fits id (set_balance a n).
Proof. by intros (? & ? & ?). Qed.

(** The nonce [n] of [id] was current before and is used up after. *)
Definition consumes (t t' : StateTree) (id : AccountId) (n : Z) : Prop :=
  (exists a, accounts t !! id = Some a /\ acc_nonce a = n) /\
  (exists a, accounts t' !! id = Some a /\ n < acc_nonce a).

Lemma consume_nonce_spec t id n :
  tree_fits t ->
  wp (consume_account_nonce id n) t (fun t' r =>
    moved t t' 0 /\ match r with Ok _ => consumes t t' id n | Err _ => t' = t end).
Proof.
  intros Hf. unfold consume_account_nonce. wp_go;
    try (split; [by apply moved_refl|done]).
  match goal with H : accounts t !! id = Some ?x |- _ => rename x into a, H into Ha end.
  match goal with H : u64_checked_add _ _ = Some ?x |- _ =>
    apply u64_checked_add_Some in H as [-> Hmax] end.
  pose proof (fits_lookup _ _ _ Hf Ha) as (Hid & Hb & Hn).
  assert (moved t (get_mut_update t id (fun a0 => set_nonce a0 (acc_nonce a + 1)))
    (acc_balance a - acc_balance a)) as Hm.
  { apply (moved_update t id a (fun a0 => set_nonce a0 (acc_nonce a + 1))); [done|done| |cbn; lia].
    apply set_nonce_fits; [done|]. unfold is_u64 in *. lia. }
  rewrite Z.sub_diag in Hm. split; [done|]. split.
  - exists a. split; [done|]. match goal with H : negb _ = false |- _ => bool_prop end. lia.
  - eexists. rewrite (get_mut_accounts _ _ _ a) by done. rewrite lookup_insert_eq.
    split; [done|]. cbn. bool_prop. lia.
Qed.
(** The second half of a transfer between different accounts. *)
Lemma moved_pay t from to a b amount f :
  tree_fits t -> from <> to -> accounts t !! from = Some a -> accounts t !! to = Some b ->
  0 <= amount <= acc_balance a -> acc_balance b + amount <= u64_max ->
  account_fits from (f a) -> acc_nonce a <= acc_nonce (f a) ->
  acc_balance (f a) = acc_balance a - amount ->
  moved t (get_mut_update (get_mut_update t from f) to
             (fun x => set_balance x (acc_balance b + amount))) 0.
Proof.
  intros Hf Hne Ha Hb Ham Hmax Hfit Hn Hbal.
  pose proof (moved_update t from a f Hf Ha Hfit Hn) as H1.
  assert (accounts (get_mut_update t from f) !! to = Some b) as Hb'.
  { rewrite (get_mut_accounts _ _ _ a) by done. by rewrite lookup_insert_ne. }
  pose proof (fits_lookup _ _ _ (moved_fits _ _ _ H1) Hb') as (Hi & Hbb & Hnb).
  pose proof (moved_update _ to b (fun x => set_balance x (acc_balance b + amount))
    (moved_fits _ _ _ H1) Hb') as H2.
  replace 0 with ((acc_balance (f a) - acc_balance a) +
    (acc_balance (set_balance b (acc_balance b + amount)) - acc_balance b)) by (cbn; lia).
  eapply moved_trans; [exact H1|]. apply H2; [|cbn; lia].
  split_and!; cbn; [done|unfold is_u64 in *; lia|done].
Qed.

Lemma get_mut_twice t id f g :
  get_mut_update (get_mut_update t id f) id g = get_mut_update t id (fun a => g (f a)).
Proof.
  unfold get_mut_update. destruct (accounts t !! id) as [a|] eqn:E; [|by rewrite E].
  cbn. rewrite lookup_insert_eq. cbn. unfold set_tiers. cbn. by rewrite insert_insert_eq.
Qed.
Lemma transfer_pay_spec t from to a amount inc :
  tree_fits t -> accounts t !! from = Some a -> is_Some (accounts t !! to) ->
  0 <= amount <= acc_balance a ->
  wp (transfer_pay from to amount inc) t (fun t' r =>
    conserves t t' r /\ match r with Ok _ => inc = true -> consumes t t' from (acc_nonce a)
                        | Err _ => True end).
Proof.
  intros Hf Ha [b Hb] Ham. unfold transfer_pay.
  pose proof (fits_lookup _ _ _ Hf Ha) as (Hid & Hba & Hna).
  pose proof (fits_lookup _ _ _ Hf Hb) as (Hidb & Hbb & Hnb).
  wp_step. wp_step. wp_step. rewrite Ha. wp_step; [|done].
  match goal with H : Some _ = Some _ |- _ => injection H as <- end.
  wp_step.
  - wp_go; try (split; [by apply conserves_refl|by destruct inc]).
    match goal with H : u64_checked_add _ _ = Some _ |- _ =>
      apply u64_checked_add_Some in H as [-> Hmax] end.
    pose proof (moved_update t from a (fun x => set_nonce x (acc_nonce a + 1)) Hf Ha) as Hm.
    cbn in Hm. rewrite Z.sub_diag in Hm. split.
    + apply conserves_moved, Hm; [|lia]. apply set_nonce_fits; [done|]. unfold is_u64 in *; lia.
    + intros _. split; [by exists a|]. eexists. rewrite (get_mut_accounts _ _ _ a) by done.
      rewrite lookup_insert_eq. split; [done|cbn; lia].
  - wp_step. wp_step. rewrite Hb. wp_step. wp_step; [|done].
    match goal with H : Some _ = Some _ |- _ => injection H as <- end.
    wp_step. wp_step; [|split; [by apply conserves_refl|done]].
    match goal with H : bool_decide _ = false |- _ => apply bool_decide_eq_false in H; rename H into Hov end.
    assert (acc_balance b + amount <= u64_max) as Hmax.
    { destruct (decide (u64_max < acc_balance b + amount)) as [Hgt|]; [|lia].
      by apply u64_checked_add_None in Hgt. }
    assert (from <> to) as Hne by (by apply Z.eqb_neq).
    wp_step. wp_step. wp_step. destruct inc; wp_go.
    + match goal with H : u64_checked_add _ _ = Some _ |- _ =>
        apply u64_checked_add_Some in H as [-> Hn] end.
      rewrite get_mut_twice. split.
      * apply conserves_moved.
        apply (moved_pay t from to a b amount
          (fun x => set_nonce (set_balance x (acc_balance a - amount)) (acc_nonce a + 1)));
          try done; try (cbn; lia).
        apply set_nonce_fits; [|unfold is_u64 in *; lia].
        apply set_balance_fits; [done|unfold is_u64 in *; lia].
      * intros _. split; [by exists a|]. eexists. unfold get_mut_update at 1.
        rewrite (get_mut_accounts _ _ _ a) by done. rewrite (lookup_insert_ne _ from to), Hb by done.
        cbn. rewrite lookup_insert_ne by done. rewrite lookup_insert_eq. split; [done|cbn; lia].
    + split; [|done]. eexists. split; [|done].
      eapply (moved_update t from a (fun x => set_balance x (acc_balance a - amount)));
        [done|done| |cbn; lia].
      apply set_balance_fits; [done|unfold is_u64 in *; lia].
    + split; [|done]. apply conserves_moved.
      apply (moved_pay t from to a b amount (fun x => set_balance x (acc_balance a - amount)));
        try done; try (cbn; lia).
      apply set_balance_fits; [done|unfold is_u64 in *; lia].
Qed.
Lemma conserves_err {A B} t t' (e : EngineError) :
  conserves t t' (Err e : result EngineError A) -> conserves t t' (Err e : result EngineError B).
Proof. done. Qed.

Lemma consumes_after t t1 t' id n a :
  accounts t !! id = Some a -> accounts t1 !! id = Some a ->
  consumes t1 t' id n -> consumes t t' id n.
Proof. intros Ha Ha1 [(b & Hb & Hn) H]. split; [|done]. exists a. split; [done|]. congruence. Qed.

(** The nonce a successful transfer was checked against is used up. *)
Definition uses_nonce {A} (t t' : StateTree) (id : AccountId) (en : option Z) (inc : bool)
    (r : result EngineError A) : Prop :=
  match r, en with
  | Ok _, Some n => inc = true -> consumes t t' id n
  | _, _ => True
  end.

Lemma transfer_spec t from to amount en inc :
  tree_fits t -> 0 <= amount ->
  wp (transfer_with_nonce_policy from to amount en inc) t (fun t' r =>
    conserves t t' r /\ uses_nonce t t' from en inc r).
Proof.
  intros Hf Ham. unfold transfer_with_nonce_policy.
  wp_go; try (split; [by apply conserves_refl|done]).
  match goal with H : accounts t !! from = Some ?x |- _ => rename x into a, H into Ha end.
  set (nonce_ok := match en with Some n => acc_nonce a = n | None => True end).
  apply wp_mono with (Q := fun t' r => t' = t /\ (r = Ok tt -> nonce_ok)).
  2: { destruct en as [n|]; wp_go; (split; [done|]); intros; try done.
       unfold nonce_ok. bool_prop. lia. }
  intros ? [[]|e] [-> Hn]; [|split; [by apply conserves_refl|done]].
  specialize (Hn eq_refl). wp_go; try (split; [by apply conserves_refl|done]).
  - assert (0 <= amount <= acc_balance a) as Hle by (bool_prop; lia).
    eapply wp_mono; [|apply (transfer_pay_spec t from to a); [done|done|by bool_prop|done]].
    intros t' r [Hc Hu]. split; [done|]. destruct r, en; try done. cbn in *. by rewrite <-Hn.
  - assert (0 <= amount <= acc_balance a) as Hle by (bool_prop; lia).
    assert (accounts t !! to = None) as Hto by (apply eq_None_not_Some; by bool_prop).
    set (t1 := insert_account env_sha256 t (with_balance to 0)).
    assert (moved t t1 0) as Hm.
    { apply (moved_new t t1 to (with_balance to 0)); [done|done|done| |done].
      split_and!; cbn; [done|unfold is_u64, u64_max; lia..]. }
    assert (accounts t1 !! from = Some a) as Ha1
      by (cbn; rewrite lookup_insert_ne by congruence; done).
    eapply wp_mono; [|apply (transfer_pay_spec t1 from to a);
      [apply Hm|done|cbn; rewrite lookup_insert_eq; by eexists|done]].
    intros t' r [Hc Hu]. split; [by eapply conserves_after|]. destruct r, en; try done. cbn in *.
    rewrite <-Hn. intros Hi. apply (consumes_after t t1 t' from _ a Ha Ha1), Hu, Hi.
Qed.

(** Bindings and key changes touch neither id, balance nor nonce. *)
Definition same_money (a b : Account) : Prop :=
  acc_id_com b = acc_id_com a /\ acc_balance b = acc_balance a /\ acc_nonce b = acc_nonce a.

Lemma binding_same_money t a id b a' c :
  verify_and_apply_binding t a id b = Ok (a', c) -> same_money a a'.
Proof.
  unfold verify_and_apply_binding. intros H.
  repeat match type of H with
  | rbind ?r _ = _ => destruct r eqn:?; cbn [rbind] in H; [|done]
  end.
  injection H as <- _.
  repeat match goal with
  | H : (if ?c then _ else _) = Ok _ |- _ => destruct c
  | H : rbind ?r _ = Ok _ |- _ => destruct r; cbn [rbind] in H; [|done]
  | H : Ok _ = Ok _ |- _ => injection H as <-
  end; done.
Qed.

Lemma bindings_same_money t id bs a a' cs :
  apply_bindings t a id bs = Ok (a', cs) -> same_money a a'.
Proof.
  revert a cs. induction bs as [|b bs IH]; intros a cs; cbn [apply_bindings].
  { by intros [= <- _]. }
  destruct (verify_and_apply_binding t a id b) as [[a1 c]|] eqn:E; [|done]. cbn [rbind].
  destruct (apply_bindings t a1 id bs) as [[a2 cs']|] eqn:E2; [|done]. intros [= <- _].
  apply binding_same_money in E. apply IH in E2. unfold same_money in *. intuition congruence.
Qed.

Lemma rotate_key_same_money a k b : rotate_key a k = Ok b -> same_money a b.
Proof.
  unfold rotate_key, map_key_err, add_auth_key.
  repeat case_match; intros; simplify_eq; done.
Qed.

Lemma add_key_same_money a k b : map_key_err (add_auth_key a k) = Ok b -> same_money a b.
Proof. unfold map_key_err, add_auth_key. repeat case_match; intros; simplify_eq; done. Qed.

Lemma moved_same_money t t' id a b :
  tree_fits t -> accounts t !! id = Some a -> same_money a b ->
  accounts t' = <[id := b]> (accounts t) -> zk_replay_registry t' = zk_replay_registry t ->
  moved t t' 0.
Proof.
  intros Hf Ha (Hi & Hb & Hn) E Hr. pose proof (fits_lookup _ _ _ Hf Ha) as (? & ? & ?).
  replace 0 with (acc_balance b - acc_balance a) by lia.
  eapply moved_insert; [done|done|done| |lia|done]. split_and!; congruence.
Qed.
Lemma zk_consume_accounts t rp id : accounts (fst (zk_replay_consume t rp id)) = accounts t.
Proof. unfold zk_replay_consume. by case_match. Qed.

Lemma zk_consume_grows t rp id :
  zk_replay_registry t ⊆ zk_replay_registry (fst (zk_replay_consume t rp id)).
Proof.
  unfold zk_replay_consume, zk_replay_contains. case_match; [done|]. cbn.
  apply insert_subseteq. apply eq_None_not_Some. by bool_prop.
Qed.

(** The account nonce an operation carries, and the amounts it moves. *)
Definition op_nonce (op : TransactionOp) : option Z :=
  match op with
  | Transfer n _ _ | SetAuthPubkey n _ | AddAuthKey n _ | RegisterAddresses n _
  | ApproveValidator n _ _ => Some n
  | _ => None
  end.
Definition amount_ok (op : TransactionOp) : Prop :=
  match op with Transfer _ _ amount => 0 <= amount | _ => True end.

Definition op_effect {A} (tx : Transaction) (op : TransactionOp) (t t' : StateTree)
    (r : result EngineError A) : Prop :=
  conserves t t' r /\
  (is_zk_auth tx = false ->
   match r, op_nonce op with Ok _, Some n => consumes t t' (tx_sender tx) n | _, _ => True end).

Lemma consumes_moved t t1 t' id n : consumes t t1 id n -> grows t1 t' -> consumes t t' id n.
Proof.
  intros [H (a & Ha & Hn)] Hg. split; [done|]. destruct (Hg id a Ha) as (b & Hb & ?).
  exists b. split; [done|lia].
Qed.

(** What follows a consumed nonce: a write that keeps money and nonce. *)
Lemma after_nonce {A} t t1 t2 id n (r : result EngineError A) :
  moved t t1 0 -> consumes t t1 id n -> moved t1 t2 0 ->
  conserves t t2 r /\ consumes t t2 id n.
Proof.
  intros H1 Hc H2. split; [apply conserves_moved, (moved_trans _ _ _ 0 0 H1 H2)|].
  eapply consumes_moved; [done|apply H2].
Qed.

Lemma change_keys_spec t id n k change :
  tree_fits t -> (forall a b, change a k = Ok b -> same_money a b) ->
  wp (change_keys id n k change) t (fun t' r =>
    conserves t t' r /\ match r with Ok _ => consumes t t' id n | Err _ => True end).
Proof.
  intros Hf Hch. unfold change_keys. wp_step. eapply wp_mono; [|by apply consume_nonce_spec].
  intros t1 [c|e] [Hm Hc]; [|subst; split; [by apply conserves_refl|done]].
  wp_go; try (split; [by apply conserves_moved|done]).
  destruct (change a k) as [b|e] eqn:Eb; wp_go; [|split; [by apply conserves_moved|done]].
  eapply after_nonce; [done|done|].
  eapply (moved_same_money t1 _ id a b); [apply Hm|done|by apply Hch|by apply (get_mut_accounts t1 id (fun _ => b) a)|].
  unfold get_mut_update. by case_match.
Qed.

Lemma register_spec t tx n bs policy :
  tree_fits t ->
  wp (apply_operation tx (RegisterAddresses n bs) policy) t
    (fun t' r => op_effect tx (RegisterAddresses n bs) t t' r).
Proof.
  intros Hf. unfold apply_operation. wp_step. eapply wp_mono; [|by apply consume_nonce_spec].
  intros t1 [c|e] [Hm Hc]; [|subst; split; [by apply conserves_refl|done]].
  wp_go; try (split; [by apply conserves_moved|done]).
  destruct (apply_bindings t1 a (tx_sender tx) bs) as [[b cs]|e] eqn:Eb; wp_go;
    [|split; [by apply conserves_moved|done]].
  apply bindings_same_money in Eb.
  assert (moved t1 (insert_account env_sha256 t1 b) 0) as Hm2.
  { eapply (moved_same_money t1 _ (tx_sender tx) a b); [apply Hm|done|done| |done].
    pose proof (fits_lookup _ _ _ (moved_fits _ _ _ Hm) ltac:(eassumption)) as (Hi & _).
    destruct Eb as (Hib & _). cbn. by rewrite Hib, Hi. }
  destruct (after_nonce (A := list StateChange) t t1 _ (tx_sender tx) n (Ok (c :: cs)) Hm Hc Hm2).
  by split.
Qed.

Lemma apply_operation_spec t tx op policy :
  tree_fits t -> amount_ok op ->
  wp (apply_operation tx op policy) t (fun t' r => op_effect tx op t t' r).
Proof.
  intros Hf Ham. destruct op; try (by apply register_spec); unfold apply_operation;
    try (wp_go; split; [by apply conserves_refl|done]).
  - destruct (is_zk_auth tx) eqn:Hz.
    + unfold consume_zk_replay. wp_go; try (split; [by apply conserves_refl|done]).
      set (t1 := fst (zk_replay_consume t _ _)).
      assert (moved t t1 0) as Hm.
      { unfold t1. apply moved_same; [done|by apply zk_consume_accounts|by apply zk_consume_grows]. }
      eapply wp_mono; [|apply transfer_spec; [apply Hm|done]].
      intros t' [l|e] [Hc _]; wp_go; (split; [by eapply conserves_after|congruence]).
    + unfold transfer. eapply wp_mono; [|by apply transfer_spec].
      intros t' r [Hc Hu]. split; [done|]. intros _. destruct r; [by apply Hu|done].
  - wp_go; try (split; [by apply conserves_refl|done]).
    split; [|done]. apply conserves_moved.
    match goal with |- moved _ (insert_account _ _ ?x) _ => apply (moved_new t _ (acc_id_com x) x) end;
      [done|done|apply eq_None_not_Some; by bool_prop| |done].
    split_and!; cbn; [done|unfold is_u64, u64_max; lia..].
  - eapply wp_mono; [|apply change_keys_spec; [done|intros; by eapply rotate_key_same_money]].
    intros t' r [Hc Hu]. split; [done|]. by destruct r.
  - eapply wp_mono; [|apply change_keys_spec; [done|intros; by eapply add_key_same_money]].
    intros t' r [Hc Hu]. split; [done|]. by destruct r.
  - unfold apply_approve_validator_nonce. wp_go.
    destruct (validate_approve_validator_sender policy (tx_sender tx)); wp_go;
      [|split; [by apply conserves_refl|done]].
    eapply wp_mono; [|by apply consume_nonce_spec].
    intros t1 [c|e] [Hm Hc]; wp_go; (split; [by apply conserves_moved|done]).
Qed.
(* ------------------------------------------------------------------ *)
(** * A transaction succeeds once *)

(** What a successful operation leaves behind: a larger nonce, its replay
    commitment, or its account. *)
Definition spent (tx : Transaction) (op : TransactionOp) (t : StateTree) : Prop :=
  match zk_auth tx with
  | Some zk => is_Some (zk_replay_registry t !! rp_com zk)
  | None =>
      match op_nonce op, op with
      | Some n, _ => exists a, accounts t !! tx_sender tx = Some a /\ n < acc_nonce a
      | None, CreateAccount id _ => is_Some (accounts t !! id)
      | None, _ => False
      end
  end.

Lemma spent_grows tx op t t' d : moved t t' d -> spent tx op t -> spent tx op t'.
Proof.
  intros [_ Hg _ Hr]. unfold spent. destruct (zk_auth tx) as [zk|].
  { intros [x Hx]. exists x. by eapply lookup_weaken. }
  destruct (op_nonce op) as [n|].
  - intros (a & Ha & Hn). destruct (Hg _ a Ha) as (b & Hb & ?). exists b. split; [done|lia].
  - destruct op; try done. intros [a Ha]. destruct (Hg _ a Ha) as (b & Hb & _). by exists b.
Qed.

Lemma zk_is_Some tx zk : zk_auth tx = Some zk -> is_zk_auth tx = true.
Proof. intros H. unfold is_zk_auth. rewrite H. by rewrite bool_decide_eq_true. Qed.
Lemma zk_is_None tx : zk_auth tx = None -> is_zk_auth tx = false.
Proof. intros H. unfold is_zk_auth. rewrite H. apply bool_decide_eq_false. by intros [??]. Qed.

(** A consumed nonce is refused. *)
Lemma nonce_refused t id n a :
  accounts t !! id = Some a -> n < acc_nonce a ->
  wp (consume_account_nonce id n) t (fun _ r => exists e, r = Err e).
Proof.
  intros Ha Hn. unfold consume_account_nonce. wp_step. wp_step. wp_step. rewrite Ha. wp_go;
    simplify_eq; try (by eexists). bool_prop. lia.
Qed.

Lemma nonce_first_refused {A} t id n (k : StateChange -> M EngineError A) :
  (exists a, accounts t !! id = Some a /\ n < acc_nonce a) ->
  wp (bind (consume_account_nonce id n) k) t (fun _ r => exists e, r = Err e).
Proof.
  intros (a & Ha & Hn). wp_step. eapply wp_mono; [|by eapply nonce_refused].
  intros ? ? [e ->]. by eexists.
Qed.

Lemma transfer_refused t from to amount n a :
  accounts t !! from = Some a -> n < acc_nonce a ->
  wp (transfer from to amount (Some n)) t (fun _ r => exists e, r = Err e).
Proof.
  intros Ha Hn. unfold transfer, transfer_with_nonce_policy.
  wp_go; try (by eexists); exfalso; simplify_eq; bool_prop; lia.
Qed.

Lemma spent_refused t tx op policy :
  spent tx op t -> is_zk_auth tx && negb (is_transfer op) = false ->
  wp (apply_operation tx op policy) t (fun _ r => exists e, r = Err e).
Proof.
  unfold spent. intros Hs Hz. destruct (zk_auth tx) as [zk|] eqn:Ezk.
  - rewrite (zk_is_Some _ _ Ezk) in Hz. destruct op; try done. unfold apply_operation.
    rewrite (zk_is_Some _ _ Ezk). unfold consume_zk_replay. rewrite Ezk. wp_go;
      try (by eexists); simplify_eq. unfold zk_replay_contains in *. by bool_prop.
  - pose proof (zk_is_None _ Ezk) as Hzk. destruct op; try done; cbn [op_nonce] in Hs;
      unfold apply_operation, change_keys, apply_approve_validator_nonce; rewrite ?Hzk.
    + destruct Hs as (a & Ha & Hn). by eapply transfer_refused.
    + wp_go; try (by eexists). by bool_prop.
    + by apply nonce_first_refused.
    + by apply nonce_first_refused.
    + by apply nonce_first_refused.
    + wp_step. wp_step. destruct (validate_approve_validator_sender _ _);
        [|by eexists]. by apply nonce_first_refused.
Qed.
Lemma operation_spends t tx op policy :
  tree_fits t -> amount_ok op -> is_zk_auth tx && negb (is_transfer op) = false ->
  wp (apply_operation tx op policy) t
    (fun t' r => match r with Ok _ => spent tx op t' | Err _ => True end).
Proof.
  intros Hf Ham Hz. unfold spent. destruct (zk_auth tx) as [zk|] eqn:Ezk.
  - rewrite (zk_is_Some _ _ Ezk) in Hz. destruct op; try done. unfold apply_operation.
    rewrite (zk_is_Some _ _ Ezk). unfold consume_zk_replay. rewrite Ezk. wp_go; try done; simplify_eq.
    match goal with |- wp _ ?x _ => set (t1 := x) end.
    assert (is_Some (zk_replay_registry t1 !! rp_com a)) as Hin.
    { unfold t1, zk_replay_consume. unfold zk_replay_contains in *. case_match; [by bool_prop|].
      cbn. rewrite lookup_insert_eq. by eexists. }
    assert (tree_fits t1) as Hf1 by (unfold t1, tree_fits; by rewrite zk_consume_accounts).
    eapply wp_mono; [|by apply transfer_spec]. intros t' [l|e] [(d & [_ _ _ Hr] & _) _]; wp_go; [|done].
    destruct Hin as [x Hx]. exists x. by eapply lookup_weaken.
  - pose proof (zk_is_None _ Ezk) as Hzk. destruct (op_nonce op) as [n|] eqn:Eop.
    + eapply wp_mono; [|by apply apply_operation_spec]. intros t' [l|e] [_ Hu]; [|done].
      specialize (Hu Hzk). rewrite Eop in Hu. apply Hu.
    + destruct op; try done; unfold apply_operation; wp_go; try done.
      cbn. rewrite lookup_insert_eq. by eexists.
Qed.

(* ------------------------------------------------------------------ *)
(** * Amounts decoded from bytes *)

Lemma read_u64_nonneg p l x : Forall is_byte l -> read_u64 p l = Ok x -> 0 <= x.
Proof.
  intros Hl. unfold read_u64, read_le, slice. case_match; [|done]. intros [= <-].
  by apply le_num_range, Forall_take, Forall_drop.
Qed.

Lemma decode_amount l : Forall is_byte l -> post amount_ok (decode l).
Proof.
  intros Hl. unfold decode. destruct l as [|op l'] eqn:El; [done|]. rewrite <-El in *.
  destruct (op =? OP_TRANSFER).
  { unfold decode_transfer. solve_post. by eapply read_u64_nonneg. }
  repeat match goal with |- post _ (if ?c then _ else _) => destruct c end; try done.
  all: unfold decode_create_account, decode_set_auth_pubkey, decode_add_auth_key,
    decode_register_addresses, decode_hfi_pay_claim, decode_hfi_pay_create, decode_hfi_pay_fund,
    decode_hfi_pay_expire, decode_hfi_pay_refund, decode_hfi_pay_register_recipient,
    decode_approve_validator; solve_post; try done.
  all: unfold decode_legacy_add_auth_key; solve_post; done.
Qed.
(** The rest of an execution changes nothing. *)
Lemma execute_spec t tx policy :
  tree_fits t -> Forall is_byte (payload tx) ->
  wp (execute_transaction tx policy) t (fun t' r =>
    conserves t t' r /\
    match r with
    | Ok _ => exists op, engine_decode (payload tx) = Ok op /\ spent tx op t'
    | Err _ => True
    end).
Proof.
  intros Hf Hb. pose proof (decode_amount _ Hb) as Ham. unfold execute_transaction. wp_step. wp_step.
  destruct (engine_decode (payload tx)) as [op|e] eqn:Ed; [|split; [by apply conserves_refl|done]].
  assert (amount_ok op) as Hop.
  { unfold engine_decode in Ed. destruct (decode (payload tx)) as [op'|[]]; by simplify_eq. }
  wp_step. unfold zk_only_transfer. wp_step; [|split; [by apply conserves_refl|done]].
  wp_step. apply wp_mono with (Q := fun t' _ => t' = t); [|unfold authorize; case_match; wp_go; done].
  intros ? [[]|e] ->; [|split; [by apply conserves_refl|done]]. wp_step.
  unfold wp. pose proof (apply_operation_spec t tx op policy Hf Hop) as [Hc _].
  pose proof (operation_spends t tx op policy Hf Hop ltac:(done)) as Hs. unfold wp in *.
  destruct (apply_operation tx op policy t) as [t' [l|e]]; cbn in *; [|by split].
  split; [|by exists op]. by destruct Hc as (d & ? & ?); exists d.
Qed.

Lemma spent_never t tx op policy :
  engine_decode (payload tx) = Ok op -> spent tx op t ->
  exists e, snd (execute_transaction tx policy t) = Err e.
Proof.
  intros Hd Hs.
  assert (wp (execute_transaction tx policy) t (fun _ r => exists e, r = Err e)) as [e He];
    [|by exists e].
  unfold execute_transaction. wp_step. wp_step. rewrite Hd. wp_step. unfold zk_only_transfer.
  wp_step; [|by eexists]. wp_step.
  apply wp_mono with (Q := fun t' _ => t' = t); [|unfold authorize; case_match; wp_go; done].
  intros ? [[]|e] ->; [|by eexists]. wp_step.
  eapply wp_mono; [|by apply spent_refused]. intros ? ? [e ->]. by eexists.
Qed.

(** The trees after a sequence of transactions, failed ones included. *)
Definition run_native (policy : ExecutionPolicy) (t : StateTree) (txs : list Transaction)
    : StateTree :=
  foldl (fun t tx => fst (execute_transaction tx policy t)) t txs.

Lemma run_native_spent policy txs t tx op :
  tree_fits t -> Forall (fun tx => Forall is_byte (payload tx)) txs -> spent tx op t ->
  spent tx op (run_native policy t txs).
Proof.
  unfold run_native. revert t. induction txs as [|y txs IH]; intros t Hf Hb Hs; [done|].
  apply Forall_cons in Hb as [Hy Hb]. cbn [foldl].
  pose proof (execute_spec t y policy Hf Hy) as [(d & Hm & _) _].
  apply IH; [apply Hm|done|]. by eapply spent_grows.
Qed.

(** C5. A native transaction succeeds at most once.  When it has succeeded, the
    same transaction fails after any further sequence of native transactions,
    successful or not, whichever operation it carries: transfers, key changes,
    bindings and approvals by their nonce, transfers with a proof by their
    replay commitment, and the creation of an account by the account. *)
Theorem native_runs_once t tx policy t1 r txs policy2 policy3 :
  tree_fits t -> Forall (fun tx => Forall is_byte (payload tx)) (tx :: txs) ->
  execute_transaction tx policy t = (t1, Ok r) ->
  exists e, snd (execute_transaction tx policy3 (run_native policy2 t1 txs)) = Err e.
Proof.
  intros Hf [Hb Hbs]%Forall_cons He.
  destruct (wp_run _ _ _ _ _ (execute_spec t tx policy Hf Hb) He)
    as [(d & Hm & _) (op & Hd & Hs)].
  eapply spent_never; [exact Hd|]. apply run_native_spent; [apply Hm|done..].
Qed.

(** The creation of an account that is not there. *)
Lemma create_runs t tx policy id key :
  accounts t !! id = None -> zk_auth tx = None ->
  tx_sender tx = id -> decode (payload tx) = Ok (CreateAccount id key) ->
  verify_credential env_sha256 env_devnet (attestation tx) (payload tx) key = true ->
  execute_transaction tx policy t =
    (insert_account env_sha256 t (with_auth id 0 key), Ok (success_receipt tx [AccountCreated id])).
Proof.
  intros Hacc Hzk Hsend Hdec Hcred.
  unfold execute_transaction, engine_decode. rewrite Hdec. unfold zk_only_transfer, authorize.
  rewrite (zk_is_None _ Hzk), Hzk. unfold bind, lift, fail_if, get_account, gets, contains.
  cbn [andb]. cbv beta iota. unfold verification_key. rewrite Hsend, Z.eqb_refl.
  cbn [require ret]. unfold ret. rewrite Hcred. cbn [negb]. unfold apply_operation.
  rewrite Hsend, Z.eqb_refl. cbn [negb]. unfold bind, fail_if, contains, gets, modify, ret.
  by rewrite Hacc.
Qed.

(** Nothing ties an expired account to its owner.  For every expired
    account and every key that accepts the credential of the transaction, the
    creation of an account with this id and this key succeeds: the stub is
    dropped, the account starts again at nonce 0 under the new key, and no proof
    of the expired data resurrects it in the resulting state. *)
Theorem expired_account_taken_over t tx policy id key stub :
  stubs t !! id = Some stub -> accounts t !! id = None -> zk_auth tx = None ->
  tx_sender tx = id -> decode (payload tx) = Ok (CreateAccount id key) ->
  verify_credential env_sha256 env_devnet (attestation tx) (payload tx) key = true ->
  exists t' r, execute_transaction tx policy t = (t', Ok r) /\
    accounts t' !! id = Some (with_auth id 0 key) /\ stubs t' !! id = None /\
    forall proof slot, acc_id_com (proof_account proof) = id ->
      is_ok (resurrect_account env_sha256 t' proof slot) = false.
Proof.
  intros Hst Hacc Hzk Hsend Hdec Hcred.
  set (t' := insert_account env_sha256 t (with_auth id 0 key)).
  exists t', (success_receipt tx [AccountCreated id]). split_and!.
  - by apply create_runs.
  - cbn. by rewrite lookup_insert_eq.
  - cbn. by rewrite lookup_delete_eq.
  - intros proof slot Hp. unfold resurrect_account. cbn. by rewrite Hp, lookup_delete_eq.
Qed.
End moves.

(* ------------------------------------------------------------------ *)
(** * A concrete environment, for evaluation *)

Module SampleEnv.
#[export] Instance sample_env : CryptoEnv := {|
  env_backend := SampleSig.sample_backend;
  env_sha256 := SampleDigest.sample_sha256;
  env_keccak256 := SampleDigest.sample_sha256;
  env_ripemd160 l := take 20 (l ++ replicate 20 0);
  env_uncompress l := Some (4 :: l);
  env_verify_zk _ _ := true;
  env_devnet := true;
|}.
End SampleEnv.

Module SampleNative.
Import SampleEnv.
Definition key : TaggedPubkey := SampleSig.sample_key 7.
Definition policy : ExecutionPolicy := {| founder_id_com := None |}.
Definition signed (sender : AccountId) (p : list Z) : Transaction :=
  {| payload := p;
     attestation := {| obj_hash := digest env_sha256 p; idcom := sender;
       att_domain := {| chain_id := 1; domain_slot := 9 |}; context_tag := 0;
       credential := SampleSig.sample_sign 7 [] |};
     raw_chain := None; zk_auth := None |}.
Definition pay : Transaction := signed 7 ([1] ++ le_bytes 8 0 ++ be_bytes 32 8 ++ le_bytes 8 3).
Definition create : Transaction := signed 5 ([2] ++ be_bytes 32 5 ++ pk_bytes key).
Definition tree : StateTree := insert_account env_sha256 state_new (with_auth 7 10 key).
(** Account 5 without balance, expired. *)
Definition expired : StateTree :=
  fst (sweep_expired env_sha256
    (insert_account env_sha256 state_new (with_auth 5 0 (SampleSig.sample_key 5))) 40 30).
Lemma pay_bytes : Forall is_byte (payload pay).
Proof.
  cbn [payload pay signed]. apply Forall_app; split; [by repeat constructor|].
  apply Forall_app; split; [apply le_bytes_byte|].
  apply Forall_app; split; [apply be_bytes_byte|apply le_bytes_byte].
Qed.
Lemma sample_fits : tree_fits tree.
Proof.
  apply (tree_fits_insert state_new tree 7 (with_auth 7 10 key)); [done|by intros ? ? ?|].
  split_and!; cbn; [done|unfold is_u64, u64_max; lia..].
Qed.
End SampleNative.

Lemma native_runs_once_witness :
  let t1 := fst (execute_transaction (CE := SampleEnv.sample_env) SampleNative.pay
                   SampleNative.policy SampleNative.tree) in
  acc_balance <$> accounts t1 !! 8 = Some 3 /\
  exists e, snd (execute_transaction (CE := SampleEnv.sample_env) SampleNative.pay
    SampleNative.policy (run_native (CE := SampleEnv.sample_env) SampleNative.policy t1
      [SampleNative.pay])) = Err e.
Proof.
  intros t1. split; [vm_compute; reflexivity|].
  destruct (execute_transaction (CE := SampleEnv.sample_env) SampleNative.pay
    SampleNative.policy SampleNative.tree) as [t' [r|e]] eqn:He; [|by vm_compute in He].
  apply (@native_runs_once SampleEnv.sample_env SampleNative.tree SampleNative.pay
    SampleNative.policy t1 r [SampleNative.pay] SampleNative.policy SampleNative.policy
    SampleNative.sample_fits); [|exact He].
  constructor; [exact SampleNative.pay_bytes|by constructor; [exact SampleNative.pay_bytes|]].
Defined.

Lemma expired_account_taken_over_witness :
  exists t' r, execute_transaction (CE := SampleEnv.sample_env) SampleNative.create
      SampleNative.policy SampleNative.expired = (t', Ok r) /\
    accounts t' !! 5 = Some (with_auth 5 0 SampleNative.key).
Proof.
  destruct (@expired_account_taken_over SampleEnv.sample_env SampleNative.expired
    SampleNative.create SampleNative.policy 5 SampleNative.key
    (default {| stub_id_com := 0; stub_hash := 0; stub_expired_at_slot := 0 |}
      (stubs SampleNative.expired !! 5))) as (t' & r & He & Ha & _);
    [vm_compute; reflexivity..|].
  exists t', r. by split.
Defined.
