(* ===== verification/Settlement.v ===== *)
(** The settlement of a committed block (ace-node/src/governance.rs,
    [apply_completed_block]): the block counts towards its epoch, and the block that
    ends an epoch pays the minted pool and the fees of the epoch to the accounts
    of the validators and collects the fees of the affiliates.

    The state is the sharded state.  The calls return [Err] where the code leaves
    the function by [?]; what was changed before stays changed, so the settlement
    returns a state and a tracker next to its result.  Two things come from the
    node and affiliate registries, which are not translated, and are arguments:
    the reward profiles of the epoch (line 234) and the fees the affiliates owe, in
    the order in which the loop of [settle_affiliate_fees] meets them.  The
    affiliate counts and the admission of nodes, after the payments, change no
    balance and are left out.

    The theorem follows the chain from genesis: the cap on the minted total, the
    sum of all balances, and that the payments cannot fail. *)

From S2P Require Import Prelude Account StateTree Sharded Rewards Engine.
Local Open Scope Z_scope.
Local Open Scope ace_scope.

Inductive BalanceError :=
| AccountNotFound (id : AccountId)
| InsufficientBalance (id : AccountId) (have need : Z)
| BalanceOverflow (id : AccountId).

Definition credit_balance (s : ShardedState) (id : AccountId) (amount : Z) : result BalanceError ShardedState :=
  if amount =? 0 then Ok s
  else
    match sharded_get s id with
    | None => Err (AccountNotFound id)
    | Some a =>
        match u64_checked_add (acc_balance a) amount with
        | None => Err (BalanceOverflow id)
        | Some b => Ok (sharded_get_mut s id (fun a => set_balance a b))
        end
    end.

Definition debit_balance (s : ShardedState) (id : AccountId) (amount : Z) : result BalanceError ShardedState :=
  if amount =? 0 then Ok s
  else
    match sharded_get s id with
    | None => Err (AccountNotFound id)
    | Some a =>
        if acc_balance a <? amount then Err (InsufficientBalance id (acc_balance a) amount)
        else Ok (sharded_get_mut s id (fun a => set_balance a (acc_balance a - amount)))
    end.

(** An affiliate's fee: who is paid, who pays, and how much is due. *)
Record AffiliateDue := { due_operator : AccountId; due_affiliate : AccountId; due_amount : Z }.

Section settlement.
Context (sha256 : list Z -> list Z).

Definition ensure_validator_account (s : ShardedState) (id : AccountId) : ShardedState :=
  match sharded_get s id with
  | None => sharded_insert sha256 s (account_new id)
  | Some _ => s
  end.

(** The loop over the rewards. *)
Fixpoint credit_rewards (s : ShardedState) (rewards : list (AccountId * Z)) : ShardedState * result BalanceError unit :=
  match rewards with
  | [] => (s, Ok tt)
  | (validator, amount) :: rewards =>
      let s := ensure_validator_account s validator in
      match credit_balance s validator amount with
      | Err e => (s, Err e)
      | Ok s => credit_rewards s rewards
      end
  end.

(** The loop of [settle_affiliate_fees]; the payouts are (affiliate, operator,
    amount). *)
Fixpoint settle_affiliate_fees (s : ShardedState) (dues : list AffiliateDue)
    (payouts : list (AccountId * AccountId * Z))
    : ShardedState * result BalanceError (list (AccountId * AccountId * Z)) :=
  match dues with
  | [] => (s, Ok payouts)
  | {| due_operator := operator; due_affiliate := affiliate; due_amount := fee_due |} :: dues =>
      if fee_due =? 0 then settle_affiliate_fees s dues payouts
      else
        match sharded_get s operator, sharded_get s affiliate with
        | Some _, Some a =>
            let collected := Z.min fee_due (acc_balance a) in
            if 0 <? collected then
              match debit_balance s affiliate collected with
              | Err e => (s, Err e)
              | Ok s =>
                  match credit_balance s operator collected with
                  | Err e => (s, Err e)
                  | Ok s => settle_affiliate_fees s dues (payouts ++ [(affiliate, operator, collected)])
                  end
              end
            else settle_affiliate_fees s dues payouts
        | _, _ => settle_affiliate_fees s dues payouts
        end
  end.

Record EpochSettlement := {
  completed_epoch : option Z;
  rewards : list (AccountId * Z);
  affiliate_payouts : list (AccountId * AccountId * Z);
}.

(** The rewards of a completed epoch. *)
Definition settle_rewards (s : ShardedState) (t : EpochTracker) (completed : Z) (profiles : list RewardProfile)
    : ShardedState * EpochTracker * result BalanceError (list (AccountId * Z)) :=
  if bool_decide (length profiles = 0%nat) then (s, t, Ok [])
  else
    let '(t, fees) := take_fees t in
    let block_reward := epoch_reward_pool completed (total_minted t) (Z.of_nat (length profiles)) in
    let rewards := distribute completed (total_minted t) fees profiles in
    match credit_rewards s rewards with
    | (s, Err e) => (s, t, Err e)
    | (s, Ok _) => (s, record_mint t block_reward, Ok rewards)
    end.

Definition settle_block (s : ShardedState) (t : EpochTracker) (charged_tx_count : Z)
    (profiles : list RewardProfile) (dues : list AffiliateDue)
    : ShardedState * EpochTracker * result BalanceError EpochSettlement :=
  match on_block t charged_tx_count with
  | (t, None) => (s, t, Ok {| completed_epoch := None; rewards := []; affiliate_payouts := [] |})
  | (t, Some completed) =>
      match settle_rewards s t completed profiles with
      | (s, t, Err e) => (s, t, Err e)
      | (s, t, Ok rewards) =>
          match settle_affiliate_fees s dues [] with
          | (s, Err e) => (s, t, Err e)
          | (s, Ok payouts) =>
              (s, t, Ok {| completed_epoch := Some completed; rewards := rewards; affiliate_payouts := payouts |})
          end
      end
  end.
End settlement.

(* ------------------------------------------------------------------ *)
(** * All the balances *)

Definition sharded_total (s : ShardedState) : Z :=
  map_fold (fun _ t acc => total_balance t + acc) 0 (shards s).

(** The balance an account has where [get] finds it. *)
Definition sharded_balance (s : ShardedState) (id : AccountId) : Z :=
  default 0 (acc_balance <$> sharded_get s id).

(** A state in order whose balances add up to [total]. *)
Record funds (s : ShardedState) (total : Z) : Prop := {
  fu_home : one_home s;
  fu_nonneg i id a : shard_get s i id = Some a -> 0 <= acc_balance a;
  fu_total : sharded_total s = total;
}.

Lemma sharded_total_put (m : gmap Z StateTree) x i t :
  sharded_total {| shards := <[i := t]> m; shard_index := x |} =
    total_balance t + map_fold (fun _ t acc => total_balance t + acc) 0 (delete i m).
Proof.
  unfold sharded_total. cbn.
  rewrite (map_fold_delete_L (fun _ t acc => total_balance t + acc) 0 i t (<[i := t]> m));
    [by rewrite delete_insert_eq|intros; lia|apply lookup_insert_eq].
Qed.

Lemma sharded_total_take s i t :
  shards s !! i = Some t ->
  sharded_total s = total_balance t + map_fold (fun _ t acc => total_balance t + acc) 0 (delete i (shards s)).
Proof. intros Hi. apply (map_fold_delete_L (fun _ t acc => total_balance t + acc) 0 i t); [intros; lia|done]. Qed.

Lemma map_fold_sum_ge {K A} `{Countable K} (f : A -> Z) (m : gmap K A) :
  (forall k x, m !! k = Some x -> 0 <= f x) -> 0 <= map_fold (fun _ x acc => f x + acc) 0 m.
Proof.
  induction m as [|k x m Hk Hf IH] using map_first_key_ind; intros Hn; [rewrite map_fold_empty; lia|].
  rewrite map_fold_insert_first_key by done.
  assert (0 <= f x) by (apply (Hn k); apply lookup_insert_eq).
  assert (forall k' y, m !! k' = Some y -> 0 <= f y) as Hm.
  { intros k' y Hy. apply (Hn k'). rewrite lookup_insert_ne; [done|]. intros <-. by rewrite Hk in Hy. }
  specialize (IH Hm). lia.
Qed.

Lemma shard_total_ge s total i t : funds s total -> shards s !! i = Some t -> 0 <= total_balance t.
Proof.
  intros [_ Hn _] Hi. apply (map_fold_sum_ge acc_balance). intros id a Ha. apply (Hn i id).
  unfold shard_get. by rewrite Hi.
Qed.

Lemma funds_balance s total id a :
  funds s total -> sharded_get s id = Some a -> 0 <= acc_balance a <= total.
Proof.
  intros H Hg. pose proof (fu_home _ _ H) as Hh. apply one_home_get in Hg as [i Hi]; [|done].
  split; [by apply (fu_nonneg _ _ H i id)|]. pose proof Hi as Hi'. apply shard_get_some in Hi as (t & Ht & Ha).
  rewrite <-(fu_total _ _ H), (sharded_total_take s i t Ht). unfold total_balance at 1.
  rewrite (total_balance_delete (accounts t) id a Ha).
  assert (0 <= map_fold (fun _ a acc => acc_balance a + acc) 0 (delete id (accounts t))).
  { apply (map_fold_sum_ge acc_balance). intros k b [_ Hb]%lookup_delete_Some. apply (fu_nonneg _ _ H i k).
    unfold shard_get. by rewrite Ht. }
  assert (0 <= map_fold (fun _ t acc => total_balance t + acc) 0 (delete i (shards s))).
  { apply (map_fold_sum_ge total_balance). intros k u [_ Hu]%lookup_delete_Some. by apply (shard_total_ge s total k). }
  lia.
Qed.

Lemma funds_nonneg s total : funds s total -> 0 <= total.
Proof.
  intros H. rewrite <-(fu_total _ _ H). apply (map_fold_sum_ge total_balance). intros i t Hi.
  by apply (shard_total_ge s total i).
Qed.

(** [get_mut] changes the account that [get] returns. *)
Lemma sharded_get_mut_at s id f a :
  one_home s -> sharded_get s id = Some a ->
  exists i t, shards s !! i = Some t /\ accounts t !! id = Some a /\
    sharded_get_mut s id f = {| shards := <[i := get_mut_update t id f]> (shards s); shard_index := shard_index s |}.
Proof.
  intros Hh Hg. unfold sharded_get in Hg. unfold sharded_get_mut.
  destruct (shard_get s (target_shard s id) id) as [b|] eqn:E.
  - injection Hg as ->. rewrite bool_decide_true by by eexists. pose proof E as (t & Ht & Ha)%shard_get_some.
    exists (target_shard s id), t. split_and!; [done|done|]. by rewrite (alter_put s _ _ t Ht).
  - rewrite bool_decide_false by (by intros []). destruct (_ =? 0); [done|]. cbn [negb andb] in *.
    rewrite Hg, bool_decide_true by by eexists. pose proof Hg as (t & Ht & Ha)%shard_get_some.
    exists 0, t. split_and!; [done|done|]. by rewrite (alter_put s _ _ t Ht).
Qed.

Lemma funds_update s total id a b f :
  funds s total -> sharded_get s id = Some a -> acc_balance (f a) = b -> 0 <= b ->
  funds (sharded_get_mut s id f) (total + b - acc_balance a) /\
  (forall id', sharded_get (sharded_get_mut s id f) id' =
     if decide (id' = id) then Some (f a) else sharded_get s id').
Proof.
  intros H Hg Hb Hb0. pose proof (fu_home _ _ H) as Hh.
  destruct (sharded_get_mut_at s id f a Hh Hg) as (i & t & Ht & Ha & ->).
  set (t' := get_mut_update t id f). assert (accounts t' = <[id := f a]> (accounts t)) as Et by by apply get_mut_accounts.
  set (s' := {| shards := _; shard_index := _ |}).
  assert (forall j id', shard_get s' j id' =
    if decide (i = j /\ id' = id) then Some (f a) else shard_get s j id') as Eg.
  { intros j id'. unfold s'. rewrite shard_get_put. destruct (decide (i = j)) as [<-|Hj].
    - rewrite Et. unfold shard_get. rewrite Ht. cbn. destruct (decide (id' = id)) as [->|Hne];
        [by rewrite lookup_insert_eq, decide_True|by rewrite lookup_insert_ne, decide_False by naive_solver].
    - rewrite decide_False by naive_solver. done. }
  split; [split|].
  - apply (one_home_shard s i t); [done|done| |by left]. intros id'. apply get_mut_update_dom.
  - intros j id' c. rewrite Eg. case_decide; [intros [= <-]; by rewrite Hb|apply (fu_nonneg _ _ H)].
  - unfold s'. rewrite sharded_total_put, <-(fu_total _ _ H), (sharded_total_take s i t Ht).
    rewrite (total_balance_insert t t' id (f a) Et), Ha. cbn. lia.
  - intros id'. unfold sharded_get. change (target_shard s' id') with (target_shard s id'). rewrite !Eg.
    destruct (decide (id' = id)) as [->|Hne]; [|by rewrite !decide_False by naive_solver].
    destruct (decide (i = target_shard s id)) as [Ei|Ei]; [by rewrite decide_True|rewrite decide_False by naive_solver].
    assert (shard_get s i id = Some a) as Es by (unfold shard_get; by rewrite Ht).
    rewrite (one_home_elsewhere s i (target_shard s id) id) by (done || (by rewrite Es) || congruence).
    destruct (oh_place s Hh i id) as [|[-> _]]; [by rewrite Es|done|].
    destruct (Z.eqb_spec (target_shard s id) 0); [congruence|]. by rewrite decide_True.
Qed.

Section payments.
Context (sha256 : list Z -> list Z).

(** An account that is nowhere yet. *)
Lemma sharded_insert_new s a :
  one_home s -> sharded_get s (acc_id_com a) = None ->
  let i := target_shard s (acc_id_com a) in
  sharded_insert sha256 s a =
    {| shards := <[i := insert_account sha256 (default state_new (shards s !! i)) a]> (shards s);
       shard_index := <[acc_id_com a := i]> (shard_index s) |}.
Proof.
  intros H Hn i. rewrite sharded_insert_cleared. enough (cleared sha256 s (acc_id_com a) = s) as -> by done.
  unfold cleared. destruct (_ && _); [|done]. unfold get_shard_mut.
  rewrite alter_id; [by destruct s|]. intros t Ht. unfold shard_remove, remove_account.
  pose proof (one_home_absent s 0 (acc_id_com a) H Hn) as E. unfold shard_get in E. rewrite Ht in E. cbn in E. by rewrite E.
Qed.

Lemma funds_ensure s total id :
  funds s total ->
  let s' := ensure_validator_account sha256 s id in
  funds s' total /\ (forall id', sharded_balance s' id' = sharded_balance s id') /\ is_Some (sharded_get s' id).
Proof.
  intros H s'. unfold s', ensure_validator_account. destruct (sharded_get s id) as [a|] eqn:Hg; [by rewrite Hg; eauto|].
  pose proof (fu_home _ _ H) as Hh. set (a := account_new id).
  pose proof (fun i id' => sharded_insert_get sha256 s a i id' Hh) as Eg. change (acc_id_com a) with id in Eg.
  pose proof (sharded_insert_home sha256 s a Hh) as Hh'.
  assert (forall id', sharded_get (sharded_insert sha256 s a) id' = if decide (id' = id) then Some a else sharded_get s id') as Ega.
  { intros id'. apply option_eq. intros c. rewrite one_home_get by done. setoid_rewrite Eg. destruct (decide (id' = id)) as [->|].
    - split; [intros [i Hi]; by case_decide|]. intros Hc. exists (target_shard s id). by rewrite decide_True.
    - by rewrite one_home_get. }
  split_and!; [split; [done| |]| |].
  - intros i id' c. rewrite Eg. case_decide; [|apply (fu_nonneg _ _ H)]. case_decide; [|done]. intros [= <-]. cbn. lia.
  - rewrite (sharded_insert_new s a Hh Hg), sharded_total_put. change (acc_id_com a) with id.
    set (i := target_shard s id). rewrite <-(fu_total _ _ H).
    rewrite (total_balance_insert (default state_new (shards s !! i)) _ id a) by done.
    assert (accounts (default state_new (shards s !! i)) !! id = None) as ->.
    { pose proof (one_home_absent s i id Hh Hg) as E. unfold shard_get in E. destruct (shards s !! i); [exact E|done]. }
    destruct (shards s !! i) as [t|] eqn:Et; cbn [default]; change (acc_balance a) with 0.
    + rewrite (sharded_total_take s i t Et). cbn. lia.
    + rewrite delete_id by done. unfold sharded_total. cbn. change (total_balance state_new) with 0. lia.
  - intros id'. unfold sharded_balance. rewrite Ega. case_decide; [subst; by rewrite Hg|done].
  - rewrite Ega, decide_True by done. by eexists.
Qed.

(** A credit that fits succeeds and pays the account, and nobody else. *)
Lemma credit_balance_ok s total id amount :
  funds s total -> is_Some (sharded_get s id) -> 0 <= amount -> total + amount <= u64_max ->
  exists s', credit_balance s id amount = Ok s' /\ funds s' (total + amount) /\
    (forall id', sharded_balance s' id' = sharded_balance s id' + (if decide (id' = id) then amount else 0)) /\
    (forall id', is_Some (sharded_get s id') -> is_Some (sharded_get s' id')).
Proof.
  intros H [a Ha] Hn Hm. unfold credit_balance. destruct (Z.eqb_spec amount 0) as [->|].
  { exists s. rewrite Z.add_0_r. split_and!; [done|done| |done]. intros id'. case_decide; lia. }
  rewrite Ha. pose proof (funds_balance s total id a H Ha) as Hb.
  rewrite (proj2 (u64_checked_add_Some (acc_balance a) amount (acc_balance a + amount))) by lia.
  destruct (funds_update s total id a (acc_balance a + amount) (fun a' => set_balance a' (acc_balance a + amount)) H Ha
    eq_refl ltac:(lia)) as [Hf Hg].
  eexists. split_and!; [done| | |].
  - by replace (total + amount) with (total + (acc_balance a + amount) - acc_balance a) by lia.
  - intros id'. unfold sharded_balance. rewrite Hg. case_decide; [subst; rewrite Ha; cbn; lia|lia].
  - intros id' Hs. rewrite Hg. case_decide; [by eexists|done].
Qed.

Lemma debit_balance_ok s total id a amount :
  funds s total -> sharded_get s id = Some a -> 0 < amount <= acc_balance a ->
  exists s', debit_balance s id amount = Ok s' /\ funds s' (total - amount) /\
    (forall id', is_Some (sharded_get s id') -> is_Some (sharded_get s' id')).
Proof.
  intros H Ha Hn. unfold debit_balance. destruct (Z.eqb_spec amount 0); [lia|]. rewrite Ha.
  destruct (Z.ltb_spec (acc_balance a) amount); [lia|].
  destruct (funds_update s total id a (acc_balance a - amount) (fun a' => set_balance a' (acc_balance a' - amount)) H Ha
    eq_refl ltac:(lia)) as [Hf Hg].
  eexists. split_and!; [done| |].
  - by replace (total - amount) with (total + (acc_balance a - amount) - acc_balance a) by lia.
  - intros id' Hs. rewrite Hg. case_decide; [by eexists|done].
Qed.

(** What a list of rewards pays to an account. *)
Definition paid_to (id : AccountId) (rewards : list (AccountId * Z)) : Z :=
  Zsum (map (fun r => if decide (id = fst r) then snd r else 0) rewards).

Lemma credit_rewards_ok l s total :
  funds s total -> Forall (fun r => 0 <= snd r) l -> total + Zsum (map snd l) <= u64_max ->
  exists s', credit_rewards sha256 s l = (s', Ok tt) /\ funds s' (total + Zsum (map snd l)) /\
    (forall id, sharded_balance s' id = sharded_balance s id + paid_to id l).
Proof.
  revert s total. induction l as [|[v amount] l IH]; intros s total H Hn Hm; cbn [credit_rewards map snd].
  { exists s. rewrite Zsum_nil, Z.add_0_r. split_and!; [done|done|]. intros id. change (paid_to id []) with (Zsum []). rewrite Zsum_nil. lia. }
  inversion Hn as [|? ? Hv Hn']; subst. cbn [snd map] in *. rewrite Zsum_cons in *.
  assert (0 <= Zsum (map snd l)) by (by apply Zsum_nonneg, Forall_fmap).
  destruct (funds_ensure s total v H) as (H1 & Hb1 & Hg1).
  destruct (credit_balance_ok _ total v amount H1 Hg1 Hv ltac:(lia)) as (s2 & -> & H2 & Hb2 & _).
  destruct (IH s2 (total + amount) H2 Hn' ltac:(lia)) as (s3 & E3 & H3 & Hb3).
  exists s3. split_and!; [done|by rewrite Z.add_assoc|]. intros id. rewrite Hb3, Hb2, Hb1. unfold paid_to. cbn [map fst snd].
  rewrite Zsum_cons. lia.
Qed.

(** Affiliate fees move between accounts. *)
Lemma settle_affiliate_fees_ok dues s total payouts :
  funds s total -> total <= u64_max -> Forall (fun d => 0 <= due_amount d) dues ->
  exists s' payouts', settle_affiliate_fees s dues payouts = (s', Ok payouts') /\ funds s' total.
Proof.
  intros H Hm Hd. revert s payouts H. induction Hd as [|[op af due] dues Hdue Hd IH]; intros s payouts H; [by eauto|].
  cbn [settle_affiliate_fees due_amount] in *. destruct (due =? 0); [by apply IH|].
  destruct (sharded_get s op) as [o|] eqn:Eo; [|by apply IH]. destruct (sharded_get s af) as [a|] eqn:Ea; [|by apply IH].
  destruct (Z.ltb_spec 0 (Z.min due (acc_balance a))) as [Hc|]; [|by apply IH].
  destruct (debit_balance_ok s total af a (Z.min due (acc_balance a)) H Ea ltac:(lia)) as (s1 & -> & H1 & Hg).
  destruct (credit_balance_ok s1 _ op (Z.min due (acc_balance a)) H1) as (s2 & -> & H2 & _);
    [apply Hg; by eexists|lia|lia|].
  apply IH. by replace total with (total - Z.min due (acc_balance a) + Z.min due (acc_balance a)) by lia.
Qed.
End payments.

(* ------------------------------------------------------------------ *)
(** * The books of the chain *)

Lemma distribute_nonneg epoch minted fees profiles : Forall (fun r => 0 <= snd r) (distribute epoch minted fees profiles).
Proof.
  unfold distribute. destruct (bool_decide _); [constructor|]. cbv zeta. destruct (_ =? 0); [constructor|].
  apply Forall_forall. intros [u a] [_ Ha]%list_elem_of_In%filter_In. bool_prop. cbn. lia.
Qed.

Lemma affiliate_payouts_grow dues s payouts s' payouts' :
  settle_affiliate_fees s dues payouts = (s', Ok payouts') ->
  (length payouts <= length payouts')%nat /\ (length payouts' = length payouts -> s' = s).
Proof.
  revert s payouts. induction dues as [|[op af due] dues IH]; intros s payouts; cbn [settle_affiliate_fees].
  { by intros [= <- <-]. }
  destruct (due =? 0); [apply IH|]. destruct (sharded_get s op); [|apply IH].
  destruct (sharded_get s af); [|apply IH]. destruct (0 <? _); [|apply IH].
  destruct (debit_balance _ _ _) as [s1|]; [|done]. destruct (credit_balance _ _ _) as [s2|]; [|done].
  intros [Hl _]%IH. rewrite length_app in Hl. cbn in Hl. lia.
Qed.

(** The tracker's side of the books: what is minted and what is held. *)
Record tracker_ok (t : EpochTracker) : Prop := {
  to_epoch : 0 <= current_epoch t;
  to_minted : 0 <= total_minted t <= MAX_SUPPLY;
  to_fees : 0 <= accumulated_fees t;
}.

(** The inputs of a settlement: counts and amounts are unsigned, [u16] weights. *)
Definition inputs_ok (n : Z) (profiles : list RewardProfile) (dues : list AffiliateDue) : Prop :=
  0 <= n /\ profiles_ok profiles /\ Forall (fun d => 0 <= due_amount d) dues.

Section chain.
Context (sha256 : list Z -> list Z).

(** A settlement whose sums fit: it succeeds, the balances grow by the fees it
    releases and what it mints, and each validator has its rewards. *)
Lemma settle_block_ok s total t n profiles dues :
  funds s total -> tracker_ok t -> inputs_ok n profiles dues ->
  total + accumulated_fees t + TX_FEE * n + (MAX_SUPPLY - total_minted t) <= u64_max ->
  exists s' t' r, settle_block sha256 s t n profiles dues = (s', t', Ok r) /\
    let paid := Zsum (map snd (rewards r)) in
    funds s' (total + paid) /\ tracker_ok t' /\
    paid + accumulated_fees t' = accumulated_fees t + TX_FEE * n + (total_minted t' - total_minted t) /\
    (affiliate_payouts r = [] -> forall id, sharded_balance s' id = sharded_balance s id + paid_to id (rewards r)).
Proof.
  intros H [He Hm Hf] (Hn & Hpr & Hd) Hfit. pose proof (funds_nonneg _ _ H) as H0.
  unfold settle_block, on_block. rewrite (u64_saturating_mul_small n TX_FEE) by lia.
  rewrite (u64_saturating_add_small (accumulated_fees t)) by lia.
  assert (0 <= TX_FEE * n) by (unfold TX_FEE; lia).
  assert (forall s' : ShardedState, s' = s -> forall id, sharded_balance s' id = sharded_balance s id + paid_to id []) as Hsame.
  { intros s' -> id. change (paid_to id []) with (Zsum []). rewrite Zsum_nil. lia. }
  destruct (_ <=? _).
  2: { eexists s, _, _. split; [reflexivity|]. cbn. rewrite Zsum_nil, Z.add_0_r. split_and!; [done|split; cbn; lia|lia|].
       intros _. by apply Hsame. }
  pose proof (u64_add_range (current_epoch t) 1) as Hr. unfold is_u64 in Hr. set (e := current_epoch t) in *.
  unfold settle_rewards. case_bool_decide as Elen.
  { destruct (settle_affiliate_fees_ok dues s total [] H ltac:(lia) Hd) as (s' & p & Ea & Hs'). rewrite Ea.
    eexists s', _, _. split; [reflexivity|]. cbn. rewrite Zsum_nil, Z.add_0_r. split_and!; [done|split; cbn; lia|lia|].
    intros ->. apply Hsame. by apply (affiliate_payouts_grow dues s [] s' []). }
  assert (profiles <> []) by (by destruct profiles). cbn [take_fees total_minted accumulated_fees].
  pose proof (epoch_reward_pool_bounds e (total_minted t) (Z.of_nat (length profiles)) He ltac:(lia) Hm) as Hpool.
  set (fees := accumulated_fees t + n * TX_FEE). set (l := distribute _ _ fees _).
  assert (Zsum (map snd l) = epoch_reward_pool e (total_minted t) (Z.of_nat (length profiles)) + fees) as Hl
    by (apply distribute_sum; (done || (unfold fees; lia))).
  destruct (credit_rewards_ok sha256 l s total H (distribute_nonneg _ _ _ _) ltac:(rewrite Hl; unfold fees; lia))
    as (s1 & -> & Hs1 & Hb1).
  destruct (settle_affiliate_fees_ok dues s1 (total + Zsum (map snd l)) [] Hs1 ltac:(rewrite Hl; unfold fees; lia) Hd) as (s' & p & Ea & Hs'). rewrite Ea.
  assert (MAX_SUPPLY <= u64_max) by by vm_compute.
  eexists s', _, _. split; [reflexivity|].
  cbn [rewards affiliate_payouts record_mint accumulated_fees total_minted]. fold e.
  rewrite (u64_saturating_add_small (total_minted t)) by lia.
  split_and!; [done|split; cbn [record_mint current_epoch accumulated_fees total_minted];
    rewrite ?u64_saturating_add_small by lia; lia|unfold fees in *; lia|].
  intros ->. by rewrite (proj2 (affiliate_payouts_grow dues s1 [] s' [] Ea) eq_refl).
Qed.

(** Execution of a block that charges [n] transactions leaves the state [s1], with
    [d] units more than the fees account for. *)
Definition executed (s : ShardedState) (n d : Z) (s1 : ShardedState) : Prop :=
  funds s1 (sharded_total s - TX_FEE * n + d).

(** The states and trackers of a chain whose genesis balances add up to
    [genesis]; [created] is what executions created.  A block whose settlement
    fails is rolled back with the governance state, and is no step. *)
Inductive chain (genesis : Z) : ShardedState -> EpochTracker -> Z -> Prop :=
| chain_genesis s : funds s genesis -> chain genesis s tracker_new 0
| chain_block s t created n d s1 profiles dues s' t' r :
    chain genesis s t created -> executed s n d s1 -> inputs_ok n profiles dues ->
    genesis + (created + d) + MAX_SUPPLY <= u64_max ->
    settle_block sha256 s1 t n profiles dues = (s', t', Ok r) -> chain genesis s' t' (created + d).

Lemma chain_step genesis s t created n d s1 profiles dues :
  tracker_ok t -> sharded_total s + accumulated_fees t = genesis + total_minted t + created ->
  executed s n d s1 -> inputs_ok n profiles dues -> genesis + (created + d) + MAX_SUPPLY <= u64_max ->
  exists s' t' r, settle_block sha256 s1 t n profiles dues = (s', t', Ok r) /\
    tracker_ok t' /\ sharded_total s' + accumulated_fees t' = genesis + total_minted t' + (created + d) /\
    (affiliate_payouts r = [] -> forall id, sharded_balance s' id = sharded_balance s1 id + paid_to id (rewards r)).
Proof.
  intros Ht Hb Hx Hi Hfit. destruct (settle_block_ok s1 _ t n profiles dues Hx Ht Hi ltac:(lia))
    as (s' & t' & r & E & Hf & Ht' & Hp & Hv).
  exists s', t', r. split_and!; [done|done| |done]. rewrite (fu_total _ _ Hf). lia.
Qed.

Lemma chain_books genesis s t created :
  chain genesis s t created ->
  tracker_ok t /\ sharded_total s + accumulated_fees t = genesis + total_minted t + created.
Proof.
  induction 1 as [s Hs|s t created n d s1 profiles dues s' t' r _ [Ht Hb] Hx Hi Hfit E].
  - split; [by split|]. rewrite (fu_total _ _ Hs). cbn. lia.
  - destruct (chain_step genesis s t created n d s1 profiles dues Ht Hb Hx Hi Hfit) as (s2 & t2 & r2 & E2 & Ht2 & Hb2 & _).
    rewrite E in E2. by simplify_eq.
Qed.
End chain.

(** C8. The supply of the chain.  From genesis, after any sequence of executed and
    settled blocks with any validators and affiliates at the epoch ends: the minted
    total is at most the maximum supply; the balances of all accounts and the fees
    still held add up to the genesis balances, what was minted, and what execution
    created (nothing, where it takes [TX_FEE] out of the balances for each
    transaction it charges); and the settlement of the next block succeeds, and,
    where no affiliate pays, each account's balance grows by exactly its rewards.
    The genesis state and the states execution leaves keep each account in one
    shard, and the sum of the genesis balances, the maximum supply and what
    execution creates fits in 64 bits. *)
Theorem supply_capped sha256 genesis s t created :
  chain sha256 genesis s t created ->
  total_minted t <= MAX_SUPPLY /\
  sharded_total s + accumulated_fees t = genesis + total_minted t + created /\
  (forall n d s1 profiles dues,
     executed s n d s1 -> inputs_ok n profiles dues -> genesis + (created + d) + MAX_SUPPLY <= u64_max ->
     exists s' t' r, settle_block sha256 s1 t n profiles dues = (s', t', Ok r) /\
       (affiliate_payouts r = [] -> forall id, sharded_balance s' id = sharded_balance s1 id + paid_to id (rewards r))).
Proof.
  intros [Ht Hb]%chain_books. split_and!; [apply Ht|done|]. intros n d s1 profiles dues Hx Hi Hfit.
  destruct (chain_step sha256 genesis s t created n d s1 profiles dues Ht Hb Hx Hi Hfit) as (s' & t' & r & E & _ & _ & Hv). eauto.
Qed.

(* ------------------------------------------------------------------ *)
(** * A chain at its first epoch end *)

Module SampleSettle.
Definition sha := SampleTree.sha.
Definition genesis : ShardedState := from_state_tree (insert_account sha state_new (with_balance 2 100)).

(** The tracker after [k] blocks without transactions. *)
Definition tracker (k : Z) : EpochTracker :=
  {| current_epoch := 0; accumulated_fees := 0; total_minted := 0; blocks_in_epoch := k;
     epoch_tx_count := 0; last_epoch_tx_count := 0 |}.

Lemma genesis_funds : funds genesis 100.
Proof.
  split; [apply from_state_tree_home| |vm_compute; reflexivity].
  intros i id a (t & Ht & Ha)%shard_get_some. cbn [genesis from_state_tree shards] in Ht.
  apply lookup_singleton_Some in Ht as [_ <-].
  cbn [accounts insert_account] in Ha. apply lookup_insert_Some in Ha as [[_ <-]|[_ Ha]]; [vm_compute; discriminate|]. cbn in Ha. by rewrite lookup_empty in Ha.
Qed.

Lemma settle_inputs : inputs_ok 0 [] [].
Proof. split_and!; [lia|split; [constructor|by vm_compute]|constructor]. Qed.

Lemma genesis_executed : executed genesis 0 0 genesis.
Proof. exact genesis_funds. Qed.

Lemma empty_blocks k : Z.of_nat k < BLOCKS_PER_EPOCH -> chain sha 100 genesis (tracker (Z.of_nat k)) 0.
Proof.
  induction k as [|k IH]; intros Hk; [apply (chain_genesis sha 100 genesis genesis_funds)|].
  apply (chain_block sha 100 genesis (tracker (Z.of_nat k)) 0 0 0 genesis [] [] genesis _
    {| completed_epoch := None; rewards := []; affiliate_payouts := [] |});
    [apply IH; lia|exact genesis_executed|exact settle_inputs|vm_compute; discriminate|].
  unfold settle_block, on_block. cbn [tracker blocks_in_epoch accumulated_fees epoch_tx_count].
  unfold BLOCKS_PER_EPOCH in *. rewrite u64_add_small by ilia. destruct (Z.leb_spec 216000 (Z.of_nat k + 1)); [lia|].
  cbn. unfold tracker. do 3 f_equal. lia.
Qed.
End SampleSettle.

(** The 216000th block pays three validators, two of which have no account yet. *)
Lemma supply_capped_witness :
  exists s' t' r,
    settle_block SampleSettle.sha SampleSettle.genesis (SampleSettle.tracker 215999) 0 sample_profiles [] = (s', t', Ok r) /\
    sharded_balance s' 2 = 100 + paid_to 2 (rewards r).
Proof.
  destruct (supply_capped SampleSettle.sha 100 SampleSettle.genesis (SampleSettle.tracker (Z.of_nat (Z.to_nat 215999))) 0)
    as (_ & _ & H).
  { apply SampleSettle.empty_blocks. rewrite Z2Nat.id; [reflexivity|discriminate]. }
  rewrite Z2Nat.id in H by discriminate.
  destruct (H 0 0 SampleSettle.genesis sample_profiles [] SampleSettle.genesis_executed) as (s' & t' & r & E & Hb).
  - split; [discriminate|]. split; [exact sample_profiles_ok|constructor].
  - vm_compute. discriminate.
  - exists s', t', r. split; [exact E|].
    pose proof (f_equal (fun x => match snd x with Ok r => affiliate_payouts r | Err _ => [] end) E) as Ep.
    apply (Hb (eq_sym Ep)).
Defined.
