(* ===== verification/Vm.v ===== *)
(** What the virtual machines share (ace-engine/src/vm.rs and
    ace-n-vm/src/error.rs): the machine an opcode selects, receipts and errors. *)

From S2P Require Import Prelude SigAlgo ValidatorSet Account StateTree.
From S2P Require Import StateM Wire Payload Transaction Engine.
Local Open Scope Z_scope.
Local Open Scope ace_scope.

Inductive VmId : Type :=
| AceNative
| Move
| Evm
| Svm
| Bvm
| Tvm.

#[global] Instance VmId_eq_dec : EqDecision VmId.
Proof. solve_decision. Defined.

Definition vm_from_opcode (opcode : Z) : option VmId :=
  if (1 <=? opcode) && (opcode <=? 15) then Some AceNative
  else if (16 <=? opcode) && (opcode <=? 31) then Some Evm
  else if (32 <=? opcode) && (opcode <=? 47) then Some Svm
  else if (48 <=? opcode) && (opcode <=? 63) then Some Bvm
  else if (64 <=? opcode) && (opcode <=? 79) then Some Tvm
  else if (80 <=? opcode) && (opcode <=? 95) then Some Move
  else None.

Record VmLog := {
  log_address : Z;
  log_topics : list Z;
  log_data : list Z;
}.

Record VmReceipt := {
  vm_id : VmId;
  vm_tx_hash : Hash;
  vm_success : bool;
  vm_sender : AccountId;
  vm_changes : list StateChange;
  vm_error : option string;
  vm_simulated : bool;
  vm_gas_used : option Z;
  vm_contract_address : option Z;
  vm_return_data : option (list Z);
  vm_logs : list VmLog;
}.

Inductive VmExecutionError : Type :=
| VmExecution (msg : string)
| VmInvalidPayload (msg : string)
| VmAccountNotFound (msg : string)
| VmOther (msg : string).

(** [NVmPanic] stands for a Rust panic, which unwinds past the dispatcher. *)
Inductive NVmError : Type :=
| UnknownOpcode (opcode : Z)
| EmptyPayload
| NoEngine (vm : VmId)
| NativeError (msg : string)
| EvmError (msg : string)
| SvmError (msg : string)
| BvmError (msg : string)
| TvmError (msg : string)
| NVmInvalidCredential (id : AccountId)
| NVmAccountNotFound (id : AccountId)
| InternalError (msg : string)
| RawChainVerify (msg : string)
| NVmNonceOverflow
| HfiPayClaim (msg : string)
| HfiPayClaimNotConfigured
| NVmPanic.

Definition raw_err {A} (msg : string) : result NVmError A := Err (RawChainVerify msg).

(** The text of an error without the numbers and hashes formatted into it. *)
Definition nvm_error_text (e : NVmError) : string :=
  match e with
  | UnknownOpcode _ => "unknown opcode: "
  | EmptyPayload => "empty transaction payload"
  | NoEngine _ => "no engine registered for VM: "
  | NativeError m => "native execution error: " +:+ m
  | EvmError m => "EVM execution error: " +:+ m
  | SvmError m => "SVM execution error: " +:+ m
  | BvmError m => "BVM execution error: " +:+ m
  | TvmError m => "TVM execution error: " +:+ m
  | NVmInvalidCredential _ => "invalid credential for sender "
  | NVmAccountNotFound _ => "account not found: "
  | InternalError m => "internal dispatcher error: " +:+ m
  | RawChainVerify m => "raw chain tx verification failed: " +:+ m
  | NVmNonceOverflow => "nonce overflow: account nonce reached u64::MAX"
  | HfiPayClaim m => "HFI Pay claim: " +:+ m
  | HfiPayClaimNotConfigured => "HFI Pay on-chain execution is not available"
  | NVmPanic => "panic"
  end.

(** The two conversions at the boundary of an engine. *)
Definition nvm_error_to_vm (e : NVmError) : VmExecutionError := VmExecution (nvm_error_text e).

Definition vm_error_into (e : VmExecutionError) : NVmError :=
  match e with
  | VmInvalidPayload _ => EmptyPayload
  | VmAccountNotFound s => InternalError ("account not found: " +:+ s)
  | VmExecution s | VmOther s => InternalError s
  end.

Abbreviation VmEngine := (Transaction -> M VmExecutionError VmReceipt) (only parsing).
