(* ===== verification/Token.v ===== *)
(** The token ledger (ace-n-vm/src/token_runtime.rs): mints, balances,
    allowances and SPL token accounts, in storage slots of the token program's
    account.

    Every function of the file is translated.  SHA-256, the ids of the two
    Solana programs (base58 literals decoded by bs58) and the test whether 32
    bytes are a point of the ed25519 curve are arguments. *)

From S2P Require Import Prelude SigAlgo ValidatorSet Account StateTree Slots StateM.
From S2P Require Import Wire Payload Transaction Engine.
Local Open Scope Z_scope.
Local Open Scope ace_scope.

(** The ids of the built-in programs (ace-n-vm/src/svm/programs.rs). *)
Definition SYSTEM_PROGRAM_ID : AccountId := 1.
Definition TOKEN_PROGRAM_ID : AccountId := 2.

Definition MINT_SLOT_PREFIX : string := "mint:".
Definition MINT_AUTHORITY_SLOT_PREFIX : string := "mint-auth:".
Definition BALANCE_SLOT_PREFIX : string := "balance:".
Definition ALLOWANCE_SLOT_PREFIX : string := "allowance:".
Definition TOKEN_ACCOUNT_OWNER_IDCOM_PREFIX : string := "ta-owner-idcom:".
Definition TOKEN_ACCOUNT_OWNER_SOL_PREFIX : string := "ta-owner-sol:".
Definition TOKEN_ACCOUNT_MINT_PREFIX : string := "ta-mint:".
Definition EVM_CONTRACT_MAP_PREFIX : string := "erc20-map:".
Definition EVM_CONTRACT_ADDR_PREFIX : string := "erc20-addr:".

Record MintMeta := {
  supply : Z;
  decimals : Z;
  authority : AccountId;
}.

Record TokenAccountMeta := {
  ta_mint : Z;
  owner_sol_pubkey : Z;
  owner_idcom : AccountId;
}.

Definition token_program_account_id : AccountId := TOKEN_PROGRAM_ID.

(** The data of third-party code the ledger uses. *)
Class SplEnv := {
  spl_token_program_id : Z;
  associated_token_program_id : Z;
  is_ed25519_point : Z -> bool;
}.

Section token.
Context (sha256 : list Z -> list Z).

(* ------------------------------------------------------------------ *)
(** * Slots *)

Definition prefixed_slot (prefix : string) (suffix : list Z) : Z :=
  digest sha256 (ascii_bytes prefix ++ suffix).

Definition prefixed_balance_slot (mint : Z) (owner : AccountId) : Z :=
  digest sha256 (ascii_bytes BALANCE_SLOT_PREFIX ++ be_bytes 32 mint ++ be_bytes 32 owner).

Definition prefixed_allowance_slot (mint : Z) (owner spender : AccountId) : Z :=
  digest sha256 (ascii_bytes ALLOWANCE_SLOT_PREFIX ++ be_bytes 32 mint ++ be_bytes 32 owner ++
                 be_bytes 32 spender).

(** A 64-bit number as a slot value. *)
Definition amount_value (amount : Z) : Z := be_num (le_bytes 8 amount ++ replicate 24 0).

Definition storage_change (slot old_value new_value : Z) : StateChange :=
  StorageChange token_program_account_id slot old_value new_value.

Definition read_slot {E} (slot : Z) : M E Z :=
  gets (fun t => get_storage t token_program_account_id slot).
Definition write_slot {E} (slot value : Z) : M E unit :=
  modify (fun t => set_storage t token_program_account_id slot value).

Definition ensure_token_program_account {E} : M E (option StateChange) :=
  let account := token_program_account_id in
  let! there := contains account in
  if there : bool then ret None
  else
    do! modify (fun t => insert_account sha256 t (account_new account)) in
    ret (Some (AccountCreated account)).

(* ------------------------------------------------------------------ *)
(** * Mints *)

Definition runtime_erc20_address_for_mint (mint : Z) : Z :=
  be_num (take 20 (drop 12 (sha256 (ascii_bytes EVM_CONTRACT_ADDR_PREFIX ++ be_bytes 32 mint)))).

Definition mint_for_runtime_erc20_address (t : StateTree) (address : Z) : option Z :=
  let slot := prefixed_slot EVM_CONTRACT_MAP_PREFIX (be_bytes 20 address) in
  let mint := get_storage t token_program_account_id slot in
  if mint =? 0 then None else Some mint.

Definition get_mint_meta (t : StateTree) (mint : Z) : option MintMeta :=
  let program := token_program_account_id in
  let value := get_storage t program (prefixed_slot MINT_SLOT_PREFIX (be_bytes 32 mint)) in
  if value =? 0 then None
  else
    let authority :=
      get_storage t program (prefixed_slot MINT_AUTHORITY_SLOT_PREFIX (be_bytes 32 mint)) in
    Some {| supply := u64_at value 0; decimals := byte_of value 8; authority := authority |}.

Definition create_mint (mint decimals : Z) (authority : AccountId) : M string (list StateChange) :=
  do! ensure_token_program_account in
  let mint_slot := prefixed_slot MINT_SLOT_PREFIX (be_bytes 32 mint) in
  let! existing := read_slot mint_slot in
  do! fail_if (negb (existing =? 0)) "mint already exists" in
  let value := be_num (replicate 8 0 ++ [decimals] ++ replicate 23 0) in
  do! write_slot mint_slot value in
  let auth_slot := prefixed_slot MINT_AUTHORITY_SLOT_PREFIX (be_bytes 32 mint) in
  do! write_slot auth_slot authority in
  let evm_address := runtime_erc20_address_for_mint mint in
  let evm_slot := prefixed_slot EVM_CONTRACT_MAP_PREFIX (be_bytes 20 evm_address) in
  do! write_slot evm_slot mint in
  ret [storage_change mint_slot 0 value; storage_change auth_slot 0 authority;
       storage_change evm_slot 0 mint].

Definition mint_to_owner (mint : Z) (owner : AccountId) (amount : Z) (caller : AccountId)
    : M string (list StateChange) :=
  if amount =? 0 then ret []
  else
    do! ensure_token_program_account in
    let mint_slot := prefixed_slot MINT_SLOT_PREFIX (be_bytes 32 mint) in
    let! old_mint := read_slot mint_slot in
    do! fail_if (old_mint =? 0) "mint does not exist" in
    let! authority := read_slot (prefixed_slot MINT_AUTHORITY_SLOT_PREFIX (be_bytes 32 mint)) in
    do! fail_if (negb (caller =? authority)) "caller is not the mint authority" in
    let old_supply := u64_at old_mint 0 in
    let! new_supply := require (u64_checked_add old_supply amount) "supply overflow" in
    let new_mint := be_num (le_bytes 8 new_supply ++ drop 8 (be_bytes 32 old_mint)) in
    do! write_slot mint_slot new_mint in
    let balance_slot := prefixed_balance_slot mint owner in
    let! old_balance_value := read_slot balance_slot in
    let old_balance := u64_at old_balance_value 0 in
    let! new_balance := require (u64_checked_add old_balance amount) "balance overflow" in
    let new_balance_value := amount_value new_balance in
    do! write_slot balance_slot new_balance_value in
    ret [storage_change mint_slot old_mint new_mint;
         storage_change balance_slot old_balance_value new_balance_value].

Definition register_runtime_erc20_mapping_for_existing_mint {E} (mint : Z)
    : M E (option StateChange) :=
  let address := runtime_erc20_address_for_mint mint in
  let slot := prefixed_slot EVM_CONTRACT_MAP_PREFIX (be_bytes 20 address) in
  let! old_value := read_slot slot in
  if old_value =? mint then ret None
  else
    do! write_slot slot mint in
    ret (Some (storage_change slot old_value mint)).

(* ------------------------------------------------------------------ *)
(** * Balances and allowances *)

(** [if mint_slot_val == [0; 32] return Err("mint does not exist")]. *)
Definition require_mint (mint : Z) : M string unit :=
  let! mint_slot_val := read_slot (prefixed_slot MINT_SLOT_PREFIX (be_bytes 32 mint)) in
  fail_if (mint_slot_val =? 0) "mint does not exist".

Definition transfer_between_owners (mint : Z) (from to : AccountId) (amount : Z)
    : M string (list StateChange) :=
  if amount =? 0 then ret []
  else
    do! ensure_token_program_account in
    do! require_mint mint in
    let from_slot := prefixed_balance_slot mint from in
    if from =? to then
      let! old_from := read_slot from_slot in
      let from_balance := u64_at old_from 0 in
      do! fail_if (from_balance <? amount) "insufficient token balance" in
      ret []
    else
      let to_slot := prefixed_balance_slot mint to in
      let! old_from := read_slot from_slot in
      let! old_to := read_slot to_slot in
      let from_balance := u64_at old_from 0 in
      let to_balance := u64_at old_to 0 in
      do! fail_if (from_balance <? amount) "insufficient token balance" in
      let! new_to_balance :=
        require (u64_checked_add to_balance amount) "recipient balance overflow" in
      let new_from := amount_value (from_balance - amount) in
      let new_to := amount_value new_to_balance in
      do! write_slot from_slot new_from in
      do! write_slot to_slot new_to in
      ret [storage_change from_slot old_from new_from; storage_change to_slot old_to new_to].

Definition balance_of (t : StateTree) (mint : Z) (owner : AccountId) : Z :=
  u64_at (get_storage t token_program_account_id (prefixed_balance_slot mint owner)) 0.

Definition set_allowance (mint : Z) (owner spender : AccountId) (amount : Z)
    : M string (list StateChange) :=
  do! ensure_token_program_account in
  do! require_mint mint in
  let slot := prefixed_allowance_slot mint owner spender in
  let! old_value := read_slot slot in
  let new_value := amount_value amount in
  do! write_slot slot new_value in
  ret [storage_change slot old_value new_value].

Definition allowance_of (t : StateTree) (mint : Z) (owner spender : AccountId) : Z :=
  u64_at (get_storage t token_program_account_id (prefixed_allowance_slot mint owner spender)) 0.

Definition transfer_from (mint : Z) (spender owner recipient : AccountId) (amount : Z)
    : M string (list StateChange) :=
  let! allowance := gets (fun t => allowance_of t mint owner spender) in
  do! fail_if (allowance <? amount) "allowance too low" in
  let! changes := transfer_between_owners mint owner recipient amount in
  let! allowance_changes := set_allowance mint owner spender (allowance - amount) in
  ret (changes ++ allowance_changes).

(* ------------------------------------------------------------------ *)
(** * SPL token accounts *)

Definition get_token_account_meta (t : StateTree) (token_account : Z) : option TokenAccountMeta :=
  let word prefix :=
    get_storage t token_program_account_id (prefixed_slot prefix (be_bytes 32 token_account)) in
  let mint := word TOKEN_ACCOUNT_MINT_PREFIX in
  let owner_sol_pubkey := word TOKEN_ACCOUNT_OWNER_SOL_PREFIX in
  let owner_idcom := word TOKEN_ACCOUNT_OWNER_IDCOM_PREFIX in
  if (mint =? 0) || (owner_sol_pubkey =? 0) || (owner_idcom =? 0) then None
  else Some {| ta_mint := mint; owner_sol_pubkey := owner_sol_pubkey; owner_idcom := owner_idcom |}.

Definition register_token_account (token_account mint owner_sol_pubkey : Z) (owner_idcom : AccountId)
    : M string (list StateChange) :=
  do! ensure_token_program_account in
  let! meta := gets (fun t => get_mint_meta t mint) in
  do! require meta "mint does not exist" in
  let mint_slot := prefixed_slot TOKEN_ACCOUNT_MINT_PREFIX (be_bytes 32 token_account) in
  let owner_idcom_slot :=
    prefixed_slot TOKEN_ACCOUNT_OWNER_IDCOM_PREFIX (be_bytes 32 token_account) in
  let owner_sol_slot := prefixed_slot TOKEN_ACCOUNT_OWNER_SOL_PREFIX (be_bytes 32 token_account) in
  let! existing_mint := read_slot mint_slot in
  let! existing_owner_sol := read_slot owner_sol_slot in
  let! existing_owner_idcom := read_slot owner_idcom_slot in
  do! fail_if (negb (existing_mint =? 0) || negb (existing_owner_sol =? 0) ||
               negb (existing_owner_idcom =? 0)) "token account already exists" in
  do! write_slot mint_slot mint in
  do! write_slot owner_idcom_slot owner_idcom in
  do! write_slot owner_sol_slot owner_sol_pubkey in
  ret [storage_change mint_slot 0 mint; storage_change owner_idcom_slot 0 owner_idcom;
       storage_change owner_sol_slot 0 owner_sol_pubkey].

Definition ensure_registered_token_account (token_account mint owner_sol : Z) (idcom : AccountId)
    : M string (list StateChange) :=
  let! existing := gets (fun t => get_token_account_meta t token_account) in
  match existing with
  | Some existing =>
      if (ta_mint existing =? mint) && (owner_sol_pubkey existing =? owner_sol) &&
         (owner_idcom existing =? idcom)
      then ret []
      else fail "token account already exists with different metadata"
  | None => register_token_account token_account mint owner_sol idcom
  end.

Definition token_account_balance (t : StateTree) (token_account : Z) : option Z :=
  match get_token_account_meta t token_account with
  | Some meta => Some (balance_of t (ta_mint meta) (owner_idcom meta))
  | None => None
  end.

(** [data[at..at + bytes.len()].copy_from_slice(bytes)]. *)
Definition copy_at (i : nat) (bytes data : list Z) : list Z :=
  take i data ++ bytes ++ drop (i + length bytes) data.

Definition encode_spl_token_account_data (meta : TokenAccountMeta) (amount : Z) : list Z :=
  let data := replicate 165 0 in
  let data := copy_at 0 (be_bytes 32 (ta_mint meta)) data in
  let data := copy_at 32 (be_bytes 32 (owner_sol_pubkey meta)) data in
  let data := copy_at 64 (le_bytes 8 amount) data in
  copy_at 108 [1] data.

Definition encode_spl_mint_data (meta : MintMeta) : list Z :=
  let data := replicate 82 0 in
  let data :=
    if authority meta =? 0 then data
    else copy_at 1 (be_bytes 32 (authority meta)) (copy_at 0 [1] data) in
  let data := copy_at 36 (le_bytes 8 (supply meta)) data in
  copy_at 45 [1] (copy_at 44 [decimals meta] data).

(* ------------------------------------------------------------------ *)
(** * Program addresses *)

Section addresses.
Context {Spl : SplEnv}.

Definition create_program_address (seeds : list (list Z)) (program_id : Z) : result string Z :=
  let out := digest sha256 (concat seeds ++ be_bytes 32 program_id ++
                            ascii_bytes "ProgramDerivedAddress") in
  if is_ed25519_point out then Err "derived address is on curve" else Ok out.

(** The bumps from [n - 1] down to 0. *)
Fixpoint find_bump (seeds : list (list Z)) (program_id : Z) (n : nat) : option Z :=
  match n with
  | O => None
  | S n =>
      match create_program_address (seeds ++ [[Z.of_nat n]]) program_id with
      | Ok address => Some address
      | Err _ => find_bump seeds program_id n
      end
  end.

(** [None] is the panic when every bump gives a point of the curve. *)
Definition find_program_address (seeds : list (list Z)) (program_id : Z) : option Z :=
  find_bump seeds program_id 256.

Definition derive_associated_token_address (owner_sol_pubkey mint : Z) : option Z :=
  find_program_address
    [be_bytes 32 owner_sol_pubkey; be_bytes 32 spl_token_program_id; be_bytes 32 mint]
    associated_token_program_id.
End addresses.
End token.
