(* ===== verification/TokenSpec.v ===== *)
(** What the token ledger promises.

    The slots of the token program are told apart, the words in them are read as
    an abstract ledger, and every operation of [Token] is shown to do what a
    function of the ledger does.  On the ledger the supply of a mint is what its
    owners hold. *)

From S2P Require Import Prelude SigAlgo ValidatorSet Account StateTree Slots StateM.
From S2P Require Import Wire Payload Transaction Engine Token.
Local Open Scope Z_scope.
Local Open Scope ace_scope.

(* ------------------------------------------------------------------ *)
(** * Slots *)

Inductive TokenSlot : Type :=
| TMint (m : Z)
| TAuthority (m : Z)
| TBalance (m o : Z)
| TAllowance (m o s : Z)
| THolderMint (a : Z)
| THolderSol (a : Z)
| THolderIdcom (a : Z)
| TErc20 (address : Z).

#[export] Instance TokenSlot_eq_dec : EqDecision TokenSlot.
Proof. solve_decision. Defined.

Definition token_message (s : TokenSlot) : list Z :=
  match s with
  | TMint m => ascii_bytes MINT_SLOT_PREFIX ++ be_bytes 32 m
  | TAuthority m => ascii_bytes MINT_AUTHORITY_SLOT_PREFIX ++ be_bytes 32 m
  | TBalance m o => ascii_bytes BALANCE_SLOT_PREFIX ++ be_bytes 32 m ++ be_bytes 32 o
  | TAllowance m o s =>
      ascii_bytes ALLOWANCE_SLOT_PREFIX ++ be_bytes 32 m ++ be_bytes 32 o ++ be_bytes 32 s
  | THolderMint a => ascii_bytes TOKEN_ACCOUNT_MINT_PREFIX ++ be_bytes 32 a
  | THolderSol a => ascii_bytes TOKEN_ACCOUNT_OWNER_SOL_PREFIX ++ be_bytes 32 a
  | THolderIdcom a => ascii_bytes TOKEN_ACCOUNT_OWNER_IDCOM_PREFIX ++ be_bytes 32 a
  | TErc20 address => ascii_bytes EVM_CONTRACT_MAP_PREFIX ++ be_bytes 20 address
  end.

Section slots.
Context (sha256 : list Z -> list Z) (ids : gset Z).

(** The slots of the mints, owners and token accounts in [ids]. *)
Definition token_slot_ok (s : TokenSlot) : Prop :=
  match s with
  | TMint x | TAuthority x | THolderMint x | THolderSol x | THolderIdcom x => x ∈ ids
  | TBalance m o => m ∈ ids /\ o ∈ ids
  | TAllowance m o s => m ∈ ids /\ o ∈ ids /\ s ∈ ids
  | TErc20 address => exists m, m ∈ ids /\ address = runtime_erc20_address_for_mint sha256 m
  end.

Definition token_slots : list TokenSlot :=
  let l := elements ids in
  (TMint <$> l) ++ (TAuthority <$> l) ++ (m ← l; TBalance m <$> l) ++
  (m ← l; o ← l; TAllowance m o <$> l) ++
  (THolderMint <$> l) ++ (THolderSol <$> l) ++ (THolderIdcom <$> l) ++
  ((fun m => TErc20 (runtime_erc20_address_for_mint sha256 m)) <$> l).

Lemma elem_of_token_slots s : token_slot_ok s -> s ∈ token_slots.
Proof.
  unfold token_slots, token_slot_ok. destruct s; set_solver.
Qed.

(** No two of these slots collide. *)
Definition token_apart : Prop := collision_free sha256 (token_message <$> token_slots).

Definition tkey (s : TokenSlot) : Z := digest sha256 (token_message s).
Definition word (t : StateTree) (s : TokenSlot) : Z := get_storage t token_program_account_id (tkey s).
Definition put (t : StateTree) (s : TokenSlot) (v : Z) : StateTree :=
  set_storage t token_program_account_id (tkey s) v.
End slots.

Lemma token_message_length s :
  length (token_message s) =
    match s with
    | TMint _ => 37 | TAuthority _ => 42 | TBalance _ _ => 72 | TAllowance _ _ _ => 106
    | THolderMint _ => 40 | THolderSol _ => 45 | THolderIdcom _ => 47 | TErc20 _ => 30
    end%nat.
Proof. destruct s; cbn [token_message]; rewrite !length_app, !length_be_bytes; reflexivity. Qed.

Lemma erc20_address_range sha256 m :
  digest_shape sha256 -> 0 <= runtime_erc20_address_for_mint sha256 m < 256 ^ 20.
Proof.
  intros Hs. unfold runtime_erc20_address_for_mint. set (msg := _ ++ _). destruct (Hs msg) as [Hl Hb].
  assert (Forall is_byte (take 20 (drop 12 (sha256 msg)))) as H by by apply Forall_take, Forall_drop.
  apply be_num_range in H. rewrite length_take, length_drop, Hl in H. done.
Qed.

Lemma token_message_inj sha256 ids a b :
  digest_shape sha256 -> (forall x, x ∈ ids -> is_u256 x) ->
  token_slot_ok sha256 ids a -> token_slot_ok sha256 ids b ->
  token_message a = token_message b -> a = b.
Proof.
  intros Hs Hu Ha Hb E. pose proof (f_equal length E) as El. rewrite !token_message_length in El.
  assert (forall x y, x ∈ ids -> y ∈ ids -> be_bytes 32 x = be_bytes 32 y -> x = y) as Hinj
    by (intros x y Hx%Hu Hy%Hu; apply (be_bytes_inj 32); done).
  destruct a, b; try discriminate El; cbn [token_message token_slot_ok] in *; apply app_inv_head in E.
  1,2,5-7: f_equal; by apply Hinj.
  - apply app_inj_1 in E as [E1 E2]; [|by rewrite !length_be_bytes]. destruct Ha, Hb. f_equal; by apply Hinj.
  - apply app_inj_1 in E as [E1 E2]; [|by rewrite !length_be_bytes].
    apply app_inj_1 in E2 as [E2 E3]; [|by rewrite !length_be_bytes].
    destruct Ha as (? & ? & ?), Hb as (? & ? & ?). f_equal; by apply Hinj.
  - destruct Ha as (m & _ & ->), Hb as (m' & _ & ->). f_equal.
    apply (be_bytes_inj 20); [by apply erc20_address_range..|done].
Qed.

(* ------------------------------------------------------------------ *)
(** * The abstract ledger *)

Record Ledger := {
  tokens : Z -> option (Z * Z);
  authorities : Z -> AccountId;
  balances : Z -> AccountId -> Z;
  allowances : Z -> AccountId -> AccountId -> Z;
  holder_mint : Z -> Z;
  holder_sol : Z -> Z;
  holder_idcom : Z -> AccountId;
  erc20 : Z -> Z;
}.

(** [tokens] has the supply and the decimals of a mint.  Updates at a point: *)
Definition fupd {A} (f : Z -> A) (x : Z) (v : A) : Z -> A := fun y => if decide (y = x) then v else f y.

Definition set_token (L : Ledger) (m : Z) (v : option (Z * Z)) : Ledger :=
  {| tokens := fupd (tokens L) m v; authorities := authorities L; balances := balances L;
     allowances := allowances L; holder_mint := holder_mint L; holder_sol := holder_sol L;
     holder_idcom := holder_idcom L; erc20 := erc20 L |}.
Definition set_authority (L : Ledger) (m v : Z) : Ledger :=
  {| tokens := tokens L; authorities := fupd (authorities L) m v; balances := balances L;
     allowances := allowances L; holder_mint := holder_mint L; holder_sol := holder_sol L;
     holder_idcom := holder_idcom L; erc20 := erc20 L |}.
Definition set_owned (L : Ledger) (m o v : Z) : Ledger :=
  {| tokens := tokens L; authorities := authorities L;
     balances := fupd (balances L) m (fupd (balances L m) o v);
     allowances := allowances L; holder_mint := holder_mint L; holder_sol := holder_sol L;
     holder_idcom := holder_idcom L; erc20 := erc20 L |}.
Definition set_allowed (L : Ledger) (m o s v : Z) : Ledger :=
  {| tokens := tokens L; authorities := authorities L; balances := balances L;
     allowances := fupd (allowances L) m (fupd (allowances L m) o (fupd (allowances L m o) s v));
     holder_mint := holder_mint L; holder_sol := holder_sol L;
     holder_idcom := holder_idcom L; erc20 := erc20 L |}.
Definition set_holder (L : Ledger) (a : Z) (hm hs hi : Z) : Ledger :=
  {| tokens := tokens L; authorities := authorities L; balances := balances L;
     allowances := allowances L; holder_mint := fupd (holder_mint L) a hm;
     holder_sol := fupd (holder_sol L) a hs; holder_idcom := fupd (holder_idcom L) a hi;
     erc20 := erc20 L |}.
Definition set_erc20 (L : Ledger) (a v : Z) : Ledger :=
  {| tokens := tokens L; authorities := authorities L; balances := balances L;
     allowances := allowances L; holder_mint := holder_mint L; holder_sol := holder_sol L;
     holder_idcom := holder_idcom L; erc20 := fupd (erc20 L) a v |}.

Definition token_word (v : Z) : option (Z * Z) :=
  if v =? 0 then None else Some (u64_at v 0, byte_of v 8).

(** The ledger after a write to a slot. *)
Definition ledger_put (L : Ledger) (s : TokenSlot) (v : Z) : Ledger :=
  match s with
  | TMint m => set_token L m (token_word v)
  | TAuthority m => set_authority L m v
  | TBalance m o => set_owned L m o (u64_at v 0)
  | TAllowance m o s => set_allowed L m o s (u64_at v 0)
  | THolderMint a => set_holder L a v (holder_sol L a) (holder_idcom L a)
  | THolderSol a => set_holder L a (holder_mint L a) v (holder_idcom L a)
  | THolderIdcom a => set_holder L a (holder_mint L a) (holder_sol L a) v
  | TErc20 a => set_erc20 L a v
  end.

(** The words of a mint: fresh, and with a new supply. *)
Lemma fresh_token d :
  is_byte d ->
  token_word (be_num (replicate 8 0 ++ [d] ++ replicate 23 0)) = if d =? 0 then None else Some (0, d).
Proof.
  intros Hd. set (l := replicate 8 0 ++ [d] ++ replicate 23 0).
  assert (be_bytes 32 (be_num l) = l) as El.
  { apply value_bytes; [done|]. apply Forall_app. split; [by repeat constructor|].
    apply Forall_cons. split; [done|]. by repeat constructor. }
  unfold token_word. destruct (d =? 0) eqn:E; bool_prop; [subst d; reflexivity|].
  assert (be_num l <> 0) as Hne.
  { intros Ez. rewrite Ez in El. apply (f_equal (fun l => l !! 8%nat)) in El. injection El as El. by subst d. }
  apply Z.eqb_neq in Hne. rewrite Hne. unfold u64_at, byte_of. rewrite El. done.
Qed.

Lemma raised_token v n :
  is_u64 n -> n <> 0 ->
  token_word (be_num (le_bytes 8 n ++ drop 8 (be_bytes 32 v))) = Some (n, byte_of v 8).
Proof.
  intros Hn H0. set (l := le_bytes 8 n ++ drop 8 (be_bytes 32 v)).
  assert (be_bytes 32 (be_num l) = l) as El.
  { apply value_bytes; unfold l; [by rewrite length_app, length_drop, length_le_bytes, length_be_bytes|].
    apply Forall_app. split; [apply le_bytes_byte|apply Forall_drop, be_bytes_byte]. }
  assert (u64_at (be_num l) 0 = n) as Eu.
  { unfold u64_at. rewrite El. unfold l. rewrite drop_0, take_app_length' by (by rewrite length_le_bytes).
    apply le_num_bytes. unfold is_u64, u64_max in Hn. cbn. lia. }
  unfold token_word. destruct (be_num l =? 0) eqn:E; bool_prop.
  { rewrite E in Eu. exfalso. by rewrite <-Eu in H0. }
  rewrite Eu. do 2 f_equal. unfold byte_of. rewrite El. unfold l.
  rewrite lookup_app_r by (rewrite length_le_bytes; lia). by rewrite length_le_bytes, lookup_drop.
Qed.

(* ------------------------------------------------------------------ *)
(** * Operations on the ledger *)

Definition ledger_create_mint (address : Z -> Z) (L : Ledger) (m d : Z) (caller : AccountId)
    : result string Ledger :=
  match tokens L m with
  | Some _ => Err "mint already exists"
  | None =>
      let L := set_token L m (if d =? 0 then None else Some (0, d)) in
      Ok (set_erc20 (set_authority L m caller) (address m) m)
  end.

Definition ledger_mint_to (L : Ledger) (m : Z) (o : AccountId) (amount : Z) (caller : AccountId)
    : result string Ledger :=
  if amount =? 0 then Ok L
  else
    let? (s, d) := ok_or (tokens L m) "mint does not exist" in
    if negb (caller =? authorities L m) then Err "caller is not the mint authority"
    else if u64_max <? s + amount then Err "supply overflow"
    else Ok (set_owned (set_token L m (Some (s + amount, d))) m o (balances L m o + amount)).

Definition ledger_transfer (L : Ledger) (m : Z) (from to : AccountId) (amount : Z)
    : result string Ledger :=
  if amount =? 0 then Ok L
  else
    let? _ := ok_or (tokens L m) "mint does not exist" in
    if balances L m from <? amount then Err "insufficient token balance"
    else if from =? to then Ok L
    else
      Ok (set_owned (set_owned L m from (balances L m from - amount)) m to (balances L m to + amount)).

Definition ledger_approve (L : Ledger) (m : Z) (o s : AccountId) (amount : Z)
    : result string Ledger :=
  let? _ := ok_or (tokens L m) "mint does not exist" in
  Ok (set_allowed L m o s amount).

Definition ledger_transfer_from (L : Ledger) (m : Z) (s o r : AccountId) (amount : Z)
    : result string Ledger :=
  if allowances L m o s <? amount then Err "allowance too low"
  else
    let? L' := ledger_transfer L m o r amount in
    ledger_approve L' m o s (allowances L m o s - amount).

Definition ledger_mint (L : Ledger) (m : Z) : option MintMeta :=
  match tokens L m with
  | Some (s, d) => Some {| supply := s; decimals := d; authority := authorities L m |}
  | None => None
  end.

Definition ledger_meta (L : Ledger) (a : Z) : option TokenAccountMeta :=
  if (holder_mint L a =? 0) || (holder_sol L a =? 0) || (holder_idcom L a =? 0) then None
  else Some {| ta_mint := holder_mint L a; owner_sol_pubkey := holder_sol L a;
               owner_idcom := holder_idcom L a |}.

Definition ledger_register (L : Ledger) (a m sol : Z) (idcom : AccountId) : result string Ledger :=
  let? _ := ok_or (tokens L m) "mint does not exist" in
  if negb (holder_mint L a =? 0) || negb (holder_sol L a =? 0) || negb (holder_idcom L a =? 0)
  then Err "token account already exists"
  else Ok (set_holder L a m sol idcom).

Definition ledger_ensure (L : Ledger) (a m sol : Z) (idcom : AccountId) : result string Ledger :=
  match ledger_meta L a with
  | Some meta =>
      if (ta_mint meta =? m) && (owner_sol_pubkey meta =? sol) && (owner_idcom meta =? idcom)
      then Ok L
      else Err "token account already exists with different metadata"
  | None => ledger_register L a m sol idcom
  end.

(** The supply of a mint is what the owners in [ids] hold, and a mint that does
    not exist has no owners. *)
Record ledger_ok (ids : gset Z) (L : Ledger) : Prop := {
  lo_supply m s d : m ∈ ids -> tokens L m = Some (s, d) ->
    Zsum (balances L m <$> elements ids) = s /\ s <= u64_max;
  lo_none m : m ∈ ids -> tokens L m = None -> forall o, o ∈ ids -> balances L m o = 0;
  lo_balance m o : m ∈ ids -> o ∈ ids -> is_u64 (balances L m o);
  lo_allowance m o s : m ∈ ids -> o ∈ ids -> s ∈ ids -> is_u64 (allowances L m o s);
}.

(** No overflow is left for a balance when the supply has none. *)
Lemma balance_le_supply ids L m s d o :
  ledger_ok ids L -> m ∈ ids -> o ∈ ids -> tokens L m = Some (s, d) -> balances L m o <= s.
Proof.
  intros H Hm Ho Ht. destruct (lo_supply ids L H m s d Hm Ht) as [<- _].
  apply Zsum_elem_le; [|set_solver]. intros x Hx. apply (lo_balance ids L H); set_solver.
Qed.

Lemma balances_le_supply ids L m s d o o' :
  ledger_ok ids L -> m ∈ ids -> o ∈ ids -> o' ∈ ids -> o <> o' -> tokens L m = Some (s, d) ->
  balances L m o + balances L m o' <= s.
Proof.
  intros H Hm Ho Ho' Hne Ht. destruct (lo_supply ids L H m s d Hm Ht) as [<- _].
  apply Zsum_two_le; [|set_solver..]. intros x Hx. apply (lo_balance ids L H); set_solver.
Qed.

(** ** The supply is preserved *)

Lemma fupd_eq {A} (f : Z -> A) x v : fupd f x v x = v.
Proof. unfold fupd. by rewrite decide_True. Qed.
Lemma fupd_ne {A} (f : Z -> A) x y v : y <> x -> fupd f x v y = f y.
Proof. intros. unfold fupd. by rewrite decide_False. Qed.

Lemma balances_set_owned L m o v m' o' :
  balances (set_owned L m o v) m' o' = if decide (m' = m /\ o' = o) then v else balances L m' o'.
Proof. cbn. unfold fupd. repeat case_decide; naive_solver. Qed.

Section preserved.
Context (ids : gset Z).

Lemma held_set_owned L m o v :
  o ∈ ids ->
  Zsum (balances (set_owned L m o v) m <$> elements ids) =
  Zsum (balances L m <$> elements ids) + (v - balances L m o).
Proof.
  intros Ho. apply (Zsum_change _ _ _ o); [apply NoDup_elements|set_solver| |].
  - rewrite balances_set_owned, decide_True by done. lia.
  - intros x Hx. rewrite balances_set_owned, decide_False; [done|tauto].
Qed.

Lemma held_other L m o v m' :
  m' <> m ->
  Zsum (balances (set_owned L m o v) m' <$> elements ids) = Zsum (balances L m' <$> elements ids).
Proof.
  intros Hne. f_equal. apply list_fmap_ext. intros i x _.
  rewrite balances_set_owned, decide_False; [done|tauto].
Qed.

Lemma ok_allowed L m o s v :
  ledger_ok ids L -> is_u64 v -> ledger_ok ids (set_allowed L m o s v).
Proof.
  intros [] Hv. split; try done. intros m' o' s' Hm Ho Hs. cbn. unfold fupd.
  repeat case_decide; subst; auto.
Qed.

Lemma transfer_ok L m from to amount L' :
  ledger_ok ids L -> m ∈ ids -> from ∈ ids -> to ∈ ids -> 0 <= amount ->
  ledger_transfer L m from to amount = Ok L' -> ledger_ok ids L'.
Proof.
  intros H Hm Hf Ht Ha. unfold ledger_transfer. destruct (amount =? 0); [by intros [= <-]|].
  destruct (tokens L m) as [[s d]|] eqn:Em; [|done]. cbn.
  destruct (_ <? amount) eqn:Eb; [done|]. destruct (from =? to) eqn:Eft; [by intros [= <-]|].
  bool_prop. intros [= <-]. destruct (lo_supply ids L H m s d Hm Em) as [Hs Hmax].
  pose proof (balances_le_supply ids L m s d from to H Hm Hf Ht Eft Em) as Hle.
  pose proof (lo_balance ids L H m from Hm Hf) as Hbf. pose proof (lo_balance ids L H m to Hm Ht) as Hbt.
  unfold is_u64 in *. pose proof H as [H1 H2 H3 H4]. split; try done.
  - intros m' s' d' Hm' Et. change (tokens L m' = Some (s', d')) in Et.
    destruct (decide (m' = m)) as [->|Hne]; [|rewrite !held_other by done; eauto].
    rewrite !held_set_owned, balances_set_owned, decide_False by naive_solver.
    rewrite Em in Et. injection Et as <- <-. lia.
  - intros m' Hm' Et o Ho. change (tokens L m' = None) in Et.
    rewrite !balances_set_owned, !decide_False by (intros [-> _]; congruence). by apply H2.
  - intros m' o Hm' Ho. rewrite !balances_set_owned. unfold is_u64.
    repeat case_decide; [lia|lia|by apply H3].
Qed.

Lemma mint_to_ok L m o amount caller L' :
  ledger_ok ids L -> m ∈ ids -> o ∈ ids -> 0 <= amount ->
  ledger_mint_to L m o amount caller = Ok L' -> ledger_ok ids L'.
Proof.
  intros H Hm Ho Ha. unfold ledger_mint_to. destruct (amount =? 0); [by intros [= <-]|].
  destruct (tokens L m) as [[s d]|] eqn:Em; [|done]. cbn.
  destruct (negb _); [done|]. destruct (_ <? _) eqn:Es; [done|]. bool_prop. intros [= <-].
  destruct (lo_supply ids L H m s d Hm Em) as [Hs Hmax].
  pose proof (balance_le_supply ids L m s d o H Hm Ho Em) as Hle.
  pose proof (lo_balance ids L H m o Hm Ho) as Hb. unfold is_u64 in *. pose proof H as [H1 H2 H3 H4].
  split; try done.
  - intros m' s' d' Hm' Et. destruct (decide (m' = m)) as [->|Hne].
    + rewrite held_set_owned by done. cbn in Et. rewrite fupd_eq in Et. injection Et as <- <-.
      cbn [balances set_token]. lia.
    + rewrite held_other by done. cbn in Et. rewrite fupd_ne in Et by done. by apply (H1 m' s' d').
  - intros m' Hm' Et o' Ho'. cbn in Et. destruct (decide (m' = m)) as [->|Hne].
    + by rewrite fupd_eq in Et.
    + rewrite fupd_ne in Et by done. rewrite balances_set_owned, decide_False by tauto. by apply H2.
  - intros m' o' Hm' Ho'. rewrite balances_set_owned. unfold is_u64. case_decide; [lia|by apply H3].
Qed.

Lemma create_mint_ok address L m d caller L' :
  ledger_ok ids L -> m ∈ ids -> ledger_create_mint address L m d caller = Ok L' -> ledger_ok ids L'.
Proof.
  intros [H1 H2 H3 H4] Hm. unfold ledger_create_mint. destruct (tokens L m) eqn:Et; [done|].
  intros [= <-]. split; try done.
  - intros m' s' d' Hm' Et'. cbn in Et'. destruct (decide (m' = m)) as [->|Hne].
    + rewrite fupd_eq in Et'. destruct (d =? 0); [done|]. injection Et' as <- <-. split; [|done]. cbn.
      rewrite <-(Zsum_nil). assert (forall l, (forall o, o ∈ l -> o ∈ ids) -> Zsum (balances L m <$> l) = 0) as E.
      { induction l as [|x l IH]; intros Hl; [done|]. rewrite fmap_cons, Zsum_cons, IH, H2; set_solver. }
      apply E. set_solver.
    + rewrite fupd_ne in Et' by done. by apply (H1 m' s' d').
  - intros m' Hm' Et' o Ho. destruct (decide (m' = m)) as [->|Hne]; [by apply H2|].
    cbn in Et'. rewrite fupd_ne in Et' by done. by apply H2.
Qed.
End preserved.

(* ------------------------------------------------------------------ *)
(** * The ledger in the storage *)

Section ledger.
Context (sha256 : list Z -> list Z) (ids : gset Z).

Definition erc20_of (m : Z) : Z := runtime_erc20_address_for_mint sha256 m.

(** The words of the slots of [ids] spell the ledger. *)
Record spells (t : StateTree) (L : Ledger) : Prop := {
  sp_token m : m ∈ ids -> token_word (word sha256 t (TMint m)) = tokens L m;
  sp_authority m : m ∈ ids -> word sha256 t (TAuthority m) = authorities L m;
  sp_balance m o : m ∈ ids -> o ∈ ids -> u64_at (word sha256 t (TBalance m o)) 0 = balances L m o;
  sp_allowance m o s : m ∈ ids -> o ∈ ids -> s ∈ ids ->
    u64_at (word sha256 t (TAllowance m o s)) 0 = allowances L m o s;
  sp_holder_mint a : a ∈ ids -> word sha256 t (THolderMint a) = holder_mint L a;
  sp_holder_sol a : a ∈ ids -> word sha256 t (THolderSol a) = holder_sol L a;
  sp_holder_idcom a : a ∈ ids -> word sha256 t (THolderIdcom a) = holder_idcom L a;
  sp_erc20 m : m ∈ ids -> word sha256 t (TErc20 (erc20_of m)) = erc20 L (erc20_of m);
}.

(** [spells] reads the storage of the token program only. *)
Lemma spells_storage t t' L :
  contract_storage t' !! token_program_account_id = contract_storage t !! token_program_account_id ->
  spells t L -> spells t' L.
Proof.
  intros E [H1 H2 H3 H4 H5 H6 H7 H8].
  assert (forall s, word sha256 t' s = word sha256 t s) as Ew
    by (intros s; unfold word, get_storage; by rewrite E).
  split; intros; rewrite Ew; auto.
Qed.

Hypothesis Hshape : digest_shape sha256.
Hypothesis Hapart : token_apart sha256 ids.
Hypothesis Hids : forall x, x ∈ ids -> is_u256 x.

Lemma tkey_inj a b :
  token_slot_ok sha256 ids a -> token_slot_ok sha256 ids b -> tkey sha256 a = tkey sha256 b -> a = b.
Proof.
  intros Ha Hb E. apply (token_message_inj sha256 ids); try done.
  apply Hapart; [by apply list_elem_of_fmap_2, elem_of_token_slots..|]. by apply digest_eq.
Qed.

Lemma word_put t s s' v :
  token_slot_ok sha256 ids s -> token_slot_ok sha256 ids s' ->
  word sha256 (put sha256 t s v) s' = if decide (s' = s) then v else word sha256 t s'.
Proof.
  intros Hs Hs'. unfold word, put. destruct (decide (s' = s)) as [->|Hne]; [apply get_set_storage|].
  apply get_set_storage_ne. right. intros E. by apply tkey_inj in E.
Qed.

Lemma spells_put t L s v :
  token_slot_ok sha256 ids s -> spells t L -> spells (put sha256 t s v) (ledger_put L s v).
Proof.
  intros Hs [H1 H2 H3 H4 H5 H6 H7 H8].
  assert (forall s', token_slot_ok sha256 ids s' ->
    word sha256 (put sha256 t s v) s' = if decide (s' = s) then v else word sha256 t s') as Hw
    by (intros s' Hs'; by apply word_put).
  split; intros; (rewrite Hw by (cbn; naive_solver)); destruct s; cbn; unfold fupd;
    repeat case_decide; simplify_eq; auto; naive_solver.
Qed.

(** ** Reading *)

Lemma read_tokens t L m :
  spells t L -> m ∈ ids ->
  let v := get_storage t token_program_account_id (prefixed_slot sha256 MINT_SLOT_PREFIX (be_bytes 32 m)) in
  match tokens L m with
  | None => v = 0
  | Some (s, d) => v <> 0 /\ u64_at v 0 = s /\ byte_of v 8 = d
  end.
Proof.
  intros R Hm v. rewrite <-(sp_token t L R m Hm). unfold token_word.
  change (word sha256 t (TMint m)) with v. destruct (v =? 0) eqn:E; by bool_prop.
Qed.

(** A computation on the storage does what a function of the ledger does. *)
Definition tsim {A} (c : M string A) (t : StateTree) (L : Ledger) (r : result string Ledger) : Prop :=
  wp c t (fun t' x => match r with
    | Ok L' => (exists a, x = Ok a) /\ spells t' L'
    | Err e => x = Err e /\ spells t' L
    end).

Lemma tsim_ensure {A} (k : option StateChange -> M string A) t L r :
  spells t L -> (forall t1 o, spells t1 L -> tsim (k o) t1 L r) ->
  tsim (bind (ensure_token_program_account sha256) k) t L r.
Proof.
  intros R Hk. apply wp_bind. unfold ensure_token_program_account. cbv beta zeta. wp_go; [by apply Hk|].
  apply Hk. revert R. by apply spells_storage.
Qed.

Lemma tsim_require_mint {A} (k : unit -> M string A) t L m r :
  spells t L -> m ∈ ids ->
  (forall x, tokens L m = Some x -> tsim (k tt) t L r) ->
  (tokens L m = None -> r = Err "mint does not exist") ->
  tsim (bind (require_mint sha256 m) k) t L r.
Proof.
  intros R Hm Hk Hn. apply wp_bind. unfold require_mint, read_slot.
  pose proof (read_tokens t L m R Hm) as H. cbv zeta in H.
  destruct (tokens L m) as [[s d]|].
  - wp_go; [by apply (Hk (s, d))|]. bool_prop. by destruct H.
  - rewrite Hn by done. wp_go; [|done]. by bool_prop.
Qed.

Lemma spells_set_balance t L m o v :
  spells t L -> m ∈ ids -> o ∈ ids -> is_u64 v ->
  spells (set_storage t token_program_account_id (prefixed_balance_slot sha256 m o) (amount_value v))
    (set_owned L m o v).
Proof.
  intros R Hm Ho Hv. pose proof (spells_put t L (TBalance m o) (amount_value v) (conj Hm Ho) R) as H.
  cbn in H. unfold amount_value in H at 2. by rewrite u64_at_write in H.
Qed.

(** Ledgers with the same entries. *)
Definition same_ledger (L L' : Ledger) : Prop :=
  (forall m, tokens L' m = tokens L m) /\ (forall m, authorities L' m = authorities L m) /\
  (forall m o, balances L' m o = balances L m o) /\
  (forall m o s, allowances L' m o s = allowances L m o s) /\
  (forall a, holder_mint L' a = holder_mint L a) /\ (forall a, holder_sol L' a = holder_sol L a) /\
  (forall a, holder_idcom L' a = holder_idcom L a) /\ (forall a, erc20 L' a = erc20 L a).

Lemma spells_same t L L' : same_ledger L L' -> spells t L -> spells t L'.
Proof.
  intros (E1 & E2 & E3 & E4 & E5 & E6 & E7 & E8) [].
  split; intros; rewrite ?E1, ?E2, ?E3, ?E4, ?E5, ?E6, ?E7, ?E8; auto.
Qed.

(** ** Each operation *)

Lemma transfer_sim t L m from to amount :
  spells t L -> ledger_ok ids L -> m ∈ ids -> from ∈ ids -> to ∈ ids -> 0 <= amount ->
  tsim (transfer_between_owners sha256 m from to amount) t L (ledger_transfer L m from to amount).
Proof.
  intros R H Hm Hf Ht Ha. unfold transfer_between_owners, ledger_transfer.
  destruct (amount =? 0) eqn:E0; bool_prop; [split; [by eexists|done]|].
  apply tsim_ensure; [done|]. clear dependent t. intros t _ R.
  apply tsim_require_mint; [done|done| |by intros ->]. intros [s d] Em. rewrite Em. cbn [ok_or rbind].
  assert (u64_at (get_storage t token_program_account_id (prefixed_balance_slot sha256 m from)) 0 =
    balances L m from) as Ef by (by apply (sp_balance t L R)).
  assert (u64_at (get_storage t token_program_account_id (prefixed_balance_slot sha256 m to)) 0 =
    balances L m to) as Et by (by apply (sp_balance t L R)).
  pose proof (lo_balance ids L H m from Hm Hf) as [Hbf _]. pose proof (lo_balance ids L H m to Hm Ht) as [Hbt _].
  destruct (lo_supply ids L H m s d Hm Em) as [_ Hs].
  pose proof (balance_le_supply ids L m s d from H Hm Hf Em) as Hle.
  unfold tsim, read_slot, write_slot, require.
  destruct (balances L m from <? amount) eqn:Eb, (from =? to) eqn:Eft; bool_prop.
  1-3: wp_go; rewrite Ef in *; bool_prop; try lia; first [done|split; [by eexists|done]].
  pose proof (balances_le_supply ids L m s d from to H Hm Hf Ht Eft Em) as Hle2.
  wp_go; rewrite Ef in *; bool_prop; [|lia]. rewrite Et.
  assert (u64_checked_add (balances L m to) amount = Some (balances L m to + amount)) as ->
    by (apply u64_checked_add_Some; lia).
  wp_go. split; [by eexists|]. apply spells_set_balance; [|done|done|unfold is_u64; lia].
  apply spells_set_balance; [done..|]. unfold is_u64; lia.
Qed.

Lemma approve_sim t L m o s amount :
  spells t L -> m ∈ ids -> o ∈ ids -> s ∈ ids -> is_u64 amount ->
  tsim (set_allowance sha256 m o s amount) t L (ledger_approve L m o s amount).
Proof.
  intros R Hm Ho Hs Ha. apply tsim_ensure; [done|]. clear dependent t. intros t _ R.
  unfold ledger_approve. apply tsim_require_mint; [done|done| |by intros ->].
  intros x Em. rewrite Em. cbn [ok_or rbind]. unfold tsim, read_slot, write_slot. wp_go.
  split; [by eexists|].
  pose proof (spells_put t L (TAllowance m o s) (amount_value amount) (conj Hm (conj Ho Hs)) R) as H.
  cbn in H. unfold amount_value in H at 2. by rewrite u64_at_write in H.
Qed.

Lemma tsim_bind {A B} (c : M string A) (k : A -> M string B) t L r r' :
  tsim c t L r ->
  (forall e, r = Err e -> r' = Err e) ->
  (forall L1 t1 a, r = Ok L1 -> spells t1 L1 -> tsim (k a) t1 L1 (r') ) ->
  (forall L1 e, r = Ok L1 -> r' = Err e -> same_ledger L1 L) ->
  tsim (bind c k) t L r'.
Proof.
  intros Hc He Hk Hs. apply wp_bind. revert Hc. apply wp_mono. intros t1 x.
  destruct r as [L1|e]; [|by intros [-> R]; rewrite (He e)]. intros [[a ->] R].
  generalize (Hk L1 t1 a eq_refl R). apply wp_mono. intros t2 y.
  destruct r' as [L'|e]; [done|]. intros [-> R']. split; [done|].
  revert R'. apply spells_same. by apply (Hs L1 e).
Qed.

Lemma same_ledger_refl L : same_ledger L L.
Proof. by split_and!. Qed.

Lemma transfer_from_sim t L m s o r amount :
  spells t L -> ledger_ok ids L -> m ∈ ids -> s ∈ ids -> o ∈ ids -> r ∈ ids -> 0 <= amount ->
  tsim (transfer_from sha256 m s o r amount) t L (ledger_transfer_from L m s o r amount).
Proof.
  intros R H Hm Hs Ho Hr Ha. unfold transfer_from, ledger_transfer_from.
  assert (allowance_of sha256 t m o s = allowances L m o s) as Ea by (by apply (sp_allowance t L R)).
  apply wp_bind, wp_gets. cbv beta. rewrite Ea.
  destruct (_ <? amount) eqn:E; [by split|]. bool_prop. apply wp_bind, wp_ret.
  pose proof (lo_allowance ids L H m o s Hm Ho Hs) as Hu. unfold is_u64 in Hu.
  refine (tsim_bind _ _ t L (ledger_transfer L m o r amount) _ _ _ _ _).
  - by apply transfer_sim.
  - by intros e ->.
  - intros L1 t1 a -> R1. cbn [rbind].
    refine (tsim_bind _ _ t1 L1 (ledger_approve L1 m o s _) _ _ _ _ _).
    + apply approve_sim; try done. unfold is_u64. lia.
    + by intros e ->.
    + intros L2 t2 b E2 R2. rewrite E2. split; [by eexists|done].
    + by intros L2 e ->.
  - intros L1 e E1. rewrite E1. cbn [rbind]. unfold ledger_approve, ledger_transfer in *.
    destruct (tokens L1 m) eqn:Et; [done|]. intros _. destruct (amount =? 0); [by injection E1 as ->|].
    destruct (tokens L m) as [[]|] eqn:Em; [|done]. cbn in E1. repeat case_match; simplify_eq/=; done.
Qed.

Lemma create_mint_sim t L m d caller :
  spells t L -> m ∈ ids -> is_byte d ->
  tsim (create_mint sha256 m d caller) t L (ledger_create_mint erc20_of L m d caller).
Proof.
  intros R Hm Hd. apply tsim_ensure; [done|]. clear dependent t. intros t _ R.
  pose proof (read_tokens t L m R Hm) as Hv. cbv zeta in Hv. unfold ledger_create_mint.
  unfold tsim, read_slot, write_slot. cbv zeta. destruct (tokens L m) as [[s d']|] eqn:Et.
  { wp_go; bool_prop; [|done]. by destruct Hv. }
  wp_go; bool_prop; [|done]. split; [by eexists|].
  pose proof (spells_put t L (TMint m) (be_num (replicate 8 0 ++ [d] ++ replicate 23 0)) Hm R) as R1.
  cbn [ledger_put] in R1. rewrite fresh_token in R1 by done.
  apply (spells_put _ _ (TAuthority m) caller Hm) in R1.
  by apply (spells_put _ _ (TErc20 (erc20_of m)) m (ex_intro _ m (conj Hm eq_refl))) in R1.
Qed.

Lemma mint_to_sim t L m o amount caller :
  spells t L -> ledger_ok ids L -> m ∈ ids -> o ∈ ids -> 0 <= amount ->
  tsim (mint_to_owner sha256 m o amount caller) t L (ledger_mint_to L m o amount caller).
Proof.
  intros R H Hm Ho Ha. unfold mint_to_owner, ledger_mint_to.
  destruct (amount =? 0) eqn:E0; bool_prop; [split; [by eexists|done]|].
  apply tsim_ensure; [done|]. clear dependent t. intros t _ R.
  pose proof (read_tokens t L m R Hm) as Hv. cbv zeta in Hv. unfold tsim, read_slot, write_slot. cbv zeta.
  set (v := get_storage t _ _) in Hv.
  assert (get_storage t token_program_account_id
    (prefixed_slot sha256 MINT_AUTHORITY_SLOT_PREFIX (be_bytes 32 m)) = authorities L m) as Eau
    by (by apply (sp_authority t L R)).
  destruct (tokens L m) as [[s d]|] eqn:Et; cbn [ok_or rbind].
  2:{ wp_go; bool_prop; done. }
  destruct Hv as (Hv & Es & Ed). apply wp_bind, wp_gets. cbv beta. fold v.
  apply Z.eqb_neq in Hv. rewrite Hv. cbn [fail_if]. apply wp_bind, wp_ret, wp_bind, wp_gets. cbv beta.
  rewrite Eau. destruct (negb _); cbn [fail_if]; [by split|]. apply wp_bind, wp_ret. rewrite Es.
  pose proof (balance_le_supply ids L m s d o H Hm Ho Et) as Hle.
  pose proof (lo_balance ids L H m o Hm Ho) as Hb. unfold is_u64 in Hb.
  destruct (u64_max <? s + amount) eqn:Ex; bool_prop.
  { rewrite (proj2 (u64_checked_add_None s amount)) by lia. by split. }
  rewrite (proj2 (u64_checked_add_Some s amount (s + amount))) by lia. cbn [require].
  apply wp_bind, wp_ret, wp_bind, wp_modify, wp_bind, wp_gets. cbv beta.
  pose proof (spells_put t L (TMint m) (be_num (le_bytes 8 (s + amount) ++ drop 8 (be_bytes 32 v))) Hm R) as R1.
  cbn [ledger_put] in R1. rewrite raised_token, Ed in R1 by (unfold is_u64; lia).
  set (t1 := put _ _ _ _) in R1. change (set_storage t _ _ _) with t1.
  assert (u64_at (get_storage t1 token_program_account_id (prefixed_balance_slot sha256 m o)) 0 =
    balances L m o) as Eo by (by apply (sp_balance t1 _ R1)).
  rewrite Eo, (proj2 (u64_checked_add_Some _ amount (balances L m o + amount))) by lia. cbn [require].
  wp_go. split; [by eexists|]. apply spells_set_balance; try done. unfold is_u64. lia.
Qed.

Lemma read_mint_meta t L m :
  spells t L -> m ∈ ids -> get_mint_meta sha256 t m = ledger_mint L m.
Proof.
  intros R Hm. pose proof (read_tokens t L m R Hm) as H. cbv zeta in H. unfold get_mint_meta, ledger_mint.
  rewrite <-(sp_authority t L R m Hm). set (v := get_storage _ _ _) in H. cbv zeta. fold v.
  destruct (tokens L m) as [[s d]|]; [|by rewrite H]. destruct H as (Hv & <- & <-).
  apply Z.eqb_neq in Hv. by rewrite Hv.
Qed.

Lemma read_account_meta t L a :
  spells t L -> a ∈ ids -> get_token_account_meta sha256 t a = ledger_meta L a.
Proof.
  intros R Ha. unfold ledger_meta. rewrite <-(sp_holder_mint t L R), <-(sp_holder_sol t L R),
    <-(sp_holder_idcom t L R) by done. reflexivity.
Qed.

Lemma register_sim t L a m sol idcom :
  spells t L -> a ∈ ids -> m ∈ ids ->
  tsim (register_token_account sha256 a m sol idcom) t L (ledger_register L a m sol idcom).
Proof.
  intros R Ha Hm. apply tsim_ensure; [done|]. clear dependent t. intros t _ R. unfold tsim.
  apply wp_bind, wp_gets. cbv beta. rewrite (read_mint_meta t L) by done. unfold ledger_mint, ledger_register.
  destruct (tokens L m) as [[s d]|] eqn:Et; cbn [ok_or rbind require]; [|by split].
  apply wp_bind, wp_ret. unfold read_slot, write_slot. cbv zeta. apply wp_bind, wp_gets.
  apply wp_bind, wp_gets. apply wp_bind, wp_gets. cbv beta.
  change (get_storage t _ (prefixed_slot _ TOKEN_ACCOUNT_MINT_PREFIX _)) with (word sha256 t (THolderMint a)).
  change (get_storage t _ (prefixed_slot _ TOKEN_ACCOUNT_OWNER_SOL_PREFIX _))
    with (word sha256 t (THolderSol a)).
  change (get_storage t _ (prefixed_slot _ TOKEN_ACCOUNT_OWNER_IDCOM_PREFIX _))
    with (word sha256 t (THolderIdcom a)).
  rewrite (sp_holder_mint t L R), (sp_holder_sol t L R), (sp_holder_idcom t L R) by done.
  destruct (_ || _); [by split|]. apply wp_bind, wp_ret. wp_go. split; [by eexists|].
  apply (spells_put _ _ (THolderMint a) m Ha) in R. apply (spells_put _ _ (THolderIdcom a) idcom Ha) in R.
  apply (spells_put _ _ (THolderSol a) sol Ha) in R. revert R. apply spells_same.
  split_and!; try done; intros x; cbn; unfold fupd; repeat case_decide; congruence.
Qed.

Lemma ensure_sim t L a m sol idcom :
  spells t L -> a ∈ ids -> m ∈ ids ->
  tsim (ensure_registered_token_account sha256 a m sol idcom) t L (ledger_ensure L a m sol idcom).
Proof.
  intros R Ha Hm. apply wp_bind, wp_gets. rewrite (read_account_meta t L) by done. unfold ledger_ensure.
  destruct (ledger_meta L a) as [meta|]; [|by apply register_sim].
  destruct (_ && _); [split; [by eexists|done]|by split].
Qed.

Lemma map_erc20_sim t L m :
  spells t L -> m ∈ ids ->
  tsim (register_runtime_erc20_mapping_for_existing_mint sha256 m) t L (Ok (set_erc20 L (erc20_of m) m)).
Proof.
  intros R Hm. unfold register_runtime_erc20_mapping_for_existing_mint, tsim, read_slot, write_slot. cbv zeta.
  apply wp_bind, wp_gets. cbv beta.
  change (get_storage t _ _) with (word sha256 t (TErc20 (erc20_of m))). rewrite (sp_erc20 t L R) by done.
  pose proof (spells_put _ _ (TErc20 (erc20_of m)) m (ex_intro _ m (conj Hm eq_refl)) R) as R1.
  destruct (_ =? _) eqn:E; wp_go; (split; [by eexists|]); [|done]. bool_prop. revert R. apply spells_same.
  split_and!; try done. intros x. cbn. unfold fupd. case_decide; congruence.
Qed.
End ledger.

(* ------------------------------------------------------------------ *)
(** * What the operations leave alone *)

(** Storage of other accounts stays, and at most the account of the token program
    is created. *)
Record token_frame (t t' : StateTree) : Prop := {
  fr_storage id : id <> token_program_account_id ->
    contract_storage t' !! id = contract_storage t !! id;
  fr_accounts : accounts t' = accounts t \/
    (accounts t !! token_program_account_id = None /\
     accounts t' = <[token_program_account_id := account_new token_program_account_id]> (accounts t));
  fr_registry : zk_replay_registry t' = zk_replay_registry t;
}.

Lemma token_frame_refl t : token_frame t t.
Proof. split; [done|by left|done]. Qed.

Lemma token_frame_trans t1 t2 t3 : token_frame t1 t2 -> token_frame t2 t3 -> token_frame t1 t3.
Proof.
  intros [S1 A1 R1] [S2 A2 R2]. split; [intros id Hid; by rewrite S2, S1| |by rewrite R2].
  destruct A1 as [A1|[N1 A1]], A2 as [A2|[N2 A2]].
  - left. by rewrite A2.
  - right. by rewrite <-A1.
  - right. by rewrite A2.
  - rewrite A1, lookup_insert_eq in N2. done.
Qed.

Definition framed {A} (c : M string A) : Prop := forall t, wp c t (fun t' _ => token_frame t t').

Lemma framed_bind {A B} (c : M string A) (k : A -> M string B) :
  framed c -> (forall a, framed (k a)) -> framed (bind c k).
Proof.
  intros Hc Hk t. apply wp_bind. generalize (Hc t). apply wp_mono. intros t1 [a|e] F; [|done].
  generalize (Hk a t1). apply wp_mono. intros t2 r F2. by eapply token_frame_trans.
Qed.

Lemma framed_pure {A} (c : M string A) : (forall t, fst (c t) = t) -> framed c.
Proof. intros H t. unfold wp. rewrite H. apply token_frame_refl. Qed.

Lemma framed_write slot v : framed (write_slot slot v).
Proof.
  intros t. split; [|by left|done]. intros id Hid. cbn. by rewrite lookup_insert_ne.
Qed.

Lemma framed_ensure sha256 : framed (ensure_token_program_account sha256).
Proof.
  intros t. unfold ensure_token_program_account. wp_go; [apply token_frame_refl|]. bool_prop.
  split; [done| |done]. right. split; [by apply eq_None_not_Some|done].
Qed.

(** Steps that only read do not change the state. *)
Ltac framed_step :=
  match goal with
  | |- framed (bind _ _) => apply framed_bind; [|intros ?]
  | |- framed (write_slot _ _) => apply framed_write
  | |- framed (ensure_token_program_account _) => apply framed_ensure
  | |- framed (if ?c then _ else _) => destruct c
  | |- framed (match ?x with _ => _ end) => destruct x
  | |- framed (ret _) => by apply framed_pure
  | |- framed (fail _) => by apply framed_pure
  | |- framed (gets _) => by apply framed_pure
  | |- framed (read_slot _) => by apply framed_pure
  | |- framed (require ?o _) => by apply framed_pure; destruct o
  | |- framed (fail_if ?c _) => by apply framed_pure; destruct c
  end.

Section frames.
Context (sha256 : list Z -> list Z).

Lemma create_mint_framed m d caller : framed (create_mint sha256 m d caller).
Proof. unfold create_mint. cbv zeta. repeat framed_step. Qed.

Lemma mint_to_framed m o amount caller : framed (mint_to_owner sha256 m o amount caller).
Proof. unfold mint_to_owner. cbv zeta. repeat framed_step. Qed.

Lemma transfer_framed m from to amount : framed (transfer_between_owners sha256 m from to amount).
Proof. unfold transfer_between_owners, require_mint. cbv zeta. repeat framed_step. Qed.

Lemma approve_framed m o s amount : framed (set_allowance sha256 m o s amount).
Proof. unfold set_allowance, require_mint. cbv zeta. repeat framed_step. Qed.

Lemma transfer_from_framed m s o r amount : framed (transfer_from sha256 m s o r amount).
Proof.
  unfold transfer_from. repeat framed_step; [apply transfer_framed|apply approve_framed].
Qed.

Lemma register_framed a m sol idcom : framed (register_token_account sha256 a m sol idcom).
Proof. unfold register_token_account. cbv zeta. repeat framed_step. Qed.

Lemma ensure_framed a m sol idcom : framed (ensure_registered_token_account sha256 a m sol idcom).
Proof. unfold ensure_registered_token_account. repeat framed_step. apply register_framed. Qed.
End frames.

(* ------------------------------------------------------------------ *)
(** * Sequences of operations *)

Inductive TokenOp : Type :=
| OpCreateMint (m d : Z) (caller : AccountId)
| OpMintTo (m : Z) (o : AccountId) (amount : Z) (caller : AccountId)
| OpTransfer (m : Z) (from to : AccountId) (amount : Z)
| OpApprove (m : Z) (o s : AccountId) (amount : Z)
| OpTransferFrom (m : Z) (s o r : AccountId) (amount : Z)
| OpRegister (a m sol : Z) (idcom : AccountId)
| OpEnsure (a m sol : Z) (idcom : AccountId)
| OpMapErc20 (m : Z).

(** The operation names ids in [ids], with arguments of the source's width. *)
Definition token_op_ok (ids : gset Z) (op : TokenOp) : Prop :=
  match op with
  | OpCreateMint m d _ => m ∈ ids /\ is_byte d
  | OpMintTo m o amount _ => m ∈ ids /\ o ∈ ids /\ is_u64 amount
  | OpTransfer m from to amount => m ∈ ids /\ from ∈ ids /\ to ∈ ids /\ is_u64 amount
  | OpApprove m o s amount => m ∈ ids /\ o ∈ ids /\ s ∈ ids /\ is_u64 amount
  | OpTransferFrom m s o r amount => m ∈ ids /\ s ∈ ids /\ o ∈ ids /\ r ∈ ids /\ is_u64 amount
  | OpRegister a m _ _ | OpEnsure a m _ _ => a ∈ ids /\ m ∈ ids
  | OpMapErc20 m => m ∈ ids
  end.

Definition discard {A} (c : M string A) : M string unit := do! c in ret tt.

Definition token_op (sha256 : list Z -> list Z) (op : TokenOp) : M string unit :=
  match op with
  | OpCreateMint m d caller => discard (create_mint sha256 m d caller)
  | OpMintTo m o amount caller => discard (mint_to_owner sha256 m o amount caller)
  | OpTransfer m from to amount => discard (transfer_between_owners sha256 m from to amount)
  | OpApprove m o s amount => discard (set_allowance sha256 m o s amount)
  | OpTransferFrom m s o r amount => discard (transfer_from sha256 m s o r amount)
  | OpRegister a m sol idcom => discard (register_token_account sha256 a m sol idcom)
  | OpEnsure a m sol idcom => discard (ensure_registered_token_account sha256 a m sol idcom)
  | OpMapErc20 m => discard (register_runtime_erc20_mapping_for_existing_mint sha256 m)
  end.

Definition ledger_op (address : Z -> Z) (L : Ledger) (op : TokenOp) : result string Ledger :=
  match op with
  | OpCreateMint m d caller => ledger_create_mint address L m d caller
  | OpMintTo m o amount caller => ledger_mint_to L m o amount caller
  | OpTransfer m from to amount => ledger_transfer L m from to amount
  | OpApprove m o s amount => ledger_approve L m o s amount
  | OpTransferFrom m s o r amount => ledger_transfer_from L m s o r amount
  | OpRegister a m sol idcom => ledger_register L a m sol idcom
  | OpEnsure a m sol idcom => ledger_ensure L a m sol idcom
  | OpMapErc20 m => Ok (set_erc20 L (address m) m)
  end.

(** The ledger after a transfer. *)
Definition moved_tokens (L : Ledger) (m from to amount : Z) : Ledger :=
  set_owned (set_owned L m from (balances L m from - amount)) m to (balances L m to + amount).

Lemma moved_balances L m from to amount :
  from <> to ->
  balances (moved_tokens L m from to amount) m from = balances L m from - amount /\
  balances (moved_tokens L m from to amount) m to = balances L m to + amount.
Proof.
  intros Hne. unfold moved_tokens. rewrite !balances_set_owned.
  split; repeat case_decide; naive_solver.
Qed.

Lemma moved_other L m from to amount m' o :
  m' <> m -> balances (moved_tokens L m from to amount) m' o = balances L m' o.
Proof. intros Hne. unfold moved_tokens. rewrite !balances_set_owned, !decide_False by naive_solver. done. Qed.

Lemma ledger_transfer_moves L m from to amount :
  from <> to -> 0 < amount -> is_Some (tokens L m) -> amount <= balances L m from ->
  ledger_transfer L m from to amount = Ok (moved_tokens L m from to amount).
Proof.
  intros Hne Ha [x Ex] Hb. unfold ledger_transfer. rewrite Ex. cbn [ok_or rbind].
  by rewrite (proj2 (Z.eqb_neq amount 0)), (proj2 (Z.ltb_ge _ amount)), (proj2 (Z.eqb_neq from to)) by lia.
Qed.

Lemma ledger_transfer_moved L m from to amount L' :
  from <> to -> amount <> 0 -> ledger_transfer L m from to amount = Ok L' ->
  L' = moved_tokens L m from to amount.
Proof.
  intros Hne Ha. unfold ledger_transfer. rewrite (proj2 (Z.eqb_neq amount 0)), (proj2 (Z.eqb_neq from to)) by lia.
  destruct (tokens L m); [|done]. cbn. destruct (_ <? _); [done|]. by intros [= <-].
Qed.

(** ** What a caller may do *)

(** From [L] to [L'] by [caller]: what others own falls at most by the allowance
    they gave to the caller and the caller used up; allowances given by others
    stay, apart from the caller's own, which may only fall; a mint stays, and its
    supply changes only if the caller is its authority; token accounts stay. *)
Record permitted (caller : AccountId) (L L' : Ledger) : Prop := {
  pm_balance m o : o <> caller ->
    balances L m o <= balances L' m o + (allowances L m o caller - allowances L' m o caller);
  pm_allowance m o s : o <> caller -> s <> caller -> allowances L' m o s = allowances L m o s;
  pm_used m o : o <> caller -> allowances L' m o caller <= allowances L m o caller;
  pm_supply m s d : tokens L m = Some (s, d) ->
    authorities L' m = authorities L m /\
    exists s', tokens L' m = Some (s', d) /\ (s' = s \/ (s < s' /\ caller = authorities L m));
  pm_holder a meta : ledger_meta L a = Some meta -> ledger_meta L' a = Some meta;
}.

Lemma permitted_refl caller L : permitted caller L L.
Proof. split; try done; [lia|]. intros m s d E. eauto. Qed.

Lemma permitted_trans caller L1 L2 L3 :
  permitted caller L1 L2 -> permitted caller L2 L3 -> permitted caller L1 L3.
Proof.
  intros [B1 A1 U1 S1 H1] [B2 A2 U2 S2 H2]. split.
  - intros m o Ho. specialize (B1 m o Ho). specialize (B2 m o Ho). lia.
  - intros m o s Ho Hs. by rewrite A2, A1.
  - intros m o Ho. specialize (U1 m o Ho). specialize (U2 m o Ho). lia.
  - intros m s d E. destruct (S1 m s d E) as [Ea (s' & E' & Hs)].
    destruct (S2 m s' d E') as [Ea' (s2 & E2 & Hs2)]. split; [by rewrite Ea'|].
    exists s2. split; [done|]. rewrite Ea in Hs2. destruct Hs as [->|[? ?]], Hs2 as [->|[? ?]]; auto; right; split; auto; lia.
  - auto.
Qed.

(** The operations of a caller. *)
Definition by_caller (caller : AccountId) (op : TokenOp) : Prop :=
  match op with
  | OpCreateMint _ _ c | OpMintTo _ _ _ c => c = caller
  | OpTransfer _ from _ _ => from = caller
  | OpApprove _ o _ _ => o = caller
  | OpTransferFrom _ s _ _ _ => s = caller
  | OpRegister _ _ _ _ | OpEnsure _ _ _ _ | OpMapErc20 _ => True
  end.

Lemma transfer_permitted caller L m to amount L' :
  0 <= amount -> ledger_transfer L m caller to amount = Ok L' -> permitted caller L L'.
Proof.
  intros Ha. unfold ledger_transfer. destruct (amount =? 0); [intros [= <-]; apply permitted_refl|].
  destruct (tokens L m); [|done]. cbn. destruct (_ <? _); [done|].
  destruct (_ =? to); intros [= <-]; [apply permitted_refl|].
  split; try done; [|cbn; eauto]. intros m' o Ho. rewrite !balances_set_owned.
  cbn [allowances set_owned]. repeat case_decide; naive_solver lia.
Qed.

Lemma set_allowed_allowances L m o s v m' o' s' :
  allowances (set_allowed L m o s v) m' o' s' =
    if decide (m' = m /\ o' = o /\ s' = s) then v else allowances L m' o' s'.
Proof. cbn. unfold fupd. repeat case_decide; naive_solver. Qed.

(** Spending an allowance: the balances may fall by what the allowance falls. *)
Lemma transfer_from_permitted caller L m o r amount L' :
  0 <= amount -> ledger_transfer_from L m caller o r amount = Ok L' -> permitted caller L L'.
Proof.
  intros Ha. unfold ledger_transfer_from. destruct (_ <? amount) eqn:El; [done|]. bool_prop.
  intros (L1 & E1 & E2)%rbind_ok. unfold ledger_approve in E2.
  destruct (tokens L1 m) as [x|] eqn:Et; [|done]. injection E2 as <-.
  assert (allowances L1 = allowances L /\ authorities L1 = authorities L /\ tokens L1 = tokens L /\
    (forall a, ledger_meta L1 a = ledger_meta L a) /\
    forall m' o', balances L m' o' - (if decide (m' = m /\ o' = o) then amount else 0) <= balances L1 m' o')
    as (Eal & Eau & Eto & Eme & Hb).
  { unfold ledger_transfer in E1. destruct (amount =? 0); [injection E1 as <-|].
    { split_and!; try done. intros. case_decide; lia. }
    destruct (tokens L m); [|done]. cbn in E1. destruct (_ <? _); [done|].
    destruct (o =? r) eqn:Eor; bool_prop; injection E1 as <-; (split_and!; try done); intros m' o'.
    - case_decide; lia.
    - rewrite !balances_set_owned. repeat case_decide; naive_solver lia. }
  split.
  - intros m' o' Ho. rewrite set_allowed_allowances, Eal. specialize (Hb m' o').
    change (balances (set_allowed L1 m o caller (allowances L m o caller - amount))) with (balances L1).
    repeat case_decide; naive_solver lia.
  - intros m' o' s Ho Hs. rewrite set_allowed_allowances, decide_False by naive_solver. by rewrite Eal.
  - intros m' o' Ho. rewrite set_allowed_allowances, Eal. case_decide as Hd; [destruct Hd as (-> & -> & _)|]; lia.
  - intros m' s d E. cbn. rewrite Eau, Eto. eauto.
  - intros a meta E. rewrite <-E. apply Eme.
Qed.

Lemma op_permitted ids address caller L op L' :
  token_op_ok ids op -> by_caller caller op -> ledger_op address L op = Ok L' -> permitted caller L L'.
Proof.
  assert (forall a m sol idcom, ledger_register L a m sol idcom = Ok L' -> permitted caller L L') as Hregister.
  { intros a m sol idcom E. unfold ledger_register in E. destruct (tokens L m); [|done]. cbn in E.
    destruct (_ || _) eqn:Eh; [done|]. injection E as <-. bool_prop.
    split; try done; [intros; cbn; lia|cbn; eauto|]. intros a' meta E. unfold ledger_meta in E |- *. cbn.
    unfold fupd. repeat case_decide; subst; try done. by rewrite (proj2 (Z.eqb_eq _ _)) in E. }
  destruct op as [m d c|m o amount c|m from to amount|m o s amount|m s o r amount|a m sol idcom
    |a m sol idcom|m]; cbn; intros Hok Hby.
  - subst c. unfold ledger_create_mint. destruct (tokens L m) eqn:Et; [done|]. intros [= <-].
    split; try done; [intros; cbn; lia|]. intros m' s d' E. cbn. unfold fupd.
    case_decide; [subst; congruence|]. eauto.
  - subst c. unfold ledger_mint_to. destruct (amount =? 0) eqn:E0; [intros [= <-]; apply permitted_refl|].
    destruct (tokens L m) as [[s d]|] eqn:Et; [|done]. cbn. destruct (caller =? _) eqn:Ec; [|done]. cbn.
    destruct (_ <? _); [done|]. intros [= <-]. bool_prop. destruct Hok as (_ & _ & Ha & _).
    split; try done.
    + intros m' o' Ho. rewrite balances_set_owned. cbn [allowances set_owned set_token balances].
      case_decide as Hd; [destruct Hd as [-> ->]|]; lia.
    + intros m' s' d' E. cbn. unfold fupd. split; [done|]. case_decide; [subst m'|eauto].
      rewrite Et in E. injection E as <- <-. eexists. split; [done|]. right. split; [lia|done].
  - subst from. apply transfer_permitted, Hok.
  - subst o. unfold ledger_approve. destruct (tokens L m); [|done]. intros [= <-].
    split; try done; [..|cbn; eauto]; intros; rewrite set_allowed_allowances, decide_False by naive_solver;
      cbn; lia || done.
  - subst s. apply transfer_from_permitted, Hok.
  - apply Hregister.
  - unfold ledger_ensure. destruct (ledger_meta L a); [|apply Hregister].
    destruct (_ && _); [|done]. intros [= <-]. apply permitted_refl.
  - intros [= <-]. split; try done; [intros; cbn; lia|cbn; eauto].
Qed.

(** The answers of a sequence of operations, an error ending one operation. *)
Fixpoint token_ops (sha256 : list Z -> list Z) (t : StateTree) (ops : list TokenOp)
    : StateTree * list (result string unit) :=
  match ops with
  | [] => (t, [])
  | op :: ops =>
      let '(t, r) := token_op sha256 op t in
      let '(t, rs) := token_ops sha256 t ops in
      (t, r :: rs)
  end.

Fixpoint ledger_ops (address : Z -> Z) (L : Ledger) (ops : list TokenOp)
    : Ledger * list (result string unit) :=
  match ops with
  | [] => (L, [])
  | op :: ops =>
      let '(L, r) :=
        match ledger_op address L op with Ok L' => (L', Ok tt) | Err e => (L, Err e) end in
      let '(L, rs) := ledger_ops address L ops in
      (L, r :: rs)
  end.

Definition empty_ledger : Ledger :=
  {| tokens _ := None; authorities _ := 0; balances _ _ := 0; allowances _ _ _ := 0;
     holder_mint _ := 0; holder_sol _ := 0; holder_idcom _ := 0; erc20 _ := 0 |}.

Section sequences.
Context (ids : gset Z).

Lemma ledger_op_ok address L op L' :
  ledger_ok ids L -> token_op_ok ids op -> ledger_op address L op = Ok L' -> ledger_ok ids L'.
Proof.
  assert (forall m o s amount L, ledger_ok ids L -> is_u64 amount ->
    ledger_approve L m o s amount = Ok L' -> ledger_ok ids L') as Happrove.
  { intros m o s amount L1 H1 Ha. unfold ledger_approve. destruct (tokens L1 m); [|done].
    intros [= <-]. by apply ok_allowed. }
  assert (forall a m sol idcom, ledger_ok ids L -> ledger_register L a m sol idcom = Ok L' ->
    ledger_ok ids L') as Hregister.
  { intros a m sol idcom [] E. unfold ledger_register in E. destruct (tokens L m); [|done]. cbn in E.
    destruct (_ || _); [done|]. injection E as <-. by split. }
  intros H. destruct op as [m d caller|m o amount caller|m from to amount|m o s amount
    |m s o r amount|a m sol idcom|a m sol idcom|m]; cbn.
  - intros [Hm Hd]. by apply create_mint_ok.
  - intros (Hm & Ho & Ha). apply mint_to_ok; try done. apply Ha.
  - intros (Hm & Hf & Ht & Ha). apply transfer_ok; try done. apply Ha.
  - intros (Hm & Ho & Hs & Ha). by apply Happrove.
  - intros (Hm & Hs & Ho & Hr & Ha). unfold ledger_transfer_from. destruct (_ <? _) eqn:Eb; [done|].
    bool_prop. intros (L1 & E1 & E2)%rbind_ok.
    apply (Happrove m o s (allowances L m o s - amount) L1); [|unfold is_u64|done].
    + apply (transfer_ok ids L m o r amount); try done. apply Ha.
    + pose proof (lo_allowance ids L H m o s Hm Ho Hs). unfold is_u64 in *. lia.
  - intros _. by apply Hregister.
  - intros _. unfold ledger_ensure. destruct (ledger_meta L a); [|by apply Hregister].
    destruct (_ && _); [|done]. by intros [= <-].
  - intros _ [= <-]. destruct H. by split.
Qed.

Lemma ledger_ops_ok address ops L :
  ledger_ok ids L -> Forall (token_op_ok ids) ops -> ledger_ok ids (fst (ledger_ops address L ops)).
Proof.
  revert L. induction ops as [|op ops IH]; intros L H Hops; [done|].
  apply Forall_cons in Hops as [Hop Hops]. cbn.
  destruct (ledger_op address L op) as [L'|e] eqn:E;
    (destruct (ledger_ops _ _ ops) as [L2 rs] eqn:E2; cbn).
  - specialize (IH L'). rewrite E2 in IH. apply IH; [|done]. by apply (ledger_op_ok address L op).
  - specialize (IH L). rewrite E2 in IH. by apply IH.
Qed.

Context (sha256 : list Z -> list Z).
Hypothesis Hshape : digest_shape sha256.
Hypothesis Hapart : token_apart sha256 ids.
Hypothesis Hids : forall x, x ∈ ids -> is_u256 x.
Local Abbreviation address := (runtime_erc20_address_for_mint sha256).

Lemma discard_sim {A} (c : M string A) t L r :
  tsim sha256 ids c t L r ->
  let '(t', x) := discard c t in
  x = (match r with Ok _ => Ok tt | Err e => Err e end) /\
  spells sha256 ids t' (match r with Ok L' => L' | Err _ => L end).
Proof.
  unfold tsim, wp, discard, bind. destruct (c t) as [t' [a|e]]; cbn; destruct r as [L'|e'].
  - by intros [_ R].
  - by intros [? _].
  - by intros [[] _].
  - intros [[= ->] R]. done.
Qed.

Lemma token_op_sim t L op :
  spells sha256 ids t L -> ledger_ok ids L -> token_op_ok ids op ->
  let '(t', x) := token_op sha256 op t in
  x = (match ledger_op address L op with Ok _ => Ok tt | Err e => Err e end) /\
  spells sha256 ids t' (match ledger_op address L op with Ok L' => L' | Err _ => L end).
Proof.
  intros R H Hop. set (r := ledger_op address L op).
  destruct op; cbn [token_op]; apply discard_sim; unfold r; cbn [ledger_op token_op_ok] in *.
  - apply create_mint_sim; try done; apply Hop.
  - apply mint_to_sim; try done; apply Hop.
  - apply transfer_sim; try done; apply Hop.
  - apply approve_sim; try done; apply Hop.
  - apply transfer_from_sim; try done; apply Hop.
  - apply register_sim; try done; apply Hop.
  - apply ensure_sim; try done; apply Hop.
  - by apply map_erc20_sim.
Qed.

Lemma token_ops_sim ops t L :
  spells sha256 ids t L -> ledger_ok ids L -> Forall (token_op_ok ids) ops ->
  snd (token_ops sha256 t ops) = snd (ledger_ops address L ops) /\
  spells sha256 ids (fst (token_ops sha256 t ops)) (fst (ledger_ops address L ops)).
Proof.
  revert t L. induction ops as [|op ops IH]; intros t L R H Hops; [done|].
  apply Forall_cons in Hops as [Hop Hops]. cbn [token_ops ledger_ops].
  pose proof (token_op_sim t L op R H Hop) as S. destruct (token_op sha256 op t) as [t1 x].
  destruct (ledger_op address L op) as [L1|e] eqn:E; destruct S as [-> R1].
  - specialize (IH t1 L1 R1 (ledger_op_ok address L op L1 H Hop E) Hops).
    destruct (token_ops sha256 t1 ops), (ledger_ops address L1 ops). cbn in *. by destruct IH as [-> ?].
  - specialize (IH t1 L R1 H Hops).
    destruct (token_ops sha256 t1 ops), (ledger_ops address L ops). cbn in *. by destruct IH as [-> ?].
Qed.
End sequences.

Lemma empty_ledger_ok ids : ledger_ok ids empty_ledger.
Proof. split; try done; intros; cbn; unfold is_u64, u64_max; lia. Qed.

Lemma empty_ledger_spells sha256 ids t :
  contract_storage t !! token_program_account_id = None -> spells sha256 ids t empty_ledger.
Proof.
  intros E. assert (forall s, word sha256 t s = 0) as Hw
    by (intros s; unfold word, get_storage; by rewrite E).
  split; intros; by rewrite Hw.
Qed.

(** Different digests: no collision. *)
Lemma NoDup_collision_free sha256 (ms : list (list Z)) : NoDup (sha256 <$> ms) -> collision_free sha256 ms.
Proof.
  intros H x y (i & Hi)%list_elem_of_lookup (j & Hj)%list_elem_of_lookup E.
  assert (i = j) as ->; [|congruence].
  eapply (NoDup_lookup _ i j (sha256 x)); [exact H| |]; rewrite list_lookup_fmap, ?Hi, ?Hj; cbn; congruence.
Qed.

(** C36. The token ledger code refines an abstract ledger.  For any sequence of
    token operations, the answers of the code on the token program's storage are
    the answers of functions on maps of supplies, authorities, balances,
    allowances and token accounts, and the storage left behind spells the ledger
    they leave; an operation that fails changes nothing.  In particular neither a
    balance nor the recipient of a transfer can overflow.  Assumed: no two slots
    of the ids at hand collide. *)
Theorem token_ledger_refines sha256 ids t L ops :
  digest_shape sha256 -> token_apart sha256 ids -> (forall x, x ∈ ids -> is_u256 x) ->
  spells sha256 ids t L -> ledger_ok ids L -> Forall (token_op_ok ids) ops ->
  let address := runtime_erc20_address_for_mint sha256 in
  snd (token_ops sha256 t ops) = snd (ledger_ops address L ops) /\
  spells sha256 ids (fst (token_ops sha256 t ops)) (fst (ledger_ops address L ops)).
Proof. intros. by apply token_ops_sim. Qed.

(** C37. The supply of every mint is backed.  After any sequence of token
    operations on an empty ledger, whichever of them fail, the recorded supply of
    a mint is the sum of what its owners hold, and of a mint that does not exist
    nobody holds anything. *)
Theorem supply_backed sha256 ids t ops m :
  digest_shape sha256 -> token_apart sha256 ids -> (forall x, x ∈ ids -> is_u256 x) ->
  contract_storage t !! token_program_account_id = None ->
  Forall (token_op_ok ids) ops -> m ∈ ids ->
  let t' := fst (token_ops sha256 t ops) in
  match get_mint_meta sha256 t' m with
  | Some meta =>
      supply meta = Zsum ((fun o => balance_of sha256 t' m o) <$> elements ids) /\ is_u64 (supply meta)
  | None => forall o, o ∈ ids -> balance_of sha256 t' m o = 0
  end.
Proof.
  intros Hshape Hapart Hids Hnone Hops Hm t'.
  destruct (token_ops_sim ids sha256 Hshape Hapart Hids ops t empty_ledger
    (empty_ledger_spells sha256 ids t Hnone) (empty_ledger_ok ids) Hops) as [_ R].
  pose proof (ledger_ops_ok ids (runtime_erc20_address_for_mint sha256) ops empty_ledger
    (empty_ledger_ok ids) Hops) as H.
  set (L := fst (ledger_ops _ _ ops)) in R, H. fold t' in R.
  rewrite (read_mint_meta sha256 ids t' L m R Hm). unfold ledger_mint.
  assert (forall o, o ∈ ids -> balance_of sha256 t' m o = balances L m o) as Hb
    by (intros o Ho; by apply (sp_balance _ _ _ _ R)).
  destruct (tokens L m) as [[s d]|] eqn:Et.
  - destruct (lo_supply ids L H m s d Hm Et) as [Hs Hmax]. cbn [supply].
    assert ((fun o => balance_of sha256 t' m o) <$> elements ids = balances L m <$> elements ids) as ->.
    { apply list_fmap_ext. intros i x Hx. apply Hb, elem_of_elements. by eapply list_elem_of_lookup_2. }
    split; [done|]. split; [|done]. rewrite <-Hs. apply Zsum_nonneg, Forall_fmap, Forall_forall.
    intros x Hx. apply (lo_balance ids L H); set_solver.
  - intros o Ho. rewrite Hb by done. by apply (lo_none ids L H).
Qed.

(** A mint without decimals is lost.  [create_mint] with zero decimals
    succeeds and reports the mint, but the word it writes is the one that means
    that there is no mint: afterwards there is no such mint, its authority cannot
    mint, and anybody can create it again and become its authority. *)
Theorem zero_decimals_mint_lost sha256 ids t L m caller other o amount :
  digest_shape sha256 -> token_apart sha256 ids -> (forall x, x ∈ ids -> is_u256 x) ->
  spells sha256 ids t L -> ledger_ok ids L -> m ∈ ids -> o ∈ ids -> 0 < amount <= u64_max ->
  get_mint_meta sha256 t m = None ->
  exists t1 changes,
    create_mint sha256 m 0 caller t = (t1, Ok changes) /\
    get_mint_meta sha256 t1 m = None /\
    snd (mint_to_owner sha256 m o amount caller t1) = Err "mint does not exist" /\
    exists t2 changes2, create_mint sha256 m 6 other t1 = (t2, Ok changes2) /\
      authority <$> get_mint_meta sha256 t2 m = Some other.
Proof.
  intros Hshape Hapart Hids R H Hm Ho Ha Hnone. rewrite (read_mint_meta sha256 ids t L m R Hm) in Hnone.
  unfold ledger_mint in Hnone. destruct (tokens L m) as [[]|] eqn:Et; [done|].
  pose proof (create_mint_sim sha256 ids Hshape Hapart Hids t L m 0 caller R Hm ltac:(done)) as S.
  unfold ledger_create_mint in S. rewrite Et in S. unfold tsim, wp in S. set (L1 := set_erc20 _ _ _) in S.
  destruct (create_mint sha256 m 0 caller t) as [t1 r]. cbn [fst snd] in S.
  destruct S as [[cs ->] R1].
  assert (tokens L1 m = None) as Et1 by apply fupd_eq.
  assert (ledger_ok ids L1) as H1.
  { apply (create_mint_ok ids (erc20_of sha256) L m 0 caller); try done.
    unfold ledger_create_mint. by rewrite Et. }
  exists t1, cs. split_and!; [done| | |].
  - rewrite (read_mint_meta sha256 ids t1 L1 m R1 Hm). unfold ledger_mint. by rewrite Et1.
  - pose proof (mint_to_sim sha256 ids Hshape Hapart Hids t1 L1 m o amount caller R1 H1 Hm Ho ltac:(lia)) as S.
    unfold ledger_mint_to in S. assert ((amount =? 0) = false) as E0 by lia. rewrite E0, Et1 in S. apply S.
  - pose proof (create_mint_sim sha256 ids Hshape Hapart Hids t1 L1 m 6 other R1 Hm ltac:(done)) as S.
    unfold ledger_create_mint in S. rewrite Et1 in S. unfold tsim, wp in S.
    destruct (create_mint sha256 m 6 other t1) as [t2 r2]. cbn [fst snd] in S.
    destruct S as [[cs2 ->] R2].
    exists t2, cs2. split; [done|]. rewrite (read_mint_meta _ _ _ _ m R2 Hm). unfold ledger_mint.
    cbn. by rewrite !fupd_eq.
Qed.

Module SampleToken.
(** Keeps the last bytes of each id of a message, and its length. *)
Definition byte_back (l : list Z) (n : nat) : Z := default 0 (reverse l !! n).
Definition sha (l : list Z) : list Z :=
  replicate 24 0 ++
  map (fun x => x mod 256) (map (byte_back l) [65; 64; 33; 32; 2; 1; 0]%nat ++ [Z.of_nat (length l)]).

Lemma sha_shape : digest_shape sha.
Proof.
  intros l. split; [done|]. apply Forall_app. split; [by apply Forall_replicate|].
  apply Forall_forall. intros x (y & -> & _)%list_elem_of_fmap. apply Z.mod_pos_bound. lia.
Qed.

Definition ids : gset Z := {[ 1; 3; 7 ]}.

Lemma ids_fit x : x ∈ ids -> is_u256 x.
Proof. unfold ids. rewrite !elem_of_union, !elem_of_singleton. intros [[-> | ->] | ->]; by vm_compute. Qed.

Lemma sha_apart : token_apart sha ids.
Proof.
  apply NoDup_collision_free. apply (bool_decide_unpack _).
  vm_compute. exact I.
Qed.

(** Mint 7, of authority 1, who gives and lends to 3. *)
Definition ops : list TokenOp :=
  [OpCreateMint 7 6 1; OpMintTo 7 1 100 1; OpMintTo 7 3 5 3; OpTransfer 7 1 3 30;
   OpApprove 7 1 3 50; OpTransferFrom 7 3 1 3 20; OpTransferFrom 7 3 1 3 40;
   OpRegister 3 7 1 3; OpEnsure 3 7 1 1].

Lemma ops_ok : Forall (token_op_ok ids) ops.
Proof.
  repeat constructor; cbn; unfold ids; try set_solver; unfold is_byte, is_u64, u64_max; lia.
Qed.
End SampleToken.

Lemma token_ledger_refines_witness :
  let answers := snd (token_ops SampleToken.sha state_new SampleToken.ops) in
  answers = snd (ledger_ops (runtime_erc20_address_for_mint SampleToken.sha) empty_ledger SampleToken.ops) /\
  answers = [Ok tt; Ok tt; Err "caller is not the mint authority"; Ok tt; Ok tt; Ok tt;
             Err "allowance too low"; Ok tt; Err "token account already exists with different metadata"].
Proof.
  split; [|by vm_compute].
  apply (token_ledger_refines SampleToken.sha SampleToken.ids state_new empty_ledger SampleToken.ops
    SampleToken.sha_shape SampleToken.sha_apart SampleToken.ids_fit
    (empty_ledger_spells _ _ state_new eq_refl) (empty_ledger_ok _) SampleToken.ops_ok).
Defined.

Lemma supply_backed_witness :
  let t' := fst (token_ops SampleToken.sha state_new SampleToken.ops) in
  match get_mint_meta SampleToken.sha t' 7 with
  | Some meta =>
      supply meta = Zsum ((fun o => balance_of SampleToken.sha t' 7 o) <$> elements SampleToken.ids) /\
      is_u64 (supply meta)
  | None => forall o, o ∈ SampleToken.ids -> balance_of SampleToken.sha t' 7 o = 0
  end /\
  supply <$> get_mint_meta SampleToken.sha t' 7 = Some 100 /\
  balance_of SampleToken.sha t' 7 1 = 50 /\ balance_of SampleToken.sha t' 7 3 = 50.
Proof.
  split; [|by vm_compute].
  apply (supply_backed SampleToken.sha SampleToken.ids state_new SampleToken.ops 7
    SampleToken.sha_shape SampleToken.sha_apart SampleToken.ids_fit eq_refl SampleToken.ops_ok).
  unfold SampleToken.ids. set_solver.
Defined.

Lemma zero_decimals_mint_lost_witness :
  exists t1 changes,
    create_mint SampleToken.sha 7 0 1 state_new = (t1, Ok changes) /\
    get_mint_meta SampleToken.sha t1 7 = None /\
    snd (mint_to_owner SampleToken.sha 7 3 5 1 t1) = Err "mint does not exist" /\
    exists t2 changes2, create_mint SampleToken.sha 7 6 3 t1 = (t2, Ok changes2) /\
      authority <$> get_mint_meta SampleToken.sha t2 7 = Some 3.
Proof.
  apply (zero_decimals_mint_lost SampleToken.sha SampleToken.ids state_new empty_ledger 7 1 3 3 5
    SampleToken.sha_shape SampleToken.sha_apart SampleToken.ids_fit
    (empty_ledger_spells _ _ state_new eq_refl) (empty_ledger_ok _)).
  - unfold SampleToken.ids. set_solver.
  - unfold SampleToken.ids. set_solver.
  - unfold u64_max. lia.
  - reflexivity.
Defined.
