(* ===== verification/RawSolana.v ===== *)
(** Raw Solana transactions (ace-n-vm/src/raw_solana.rs): the parser of legacy
    and version 0 messages, the supported instructions and their canonical
    payloads, and the verification against the state with its replay marker.

    Offsets are natural numbers: they are bounded by the length of the input
    plus 2^22, so that [usize] does not wrap.  A slice or index out of bounds
    would panic; it is [NVmPanic] here, and so is the panic of the address
    derivation.  Ed25519 is third-party code, the class [Ed25519]. *)

From S2P Require Import Prelude SigAlgo ValidatorSet Account StateTree Slots StateM.
From S2P Require Import Wire Payload Transaction Engine Vm Token.
Local Open Scope Z_scope.
Local Open Scope ace_scope.

(** [VerifyingKey::verify_strict] of a key, a message and a signature. *)
Class Ed25519 := {
  ed25519_verify_strict : Z -> list Z -> list Z -> bool;
}.

Definition SOLANA_RECENT_BLOCKHASH_WINDOW : Z := 10.
Definition SOLANA_SYSTEM_PROGRAM_ID : Z := 0.
Definition SOLANA_SYSTEM_TRANSFER_DISCRIMINANT : Z := 2.
Definition SPL_TRANSFER_DISCRIMINANT : Z := 3.
Definition SPL_TRANSFER_CHECKED_DISCRIMINANT : Z := 12.
Definition ASSOCIATED_TOKEN_CREATE_DISCRIMINANT : Z := 0.
Definition ASSOCIATED_TOKEN_CREATE_IDEMPOTENT_DISCRIMINANT : Z := 1.

Record VerifiedSolanaTransfer := {
  sol_signer_pubkey : Z;
  sol_sender_idcom : AccountId;
  sol_recipient_idcom : AccountId;
  sol_amount : Z;
  sol_recent_slot : Z;
  sol_canonical_payload : list Z;
  sol_first_signature : list Z;
  sol_replay_slot : Z;
}.

Record ParsedSolanaTransfer := {
  pt_signer_pubkey : Z;
  pt_recipient_pubkey : Z;
  pt_amount : Z;
  pt_recent_blockhash : Z;
  pt_first_signature : list Z;
  pt_canonical_payload : list Z;
}.

Record ParsedInstruction := {
  pi_program_id : Z;
  pi_accounts : list Z;
  pi_data : list Z;
}.

Record ParsedSolanaMessage := {
  pm_signer_pubkey : Z;
  pm_recent_blockhash : Z;
  pm_instructions : list ParsedInstruction;
  pm_first_signature : list Z;
}.

Record ParsedAtaCreate := {
  ata_token_account : Z;
  ata_owner_pubkey : Z;
  ata_mint : Z;
  ata_idempotent : bool;
}.

(* ------------------------------------------------------------------ *)
(** * Reading *)

(** [data[p..p + n]], [data[i]], and 32 bytes as an id. *)
Definition sub (p n : nat) (data : list Z) : result NVmError (list Z) :=
  if (p + n <=? length data)%nat then Ok (take n (drop p data)) else Err NVmPanic.
Definition index {A} (l : list A) (i : nat) : result NVmError A := ok_or (l !! i) NVmPanic.
Definition sub_key (p : nat) (data : list Z) : result NVmError Z :=
  let? b := sub p 32 data in Ok (be_num b).
Definition sub_u64 (p : nat) (data : list Z) : result NVmError Z :=
  let? b := sub p 8 data in Ok (le_num b).

Definition ensure_remaining (data : list Z) (offset needed : nat) (ctx : string)
    : result NVmError unit :=
  if (length data <? offset + needed)%nat then raw_err ("Solana tx: truncated " +:+ ctx) else Ok tt.

(** The value and the offset after it. *)
Definition decode_compact_u16 (data : list Z) (offset : nat) : result NVmError (nat * nat) :=
  match data !! offset with
  | None => raw_err "compact-u16: unexpected end"
  | Some byte0 =>
      if byte0 <? 128 then Ok (Z.to_nat byte0, offset + 1)%nat
      else
        match data !! (offset + 1)%nat with
        | None => raw_err "compact-u16: truncated"
        | Some byte1 =>
            let value := Z.lor (Z.land byte0 127) (Z.shiftl (Z.land byte1 127) 7) in
            if byte1 <? 128 then Ok (Z.to_nat value, offset + 2)%nat
            else
              match data !! (offset + 2)%nat with
              | None => raw_err "compact-u16: truncated (3rd byte)"
              | Some byte2 =>
                  Ok (Z.to_nat (Z.lor value (Z.shiftl (Z.land byte2 3) 14)), offset + 3)%nat
              end
        end
  end.

(** The loop over the account keys. *)
Fixpoint read_keys (n : nat) (data : list Z) (offset : nat) : result NVmError (list Z * nat) :=
  match n with
  | O => Ok ([], offset)
  | S n =>
      let? key := sub_key offset data in
      let? (keys, offset) := read_keys n data (offset + 32) in
      Ok (key :: keys, offset)
  end.

(** The loop over the account indices of an instruction. *)
Fixpoint read_accounts (n : nat) (data : list Z) (offset : nat) (account_keys : list Z)
    : result NVmError (list Z * nat) :=
  match n with
  | O => Ok ([], offset)
  | S n =>
      let? b := index data offset in
      let? key := ok_or (account_keys !! Z.to_nat b)
                    (RawChainVerify "Solana tx: account index  out of range") in
      let? (accounts, offset) := read_accounts n data (offset + 1) account_keys in
      Ok (key :: accounts, offset)
  end.

Definition read_instruction (data : list Z) (offset : nat) (account_keys : list Z)
    : result NVmError (ParsedInstruction * nat) :=
  let? _ := ensure_remaining data offset 1 "program_id_index" in
  let? program_id_index := index data offset in
  let offset := (offset + 1)%nat in
  let? program_id := ok_or (account_keys !! Z.to_nat program_id_index)
                       (RawChainVerify "Solana tx: program_id_index  out of range") in
  let? (num_ix_accounts, offset) := decode_compact_u16 data offset in
  let? _ := ensure_remaining data offset num_ix_accounts "instruction account indices" in
  let? (accounts, offset) := read_accounts num_ix_accounts data offset account_keys in
  let? (data_len, offset) := decode_compact_u16 data offset in
  let? _ := ensure_remaining data offset data_len "instruction data" in
  let? ix_data := sub offset data_len data in
  Ok ({| pi_program_id := program_id; pi_accounts := accounts; pi_data := ix_data |},
      (offset + data_len)%nat).

Fixpoint read_instructions (n : nat) (data : list Z) (offset : nat) (account_keys : list Z)
    : result NVmError (list ParsedInstruction * nat) :=
  match n with
  | O => Ok ([], offset)
  | S n =>
      let? (ix, offset) := read_instruction data offset account_keys in
      let? (ixs, offset) := read_instructions n data offset account_keys in
      Ok (ix :: ixs, offset)
  end.

Section solana.
Context {CE : CryptoEnv} {Spl : SplEnv} {Ed : Ed25519}.

(** One signature: the key must be a point, and the signature strict. *)
Definition check_signature (key : Z) (message sig : list Z) : result NVmError unit :=
  if negb (is_ed25519_point key) then raw_err "invalid Ed25519 pubkey: "
  else if negb (ed25519_verify_strict key message sig) then
    raw_err "Ed25519 signature invalid for signer "
  else Ok tt.

(** The loop over the signers, from [idx] on. *)
Fixpoint check_signatures (n : nat) (idx : nat) (data : list Z) (signatures_start : nat)
    (keys : list Z) (message : list Z) : result NVmError unit :=
  match n with
  | O => Ok tt
  | S n =>
      let? key := index keys idx in
      let? sig := sub (signatures_start + idx * 64) 64 data in
      let? _ := check_signature key message sig in
      check_signatures n (S idx) data signatures_start keys message
  end.

(** The version byte: whether the message has one. *)
Definition message_version (message : list Z) : result NVmError bool :=
  match message with
  | [] => raw_err "Solana tx: missing message"
  | b :: _ =>
      if negb (Z.land b 128 =? 0) then
        if negb (Z.land b 127 =? 0) then raw_err "unsupported Solana message version "
        else Ok true
      else Ok false
  end.

Definition parse_message (raw_bytes : list Z) : result NVmError ParsedSolanaMessage :=
  if (length raw_bytes <? 3)%nat then raw_err "Solana tx too short"
  else
    let? (num_signatures, offset) := decode_compact_u16 raw_bytes 0 in
    if (num_signatures =? 0)%nat then raw_err "Solana tx has no signatures"
    else
      let signatures_start := offset in
      let signatures_len := (num_signatures * 64)%nat in
      let? _ := ensure_remaining raw_bytes offset signatures_len "signatures" in
      let message_start := (offset + signatures_len)%nat in
      let message_bytes := drop message_start raw_bytes in
      let? versioned := message_version message_bytes in
      let message_header_start := (message_start + if versioned : bool then 1 else 0)%nat in
      let? _ := ensure_remaining raw_bytes message_header_start 3 "message header" in
      let? num_required := index raw_bytes message_header_start in
      let num_required_sigs := Z.to_nat num_required in
      if (num_required_sigs =? 0)%nat then raw_err "Solana tx: num_required_signatures is 0"
      else if negb (num_required_sigs =? num_signatures)%nat then
        raw_err "Solana tx: signature count  does not match num_required_signatures "
      else
        let? first_signature := sub signatures_start 64 raw_bytes in
        let? (num_account_keys, offset) :=
          decode_compact_u16 raw_bytes (message_header_start + 3) in
        if (num_account_keys =? 0)%nat then raw_err "Solana tx: no account keys"
        else if (num_account_keys <? num_required_sigs)%nat then
          raw_err "Solana tx: account key count  is smaller than required signers "
        else
          let? _ := ensure_remaining raw_bytes offset (32 * num_account_keys) "account keys" in
          let? (account_keys, offset) := read_keys num_account_keys raw_bytes offset in
          let? _ := ensure_remaining raw_bytes offset 32 "recent_blockhash" in
          let? recent_blockhash := sub_key offset raw_bytes in
          let? (num_instructions, offset) := decode_compact_u16 raw_bytes (offset + 32) in
          let? (instructions, offset) :=
            read_instructions num_instructions raw_bytes offset account_keys in
          let? offset :=
            (if versioned then
               let? (lookup_count, offset) := decode_compact_u16 raw_bytes offset in
               if negb (lookup_count =? 0)%nat then
                 raw_err "Solana address lookup tables are not supported yet"
               else Ok offset
             else Ok offset) in
          if negb (offset =? length raw_bytes)%nat then
            raw_err "unexpected trailing bytes in Solana transaction"
          else
            let? _ := check_signatures num_required_sigs 0 raw_bytes signatures_start account_keys
                        message_bytes in
            let? signer := index account_keys 0 in
            Ok {| pm_signer_pubkey := signer; pm_recent_blockhash := recent_blockhash;
                  pm_instructions := instructions; pm_first_signature := first_signature |}.

(** The keys of the signers alone, as [verify_raw_solana_recover_signer] reads
    them, one at a time before each check. *)
Fixpoint check_signers (n : nat) (idx : nat) (data : list Z) (keys_start signatures_start : nat)
    (message : list Z) : result NVmError unit :=
  match n with
  | O => Ok tt
  | S n =>
      let? key := sub_key (keys_start + idx * 32) data in
      let? sig := sub (signatures_start + idx * 64) 64 data in
      let? _ := check_signature key message sig in
      check_signers n (S idx) data keys_start signatures_start message
  end.

Definition verify_raw_solana_recover_signer (raw_bytes : list Z) : result NVmError Z :=
  if (length raw_bytes <? 3)%nat then raw_err "Solana tx too short"
  else
    let? (sig_count, offset) := decode_compact_u16 raw_bytes 0 in
    if (sig_count =? 0)%nat then raw_err "Solana tx has no signatures"
    else
      let signatures_len := (sig_count * 64)%nat in
      if (length raw_bytes <? offset + signatures_len)%nat then
        raw_err "Solana tx: truncated signatures"
      else
        let signatures_start := offset in
        let message_start := (offset + signatures_len)%nat in
        let message_bytes := drop message_start raw_bytes in
        let? versioned := message_version message_bytes in
        let message_offset := if versioned : bool then 1%nat else 0%nat in
        if (length message_bytes <? message_offset + 3)%nat then
          raw_err "Solana tx: message header too short"
        else
          let? num_required := index message_bytes message_offset in
          let num_required_sigs := Z.to_nat num_required in
          if (num_required_sigs =? 0)%nat then raw_err "Solana tx: num_required_signatures is 0"
          else if negb (num_required_sigs =? sig_count)%nat then
            raw_err "Solana tx: signature count  does not match num_required_signatures "
          else
            let? (num_account_keys, offset) :=
              decode_compact_u16 raw_bytes (message_start + message_offset + 3) in
            if (num_account_keys =? 0)%nat then raw_err "Solana tx: no account keys"
            else if (num_account_keys <? num_required_sigs)%nat then
              raw_err "Solana tx: account key count  is smaller than required signers "
            else if (length raw_bytes <? offset + 32 * num_required_sigs)%nat then
              raw_err "Solana tx: truncated signer key list"
            else
              let? _ := check_signers num_required_sigs 0 raw_bytes offset signatures_start
                          message_bytes in
              sub_key offset raw_bytes.

(* ------------------------------------------------------------------ *)
(** * Canonical payloads *)

Definition build_transfer_payload (recipient_idcom : AccountId) (amount : Z) : list Z :=
  [33] ++ be_bytes 32 recipient_idcom ++ le_bytes 8 amount.

(** A call of the token program: opcode 0x20, program, accounts, instruction. *)
Definition token_payload (accounts : list Z) (data : list Z) : list Z :=
  [32] ++ be_bytes 32 TOKEN_PROGRAM_ID ++ [Z.of_nat (length accounts)] ++
  concat (be_bytes 32 <$> accounts) ++ data.

Definition parsed_transfer (parsed : ParsedSolanaMessage) (recipient amount : Z)
    (payload : list Z) : ParsedSolanaTransfer :=
  {| pt_signer_pubkey := pm_signer_pubkey parsed; pt_recipient_pubkey := recipient;
     pt_amount := amount; pt_recent_blockhash := pm_recent_blockhash parsed;
     pt_first_signature := pm_first_signature parsed; pt_canonical_payload := payload |}.

Definition parse_native_transfer (parsed : ParsedSolanaMessage) (ix : ParsedInstruction)
    : result NVmError ParsedSolanaTransfer :=
  if (length (pi_accounts ix) <? 2)%nat then
    raw_err "SystemProgram transfer requires source and destination accounts"
  else
    let? source := index (pi_accounts ix) 0 in
    if negb (source =? pm_signer_pubkey parsed) then
      raw_err "ACE currently supports only fee-payer sourced Solana transfers"
    else if negb (length (pi_data ix) =? 12)%nat then
      raw_err "ACE currently supports only SystemProgram::Transfer instruction data"
    else
      let? discriminant := sub 0 4 (pi_data ix) in
      if negb (le_num discriminant =? SOLANA_SYSTEM_TRANSFER_DISCRIMINANT) then
        raw_err "ACE currently supports only Solana native lamport transfers"
      else
        let? amount := sub_u64 4 (pi_data ix) in
        let? recipient := index (pi_accounts ix) 1 in
        Ok (parsed_transfer parsed recipient amount
              (build_transfer_payload (legacy_idcom_solana env_sha256 recipient) amount)).

Definition parse_spl_transfer (parsed : ParsedSolanaMessage) (ix : ParsedInstruction)
    : result NVmError ParsedSolanaTransfer :=
  let accounts := pi_accounts ix in
  let data := pi_data ix in
  if bool_decide (head data = Some SPL_TRANSFER_DISCRIMINANT) then
    if (length accounts <? 3)%nat || negb (length data =? 9)%nat then
      raw_err "SPL Token Transfer requires source, destination, authority, amount"
    else
      let? amount := sub_u64 1 data in
      let? a0 := index accounts 0 in
      let? a1 := index accounts 1 in
      let? a2 := index accounts 2 in
      Ok (parsed_transfer parsed a1 amount (token_payload [a0; a1; a2] ([17] ++ le_bytes 8 amount)))
  else if bool_decide (head data = Some SPL_TRANSFER_CHECKED_DISCRIMINANT) then
    if (length accounts <? 4)%nat || negb (length data =? 10)%nat then
      raw_err "SPL Token TransferChecked requires source, mint, destination, authority, amount, decimals"
    else
      let? amount := sub_u64 1 data in
      let? decimals := index data 9 in
      let? a0 := index accounts 0 in
      let? a1 := index accounts 1 in
      let? a2 := index accounts 2 in
      let? a3 := index accounts 3 in
      Ok (parsed_transfer parsed a2 amount
            (token_payload [a0; a1; a2; a3] ([18] ++ le_bytes 8 amount ++ [decimals])))
  else raw_err "ACE currently supports only SPL Transfer/TransferChecked".

(** A derivation that panics when it finds no address. *)
Definition expected_ata (owner_sol_pubkey mint : Z) : result NVmError Z :=
  ok_or (derive_associated_token_address env_sha256 owner_sol_pubkey mint) NVmPanic.

Definition parse_ata_create (parsed : ParsedSolanaMessage) (ix : ParsedInstruction)
    : result NVmError ParsedAtaCreate :=
  let accounts := pi_accounts ix in
  if (length accounts <? 4)%nat then
    raw_err "Associated Token create requires payer, ata, owner, mint"
  else
    let? payer := index accounts 0 in
    if negb (payer =? pm_signer_pubkey parsed) then
      raw_err "ACE currently supports only fee-payer initiated ATA creation"
    else
      let discriminant := default 0 (head (pi_data ix)) in
      let? idempotent :=
        (if discriminant =? ASSOCIATED_TOKEN_CREATE_DISCRIMINANT then Ok false
         else if discriminant =? ASSOCIATED_TOKEN_CREATE_IDEMPOTENT_DISCRIMINANT then Ok true
         else raw_err "ACE currently supports only ATA Create/CreateIdempotent") in
      let? owner := index accounts 2 in
      let? mint := index accounts 3 in
      let? expected := expected_ata owner mint in
      let? ata := index accounts 1 in
      if negb (ata =? expected) then raw_err "ATA address does not match owner+mint derivation"
      else Ok {| ata_token_account := ata; ata_owner_pubkey := owner; ata_mint := mint;
                 ata_idempotent := idempotent |}.

Definition parse_associated_token_account_create (parsed : ParsedSolanaMessage)
    (ix : ParsedInstruction) : result NVmError ParsedSolanaTransfer :=
  let? ata := parse_ata_create parsed ix in
  Ok (parsed_transfer parsed (ata_owner_pubkey ata) 0
        (token_payload [ata_token_account ata; ata_mint ata; ata_owner_pubkey ata]
           [if ata_idempotent ata then 21 else 16])).

Definition parse_ata_then_spl_transfer (parsed : ParsedSolanaMessage) (ata_ix ix : ParsedInstruction)
    : result NVmError ParsedSolanaTransfer :=
  let? ata := parse_ata_create parsed ata_ix in
  let accounts := pi_accounts ix in
  let data := pi_data ix in
  if bool_decide (head data = Some SPL_TRANSFER_DISCRIMINANT) then
    if (length accounts <? 3)%nat || negb (length data =? 9)%nat then
      raw_err "SPL Token Transfer requires source, destination, authority, amount"
    else
      let? a1 := index accounts 1 in
      if negb (a1 =? ata_token_account ata) then
        raw_err "ATA destination does not match SPL transfer destination"
      else
        let? amount := sub_u64 1 data in
        let? a0 := index accounts 0 in
        let? a2 := index accounts 2 in
        Ok (parsed_transfer parsed (ata_owner_pubkey ata) amount
              (token_payload [a0; a1; a2; ata_owner_pubkey ata] ([19] ++ le_bytes 8 amount)))
  else if bool_decide (head data = Some SPL_TRANSFER_CHECKED_DISCRIMINANT) then
    if (length accounts <? 4)%nat || negb (length data =? 10)%nat then
      raw_err "SPL Token TransferChecked requires source, mint, destination, authority, amount, decimals"
    else
      let? a1 := index accounts 1 in
      let? a2 := index accounts 2 in
      if negb (a1 =? ata_mint ata) || negb (a2 =? ata_token_account ata) then
        raw_err "ATA mint/destination does not match SPL transferChecked"
      else
        let? amount := sub_u64 1 data in
        let? decimals := index data 9 in
        let? a0 := index accounts 0 in
        let? a3 := index accounts 3 in
        Ok (parsed_transfer parsed (ata_owner_pubkey ata) amount
              (token_payload [a0; a1; a2; a3; ata_owner_pubkey ata]
                 ([20] ++ le_bytes 8 amount ++ [decimals])))
  else raw_err "ACE currently supports only SPL Transfer/TransferChecked after ATA create".

Definition parse_supported_transfer (raw_bytes : list Z) : result NVmError ParsedSolanaTransfer :=
  let unsupported := raw_err
    "ACE currently supports only SystemProgram transfer, SPL transfer, and ATA create(+transfer) ingress" in
  let? parsed := parse_message raw_bytes in
  match pm_instructions parsed with
  | [ix] =>
      if pi_program_id ix =? SOLANA_SYSTEM_PROGRAM_ID then parse_native_transfer parsed ix
      else if pi_program_id ix =? spl_token_program_id then parse_spl_transfer parsed ix
      else if pi_program_id ix =? associated_token_program_id then
        parse_associated_token_account_create parsed ix
      else unsupported
  | [ata_ix; transfer_ix] =>
      if (pi_program_id ata_ix =? associated_token_program_id) &&
         (pi_program_id transfer_ix =? spl_token_program_id)
      then parse_ata_then_spl_transfer parsed ata_ix transfer_ix
      else unsupported
  | _ => unsupported
  end.

(* ------------------------------------------------------------------ *)
(** * Freshness and replay *)

Definition derive_ace_solana_blockhash (chain_id slot : Z) : Z :=
  digest env_sha256 (ascii_bytes "ACE-SOL-BLOCKHASH-V1" ++ le_bytes 4 chain_id ++ le_bytes 8 slot).

(** The latest slot of the window whose hash it is. *)
Definition recover_recent_ace_solana_slot (chain_id current_slot recent_blockhash : Z) : option Z :=
  let start := u64_saturating_sub current_slot SOLANA_RECENT_BLOCKHASH_WINDOW in
  List.find (fun slot => derive_ace_solana_blockhash chain_id slot =? recent_blockhash)
    (reverse (seqZ start (current_slot - start + 1))).

Definition solana_signature_replay_slot (signature : list Z) : Z :=
  digest env_sha256 (ascii_bytes "ACE-SOL-REPLAY-V1" ++ signature).

Definition extract_first_solana_signature (raw_bytes : list Z) : result NVmError (list Z) :=
  let? (num_signatures, offset) := decode_compact_u16 raw_bytes 0 in
  if (num_signatures =? 0)%nat then raw_err "Solana tx has no signatures"
  else if (length raw_bytes <? offset + 64)%nat then
    raw_err "Solana tx: truncated first signature"
  else sub offset 64 raw_bytes.

(* ------------------------------------------------------------------ *)
(** * Verification against the state *)

Definition token_meta (t : StateTree) (token_account : Z) (msg : string)
    : result NVmError TokenAccountMeta :=
  ok_or (get_token_account_meta env_sha256 t token_account) (RawChainVerify msg).

(** [if let Some(destination) = .. else if derive(..) != account]. *)
Definition validate_destination (t : StateTree) (account mint owner : Z) : result NVmError unit :=
  match get_token_account_meta env_sha256 t account with
  | Some destination =>
      if negb (ta_mint destination =? mint) || negb (owner_sol_pubkey destination =? owner) then
        raw_err "destination token account metadata mismatch"
      else Ok tt
  | None =>
      let? expected := expected_ata owner mint in
      if negb (expected =? account) then
        raw_err "destination token account is not the expected ATA"
      else Ok tt
  end.

Definition validate_authority (source : TokenAccountMeta) (sender_idcom account : Z)
    : result NVmError unit :=
  if negb (owner_idcom source =? sender_idcom) || negb (account =? owner_sol_pubkey source) then
    raw_err "spl transfer authority mismatch"
  else Ok tt.

Definition validate_decimals (t : StateTree) (mint decimals : Z) : result NVmError unit :=
  let? meta := ok_or (get_mint_meta env_sha256 t mint) (RawChainVerify "mint does not exist") in
  if negb (Token.decimals meta =? decimals) then raw_err "spl transferChecked decimals mismatch"
  else Ok tt.

(** The arms of the match on the instruction of a token payload. *)
Definition validate_instruction (t : StateTree) (sender_idcom : AccountId) (accounts data : list Z)
    : result NVmError unit :=
  let too_few n m := (length accounts <? n)%nat || (length data <? m)%nat in
  match head data with
  | Some 17 =>
      if too_few 3%nat 9%nat then raw_err "invalid canonical spl transfer payload"
      else
        let? a0 := index accounts 0 in
        let? a1 := index accounts 1 in
        let? a2 := index accounts 2 in
        let? source := token_meta t a0 "unknown source token account" in
        let? destination := token_meta t a1 "unknown destination token account" in
        let? _ := validate_authority source sender_idcom a2 in
        if negb (ta_mint source =? ta_mint destination) then raw_err "spl transfer mint mismatch"
        else Ok tt
  | Some 18 =>
      if too_few 4%nat 10%nat then raw_err "invalid canonical spl transferChecked payload"
      else
        let? a0 := index accounts 0 in
        let? a1 := index accounts 1 in
        let? a2 := index accounts 2 in
        let? a3 := index accounts 3 in
        let? source := token_meta t a0 "unknown source token account" in
        let? destination := token_meta t a2 "unknown destination token account" in
        let? _ := validate_authority source sender_idcom a3 in
        if negb (ta_mint source =? a1) || negb (ta_mint destination =? a1) then
          raw_err "spl transferChecked mint mismatch"
        else
          let? d := index data 9 in
          validate_decimals t a1 d
  | Some 19 =>
      if too_few 4%nat 9%nat then raw_err "invalid canonical spl transfer-with-ata payload"
      else
        let? a0 := index accounts 0 in
        let? a1 := index accounts 1 in
        let? a2 := index accounts 2 in
        let? a3 := index accounts 3 in
        let? source := token_meta t a0 "unknown source token account" in
        let? _ := validate_authority source sender_idcom a2 in
        validate_destination t a1 (ta_mint source) a3
  | Some 20 =>
      if too_few 5%nat 10%nat then raw_err "invalid canonical spl transferChecked-with-ata payload"
      else
        let? a0 := index accounts 0 in
        let? a1 := index accounts 1 in
        let? a2 := index accounts 2 in
        let? a3 := index accounts 3 in
        let? a4 := index accounts 4 in
        let? source := token_meta t a0 "unknown source token account" in
        let? _ := validate_authority source sender_idcom a3 in
        if negb (ta_mint source =? a1) then raw_err "spl transferChecked source mint mismatch"
        else
          let? d := index data 9 in
          let? _ := validate_decimals t a1 d in
          validate_destination t a2 a1 a4
  | Some 21 =>
      if too_few 3%nat 0%nat then raw_err "invalid canonical ensure-token-account payload"
      else
        let? a0 := index accounts 0 in
        let? a1 := index accounts 1 in
        let? a2 := index accounts 2 in
        let? _ := ok_or (get_mint_meta env_sha256 t a1) (RawChainVerify "mint does not exist") in
        let? expected := expected_ata a2 a1 in
        if negb (expected =? a0) then raw_err "token account does not match ATA derivation"
        else Ok tt
  | _ => Ok tt
  end.

Definition validate_runtime_token_payload (t : StateTree) (sender_idcom : AccountId)
    (payload : list Z) : result NVmError unit :=
  if negb (bool_decide (head payload = Some 32)) then Ok tt
  else if (length payload <? 34)%nat then raw_err "solana canonical payload too short"
  else
    let? program_id := sub_key 1 payload in
    if negb (program_id =? TOKEN_PROGRAM_ID) then Ok tt
    else
      let? n := index payload 33 in
      let num_accounts := Z.to_nat n in
      let accounts_end := (34 + num_accounts * 32)%nat in
      if (length payload <? accounts_end + 1)%nat then
        raw_err "solana token canonical payload truncated"
      else
        let? (accounts, _) := read_keys num_accounts payload 34 in
        validate_instruction t sender_idcom accounts (drop accounts_end payload).

(** What the two verifiers share after the recent blockhash. *)
Definition accept_transfer (t : StateTree) (parsed : ParsedSolanaTransfer) (recent_slot : Z)
    : result NVmError VerifiedSolanaTransfer :=
  let sender := legacy_idcom_solana env_sha256 (pt_signer_pubkey parsed) in
  let replay_slot := solana_signature_replay_slot (pt_first_signature parsed) in
  if negb (bool_decide (is_Some (accounts t !! sender))) then
    raw_err "Solana sender account does not exist on ACE"
  else if negb (get_storage t sender replay_slot =? 0) then
    raw_err "Solana transaction signature has already been used on ACE"
  else
    let? _ := validate_runtime_token_payload t sender (pt_canonical_payload parsed) in
    Ok {| sol_signer_pubkey := pt_signer_pubkey parsed; sol_sender_idcom := sender;
          sol_recipient_idcom := legacy_idcom_solana env_sha256 (pt_recipient_pubkey parsed);
          sol_amount := pt_amount parsed; sol_recent_slot := recent_slot;
          sol_canonical_payload := pt_canonical_payload parsed;
          sol_first_signature := pt_first_signature parsed; sol_replay_slot := replay_slot |}.

Definition verify_raw_solana_transfer_against_state (t : StateTree) (raw_bytes : list Z)
    (chain_id current_slot : Z) : result NVmError VerifiedSolanaTransfer :=
  let? parsed := parse_supported_transfer raw_bytes in
  match recover_recent_ace_solana_slot chain_id current_slot (pt_recent_blockhash parsed) with
  | None => raw_err "Solana recent_blockhash is unknown or expired for ACE"
  | Some recent_slot => accept_transfer t parsed recent_slot
  end.

Definition verify_raw_solana_transfer_for_slot (t : StateTree) (raw_bytes : list Z)
    (chain_id expected_slot : Z) : result NVmError VerifiedSolanaTransfer :=
  let? parsed := parse_supported_transfer raw_bytes in
  let expected_hash := derive_ace_solana_blockhash chain_id expected_slot in
  if negb (pt_recent_blockhash parsed =? expected_hash) then
    raw_err "Solana recent_blockhash does not match ACE domain slot"
  else accept_transfer t parsed expected_slot.
End solana.

(* ------------------------------------------------------------------ *)
(** * No panics *)

Definition calm {A} (r : result NVmError A) : Prop := r <> Err NVmPanic.

Lemma calm_bind {A B} (r : result NVmError A) (k : A -> result NVmError B) :
  calm r -> (forall a, r = Ok a -> calm (k a)) -> calm (rbind r k).
Proof. unfold calm. destruct r; cbn; [auto|congruence]. Qed.

Lemma calm_if {A} (c : bool) (r r' : result NVmError A) :
  (c = true -> calm r) -> (c = false -> calm r') -> calm (if c then r else r').
Proof. destruct c; auto. Qed.

Lemma calm_ok {A} (a : A) : calm (Ok a).
Proof. done. Qed.

Lemma calm_raw {A} msg : calm (raw_err msg : result NVmError A).
Proof. done. Qed.

Lemma calm_sub p n data : (p + n <= length data)%nat -> calm (sub p n data).
Proof. intros H. unfold sub. by rewrite (proj2 (Nat.leb_le _ _) H). Qed.

Lemma calm_key p data : (p + 32 <= length data)%nat -> calm (sub_key p data).
Proof. intros H. apply calm_bind; [by apply calm_sub|done]. Qed.

Lemma calm_u64 p data : (p + 8 <= length data)%nat -> calm (sub_u64 p data).
Proof. intros H. apply calm_bind; [by apply calm_sub|done]. Qed.

Lemma calm_index {A} (l : list A) i : (i < length l)%nat -> calm (index l i).
Proof. intros H. unfold index. by destruct (lookup_lt_is_Some_2 l i H) as [x ->]. Qed.

Lemma calm_ok_or {A} (o : option A) msg : calm (ok_or o (RawChainVerify msg)).
Proof. by destruct o. Qed.

Lemma ensure_ok data offset needed ctx :
  calm (ensure_remaining data offset needed ctx) /\
  (ensure_remaining data offset needed ctx = Ok tt -> (offset + needed <= length data)%nat).
Proof. unfold ensure_remaining. case_match eqn:E; split; try done. intros _. apply Nat.ltb_ge in E. lia. Qed.

Lemma calm_ensure data offset needed ctx : calm (ensure_remaining data offset needed ctx).
Proof. apply ensure_ok. Qed.

Lemma calm_compact data offset : calm (decode_compact_u16 data offset).
Proof. unfold decode_compact_u16. by repeat case_match. Qed.

Lemma compact_offset data offset n offset' :
  decode_compact_u16 data offset = Ok (n, offset') -> (offset < offset' <= length data)%nat.
Proof.
  unfold decode_compact_u16. intros H. repeat case_match; simplify_eq;
    repeat match goal with E : _ !! _ = Some _ |- _ => apply lookup_lt_Some in E end; lia.
Qed.

Lemma read_keys_spec n data offset :
  (offset + 32 * n <= length data)%nat ->
  exists keys, read_keys n data offset = Ok (keys, (offset + 32 * n)%nat) /\ length keys = n.
Proof.
  revert offset. induction n as [|n IH]; intros offset H; cbn [read_keys].
  { exists []. split; [do 2 f_equal; lia|done]. }
  unfold sub_key, sub. rewrite (proj2 (Nat.leb_le _ _)) by lia. cbn [rbind].
  destruct (IH (offset + 32)%nat) as (keys & -> & Hl); [lia|]. cbn [rbind].
  eexists. split; [do 2 f_equal; lia|]. cbn. by rewrite Hl.
Qed.

Lemma read_keys_ok n data offset keys offset' :
  read_keys n data offset = Ok (keys, offset') -> (offset + 32 * n <= length data)%nat ->
  length keys = n /\ offset' = (offset + 32 * n)%nat.
Proof.
  intros E H. destruct (read_keys_spec n data offset H) as (k & E' & Hk).
  rewrite E' in E. by injection E as <- <-.
Qed.

Lemma calm_keys n data offset :
  (offset + 32 * n <= length data)%nat -> calm (read_keys n data offset).
Proof. intros H. by destruct (read_keys_spec n data offset H) as (k & -> & _). Qed.

Lemma read_accounts_spec n data offset keys :
  (offset + n <= length data)%nat ->
  calm (read_accounts n data offset keys) /\
  forall accounts offset', read_accounts n data offset keys = Ok (accounts, offset') ->
    offset' = (offset + n)%nat.
Proof.
  revert offset. induction n as [|n IH]; intros offset H; cbn [read_accounts].
  { split; [done|]. intros ? ? [= _ <-]. lia. }
  destruct (IH (offset + 1)%nat) as [Hc Ho]; [lia|]. split.
  - apply calm_bind; [apply calm_index; lia|]. intros b _. apply calm_bind; [apply calm_ok_or|].
    intros key _. apply calm_bind; [done|]. by intros [].
  - intros accounts offset' (b & _ & (key & _ & ([l o] & E & [= _ <-])%rbind_ok)%rbind_ok)%rbind_ok.
    apply Ho in E. lia.
Qed.

Lemma read_instruction_calm data offset keys : calm (read_instruction data offset keys).
Proof.
  unfold read_instruction. apply calm_bind; [apply calm_ensure|]. intros [] E1.
  apply ensure_ok in E1. apply calm_bind; [apply calm_index; lia|]. intros b _.
  apply calm_bind; [apply calm_ok_or|]. intros program _. apply calm_bind; [apply calm_compact|].
  intros [n o] _. apply calm_bind; [apply calm_ensure|]. intros [] E2. apply ensure_ok in E2.
  destruct (read_accounts_spec n data o keys E2) as [Hc Ho]. apply calm_bind; [done|].
  intros [accounts o2] _. apply calm_bind; [apply calm_compact|]. intros [len o3] _.
  apply calm_bind; [apply calm_ensure|]. intros [] E3. apply ensure_ok in E3.
  apply calm_bind; [by apply calm_sub|done].
Qed.

Lemma read_instructions_calm n data offset keys : calm (read_instructions n data offset keys).
Proof.
  revert offset. induction n as [|n IH]; intros offset; cbn [read_instructions]; [done|].
  apply calm_bind; [apply read_instruction_calm|]. intros [ix o] _. apply calm_bind; [apply IH|].
  by intros [].
Qed.

(** Steps of the proof that a parser does not panic. *)
Ltac calm_step :=
  match goal with
  | |- calm (rbind _ _) => apply calm_bind; [|intros ? ?]
  | |- calm (if _ then _ else _) => apply calm_if; intros ?
  | |- calm (Ok _) => apply calm_ok
  | |- calm (raw_err _) => apply calm_raw
  | |- calm (ok_or _ (RawChainVerify _)) => apply calm_ok_or
  | |- calm (ensure_remaining _ _ _ _) => apply calm_ensure
  | |- calm (decode_compact_u16 _ _) => apply calm_compact
  | |- calm (index _ _) => apply calm_index
  | |- calm (sub _ _ _) => apply calm_sub
  | |- calm (sub_u64 _ _) => apply calm_u64
  | |- calm (sub_key _ _) => apply calm_key
  | |- calm (let '(_, _) := ?x in _) => is_var x; destruct x
  end; cbv beta iota zeta.

(** Lengths and indices from the tests of the code. *)
Ltac nat_prop :=
  repeat match goal with
  | H : _ || _ = false |- _ => apply orb_false_iff in H as [? ?]
  | H : negb _ = false |- _ => apply negb_false_iff in H
  | H : (_ <? _)%nat = false |- _ => apply Nat.ltb_ge in H
  | H : (_ =? _)%nat = true |- _ => apply Nat.eqb_eq in H
  | H : (_ =? _)%nat = false |- _ => apply Nat.eqb_neq in H
  | u : unit |- _ => destruct u
  | H : ensure_remaining _ _ _ _ = Ok tt |- _ => apply ensure_ok in H
  | H : read_keys _ _ _ = Ok _ |- _ => apply read_keys_ok in H as [? ?]; [|lia]
  end.

Section calm.
Context {CE : CryptoEnv} {Spl : SplEnv} {Ed : Ed25519}.

Lemma check_signature_calm key message sig : calm (check_signature key message sig).
Proof. unfold check_signature. repeat calm_step. Qed.

Lemma check_signatures_calm n idx data start keys message :
  (idx + n <= length keys)%nat -> (start + (idx + n) * 64 <= length data)%nat ->
  calm (check_signatures n idx data start keys message).
Proof.
  revert idx. induction n as [|n IH]; intros idx Hk Hd; cbn [check_signatures]; [done|].
  repeat calm_step; try lia; [apply check_signature_calm|]. apply IH; lia.
Qed.

Lemma check_signers_calm n idx data keys_start start message :
  (keys_start + (idx + n) * 32 <= length data)%nat -> (start + (idx + n) * 64 <= length data)%nat ->
  calm (check_signers n idx data keys_start start message).
Proof.
  revert idx. induction n as [|n IH]; intros idx Hk Hd; cbn [check_signers]; [done|].
  repeat calm_step; try lia; [apply check_signature_calm|]. apply IH; lia.
Qed.

Lemma message_version_calm l : calm (message_version l).
Proof. unfold message_version. by repeat case_match. Qed.

Lemma parse_message_calm raw : calm (parse_message raw).
Proof.
  unfold parse_message. repeat calm_step; nat_prop; try lia.
  - apply message_version_calm.
  - apply calm_keys. lia.
  - apply read_instructions_calm.
  - apply check_signatures_calm; cbn; lia.
Qed.

Lemma recover_signer_calm raw : calm (verify_raw_solana_recover_signer raw).
Proof.
  unfold verify_raw_solana_recover_signer. repeat calm_step; nat_prop; try lia.
  - apply message_version_calm.
  - apply check_signers_calm; cbn; lia.
Qed.

Lemma extract_calm raw : calm (extract_first_solana_signature raw).
Proof. unfold extract_first_solana_signature. repeat calm_step; nat_prop; lia. Qed.

(** Some bump gives an address off the curve. *)
Definition atas_exist : Prop :=
  forall owner mint, derive_associated_token_address env_sha256 owner mint <> None.

Hypothesis Hata : atas_exist.

Lemma expected_calm owner mint : calm (expected_ata owner mint).
Proof.
  unfold expected_ata. pose proof (Hata owner mint) as H.
  by destruct (derive_associated_token_address _ _ _).
Qed.

Lemma parse_supported_calm raw : calm (parse_supported_transfer raw).
Proof.
  assert (forall p ix, calm (parse_ata_create p ix)) as Ha.
  { intros p ix. unfold parse_ata_create. repeat calm_step; nat_prop; try lia. apply expected_calm. }
  unfold parse_supported_transfer. calm_step; [apply parse_message_calm|].
  destruct (pm_instructions _) as [|ix [|ix2 [|]]]; repeat calm_step.
  - unfold parse_native_transfer. repeat calm_step; nat_prop; lia.
  - unfold parse_spl_transfer. cbv zeta. repeat calm_step; nat_prop; lia.
  - unfold parse_associated_token_account_create. repeat calm_step. apply Ha.
  - unfold parse_ata_then_spl_transfer. cbv zeta. repeat calm_step; nat_prop; try lia. apply Ha.
Qed.

Lemma validate_destination_calm t a m o : calm (validate_destination t a m o).
Proof. unfold validate_destination. case_match; repeat calm_step. apply expected_calm. Qed.

Lemma validate_instruction_calm t sender accounts data :
  calm (validate_instruction t sender accounts data).
Proof.
  unfold validate_instruction, token_meta, validate_authority, validate_decimals. cbv zeta.
  destruct (head data) as [[|p|p]|]; try done.
  repeat match goal with |- calm (match ?p with _ => _ end) => is_var p; destruct p end; try done;
    repeat calm_step; nat_prop; try lia; first [apply expected_calm|apply validate_destination_calm].
Qed.

Lemma validate_calm t sender payload : calm (validate_runtime_token_payload t sender payload).
Proof.
  unfold validate_runtime_token_payload. repeat calm_step; nat_prop; try lia; [apply calm_keys; lia|].
  apply validate_instruction_calm.
Qed.

Lemma accept_calm t parsed slot : calm (accept_transfer t parsed slot).
Proof. unfold accept_transfer. cbv zeta. repeat calm_step. apply validate_calm. Qed.

(** No Solana transaction makes the node panic.  On any bytes, both
    verifications of a raw Solana transaction against the state, the recovery of
    its signer and the extraction of its first signature answer or fail with an
    error: no index or slice is out of bounds.  Assumed: for every owner and mint
    one of the 256 candidates for the associated account is off the curve. *)
Theorem solana_never_panics t raw chain slot :
  verify_raw_solana_transfer_for_slot t raw chain slot <> Err NVmPanic /\
  verify_raw_solana_transfer_against_state t raw chain slot <> Err NVmPanic /\
  verify_raw_solana_recover_signer raw <> Err NVmPanic /\
  extract_first_solana_signature raw <> Err NVmPanic.
Proof.
  split_and!.
  - apply calm_bind; [apply parse_supported_calm|]. intros p _. cbv zeta. repeat calm_step. apply accept_calm.
  - apply calm_bind; [apply parse_supported_calm|]. intros p _. case_match; [apply accept_calm|done].
  - apply recover_signer_calm.
  - apply extract_calm.
Qed.
End calm.

(* ------------------------------------------------------------------ *)
(** * Writing *)

(** The encoder of the tests of the source. *)
Definition encode_compact_u16 (n : nat) : list Z :=
  let value := Z.of_nat n in
  if value <? 128 then [value]
  else if value <? 16384 then
    [Z.lor (Z.land value 127) 128; Z.land (Z.shiftr value 7) 127]
  else
    [Z.lor (Z.land value 127) 128; Z.lor (Z.land (Z.shiftr value 7) 127) 128;
     Z.land (Z.shiftr value 14) 3].

(** A transaction as a wallet builds it: instructions name keys by position. *)
Record SolanaIx := {
  ix_program : nat;
  ix_accounts : list nat;
  ix_data : list Z;
}.

Record SolanaTx := {
  st_signatures : list (list Z);
  st_versioned : bool;
  st_readonly : Z * Z;
  st_keys : list Z;
  st_blockhash : Z;
  st_instructions : list SolanaIx;
}.

Definition encode_ix (ix : SolanaIx) : list Z :=
  [Z.of_nat (ix_program ix)] ++
  encode_compact_u16 (length (ix_accounts ix)) ++ (Z.of_nat <$> ix_accounts ix) ++
  encode_compact_u16 (length (ix_data ix)) ++ ix_data ix.

Definition encode_message (tx : SolanaTx) : list Z :=
  (if st_versioned tx then [128] else []) ++
  [Z.of_nat (length (st_signatures tx)); fst (st_readonly tx); snd (st_readonly tx)] ++
  encode_compact_u16 (length (st_keys tx)) ++ concat (be_bytes 32 <$> st_keys tx) ++
  be_bytes 32 (st_blockhash tx) ++
  encode_compact_u16 (length (st_instructions tx)) ++ concat (encode_ix <$> st_instructions tx) ++
  (if st_versioned tx then encode_compact_u16 0 else []).

Definition encode_solana_tx (tx : SolanaTx) : list Z :=
  encode_compact_u16 (length (st_signatures tx)) ++ concat (st_signatures tx) ++ encode_message tx.

(** The instruction with its keys looked up. *)
Definition resolve_ix (keys : list Z) (ix : SolanaIx) : option ParsedInstruction :=
  match keys !! ix_program ix, mapM (fun i => keys !! i) (ix_accounts ix) with
  | Some program, Some accounts =>
      Some {| pi_program_id := program; pi_accounts := accounts; pi_data := ix_data ix |}
  | _, _ => None
  end.

(** Reading at [offset] what was written there. *)
Definition cursor (data : list Z) (offset : nat) (rest : list Z) : Prop :=
  (offset <= length data)%nat /\ drop offset data = rest.

Lemma cursor_advance data offset x rest :
  cursor data offset (x ++ rest) -> cursor data (offset + length x) rest.
Proof.
  intros [H E]. assert (length (drop offset data) = length x + length rest)%nat as El
    by (by rewrite E, length_app). rewrite length_drop in El.
  split; [lia|]. by rewrite <-drop_drop, E, drop_app_length.
Qed.

Lemma cursor_lookup data offset rest i : cursor data offset rest -> data !! (offset + i)%nat = rest !! i.
Proof. intros [_ <-]. by rewrite lookup_drop. Qed.

Lemma cursor_index data offset b rest :
  cursor data offset (b :: rest) -> index data offset = Ok b /\ cursor data (offset + 1) rest.
Proof.
  intros H. pose proof (cursor_lookup data offset _ 0 H) as E. rewrite Nat.add_0_r in E.
  split; [unfold index; by rewrite E|]. by apply (cursor_advance data offset [b]).
Qed.

Lemma cursor_ensure data offset x rest n ctx :
  cursor data offset (x ++ rest) -> n = length x -> ensure_remaining data offset n ctx = Ok tt.
Proof.
  intros [Hl _]%cursor_advance ->. unfold ensure_remaining. by rewrite (proj2 (Nat.ltb_ge _ _) Hl).
Qed.

Lemma cursor_sub data offset x rest n :
  cursor data offset (x ++ rest) -> n = length x -> sub offset n data = Ok x.
Proof.
  intros H ->. pose proof (cursor_advance _ _ _ _ H) as [Hl _]. unfold sub.
  rewrite (proj2 (Nat.leb_le _ _) Hl). destruct H as [_ ->]. by rewrite take_app_length.
Qed.

Lemma cursor_key data offset k rest :
  is_u256 k -> cursor data offset (be_bytes 32 k ++ rest) ->
  sub_key offset data = Ok k /\ cursor data (offset + 32) rest.
Proof.
  intros Hk H. unfold sub_key. rewrite (cursor_sub _ _ _ _ 32 H) by (by rewrite length_be_bytes).
  apply cursor_advance in H. rewrite length_be_bytes in H. cbn [rbind]. by rewrite be_num_bytes.
Qed.

(** Bits below and above [k]. *)
Lemma lor_shiftl a b k : 0 <= k -> 0 <= a < 2 ^ k -> Z.lor a (Z.shiftl b k) = a + b * 2 ^ k.
Proof.
  intros Hk Ha. assert (Z.land a (Z.shiftl b k) = 0) as E.
  { apply Z.bits_inj'. intros i Hi. rewrite Z.land_spec, Z.bits_0, Z.shiftl_spec by done.
    destruct (decide (i < k)); [by rewrite (Z.testbit_neg_r b) by lia; rewrite andb_false_r|].
    assert (Z.testbit a i = false) as ->; [|done]. apply Z.testbit_false; [done|].
    rewrite Z.div_small; [done|]. split; [lia|].
    apply (Z.lt_le_trans _ (2 ^ k)); [lia|]. apply Z.pow_le_mono_r; lia. }
  rewrite <-Z.lxor_lor, <-Z.add_nocarry_lxor, Z.shiftl_mul_pow2 by done. done.
Qed.

Lemma land_127 z : Z.land z 127 = z mod 128.
Proof. exact (Z.land_ones z 7 ltac:(lia)). Qed.

Lemma lor_128 z : Z.lor (Z.land z 127) 128 = z mod 128 + 128.
Proof.
  rewrite land_127. apply (lor_shiftl (z mod 128) 1 7); [lia|]. pose proof (Z.mod_pos_bound z 128). lia.
Qed.

Lemma mod_marked z : (z mod 128 + 128) mod 128 = z mod 128.
Proof. rewrite <-(Z.mul_1_l 128) at 2. by rewrite Z_mod_plus_full, Z.mod_mod. Qed.

Lemma compact_roundtrip data offset n rest :
  Z.of_nat n < 65536 -> cursor data offset (encode_compact_u16 n ++ rest) ->
  decode_compact_u16 data offset = Ok (n, (offset + length (encode_compact_u16 n))%nat).
Proof.
  intros Hn H. pose proof (cursor_lookup _ _ _ 0 H) as H0. pose proof (cursor_lookup _ _ _ 1 H) as H1.
  pose proof (cursor_lookup _ _ _ 2 H) as H2. rewrite Nat.add_0_r in H0. clear H.
  unfold decode_compact_u16. rewrite H0, H1, H2. clear H0 H1 H2. unfold encode_compact_u16.
  set (v := Z.of_nat n). assert (0 <= v < 65536) as Hv by lia.
  pose proof (Z.mod_pos_bound v 128 ltac:(lia)). pose proof (Z.div_mod v 128 ltac:(lia)).
  destruct (v <? 128) eqn:E1; cbn [lookup list_lookup app length]; [rewrite E1; do 2 f_equal; lia|].
  bool_prop. pose proof (Z.mod_pos_bound (v / 128) 128 ltac:(lia)).
  assert (forall z, (Z.lor (Z.land z 127) 128 <? 128) = false) as Emark.
  { intros z. rewrite lor_128. pose proof (Z.mod_pos_bound z 128 ltac:(lia)). lia. }
  assert (v / 128 / 128 = v / 16384) as Ediv by (rewrite Z.div_div; [done|lia|lia]).
  pose proof (Z.div_mod (v / 128) 128 ltac:(lia)).
  destruct (v <? 16384) eqn:E2; cbn [list_lookup lookup app length]; bool_prop; rewrite Emark, ?Emark;
    rewrite !lor_128, !land_127, !(Z.shiftr_div_pow2 v) by lia; change (2 ^ 7) with 128; change (2 ^ 14) with 16384.
  - assert (v / 128 < 128) by (apply Z.div_lt_upper_bound; lia).
    rewrite (Z.mod_small (v / 128)) by (split; [apply Z.div_pos; lia|lia]).
    assert ((v / 128 <? 128) = true) as -> by lia.
    rewrite (Z.mod_small (v / 128)) by (split; [apply Z.div_pos; lia|lia]).
    rewrite mod_marked, lor_shiftl by lia. do 2 f_equal. change (2 ^ 7) with 128. lia.
  - assert (0 <= v / 16384 < 4) by (split; [apply Z.div_pos; lia|apply Z.div_lt_upper_bound; lia]).
    rewrite !mod_marked, !(Z.land_ones _ 2 ltac:(lia) : Z.land _ 3 = _ mod 4). change (2 ^ 2) with 4.
    rewrite !(Z.mod_small (v / 16384)) by lia.
    rewrite (lor_shiftl (v mod 128)) by lia. change (2 ^ 7) with 128.
    rewrite lor_shiftl by (change (2 ^ 14) with 16384; lia). change (2 ^ 14) with 16384. do 2 f_equal. lia.
Qed.

Lemma compact_read data offset n rest :
  Z.of_nat n < 65536 -> cursor data offset (encode_compact_u16 n ++ rest) ->
  exists offset', decode_compact_u16 data offset = Ok (n, offset') /\ cursor data offset' rest.
Proof.
  intros Hn H. eexists. split; [by eapply compact_roundtrip|]. by apply cursor_advance.
Qed.

Lemma concat_length {A} n (l : list (list A)) :
  Forall (fun x => length x = n) l -> length (concat l) = (length l * n)%nat.
Proof. induction 1 as [|x l Hx Hl IH]; [done|]. cbn [concat length]. rewrite length_app, IH, Hx. lia. Qed.

Lemma keys_length keys : length (concat (be_bytes 32 <$> keys)) = (length keys * 32)%nat.
Proof.
  rewrite (concat_length 32), length_fmap; [done|]. apply Forall_fmap, Forall_forall.
  intros x _. apply length_be_bytes.
Qed.

Lemma keys_read data offset keys rest :
  Forall is_u256 keys -> cursor data offset (concat (be_bytes 32 <$> keys) ++ rest) ->
  exists offset', read_keys (length keys) data offset = Ok (keys, offset') /\ cursor data offset' rest.
Proof.
  intros Hk. revert offset. induction Hk as [|k keys Hk Hks IH]; intros offset H; cbn [read_keys length].
  { exists offset. done. }
  rewrite fmap_cons in H. cbn [concat] in H. rewrite <-app_assoc in H.
  apply cursor_key in H as [-> H]; [|done]. cbn [rbind]. apply IH in H as (o & -> & H). cbn [rbind]. by exists o.
Qed.

Lemma accounts_read data offset ixs accounts keys rest :
  mapM (fun i => keys !! i) ixs = Some accounts -> Forall (fun i => Z.of_nat i < 256) ixs ->
  cursor data offset ((Z.of_nat <$> ixs) ++ rest) ->
  exists offset', read_accounts (length ixs) data offset keys = Ok (accounts, offset') /\
    cursor data offset' rest.
Proof.
  intros Hm Hs. revert offset accounts Hm. induction Hs as [|i ixs Hi Hs IH]; intros offset accounts Hm H.
  { injection Hm as <-. by exists offset. }
  cbn in Hm. destruct (keys !! i) as [k|] eqn:Ek; [|done]. cbn in Hm.
  destruct (mapM _ ixs) as [l|] eqn:El; [|done]. injection Hm as <-. cbn [length read_accounts].
  rewrite fmap_cons in H. apply cursor_index in H as [-> H]. cbn [rbind].
  rewrite Nat2Z.id, Ek. cbn [ok_or rbind]. apply (IH _ l) in H as (o & -> & H); [|done]. cbn [rbind]. by exists o.
Qed.

(** Indices of one byte, and data and lists of a 16-bit length. *)
Definition ix_fits (ix : SolanaIx) : Prop :=
  Z.of_nat (ix_program ix) < 256 /\ Forall (fun i => Z.of_nat i < 256) (ix_accounts ix) /\
  Z.of_nat (length (ix_accounts ix)) < 65536 /\ Z.of_nat (length (ix_data ix)) < 65536.

Lemma instruction_read data offset ix p keys rest :
  resolve_ix keys ix = Some p -> ix_fits ix -> cursor data offset (encode_ix ix ++ rest) ->
  exists offset', read_instruction data offset keys = Ok (p, offset') /\ cursor data offset' rest.
Proof.
  intros Hr (Hp & Ha & Hla & Hld) H. unfold resolve_ix in Hr.
  destruct (keys !! ix_program ix) as [k|] eqn:Ek; [|done].
  destruct (mapM _ _) as [accounts|] eqn:Em; [|done]. injection Hr as <-.
  unfold encode_ix in H. rewrite <-!app_assoc in H. unfold read_instruction.
  rewrite (cursor_ensure _ _ _ _ 1 _ H) by done. cbn [rbind]. apply cursor_index in H as [-> H].
  cbn [rbind]. rewrite Nat2Z.id, Ek. cbn [ok_or rbind]. cbv zeta.
  apply compact_read in H as (o1 & -> & H); [|done]. cbn [rbind].
  rewrite (cursor_ensure _ _ _ _ (length (ix_accounts ix)) _ H) by (by rewrite length_fmap). cbn [rbind].
  apply (accounts_read _ _ _ accounts keys) in H as (o2 & -> & H); [|done|done]. cbn [rbind].
  apply compact_read in H as (o3 & -> & H); [|done]. cbn [rbind].
  rewrite (cursor_ensure _ _ _ _ (length (ix_data ix)) _ H) by done. cbn [rbind].
  rewrite (cursor_sub _ _ _ _ (length (ix_data ix)) H) by done. cbn [rbind].
  eexists. split; [done|]. by apply cursor_advance in H.
Qed.

Lemma instructions_read data offset ixs ps keys rest :
  mapM (resolve_ix keys) ixs = Some ps -> Forall ix_fits ixs ->
  cursor data offset (concat (encode_ix <$> ixs) ++ rest) ->
  exists offset', read_instructions (length ixs) data offset keys = Ok (ps, offset') /\
    cursor data offset' rest.
Proof.
  intros Hm Hs. revert offset ps Hm. induction Hs as [|ix ixs Hi Hs IH]; intros offset ps Hm H.
  { injection Hm as <-. by exists offset. }
  cbn in Hm. destruct (resolve_ix keys ix) as [p|] eqn:Ep; [|done]. cbn in Hm.
  destruct (mapM _ ixs) as [l|] eqn:El; [|done]. injection Hm as <-.
  rewrite fmap_cons in H. cbn [concat] in H. rewrite <-app_assoc in H. cbn [length read_instructions].
  apply (instruction_read _ _ _ p keys) in H as (o1 & -> & H); [|done|done]. cbn [rbind].
  apply (IH _ l) in H as (o & -> & H); [|done]. cbn [rbind]. by exists o.
Qed.

Section roundtrip.
Context {CE : CryptoEnv} {Spl : SplEnv} {Ed : Ed25519}.

(** The signatures hold for the first keys, in order. *)
Definition signed (tx : SolanaTx) : Prop :=
  Forall2 (fun key sig => is_ed25519_point key = true /\
                          ed25519_verify_strict key (encode_message tx) sig = true)
    (take (length (st_signatures tx)) (st_keys tx)) (st_signatures tx).

Lemma signatures_checked data start keys sigs message rest idx :
  Forall (fun s => length s = 64%nat) sigs -> (idx + length sigs <= length keys)%nat ->
  Forall2 (fun key sig => is_ed25519_point key = true /\ ed25519_verify_strict key message sig = true)
    (take (length sigs) (drop idx keys)) sigs ->
  cursor data (start + idx * 64) (concat sigs ++ rest) ->
  check_signatures (length sigs) idx data start keys message = Ok tt.
Proof.
  intros Hs. revert idx. induction Hs as [|s sigs Hl Hs IH]; intros idx Hk Hv H; [done|].
  cbn [length check_signatures concat] in *. rewrite <-app_assoc in H.
  destruct (lookup_lt_is_Some_2 keys idx) as [key Ek]; [lia|].
  rewrite (drop_S keys key idx Ek) in Hv. cbn [take] in Hv. apply Forall2_cons in Hv as [[Hp Hq] Hv].
  unfold index at 1. rewrite Ek. cbn [ok_or rbind].
  rewrite (cursor_sub _ _ _ _ 64 H) by done. cbn [rbind].
  unfold check_signature. rewrite Hp, Hq. cbn [negb rbind]. apply cursor_advance in H. rewrite Hl in H.
  apply IH; [lia|done|]. by replace (start + S idx * 64)%nat with (start + idx * 64 + 64)%nat by lia.
Qed.

Record tx_fits (tx : SolanaTx) : Prop := {
  tf_signatures : 0 < Z.of_nat (length (st_signatures tx)) < 128;
  tf_signature : Forall (fun s => length s = 64%nat) (st_signatures tx);
  tf_keys : (length (st_signatures tx) <= length (st_keys tx))%nat /\
    Z.of_nat (length (st_keys tx)) < 65536;
  tf_key : Forall is_u256 (st_keys tx);
  tf_blockhash : is_u256 (st_blockhash tx);
  tf_instructions : Z.of_nat (length (st_instructions tx)) < 65536;
  tf_instruction : Forall ix_fits (st_instructions tx);
}.

Lemma compact_nonempty n : encode_compact_u16 n <> [].
Proof. unfold encode_compact_u16. by repeat case_match. Qed.

Lemma version_read tx :
  tx_fits tx -> message_version (encode_message tx) = Ok (st_versioned tx).
Proof.
  intros H. unfold encode_message, message_version. destruct (st_versioned tx); [done|]. cbn.
  assert (0 <= Z.of_nat (length (st_signatures tx)) < 128) as Hn by (destruct (tf_signatures tx H); lia).
  set (z := Z.of_nat _) in *. assert (Z.land z 128 = 0) as E.
  { replace 128 with (Z.shiftl 1 7) by done. rewrite Z.land_comm. apply Z.bits_inj'. intros i Hi.
    rewrite Z.land_spec, Z.bits_0. destruct (Z.testbit (Z.shiftl 1 7) i) eqn:Eb; [|done].
    rewrite Z.shiftl_1_l, Z.pow2_bits_eqb in Eb by lia. apply Z.eqb_eq in Eb as <-. cbn [andb].
    apply Z.testbit_false; [lia|]. by rewrite Z.div_small. }
  by rewrite E.
Qed.

(** The end of a message: no lookup tables, and no bytes after it. *)
Lemma tables_read data offset (versioned : bool) :
  cursor data offset (if versioned then encode_compact_u16 0 else []) ->
  (if versioned then
     let? (lookup_count, offset) := decode_compact_u16 data offset in
     if negb (lookup_count =? 0)%nat then raw_err "Solana address lookup tables are not supported yet"
     else Ok offset
   else Ok offset) = Ok (length data).
Proof.
  assert (forall o, cursor data o [] -> o = length data) as Hend.
  { intros o [Ho E]. apply (f_equal length) in E. rewrite length_drop in E. cbn in E. lia. }
  intros H. destruct versioned; [|by rewrite (Hend offset)].
  rewrite <-(app_nil_r (encode_compact_u16 0)) in H.
  apply compact_read in H as (o & -> & H); [|done]. cbn. by rewrite (Hend o).
Qed.

(** What the parser makes of a transaction. *)
Definition parsed_of (tx : SolanaTx) : option ParsedSolanaMessage :=
  match st_keys tx, st_signatures tx, mapM (resolve_ix (st_keys tx)) (st_instructions tx) with
  | signer :: _, sig :: _, Some instructions =>
      Some {| pm_signer_pubkey := signer; pm_recent_blockhash := st_blockhash tx;
              pm_instructions := instructions; pm_first_signature := sig |}
  | _, _, _ => None
  end.

(** The Solana parser accepts what wallets build.  A legacy or version 0
    transaction with at most 127 signatures, whose fields have the widths of the
    format and whose indices name its keys, is read back from its bytes exactly:
    fee payer, recent blockhash, instructions with their keys, first signature.
    Assumed: its signatures hold. *)
Theorem solana_roundtrip tx parsed :
  tx_fits tx -> signed tx -> parsed_of tx = Some parsed ->
  parse_message (encode_solana_tx tx) = Ok parsed.
Proof.
  intros Hf Hsig Hp. pose proof Hf as [Hn Hs [Hle Hk] Hkey Hb Hi Hix]. unfold parsed_of in Hp.
  destruct (st_keys tx) as [|signer keys'] eqn:Ekeys; [done|].
  destruct (st_signatures tx) as [|sig sigs'] eqn:Esigs; [done|].
  destruct (mapM _ (st_instructions tx)) as [ps|] eqn:Eps; [|done]. injection Hp as <-.
  set (keys := signer :: keys') in *. set (sigs := sig :: sigs') in *.
  set (data := encode_solana_tx tx).
  assert (cursor data 0 data) as H by (split; [lia|by rewrite drop_0]).
  unfold data at 2, encode_solana_tx in H. rewrite Esigs in H. fold sigs in H.
  assert ((length data <? 3)%nat = false) as E3.
  { apply Nat.ltb_ge. destruct H as [_ E]. apply (f_equal length) in E. rewrite drop_0 in E.
    rewrite E, !length_app. unfold sigs. cbn [concat]. rewrite length_app.
    inversion Hs as [|? ? Hl]. lia. }
  unfold parse_message. rewrite E3. clear E3.
  apply compact_read in H as (o1 & -> & H); [|lia]. cbn [rbind].
  change (length sigs =? 0)%nat with false. cbv beta iota zeta.
  pose proof (concat_length 64 sigs Hs) as El.
  rewrite (cursor_ensure _ _ _ _ (length sigs * 64) _ H) by done. cbn [rbind].
  pose proof H as Hsigs. apply cursor_advance in H. rewrite El in H.
  assert (drop (o1 + length sigs * 64) data = encode_message tx) as -> by apply H.
  rewrite version_read by done. cbn [rbind].
  set (header := (o1 + length sigs * 64 + _)%nat).
  assert (cursor data header ([Z.of_nat (length sigs); fst (st_readonly tx); snd (st_readonly tx)] ++
    encode_compact_u16 (length keys) ++ concat (be_bytes 32 <$> keys) ++ be_bytes 32 (st_blockhash tx) ++
    encode_compact_u16 (length (st_instructions tx)) ++ concat (encode_ix <$> st_instructions tx) ++
    (if st_versioned tx then encode_compact_u16 0 else []))) as H'.
  { unfold encode_message in H. rewrite Ekeys, Esigs in H. apply cursor_advance in H.
    unfold header. by destruct (st_versioned tx). }
  clear H. rename H' into H. rewrite (cursor_ensure _ _ _ _ 3 _ H) by done. cbn [rbind].
  pose proof (cursor_index _ _ _ _ H) as [-> _]. cbn [rbind]. rewrite Nat2Z.id, Nat.eqb_refl.
  change (length sigs =? 0)%nat with false. cbn [negb].
  rewrite (cursor_sub data o1 sig _ 64) by
    (first [by inversion Hs|unfold sigs in Hsigs; cbn [concat] in Hsigs; rewrite <-app_assoc in Hsigs; done]).
  cbn [rbind]. apply cursor_advance in H. change (length [_; _; _]) with 3%nat in H.
  apply compact_read in H as (o2 & -> & H); [|done]. cbn [rbind].
  change (length keys =? 0)%nat with false. rewrite (proj2 (Nat.ltb_ge _ _) Hle).
  rewrite (cursor_ensure _ _ _ _ (32 * length keys) _ H) by (rewrite keys_length; lia). cbn [rbind].
  apply keys_read in H as (o3 & -> & H); [|done]. cbn [rbind].
  rewrite (cursor_ensure _ _ _ _ 32 _ H) by (by rewrite length_be_bytes). cbn [rbind].
  apply cursor_key in H as [-> H]; [|done]. cbn [rbind].
  apply compact_read in H as (o4 & -> & H); [|done]. cbn [rbind].
  apply (instructions_read _ _ _ ps keys) in H as (o5 & -> & H); [|done|done]. cbn [rbind].
  rewrite (tables_read data o5 (st_versioned tx) H).
  cbn [rbind]. rewrite Nat.eqb_refl. cbn [negb].
  rewrite (signatures_checked data o1 keys sigs (encode_message tx) (encode_message tx) 0); [done|done|done| |].
  - rewrite drop_0. unfold signed in Hsig. by rewrite Ekeys, Esigs in Hsig.
  - by rewrite Nat.mul_0_l, Nat.add_0_r.
Qed.
End roundtrip.

(* ------------------------------------------------------------------ *)
(** * The signature that marks a transaction *)

Lemma parse_message_first {CE : CryptoEnv} {Spl : SplEnv} {Ed : Ed25519} raw m :
  parse_message raw = Ok m -> extract_first_solana_signature raw = Ok (pm_first_signature m).
Proof.
  unfold parse_message, extract_first_solana_signature. destruct (_ <? 3)%nat; [done|].
  destruct (decode_compact_u16 raw 0) as [[n o]|e]; [|done]. cbn [rbind].
  destruct (n =? 0)%nat eqn:En; [done|]. cbv zeta. intros ([] & E1 & H)%rbind_ok.
  apply rbind_ok in H as (v & _ & H). apply rbind_ok in H as (u & _ & H).
  apply rbind_ok in H as (r & _ & H).
  repeat match type of H with (if ?c then _ else _) = _ => destruct c; [done|] end.
  apply rbind_ok in H as (sig & Es & H). apply ensure_ok in E1. apply Nat.eqb_neq in En.
  rewrite (proj2 (Nat.ltb_ge _ _)) by lia. rewrite Es. f_equal.
  destruct (decode_compact_u16 raw _) as [[n2 o2]|]; [|done]. cbn [rbind] in H.
  repeat match type of H with (if ?c then _ else _) = _ => destruct c; [done|] end.
  apply rbind_ok in H as (u2 & _ & H). destruct (read_keys _ _ _) as [[keys o3]|]; [|done]. cbn [rbind] in H.
  apply rbind_ok in H as (u3 & _ & H). apply rbind_ok in H as (b & _ & H).
  destruct (decode_compact_u16 raw _) as [[n4 o4]|]; [|done]. cbn [rbind] in H.
  destruct (read_instructions _ _ _ _) as [[ixs o5]|]; [|done]. cbn [rbind] in H.
  apply rbind_ok in H as (o6 & _ & H). case_match; [done|].
  apply rbind_ok in H as (u4 & _ & H). apply rbind_ok in H as (s & _ & H). by injection H as <-.
Qed.

Lemma parse_supported_first {CE : CryptoEnv} {Spl : SplEnv} {Ed : Ed25519} raw p :
  parse_supported_transfer raw = Ok p -> extract_first_solana_signature raw = Ok (pt_first_signature p).
Proof.
  unfold parse_supported_transfer. intros (m & Em & H)%rbind_ok. rewrite (parse_message_first raw m Em). f_equal.
  unfold parse_native_transfer, parse_spl_transfer, parse_associated_token_account_create,
    parse_ata_then_spl_transfer in H. cbv zeta in H.
  repeat match type of H with
  | rbind _ _ = Ok _ => apply rbind_ok in H as (? & _ & H)
  | Ok _ = Ok _ => injection H as <-; reflexivity
  | (match ?x with _ => _ end) = Ok _ => destruct x; try done
  end.
Qed.

(** A canonical payload calls a program or transfers. *)
Lemma canonical_opcode {CE : CryptoEnv} {Spl : SplEnv} {Ed : Ed25519} raw p :
  parse_supported_transfer raw = Ok p ->
  head (pt_canonical_payload p) = Some 32 \/ head (pt_canonical_payload p) = Some 33.
Proof.
  unfold parse_supported_transfer. intros (m & Em & H)%rbind_ok.
  unfold parse_native_transfer, parse_spl_transfer, parse_associated_token_account_create,
    parse_ata_then_spl_transfer in H. cbv zeta in H.
  repeat match type of H with
  | rbind _ _ = Ok _ => apply rbind_ok in H as (? & _ & H)
  | Ok _ = Ok _ => injection H as <-; by first [left; reflexivity|right; reflexivity]
  | (match ?x with _ => _ end) = Ok _ => destruct x; try done
  end.
Qed.

(** What a verified transaction tells. *)
Lemma verified_fields {CE : CryptoEnv} {Spl : SplEnv} {Ed : Ed25519} t raw chain slot v :
  verify_raw_solana_transfer_for_slot t raw chain slot = Ok v ->
  extract_first_solana_signature raw = Ok (sol_first_signature v) /\
  get_storage t (sol_sender_idcom v) (solana_signature_replay_slot (sol_first_signature v)) = 0 /\
  (head (sol_canonical_payload v) = Some 32 \/ head (sol_canonical_payload v) = Some 33).
Proof.
  unfold verify_raw_solana_transfer_for_slot, accept_transfer. intros (p & Ep & H)%rbind_ok. cbv zeta in H.
  repeat (case_match; [done|]). apply rbind_ok in H as (u & _ & [= <-]). cbn. bool_prop.
  split_and!; [by apply parse_supported_first|done|by eapply canonical_opcode].
Qed.

Module SampleSolana.
Import SampleEnv.
#[export] Instance spl : SplEnv :=
  {| spl_token_program_id := 900; associated_token_program_id := 901; is_ed25519_point k := k =? 5 |}.
(** A signature repeats the key it belongs to. *)
#[export] Instance ed : Ed25519 :=
  {| ed25519_verify_strict key message sig := bool_decide (head sig = Some key) |}.

Definition sig : list Z := replicate 64 5.

(** A transfer of 70 from key 5 to key 6. *)
Definition pay (blockhash : Z) : SolanaTx :=
  {| st_signatures := [sig]; st_versioned := true; st_readonly := (0, 1); st_keys := [5; 6; 0];
     st_blockhash := blockhash;
     st_instructions :=
       [{| ix_program := 2; ix_accounts := [0; 1]%nat; ix_data := le_bytes 4 2 ++ le_bytes 8 70 |}] |}.

Lemma pay_fits h : is_u256 h -> tx_fits (pay h).
Proof.
  intros Hh. split; cbn; try lia; try done.
  - by repeat constructor.
  - by repeat constructor.
  - apply Forall_cons. split; [|done]. by repeat constructor.
Qed.

Lemma pay_signed h : signed (pay h).
Proof. apply Forall2_cons. split; [done|constructor]. Qed.

Lemma sample_digest l : digest SampleDigest.sample_sha256 l = Zsum l mod 256.
Proof. unfold digest, SampleDigest.sample_sha256, be_num, le_num. cbn. lia. Qed.

(** Two bumps give different addresses, and one of them is not 5. *)
Lemma sample_atas : atas_exist.
Proof.
  intros owner mint. unfold derive_associated_token_address, find_program_address.
  set (seeds := [_; _; _]). set (program := associated_token_program_id).
  assert (forall n, create_program_address SampleDigest.sample_sha256 (seeds ++ [[n]]) program =
    if (Zsum (concat seeds) + n + Zsum (be_bytes 32 program ++ ascii_bytes "ProgramDerivedAddress")) mod 256
         =? 5
    then Err "derived address is on curve"
    else Ok ((Zsum (concat seeds) + n +
              Zsum (be_bytes 32 program ++ ascii_bytes "ProgramDerivedAddress")) mod 256)) as E.
  { intros n. unfold create_program_address. rewrite sample_digest, concat_app, !Zsum_app. cbn [concat].
    rewrite app_nil_r, Zsum_cons, Zsum_nil, Z.add_0_r. by rewrite Z.add_assoc. }
  change (find_bump _ _ _ 256) with
    (match create_program_address SampleDigest.sample_sha256 (seeds ++ [[255]]) program with
     | Ok address => Some address
     | Err _ => match create_program_address SampleDigest.sample_sha256 (seeds ++ [[254]]) program with
       | Ok address => Some address
       | Err _ => find_bump SampleDigest.sample_sha256 seeds program 254
       end
     end).
  rewrite !E. set (x := Zsum (concat seeds)). set (y := Zsum _).
  destruct (_ =? 5) eqn:E1; [|done]. destruct ((x + 254 + y) mod 256 =? 5) eqn:E2; [|done].
  bool_prop. exfalso. replace (x + 255 + y) with (x + 254 + y + 1) in E1 by lia.
  rewrite Z.add_mod, E2 in E1 by lia. discriminate E1.
Qed.
End SampleSolana.

Import SampleEnv SampleSolana.

Lemma solana_never_panics_witness :
  verify_raw_solana_transfer_for_slot state_new [1; 2; 3] 1 1 <> Err NVmPanic /\
  verify_raw_solana_transfer_against_state state_new [1; 2; 3] 1 1 <> Err NVmPanic /\
  verify_raw_solana_recover_signer [1; 2; 3] <> Err NVmPanic /\
  extract_first_solana_signature [1; 2; 3] <> Err NVmPanic.
Proof. exact (solana_never_panics sample_atas state_new [1; 2; 3] 1 1). Defined.

Lemma solana_roundtrip_witness :
  parse_message (encode_solana_tx (pay 77)) =
    Ok {| pm_signer_pubkey := 5; pm_recent_blockhash := 77;
          pm_instructions := [{| pi_program_id := 0; pi_accounts := [5; 6];
                                 pi_data := le_bytes 4 2 ++ le_bytes 8 70 |}];
          pm_first_signature := sig |}.
Proof.
  apply (solana_roundtrip (pay 77)); [apply pay_fits; done|apply pay_signed|reflexivity].
Defined.
