(* ===== verification/RawTron.v ===== *)
(** Raw Tron transactions (ace-n-vm/src/raw_tron.rs): the protobuf reader, the
    parser of the two supported contracts, the canonical payload and the
    verification against the state with its replay marker.

    Positions are [usize] of 64 bits, with the wrap-around of a release build.
    The curve arithmetic of the k256 crate is the class [K256]. *)

From S2P Require Import Prelude SigAlgo Account StateTree StateM.
From S2P Require Import Wire Payload Transaction Engine Vm.
Local Open Scope Z_scope.
Local Open Scope ace_scope.

(** [k256_signature] is whether [Signature::from_bytes] accepts 64 bytes, and
    [k256_recover] is [recover_from_prehash] followed by
    [to_encoded_point(false)], on a digest, the signature and a recovery id. *)
Class K256 := {
  k256_signature : list Z -> bool;
  k256_recover : Hash -> list Z -> Z -> option (list Z);
}.

Inductive TronContractType : Type :=
| TransferContract
| TriggerSmartContract.

Record TronTxParsed := {
  raw_data : list Z;
  tron_signature : list Z;
  contract_type : TronContractType;
  contract_parameter : list Z;
}.

Record VerifiedTronIngress := {
  tron_signer : Z;
  tron_sender_idcom : AccountId;
  tron_canonical_payload : list Z;
  tron_tx_hash : Hash;
  tron_slot : Z;
  tron_domain_slot : Z;
}.

Record TransferFields := {
  tf_owner : Z;
  tf_to : Z;
  tf_amount : Z;
}.

Record TriggerFields := {
  tg_owner : Z;
  tg_contract : Z;
  tg_call_value : Z;
  tg_data : list Z;
}.

(* ------------------------------------------------------------------ *)
(** * Protobuf *)

Definition data_len (data : list Z) : Z := Z.of_nat (length data).

(** The loop of [read_varint] after [10 - n] bytes: the shift reaches 64 after
    the tenth byte. *)
Fixpoint varint_loop (n : nat) (data : list Z) (pos shift acc : Z) : result NVmError (Z * Z) :=
  match n with
  | O => raw_err "tron protobuf: varint too long"
  | S n =>
      match data !! Z.to_nat pos with
      | None => raw_err "tron protobuf: unexpected end reading varint"
      | Some byte =>
          let acc := Z.lor acc (Z.shiftl (Z.land byte 127) shift mod 2 ^ 64) in
          if Z.land byte 128 =? 0 then Ok (acc, pos + 1)
          else varint_loop n data (pos + 1) (shift + 7) acc
      end
  end.

Definition read_varint (data : list Z) (pos : Z) : result NVmError (Z * Z) :=
  varint_loop 10 data pos 0 0.

(** [pos + len] wraps, and a slice that ends before it starts panics. *)
Definition read_bytes (data : list Z) (pos : Z) : result NVmError (list Z * Z) :=
  let? (len, pos) := read_varint data pos in
  let stop := u64_add pos len in
  if data_len data <? stop then raw_err "tron protobuf: length-delimited field truncated"
  else if stop <? pos then Err NVmPanic
  else Ok (take (Z.to_nat (stop - pos)) (drop (Z.to_nat pos) data), stop).

Definition skip_field (data : list Z) (pos wire_type : Z) : result NVmError Z :=
  if wire_type =? 0 then
    let? (_, pos) := read_varint data pos in Ok pos
  else if wire_type =? 1 then
    if data_len data <? pos + 8 then raw_err "tron protobuf: truncated 64-bit field"
    else Ok (pos + 8)
  else if wire_type =? 2 then
    let? (_, pos) := read_bytes data pos in Ok pos
  else if wire_type =? 5 then
    if data_len data <? pos + 4 then raw_err "tron protobuf: truncated 32-bit field"
    else Ok (pos + 4)
  else raw_err "tron protobuf: unknown wire type".

(** The loop the parsers share: read a tag, give the field to [handle], which
    answers [None] for a field it skips.  Every turn consumes at least the tag,
    so the length of the data is enough fuel. *)
Section fields.
Context {A : Type}.
Variable handle : Z -> Z -> list Z -> Z -> A -> option (result NVmError (A * Z)).

Fixpoint field_loop (fuel : nat) (data : list Z) (pos : Z) (acc : A) : result NVmError A :=
  if data_len data <=? pos then Ok acc else
  match fuel with
  | O => Err NVmPanic
  | S fuel =>
      let? (tag, pos) := read_varint data pos in
      let field_number := Z.shiftr tag 3 mod 2 ^ 32 in
      let wire_type := Z.land tag 7 in
      match handle field_number wire_type data pos acc with
      | Some r => let? (acc, pos) := r in field_loop fuel data pos acc
      | None => let? pos := skip_field data pos wire_type in field_loop fuel data pos acc
      end
  end.

Definition parse_fields (data : list Z) (acc : A) : result NVmError A :=
  field_loop (length data) data 0 acc.
End fields.

(** A length-delimited field stored by [set]. *)
Definition bytes_field {A} (data : list Z) (pos : Z) (set : list Z -> result NVmError A)
    : option (result NVmError (A * Z)) :=
  Some (let? (bytes, pos) := read_bytes data pos in let? a := set bytes in Ok (a, pos)).
Definition varint_field {A} (data : list Z) (pos : Z) (set : Z -> A)
    : option (result NVmError (A * Z)) :=
  Some (let? (v, pos) := read_varint data pos in Ok (set v, pos)).

Definition is_field (field_number wire_type f w : Z) : bool :=
  (field_number =? f) && (wire_type =? w).

(* ------------------------------------------------------------------ *)
(** * Transactions *)

(** [as i32]. *)
Definition to_i32 (x : Z) : Z := (x + 2 ^ 31) mod 2 ^ 32 - 2 ^ 31.

Definition contract_field (f w : Z) (data : list Z) (pos : Z) (acc : option (list Z))
    : option (result NVmError (option (list Z) * Z)) :=
  if is_field f w 11 2 then bytes_field data pos (fun b => Ok (Some b)) else None.

Definition type_and_parameter (f w : Z) (data : list Z) (pos : Z)
    (acc : option Z * option (list Z))
    : option (result NVmError (option Z * option (list Z) * Z)) :=
  if is_field f w 1 0 then varint_field data pos (fun v => (Some (to_i32 v), snd acc))
  else if is_field f w 2 2 then bytes_field data pos (fun b => Ok (fst acc, Some b))
  else None.

Definition any_value (f w : Z) (data : list Z) (pos : Z) (acc : option (list Z))
    : option (result NVmError (option (list Z) * Z)) :=
  if is_field f w 2 2 then bytes_field data pos (fun b => Ok (Some b)) else None.

Definition parse_raw_data_contracts (raw_data : list Z)
    : result NVmError (TronContractType * list Z) :=
  let? found := parse_fields contract_field raw_data None in
  let? contract_bytes :=
    ok_or found (RawChainVerify "tron raw_data: no contract field (field 11)") in
  let? (type_val, parameter) := parse_fields type_and_parameter contract_bytes (None, None) in
  let? contract_type_val := ok_or type_val (RawChainVerify "tron contract: missing type field") in
  let? contract_type :=
    if contract_type_val =? 1 then Ok TransferContract
    else if contract_type_val =? 31 then Ok TriggerSmartContract
    else raw_err "tron: unsupported contract type" in
  let? parameter_any :=
    ok_or parameter (RawChainVerify "tron contract: missing parameter field") in
  let? value := parse_fields any_value parameter_any None in
  let? value_bytes := ok_or value (RawChainVerify "tron Any: missing value field") in
  Ok (contract_type, value_bytes).

Definition outer_field (f w : Z) (data : list Z) (pos : Z)
    (acc : option (list Z) * option (list Z))
    : option (result NVmError (option (list Z) * option (list Z) * Z)) :=
  if is_field f w 1 2 then bytes_field data pos (fun b => Ok (Some b, snd acc))
  else if is_field f w 2 2 then bytes_field data pos (fun b => Ok (fst acc, Some b))
  else None.

Definition parse_tron_tx (data : list Z) : result NVmError TronTxParsed :=
  let? (raw, sig) := parse_fields outer_field data (None, None) in
  let? raw_data := ok_or raw (RawChainVerify "tron tx: missing raw_data field") in
  let? signature := ok_or sig (RawChainVerify "tron tx: missing signature field") in
  if negb (length signature =? 65)%nat then raw_err "tron tx: signature must be 65 bytes" else
  let? (ty, parameter) := parse_raw_data_contracts raw_data in
  Ok {| raw_data := raw_data; tron_signature := signature; contract_type := ty;
        contract_parameter := parameter |}.

Definition tron_addr_to_20 (bytes : list Z) : result NVmError Z :=
  if (length bytes =? 21)%nat && byte_is bytes 0 65 then Ok (be_num (drop 1 bytes))
  else if (length bytes =? 20)%nat then Ok (be_num bytes)
  else raw_err "tron: invalid address length".

Definition transfer_field (f w : Z) (data : list Z) (pos : Z) (acc : option Z * option Z * Z)
    : option (result NVmError (option Z * option Z * Z * Z)) :=
  let '(owner, to, amount) := acc in
  if is_field f w 1 2 then
    bytes_field data pos (fun b => let? a := tron_addr_to_20 b in Ok (Some a, to, amount))
  else if is_field f w 2 2 then
    bytes_field data pos (fun b => let? a := tron_addr_to_20 b in Ok (owner, Some a, amount))
  else if is_field f w 3 0 then varint_field data pos (fun v => (owner, to, v))
  else None.

Definition parse_transfer_contract (data : list Z) : result NVmError TransferFields :=
  let? (addrs, amount) := parse_fields transfer_field data (None, None, 0) in
  let? owner := ok_or (fst addrs) (RawChainVerify "tron TransferContract: missing owner_address") in
  let? to := ok_or (snd addrs) (RawChainVerify "tron TransferContract: missing to_address") in
  Ok {| tf_owner := owner; tf_to := to; tf_amount := amount |}.

Definition trigger_field (f w : Z) (data : list Z) (pos : Z)
    (acc : option Z * option Z * Z * list Z)
    : option (result NVmError (option Z * option Z * Z * list Z * Z)) :=
  let '(owner, contract, call_value, calldata) := acc in
  if is_field f w 1 2 then
    bytes_field data pos
      (fun b => let? a := tron_addr_to_20 b in Ok (Some a, contract, call_value, calldata))
  else if is_field f w 2 2 then
    bytes_field data pos
      (fun b => let? a := tron_addr_to_20 b in Ok (owner, Some a, call_value, calldata))
  else if is_field f w 3 0 then
    varint_field data pos (fun v => (owner, contract, v, calldata))
  else if is_field f w 4 2 then
    bytes_field data pos (fun b => Ok (owner, contract, call_value, b))
  else None.

Definition parse_trigger_smart_contract (data : list Z) : result NVmError TriggerFields :=
  let? (fields, calldata) := parse_fields trigger_field data (None, None, 0, []) in
  let '(owner, contract, call_value) := fields in
  let? owner := ok_or owner (RawChainVerify "tron TriggerSmartContract: missing owner_address") in
  let? contract :=
    ok_or contract (RawChainVerify "tron TriggerSmartContract: missing contract_address") in
  Ok {| tg_owner := owner; tg_contract := contract; tg_call_value := call_value;
        tg_data := calldata |}.

Definition canonical_tron_payload_from_parsed (parsed : TronTxParsed) : result NVmError (list Z) :=
  match contract_type parsed with
  | TransferContract =>
      let? tf := parse_transfer_contract (contract_parameter parsed) in
      Ok ([66] ++ be_bytes 20 (tf_to tf) ++ le_bytes 8 (tf_amount tf))
  | TriggerSmartContract =>
      let? tf := parse_trigger_smart_contract (contract_parameter parsed) in
      Ok ([64] ++ be_bytes 20 (tg_contract tf) ++ le_bytes 8 (tg_call_value tf) ++
          le_bytes 8 30000000 ++ tg_data tf)
  end.

(* ------------------------------------------------------------------ *)
(** * Verification *)

Section verify.
Context {CE : CryptoEnv} {K : K256}.

Definition ecrecover_addr (hash : Hash) (recovery_byte : Z) (r s : list Z) : result NVmError Z :=
  if negb (length r =? 32)%nat || negb (length s =? 32)%nat then
    raw_err "tron: r/s must be 32 bytes each"
  else if negb (k256_signature (r ++ s)) then raw_err "tron: invalid signature: "
  else
    let? uncompressed :=
      ok_or (k256_recover hash (r ++ s) (recovery_byte mod 4))
        (RawChainVerify "tron: ecrecover failed: ") in
    Ok (be_num (take 20 (drop 12 (env_keccak256 (drop 1 uncompressed))))).

Definition tron_raw_data_hash (raw_data : list Z) : Hash := digest env_sha256 raw_data.

Definition recover_signer_from_parsed (parsed : TronTxParsed) : result NVmError Z :=
  let sig := tron_signature parsed in
  let? v := ok_or (sig !! 64%nat) NVmPanic in
  ecrecover_addr (tron_raw_data_hash (raw_data parsed)) v (take 32 sig) (take 32 (drop 32 sig)).

Definition verify_raw_tron_recover_signer (raw_bytes : list Z) : result NVmError Z :=
  let? parsed := parse_tron_tx raw_bytes in
  recover_signer_from_parsed parsed.

Definition tron_replay_slot (raw_tx_hash : Hash) : Z :=
  digest env_sha256 (ascii_bytes "ACE-TRON-REPLAY-V1" ++ be_bytes 32 raw_tx_hash).

Definition tron_ace_domain_slot (raw_tx_hash : Hash) : Z :=
  le_num (take 4 (be_bytes 32 raw_tx_hash)).

Definition tron_replay_marker (domain_slot : Z) : Z :=
  be_num ([1] ++ le_bytes 8 domain_slot ++ replicate 23 0).

Definition tron_raw_tx_hash (raw_bytes : list Z) : result NVmError Hash :=
  let? parsed := parse_tron_tx raw_bytes in
  Ok (tron_raw_data_hash (raw_data parsed)).

Definition tron_replay_state (raw_bytes : list Z) (domain_slot : Z) : result NVmError (Z * Z) :=
  let? raw_tx_hash := tron_raw_tx_hash raw_bytes in
  Ok (tron_replay_slot raw_tx_hash, tron_replay_marker domain_slot).

Definition canonical_tron_payload_from_raw (raw_bytes : list Z) : result NVmError (list Z) :=
  let? parsed := parse_tron_tx raw_bytes in
  canonical_tron_payload_from_parsed parsed.

Definition verify_raw_tron_against_state (state : StateTree) (raw_bytes : list Z)
    : result NVmError VerifiedTronIngress :=
  let? parsed := parse_tron_tx raw_bytes in
  let raw_tx_hash := tron_raw_data_hash (raw_data parsed) in
  let? signer := recover_signer_from_parsed parsed in
  let sender := legacy_idcom_tron env_sha256 signer in
  if negb (bool_decide (is_Some (accounts state !! sender))) then
    raw_err "tron sender account does not exist on ACE"
  else
    let replay_slot := tron_replay_slot raw_tx_hash in
    if negb (get_storage state sender replay_slot =? 0) then
      raw_err "tron transaction has already been used on ACE"
    else
      let? canonical_payload := canonical_tron_payload_from_parsed parsed in
      Ok {| tron_signer := signer; tron_sender_idcom := sender;
            tron_canonical_payload := canonical_payload; tron_tx_hash := raw_tx_hash;
            tron_slot := replay_slot; tron_domain_slot := tron_ace_domain_slot raw_tx_hash |}.
End verify.

(* ------------------------------------------------------------------ *)
(** * Progress of the reader *)

Lemma log2_u64 x : is_u64 x -> Z.log2 x < 64.
Proof.
  unfold is_u64, u64_max. intros H. destruct (decide (x = 0)) as [->|]; [done|].
  apply Z.log2_lt_pow2; lia.
Qed.

Lemma u64_lor x y : is_u64 x -> is_u64 y -> is_u64 (Z.lor x y).
Proof.
  intros Hx Hy. pose proof (log2_u64 x Hx). pose proof (log2_u64 y Hy).
  unfold is_u64, u64_max in *.
  assert (0 <= Z.lor x y) as Hnn by (apply Z.lor_nonneg; lia).
  destruct (decide (Z.lor x y = 0)) as [->|]; [lia|].
  assert (Z.lor x y < 2 ^ 64); [|lia].
  apply Z.log2_lt_pow2; [lia|]. rewrite Z.log2_lor by lia. lia.
Qed.

Lemma varint_loop_ok n data pos shift acc v p :
  0 <= pos -> 0 <= shift -> is_u64 acc ->
  varint_loop n data pos shift acc = Ok (v, p) -> is_u64 v /\ pos < p <= data_len data.
Proof.
  unfold data_len. revert pos shift acc. induction n as [|n IH]; intros pos shift acc Hp Hs Ha;
    cbn [varint_loop]; [done|].
  destruct (data !! Z.to_nat pos) as [byte|] eqn:Hb; [|done].
  apply lookup_lt_Some in Hb.
  assert (is_u64 (Z.lor acc (Z.shiftl (Z.land byte 127) shift mod 2 ^ 64))) as Hacc.
  { apply u64_lor; [done|]. unfold is_u64, u64_max.
    pose proof (Z.mod_pos_bound (Z.shiftl (Z.land byte 127) shift) (2 ^ 64) ltac:(lia)). lia. }
  destruct (Z.land byte 128 =? 0).
  - intros [= <- <-]. split; [done|lia].
  - intros H. apply IH in H; [|lia|lia|done]. destruct H; split; [done|lia].
Qed.

Lemma read_varint_ok data pos v p :
  0 <= pos -> read_varint data pos = Ok (v, p) -> is_u64 v /\ pos < p <= data_len data.
Proof. intros Hp. apply varint_loop_ok; [done|lia|]. unfold is_u64, u64_max; lia. Qed.

Lemma varint_loop_no_panic n data pos shift acc : varint_loop n data pos shift acc <> Err NVmPanic.
Proof.
  revert pos shift acc. induction n as [|n IH]; intros pos shift acc; cbn [varint_loop]; [done|].
  destruct (data !! Z.to_nat pos); [|done]. destruct (Z.land _ 128 =? 0); [done|apply IH].
Qed.

(** The end of a length-delimited field at [pos] wraps around. *)
Definition wraps (data : list Z) (pos : Z) : Prop :=
  exists len p, read_varint data pos = Ok (len, p) /\ 2 ^ 64 <= p + len.

Lemma read_bytes_panic data pos :
  0 <= pos -> data_len data < 2 ^ 63 ->
  read_bytes data pos = Err NVmPanic <-> wraps data pos.
Proof.
  intros Hp Hd. unfold read_bytes, wraps.
  destruct (read_varint data pos) as [[len q]|e] eqn:Hv; cbn [rbind].
  - pose proof (read_varint_ok _ _ _ _ Hp Hv) as [Hl Hq]. unfold is_u64, u64_max in Hl.
    unfold u64_add. split.
    + destruct (Z.ltb_spec (data_len data) ((q + len) mod 2 ^ 64)); [done|].
      destruct (Z.ltb_spec ((q + len) mod 2 ^ 64) q); [|done]. intros _. exists len, q.
      split; [done|]. destruct (decide (q + len < 2 ^ 64)); [|lia].
      rewrite Z.mod_small in * by lia. lia.
    + intros (len' & q' & [= <- <-] & Hw).
      replace ((q + len) mod 2 ^ 64) with (q + len - 2 ^ 64)
        by (apply Z.mod_unique with 1; lia).
      destruct (Z.ltb_spec (data_len data) (q + len - 2 ^ 64)); [lia|].
      destruct (Z.ltb_spec (q + len - 2 ^ 64) q); [done|lia].
  - split; [|by intros (? & ? & ? & _)]. intros [= ->]. by apply varint_loop_no_panic in Hv.
Qed.

Lemma read_bytes_ok data pos b p :
  0 <= pos -> read_bytes data pos = Ok (b, p) -> pos < p <= data_len data.
Proof.
  intros Hp. unfold read_bytes. destruct (read_varint data pos) as [[len q]|] eqn:Hv; [|done].
  apply read_varint_ok in Hv as [_ Hq]; [|done]. cbn [rbind].
  destruct (Z.ltb_spec (data_len data) (u64_add q len)); [done|].
  destruct (Z.ltb_spec (u64_add q len) q); [done|]. intros [= _ <-]. lia.
Qed.

Lemma skip_field_ok data pos w p :
  0 <= pos -> skip_field data pos w = Ok p -> pos < p <= data_len data.
Proof.
  intros Hp. unfold skip_field.
  destruct (w =? 0).
  { destruct (read_varint data pos) as [[v q]|] eqn:Hv; [|done]. intros [= <-].
    by apply read_varint_ok in Hv as [_ ?]. }
  destruct (w =? 1).
  { destruct (Z.ltb_spec (data_len data) (pos + 8)); [done|]. intros [= <-]. lia. }
  destruct (w =? 2).
  { destruct (read_bytes data pos) as [[v q]|] eqn:Hv; [|done]. intros [= <-].
    by apply read_bytes_ok in Hv. }
  destruct (w =? 5); [|done].
  destruct (Z.ltb_spec (data_len data) (pos + 4)); [done|]. intros [= <-]. lia.
Qed.

(* ------------------------------------------------------------------ *)
(** * Panics of the parser *)

(** [d] is a contiguous part of [data]. *)
Definition part_of (d data : list Z) : Prop := exists pre post, data = pre ++ d ++ post.

Lemma part_of_trans a b c : part_of a b -> part_of b c -> part_of a c.
Proof.
  intros (p1 & q1 & ->) (p2 & q2 & ->). exists (p2 ++ p1), (q1 ++ q2). by rewrite <-!app_assoc.
Qed.

Lemma part_of_len a b : part_of a b -> data_len a <= data_len b.
Proof. intros (p & q & ->). unfold data_len. rewrite !length_app. lia. Qed.

Lemma read_bytes_part data pos b p : read_bytes data pos = Ok (b, p) -> part_of b data.
Proof.
  unfold read_bytes. destruct (read_varint data pos) as [[len q]|]; [|done]. cbn [rbind].
  destruct (_ <? _); [done|]. destruct (_ <? _); [done|]. intros [= <- _].
  eexists (take (Z.to_nat q) data), (drop _ (drop (Z.to_nat q) data)).
  by rewrite !take_drop.
Qed.

(** Some field of [data], or of a field in it, has a length that wraps. *)
Definition wraps_inside (data : list Z) : Prop :=
  exists d pos, part_of d data /\ 0 <= pos /\ wraps d pos.

Lemma wraps_inside_part d data : part_of d data -> wraps_inside d -> wraps_inside data.
Proof. intros Hd (e & p & He & H). exists e, p. split; [by eapply part_of_trans|done]. Qed.

Definition panics_on_wrap {A} (data : list Z) (P : A -> Prop) (r : result NVmError A) : Prop :=
  match r with
  | Ok a => P a
  | Err e => e = NVmPanic -> wraps_inside data
  end.

Lemma part_of_refl data : part_of data data.
Proof. exists [], []. by rewrite app_nil_r. Qed.

Lemma panics_bind {A B} data (P : A -> Prop) (Q : B -> Prop) r (k : A -> result NVmError B) :
  panics_on_wrap data P r -> (forall a, P a -> panics_on_wrap data Q (k a)) ->
  panics_on_wrap data Q (rbind r k).
Proof. destruct r; cbn; auto. Qed.

Lemma panics_weaken {A} d data (P : A -> Prop) r :
  part_of d data -> panics_on_wrap d P r -> panics_on_wrap data P r.
Proof. destruct r; cbn; [done|]. intros Hd H He. by eapply wraps_inside_part, H. Qed.

Lemma panics_ok_or {A} data (P : A -> Prop) (o : option A) msg :
  (forall a, o = Some a -> P a) -> panics_on_wrap data P (ok_or o (RawChainVerify msg)).
Proof. destruct o; cbn; auto. done. Qed.

Section panics.
Variable data : list Z.
Hypothesis Hlen : data_len data < 2 ^ 63.

Lemma read_varint_panics pos :
  0 <= pos -> panics_on_wrap data (fun '(_, p) => pos < p <= data_len data) (read_varint data pos).
Proof.
  intros Hp. destruct (read_varint data pos) as [[v p]|e] eqn:H; cbn.
  - by apply read_varint_ok in H as [_ ?].
  - intros ->. by apply varint_loop_no_panic in H.
Qed.

Lemma read_bytes_panics pos :
  0 <= pos ->
  panics_on_wrap data (fun '(b, p) => pos < p <= data_len data /\ part_of b data)
    (read_bytes data pos).
Proof.
  intros Hp. destruct (read_bytes data pos) as [[b p]|e] eqn:H; cbn.
  - split; [by eapply read_bytes_ok|by eapply read_bytes_part].
  - intros ->. exists data, pos. split_and!; [apply part_of_refl|done|].
    by apply read_bytes_panic in H.
Qed.

Lemma skip_field_panics pos w :
  0 <= pos -> panics_on_wrap data (fun p => pos < p <= data_len data) (skip_field data pos w).
Proof.
  intros Hp. destruct (skip_field data pos w) as [p|e] eqn:H; cbn; [by eapply skip_field_ok|].
  intros ->. revert H. unfold skip_field.
  pose proof (read_varint_panics pos Hp) as Hv. pose proof (read_bytes_panics pos Hp) as Hb.
  destruct (w =? 0).
  { destruct (read_varint data pos) as [[??]|]; [done|]. intros [= ->]. by apply Hv. }
  destruct (w =? 1); [by destruct (_ <? _)|].
  destruct (w =? 2).
  { destruct (read_bytes data pos) as [[??]|]; [done|]. intros [= ->]. by apply Hb. }
  destruct (w =? 5); [by destruct (_ <? _)|done].
Qed.

Section loop.
Context {A : Type} (P : A -> Prop).
Variable handle : Z -> Z -> list Z -> Z -> A -> option (result NVmError (A * Z)).

(** A handler that moves on, keeps [P] and panics only on a wrap. *)
Definition handles : Prop := forall f w pos acc r,
  0 <= pos -> P acc -> handle f w data pos acc = Some r ->
  panics_on_wrap data (fun '(a, p) => P a /\ pos < p <= data_len data) r.

Lemma field_loop_panics fuel pos acc :
  handles -> 0 <= pos -> data_len data - pos <= Z.of_nat fuel -> P acc ->
  panics_on_wrap data P (field_loop handle fuel data pos acc).
Proof.
  intros Hh. revert pos acc. induction fuel as [|fuel IH]; intros pos acc Hp Hf Ha;
    cbn [field_loop]; destruct (Z.leb_spec (data_len data) pos); [done|lia|done|].
  eapply panics_bind; [by apply read_varint_panics|]. intros [tag p] Hpos. cbv beta iota in Hpos.
  destruct (handle _ _ data p acc) as [r|] eqn:Hr.
  - eapply panics_bind; [eapply Hh; [|exact Ha|exact Hr]; lia|].
    intros [a q] [Ha' Hq]. apply IH; [lia|lia|done].
  - eapply panics_bind; [apply skip_field_panics; lia|].
    intros q Hq. cbv beta in Hq. apply IH; [lia|lia|done].
Qed.

Lemma parse_fields_panics acc :
  handles -> P acc -> panics_on_wrap data P (parse_fields handle data acc).
Proof. intros. apply field_loop_panics; [done|lia|unfold data_len; lia|done]. Qed.
End loop.

Lemma bytes_field_panics {A} (P : A -> Prop) pos set r :
  0 <= pos -> (forall b, part_of b data -> panics_on_wrap data P (set b)) ->
  bytes_field data pos set = Some r ->
  panics_on_wrap data (fun '(a, p) => P a /\ pos < p <= data_len data) r.
Proof.
  intros Hp Hs [= <-]. eapply panics_bind; [by apply read_bytes_panics|]. intros [b p] [? Hb].
  eapply panics_bind; [by apply Hs|]. intros a ?. done.
Qed.

Lemma varint_field_panics {A} (P : A -> Prop) pos set r :
  0 <= pos -> (forall v, P (set v)) -> varint_field data pos set = Some r ->
  panics_on_wrap data (fun '(a, p) => P a /\ pos < p <= data_len data) r.
Proof.
  intros Hp Hs [= <-]. eapply panics_bind; [by apply read_varint_panics|]. by intros [v p].
Qed.
End panics.

(** The handlers of the parsers: the slices they keep are parts of the data. *)
Definition opt_part (data : list Z) (o : option (list Z)) : Prop :=
  forall b, o = Some b -> part_of b data.

Lemma opt_part_some data b : part_of b data -> opt_part data (Some b).
Proof. by intros H ? [= <-]. Qed.

Create HintDb tron.
#[export] Hint Resolve opt_part_some : tron.
#[export] Hint Extern 1 (opt_part _ None) => by intros ? : tron.

Ltac handler :=
  repeat match goal with
  | H : context [is_field ?f ?w ?a ?b] |- _ => destruct (is_field f w a b); cbv iota in H
  end; try done.

Lemma contract_field_handles data :
  data_len data < 2 ^ 63 -> handles data (opt_part data) contract_field.
Proof.
  intros Hl f w pos acc r Hp Ha H. unfold contract_field in H. handler.
  eapply bytes_field_panics; [done..| |exact H]. intros b Hb. cbn. auto with tron.
Qed.

Lemma any_value_handles data :
  data_len data < 2 ^ 63 -> handles data (opt_part data) any_value.
Proof.
  intros Hl f w pos acc r Hp Ha H. unfold any_value in H. handler.
  eapply bytes_field_panics; [done..| |exact H]. intros b Hb. cbn. auto with tron.
Qed.

Lemma type_and_parameter_handles data :
  data_len data < 2 ^ 63 ->
  handles data (fun acc => opt_part data (snd acc)) type_and_parameter.
Proof.
  intros Hl f w pos acc r Hp Ha H. unfold type_and_parameter in H. handler.
  - eapply varint_field_panics; [done| |exact H]. intros v. exact Ha.
  - eapply bytes_field_panics; [done..| |exact H]. intros b Hb. cbn. auto with tron.
Qed.

Lemma outer_field_handles data :
  data_len data < 2 ^ 63 ->
  handles data (fun acc => opt_part data (fst acc) /\ opt_part data (snd acc)) outer_field.
Proof.
  intros Hl f w pos acc r Hp [Ha1 Ha2] H. unfold outer_field in H. handler;
    (eapply bytes_field_panics; [done..| |exact H]); intros b Hb; cbn; auto with tron.
Qed.

Lemma addr_panics {A} data (P : A -> Prop) b (k : Z -> result NVmError A) :
  (forall a, panics_on_wrap data P (k a)) ->
  panics_on_wrap data P (rbind (tron_addr_to_20 b) k).
Proof.
  intros H. unfold tron_addr_to_20. destruct (_ && _); [apply H|].
  destruct (_ =? _)%nat; [apply H|done].
Qed.
#[export] Hint Resolve addr_panics : tron.

Lemma transfer_field_handles data :
  data_len data < 2 ^ 63 -> handles data (fun _ => True) transfer_field.
Proof.
  intros Hl f w pos [[owner to] amount] r Hp _ H. unfold transfer_field in H. handler;
    first [ eapply varint_field_panics; [done| |exact H]; done
          | eapply bytes_field_panics; [done..| |exact H]; intros b Hb; by apply addr_panics ].
Qed.

Lemma trigger_field_handles data :
  data_len data < 2 ^ 63 -> handles data (fun _ => True) trigger_field.
Proof.
  intros Hl f w pos [[[owner contract] value] calldata] r Hp _ H. unfold trigger_field in H.
  handler;
    first [ eapply varint_field_panics; [done| |exact H]; done
          | eapply bytes_field_panics; [done..| |exact H]; intros b Hb;
            first [by apply addr_panics|done] ].
Qed.

Lemma parse_raw_data_contracts_panics data :
  data_len data < 2 ^ 63 ->
  panics_on_wrap data (fun '(_, b) => part_of b data) (parse_raw_data_contracts data).
Proof.
  intros Hl. unfold parse_raw_data_contracts.
  eapply panics_bind; [apply (parse_fields_panics data Hl (opt_part data)); [by apply contract_field_handles|auto with tron]|].
  intros found Hf. eapply panics_bind; [apply (panics_ok_or data (fun b => part_of b data)), Hf|].
  intros c Hc. cbv beta in Hc. assert (data_len c < 2 ^ 63) as Hlc by (apply part_of_len in Hc; lia).
  apply (panics_weaken c); [done|].
  eapply panics_bind.
  { apply (parse_fields_panics c Hlc (fun acc => opt_part c (snd acc)));
      [by apply type_and_parameter_handles|cbn; auto with tron]. }
  intros [ty par] Hpar. cbn [snd] in Hpar.
  eapply panics_bind; [by apply (panics_ok_or c (fun _ => True))|]. intros v _.
  eapply (panics_bind c (fun _ => True)); [by repeat case_match|]. intros ct _.
  eapply panics_bind; [apply (panics_ok_or c (fun b => part_of b c)), Hpar|]. intros a Ha.
  cbv beta in Ha. assert (data_len a < 2 ^ 63) as Hla by (apply part_of_len in Ha; lia).
  eapply panics_bind; [apply (panics_weaken a); [done|];
    apply (parse_fields_panics a Hla (opt_part a)); [by apply any_value_handles|auto with tron]|].
  intros value Hv. eapply panics_bind; [apply (panics_ok_or c (fun b => part_of b a)), Hv|].
  intros b Hb. exact (part_of_trans _ _ _ Hb (part_of_trans _ _ _ Ha Hc)).
Qed.

Lemma parse_tron_tx_panics data :
  data_len data < 2 ^ 63 ->
  panics_on_wrap data
    (fun p => length (tron_signature p) = 65%nat /\ part_of (contract_parameter p) data)
    (parse_tron_tx data).
Proof.
  intros Hl. unfold parse_tron_tx. eapply panics_bind.
  { apply (parse_fields_panics data Hl
      (fun acc => opt_part data (fst acc) /\ opt_part data (snd acc)));
      [by apply outer_field_handles|cbn; auto with tron]. }
  intros [raw sig] [Hraw Hsig]. cbn [fst snd] in *.
  eapply panics_bind; [apply (panics_ok_or data (fun b => part_of b data)), Hraw|]. intros d Hd.
  eapply panics_bind; [by apply (panics_ok_or data (fun _ => True))|]. intros s _.
  destruct (Nat.eqb_spec (length s) 65) as [Hs|]; [|done]. cbn [negb]. cbv beta in Hd.
  eapply panics_bind.
  { apply (panics_weaken d); [done|]. apply parse_raw_data_contracts_panics.
    apply part_of_len in Hd. lia. }
  intros [ty par] Hp. split; [done|]. exact (part_of_trans _ _ _ Hp Hd).
Qed.

Lemma canonical_panics parsed :
  data_len (contract_parameter parsed) < 2 ^ 63 ->
  panics_on_wrap (contract_parameter parsed) (fun _ => True)
    (canonical_tron_payload_from_parsed parsed).
Proof.
  intros Hl. unfold canonical_tron_payload_from_parsed. destruct (contract_type parsed).
  - eapply (panics_bind _ (fun _ => True)); [|done]. unfold parse_transfer_contract.
    eapply panics_bind; [by apply (parse_fields_panics _ Hl (fun _ => True)); [apply transfer_field_handles|]|].
    intros [addrs amount] _. destruct (fst addrs), (snd addrs); done.
  - eapply (panics_bind _ (fun _ => True)); [|done]. unfold parse_trigger_smart_contract.
    eapply panics_bind; [by apply (parse_fields_panics _ Hl (fun _ => True)); [apply trigger_field_handles|]|].
    intros [[[[o|] [c|]] v] cd] _; done.
Qed.

Section verified.
Context {CE : CryptoEnv} {K : K256}.

Lemma recover_panics data parsed :
  length (tron_signature parsed) = 65%nat ->
  panics_on_wrap data (fun _ => True) (recover_signer_from_parsed parsed).
Proof.
  intros Hl. unfold recover_signer_from_parsed.
  destruct (lookup_lt_is_Some_2 (tron_signature parsed) 64) as [v ->]; [lia|].
  cbn [ok_or rbind]. unfold ecrecover_addr. destruct (_ || _); [done|].
  destruct (negb _); [done|]. by destruct (k256_recover _ _ _).
Qed.

(** Verifying a raw Tron transaction against the state terminates and, on
    any input shorter than 2^63 bytes, panics only when some length-delimited
    field has a length for which the end of the field wraps around 64 bits.
    Such an input exists and needs eleven bytes: the first tag of a transaction
    followed by the length 2^64 - 1 passes the bounds check of [read_bytes] and
    panics in its slice, in the recovery of the signer that the RPC server runs
    on submitted bytes as well. *)
Theorem tron_panics_on_length_wrap (state : StateTree) :
  (forall data, data_len data < 2 ^ 63 ->
    verify_raw_tron_against_state state data = Err NVmPanic -> wraps_inside data) /\
  (let data := [10] ++ replicate 9 255 ++ [1] in
   verify_raw_tron_against_state state data = Err NVmPanic /\
   verify_raw_tron_recover_signer data = Err NVmPanic).
Proof.
  split; [|done]. intros data Hl Hv.
  assert (panics_on_wrap data (fun _ => True) (verify_raw_tron_against_state state data)) as H.
  { unfold verify_raw_tron_against_state. eapply panics_bind; [by apply parse_tron_tx_panics|].
    intros parsed [Hs Hp]. cbv zeta. eapply panics_bind; [by apply recover_panics|]. intros signer _.
    destruct (negb _); [done|]. destruct (negb _); [done|].
    eapply panics_bind; [|by intros]. apply (panics_weaken (contract_parameter parsed)); [done|].
    apply canonical_panics. apply part_of_len in Hp. lia. }
  rewrite Hv in H. by apply H.
Qed.
End verified.

Module SampleK256.
#[export] Instance sample_k256 : K256 := {|
  k256_signature _ := true;
  k256_recover _ sig _ := Some (4 :: sig);
|}.
End SampleK256.

Lemma tron_panics_on_length_wrap_witness :
  wraps_inside ([10] ++ replicate 9 255 ++ [1]).
Proof.
  destruct (@tron_panics_on_length_wrap SampleEnv.sample_env SampleK256.sample_k256
              state_new) as [H _].
  apply H; reflexivity.
Defined.
