(* ===== verification/Dispatch.v ===== *)
(** The n-VM dispatcher (ace-n-vm/src/dispatcher.rs up to the parallel part,
    and native.rs).

    A transaction is authorised, by the native signature of a foreign chain, by
    a zero-knowledge proof or by a credential, and routed by its first byte to
    one of the registered engines or to the HFI Pay hook, with the state
    restored when anything fails.  The native engine is the one of [Engine], the
    verifiers of Tron and Solana the ones of [RawTron] and [RawSolana].  The
    other engines and the hook are trait objects the dispatcher is constructed
    with, so they are arguments.

    [RawVerifiers] abstracts code of the repository that is not translated:
    raw_evm.rs, which sits on the rlp crate, and raw_btc.rs.  What is proved here
    holds whatever those verifiers answer. *)

From S2P Require Import Prelude SigAlgo ValidatorSet Account StateTree Slots StateM.
From S2P Require Import Wire Payload Transaction Engine Vm Token RawSolana RawTron.
Local Open Scope Z_scope.
Local Open Scope ace_scope.

(* ------------------------------------------------------------------ *)
(** * Data *)

Record NVm := {
  engines : VmId -> option VmEngine;
  hfi_claim : option (Transaction -> Z -> M string VmReceipt);
}.

(** The fields of a verified transaction the dispatcher reads. *)
Record VerifiedBtc := {
  btc_sender_idcom : AccountId;
  btc_payload : list Z;
}.

Class RawVerifiers := {
  raw_spl :: SplEnv;
  raw_ed25519 :: Ed25519;
  verify_raw_evm : list Z -> result NVmError (Z * Z);
  canonical_evm_payload : list Z -> result NVmError (list Z);
  verify_raw_btc : StateTree -> list Z -> result NVmError VerifiedBtc;
}.

(* ------------------------------------------------------------------ *)
(** * Foreign transactions *)

Section dispatch.
Context {CE : CryptoEnv} {K : K256} {RV : RawVerifiers}.

Definition bind_evm_alias_account (id : AccountId) (evm_address : Z) : M NVmError unit :=
  let! found := get_account id in
  let! account := require found (NVmAccountNotFound id) in
  if negb (bool_decide (acc_evm_address account = Some evm_address)) then
    modify (fun t => insert_account env_sha256 t
      (set_aliases account (acc_xid account) (Some evm_address) (acc_tron_address account)))
  else ret tt.

Definition bind_tron_alias_account (id : AccountId) (tron_address : Z) : M NVmError unit :=
  let! found := get_account id in
  let! account := require found (NVmAccountNotFound id) in
  if negb (bool_decide (acc_tron_address account = Some tron_address)) then
    modify (fun t => insert_account env_sha256 t
      (set_aliases account (acc_xid account) (acc_evm_address account) (Some tron_address)))
  else ret tt.

Definition prepare_raw_chain_accounts (tx : Transaction) : M NVmError unit :=
  match raw_chain tx with
  | None => ret tt
  | Some raw =>
      let sender := tx_sender tx in
      let bad_sender := NVmInvalidCredential sender in
      match raw_kind raw with
      | RawEvm =>
          let! (signer, chain) := lift (verify_raw_evm (raw_bytes raw)) in
          do! fail_if (negb (chain =? chain_id (att_domain (attestation tx))))
            (RawChainVerify "evm chain_id does not match attestation domain") in
          do! fail_if (negb (sender =? legacy_idcom_evm env_sha256 signer)) bad_sender in
          let! expected_payload := lift (canonical_evm_payload (raw_bytes raw)) in
          do! fail_if (negb (bool_decide (payload tx = expected_payload)))
            (RawChainVerify "evm raw payload does not match canonical reconstruction") in
          bind_evm_alias_account sender signer
      | RawSolana =>
          let! t := get in
          let! verified := lift (verify_raw_solana_transfer_for_slot t (raw_bytes raw)
            (chain_id (att_domain (attestation tx)))
            (domain_slot (att_domain (attestation tx)))) in
          do! fail_if (negb (sender =? sol_sender_idcom verified)) bad_sender in
          do! fail_if (negb (bool_decide (payload tx = sol_canonical_payload verified)))
            (RawChainVerify "solana raw payload does not match canonical reconstruction") in
          let recipient := sol_recipient_idcom verified in
          let! present := contains recipient in
          if negb present then
            modify (fun t => insert_account env_sha256 t (account_new recipient))
          else ret tt
      | RawBtc =>
          let! t := get in
          let! verified := lift (verify_raw_btc t (raw_bytes raw)) in
          do! fail_if (negb (sender =? btc_sender_idcom verified)) bad_sender in
          fail_if (negb (bool_decide (payload tx = btc_payload verified)))
            (RawChainVerify "btc raw payload does not match canonical reconstruction")
      | RawTron =>
          let! t := get in
          let! verified := lift (verify_raw_tron_against_state t (raw_bytes raw)) in
          do! fail_if (negb (sender =? tron_sender_idcom verified)) bad_sender in
          do! fail_if (negb (bool_decide (payload tx = tron_canonical_payload verified)))
            (RawChainVerify "tron raw payload does not match canonical reconstruction") in
          do! fail_if (negb (domain_slot (att_domain (attestation tx)) =? tron_domain_slot verified))
            (RawChainVerify "tron attestation slot does not match canonical ACE domain slot") in
          bind_tron_alias_account sender (tron_signer verified)
      end
  end.

(* ------------------------------------------------------------------ *)
(** * The native engine *)

Definition native_engine (policy : ExecutionPolicy) : VmEngine := fun tx t =>
  match execute_transaction tx policy t with
  | (t', Ok r) =>
      (t', Ok {| vm_id := AceNative; vm_tx_hash := receipt_tx_hash r;
                 vm_success := receipt_success r; vm_sender := receipt_sender r;
                 vm_changes := receipt_changes r; vm_error := receipt_error r;
                 vm_simulated := false; vm_gas_used := None; vm_contract_address := None;
                 vm_return_data := None; vm_logs := [] |})
  | (t', Err e) => (t', Err (nvm_error_to_vm (NativeError (error_text e))))
  end.

(* ------------------------------------------------------------------ *)
(** * Authorisation *)

Definition nvm_decode (l : list Z) : result NVmError TransactionOp :=
  match engine_decode l with
  | Ok op => Ok op
  | Err e => Err (NativeError (error_text e))
  end.

(** The key for a native transaction that is not from a foreign chain. *)
Definition native_auth_key (sender_account : option Account) (tx : Transaction) (op : TransactionOp)
    : result NVmError TaggedPubkey :=
  let sender := tx_sender tx in
  let sig_alg := sig_algorithm (credential (attestation tx)) in
  match sender_account with
  | Some a =>
      match op with
      | SetAuthPubkey _ auth_pubkey | AddAuthKey _ auth_pubkey =>
          Ok (key_update_key a sig_alg auth_pubkey)
      | _ => ok_or (auth_key_for_algorithm a sig_alg) (NVmInvalidCredential sender)
      end
  | None =>
      if bool_decide (head (payload tx) = Some 2) then
        match op with
        | CreateAccount id_com auth_pubkey =>
            if id_com =? sender then Ok auth_pubkey else Err (NVmInvalidCredential sender)
        | _ => Err (NVmInvalidCredential sender)
        end
      else Err (NVmAccountNotFound sender)
  end.

Definition check_credential (tx : Transaction) (k : TaggedPubkey) : M NVmError unit :=
  fail_if (negb (verify_credential env_sha256 env_devnet (attestation tx) (payload tx) k))
    (NVmInvalidCredential (tx_sender tx)).

Definition credential_auth (tx : Transaction) (opcode : Z) : M NVmError unit :=
  let sender := tx_sender tx in
  if bool_decide (vm_from_opcode opcode = Some AceNative) then
    let! op := lift (nvm_decode (payload tx)) in
    let! sender_account := get_account sender in
    let! auth_key := lift (native_auth_key sender_account tx op) in
    check_credential tx auth_key
  else
    let! found := get_account sender in
    let! sender_account := require found (NVmAccountNotFound sender) in
    let! auth_key :=
      require (auth_key_for_algorithm sender_account
                 (sig_algorithm (credential (attestation tx)))) (NVmInvalidCredential sender) in
    check_credential tx auth_key.

Definition raw_auth (tx : Transaction) (raw : RawChainPayload) : M NVmError unit :=
  do! match raw_committee_domain (raw_kind raw) with
      | Some domain =>
          match committee_certificate raw with
          | None => fail (RawChainVerify "raw transaction requires a committee certificate")
          | Some cert =>
              match domain, cert_domain cert with
              | BtcPayments, BtcPayments | SolanaLight, SolanaLight => ret tt
              | _, _ => fail (RawChainVerify "committee certificate domain mismatch")
              end
          end
      | None => ret tt
      end in
  prepare_raw_chain_accounts tx.

Definition authorise (tx : Transaction) (opcode : Z) : M NVmError unit :=
  match raw_chain tx with
  | Some raw => raw_auth tx raw
  | None =>
      match zk_auth tx with
      | Some zk =>
          do! fail_if (negb (opcode =? 1)) (NVmInvalidCredential (tx_sender tx)) in
          fail_if (negb (env_verify_zk tx zk)) (InternalError "ZK-ACE: ")
      | None => credential_auth tx opcode
      end
  end.

(* ------------------------------------------------------------------ *)
(** * Dispatch *)

Definition is_hfi_opcode (opcode : Z) : bool := (6 <=? opcode) && (opcode <=? 11).

Definition tron_marker (tx : Transaction) : result NVmError (option (Z * Z)) :=
  match raw_chain tx with
  | Some raw =>
      match raw_kind raw with
      | RawTron =>
          let? m := tron_replay_state (raw_bytes raw) (domain_slot (att_domain (attestation tx))) in
          Ok (Some m)
      | _ => Ok None
      end
  | None => Ok None
  end.

Definition add_change (r : VmReceipt) (c : StateChange) : VmReceipt :=
  {| vm_id := vm_id r; vm_tx_hash := vm_tx_hash r; vm_success := vm_success r;
     vm_sender := vm_sender r; vm_changes := vm_changes r ++ [c]; vm_error := vm_error r;
     vm_simulated := vm_simulated r; vm_gas_used := vm_gas_used r;
     vm_contract_address := vm_contract_address r; vm_return_data := vm_return_data r;
     vm_logs := vm_logs r |}.

Definition write_marker (sender : AccountId) (marker : option (Z * Z)) (r : VmReceipt)
    : M NVmError VmReceipt :=
  match marker with
  | Some (replay_slot, value) =>
      do! modify (fun t => set_storage t sender replay_slot value) in
      ret (add_change r (StorageChange sender replay_slot 0 value))
  | None => ret r
  end.

Definition dispatch (vm : NVm) (tx : Transaction) (opcode block_slot : Z) : M NVmError VmReceipt :=
  let sender := tx_sender tx in
  let! marker := lift (tron_marker tx) in
  do! authorise tx opcode in
  if is_hfi_opcode opcode then
    let! hook := require (hfi_claim vm) HfiPayClaimNotConfigured in
    let! receipt := map_err HfiPayClaim (hook tx block_slot) in
    write_marker sender marker receipt
  else
    let! vm_id := require (vm_from_opcode opcode) (UnknownOpcode opcode) in
    let! engine := require (engines vm vm_id) (NoEngine vm_id) in
    let! receipt := map_err vm_error_into (engine tx) in
    write_marker sender marker receipt.

Definition nvm_execute_transaction (vm : NVm) (tx : Transaction) (block_slot : Z)
    : M NVmError VmReceipt :=
  match payload tx with
  | [] => fail EmptyPayload
  | opcode :: _ =>
      if is_raw_chain tx && is_zk_auth tx then
        fail (InternalError "raw_chain and zk_auth are mutually exclusive")
      else atomically (dispatch vm tx opcode block_slot)
  end.

Definition vm_failure (tx : Transaction) (msg : string) : VmReceipt :=
  {| vm_id := default AceNative (head (payload tx) ≫= vm_from_opcode);
     vm_tx_hash := tx_hash env_sha256 tx; vm_success := false; vm_sender := tx_sender tx;
     vm_changes := []; vm_error := Some msg; vm_simulated := false; vm_gas_used := None;
     vm_contract_address := None; vm_return_data := None; vm_logs := [] |}.

(** One transaction of [execute_block]: an error becomes a failure receipt. *)
Definition nvm_step (vm : NVm) (block_slot : Z) (t : StateTree) (tx : Transaction)
    : StateTree * VmReceipt :=
  match nvm_execute_transaction vm tx block_slot t with
  | (t', Ok r) => (t', r)
  | (t', Err e) => (t', vm_failure tx (nvm_error_text e))
  end.

Fixpoint nvm_execute_block (vm : NVm) (block_slot : Z) (t : StateTree) (txs : list Transaction)
    : StateTree * list VmReceipt :=
  match txs with
  | [] => (t, [])
  | tx :: txs =>
      let '(t, r) := nvm_step vm block_slot t tx in
      let '(t, rs) := nvm_execute_block vm block_slot t txs in
      (t, r :: rs)
  end.
End dispatch.

(* ------------------------------------------------------------------ *)
(** * Failed transactions, and replay of Tron transactions *)

Section theorems.
Context {CE : CryptoEnv} {K : K256} {RV : RawVerifiers}.

Lemma nvm_error_restores vm tx slot t t' e :
  nvm_execute_transaction vm tx slot t = (t', Err e) -> t' = t.
Proof.
  unfold nvm_execute_transaction. destruct (payload tx) as [|op ?]; [by intros [= <- _]|].
  destruct (is_raw_chain tx && is_zk_auth tx); [by intros [= <- _]|]. apply atomically_err.
Qed.

(** A replay marker is a non-zero word. *)
Lemma tron_replay_marker_nonzero slot : tron_replay_marker slot <> 0.
Proof.
  intros H. unfold tron_replay_marker in H.
  assert (Forall is_byte ([1] ++ le_bytes 8 slot ++ replicate 23 0)) as Hb.
  { apply Forall_app; split; [by repeat constructor|].
    apply Forall_app; split; [apply le_bytes_byte|by apply Forall_replicate]. }
  apply be_bytes_num in Hb. rewrite H in Hb. discriminate Hb.
Qed.

(** A Tron transaction that runs leaves its marker under the sender. *)
Lemma tron_leaves_marker vm tx slot t t' r raw parsed :
  raw_chain tx = Some raw -> raw_kind raw = RawTron ->
  parse_tron_tx (raw_bytes raw) = Ok parsed ->
  nvm_execute_transaction vm tx slot t = (t', Ok r) ->
  get_storage t' (tx_sender tx) (tron_replay_slot (tron_raw_data_hash (raw_data parsed))) <> 0.
Proof.
  intros Hraw Hk Hp. unfold nvm_execute_transaction.
  destruct (payload tx) as [|op pl]; [done|].
  destruct (is_raw_chain tx && is_zk_auth tx); [done|].
  intros H. apply atomically_ok in H. revert H.
  unfold dispatch, tron_marker. rewrite Hraw, Hk.
  unfold tron_replay_state, tron_raw_tx_hash. rewrite Hp. cbn [rbind].
  assert (forall m k s, bind (E := NVmError) m (fun r => write_marker (tx_sender tx)
      (Some (tron_replay_slot (tron_raw_data_hash (raw_data parsed)), tron_replay_marker k)) r) s
      = (t', Ok r) ->
      get_storage t' (tx_sender tx)
        (tron_replay_slot (tron_raw_data_hash (raw_data parsed))) <> 0) as Hw.
  { intros m k s. unfold bind, write_marker, modify, ret.
    destruct (m s) as [s' [a|e]]; [|done]. intros [= <- _]. rewrite get_set_storage.
    apply tron_replay_marker_nonzero. }
  cbn [bind lift]. unfold bind at 1. cbn [lift]. unfold bind at 1.
  destruct (authorise tx op t) as [s [u|e]]; [|done].
  destruct (is_hfi_opcode op).
  - unfold bind at 1. destruct (hfi_claim vm); [cbn [require ret]; apply Hw|done].
  - unfold bind at 1. destruct (vm_from_opcode op) as [v|]; [|done]. cbn [require ret].
    unfold bind at 1. destruct (engines vm v); [cbn [require ret]; apply Hw|done].
Qed.

(** Where the marker of a Tron transaction is set, the transaction fails. *)
Lemma tron_marked_fails vm tx slot t raw parsed :
  raw_chain tx = Some raw -> raw_kind raw = RawTron ->
  parse_tron_tx (raw_bytes raw) = Ok parsed ->
  get_storage t (tx_sender tx) (tron_replay_slot (tron_raw_data_hash (raw_data parsed))) <> 0 ->
  exists e, nvm_execute_transaction vm tx slot t = (t, Err e).
Proof.
  intros Hraw Hk Hp Hm.
  destruct (nvm_execute_transaction vm tx slot t) as [t' [r|e]] eqn:H;
    [|exists e; by rewrite (nvm_error_restores _ _ _ _ _ _ H)].
  exfalso. revert H. unfold nvm_execute_transaction. destruct (payload tx) as [|op pl]; [done|].
  destruct (is_raw_chain tx && is_zk_auth tx); [done|].
  intros H. apply atomically_ok in H. revert H. unfold dispatch. unfold bind at 1.
  destruct (lift (tron_marker tx) t) as [s [mk|]] eqn:Hl; [|done].
  injection Hl as <- _. unfold bind at 1.
  unfold authorise. rewrite Hraw. unfold raw_auth, prepare_raw_chain_accounts.
  rewrite Hraw, Hk. cbn [raw_committee_domain]. unfold bind, ret, get, lift.
  unfold verify_raw_tron_against_state. rewrite Hp. cbn [rbind].
  destruct (recover_signer_from_parsed parsed) as [signer|]; [|done]. cbn [rbind].
  destruct (negb (bool_decide _)); [done|].
  destruct (Z.eqb_spec (get_storage t (legacy_idcom_tron env_sha256 signer)
    (tron_replay_slot (tron_raw_data_hash (raw_data parsed)))) 0) as [Hz|]; [|done]. cbn [negb].
  destruct (canonical_tron_payload_from_parsed parsed) as [c|]; [|done].
  cbn [rbind tron_sender_idcom]. unfold fail_if.
  destruct (Z.eqb_spec (tx_sender tx) (legacy_idcom_tron env_sha256 signer)) as [Hs|]; [|done].
  by rewrite Hs in Hm.
Qed.

(** C27. A transaction signed on Tron runs at most once.  After one has
    succeeded, with any engines and any hook, every transaction of the same
    sender that carries the same Tron raw data (also under another signature
    or another encoding of the envelope) is rejected with the state unchanged,
    in every state that keeps the replay marker the first one wrote. *)
Theorem tron_runs_once vm tx slot t t' r raw parsed vm2 tx2 slot2 t2 raw2 parsed2 :
  raw_chain tx = Some raw -> raw_kind raw = RawTron ->
  parse_tron_tx (raw_bytes raw) = Ok parsed ->
  nvm_execute_transaction vm tx slot t = (t', Ok r) ->
  raw_chain tx2 = Some raw2 -> raw_kind raw2 = RawTron ->
  parse_tron_tx (raw_bytes raw2) = Ok parsed2 ->
  tx_sender tx2 = tx_sender tx -> raw_data parsed2 = raw_data parsed ->
  (let replay_slot := tron_replay_slot (tron_raw_data_hash (raw_data parsed)) in
   get_storage t2 (tx_sender tx) replay_slot = get_storage t' (tx_sender tx) replay_slot) ->
  exists e, nvm_execute_transaction vm2 tx2 slot2 t2 = (t2, Err e).
Proof.
  intros Hraw Hk Hp He Hraw2 Hk2 Hp2 Hs Hd Hkeep. cbv zeta in Hkeep.
  eapply tron_marked_fails; [done..|]. rewrite Hs, Hd, Hkeep. by eapply tron_leaves_marker.
Qed.
End theorems.

(* ------------------------------------------------------------------ *)
(** * What an engine promises the dispatcher *)

(** A successful run creates and destroys no money, keeps accounts, nonces and
    replay commitments.  Nothing is asked of a failed run: it is rolled back. *)
Class Conserving {E} (run : Transaction -> M E VmReceipt) : Prop :=
  conserving tx t t' r : tree_fits t -> Forall is_byte (payload tx) ->
    run tx t = (t', Ok r) -> moved t t' 0.

(** The engine or the hook that runs the transactions with first byte [op] keeps
    this promise. *)
Record route_conserving (vm : NVm) (op : Z) : Prop := {
  rc_engine v e : is_hfi_opcode op = false -> vm_from_opcode op = Some v -> engines vm v = Some e -> Conserving e;
  rc_hook h slot : is_hfi_opcode op = true -> hfi_claim vm = Some h -> Conserving (fun tx => h tx slot);
}.

Section conservation.
Context {CE : CryptoEnv} {K : K256} {RV : RawVerifiers}.

#[export] Instance native_conserving policy : Conserving (native_engine policy).
Proof.
  intros tx t t' r Hf Hb. unfold native_engine.
  destruct (execute_transaction tx policy t) as [t1 [x|e]] eqn:He; [|done]. intros [= <- _].
  by destruct (wp_run _ _ _ _ _ (execute_spec t tx policy Hf Hb) He) as [(d & Hm & ->) _].
Qed.

Definition ok_moves {E A} (t t' : StateTree) (r : result E A) : Prop :=
  match r with Ok _ => moved t t' 0 | Err _ => True end.

Lemma ok_moves_bind {E A B} (m : M E A) (k : A -> M E B) t :
  wp m t (ok_moves t) ->
  (forall a t1, moved t t1 0 -> wp (k a) t1 (ok_moves t1)) -> wp (bind m k) t (ok_moves t).
Proof.
  intros Hm Hk. apply wp_bind. eapply wp_mono; [|exact Hm]. intros t1 [a|e] H1; [|done].
  eapply wp_mono; [|by apply Hk]. intros t2 [b|e] H2; [|done]. exact (moved_trans _ _ _ 0 0 H1 H2).
Qed.

(** Writing the aliases of an account, and creating an empty one. *)
Lemma alias_moves t id a b :
  tree_fits t -> accounts t !! id = Some a -> same_money a b ->
  moved t (insert_account env_sha256 t b) 0.
Proof.
  intros Hf Ha Hs. eapply (moved_same_money t _ id a b); [done|done|done| |done].
  pose proof (fits_lookup _ _ _ Hf Ha) as (Hi & _). destruct Hs as (Hib & _). cbn. by rewrite Hib, Hi.
Qed.

Lemma prepare_moves t tx :
  tree_fits t -> wp (prepare_raw_chain_accounts tx) t (ok_moves t).
Proof.
  intros Hf. unfold prepare_raw_chain_accounts. destruct (raw_chain tx) as [raw|];
    [|by apply moved_refl].
  destruct (raw_kind raw); cbv beta zeta.
  - wp_step. wp_step. destruct (verify_raw_evm _) as [[signer chain]|]; [|done]. wp_step.
    wp_go; try done. destruct (canonical_evm_payload _); wp_go; try done.
    unfold bind_evm_alias_account. wp_go; try done; [by eapply alias_moves|by apply moved_refl].
  - wp_go. destruct (verify_raw_solana_transfer_for_slot _ _ _ _); wp_go; try done; [|by apply moved_refl].
    match goal with |- ok_moves _ (insert_account _ _ ?x) _ =>
      apply (moved_new t _ (acc_id_com x) x) end;
      [done|done|apply eq_None_not_Some; by bool_prop| |done].
    split_and!; cbn; [done|unfold is_u64, u64_max; lia..].
  - wp_go. destruct (verify_raw_btc _ _); wp_go; try done. by apply moved_refl.
  - wp_go. destruct (verify_raw_tron_against_state _ _); wp_go; try done.
    unfold bind_tron_alias_account. wp_go; try done; [by eapply alias_moves|by apply moved_refl].
Qed.

Lemma authorise_moves t tx op : tree_fits t -> wp (authorise tx op) t (ok_moves t).
Proof.
  intros Hf. pose proof (moved_refl t Hf) as Hr. unfold authorise.
  destruct (raw_chain tx) as [raw|].
  - unfold raw_auth. apply ok_moves_bind; [by repeat case_match|].
    intros _ t1 H1. apply prepare_moves, H1.
  - destruct (zk_auth tx); [by wp_go|]. unfold credential_auth, check_credential.
    case_match; wp_go; try done. destruct (nvm_decode _); wp_go; try done.
    destruct (native_auth_key _ _ _); by wp_go.
Qed.

Lemma write_marker_moves t id marker r : tree_fits t -> wp (write_marker id marker r) t (ok_moves t).
Proof.
  intros Hf. unfold write_marker. destruct marker as [[slot v]|]; wp_go; [|by apply moved_refl].
  by apply moved_same.
Qed.

Lemma run_moves {E F} (f : E -> F) (run : Transaction -> M E VmReceipt) tx t :
  Conserving run -> tree_fits t -> Forall is_byte (payload tx) ->
  wp (map_err f (run tx)) t (ok_moves t).
Proof.
  intros Hc Hf Hb. unfold wp, map_err. destruct (run tx t) as [t' [r|e]] eqn:Hr; [|done].
  cbn. by eapply Hc.
Qed.

Lemma run_marked {E} (f : E -> NVmError) (run : Transaction -> M E VmReceipt) tx t id marker :
  Conserving run -> tree_fits t -> Forall is_byte (payload tx) ->
  wp (let! r := map_err f (run tx) in write_marker id marker r) t (ok_moves t).
Proof.
  intros Hc Hf Hb. apply ok_moves_bind; [by apply run_moves|].
  intros r t1 H1. apply write_marker_moves, H1.
Qed.

Lemma dispatch_moves vm tx op slot t :
  route_conserving vm op -> tree_fits t -> Forall is_byte (payload tx) ->
  wp (dispatch vm tx op slot) t (ok_moves t).
Proof.
  intros [He Hh] Hf Hb. unfold dispatch. apply ok_moves_bind.
  { unfold wp, lift. cbn. destruct (tron_marker tx); [by apply moved_refl|done]. }
  intros marker t1 [Hf1 _ _ _]. apply ok_moves_bind; [by apply authorise_moves|].
  intros _ t2 [Hf2 _ _ _]. destruct (is_hfi_opcode op) eqn:Eop.
  - apply wp_bind, wp_require; [intros h Eh|done].
    apply (run_marked HfiPayClaim (fun tx => h tx slot)); [by apply Hh|done..].
  - apply wp_bind, wp_require; [intros v Ev|done].
    apply wp_bind, wp_require; [intros e Ee|done].
    apply (run_marked vm_error_into e); [by eapply He|done..].
Qed.

Lemma nvm_step_moves vm slot t tx :
  (forall op rest, payload tx = op :: rest -> route_conserving vm op) ->
  tree_fits t -> Forall is_byte (payload tx) -> moved t (fst (nvm_step vm slot t tx)) 0.
Proof.
  intros Hv Hf Hb. unfold nvm_step.
  destruct (nvm_execute_transaction vm tx slot t) as [t' [r|e]] eqn:He; cbn.
  - unfold nvm_execute_transaction in He. destruct (payload tx) as [|op pl] eqn:Ep; [done|].
    rewrite <-Ep in Hb. destruct (_ && _); [done|]. apply atomically_ok in He.
    exact (wp_run _ _ _ _ _ (dispatch_moves vm tx op slot t (Hv op pl eq_refl) Hf Hb) He).
  - rewrite (nvm_error_restores _ _ _ _ _ _ He). by apply moved_refl.
Qed.

(** A block of transactions whose routes conserve. *)
Lemma nvm_block_moves vm slot txs t :
  tree_fits t ->
  Forall (fun tx => Forall is_byte (payload tx) /\
    forall op rest, payload tx = op :: rest -> route_conserving vm op) txs ->
  moved t (fst (nvm_execute_block vm slot t txs)) 0 /\ length (snd (nvm_execute_block vm slot t txs)) = length txs.
Proof.
  intros Hf Hb. revert t Hf. induction Hb as [|tx txs [Hx Hv] Hb IH]; intros t Hf; cbn [nvm_execute_block].
  { split; [by apply moved_refl|done]. }
  pose proof (nvm_step_moves vm slot t tx Hv Hf Hx) as H1.
  destruct (nvm_step vm slot t tx) as [t1 r]. cbn in H1.
  destruct (IH t1 (moved_fits _ _ _ H1)) as [H2 Hl].
  destruct (nvm_execute_block vm slot t1 txs) as [t2 rs]. cbn in *.
  split; [exact (moved_trans _ _ _ 0 0 H1 H2)|lia].
Qed.
End conservation.

Module SampleBlock.
Import SampleEnv SampleK256.
(** The native engine alone. *)
Definition vm : NVm :=
  {| engines v := match v with AceNative => Some (native_engine SampleNative.policy) | _ => None end;
     hfi_claim := None |}.
End SampleBlock.

(* ------------------------------------------------------------------ *)
(** * A Tron transfer, end to end *)

Module SampleTron.
Import SampleEnv SampleK256.

#[export] Instance no_verifiers : RawVerifiers := {|
  verify_raw_evm _ := raw_err "none";
  canonical_evm_payload _ := raw_err "none";
  raw_spl := SampleSolana.spl;
  raw_ed25519 := SampleSolana.ed;
  verify_raw_btc _ _ := raw_err "none";
|}.

Definition field (tag : Z) (l : list Z) : list Z := tag :: Z.of_nat (length l) :: l.
Definition transfer_of (owner to amount : Z) : list Z :=
  field 10 (65 :: be_bytes 20 owner) ++ field 18 (65 :: be_bytes 20 to) ++ [24; amount].
Definition raw_of (owner to amount : Z) : list Z :=
  field 90 ([8; 1] ++ field 18 (field 18 (transfer_of owner to amount))).
Definition envelope (data sig : list Z) : list Z := field 10 data ++ field 18 sig.

(** Two encodings of one transfer, with different recovery bytes. *)
Definition data : list Z := raw_of 1 2 5.
Definition bytes : list Z := envelope data (replicate 64 7 ++ [0]).
Definition bytes2 : list Z := envelope data (replicate 64 7 ++ [4]).

Definition signer : Z :=
  be_num (take 20 (drop 12 (SampleDigest.sample_sha256 (replicate 64 7)))).
Definition sender : AccountId := legacy_idcom_tron SampleDigest.sample_sha256 signer.
Definition raw (b : list Z) : RawChainPayload :=
  {| raw_kind := RawTron; raw_bytes := b; committee_certificate := None |}.
Definition tx (b : list Z) : Transaction :=
  {| payload := [66] ++ be_bytes 20 2 ++ le_bytes 8 5;
     attestation := {| obj_hash := 0; idcom := sender;
       att_domain := {| chain_id := 1;
                        domain_slot := tron_ace_domain_slot (tron_raw_data_hash data) |};
       context_tag := 0; credential := ml_dsa_44_stripped |};
     raw_chain := Some (raw b); zk_auth := None |}.
Definition vm : NVm :=
  {| engines v := match v with
                  | Tvm => Some (fun tx => ret {| vm_id := Tvm; vm_tx_hash := 0; vm_success := true;
                      vm_sender := tx_sender tx; vm_changes := []; vm_error := None;
                      vm_simulated := false; vm_gas_used := None; vm_contract_address := None;
                      vm_return_data := None; vm_logs := [] |})
                  | _ => None
                  end;
     hfi_claim := None |}.
Definition before : StateTree :=
  insert_account SampleDigest.sample_sha256 state_new (account_new sender).
End SampleTron.

Lemma tron_runs_once_witness :
  let after := fst (nvm_execute_transaction (CE := SampleEnv.sample_env)
    (K := SampleK256.sample_k256) (RV := SampleTron.no_verifiers)
    SampleTron.vm (SampleTron.tx SampleTron.bytes) 1 SampleTron.before) in
  SampleTron.bytes <> SampleTron.bytes2 /\
  exists e, nvm_execute_transaction (CE := SampleEnv.sample_env)
    (K := SampleK256.sample_k256) (RV := SampleTron.no_verifiers)
    SampleTron.vm (SampleTron.tx SampleTron.bytes2) 2 after = (after, Err e).
Proof.
  intros after. split; [by vm_compute|].
  destruct (parse_tron_tx SampleTron.bytes) as [p|] eqn:Hp; [|by vm_compute in Hp].
  destruct (parse_tron_tx SampleTron.bytes2) as [p2|] eqn:Hp2; [|by vm_compute in Hp2].
  destruct (nvm_execute_transaction (CE := SampleEnv.sample_env)
    (K := SampleK256.sample_k256) (RV := SampleTron.no_verifiers)
    SampleTron.vm (SampleTron.tx SampleTron.bytes) 1 SampleTron.before) as [t' [r|e]] eqn:He;
    [|by vm_compute in He].
  refine (tron_runs_once SampleTron.vm (SampleTron.tx SampleTron.bytes) 1 SampleTron.before t' r
    (SampleTron.raw SampleTron.bytes) p SampleTron.vm (SampleTron.tx SampleTron.bytes2) 2 after
    (SampleTron.raw SampleTron.bytes2) p2 eq_refl eq_refl Hp He eq_refl eq_refl Hp2 eq_refl _ _).
  - vm_compute in Hp, Hp2. by injection Hp as <-; injection Hp2 as <-.
  - done.
Defined.
