(* ===== verification/HfiPay.v ===== *)
(** HFI Pay on the chain (ace-hfi-pay/src/onchain.rs, with the parts of
    intent.rs, address.rs and registry.rs it calls).

    A payment intent is a record of 287 bytes in the state tree.  The hook of the
    dispatcher creates it, marks it funded once its deposit address holds the
    amount, pays it out by a claim, or expires and refunds it; a registry of
    recipients lets a create pay at once.  Every handler is a computation of
    [StateM] on the state tree, and [hook_execute] is the hook [Dispatch] is
    constructed with.

    Arguments of the hook, as in the source: the lookup of committed
    transactions, the account of the claim relay, and the claim salt, which the
    source reads from the environment once.  Error messages are the static part
    of the messages of the source.  The theorems are in HfiPaySpec. *)

From S2P Require Import Prelude SigAlgo ValidatorSet Account StateTree Slots StateM.
From S2P Require Import Wire Payload Transaction Engine Vm.
Local Open Scope Z_scope.
Local Open Scope ace_scope.

(* ------------------------------------------------------------------ *)
(** * Data *)

Inductive ChainId : Type :=
| ChainNative
| ChainEvm
| ChainSvm
| ChainBvm
| ChainTvm.

#[global] Instance ChainId_eq_dec : EqDecision ChainId.
Proof. solve_decision. Defined.

Definition chain_tag (c : ChainId) : Z :=
  match c with
  | ChainNative => 0
  | ChainEvm => 1
  | ChainSvm => 2
  | ChainBvm => 3
  | ChainTvm => 4
  end.

Definition chain_from_tag (tag : Z) : option ChainId :=
  if tag =? 0 then Some ChainNative
  else if tag =? 1 then Some ChainEvm
  else if tag =? 2 then Some ChainSvm
  else if tag =? 3 then Some ChainBvm
  else if tag =? 4 then Some ChainTvm
  else None.

Inductive VmAddress : Type :=
| NativeAddress (id : AccountId)
| EvmAddress (addr : Z)
| SvmAddress (id : AccountId)
| BvmAddress (id : AccountId)
| TvmAddress (addr : Z).

Inductive IntentStatus : Type :=
| Created
| Funded
| Claimed
| Expired
| Refunded.

#[global] Instance IntentStatus_eq_dec : EqDecision IntentStatus.
Proof. solve_decision. Defined.

(** The life cycle of intent.rs, which the relay's own store follows. *)
Definition can_transition_to (s next : IntentStatus) : bool :=
  match s, next with
  | Created, Funded | Funded, Claimed | Funded, Expired | Expired, Refunded => true
  | _, _ => false
  end.

Definition status_tag (s : IntentStatus) : Z :=
  match s with
  | Created => 0
  | Funded => 1
  | Claimed => 2
  | Expired => 3
  | Refunded => 4
  end.

Definition status_from_tag (tag : Z) : option IntentStatus :=
  if tag =? 0 then Some Created
  else if tag =? 1 then Some Funded
  else if tag =? 2 then Some Claimed
  else if tag =? 3 then Some Expired
  else if tag =? 4 then Some Refunded
  else None.

Record OnChainIntent := {
  oi_intent_id : Z;
  oi_blinded_binding : Z;
  oi_amount : Z;
  oi_chain : ChainId;
  oi_mint : option Z;
  oi_deposit_address : AccountId;
  oi_binding_epoch : Z;
  oi_expiry : Z;
  oi_refund_dest : option AccountId;
  oi_refund_authorizer : option AccountId;
  oi_created_at : Z;
  oi_status : IntentStatus;
  oi_claim_nonce : Z;
  oi_refund_nonce : Z;
  oi_withdrawn_amount : Z;
  oi_owner : option AccountId;
}.

(** The fields the handlers assign. *)
Definition settle (i : OnChainIntent) (status : IntentStatus)
    (claim_nonce refund_nonce withdrawn : Z) (owner : option AccountId) : OnChainIntent :=
  {| oi_intent_id := oi_intent_id i; oi_blinded_binding := oi_blinded_binding i;
     oi_amount := oi_amount i; oi_chain := oi_chain i; oi_mint := oi_mint i;
     oi_deposit_address := oi_deposit_address i; oi_binding_epoch := oi_binding_epoch i;
     oi_expiry := oi_expiry i; oi_refund_dest := oi_refund_dest i;
     oi_refund_authorizer := oi_refund_authorizer i; oi_created_at := oi_created_at i;
     oi_status := status; oi_claim_nonce := claim_nonce; oi_refund_nonce := refund_nonce;
     oi_withdrawn_amount := withdrawn; oi_owner := owner |}.

Definition with_status (i : OnChainIntent) (status : IntentStatus) : OnChainIntent :=
  settle i status (oi_claim_nonce i) (oi_refund_nonce i) (oi_withdrawn_amount i) (oi_owner i).

Record DecodedRecipient := {
  dr_xid : Z;
  dr_account_id : AccountId;
  dr_identity_commitment : Z;
  dr_claim_binding_handle : Z;
  dr_binding_epoch : Z;
}.

Record HfiPayOnChainHook := {
  vk_bytes : list Z;
  committed_tx : option (Z -> option Transaction);
  claim_relay : option AccountId;
  claim_salt : option (list Z);
}.

(* ------------------------------------------------------------------ *)
(** * Intents on the wire *)

Definition ONCHAIN_INTENT_LEN : nat := 287.
Definition MAX_EXPIRY_WINDOW : Z := 31536000.

(** A presence byte and 32 bytes, zero when absent. *)
Definition flagged (o : option Z) : list Z :=
  match o with
  | Some x => [1] ++ be_bytes 32 x
  | None => [0] ++ be_bytes 32 0
  end.

Definition intent_encode (i : OnChainIntent) : list Z :=
  [1] ++ be_bytes 32 (oi_intent_id i) ++ be_bytes 32 (oi_blinded_binding i) ++
  le_bytes 8 (oi_amount i) ++ [chain_tag (oi_chain i)] ++ flagged (oi_mint i) ++
  be_bytes 32 (oi_deposit_address i) ++ le_bytes 8 (oi_binding_epoch i) ++
  le_bytes 8 (oi_expiry i) ++ flagged (oi_refund_dest i) ++ flagged (oi_refund_authorizer i) ++
  le_bytes 8 (oi_created_at i) ++ [status_tag (oi_status i)] ++
  le_bytes 8 (oi_claim_nonce i) ++ le_bytes 8 (oi_refund_nonce i) ++
  le_bytes 8 (oi_withdrawn_amount i) ++ flagged (oi_owner i).

Definition read_flagged (p : nat) (l : list Z) : result DecodeError (option Z) :=
  let? present := read_byte p l in
  let? x := read_32 (p + 1) l in
  Ok (if negb (present =? 0) then Some x else None).

Definition intent_decode (l : list Z) : result DecodeError OnChainIntent :=
  reject (negb (length l =? ONCHAIN_INTENT_LEN)%nat) "OnChainIntent: expected 287 bytes" (
  let? version := read_byte 0 l in
  reject (negb (version =? 1)) "OnChainIntent: unknown version" (
  let? intent_id := read_32 1 l in
  let? blinded_binding := read_32 33 l in
  let? amount := read_u64 65 l in
  let? tag := read_byte 73 l in
  let? chain := ok_or (chain_from_tag tag) (Rejected "OnChainIntent: invalid chain tag") in
  let? mint := read_flagged 74 l in
  let? deposit_address := read_32 107 l in
  let? binding_epoch := read_u64 139 l in
  let? expiry := read_u64 147 l in
  let? refund_dest := read_flagged 155 l in
  let? refund_authorizer := read_flagged 188 l in
  let? created_at := read_u64 221 l in
  let? tag := read_byte 229 l in
  let? status := ok_or (status_from_tag tag) (Rejected "OnChainIntent: invalid status tag") in
  let? claim_nonce := read_u64 230 l in
  let? refund_nonce := read_u64 238 l in
  let? withdrawn_amount := read_u64 246 l in
  let? owner := read_flagged 254 l in
  Ok {| oi_intent_id := intent_id; oi_blinded_binding := blinded_binding; oi_amount := amount;
        oi_chain := chain; oi_mint := mint; oi_deposit_address := deposit_address;
        oi_binding_epoch := binding_epoch; oi_expiry := expiry; oi_refund_dest := refund_dest;
        oi_refund_authorizer := refund_authorizer; oi_created_at := created_at;
        oi_status := status; oi_claim_nonce := claim_nonce; oi_refund_nonce := refund_nonce;
        oi_withdrawn_amount := withdrawn_amount; oi_owner := owner |})).

(** ** Recipient records *)

(** [len as u16] truncates. *)
Definition encode_recipient_record (xid account_id identity_commitment claim_binding_handle
    binding_epoch : Z) (pubkey_wire signature_wire : list Z) : list Z :=
  be_bytes 32 xid ++ be_bytes 32 account_id ++ be_bytes 32 identity_commitment ++
  be_bytes 32 claim_binding_handle ++ le_bytes 8 binding_epoch ++
  len16 pubkey_wire ++ pubkey_wire ++ len16 signature_wire ++ signature_wire.

Definition decode_recipient_record (l : list Z) : result DecodeError DecodedRecipient :=
  reject (length l <? 136)%nat "registered recipient record too short" (
  let? xid := read_32 0 l in
  let? account_id := read_32 32 l in
  let? identity_commitment := read_32 64 l in
  let? claim_binding_handle := read_32 96 l in
  let? binding_epoch := read_u64 128 l in
  Ok {| dr_xid := xid; dr_account_id := account_id;
        dr_identity_commitment := identity_commitment;
        dr_claim_binding_handle := claim_binding_handle; dr_binding_epoch := binding_epoch |}).

(** [map_err(|e| e.to_string())] *)
Definition text_of_decode (e : DecodeError) : string :=
  match e with
  | Rejected msg => msg
  | Panicked => "panic"
  end.

Definition with_text {A} (r : result DecodeError A) : result string A :=
  match r with
  | Ok a => Ok a
  | Err e => Err (text_of_decode e)
  end.

Definition op_decode (l : list Z) : result string TransactionOp :=
  match engine_decode l with
  | Ok op => Ok op
  | Err e => Err (error_text e)
  end.

Definition vm_address_from_raw (chain : ChainId) (dest : list Z) : result string VmAddress :=
  match chain with
  | ChainNative | ChainSvm | ChainBvm =>
      if negb (length dest =? 32)%nat then Err "destination must be 32 bytes for chain "
      else
        let id := be_num dest in
        Ok (match chain with
            | ChainNative => NativeAddress id
            | ChainSvm => SvmAddress id
            | _ => BvmAddress id
            end)
  | ChainEvm | ChainTvm =>
      if negb (length dest =? 20)%nat then Err "destination must be 20 bytes for chain "
      else
        let addr := be_num dest in
        Ok (match chain with
            | ChainEvm => EvmAddress addr
            | _ => TvmAddress addr
            end)
  end.

(* ------------------------------------------------------------------ *)
(** * Hashes *)

Section hook.
Context {CE : CryptoEnv}.

Definition domain_for_chain (chain : ChainId) : list Z :=
  match chain with
  | ChainNative => ascii_bytes "hfipay:native:"
  | ChainEvm => ascii_bytes "hfipay:evm:"
  | ChainSvm => ascii_bytes "hfipay:svm:"
  | ChainBvm => ascii_bytes "hfipay:bvm:"
  | ChainTvm => ascii_bytes "hfipay:tvm:"
  end.

Definition derive_intent_address (chain : ChainId) (intent_id : Z) : AccountId :=
  digest env_sha256 (domain_for_chain chain ++ be_bytes 32 intent_id).

Definition blinded_binding_of (auth_commitment intent_id : Z) : Z :=
  digest env_sha256 (ascii_bytes "hfipay:bind" ++ be_bytes 32 auth_commitment ++
    be_bytes 32 intent_id).

Definition onchain_id_hash (identifier : list Z) : Z :=
  digest env_sha256 (ascii_bytes "hfipay:idhash:v1" ++ identifier).

Definition registration_message_v2 (xid : Z) (identifier : list Z) (identity_commitment
    claim_binding_handle binding_epoch chain valid_until_slot : Z) : list Z :=
  env_sha256 (ascii_bytes "hfipay:register:v2" ++ be_bytes 32 xid ++ identifier ++
    be_bytes 32 identity_commitment ++ be_bytes 32 claim_binding_handle ++
    le_bytes 8 binding_epoch ++ [chain] ++ le_bytes 8 valid_until_slot).

Definition compute_refund_message (chain : Z) (mint : option Z) (intent_id blinded_binding amount
    refund_authorizer refund_dest expiry nonce : Z) : list Z :=
  env_sha256 (ascii_bytes "hfipay:refund" ++ ascii_bytes "ace-hfi-pay:v1" ++ [chain] ++
    match mint with
    | Some m => [1] ++ be_bytes 32 m
    | None => [0]
    end ++
    be_bytes 32 intent_id ++ be_bytes 32 blinded_binding ++ le_bytes 8 amount ++
    be_bytes 32 refund_authorizer ++ be_bytes 32 refund_dest ++ le_bytes 8 expiry ++
    le_bytes 8 nonce).

(* ------------------------------------------------------------------ *)
(** * Shared steps of the handlers *)

Definition load_intent (intent_id : Z) : M string OnChainIntent :=
  let! found := gets (fun t => hfi_intents t !! intent_id) in
  let! bytes := require found "intent not found on chain" in
  lift (with_text (intent_decode bytes)).

Definition store_intent (i : OnChainIntent) : M string unit :=
  modify (fun t => hfi_intent_put t (oi_intent_id i) (intent_encode i)).

Definition native_balance (t : StateTree) (id : AccountId) : Z :=
  default 0 (acc_balance <$> accounts t !! id).

Definition ensure_native_account (id : AccountId) : M string unit :=
  let! present := contains id in
  if negb present then modify (fun t => insert_account env_sha256 t (account_new id)) else ret tt.

(** The results are the balances before and after, of the payer and the payee. *)
Definition native_transfer (from to : AccountId) (amount : Z) : M string (Z * Z * Z * Z) :=
  do! ensure_native_account to in
  let! from_before := gets (fun t => native_balance t from) in
  do! fail_if (from_before <? amount) "insufficient balance" in
  let! to_before := gets (fun t => native_balance t to) in
  let from_after := from_before - amount in
  let! to_after := require (u64_checked_add to_before amount) "balance overflow" in
  let! found := get_account from in
  let! _ := require found "account missing" in
  do! update from (fun a => set_balance a from_after) in
  let! found := get_account to in
  let! _ := require found "account missing" in
  do! update to (fun a => set_balance a to_after) in
  ret (from_before, from_after, to_before, to_after).

Definition consume_nonce (sender : AccountId) (nonce : Z) : M string StateChange :=
  let! found := get_account sender in
  let! account := require found "sender not found" in
  do! fail_if (negb (acc_nonce account =? nonce)) "invalid nonce" in
  let! new_nonce := require (u64_checked_add (acc_nonce account) 1) "nonce overflow" in
  do! update sender (fun a => set_nonce a new_nonce) in
  ret (NonceIncrement sender new_nonce).

Definition ok_receipt (tx : Transaction) (sender : AccountId) (changes : list StateChange)
    : VmReceipt :=
  {| vm_id := AceNative; vm_tx_hash := tx_hash env_sha256 tx; vm_success := true;
     vm_sender := sender; vm_changes := changes; vm_error := None; vm_simulated := false;
     vm_gas_used := None; vm_contract_address := None; vm_return_data := None; vm_logs := [] |}.

(** A zero field stands for an absent one. *)
Definition nonzero (x : Z) : option Z := if x =? 0 then None else Some x.

(* ------------------------------------------------------------------ *)
(** * Create *)

(** The recipient is registered: pay at once and record a claimed intent. *)
Definition auto_claim (tx : Transaction) (block_slot nonce intent_id blinded_binding amount : Z)
    (chain : ChainId) (mint_raw expiry_slot identity_commitment : Z) (recipient_bytes : list Z)
    : M string VmReceipt :=
  let! decoded := lift (with_text (decode_recipient_record recipient_bytes)) in
  do! fail_if (negb (dr_identity_commitment decoded =? identity_commitment))
    "registry idcom index inconsistent with stored record" in
  let sender := tx_sender tx in
  do! fail_if (bool_decide (is_Some (nonzero mint_raw)))
    "auto-claim not yet supported for non-native mints" in
  let! nonce_change := consume_nonce sender nonce in
  let recipient_acct := dr_account_id decoded in
  let! (sender_before, sender_after, recip_before, recip_after) :=
    native_transfer sender recipient_acct amount in
  let intent :=
    {| oi_intent_id := intent_id; oi_blinded_binding := blinded_binding; oi_amount := amount;
       oi_chain := chain; oi_mint := nonzero mint_raw; oi_deposit_address := recipient_acct;
       oi_binding_epoch := dr_binding_epoch decoded; oi_expiry := expiry_slot;
       oi_refund_dest := None; oi_refund_authorizer := None; oi_created_at := block_slot;
       oi_status := Claimed; oi_claim_nonce := 0; oi_refund_nonce := 0;
       oi_withdrawn_amount := amount; oi_owner := Some recipient_acct |} in
  do! store_intent intent in
  let claim_tag := digest env_sha256 (ascii_bytes "ace:claim:tag:v1" ++ be_bytes 32 intent_id) in
  ret (ok_receipt tx sender
    [nonce_change; BalanceChange sender sender_before sender_after;
     BalanceChange recipient_acct recip_before recip_after;
     IntentChange intent_id 255 (status_tag Claimed) (Some claim_tag)]).

Definition refund_pair_ok (dest authorizer : option Z) : bool :=
  match dest, authorizer with
  | Some _, Some _ | None, None => true
  | _, _ => false
  end.

Definition open_intent (tx : Transaction) (block_slot nonce intent_id blinded_binding amount : Z)
    (chain : ChainId) (mint_raw deposit_address binding_epoch expiry_slot refund_dest_raw
    refund_authorizer_raw : Z) : M string VmReceipt :=
  do! fail_if (negb (deposit_address =? derive_intent_address chain intent_id))
    "deposit_address does not match derived address for this intent" in
  let refund_dest := nonzero refund_dest_raw in
  let refund_authorizer := nonzero refund_authorizer_raw in
  do! fail_if (negb (refund_pair_ok refund_dest refund_authorizer))
    "refund_dest and refund_authorizer must be set together" in
  let sender := tx_sender tx in
  let! nonce_change := consume_nonce sender nonce in
  do! ensure_native_account deposit_address in
  let intent :=
    {| oi_intent_id := intent_id; oi_blinded_binding := blinded_binding; oi_amount := amount;
       oi_chain := chain; oi_mint := nonzero mint_raw; oi_deposit_address := deposit_address;
       oi_binding_epoch := binding_epoch; oi_expiry := expiry_slot;
       oi_refund_dest := refund_dest; oi_refund_authorizer := refund_authorizer;
       oi_created_at := block_slot; oi_status := Created; oi_claim_nonce := 0;
       oi_refund_nonce := 0; oi_withdrawn_amount := 0; oi_owner := None |} in
  do! store_intent intent in
  ret (ok_receipt tx sender
    [nonce_change; IntentChange intent_id 255 (status_tag Created) None]).

Definition handle_create (tx : Transaction) (block_slot : Z) : M string VmReceipt :=
  let! op := lift (op_decode (payload tx)) in
  match op with
  | HfiPayCreate nonce intent_id blinded_binding amount chain_id mint_raw deposit_address
      binding_epoch expiry_slot refund_dest_raw refund_authorizer_raw identity_commitment =>
      do! fail_if (amount =? 0) "amount must be non-zero" in
      do! fail_if (u64_saturating_add block_slot MAX_EXPIRY_WINDOW <? expiry_slot)
        "expiry too far in the future" in
      let! existing := gets (fun t => hfi_intents t !! intent_id) in
      do! fail_if (bool_decide (is_Some existing)) "intent already exists" in
      let! chain := require (chain_from_tag chain_id) "invalid chain_id" in
      let! registered := gets (fun t =>
        if negb (identity_commitment =? 0) then hfi_recipient_by_idcom t identity_commitment
        else None) in
      match registered with
      | Some (_, recipient_bytes) =>
          auto_claim tx block_slot nonce intent_id blinded_binding amount chain mint_raw
            expiry_slot identity_commitment recipient_bytes
      | None =>
          open_intent tx block_slot nonce intent_id blinded_binding amount chain mint_raw
            deposit_address binding_epoch expiry_slot refund_dest_raw refund_authorizer_raw
      end
  | _ => fail "not an HfiPayCreate op"
  end.

(* ------------------------------------------------------------------ *)
(** * Fund *)

(** The evidence is a committed native transfer of the amount to the deposit. *)
Definition check_evidence (intent : OnChainIntent) (dep_tx : Transaction) : result string unit :=
  let? dep_op := op_decode (payload dep_tx) in
  match dep_op with
  | Transfer _ to transfer_amt =>
      if negb (to =? oi_deposit_address intent) then
        Err "deposit evidence is not a transfer to the intent deposit address"
      else if negb (transfer_amt =? oi_amount intent) then
        Err "deposit transfer amount must match intent amount"
      else Ok tt
  | _ => Err "deposit evidence must be a native Transfer (0x01)"
  end.

Definition handle_fund (hook : HfiPayOnChainHook) (tx : Transaction) : M string VmReceipt :=
  let! op := lift (op_decode (payload tx)) in
  match op with
  | HfiPayFund nonce intent_id deposit_evidence deposit_amount =>
      let! intent := load_intent intent_id in
      do! fail_if (negb (bool_decide (oi_status intent = Created)))
        "intent not in Created state" in
      do! fail_if (negb (deposit_amount =? oi_amount intent))
        "deposit_amount must match intent amount" in
      do! fail_if (deposit_evidence =? 0)
        "deposit_evidence (funding transfer tx hash) required" in
      let! lookup := require (committed_tx hook)
        "HfiPayFund requires committed_tx lookup (node must attach block store)" in
      let! dep_tx := require (lookup deposit_evidence)
        "deposit_evidence tx not found in block store" in
      let fund_sender := tx_sender tx in
      do! fail_if (negb (tx_sender dep_tx =? fund_sender))
        "deposit evidence tx sender must match fund tx sender (same idcom)" in
      do! fail_if
        (match oi_refund_authorizer intent with
         | Some ra => negb (fund_sender =? ra)
         | None => false
         end)
        "fund transaction sender must match intent refund_authorizer when refund metadata is set" in
      do! lift (check_evidence intent dep_tx) in
      let! have := gets (fun t => native_balance t (oi_deposit_address intent)) in
      do! fail_if (have <? oi_amount intent) "intent underfunded" in
      let! nonce_change := consume_nonce fund_sender nonce in
      do! store_intent (with_status intent Funded) in
      ret (ok_receipt tx fund_sender
        [nonce_change;
         IntentChange intent_id (status_tag (oi_status intent)) (status_tag Funded) None])
  | _ => fail "not an HfiPayFund op"
  end.

(* ------------------------------------------------------------------ *)
(** * Expire *)

Definition handle_expire (tx : Transaction) (block_slot : Z) : M string VmReceipt :=
  let! op := lift (op_decode (payload tx)) in
  match op with
  | HfiPayExpire intent_id =>
      let! intent := load_intent intent_id in
      do! fail_if (negb (bool_decide (oi_status intent = Funded)))
        "intent not in Funded state" in
      do! fail_if (block_slot <=? oi_expiry intent) "intent not yet expired" in
      do! store_intent (with_status intent Expired) in
      ret (ok_receipt tx (tx_sender tx)
        [IntentChange intent_id (status_tag (oi_status intent)) (status_tag Expired) None])
  | _ => fail "not an HfiPayExpire op"
  end.

(* ------------------------------------------------------------------ *)
(** * Refund *)

(** The relay path: an ML-DSA-44 signature of the authorizer over the refund. *)
Definition check_refund_auth (intent : OnChainIntent) (intent_id nonce : Z)
    (refund_dest refund_authorizer : AccountId) (pk_bytes sig_bytes : list Z) : M string unit :=
  do! fail_if (negb (nonce =? oi_refund_nonce intent)) "refund_auth nonce mismatch" in
  let refund_msg := compute_refund_message (chain_tag (oi_chain intent)) (oi_mint intent)
    intent_id (oi_blinded_binding intent) (oi_amount intent) refund_authorizer refund_dest
    (oi_expiry intent) nonce in
  do! fail_if (negb (length pk_bytes =? 1312)%nat) "refund_auth: unexpected pubkey length" in
  do! fail_if (negb (length sig_bytes =? 2420)%nat) "refund_auth: unexpected sig length" in
  let! found := get_account refund_authorizer in
  let! authorizer_key := require (found ≫= fun a => auth_key_for_algorithm a MlDsa44)
    "refund_auth: refund_authorizer has no ML-DSA-44 key on chain" in
  do! fail_if (negb (bool_decide (SigAlgo.pk_bytes authorizer_key = pk_bytes)))
    "refund_auth: pubkey does not match refund_authorizer's on-chain ML-DSA-44 key" in
  fail_if
    (negb (verify_signature (ml_dsa_44 pk_bytes) refund_msg
             {| sig_algorithm := MlDsa44; SigAlgo.sig_bytes := sig_bytes |}))
    "refund_auth signature verification failed".

Definition handle_refund (tx : Transaction) (block_slot : Z) : M string VmReceipt :=
  let! op := lift (op_decode (payload tx)) in
  match op with
  | HfiPayRefund nonce intent_id refund_auth =>
      let! intent := load_intent intent_id in
      let already_expired := bool_decide (oi_status intent = Expired) in
      let funded_past_expiry :=
        bool_decide (is_Some refund_auth) &&
        (bool_decide (oi_status intent = Funded) || bool_decide (oi_status intent = Created)) &&
        (oi_expiry intent <? block_slot) in
      do! fail_if (negb already_expired && negb funded_past_expiry)
        "intent not eligible for refund" in
      let! refund_dest := require (oi_refund_dest intent) "intent has no refund destination" in
      let! refund_authorizer :=
        require (oi_refund_authorizer intent) "intent has no refund authorizer" in
      let sender := tx_sender tx in
      let! nonce_change :=
        match refund_auth with
        | Some (pk, sg) =>
            do! check_refund_auth intent intent_id nonce refund_dest refund_authorizer pk sg in
            ret None
        | None =>
            do! fail_if (negb (sender =? refund_authorizer))
              "sender is not the refund authorizer" in
            let! c := consume_nonce sender nonce in
            ret (Some c)
        end in
      let! (dep_before, dep_after, dest_before, dest_after) :=
        native_transfer (oi_deposit_address intent) refund_dest (oi_amount intent) in
      let! withdrawn := require (u64_checked_add (oi_withdrawn_amount intent) (oi_amount intent))
        "withdrawn overflow" in
      let! refund_nonce := require (u64_checked_add (oi_refund_nonce intent) 1)
        "refund nonce overflow" in
      do! store_intent
        (settle intent Refunded (oi_claim_nonce intent) refund_nonce withdrawn (oi_owner intent)) in
      ret (ok_receipt tx sender
        (option_list nonce_change ++
         [BalanceChange (oi_deposit_address intent) dep_before dep_after;
          BalanceChange refund_dest dest_before dest_after;
          IntentChange intent_id (status_tag (oi_status intent)) (status_tag Refunded) None]))
  | _ => fail "not an HfiPayRefund op"
  end.

(* ------------------------------------------------------------------ *)
(** * Claim *)

(** The account a destination stands for, created or given its key. *)
Definition materialize_destination (destination : VmAddress) (auth : option TaggedPubkey)
    : M string AccountId :=
  match destination with
  | NativeAddress id =>
      match auth with
      | Some pk =>
          if negb (pubkey_is_zero pk) then
            let! found := get_account id in
            let account := default (with_auth id 0 pk) found in
            let account :=
              if pubkey_is_zero (acc_auth_pubkey account)
              then set_keys account pk (acc_auth_keys account) else account in
            do! modify (fun t => insert_account env_sha256 t account) in
            ret id
          else do! ensure_native_account id in ret id
      | None => do! ensure_native_account id in ret id
      end
  | EvmAddress addr =>
      let id := legacy_idcom_evm env_sha256 addr in
      do! ensure_native_account id in ret id
  | SvmAddress id => do! ensure_native_account id in ret id
  | BvmAddress _ | TvmAddress _ => fail "unsupported destination chain for Claim"
  end.

Definition handle_claim (hook : HfiPayOnChainHook) (tx : Transaction) (block_slot : Z)
    : M string VmReceipt :=
  let! op := lift (op_decode (payload tx)) in
  match op with
  | Payload.HfiPayClaim intent_id dest_wire destination_auth auth_commitment =>
      let sender := tx_sender tx in
      do! fail_if
        (match claim_relay hook with
         | Some relay => negb (sender =? relay)
         | None => false
         end)
        "HFI claim must be submitted by the authorized relay" in
      let! intent := load_intent intent_id in
      do! fail_if (negb (bool_decide (oi_status intent = Funded)))
        "intent not in Funded state" in
      do! fail_if (oi_expiry intent <? block_slot) "intent expired" in
      do! fail_if
        (negb (blinded_binding_of auth_commitment intent_id =? oi_blinded_binding intent))
        "auth_commitment does not match intent blinded_binding" in
      let! destination := lift (vm_address_from_raw (oi_chain intent) dest_wire) in
      let! destination_id := materialize_destination destination destination_auth in
      let! (dep_before, dep_after, dest_before, dest_after) :=
        native_transfer (oi_deposit_address intent) destination_id (oi_amount intent) in
      let! withdrawn := require (u64_checked_add (oi_withdrawn_amount intent) (oi_amount intent))
        "withdrawn overflow" in
      let! claim_nonce := require (u64_checked_add (oi_claim_nonce intent) 1)
        "claim nonce overflow" in
      do! store_intent
        (settle intent Claimed claim_nonce (oi_refund_nonce intent) withdrawn
           (Some destination_id)) in
      let! salt := require (claim_salt hook) "ACE_CLAIM_SALT is not configured" in
      let claim_tag := digest env_sha256 (be_bytes 32 intent_id ++ salt) in
      ret (ok_receipt tx sender
        [BalanceChange (oi_deposit_address intent) dep_before dep_after;
         BalanceChange destination_id dest_before dest_after;
         IntentChange intent_id (status_tag (oi_status intent)) (status_tag Claimed)
           (Some claim_tag)])
  | _ => fail "not an HfiPayClaim op"
  end.

(* ------------------------------------------------------------------ *)
(** * Registration of recipients *)

Definition MAX_REGISTER_IDENTIFIER_LEN : nat := 256.

Definition wire_text {A} (msg : string) (r : result WireError (A * nat)) : result string A :=
  match r with
  | Ok (a, _) => Ok a
  | Err _ => Err msg
  end.

Definition handle_register_recipient (tx : Transaction) (block_slot : Z) : M string VmReceipt :=
  let! op := lift (op_decode (payload tx)) in
  match op with
  | HfiPayRegisterRecipient nonce xid identifier identity_commitment claim_binding_handle
      binding_epoch tag valid_until_slot pubkey_wire signature_wire =>
      do! fail_if (negb (tag =? chain_tag ChainNative))
        "register: chain_tag does not match this chain" in
      do! fail_if (valid_until_slot <? block_slot) "register: registration expired" in
      do! fail_if (length identifier =? 0)%nat "identifier must not be empty" in
      do! fail_if (MAX_REGISTER_IDENTIFIER_LEN <? length identifier)%nat "identifier too long" in
      let! pubkey := lift (wire_text "invalid pubkey wire" (pubkey_from_wire_bytes pubkey_wire)) in
      let! signature :=
        lift (wire_text "invalid signature wire" (signature_from_wire_bytes signature_wire)) in
      let msg := registration_message_v2 xid identifier identity_commitment claim_binding_handle
        binding_epoch tag valid_until_slot in
      do! fail_if (negb (verify_signature pubkey msg signature))
        "registration signature verification failed" in
      let account_id := idcom_xid env_sha256 xid in
      let! found := get_account account_id in
      let! recipient_account := require found "register: recipient account not found on-chain" in
      let xid_owns_pubkey :=
        existsb (fun k => bool_decide (pk_algorithm k = pk_algorithm pubkey) &&
                          bool_decide (pk_bytes k = pk_bytes pubkey))
          (all_auth_keys recipient_account) in
      do! fail_if (negb xid_owns_pubkey)
        "register: signer pubkey is not an auth key for the account derived from xid" in
      let id_hash := onchain_id_hash identifier in
      let record_bytes := encode_recipient_record xid account_id identity_commitment
        claim_binding_handle binding_epoch pubkey_wire signature_wire in
      do! modify (fun t => hfi_recipient_put t id_hash identity_commitment record_bytes) in
      let sender := tx_sender tx in
      let! nonce_change := consume_nonce sender nonce in
      ret (ok_receipt tx sender [nonce_change])
  | _ => fail "not an HfiPayRegisterRecipient op"
  end.

(* ------------------------------------------------------------------ *)
(** * The hook *)

Definition hook_execute (hook : HfiPayOnChainHook) (tx : Transaction) (block_slot : Z)
    : M string VmReceipt :=
  match payload tx with
  | [] => fail "empty payload"
  | op :: _ =>
      if op =? 6 then handle_claim hook tx block_slot
      else if op =? 7 then handle_create tx block_slot
      else if op =? 8 then handle_fund hook tx
      else if op =? 9 then handle_expire tx block_slot
      else if op =? 10 then handle_refund tx block_slot
      else if op =? 11 then handle_register_recipient tx block_slot
      else fail "HfiPayHook: unsupported opcode"
  end.
End hook.

(* ------------------------------------------------------------------ *)
(** * Records on the wire *)

Lemma chain_tag_roundtrip c : chain_from_tag (chain_tag c) = Some c.
Proof. by destruct c. Qed.

Lemma status_tag_roundtrip s : status_from_tag (status_tag s) = Some s.
Proof. by destruct s. Qed.

Lemma length_flagged o : length (flagged o) = 33%nat.
Proof. destruct o; cbn [flagged]; by autorewrite with lens. Qed.
#[local] Hint Rewrite length_flagged : lens.

Lemma flagged_bytes o : Forall is_byte (flagged o).
Proof.
  destruct o; cbn [flagged]; apply Forall_app; (split; [by repeat constructor|auto with ace]).
Qed.

Lemma read_flagged_here p o b :
  p = 0%nat -> option_Forall is_u256 o -> read_flagged p (flagged o ++ b) = Ok o.
Proof.
  intros -> H. unfold read_flagged. destruct o as [x|]; cbn [flagged]; rewrite <-app_assoc.
  - inversion_clear H. rd. reflexivity.
  - eapply rbind_step; [rd_read|]. cbv beta. eapply rbind_step; [|reflexivity].
    rewrite read_32_skip by rd_side. by rewrite read_32_here.
Qed.

Lemma read_flagged_skip p a b :
  (length a <= p)%nat -> read_flagged p (a ++ b) = read_flagged (p - length a) b.
Proof.
  intros H. unfold read_flagged. rewrite read_byte_skip, read_32_skip by lia.
  by replace (p + 1 - length a)%nat with (p - length a + 1)%nat by lia.
Qed.

Lemma read_flagged_last p o :
  p = 0%nat -> option_Forall is_u256 o -> read_flagged p (flagged o) = Ok o.
Proof. intros. rewrite <-(app_nil_r (flagged o)). by apply read_flagged_here. Qed.

Lemma safe_flagged p l : (p + 33 <= length l)%nat -> safe (read_flagged p l).
Proof. intros H. unfold read_flagged. solve_safe. Qed.

(** The widths of the fields. *)
Record intent_fits (i : OnChainIntent) : Prop := {
  fits_id : is_u256 (oi_intent_id i);
  fits_binding : is_u256 (oi_blinded_binding i);
  fits_amount : is_u64 (oi_amount i);
  fits_mint : option_Forall is_u256 (oi_mint i);
  fits_deposit : is_u256 (oi_deposit_address i);
  fits_epoch : is_u64 (oi_binding_epoch i);
  fits_expiry : is_u64 (oi_expiry i);
  fits_dest : option_Forall is_u256 (oi_refund_dest i);
  fits_authorizer : option_Forall is_u256 (oi_refund_authorizer i);
  fits_created : is_u64 (oi_created_at i);
  fits_claim_nonce : is_u64 (oi_claim_nonce i);
  fits_refund_nonce : is_u64 (oi_refund_nonce i);
  fits_withdrawn : is_u64 (oi_withdrawn_amount i);
  fits_owner : option_Forall is_u256 (oi_owner i);
}.

Lemma intent_decode_safe l : safe (intent_decode l).
Proof.
  unfold intent_decode, ONCHAIN_INTENT_LEN. apply safe_reject. intros Hl. nat_prop.
  repeat first [apply safe_flagged; lia | safe_step].
Qed.

Lemma recipient_decode_safe l : safe (decode_recipient_record l).
Proof. unfold decode_recipient_record. solve_safe. Qed.

Ltac rd_flagged :=
  first [ rewrite read_flagged_here by rd_side; reflexivity
        | rewrite read_flagged_last by rd_side; reflexivity
        | rewrite read_flagged_skip by rd_side; rd_flagged ].

Lemma intent_decode_encode i : intent_fits i -> intent_decode (intent_encode i) = Ok i.
Proof.
  intros []. unfold intent_decode, ONCHAIN_INTENT_LEN, intent_encode.
  rd. cbn [Z.eqb Pos.eqb negb reject].
  repeat first
    [ rd_step
    | eapply rbind_step; [rd_flagged|cbv beta]
    | eapply rbind_step; [rewrite ?chain_tag_roundtrip, ?status_tag_roundtrip; reflexivity|cbv beta] ].
  by destruct i.
Qed.

Lemma length_intent_encode i : length (intent_encode i) = ONCHAIN_INTENT_LEN.
Proof. unfold intent_encode. by autorewrite with lens. Qed.

Lemma recipient_decode_encode xid acct idcom handle epoch pk sg :
  is_u256 xid -> is_u256 acct -> is_u256 idcom -> is_u256 handle -> is_u64 epoch ->
  decode_recipient_record (encode_recipient_record xid acct idcom handle epoch pk sg) =
    Ok {| dr_xid := xid; dr_account_id := acct; dr_identity_commitment := idcom;
          dr_claim_binding_handle := handle; dr_binding_epoch := epoch |}.
Proof. intros. unfold decode_recipient_record, encode_recipient_record. by rd. Qed.

(** The state tree keeps its index by bytes 64 to 96 of a record. *)
Lemma recipient_encoded_idcom xid acct idcom handle epoch pk sg :
  is_u256 idcom ->
  encoded_idcom (encode_recipient_record xid acct idcom handle epoch pk sg) = Some idcom.
Proof.
  intros H. unfold encoded_idcom, encode_recipient_record. autorewrite with lens.
  rewrite (proj2 (Nat.leb_le _ _)) by lia.
  do 2 (rewrite drop_app_ge by (rewrite length_be_bytes; lia); rewrite length_be_bytes).
  cbn [Nat.sub]. rewrite drop_0.
  rewrite take_app_length' by by rewrite length_be_bytes. by rewrite be_num_bytes.
Qed.
