(* ===== verification/HfiPaySpec.v ===== *)
(** Theorems about HFI Pay on the chain.

    [hook_effect] is the abstract specification of one successful call of the
    hook: one step of an intent's life cycle ([intent_step]) with the payment
    that goes with it, or a registration.  From it follow that an intent is paid
    out at most once over any blocks, what each call does to the balances, and
    that a funded intent can be claimed.  The other theorems are about what the
    design leaves open: a payment to oneself creates money, a registration can
    be taken over, and anybody can take the key of a deposit account. *)

From S2P Require Import Prelude SigAlgo ValidatorSet Account StateTree Slots StateM.
From S2P Require Import Wire Payload Transaction Engine Vm Token RawSolana RawTron Dispatch HfiPay.
Local Open Scope Z_scope.
Local Open Scope ace_scope.

(* ------------------------------------------------------------------ *)
(** * Payments *)

Record Payment := {
  pay_from : AccountId;
  pay_to : AccountId;
  pay_amount : Z;
}.

(** What a payment adds to the total and to one balance.  The transfer of the
    hook writes the payee last, so a payment to oneself only adds. *)
Definition minted (p : option Payment) : Z :=
  match p with
  | Some p => if pay_from p =? pay_to p then pay_amount p else 0
  | None => 0
  end.

Definition delta (p : option Payment) (id : AccountId) : Z :=
  match p with
  | Some p =>
      (if id =? pay_to p then pay_amount p else 0) -
      (if (id =? pay_from p) && negb (pay_from p =? pay_to p) then pay_amount p else 0)
  | None => 0
  end.

Definition covered (t : StateTree) (p : option Payment) : Prop :=
  match p with
  | Some p => 0 <= pay_amount p <= native_balance t (pay_from p)
  | None => True
  end.

(** Registered records are byte strings. *)
Definition recipients_ok (t : StateTree) : Prop :=
  map_Forall (fun _ l => Forall is_byte l) (hfi_recipients t).

Record moves_by (t t' : StateTree) (p : option Payment) : Prop := {
  mb_moved : moved t t' (minted p);
  mb_intents : hfi_intents t' = hfi_intents t;
  mb_recipients : recipients_ok t -> recipients_ok t';
  mb_balance id : native_balance t' id = native_balance t id + delta p id;
  mb_covered : covered t p;
}.

(** A postcondition of the runs that succeed; the others are rolled back. *)
Definition on_ok {E A} (Q : A -> StateTree -> Prop) (t : StateTree) (r : result E A) : Prop :=
  match r with
  | Ok a => Q a t
  | Err _ => True
  end.

Lemma on_ok_bind {E A B} (m : M E A) (k : A -> M E B) t Q R :
  wp m t (on_ok Q) -> (forall a t1, Q a t1 -> wp (k a) t1 (on_ok R)) ->
  wp (bind m k) t (on_ok R).
Proof.
  intros Hm Hk. apply wp_bind. eapply wp_mono; [|exact Hm]. intros t1 [a|e]; [apply Hk|done].
Qed.

Lemma moves_refl t : tree_fits t -> moves_by t t None.
Proof. intros H. split; [by apply moved_refl|done|done|intros; cbn; lia|done]. Qed.

Lemma moves_trans t t1 t2 p : moves_by t t1 None -> moves_by t1 t2 p -> moves_by t t2 p.
Proof.
  intros [m1 i1 r1 b1 _] [m2 i2 r2 b2 c2].
  assert (forall id, native_balance t1 id = native_balance t id) as B by (intros; rewrite b1; cbn; lia).
  split; [exact (moved_trans _ _ _ 0 (minted p) m1 m2)|congruence|auto| |].
  - intros id. by rewrite b2, B.
  - destruct p as [p|]; [|done]. cbn in *. by rewrite <-B.
Qed.

Lemma moves_fits t t' p : moves_by t t' p -> tree_fits t'.
Proof. intros [[] _ _ _ _]. done. Qed.

Lemma moves_exists t t' p id : moves_by t t' p -> is_Some (accounts t !! id) -> is_Some (accounts t' !! id).
Proof. intros [[_ Hg _ _] _ _ _ _] [a Ha]. destruct (Hg id a Ha) as (b & Hb & _). by exists b. Qed.

Lemma balance_fits t id : tree_fits t -> is_u64 (native_balance t id).
Proof.
  intros Hf. unfold native_balance. destruct (accounts t !! id) as [a|] eqn:E; cbn.
  - by apply (fits_lookup _ _ _ Hf E).
  - by unfold is_u64, u64_max.
Qed.

Lemma balance_insert t t' id a i :
  accounts t' = <[id := a]> (accounts t) ->
  native_balance t' i = if i =? id then acc_balance a else native_balance t i.
Proof.
  intros E. unfold native_balance. rewrite E. destruct (i =? id) eqn:Ei.
  - apply Z.eqb_eq in Ei as ->. by rewrite lookup_insert_eq.
  - apply Z.eqb_neq in Ei. by rewrite lookup_insert_ne.
Qed.

Lemma get_mut_intents t id f : hfi_intents (get_mut_update t id f) = hfi_intents t.
Proof. unfold get_mut_update. by destruct (accounts t !! id). Qed.

Lemma get_mut_recipients t id f : hfi_recipients (get_mut_update t id f) = hfi_recipients t.
Proof. unfold get_mut_update. by destruct (accounts t !! id). Qed.

Lemma get_mut_replay t id f : zk_replay_registry (get_mut_update t id f) = zk_replay_registry t.
Proof. unfold get_mut_update. by destruct (accounts t !! id). Qed.

(** Writing an account with the money of the one it replaces, or of none. *)
Lemma moves_write t t' id b :
  tree_fits t -> accounts t' = <[id := b]> (accounts t) ->
  hfi_intents t' = hfi_intents t -> hfi_recipients t' = hfi_recipients t ->
  zk_replay_registry t' = zk_replay_registry t ->
  acc_id_com b = id -> acc_balance b = native_balance t id -> is_u64 (acc_nonce b) ->
  (forall a, accounts t !! id = Some a -> acc_nonce a <= acc_nonce b) ->
  moves_by t t' None.
Proof.
  intros Hf E Hi Hrec Hr Hid Hb Hn Hg. pose proof (balance_fits t id Hf) as Hu.
  assert (account_fits id b) as Hfit by (split_and!; [done|congruence|done]).
  split; [|done|unfold recipients_ok; by rewrite Hrec| |done].
  - cbn. destruct (accounts t !! id) as [a|] eqn:Ea.
    + replace 0 with (acc_balance b - acc_balance a)
        by (rewrite Hb; unfold native_balance; rewrite Ea; cbn; lia).
      eapply moved_insert; eauto.
    + replace 0 with (acc_balance b) by (rewrite Hb; unfold native_balance; by rewrite Ea).
      eapply moved_new; eauto.
  - intros i. rewrite (balance_insert _ _ _ _ i E). cbn. case_match eqn:Ei; [|lia].
    apply Z.eqb_eq in Ei as ->. lia.
Qed.

(** The account a claim pays to. *)
Definition resolves {CE : CryptoEnv} (a : VmAddress) : option AccountId :=
  match a with
  | NativeAddress id | SvmAddress id => Some id
  | EvmAddress addr => Some (legacy_idcom_evm env_sha256 addr)
  | BvmAddress _ | TvmAddress _ => None
  end.

Section effects.
Context {CE : CryptoEnv}.

Lemma ensure_moves t id :
  tree_fits t ->
  wp (ensure_native_account id) t (fun t' r =>
    r = Ok tt /\ moves_by t t' None /\ is_Some (accounts t' !! id)).
Proof.
  intros Hf. unfold ensure_native_account. wp_go; split_and!; try done.
  - bool_prop. apply eq_None_not_Some in H.
    eapply (moves_write t _ id (account_new id)); try done; [by unfold native_balance; rewrite H|].
    intros a. by rewrite H.
  - cbn. by rewrite lookup_insert_eq.
  - by apply moves_refl.
  - by bool_prop.
Qed.

Lemma consume_moves t id n :
  tree_fits t ->
  wp (consume_nonce id n) t (on_ok (fun c t' =>
    moves_by t t' None /\ exists n', c = NonceIncrement id n')).
Proof.
  intros Hf. unfold consume_nonce. wp_go; try done. split; [|by eexists].
  rename a into acc. apply u64_checked_add_Some in H1 as [-> Hmax].
  pose proof (fits_lookup _ _ _ Hf H) as (Hid & Hb & Hn).
  eapply (moves_write t _ id); [done|by apply get_mut_accounts|apply get_mut_intents
    |apply get_mut_recipients|apply get_mut_replay|done| | |].
  - unfold native_balance. by rewrite H.
  - cbn. unfold is_u64 in *. lia.
  - intros a Ha. cbn. assert (a = acc) as -> by congruence. lia.
Qed.

(** The transfer between two accounts that exist. *)
Lemma pay_moves t from to a b amount :
  tree_fits t -> accounts t !! from = Some a -> accounts t !! to = Some b ->
  0 <= amount <= acc_balance a -> acc_balance b + amount <= u64_max ->
  moves_by t (get_mut_update (get_mut_update t from (fun x => set_balance x (acc_balance a - amount)))
      to (fun x => set_balance x (acc_balance b + amount)))
    (Some {| pay_from := from; pay_to := to; pay_amount := amount |}).
Proof.
  intros Hf Ha Hb Ham Hmax. pose proof (fits_lookup _ _ _ Hf Ha) as (Hia & Hba & Hna).
  pose proof (fits_lookup _ _ _ Hf Hb) as (Hib & Hbb & Hnb).
  split.
  - cbn [minted pay_from pay_to pay_amount]. destruct (from =? to) eqn:E.
    + apply Z.eqb_eq in E as <-. assert (b = a) as -> by congruence. rewrite get_mut_twice.
      set (f := fun x => set_balance (set_balance x (acc_balance a - amount)) (acc_balance a + amount)).
      pose proof (moved_update t from a f Hf Ha) as Hm.
      replace (acc_balance (f a) - acc_balance a) with amount in Hm by (cbn; lia).
      apply Hm; [|cbn; lia].
      split_and!; cbn; [done|unfold is_u64 in *; lia|done].
    + apply Z.eqb_neq in E. apply moved_pay with (a := a); try done; try (cbn; lia).
      apply set_balance_fits; [done|]. unfold is_u64 in *; lia.
  - by rewrite !get_mut_intents.
  - unfold recipients_ok. by rewrite !get_mut_recipients.
  - intros i. assert (is_Some (accounts (get_mut_update t from
      (fun x => set_balance x (acc_balance a - amount))) !! to)) as [c Hc].
    { rewrite (get_mut_accounts _ _ _ a) by done. destruct (decide (from = to)) as [->|].
      - rewrite lookup_insert_eq. by eexists.
      - rewrite lookup_insert_ne by done. by eexists. }
    erewrite (balance_insert _ _ to _ i (get_mut_accounts _ _ _ c Hc)).
    erewrite (balance_insert _ _ from _ i (get_mut_accounts _ _ _ a Ha)).
    cbn. unfold native_balance. destruct (i =? to) eqn:Et, (i =? from) eqn:Ef; cbn; try lia.
    + apply Z.eqb_eq in Et as ->. apply Z.eqb_eq in Ef as ->. rewrite Z.eqb_refl, Hb. cbn. lia.
    + apply Z.eqb_eq in Et as ->. rewrite Hb. cbn. lia.
    + apply Z.eqb_eq in Ef as ->. rewrite Et, Ha. cbn. lia.
  - cbn. unfold native_balance. by rewrite Ha.
Qed.

Lemma native_transfer_moves t from to amount :
  tree_fits t -> 0 <= amount ->
  wp (native_transfer from to amount) t (on_ok (fun bs t' =>
    moves_by t t' (Some {| pay_from := from; pay_to := to; pay_amount := amount |}) /\
    bs = (native_balance t from, native_balance t from - amount, native_balance t to, native_balance t to + amount))).
Proof.
  intros Hf Ham. unfold native_transfer. apply wp_bind. eapply wp_mono; [|by apply ensure_moves].
  intros t1 r (-> & Hm & [b Hb]). pose proof (moves_fits _ _ _ Hm) as Hf1.
  assert (forall id, native_balance t1 id = native_balance t id) as B
    by (intros; rewrite (mb_balance _ _ _ Hm); cbn; lia).
  wp_go; try done. bool_prop. apply u64_checked_add_Some in H0 as [-> Hmax].
  rewrite !B in *. split; [|done]. eapply moves_trans; [exact Hm|].
  pose proof (B from) as Bf. pose proof (B to) as Bt. unfold native_balance in Bf at 1, Bt at 1.
  rewrite H1 in Bf. rewrite Hb in Bt. cbn in Bf, Bt. rewrite <-Bf, <-Bt in *.
  by apply pay_moves.
Qed.

Lemma materialize_moves t a auth :
  tree_fits t ->
  wp (materialize_destination a auth) t (on_ok (fun id t' =>
    moves_by t t' None /\ resolves a = Some id)).
Proof.
  intros Hf. assert (forall id, resolves a = Some id ->
    wp (do! ensure_native_account id in ret id) t (on_ok (fun id t' =>
      moves_by t t' None /\ resolves a = Some id))) as He.
  { intros id Hr. apply wp_bind. eapply wp_mono; [|by apply ensure_moves].
    by intros t1 r (-> & Hm & _). }
  destruct a as [d|addr|d| |]; cbn [materialize_destination]; try (by apply He); [|done..].
  destruct auth as [pk|]; [|by apply He]. apply wp_if; intros Hz; [|by apply He].
  wp_go. split; [|done].
  set (b := if pubkey_is_zero _ then _ else _).
  assert (acc_id_com b = d /\ acc_balance b = native_balance t d /\ is_u64 (acc_nonce b) /\
    forall a, accounts t !! d = Some a -> acc_nonce a <= acc_nonce b) as (Hid & Hb & Hn & Hg).
  { unfold b, native_balance. destruct (accounts t !! d) as [a|] eqn:Ea; cbn [default from_option id].
    - pose proof (fits_lookup _ _ _ Hf Ea) as (? & ? & ?).
      case_match; cbn; split_and!; try done; intros ? [= <-]; lia.
    - case_match; cbn; split_and!; done. }
  eapply (moves_write t _ d b); try done. cbn. by rewrite Hid.
Qed.
End effects.

(* ------------------------------------------------------------------ *)
(** * Ranges of decoded fields *)

Lemma slice_bytes p n l r : Forall is_byte l -> slice p n l = Ok r -> Forall is_byte r.
Proof. intros Hl. unfold slice. case_match; [|done]. intros [= <-]. by apply Forall_take, Forall_drop. Qed.

Lemma read_u64_range p l x : Forall is_byte l -> read_u64 p l = Ok x -> is_u64 x.
Proof.
  intros Hl H. apply rbind_ok in H as (b & Hb & [= <-]). pose proof (slice_bytes _ _ _ _ Hl Hb) as Hbb.
  apply slice_ok in Hb as [Hlen _]. pose proof (le_num_range b Hbb) as Hr. rewrite Hlen in Hr.
  change (256 ^ Z.of_nat 8) with (u64_max + 1) in Hr. unfold is_u64. lia.
Qed.

Lemma read_32_range p l x : Forall is_byte l -> read_32 p l = Ok x -> is_u256 x.
Proof.
  intros Hl H. apply rbind_ok in H as (b & Hb & [= <-]). pose proof (slice_bytes _ _ _ _ Hl Hb) as Hbb.
  apply slice_ok in Hb as [Hlen _]. pose proof (be_num_range b Hbb) as Hr. by rewrite Hlen in Hr.
Qed.

(** What the handlers need of the operations they decode. *)
Definition hfi_op_ok (op : TransactionOp) : Prop :=
  match op with
  | HfiPayCreate _ intent_id binding amount _ mint deposit epoch expiry dest authorizer _ =>
      is_u256 intent_id /\ is_u256 binding /\ is_u64 amount /\ is_u256 mint /\ is_u256 deposit /\
      is_u64 epoch /\ is_u64 expiry /\ is_u256 dest /\ is_u256 authorizer
  | Payload.HfiPayClaim _ destination _ _ => Forall is_byte destination
  | HfiPayRegisterRecipient _ _ _ _ _ _ _ _ pubkey signature =>
      Forall is_byte pubkey /\ Forall is_byte signature
  | _ => True
  end.

Lemma decode_hfi_ok l : Forall is_byte l -> post hfi_op_ok (decode l).
Proof.
  intros Hl. unfold decode. destruct l as [|op l'] eqn:El; [done|]. rewrite <-El in *.
  repeat match goal with |- post _ (if ?c then _ else _) => destruct c end; try done.
  all: unfold decode_transfer, decode_create_account, decode_set_auth_pubkey, decode_add_auth_key,
    decode_register_addresses, decode_hfi_pay_claim, decode_hfi_pay_create, decode_hfi_pay_fund,
    decode_hfi_pay_expire, decode_hfi_pay_refund, decode_hfi_pay_register_recipient,
    decode_approve_validator; solve_post; try done.
  all: unfold decode_legacy_add_auth_key; solve_post; try done.
  all: split_and?; eauto using read_u64_range, read_32_range, slice_bytes.
Qed.

Lemma op_decode_ok l op : Forall is_byte l -> op_decode l = Ok op -> decode l = Ok op /\ hfi_op_ok op.
Proof.
  intros Hl. pose proof (decode_hfi_ok l Hl) as H. unfold op_decode, engine_decode.
  destruct (decode l) as [o|[]]; [|done..]. by intros [= <-].
Qed.

Lemma read_flagged_range p l o : Forall is_byte l -> read_flagged p l = Ok o -> option_Forall is_u256 o.
Proof.
  intros Hl H. apply rbind_ok in H as (b & _ & H). apply rbind_ok in H as (x & Hx & [= <-]).
  case_match; constructor. by eapply read_32_range.
Qed.

Lemma nonzero_range x : is_u256 x -> option_Forall is_u256 (nonzero x).
Proof. intros H. unfold nonzero. case_match; by constructor. Qed.

(* ------------------------------------------------------------------ *)
(** * The life cycle of an intent *)

Section lifecycle.
Context {CE : CryptoEnv}.

(** Before the payout nothing has been withdrawn and the deposit address is the
    derived one; after it exactly the amount has. *)
Definition phase_ok (i : OnChainIntent) : Prop :=
  match oi_status i with
  | Created | Funded | Expired =>
      oi_withdrawn_amount i = 0 /\ oi_claim_nonce i = 0 /\ oi_refund_nonce i = 0 /\
      oi_owner i = None /\ oi_deposit_address i = derive_intent_address (oi_chain i) (oi_intent_id i)
  | Claimed => oi_withdrawn_amount i = oi_amount i /\ is_Some (oi_owner i)
  | Refunded => oi_withdrawn_amount i = oi_amount i /\ oi_owner i = None
  end.

Record intent_ok (i : OnChainIntent) : Prop := {
  ok_fits : intent_fits i;
  ok_amount : 0 < oi_amount i;
  ok_refund : refund_pair_ok (oi_refund_dest i) (oi_refund_authorizer i) = true;
  ok_phase : phase_ok i;
}.

Definition stored_at (t : StateTree) (id : Z) (o : option OnChainIntent) : Prop :=
  match o with
  | Some i => hfi_intents t !! id = Some (intent_encode i) /\ oi_intent_id i = id /\ intent_ok i
  | None => hfi_intents t !! id = None
  end.

(** Every stored record is the encoding of a well-formed intent under its id. *)
Definition intents_ok (t : StateTree) : Prop :=
  forall id, exists o, stored_at t id o.

(** The consent a refund needs: the authorizer sends it, or has signed it with
    the ML-DSA-44 key of its account. *)
Definition refund_authorised (t : StateTree) (tx : Transaction) (i : OnChainIntent) (nonce : Z)
    (dest authorizer : AccountId) (auth : option (list Z * list Z)) : Prop :=
  match auth with
  | None => tx_sender tx = authorizer
  | Some (pk, sg) => exists a k,
      accounts t !! authorizer = Some a /\ auth_key_for_algorithm a MlDsa44 = Some k /\
      pk_bytes k = pk /\
      verify_signature (ml_dsa_44 pk)
        (compute_refund_message (chain_tag (oi_chain i)) (oi_mint i) (oi_intent_id i)
           (oi_blinded_binding i) (oi_amount i) authorizer dest (oi_expiry i) nonce)
        {| sig_algorithm := MlDsa44; sig_bytes := sg |} = true
  end.

(** The create that makes [i]: its terms are those of the payload, with the recipient
    [idcom] it names. *)
Definition created_with (tx : Transaction) (slot : Z) (i : OnChainIntent) (idcom deposit epoch dest authorizer : Z)
    : Prop :=
  exists nonce tag mint,
    decode (payload tx) = Ok (HfiPayCreate nonce (oi_intent_id i) (oi_blinded_binding i) (oi_amount i) tag mint
      deposit epoch (oi_expiry i) dest authorizer idcom) /\
    chain_from_tag tag = Some (oi_chain i) /\ oi_mint i = nonzero mint /\ 0 < oi_amount i /\
    oi_expiry i <= u64_saturating_add slot MAX_EXPIRY_WINDOW /\ oi_created_at i = slot.

(** The record of the recipient a create names, if it is registered. *)
Definition registered_under (t : StateTree) (idcom : Z) : option (Z * list Z) :=
  if negb (idcom =? 0) then hfi_recipient_by_idcom t idcom else None.

(** An intent that waits for its deposit, at the address derived for it. *)
Definition opens (t : StateTree) (tx : Transaction) (slot : Z) (i : OnChainIntent) : Prop :=
  exists idcom dest authorizer,
    created_with tx slot i idcom (oi_deposit_address i) (oi_binding_epoch i) dest authorizer /\
    registered_under t idcom = None /\
    oi_deposit_address i = derive_intent_address (oi_chain i) (oi_intent_id i) /\
    oi_refund_dest i = nonzero dest /\ oi_refund_authorizer i = nonzero authorizer /\
    refund_pair_ok (oi_refund_dest i) (oi_refund_authorizer i) = true.

(** An intent paid at once to the account registered under the recipient. *)
Definition pays_registered (t : StateTree) (tx : Transaction) (slot : Z) (i : OnChainIntent) (d : AccountId) : Prop :=
  exists idcom deposit epoch dest authorizer h l record,
    created_with tx slot i idcom deposit epoch dest authorizer /\
    registered_under t idcom = Some (h, l) /\ decode_recipient_record l = Ok record /\
    dr_identity_commitment record = idcom /\ dr_account_id record = d /\ oi_mint i = None.

(** One step of the life cycle, with the payment that goes with it. *)
Inductive intent_step (hook : HfiPayOnChainHook) (t : StateTree) (tx : Transaction) (slot : Z)
    : option OnChainIntent -> OnChainIntent -> option Payment -> Prop :=
| step_open i :
    oi_status i = Created -> opens t tx slot i -> intent_step hook t tx slot None i None
| step_auto i d :
    oi_status i = Claimed -> oi_owner i = Some d -> pays_registered t tx slot i d ->
    intent_step hook t tx slot None i
      (Some {| pay_from := tx_sender tx; pay_to := d; pay_amount := oi_amount i |})
| step_fund i :
    oi_status i = Created -> oi_amount i <= native_balance t (oi_deposit_address i) ->
    intent_step hook t tx slot (Some i) (with_status i Funded) None
| step_expire i :
    oi_status i = Funded -> oi_expiry i < slot ->
    intent_step hook t tx slot (Some i) (with_status i Expired) None
| step_claim i dest auth commitment address d :
    oi_status i = Funded -> slot <= oi_expiry i ->
    (forall relay, claim_relay hook = Some relay -> tx_sender tx = relay) ->
    decode (payload tx) = Ok (Payload.HfiPayClaim (oi_intent_id i) dest auth commitment) ->
    blinded_binding_of commitment (oi_intent_id i) = oi_blinded_binding i ->
    vm_address_from_raw (oi_chain i) dest = Ok address -> resolves address = Some d ->
    intent_step hook t tx slot (Some i)
      (settle i Claimed 1 (oi_refund_nonce i) (oi_amount i) (Some d))
      (Some {| pay_from := oi_deposit_address i; pay_to := d; pay_amount := oi_amount i |})
| step_refund i nonce auth d authorizer :
    oi_status i = Expired \/
      ((oi_status i = Funded \/ oi_status i = Created) /\ is_Some auth /\ oi_expiry i < slot) ->
    oi_refund_dest i = Some d -> oi_refund_authorizer i = Some authorizer ->
    decode (payload tx) = Ok (HfiPayRefund nonce (oi_intent_id i) auth) ->
    refund_authorised t tx i nonce d authorizer auth ->
    intent_step hook t tx slot (Some i)
      (settle i Refunded (oi_claim_nonce i) 1 (oi_amount i) None)
      (Some {| pay_from := oi_deposit_address i; pay_to := d; pay_amount := oi_amount i |}).

(** The intent changes a receipt reports: intent and new status. *)
Definition intent_change (c : StateChange) : option (Z * Z) :=
  match c with
  | IntentChange id _ s _ => Some (id, s)
  | _ => None
  end.
Definition intent_changes (r : VmReceipt) : list (Z * Z) := omap intent_change (vm_changes r).

(** What a successful call of the hook does. *)
Inductive hook_effect (hook : HfiPayOnChainHook) (t : StateTree) (tx : Transaction) (slot : Z)
    (t' : StateTree) (r : VmReceipt) : Prop :=
| effect_step old new p t1 :
    stored_at t (oi_intent_id new) old -> intent_step hook t tx slot old new p ->
    intent_ok new -> moves_by t t1 p ->
    t' = hfi_intent_put t1 (oi_intent_id new) (intent_encode new) ->
    intent_changes r = [(oi_intent_id new, status_tag (oi_status new))] ->
    hook_effect hook t tx slot t' r
| effect_register :
    moves_by t t' None -> intent_changes r = [] -> hook_effect hook t tx slot t' r.
End lifecycle.

(* ------------------------------------------------------------------ *)
(** * The handlers implement the life cycle *)

Section handlers.
Context {CE : CryptoEnv} (hook : HfiPayOnChainHook) (tx : Transaction) (slot : Z).
Hypothesis Hsha : digest_shape env_sha256.
Hypothesis Hbytes : Forall is_byte (payload tx).
Hypothesis Hslot : is_u64 slot.

Lemma load_intent_stored t id :
  intents_ok t -> wp (load_intent id) t (on_ok (fun i t' => t' = t /\ stored_at t id (Some i))).
Proof.
  intros Hok. destruct (Hok id) as [[i|] Hs]; unfold load_intent; wp_step; wp_step.
  - pose proof Hs as (E & _ & Hi). rewrite E. wp_go; try done. simplify_eq.
    rewrite intent_decode_encode by apply Hi. done.
  - cbn in Hs. rewrite Hs. wp_go; done.
Qed.

(** Decoding the payload, with what is known of the operation. *)
Lemma decoded_bind {A} t (k : TransactionOp -> M string A) Q :
  (forall op, decode (payload tx) = Ok op -> hfi_op_ok op -> wp (k op) t (on_ok Q)) ->
  wp (bind (lift (op_decode (payload tx))) k) t (on_ok Q).
Proof.
  intros Hk. wp_step. wp_step. destruct (op_decode (payload tx)) as [op|e] eqn:E; [|done].
  apply (op_decode_ok _ _ Hbytes) in E as [Hd Hop]. by apply Hk.
Qed.

Lemma with_status_ok i s :
  intent_ok i -> oi_status i = Created \/ oi_status i = Funded -> s = Funded \/ s = Expired ->
  intent_ok (with_status i s).
Proof.
  intros [Hf Ha Hr Hp] Hi Hs. split; try done; [by destruct Hf|].
  unfold phase_ok in *. cbn. destruct Hi as [E|E], Hs as [-> | ->]; by rewrite E in Hp.
Qed.

Lemma claimed_ok i d :
  intent_ok i -> oi_status i = Funded -> is_u256 d ->
  intent_ok (settle i Claimed 1 (oi_refund_nonce i) (oi_amount i) (Some d)).
Proof.
  intros [Hf Ha Hr Hp] Hs Hd. split; try done.
  destruct Hf. split; cbn; try done; by constructor.
Qed.

Lemma refunded_ok i :
  intent_ok i -> intent_ok (settle i Refunded (oi_claim_nonce i) 1 (oi_amount i) None).
Proof.
  intros [Hf Ha Hr Hp]. split; try done. destruct Hf. split; cbn; try done; by constructor.
Qed.

Lemma destination_range c dest a d :
  Forall is_byte dest -> vm_address_from_raw c dest = Ok a -> resolves a = Some d -> is_u256 d.
Proof.
  intros Hb. pose proof (be_num_range _ Hb) as Hr. unfold vm_address_from_raw.
  destruct c; case_match eqn:El; intros [= <-]; cbn; intros [= <-];
    try (apply negb_false_iff, Nat.eqb_eq in El; rewrite El in Hr; done).
  by apply digest_range.
Qed.

Lemma expire_effect t :
  tree_fits t -> intents_ok t ->
  wp (handle_expire tx slot) t (on_ok (fun r t' => hook_effect hook t tx slot t' r)).
Proof.
  intros Hf Hok. unfold handle_expire. apply decoded_bind. intros op _ _. destruct op; try done.
  eapply on_ok_bind; [by apply load_intent_stored|]. intros i t1 (-> & Hs). pose proof Hs as (_ & Hid & Hi).
  unfold store_intent. wp_go; try done. bool_prop.
  eapply (effect_step _ _ _ _ _ _ (Some i) (with_status i Expired) None t); try done.
  - by rewrite <-Hid in Hs.
  - by constructor.
  - apply with_status_ok; auto.
  - by apply moves_refl.
  - cbn. by rewrite Hid.
Qed.

Lemma fund_effect t :
  tree_fits t -> intents_ok t ->
  wp (handle_fund hook tx) t (on_ok (fun r t' => hook_effect hook t tx slot t' r)).
Proof.
  intros Hf Hok. unfold handle_fund. apply decoded_bind. intros op _ _. destruct op; try done.
  eapply on_ok_bind; [by apply load_intent_stored|]. intros i t1 (-> & Hs). pose proof Hs as (_ & Hid & Hi).
  do 7 (wp_step; wp_step; try done). wp_step. wp_step. destruct (check_evidence _ _); [|done].
  do 2 (wp_step; wp_step; try done). bool_prop.
  eapply on_ok_bind; [by apply consume_moves|]. intros c t1 (Hm & n & ->).
  unfold store_intent. wp_go.
  eapply (effect_step _ _ _ _ _ _ (Some i) (with_status i Funded) None t1); try done.
  - by rewrite <-Hid in Hs.
  - by constructor.
  - apply with_status_ok; auto.
  - cbn. by rewrite Hid.
Qed.

Lemma claim_effect t :
  tree_fits t -> intents_ok t ->
  wp (handle_claim hook tx slot) t (on_ok (fun r t' => hook_effect hook t tx slot t' r)).
Proof.
  intros Hf Hok. unfold handle_claim. apply decoded_bind. intros op Hd Hop. destruct op; try done.
  wp_step. wp_step; [|done]. eapply on_ok_bind; [by apply load_intent_stored|].
  intros i t1 (-> & Hs). pose proof Hs as (_ & Hid & Hi).
  do 3 (wp_step; wp_step; try done). wp_step. wp_step.
  destruct (vm_address_from_raw _ _) as [address|] eqn:Ha; [|done].
  eapply on_ok_bind; [by apply materialize_moves|]. intros d t1 (Hm1 & Hd1).
  pose proof (ok_amount _ Hi) as Hpos.
  eapply on_ok_bind; [apply native_transfer_moves; [by eapply moves_fits|lia]|].
  intros bs t2 (Hm2 & ->). cbv beta iota. unfold store_intent. wp_go; try done. bool_prop.
  repeat match goal with H : u64_checked_add _ _ = Some _ |- _ =>
    apply u64_checked_add_Some in H as [-> _] end.
  pose proof (ok_phase _ Hi) as Hp. unfold phase_ok in Hp.
  match goal with H : oi_status i = Funded |- _ => rewrite H in Hp end.
  destruct Hp as (Hw & Hc & _). rewrite Hw, Hc, !Z.add_0_l.
  eapply (effect_step _ _ _ _ _ _ (Some i)
    (settle i Claimed 1 (oi_refund_nonce i) (oi_amount i) (Some d)) _ t2);
    [by rewrite <-Hid in Hs| | | |done|].
  - eapply step_claim; try done.
    + intros relay E. rewrite E in *. by bool_prop.
    + by rewrite Hid.
    + by rewrite Hid.
  - apply claimed_ok; [done..|]. by eapply destination_range.
  - by eapply moves_trans.
  - cbn. by rewrite Hid.
Qed.

Lemma refund_auth_checked t i nonce d authorizer pk sg :
  wp (check_refund_auth i (oi_intent_id i) nonce d authorizer pk sg) t (on_ok (fun _ t' =>
    t' = t /\ refund_authorised t tx i nonce d authorizer (Some (pk, sg)))).
Proof.
  unfold check_refund_auth. wp_go; try done. bool_prop. split; [done|].
  unfold refund_authorised. destruct (accounts t !! authorizer) as [acc|]; [|done].
  eexists acc, _. split_and!; [done|eassumption|done|done].
Qed.

(** The two ways to authorise a refund. *)
Lemma refund_consent t i nonce d authorizer auth :
  tree_fits t ->
  wp (match auth with
      | Some (pk, sg) =>
          do! check_refund_auth i (oi_intent_id i) nonce d authorizer pk sg in ret None
      | None =>
          do! fail_if (negb (tx_sender tx =? authorizer)) "sender is not the refund authorizer" in
          let! c := consume_nonce (tx_sender tx) nonce in ret (Some c)
      end) t (on_ok (fun nc t1 =>
    moves_by t t1 None /\ refund_authorised t tx i nonce d authorizer auth /\
    omap intent_change (option_list nc) = [])).
Proof.
  intros Hf. destruct auth as [[pk sg]|].
  - eapply on_ok_bind; [apply refund_auth_checked|]. intros _ t1 (-> & Ha). wp_go.
    split_and!; [by apply moves_refl|done|done].
  - wp_step. wp_step; [|done]. eapply on_ok_bind; [by apply consume_moves|].
    intros c t1 (Hm & n & ->). wp_go. bool_prop. by split_and!.
Qed.

Lemma refund_effect t :
  tree_fits t -> intents_ok t ->
  wp (handle_refund tx slot) t (on_ok (fun r t' => hook_effect hook t tx slot t' r)).
Proof.
  intros Hf Hok. unfold handle_refund. apply decoded_bind. intros op Hd _. destruct op; try done.
  eapply on_ok_bind; [by apply load_intent_stored|]. intros i t1 (-> & Hs).
  pose proof Hs as (_ & Hid & Hi). rewrite <-Hid in *. cbv zeta.
  wp_step. wp_step; [|done]. rename H into Helig.
  assert (oi_status i = Expired \/ (oi_status i = Funded \/ oi_status i = Created) /\
    is_Some refund_auth /\ oi_expiry i < slot) as Hel.
  { apply andb_false_iff in Helig as [E|E]; apply negb_false_iff in E; [left; by bool_prop|right].
    apply andb_true_iff in E as [E ?]. apply andb_true_iff in E as [E Est].
    apply orb_true_iff in Est. bool_prop. split_and!; [|done|lia].
    destruct Est; [left|right]; by bool_prop. }
  wp_step. wp_step; [|done]. rename a into d, H into Hdest.
  wp_step. wp_step; [|done]. rename a into authorizer, H into Hauth.
  eapply on_ok_bind; [by apply refund_consent|]. intros nc t1 (Hm1 & Hra & Hnc).
  pose proof (ok_amount _ Hi) as Hpos.
  eapply on_ok_bind; [apply native_transfer_moves; [by eapply moves_fits|lia]|].
  intros bs t2 (Hm2 & ->). cbv beta iota. unfold store_intent. wp_go; try done.
  repeat match goal with H : u64_checked_add _ _ = Some _ |- _ =>
    apply u64_checked_add_Some in H as [-> _] end.
  pose proof (ok_phase _ Hi) as Hp.
  assert (oi_withdrawn_amount i = 0 /\ oi_refund_nonce i = 0 /\ oi_owner i = None) as (Hw & Hc & Ho).
  { unfold phase_ok in Hp. destruct Hel as [E|([E|E] & _)]; rewrite E in Hp; naive_solver. }
  rewrite Hw, Hc, Ho, !Z.add_0_l.
  eapply (effect_step _ _ _ _ _ _ (Some i)
    (settle i Refunded (oi_claim_nonce i) 1 (oi_amount i) None) _ t2); [done| | | |done|].
  - by eapply step_refund.
  - by apply refunded_ok.
  - by eapply moves_trans.
  - unfold intent_changes. cbn [vm_changes ok_receipt]. rewrite omap_app, Hnc. done.
Qed.

Lemma auto_claim_effect t nonce id binding amount tag chain mint deposit epoch expiry dest authorizer idcom h l :
  decode (payload tx) = Ok (HfiPayCreate nonce id binding amount tag mint deposit epoch expiry dest authorizer idcom) ->
  chain_from_tag tag = Some chain -> expiry <= u64_saturating_add slot MAX_EXPIRY_WINDOW ->
  registered_under t idcom = Some (h, l) ->
  tree_fits t -> recipients_ok t -> hfi_intents t !! id = None -> 0 < amount ->
  is_u256 id -> is_u256 binding -> is_u64 amount -> is_u256 mint -> is_u64 expiry ->
  Forall is_byte l ->
  wp (auto_claim tx slot nonce id binding amount chain mint expiry idcom l) t
    (on_ok (fun r t' => hook_effect hook t tx slot t' r)).
Proof.
  intros Hdec Htag Hwin Hreg Hf Hrec Hnone Hpos Hid Hb Ham Hmint Hexp Hl. unfold auto_claim. wp_step. wp_step.
  destruct (decode_recipient_record l) as [dr|e] eqn:Ed; [|done]. cbn [with_text].
  assert (is_u256 (dr_account_id dr) /\ is_u64 (dr_binding_epoch dr)) as [Hacc Hepoch].
  { unfold decode_recipient_record, reject in Ed. case_match; [done|].
    repeat (apply rbind_ok in Ed as (? & ? & Ed)). injection Ed as <-. cbn.
    eauto using read_32_range, read_u64_range. }
  wp_step. wp_step; [|done]. rename H into Hidc. wp_step. wp_step; [|done]. rename H into Hnat.
  eapply on_ok_bind; [by apply consume_moves|]. intros c t1 (Hm1 & n & ->).
  eapply on_ok_bind; [apply native_transfer_moves; [by eapply moves_fits|lia]|].
  intros bs t2 (Hm2 & ->). cbv beta iota. unfold store_intent. wp_go.
  eapply (effect_step _ _ _ _ _ _ None); [| | |by eapply moves_trans|reflexivity|done].
  - done.
  - match goal with |- intent_step _ _ _ _ _ ?i _ =>
      apply (step_auto hook t tx slot i (dr_account_id dr) eq_refl eq_refl) end.
    bool_prop. exists idcom, deposit, epoch, dest, authorizer, h, l, dr.
    split_and!; [by exists nonce, tag, mint|done|done|done|done|]. by apply eq_None_not_Some.
  - split; [|done|done|by split; cbn].
    split; cbn; try done; try (by constructor); by apply nonzero_range.
Qed.

Lemma open_intent_effect t nonce id binding amount tag chain mint deposit epoch expiry dest authorizer idcom :
  decode (payload tx) = Ok (HfiPayCreate nonce id binding amount tag mint deposit epoch expiry dest authorizer idcom) ->
  chain_from_tag tag = Some chain -> expiry <= u64_saturating_add slot MAX_EXPIRY_WINDOW ->
  registered_under t idcom = None ->
  tree_fits t -> hfi_intents t !! id = None -> 0 < amount ->
  hfi_op_ok (HfiPayCreate nonce id binding amount (chain_tag chain) mint deposit epoch expiry
    dest authorizer 0) ->
  wp (open_intent tx slot nonce id binding amount chain mint deposit epoch expiry dest authorizer) t
    (on_ok (fun r t' => hook_effect hook t tx slot t' r)).
Proof.
  intros Hdec Htag Hwin Hreg Hf Hnone Hpos (Hid & Hb & Ham & Hmint & Hdep & Hepoch & Hexp & Hdest & Hauth).
  unfold open_intent. wp_step. wp_step; [|done]. wp_step. wp_step; [|done].
  eapply on_ok_bind; [by apply consume_moves|]. intros c t1 (Hm1 & n & ->).
  wp_step. eapply wp_mono; [|apply ensure_moves; by eapply moves_fits].
  intros t2 r (-> & Hm2 & _). unfold store_intent. wp_go. bool_prop.
  eapply (effect_step _ _ _ _ _ _ None); [| | |by eapply moves_trans|reflexivity|done].
  - done.
  - apply step_open; [done|]. exists idcom, dest, authorizer. split_and!; [by exists nonce, tag, mint|done..].
  - split; cbn; [|done|done|by split_and!].
    split; cbn; try done; try (by constructor); by apply nonzero_range.
Qed.

Lemma create_effect t :
  tree_fits t -> intents_ok t -> recipients_ok t ->
  wp (handle_create tx slot) t (on_ok (fun r t' => hook_effect hook t tx slot t' r)).
Proof.
  intros Hf Hok Hrec. unfold handle_create. apply decoded_bind. intros op Hd Hop.
  destruct op; try done. pose proof Hop as (Hid & Hb & Ham & Hmint & Hdep & Hepoch & Hexp & _).
  wp_step. wp_step; [|done]. wp_step. wp_step; [|done]. rename H0 into Hwin.
  wp_step. wp_step. wp_step. wp_step; [|done].
  wp_step. wp_step; [|done]. rename a into chain, H1 into Htag. wp_step. wp_step. bool_prop. fold (registered_under t identity_commitment).
  assert (hfi_intents t !! intent_id = None) as Hnone by by apply eq_None_not_Some.
  assert (0 < amount) by (unfold is_u64 in Ham; lia).
  destruct (registered_under t identity_commitment) as [[h l]|] eqn:Er.
  - eapply auto_claim_effect; try done. unfold registered_under in Er. destruct (negb _); [|done].
    unfold hfi_recipient_by_idcom in Er. repeat (case_match; [|done]). simplify_eq.
    by eapply (Hrec h l).
  - by eapply open_intent_effect.
Qed.

Lemma register_effect t :
  tree_fits t ->
  wp (handle_register_recipient tx slot) t (on_ok (fun r t' => hook_effect hook t tx slot t' r)).
Proof.
  intros Hf. unfold handle_register_recipient. apply decoded_bind. intros op Hd Hop.
  destruct op; try done. destruct Hop as [Hpk Hsg].
  do 4 (wp_step; wp_step; try done).
  wp_step. wp_step. destruct (wire_text _ (pubkey_from_wire_bytes _)); [|done].
  wp_step. wp_step. destruct (wire_text _ (signature_from_wire_bytes _)); [|done].
  do 4 (wp_step; wp_step; try done). wp_step. wp_step.
  match goal with |- wp _ ?s _ => set (t1 := s) end.
  assert (moves_by t t1 None) as Hm.
  { split; [by apply moved_same|done| |intros; cbn; unfold native_balance; cbn; lia|done].
    intros Hrec. apply map_Forall_insert_2; [|done]. unfold encode_recipient_record.
    repeat (apply Forall_app; split); try (unfold len16; auto with ace); done. }
  eapply on_ok_bind; [apply consume_moves; by eapply moves_fits|]. intros c t2 (Hm2 & n & ->).
  wp_go. apply effect_register; [by eapply moves_trans|done].
Qed.

Lemma hook_effects t :
  tree_fits t -> intents_ok t -> recipients_ok t ->
  wp (hook_execute hook tx slot) t (on_ok (fun r t' => hook_effect hook t tx slot t' r)).
Proof.
  intros Hf Hok Hrec. unfold hook_execute. destruct (payload tx) as [|op l] in |- *; [done|].
  do 6 (apply wp_if; intros _; [first [by apply claim_effect|by apply create_effect
    |by apply fund_effect|by apply expire_effect|by apply refund_effect|by apply register_effect]|]).
  done.
Qed.
End handlers.

(* ------------------------------------------------------------------ *)
(** * Engines leave intents alone *)

Definition same_hfi (t t' : StateTree) : Prop :=
  hfi_intents t' = hfi_intents t /\ hfi_recipients t' = hfi_recipients t.

(** A successful run of an engine neither touches nor reports an intent. *)
Class IntentFree {E} (run : Transaction -> M E VmReceipt) : Prop :=
  intent_free tx t t' r : run tx t = (t', Ok r) -> same_hfi t t' /\ intent_changes r = [].

Definition kept {E A} (t : StateTree) (P : A -> Prop) (t' : StateTree) (r : result E A) : Prop :=
  same_hfi t t' /\ match r with Ok a => P a | Err _ => True end.

Lemma kept_bind {E A B} (m : M E A) (k : A -> M E B) t P Q :
  wp m t (kept t P) -> (forall a t1, P a -> wp (k a) t1 (kept t1 Q)) -> wp (bind m k) t (kept t Q).
Proof.
  intros Hm Hk. apply wp_bind. eapply wp_mono; [|exact Hm]. intros t1 [a|e] [[Hi Hr] H]; [|done].
  eapply wp_mono; [|by apply Hk]. intros t2 r [[Hi2 Hr2] H2]. split; [split; congruence|done].
Qed.

(** Closes a leaf of a symbolic run. *)
Ltac kept_done :=
  split; [split; rewrite ?get_mut_intents, ?get_mut_recipients; reflexivity|try done].
Ltac kept_go := wp_go; try kept_done.

Section engines.
Context {CE : CryptoEnv}.

Definition silent (l : list StateChange) : Prop := omap intent_change l = [].

Lemma silent_app l k : silent l -> silent k -> silent (l ++ k).
Proof. unfold silent. intros Hl Hk. by rewrite omap_app, Hl, Hk. Qed.

Lemma consume_kept id n t :
  wp (consume_account_nonce id n) t (kept t (fun c => silent [c])).
Proof. unfold consume_account_nonce. kept_go. Qed.

Lemma transfer_kept from to amount en inc t :
  wp (transfer_with_nonce_policy from to amount en inc) t (kept t silent).
Proof.
  unfold transfer_with_nonce_policy, transfer_pay. destruct en, inc; kept_go.
Qed.

Lemma bindings_silent t a id bs a' l : apply_bindings t a id bs = Ok (a', l) -> silent l.
Proof.
  revert a a' l. induction bs as [|b bs IH]; intros a a' l; cbn [apply_bindings]; [by intros [= _ <-]|].
  intros H. apply rbind_ok in H as ([a1 c] & Hv & H). apply rbind_ok in H as ([a2 cs] & Hb & [= _ <-]).
  unfold verify_and_apply_binding in Hv. apply rbind_ok in Hv as (u & _ & [= _ <-]).
  unfold silent. cbn. by apply IH in Hb.
Qed.

Lemma change_keys_kept id n k change t :
  wp (change_keys id n k change) t (kept t silent).
Proof.
  unfold change_keys. eapply kept_bind; [apply consume_kept|]. intros c t1 Hc. cbv beta in Hc. wp_go.
  - destruct (change _ _) as [a'|]; [|kept_done]. kept_go.
  - kept_done.
Qed.

Lemma operation_kept tx op policy t : wp (apply_operation tx op policy) t (kept t silent).
Proof.
  unfold apply_operation. destruct op; try (by apply change_keys_kept); try (by kept_go).
  - apply wp_if; intros _; [|apply transfer_kept].
    eapply (kept_bind _ _ _ silent).
    + unfold consume_zk_replay. kept_go.
      all: unfold zk_replay_consume; case_match; kept_done.
    + intros l t1 Hl. eapply kept_bind; [apply transfer_kept|]. intros k t2 Hk. kept_go.
      by apply silent_app.
  - eapply kept_bind; [apply consume_kept|]. intros c t1 Hc. wp_go; [|kept_done].
    destruct (apply_bindings _ _ _ _) as [[a' l]|] eqn:E; [|kept_done]. kept_go.
    apply bindings_silent in E. unfold silent in *. cbn in *. by destruct (intent_change c).
  - unfold apply_approve_validator_nonce. wp_step. wp_step.
    destruct (validate_approve_validator_sender _ _); [|kept_done].
    eapply kept_bind; [apply consume_kept|]. intros c t1 Hc. kept_go.
Qed.

#[export] Instance native_intent_free policy : IntentFree (native_engine policy).
Proof.
  intros tx t t' r H. unfold native_engine in H.
  assert (wp (execute_transaction tx policy) t (kept t (fun r => silent (receipt_changes r)))) as Hw.
  { unfold execute_transaction. wp_step. wp_step. destruct (engine_decode _) as [op|]; [|kept_done].
    unfold zk_only_transfer. wp_step. wp_step; [|kept_done].
    eapply (kept_bind _ _ _ (fun _ => True)).
    - unfold authorize. destruct (zk_auth tx); kept_go.
    - intros _ t1 _. eapply kept_bind; [apply operation_kept|]. intros l t2 Hl. kept_go. }
  destruct (execute_transaction tx policy t) as [t1 [x|e]] eqn:He; [|done]. injection H as <- <-.
  exact (wp_run _ _ _ _ _ Hw He).
Qed.

Lemma authorise_kept {K : K256} {RV : RawVerifiers} tx op t :
  wp (authorise tx op) t (kept t (fun _ => True)).
Proof.
  unfold authorise. destruct (raw_chain tx) as [raw|] eqn:Er.
  - unfold raw_auth. eapply (kept_bind _ _ _ (fun _ => True)); [by repeat case_match; kept_go|].
    intros _ t1 _. unfold prepare_raw_chain_accounts. rewrite Er. destruct (raw_kind raw); cbv beta zeta.
    + wp_step. wp_step. destruct (verify_raw_evm _) as [[signer chain]|]; [|kept_done]. wp_step.
      kept_go. destruct (canonical_evm_payload _); unfold bind_evm_alias_account; kept_go.
    + wp_go. destruct (verify_raw_solana_transfer_for_slot _ _ _ _); kept_go.
    + wp_go. destruct (verify_raw_btc _ _); kept_go.
    + wp_go. destruct (verify_raw_tron_against_state _ _); unfold bind_tron_alias_account; kept_go.
  - destruct (zk_auth tx); [by kept_go|]. unfold credential_auth, check_credential.
    case_match; kept_go. destruct (nvm_decode _); kept_go.
    destruct (native_auth_key _ _ _); kept_go.
Qed.
End engines.

(* ------------------------------------------------------------------ *)
(** * Blocks *)

(** Statuses after which an intent has been paid out, and the payouts of an
    intent that a list of receipts reports. *)
Definition paid_out (s : IntentStatus) : bool :=
  match s with
  | Claimed | Refunded => true
  | _ => false
  end.

Definition pays_out (id : Z) (c : Z * Z) : bool :=
  (c.1 =? id) && match status_from_tag c.2 with Some s => paid_out s | None => false end.

Definition payouts (id : Z) (rs : list VmReceipt) : nat :=
  length (List.filter (pays_out id) (mjoin (intent_changes <$> rs))).

(** 1 when the stored intent has been paid out. *)
Definition settled (t : StateTree) (id : Z) : nat :=
  match hfi_intents t !! id with
  | Some l =>
      match intent_decode l with
      | Ok i => if paid_out (oi_status i) then 1 else 0
      | Err _ => 0
      end
  | None => 0
  end.

Lemma payouts_app id l k : payouts id (l ++ k) = (payouts id l + payouts id k)%nat.
Proof. unfold payouts. by rewrite fmap_app, join_app, List.filter_app, length_app. Qed.

Section blocks.
Context {CE : CryptoEnv}.

Record hook_ok (t : StateTree) : Prop := {
  hok_fits : tree_fits t;
  hok_intents : intents_ok t;
  hok_recipients : recipients_ok t;
}.

Definition settled_intent (o : option OnChainIntent) : nat :=
  match o with
  | Some i => if paid_out (oi_status i) then 1 else 0
  | None => 0
  end.

Lemma settled_stored t id o : stored_at t id o -> settled t id = settled_intent o.
Proof.
  unfold settled. destruct o as [i|]; cbn [stored_at settled_intent].
  - intros (-> & _ & Hi). by rewrite intent_decode_encode by apply Hi.
  - by intros ->.
Qed.

Lemma stored_put t id i j o :
  stored_at t j o -> oi_intent_id i = id -> intent_ok i ->
  stored_at (hfi_intent_put t id (intent_encode i)) j (if j =? id then Some i else o).
Proof.
  intros Ho Hid Hi. destruct (j =? id) eqn:E; cbn.
  - apply Z.eqb_eq in E as ->. by rewrite lookup_insert_eq.
  - apply Z.eqb_neq in E. destruct o; cbn in *; by rewrite lookup_insert_ne.
Qed.

Lemma stored_moves t t' p id o : moves_by t t' p -> stored_at t id o -> stored_at t' id o.
Proof. intros [_ Hi _ _ _]. unfold stored_at. by rewrite Hi. Qed.

Lemma intents_put t i : intents_ok t -> intent_ok i ->
  intents_ok (hfi_intent_put t (oi_intent_id i) (intent_encode i)).
Proof. intros Ht Hi j. destruct (Ht j) as [o Ho]. eexists. by apply stored_put. Qed.

(** A step pays an intent out at most once, and reports it. *)
Lemma step_settles hook t tx slot old new p :
  intent_step hook t tx slot old new p ->
  settled_intent old = 0%nat /\ (p = None <-> paid_out (oi_status new) = false).
Proof.
  destruct 1 as [i E|i d E|i E|i E|i ? ? ? ? ? E|i ? ? ? ? E]; cbn; rewrite ?E; try done;
    try (by split; [done|split]).
  destruct E as [->|([->| ->] & _)]; by split; [done|split].
Qed.

(** The terms of an intent never change, and a paid out intent not at all. *)
Definition evolves (i j : OnChainIntent) : Prop :=
  j = settle i (oi_status j) (oi_claim_nonce j) (oi_refund_nonce j) (oi_withdrawn_amount j)
    (oi_owner j) /\
  (paid_out (oi_status i) = true -> j = i).

Lemma evolves_refl i : evolves i i.
Proof. split; [by destruct i|done]. Qed.

Lemma evolves_trans i j k : evolves i j -> evolves j k -> evolves i k.
Proof.
  intros [Hj Hpj] [Hk Hpk]. split; [rewrite Hk; by rewrite Hj|].
  intros Hi. pose proof (Hpj Hi) as ->. by apply Hpk.
Qed.

Lemma step_evolves hook t tx slot i new p :
  intent_step hook t tx slot (Some i) new p -> evolves i new.
Proof.
  intros H. pose proof (step_settles _ _ _ _ _ _ _ H) as [Hs _]. cbn in Hs.
  split; [by inversion H|]. intros E. by rewrite E in Hs.
Qed.

(** What transactions do to the stored intents, with the receipts they give. *)
Record progress (t t' : StateTree) (rs : list VmReceipt) : Prop := {
  pr_ok : hook_ok t';
  pr_payouts id : (payouts id rs + settled t id = settled t' id)%nat;
  pr_terms id i : stored_at t id (Some i) -> exists j, stored_at t' id (Some j) /\ evolves i j;
}.

Lemma progress_trans t1 t2 t3 l k : progress t1 t2 l -> progress t2 t3 k -> progress t1 t3 (l ++ k).
Proof.
  intros [_ p1 e1] [o2 p2 e2]. split; [done| |].
  - intros id. rewrite payouts_app, <-p2, <-p1. lia.
  - intros id i Hi. destruct (e1 id i Hi) as (j & Hj & Eij). destruct (e2 id j Hj) as (k' & Hk & Ejk).
    exists k'. split; [done|by eapply evolves_trans].
Qed.

(** Transactions that leave the intents alone. *)
Lemma same_progress t t' rs :
  hook_ok t -> hfi_intents t' = hfi_intents t -> (recipients_ok t -> recipients_ok t') ->
  tree_fits t' -> mjoin (intent_changes <$> rs) = [] -> progress t t' rs.
Proof.
  intros [_ Ht Hrec] Hi Hr Hf Hc. split.
  - split; [done| |by apply Hr]. intros j. destruct (Ht j) as [o Ho]. exists o.
    unfold stored_at. by rewrite Hi.
  - intros id. unfold payouts, settled. by rewrite Hc, Hi.
  - intros id i Hid. exists i. split; [unfold stored_at; by rewrite Hi|apply evolves_refl].
Qed.

Lemma effect_progress hook t tx slot t' r :
  hook_ok t -> hook_effect hook t tx slot t' r -> progress t t' [r].
Proof.
  intros Hok [old new p t1 Ho Hstep Hnew Hm -> Hc|Hm Hc].
  2: { apply same_progress; [done|apply Hm|apply Hm|by eapply moves_fits|]. cbn. by rewrite Hc. }
  destruct Hok as [Hf Hi Hr].
  assert (intents_ok t1) as Hi1
    by (intros j; destruct (Hi j) as [o Hj]; exists o; by eapply stored_moves).
  destruct (step_settles _ _ _ _ _ _ _ Hstep) as [H0 _]. split.
  - split; [by apply (moves_fits _ _ _ Hm)|by apply intents_put|by apply (mb_recipients _ _ _ Hm)].
  - intros id. destruct (Hi id) as [o Hid]. rewrite (settled_stored _ _ _ Hid).
    erewrite (settled_stored _ id); [|apply stored_put; [by eapply stored_moves|done|done]].
    unfold payouts. cbn [fmap list_fmap mjoin list_join]. rewrite app_nil_r, Hc. cbn [List.filter].
    unfold pays_out. cbn [fst snd]. rewrite status_tag_roundtrip, Z.eqb_sym.
    destruct (id =? oi_intent_id new) eqn:E; [|by cbn].
    apply Z.eqb_eq in E as ->. assert (settled_intent o = settled_intent old) as ->.
    { by rewrite <-(settled_stored _ _ _ Hid), <-(settled_stored _ _ _ Ho). }
    rewrite H0. cbn. by destruct (paid_out _).
  - intros id i Hs. pose proof (stored_put t1 (oi_intent_id new) new id (Some i)
      (stored_moves _ _ _ _ _ Hm Hs) eq_refl Hnew) as Hput.
    destruct (id =? oi_intent_id new) eqn:E; [|exists i; split; [done|apply evolves_refl]].
    exists new. split; [done|]. apply Z.eqb_eq in E as ->.
    assert (old = Some i) as ->; [|by eapply step_evolves].
    pose proof Hs as (El & _ & Hii). destruct old as [o|]; cbn [stored_at] in Ho; [|congruence].
    destruct Ho as (El' & _ & Hoi).
    assert (intent_decode (intent_encode o) = intent_decode (intent_encode i)) as Ee by congruence.
    rewrite !intent_decode_encode in Ee by first [apply Hii|apply Hoi]. congruence.
Qed.

(** The dispatcher with this hook, and engines that keep to their accounts. *)
Record pays_vm {K : K256} {RV : RawVerifiers} (vm : NVm) (hook : HfiPayOnChainHook) : Prop := {
  pv_engines v e : engines vm v = Some e -> Conserving e /\ IntentFree e;
  pv_hook : hfi_claim vm = Some (hook_execute hook);
}.

Fixpoint run_blocks {K : K256} {RV : RawVerifiers} (vm : NVm) (t : StateTree)
    (blocks : list (Z * list Transaction)) : StateTree * list VmReceipt :=
  match blocks with
  | [] => (t, [])
  | (slot, txs) :: blocks =>
      let '(t, rs) := nvm_execute_block vm slot t txs in
      let '(t, rs') := run_blocks vm t blocks in
      (t, rs ++ rs')
  end.

Section dispatched.
Context {K : K256} {RV : RawVerifiers} (vm : NVm) (hook : HfiPayOnChainHook).
Hypothesis Hsha : digest_shape env_sha256.
Hypothesis Hvm : pays_vm vm hook.

Lemma marker_progress id marker r t0 t :
  progress t0 t [r] ->
  wp (write_marker id marker r) t (on_ok (fun r' t' => progress t0 t' [r'])).
Proof.
  intros Hp. destruct marker as [[s v]|]; cbn [write_marker]; wp_go; [|done].
  destruct Hp as [[Hf Hi Hr] Hpay Hev]. split; [by split| |done].
  assert (intent_changes (add_change r (StorageChange id s 0 v)) = intent_changes r) as Hc.
  { unfold intent_changes. cbn [vm_changes add_change]. rewrite omap_app. cbn. apply app_nil_r. }
  intros i. specialize (Hpay i). unfold payouts in *. cbn [fmap list_fmap mjoin list_join] in *.
  by rewrite Hc.
Qed.

Lemma dispatch_progress tx op slot t :
  hook_ok t -> Forall is_byte (payload tx) -> is_u64 slot ->
  wp (dispatch vm tx op slot) t (on_ok (fun r t' => progress t t' [r])).
Proof.
  intros Hok Hb Hslot. unfold dispatch. wp_step. wp_step. destruct (tron_marker tx) as [marker|]; [|done].
  wp_step. pose proof (conj (authorise_moves t tx op (hok_fits _ Hok)) (authorise_kept tx op t)) as Ha.
  eapply (wp_mono _ _ (fun t1 r1 => ok_moves t t1 r1 /\ kept t (fun _ => True) t1 r1)); [|exact Ha].
  intros t1 [[]|e]; [|done]. intros [[Hf1 _ _ _] [[Hi1 Hr1] _]].
  assert (progress t t1 []) as H1.
  { apply same_progress; try done. unfold recipients_ok. by rewrite Hr1. }
  apply wp_if; intros _.
  - rewrite (pv_hook _ _ Hvm). wp_step. wp_step; [|done]. simplify_eq. wp_step. unfold map_err, wp.
    destruct (hook_execute hook tx slot t1) as [t2 [r|e]] eqn:He; [|done]. cbn [fst snd].
    apply marker_progress. apply (progress_trans t t1 t2 [] [r] H1).
    apply (effect_progress hook t1 tx slot); [apply H1|].
    destruct (pr_ok _ _ _ H1) as [? ? ?].
    exact (wp_run _ _ _ _ _ (hook_effects hook tx slot Hsha Hb Hslot t1 ltac:(done) ltac:(done) ltac:(done)) He).
  - wp_step. wp_step; [|done]. wp_step. wp_step; [|done]. wp_step. unfold map_err, wp.
    match goal with H : engines vm _ = Some ?e |- _ => rename e into eng;
      destruct (pv_engines _ _ Hvm _ _ H) as [Hc Hfree] end.
    destruct (eng tx t1) as [t2 [r|e]] eqn:He; [|done]. cbn [fst snd].
    apply marker_progress. apply (progress_trans t t1 t2 [] [r] H1).
    destruct (Hfree _ _ _ _ He) as [[Hi2 Hr2] Hsil].
    apply same_progress; [apply H1|done|unfold recipients_ok; by rewrite Hr2| |].
    + apply (Hc tx t1 t2 r); [apply H1|done|done].
    + cbn. by rewrite Hsil.
Qed.

Lemma nvm_step_progress tx slot t :
  hook_ok t -> Forall is_byte (payload tx) -> is_u64 slot ->
  let '(t', r) := nvm_step vm slot t tx in progress t t' [r].
Proof.
  intros Hok Hb Hslot. unfold nvm_step.
  destruct (nvm_execute_transaction vm tx slot t) as [t' [r|e]] eqn:He.
  - unfold nvm_execute_transaction in He. destruct (payload tx) as [|op pl] eqn:Ep; [done|].
    rewrite <-Ep in Hb. destruct (_ && _); [done|]. apply atomically_ok in He.
    exact (wp_run _ _ _ _ _ (dispatch_progress tx op slot t Hok Hb Hslot) He).
  - rewrite (nvm_error_restores _ _ _ _ _ _ He). apply same_progress; try done. apply Hok.
Qed.

Lemma block_progress txs slot t :
  hook_ok t -> Forall (fun tx => Forall is_byte (payload tx)) txs -> is_u64 slot ->
  let '(t', rs) := nvm_execute_block vm slot t txs in progress t t' rs.
Proof.
  intros Hok Hb Hslot. revert t Hok. induction Hb as [|tx txs Hx Hb IH]; intros t Hok;
    cbn [nvm_execute_block]; [apply same_progress; try done; apply Hok|].
  pose proof (nvm_step_progress tx slot t Hok Hx Hslot) as H1.
  destruct (nvm_step vm slot t tx) as [t1 r]. specialize (IH t1 (pr_ok _ _ _ H1)).
  destruct (nvm_execute_block vm slot t1 txs) as [t2 rs]. exact (progress_trans _ _ _ [r] rs H1 IH).
Qed.

Lemma run_progress blocks t :
  hook_ok t ->
  Forall (fun b => is_u64 b.1 /\ Forall (fun tx => Forall is_byte (payload tx)) b.2) blocks ->
  let '(t', rs) := run_blocks vm t blocks in progress t t' rs.
Proof.
  intros Hok Hb. revert t Hok. induction Hb as [|[slot txs] bs [Hs Hx] Hb IH]; intros t Hok;
    cbn [run_blocks]; [apply same_progress; try done; apply Hok|].
  pose proof (block_progress txs slot t Hok Hx Hs) as H1.
  destruct (nvm_execute_block vm slot t txs) as [t1 r]. specialize (IH t1 (pr_ok _ _ _ H1)).
  destruct (run_blocks vm t1 bs) as [t2 rs]. exact (progress_trans _ _ _ r rs H1 IH).
Qed.
End dispatched.
End blocks.

(* ------------------------------------------------------------------ *)
(** * Funded intents are backed, and can be claimed *)

(** A postcondition that includes success. *)
Definition must {E A} (Q : A -> StateTree -> Prop) (t : StateTree) (r : result E A) : Prop :=
  match r with
  | Ok a => Q a t
  | Err _ => False
  end.

Lemma must_bind {E A B} (m : M E A) (k : A -> M E B) t Q R :
  wp m t (must Q) -> (forall a t1, Q a t1 -> wp (k a) t1 (must R)) -> wp (bind m k) t (must R).
Proof.
  intros Hm Hk. apply wp_bind. eapply wp_mono; [|exact Hm]. intros t1 [a|e]; [apply Hk|done].
Qed.

(** A run that succeeds has the effect of the runs that succeed. *)
Lemma must_ok {E A} (m : M E A) t Q : wp m t (must (fun _ _ => True)) -> wp m t (on_ok Q) -> wp m t (must Q).
Proof. unfold wp. by destruct (snd (m t)). Qed.

Section backing.
Context {CE : CryptoEnv}.




Section run.
Context (U : Z -> Prop) (hook : HfiPayOnChainHook).
Hypothesis Hsha : digest_shape env_sha256.
Hypothesis Hderive : forall c i c' i', U i -> U i' ->
  derive_intent_address c i = derive_intent_address c' i' -> i = i'.







End run.
End backing.

Section success.
Context {CE : CryptoEnv}.

Lemma transfer_must t from to amount :
  tree_fits t -> 0 < amount <= native_balance t from -> native_balance t to + amount <= u64_max ->
  wp (native_transfer from to amount) t (must (fun bs t' =>
    moves_by t t' (Some {| pay_from := from; pay_to := to; pay_amount := amount |}) /\
    bs = (native_balance t from, native_balance t from - amount, native_balance t to, native_balance t to + amount))).
Proof.
  intros Hf Ham Hmax. apply must_ok; [|apply native_transfer_moves; [done|lia]].
  unfold native_transfer. apply wp_bind. eapply wp_mono; [|by apply ensure_moves].
  intros t1 r (-> & Hm & Hto).
  assert (forall id, native_balance t1 id = native_balance t id) as B
    by (intros; rewrite (mb_balance _ _ _ Hm); cbn; lia).
  assert (is_Some (accounts t1 !! from)) as [a Ha].
  { destruct (accounts t1 !! from) eqn:E; [by eexists|]. pose proof (B from) as Bf.
    unfold native_balance in Bf at 1. rewrite E in Bf. cbn in Bf. lia. }
  wp_go; rewrite ?B in *; bool_prop; try done; try lia; try congruence.
  - match goal with H : accounts _ !! to = None |- _ => apply eq_None_not_Some in H; apply H end.
    destruct (decide (from = to)) as [<-|Hne].
    + rewrite (get_mut_accounts _ _ _ a), lookup_insert_eq by done. by eexists.
    + by rewrite (get_mut_accounts _ _ _ a), lookup_insert_ne by done.
  - unfold u64_checked_add in H0. case_match; [done|]. bool_prop. lia.
Qed.


Lemma consume_must t id n :
  tree_fits t -> acc_nonce <$> accounts t !! id = Some n -> n < u64_max ->
  wp (consume_nonce id n) t (must (fun c t' =>
    moves_by t t' None /\ exists n', c = NonceIncrement id n')).
Proof.
  intros Hf Hn Hmax. apply must_ok; [|by apply consume_moves]. unfold consume_nonce.
  destruct (accounts t !! id) as [a|] eqn:E; [|done]. cbn in Hn. injection Hn as <-.
  wp_step. wp_step. rewrite E. wp_go; simplify_eq; bool_prop; try done; try lia.
  match goal with H : u64_checked_add _ _ = None |- _ => unfold u64_checked_add in H end.
  case_match; [done|]. bool_prop. lia.
Qed.

Lemma op_decode_of l op : decode l = Ok op -> op_decode l = Ok op.
Proof. intros H. unfold op_decode, engine_decode. by rewrite H. Qed.


End success.

(* ------------------------------------------------------------------ *)
(** * Payments to a registered recipient *)

Section registered.
Context {CE : CryptoEnv}.

(** A create in [tx] that pays [amount] at once to the account [d] registered
    under [idcom]. *)
Record auto_payment (t : StateTree) (tx : Transaction) (slot amount idcom : Z) (d : AccountId)
    : Prop := {
  ap_known : idcom <> 0;
  ap_record : exists h l dr, hfi_recipient_by_idcom t idcom = Some (h, l) /\
    decode_recipient_record l = Ok dr /\ dr_identity_commitment dr = idcom /\ dr_account_id dr = d;
  ap_op : exists nonce id binding tag deposit epoch expiry dest authorizer,
    decode (payload tx) = Ok (HfiPayCreate nonce id binding amount tag 0 deposit epoch expiry dest
      authorizer idcom) /\
    hfi_intents t !! id = None /\ is_Some (chain_from_tag tag) /\
    expiry <= u64_saturating_add slot MAX_EXPIRY_WINDOW /\
    acc_nonce <$> accounts t !! tx_sender tx = Some nonce /\ nonce < u64_max;
  ap_amount : 0 < amount <= native_balance t (tx_sender tx);
  ap_room : native_balance t d + amount <= u64_max;
}.

(** The first byte of a payload is the opcode of what it decodes to. *)
Definition opcode_of (op : TransactionOp) : Z :=
  match op with
  | Transfer _ _ _ => OP_TRANSFER
  | CreateAccount _ _ => OP_CREATE_ACCOUNT
  | SetAuthPubkey _ _ => OP_SET_AUTH_PUBKEY
  | AddAuthKey _ _ => OP_ADD_AUTH_KEY
  | RegisterAddresses _ _ => OP_REGISTER_ADDRESSES
  | Payload.HfiPayClaim _ _ _ _ => OP_HFI_PAY_CLAIM
  | HfiPayCreate _ _ _ _ _ _ _ _ _ _ _ _ => OP_HFI_PAY_CREATE
  | HfiPayFund _ _ _ _ => OP_HFI_PAY_FUND
  | HfiPayExpire _ => OP_HFI_PAY_EXPIRE
  | HfiPayRefund _ _ _ => OP_HFI_PAY_REFUND
  | HfiPayRegisterRecipient _ _ _ _ _ _ _ _ _ _ => OP_HFI_PAY_REGISTER_RECIPIENT
  | ApproveValidator _ _ _ => OP_APPROVE_VALIDATOR
  end.

Lemma decode_posts_opcode l : post (fun op => head l = Some (opcode_of op)) (decode l).
Proof.
  unfold decode. destruct l as [|o l'] eqn:El; [done|]. cbn [head].
  repeat match goal with |- post _ (if o =? ?c then _ else _) => destruct (Z.eqb_spec o c) as [->|] end;
    try done.
  all: rewrite <-El; unfold decode_transfer, decode_create_account, decode_set_auth_pubkey,
    decode_add_auth_key, decode_register_addresses, decode_hfi_pay_claim, decode_hfi_pay_create,
    decode_hfi_pay_fund, decode_hfi_pay_expire, decode_hfi_pay_refund,
    decode_hfi_pay_register_recipient, decode_approve_validator; solve_post; try done.
  all: unfold decode_legacy_add_auth_key; solve_post; done.
Qed.

Lemma decode_opcode l op : decode l = Ok op -> exists rest, l = opcode_of op :: rest.
Proof.
  intros H. pose proof (decode_posts_opcode l) as Hp. rewrite H in Hp. cbn in Hp.
  destruct l as [|o l]; [done|]. cbn in Hp. injection Hp as ->. by eexists.
Qed.

(** The handler of a decoded operation runs. *)
Lemma hook_runs hook tx slot t op (h : M string VmReceipt) Q :
  decode (payload tx) = Ok op ->
  match op with
  | Payload.HfiPayClaim _ _ _ _ => h = handle_claim hook tx slot
  | HfiPayCreate _ _ _ _ _ _ _ _ _ _ _ _ => h = handle_create tx slot
  | HfiPayRegisterRecipient _ _ _ _ _ _ _ _ _ _ => h = handle_register_recipient tx slot
  | _ => False
  end ->
  wp h t (must Q) -> exists t' r, hook_execute hook tx slot t = (t', Ok r) /\ Q r t'.
Proof.
  intros Hd Hh Hw. assert (hook_execute hook tx slot = h) as ->.
  { unfold hook_execute. destruct (decode_opcode _ _ Hd) as [rest Hp].
    rewrite Hp. destruct op; try done; cbn [opcode_of]; by rewrite Hh. }
  unfold wp, must in Hw. destruct (h t) as [t' [r|e]]; [|done]. by exists t', r.
Qed.

Lemma auto_payment_pays t tx slot amount idcom d hook :
  tree_fits t -> auto_payment t tx slot amount idcom d ->
  exists t' r, hook_execute hook tx slot t = (t', Ok r) /\ exists t1,
    moves_by t t1 (Some {| pay_from := tx_sender tx; pay_to := d; pay_amount := amount |}) /\
    accounts t' = accounts t1.
Proof.
  intros Hf [Hknown (h & l & dr & Hreg & Hdr & Hidc & Hacc) (nonce & id & binding & tag & deposit &
    epoch & expiry & dest & authorizer & Hdec & Hnone & [chain Hchain] & Hexp & Hnonce & Hmaxn) Ham Hroom].
  eapply hook_runs; [exact Hdec|done|]. unfold handle_create. rewrite (op_decode_of _ _ Hdec).
  wp_step. wp_step. rewrite (proj2 (Z.eqb_neq amount 0)) by lia.
  rewrite (proj2 (Z.ltb_ge _ _) Hexp), Hchain. wp_step. wp_step; [|done]. wp_step. wp_step; [|done].
  wp_step. wp_step. rewrite Hnone. wp_step. wp_step; [|done]. wp_step. wp_step; [|done]. simplify_eq.
  wp_step. wp_step. rewrite (proj2 (Z.eqb_neq _ 0) Hknown). cbn [negb]. rewrite Hreg.
  unfold auto_claim. wp_step. wp_step. rewrite Hdr. cbn [with_text].
  rewrite Z.eqb_refl. wp_step. wp_step; [|done]. wp_step. wp_step; [|done].
  eapply must_bind; [by eapply consume_must|]. intros c t1 (Hm1 & n & ->).
  assert (forall i, native_balance t1 i = native_balance t i) as B
    by (intros; rewrite (mb_balance _ _ _ Hm1); cbn; lia).
  eapply must_bind; [apply transfer_must; [by eapply moves_fits|by rewrite B|by rewrite B]|].
  intros bs t2 (Hm2 & ->). cbv beta iota. unfold store_intent. wp_go.
  exists t2. split; [by eapply moves_trans|done].
Qed.
End registered.

(* ------------------------------------------------------------------ *)
(** * Registration *)

Section registration.
Context {CE : CryptoEnv}.

(** A registration the hook accepts: the account derived from [xid] holds the
    key that signed it.  Nothing else is asked of the commitment [idcom]. *)
Record registers (t : StateTree) (tx : Transaction) (slot xid idcom : Z) : Prop := {
  rg_ranges : is_u256 xid /\ is_u256 idcom;
  rg_op : exists nonce identifier handle epoch valid pk sg key sig n m a,
    decode (payload tx) = Ok (HfiPayRegisterRecipient nonce xid identifier idcom handle epoch 0
      valid pk sg) /\
    is_u256 handle /\ is_u64 epoch /\ slot <= valid /\ (0 < length identifier <= 256)%nat /\
    pubkey_from_wire_bytes pk = Ok (key, n) /\ signature_from_wire_bytes sg = Ok (sig, m) /\
    verify_signature key (registration_message_v2 xid identifier idcom handle epoch 0 valid) sig
      = true /\
    accounts t !! idcom_xid env_sha256 xid = Some a /\ key ∈ all_auth_keys a /\
    acc_nonce <$> accounts t !! tx_sender tx = Some nonce /\ nonce < u64_max;
}.

Lemma consume_keeps_registry t id n idcom :
  wp (consume_nonce id n) t (fun t' _ =>
    hfi_recipient_by_idcom t' idcom = hfi_recipient_by_idcom t idcom).
Proof.
  unfold consume_nonce. wp_go; try done. unfold get_mut_update. by destruct (accounts t !! id).
Qed.

Lemma put_recipient_found t h idcom l :
  hfi_recipient_by_idcom (hfi_recipient_put t h idcom l) idcom = Some (h, l).
Proof.
  unfold hfi_recipient_by_idcom, hfi_recipient_put. cbn. by rewrite !lookup_insert_eq.
Qed.

Lemma register_must t tx slot xid idcom :
  digest_shape env_sha256 -> tree_fits t -> registers t tx slot xid idcom ->
  wp (handle_register_recipient tx slot) t (must (fun _ t' =>
    exists h l dr, hfi_recipient_by_idcom t' idcom = Some (h, l) /\
    decode_recipient_record l = Ok dr /\ dr_identity_commitment dr = idcom /\
    dr_account_id dr = idcom_xid env_sha256 xid)).
Proof.
  intros Hsha Hf [[Hx Hid] (nonce & identifier & handle & epoch & valid & pk & sg & key & sig & n & m & a &
    Hdec & Hh & He & Hv & [Hl1 Hl2] & Hpk & Hsg & Hver & Hacc & Hkey & Hnonce & Hmax)].
  assert (existsb (fun k => bool_decide (pk_algorithm k = pk_algorithm key) &&
    bool_decide (pk_bytes k = pk_bytes key)) (all_auth_keys a) = true) as Hown.
  { apply existsb_exists. exists key. split; [by apply list_elem_of_In|]. by rewrite !bool_decide_true. }
  unfold handle_register_recipient. rewrite (op_decode_of _ _ Hdec). wp_step. wp_step.
  rewrite (proj2 (Z.ltb_ge _ _) Hv), (proj2 (Nat.eqb_neq (length identifier) 0)) by lia.
  rewrite (proj2 (Nat.ltb_ge MAX_REGISTER_IDENTIFIER_LEN (length identifier)))
    by (unfold MAX_REGISTER_IDENTIFIER_LEN; lia).
  do 4 (wp_step; wp_step; [|done]). rewrite Hpk, Hsg. cbn [wire_text]. do 2 (wp_step; wp_step).
  cbv zeta. rewrite Hver. wp_step. wp_step; [|done].
  wp_step. wp_step. rewrite Hacc. wp_step. wp_step; [|done]. simplify_eq. rewrite Hown.
  wp_step. wp_step; [|done]. wp_step. wp_step.
  match goal with |- wp _ ?s _ => set (t1 := s) end.
  set (l := encode_recipient_record _ _ _ _ _ _ _) in t1.
  eapply (must_bind _ _ _ (fun _ t2 => hfi_recipient_by_idcom t2 idcom = hfi_recipient_by_idcom t1 idcom)).
  - apply must_ok; [|eapply wp_mono; [|apply consume_keeps_registry]; by intros ? [].. ].
    eapply wp_mono; [|apply (consume_must t1 (tx_sender tx) nonce); done]. by intros ? [].
  - intros c t2 Hr. wp_go. eexists _, l, _. split; [rewrite Hr; apply put_recipient_found|].
    split; [by apply recipient_decode_encode; try done; apply digest_range|done].
Qed.
End registration.

(* ------------------------------------------------------------------ *)
(** * Theorems *)

Section theorems.
Context {CE : CryptoEnv} {K : K256} {RV : RawVerifiers}.

(** C19. The hook implements the life cycle of intents.  Every successful call is
    one step of it: an intent is opened with the terms of the create, at the deposit
    address derived for it, or paid at once to the account registered under the
    recipient the create names; it is funded when its deposit address holds the amount, claimed before its expiry by the relay with the
    preimage of its binding, expired after its expiry, or refunded to the agreed
    destination with the consent of the authorizer.  The payment that goes with
    the step is the only change of balances, and the stored records stay
    well-formed: nothing is withdrawn before the payout and exactly the amount
    after it. *)
Theorem hook_refines_lifecycle hook tx slot t t' r :
  digest_shape env_sha256 -> Forall is_byte (payload tx) -> is_u64 slot -> hook_ok t ->
  hook_execute hook tx slot t = (t', Ok r) ->
  hook_effect hook t tx slot t' r /\ hook_ok t'.
Proof.
  intros Hsha Hb Hs Hok He. pose proof Hok as [Hf Hi Hr].
  pose proof (wp_run _ _ _ _ _ (hook_effects hook tx slot Hsha Hb Hs t Hf Hi Hr) He) as Heff.
  split; [exact Heff|]. apply (effect_progress hook t tx slot t' r Hok Heff).
Qed.

(** C20. An intent is paid out at most once.  Over any blocks run by a dispatcher
    with the HFI Pay hook and engines that conserve money and touch no intent
    ([pays_vm]; the native engine is shown to be one), whatever the transactions are and whichever fail, the
    receipts report one payout of an intent exactly when its record becomes
    claimed or refunded, and none when it already was.  No intent disappears,
    its terms never change, and a record that was paid out not at all. *)
Theorem intents_paid_once vm hook t blocks :
  digest_shape env_sha256 -> pays_vm vm hook -> hook_ok t ->
  Forall (fun b => is_u64 b.1 /\ Forall (fun tx => Forall is_byte (payload tx)) b.2) blocks ->
  let '(t', receipts) := run_blocks vm t blocks in
  (forall id, (payouts id receipts + settled t id = settled t' id /\ settled t' id <= 1)%nat) /\
  (forall id i, stored_at t id (Some i) -> exists j, stored_at t' id (Some j) /\ evolves i j).
Proof.
  intros Hsha Hvm Hok Hb. pose proof (run_progress vm hook Hsha Hvm blocks t Hok Hb) as Hp.
  destruct (run_blocks vm t blocks) as [t' rs]. destruct Hp as [_ Hpay Hterms]. split; [|exact Hterms].
  intros id. split; [apply Hpay|]. unfold settled. repeat case_match; lia.
Qed.


(** C22. A payment to oneself creates money.  When the account registered under a
    commitment is the sender of a create that names it, the create succeeds and
    the balance of the sender, and with it the total of all balances, grows by
    the amount: the transfer of the hook computes both new balances first and
    writes the payer's and then the payee's into the same account. *)
Theorem self_payment_mints hook t tx slot amount idcom :
  tree_fits t -> auto_payment t tx slot amount idcom (tx_sender tx) ->
  exists t' r, hook_execute hook tx slot t = (t', Ok r) /\
    native_balance t' (tx_sender tx) = native_balance t (tx_sender tx) + amount /\
    total_balance t' = total_balance t + amount.
Proof.
  intros Hf Hp. destruct (auto_payment_pays t tx slot amount idcom (tx_sender tx) hook Hf Hp)
    as (t' & r & He & t1 & Hm & Ha).
  exists t', r. split; [exact He|]. unfold native_balance, total_balance. rewrite Ha.
  fold (native_balance t1 (tx_sender tx)) (native_balance t (tx_sender tx)).
  fold (total_balance t1) (total_balance t). split.
  - rewrite (mb_balance _ _ _ Hm). cbn. rewrite !Z.eqb_refl. cbn. lia.
  - rewrite (moved_total _ _ _ (mb_moved _ _ _ Hm)). cbn. by rewrite Z.eqb_refl.
Qed.

(** A payment to an expired account destroys it: the account it materialises
    drops the stub, and no proof of the expired data resurrects it. *)
Theorem payment_drops_stub t id stub :
  stubs t !! id = Some stub -> accounts t !! id = None ->
  exists t', ensure_native_account id t = (t', Ok tt) /\
    accounts t' !! id = Some (account_new id) /\ stubs t' !! id = None /\
    forall proof slot, acc_id_com (proof_account proof) = id ->
      is_ok (resurrect_account env_sha256 t' proof slot) = false.
Proof.
  intros Hst Hacc. exists (insert_account env_sha256 t (account_new id)). split_and!.
  - unfold ensure_native_account, bind, contains, gets. by rewrite Hacc.
  - cbn. by rewrite lookup_insert_eq.
  - cbn. by rewrite lookup_delete_eq.
  - intros proof slot Hp. unfold resurrect_account. cbn. by rewrite Hp, lookup_delete_eq.
Qed.

(** Anybody with an account can take over the registration of a commitment.
    Whatever is registered under a commitment, a registration of the same
    commitment signed by the key of another account succeeds, and from then on
    the commitment leads to that account: a create that names it pays there.
    The check against hijacking ties the signer to the xid of the registration
    and nothing to its commitment. *)
Theorem registration_taken_over hook t tx slot xid idcom :
  digest_shape env_sha256 -> tree_fits t -> registers t tx slot xid idcom ->
  exists t' r, hook_execute hook tx slot t = (t', Ok r) /\
    forall tx2 slot2 amount d, tree_fits t' -> auto_payment t' tx2 slot2 amount idcom d ->
      d = idcom_xid env_sha256 xid /\
      exists t2 r2, hook_execute hook tx2 slot2 t' = (t2, Ok r2) /\
        (tx_sender tx2 <> d -> native_balance t2 d = native_balance t' d + amount).
Proof.
  intros Hsha Hf Hr.
  assert (exists t' r, hook_execute hook tx slot t = (t', Ok r) /\
    exists h l dr, hfi_recipient_by_idcom t' idcom = Some (h, l) /\
    decode_recipient_record l = Ok dr /\ dr_identity_commitment dr = idcom /\
    dr_account_id dr = idcom_xid env_sha256 xid) as (t' & r & He & h & l & dr & Hreg & Hdr & _ & Hacc).
  { pose proof Hr as [_ (nonce & identifier & handle & epoch & valid & pk & sg & _ & _ & _ & _ & _ & Hdec & _)].
    eapply hook_runs; [exact Hdec|done|]. by apply register_must. }
  exists t', r. split; [done|]. intros tx2 slot2 amount d Hf' Hp. split.
  - destruct (ap_record _ _ _ _ _ _ Hp) as (h2 & l2 & dr2 & Hreg2 & Hdr2 & _ & <-). congruence.
  - destruct (auto_payment_pays t' tx2 slot2 amount idcom d hook Hf' Hp)
      as (t2 & r2 & He2 & t1 & Hm & Ha).
    exists t2, r2. split; [done|]. intros Hne. unfold native_balance at 1. rewrite Ha.
    fold (native_balance t1 d). rewrite (mb_balance _ _ _ Hm). cbn. rewrite Z.eqb_refl.
    rewrite (proj2 (Z.eqb_neq d (tx_sender tx2))) by congruence. cbn. lia.
Qed.

(** ** The first key of an account *)

Section first_key.
Context (t : StateTree) (tx : Transaction) (id : AccountId) (a : Account) (key : TaggedPubkey).
Hypothesis Ha : accounts t !! id = Some a.
Hypothesis Hzero : pubkey_is_zero (acc_auth_pubkey a) = true.
Hypothesis Hkeys : acc_auth_keys a = [].
Hypothesis Hmax : acc_nonce a < u64_max.
Hypothesis Hraw : raw_chain tx = None.
Hypothesis Hzk : zk_auth tx = None.
Hypothesis Hsend : tx_sender tx = id.
Hypothesis Hdec : decode (payload tx) = Ok (SetAuthPubkey (acc_nonce a) key).
Hypothesis Hcred : verify_credential env_sha256 env_devnet (attestation tx) (payload tx) key = true.

(** The account with the key, and the state with the account. *)
Definition keyed : Account := set_keys (set_nonce a (acc_nonce a + 1)) key [].
Definition with_key (t' : StateTree) : Prop :=
  accounts t' = <[id := keyed]> (accounts t) /\ hfi_intents t' = hfi_intents t.

Lemma first_key_accepted alg : key_update_key a alg key = key.
Proof.
  unfold key_update_key, auth_key_for_algorithm, has_provisioned_auth_key. by rewrite Hzero, Hkeys.
Qed.

Lemma first_key_decoded : engine_decode (payload tx) = Ok (SetAuthPubkey (acc_nonce a) key).
Proof. unfold engine_decode. by rewrite Hdec. Qed.

Lemma first_key_changes change :
  change (set_nonce a (acc_nonce a + 1)) key = Ok keyed ->
  wp (change_keys id (acc_nonce a) key change) t (must (fun _ => with_key)).
Proof.
  intros Hc. unfold change_keys, consume_account_nonce. wp_step. wp_step. wp_step. rewrite Ha.
  cbn [require]. wp_step. wp_step. rewrite Z.eqb_refl. wp_step. wp_step; [|done].
  unfold u64_checked_add. rewrite (proj2 (Z.leb_le (acc_nonce a + 1) u64_max)) by lia. cbn [require].
  wp_go; rewrite ?(get_mut_accounts _ _ _ _ Ha), ?lookup_insert_eq in *; simplify_eq; try done.
  rewrite Hc. wp_go. split; [|by rewrite !get_mut_intents].
  rewrite get_mut_twice, (get_mut_accounts _ _ _ _ Ha). done.
Qed.

Lemma first_key_executes policy : wp (native_engine policy tx) t (must (fun _ => with_key)).
Proof.
  assert (wp (execute_transaction tx policy) t (must (fun _ => with_key))) as Hx.
  { unfold execute_transaction. rewrite first_key_decoded. wp_step. wp_step. unfold zk_only_transfer.
    rewrite (zk_is_None _ Hzk). wp_step. wp_step; [|done]. unfold authorize. rewrite Hzk, Hsend.
    wp_step. wp_step. wp_step. rewrite Ha. cbn [verification_key fmap option_fmap option_map].
    rewrite first_key_accepted. cbn [require]. wp_step. wp_step. rewrite Hcred. wp_step; [|done].
    eapply (must_bind _ _ _ (fun _ => with_key)); [|intros l t1 H1; by wp_go].
    unfold apply_operation. rewrite Hsend. apply first_key_changes. unfold rotate_key.
    cbn [acc_auth_pubkey set_nonce acc_auth_keys]. by rewrite Hzero, Hkeys. }
  unfold wp, native_engine in *. by destruct (execute_transaction tx policy t) as [t1 [x|e]].
Qed.

Lemma first_key_dispatched vm policy slot :
  engines vm AceNative = Some (native_engine policy) ->
  exists t' r, nvm_execute_transaction vm tx slot t = (t', Ok r) /\ with_key t'.
Proof.
  intros Heng. destruct (decode_opcode _ _ Hdec) as [rest Hp]. cbn [opcode_of] in Hp.
  assert (wp (dispatch vm tx OP_SET_AUTH_PUBKEY slot) t (must (fun _ => with_key))) as Hd.
  { unfold dispatch, tron_marker, authorise. rewrite Hraw, Hzk. wp_step. wp_step. wp_step.
    unfold credential_auth, nvm_decode, check_credential.
    rewrite bool_decide_true, first_key_decoded, Hsend by done. wp_step. wp_step. wp_step. wp_step.
    rewrite Ha. wp_step. wp_step. cbn [native_auth_key]. rewrite first_key_accepted, Hcred.
    wp_step; [|done]. change (is_hfi_opcode OP_SET_AUTH_PUBKEY) with false. cbv iota.
    change (vm_from_opcode OP_SET_AUTH_PUBKEY) with (Some AceNative). cbn [require].
    wp_step. wp_step. rewrite Heng. wp_step. wp_step; [|done]. simplify_eq. wp_step. unfold map_err, wp.
    pose proof (first_key_executes policy) as Hx. unfold wp in Hx.
    by destruct (native_engine policy tx t) as [t1 [r|e]]. }
  unfold nvm_execute_transaction. rewrite Hp, (zk_is_None _ Hzk), andb_false_r.
  unfold atomically. unfold wp in Hd.
  destruct (dispatch vm tx OP_SET_AUTH_PUBKEY slot t) as [t1 [r|e]]; [|done]. by exists t1, r.
Qed.
End first_key.

(** C23. Anybody can take the key of a deposit account.  The deposit account of an
    intent is an ordinary account without a key, and the dispatcher accepts a
    first key for an account under the signature of this key.  So for every
    funded intent and every key, a SetAuthPubkey in the name of the deposit
    address signed with the key succeeds: the account keeps the deposit and is
    controlled by the key, while the intent is still funded. *)
Theorem escrow_key_taken vm policy t i a tx slot nonce key :
  engines vm AceNative = Some (native_engine policy) ->
  stored_at t (oi_intent_id i) (Some i) -> oi_status i = Funded ->
  accounts t !! oi_deposit_address i = Some a -> pubkey_is_zero (acc_auth_pubkey a) = true ->
  acc_auth_keys a = [] -> acc_nonce a = nonce -> nonce < u64_max ->
  raw_chain tx = None -> zk_auth tx = None -> tx_sender tx = oi_deposit_address i ->
  decode (payload tx) = Ok (SetAuthPubkey nonce key) ->
  verify_credential env_sha256 env_devnet (attestation tx) (payload tx) key = true ->
  exists t' r b, nvm_execute_transaction vm tx slot t = (t', Ok r) /\
    accounts t' !! oi_deposit_address i = Some b /\ acc_auth_pubkey b = key /\
    acc_balance b = acc_balance a /\ stored_at t' (oi_intent_id i) (Some i).
Proof.
  intros Heng Hs _ Ha Hz Hk Hn Hmax Hraw Hzk Hsend Hdec Hcred.
  subst nonce. destruct (first_key_dispatched t tx _ a key Ha Hz Hk Hmax Hraw Hzk Hsend Hdec Hcred vm policy slot Heng)
    as (t' & r & He & Hacc & Hint).
  exists t', r, (keyed a key). split; [done|]. rewrite Hacc, lookup_insert_eq. split_and!; try done.
  unfold stored_at. by rewrite Hint.
Qed.
End theorems.

(* ------------------------------------------------------------------ *)
(** * A payment, a self-payment and two thefts, evaluated *)

Module SampleHfi.
Import SampleEnv SampleK256 SampleTron.

Definition signed_by (u : Z) (sender : AccountId) (op : TransactionOp) : Transaction :=
  let p := default [] (encode op) in
  {| payload := p;
     attestation := {| obj_hash := digest env_sha256 p; idcom := sender;
       att_domain := {| chain_id := 1; domain_slot := 9 |}; context_tag := 0;
       credential := SampleSig.sample_sign u [] |};
     raw_chain := None; zk_auth := None |}.

Lemma bytes_ok l : forallb (fun x => (0 <=? x) && (x <? 256)) l = true -> Forall is_byte l.
Proof.
  intros H. apply Forall_forall. intros x Hx. rewrite forallb_forall in H.
  apply list_elem_of_In in Hx. specialize (H x Hx). unfold is_byte. lia.
Qed.

(** Account 7 pays 4 to whoever knows the preimage 9, through intent 1. *)
Definition escrow : AccountId := derive_intent_address ChainNative 1.
Definition create : Transaction := signed_by 7 7
  (HfiPayCreate 0 1 (blinded_binding_of 9 1) 4 0 0 escrow 0 100 0 0 0).
Definition send : Transaction := signed_by 7 7 (Transfer 1 escrow 4).
Definition fund : Transaction := signed_by 7 7 (HfiPayFund 2 1 3 4).
Definition claim : Transaction := signed_by 7 7 (Payload.HfiPayClaim 1 (be_bytes 32 8) None 9).
Definition hook : HfiPayOnChainHook :=
  {| vk_bytes := []; committed_tx := Some (fun _ => Some send); claim_relay := Some 7;
     claim_salt := Some [1] |}.
Definition vm : NVm :=
  {| engines v := match v with AceNative => Some (native_engine SampleNative.policy) | _ => None end;
     hfi_claim := Some (hook_execute hook) |}.

Definition opened : StateTree := fst (hook_execute hook create 5 SampleNative.tree).
Definition sent : StateTree := fst (nvm_execute_transaction vm send 5 opened).
Definition funded : StateTree := fst (hook_execute hook fund 5 sent).
Definition intent (s : IntentStatus) : OnChainIntent :=
  {| oi_intent_id := 1; oi_blinded_binding := blinded_binding_of 9 1; oi_amount := 4;
     oi_chain := ChainNative; oi_mint := None; oi_deposit_address := escrow;
     oi_binding_epoch := 0; oi_expiry := 100; oi_refund_dest := None; oi_refund_authorizer := None;
     oi_created_at := 5; oi_status := s; oi_claim_nonce := 0; oi_refund_nonce := 0;
     oi_withdrawn_amount := 0; oi_owner := None |}.

Lemma tree_hook_ok : hook_ok SampleNative.tree.
Proof.
  split; [apply SampleNative.sample_fits| |done]. intros id. exists None. cbn. apply lookup_empty.
Qed.

Lemma vm_pays : pays_vm vm hook.
Proof.
  split; [|done]. intros [] e; try done. intros [= <-].
  split; [apply native_conserving|apply native_intent_free].
Qed.

Lemma run_of (m : M string VmReceipt) t : is_ok (snd (m t)) = true -> exists r, m t = (fst (m t), Ok r).
Proof. destruct (m t) as [t' [r|e]]; [by exists r|done]. Qed.

Lemma funded_ok : stored_at funded 1 (Some (intent Funded)).
Proof.
  split_and!; [vm_compute; reflexivity|done|]. split; [|done|done|by split_and!].
  split; try (by constructor); vm_compute; split; by intros [=].
Qed.





(** Commitment 5 is registered for the account of xid 1; the account of xid 2
    has a key of its own. *)
Definition owner (xid : Z) : AccountId := idcom_xid env_sha256 xid.
Definition wire_key (u : Z) : list Z := default [] (pubkey_to_wire_bytes (SampleSig.sample_key u)).
Definition wire_sig (u : Z) : list Z :=
  default [] (signature_to_wire_bytes (SampleSig.sample_sign u [])).
Definition register (u : Z) : Transaction := signed_by u (owner u)
  (HfiPayRegisterRecipient 0 u [104; u] 5 0 0 0 100 (wire_key u) (wire_sig u)).
Definition owners : StateTree :=
  insert_account env_sha256 (insert_account env_sha256 SampleNative.tree
    (with_auth (owner 1) 10 (SampleSig.sample_key 1))) (with_auth (owner 2) 10 (SampleSig.sample_key 2)).
Definition registered : StateTree := fst (hook_execute hook (register 1) 5 owners).
Definition pay_self : Transaction := signed_by 1 (owner 1)
  (HfiPayCreate 1 2 0 4 0 0 0 0 100 0 0 5).
Definition pay_victim : Transaction := signed_by 7 7 (HfiPayCreate 0 3 0 4 0 0 0 0 100 0 0 5).

Lemma create_bytes : Forall is_byte (payload create).
Proof. apply bytes_ok. vm_compute. reflexivity. Qed.
Lemma send_bytes : Forall is_byte (payload send).
Proof. apply bytes_ok. vm_compute. reflexivity. Qed.
Lemma fund_bytes : Forall is_byte (payload fund).
Proof. apply bytes_ok. vm_compute. reflexivity. Qed.
Lemma claim_bytes : Forall is_byte (payload claim).
Proof. apply bytes_ok. vm_compute. reflexivity. Qed.
Lemma register_bytes : Forall is_byte (payload (register 1)).
Proof. apply bytes_ok. vm_compute. reflexivity. Qed.
Lemma slot_ok : is_u64 5.
Proof. by split. Qed.

Lemma create_succeeds : is_ok (snd (hook_execute hook create 5 SampleNative.tree)) = true.
Proof. vm_compute. reflexivity. Qed.
Lemma register_succeeds : is_ok (snd (hook_execute hook (register 1) 5 owners)) = true.
Proof. vm_compute. reflexivity. Qed.

(** A successful call of the hook leaves a good state. *)
Lemma run_ok tx t :
  Forall is_byte (payload tx) -> hook_ok t -> is_ok (snd (hook_execute hook tx 5 t)) = true ->
  hook_ok (fst (hook_execute hook tx 5 t)).
Proof.
  intros Hb Hok Hr. destruct (run_of _ _ Hr) as [r He]. pose proof Hok as [Hf Hi Hrec].
  pose proof (hook_effects hook tx 5 SampleDigest.sample_shape Hb slot_ok t Hf Hi Hrec) as Hw.
  exact (pr_ok _ _ _ (effect_progress hook t tx 5 _ r Hok (wp_run _ _ _ _ _ Hw He))).
Qed.



Lemma owners_ok : hook_ok owners.
Proof.
  split; [|intros id; exists None; cbn; apply lookup_empty|done]. unfold owners.
  eapply (tree_fits_insert _ _ (owner 2)); [reflexivity| |by split_and!].
  eapply (tree_fits_insert _ _ (owner 1)); [reflexivity|apply SampleNative.sample_fits|by split_and!].
Qed.

Lemma registered_fits : tree_fits registered.
Proof. exact (hok_fits _ (run_ok _ _ register_bytes owners_ok register_succeeds)). Qed.

(** The second registration, and the payments, satisfy what the theorems ask. *)
Lemma second_registration : registers registered (register 2) 5 2 5.
Proof.
  split; [unfold is_u256; lia|].
  eexists 0, [104; 2], 0, 0, 100, (wire_key 2), (wire_sig 2), (SampleSig.sample_key 2),
    (SampleSig.sample_sign 2 []), _, _, (with_auth (owner 2) 10 (SampleSig.sample_key 2)).
  split_and!; try (vm_compute; reflexivity); try (vm_compute; by intros [=]);
    try (unfold is_u256; lia); try (unfold is_u64, u64_max; lia); try (cbn; lia).
  by apply list_elem_of_here.
Qed.

Definition taken : StateTree := fst (hook_execute hook (register 2) 5 registered).

Lemma auto_by (t : StateTree) (tx : Transaction) (nonce id : Z) (d : AccountId) :
  (exists h l dr, hfi_recipient_by_idcom t 5 = Some (h, l) /\
    decode_recipient_record l = Ok dr /\ dr_identity_commitment dr = 5 /\ dr_account_id dr = d) ->
  decode (payload tx) = Ok (HfiPayCreate nonce id 0 4 0 0 0 0 100 0 0 5) ->
  hfi_intents t !! id = None -> acc_nonce <$> accounts t !! tx_sender tx = Some nonce ->
  nonce < u64_max -> (4 <=? native_balance t (tx_sender tx)) && (native_balance t d + 4 <=? u64_max) = true ->
  auto_payment t tx 5 4 5 d.
Proof.
  intros Hr Hd Hi Hn Hmax [Hb1 Hb2]%andb_true_iff. split; [done|done| |lia|lia].
  exists nonce, id, 0, 0, 0, 0, 100, 0, 0. by split_and!.
Qed.

Lemma self_payment : auto_payment registered pay_self 5 4 5 (tx_sender pay_self).
Proof.
  apply (auto_by _ _ 1 2); try (vm_compute; reflexivity).
  eexists _, _, _. split_and!; vm_compute; reflexivity.
Qed.

Lemma payment_taken : auto_payment taken pay_victim 5 4 5 (owner 2).
Proof.
  apply (auto_by _ _ 0 3); try (vm_compute; reflexivity).
  eexists _, _, _. split_and!; vm_compute; reflexivity.
Qed.

Lemma payer_apart : tx_sender pay_victim <> owner 2.
Proof. by vm_compute. Qed.

Lemma second_bytes : Forall is_byte (payload (register 2)).
Proof. apply bytes_ok. vm_compute. reflexivity. Qed.

Lemma second_succeeds : is_ok (snd (hook_execute hook (register 2) 5 registered)) = true.
Proof. vm_compute. reflexivity. Qed.

Lemma taken_fits : tree_fits taken.
Proof.
  exact (hok_fits _ (run_ok _ _ second_bytes (run_ok _ _ register_bytes owners_ok register_succeeds)
    second_succeeds)).
Qed.

(** A key for the deposit account, a transfer under it and the late claim. *)
Definition take_key : Transaction := signed_by 6 escrow (SetAuthPubkey 0 (SampleSig.sample_key 6)).
Definition drain : Transaction := signed_by 6 escrow (Transfer 1 66 4).
Definition captured : StateTree := fst (nvm_execute_transaction vm take_key 5 funded).
Definition drained : StateTree := fst (nvm_execute_transaction vm drain 5 captured).
End SampleHfi.

Lemma hook_refines_lifecycle_witness :
  exists t' r, hook_execute (CE := SampleEnv.sample_env) SampleHfi.hook SampleHfi.create 5
      SampleNative.tree = (t', Ok r) /\
    hook_effect (CE := SampleEnv.sample_env) SampleHfi.hook SampleNative.tree SampleHfi.create 5 t' r.
Proof.
  destruct (SampleHfi.run_of _ _ SampleHfi.create_succeeds) as [r He].
  exists SampleHfi.opened, r. split; [exact He|].
  exact (proj1 (@hook_refines_lifecycle SampleEnv.sample_env SampleHfi.hook SampleHfi.create 5
    SampleNative.tree SampleHfi.opened r SampleDigest.sample_shape SampleHfi.create_bytes
    SampleHfi.slot_ok SampleHfi.tree_hook_ok He)).
Defined.

(** Create, deposit, fund, claim, and a second claim that fails. *)
Lemma intents_paid_once_witness :
  let '(t', receipts) := run_blocks (CE := SampleEnv.sample_env) (K := SampleK256.sample_k256)
    (RV := SampleTron.no_verifiers) SampleHfi.vm SampleNative.tree
    [(5, [SampleHfi.create; SampleHfi.send]); (6, [SampleHfi.fund; SampleHfi.claim; SampleHfi.claim])] in
  payouts 1 receipts = 1%nat /\ vm_success <$> receipts = [true; true; true; true; false] /\
  (payouts 1 receipts + settled SampleNative.tree 1 = settled t' 1)%nat.
Proof.
  pose proof (@intents_paid_once SampleEnv.sample_env SampleK256.sample_k256 SampleTron.no_verifiers
    SampleHfi.vm SampleHfi.hook SampleNative.tree
    [(5, [SampleHfi.create; SampleHfi.send]); (6, [SampleHfi.fund; SampleHfi.claim; SampleHfi.claim])]
    SampleDigest.sample_shape SampleHfi.vm_pays SampleHfi.tree_hook_ok) as H.
  assert (Forall (fun b => is_u64 b.1 /\ Forall (fun tx => Forall is_byte (payload tx)) b.2)
    [(5, [SampleHfi.create; SampleHfi.send]); (6, [SampleHfi.fund; SampleHfi.claim; SampleHfi.claim])])
    as Hb.
  { repeat constructor; try done; auto using SampleHfi.create_bytes, SampleHfi.send_bytes,
      SampleHfi.fund_bytes, SampleHfi.claim_bytes. }
  specialize (H Hb).
  destruct (run_blocks (CE := SampleEnv.sample_env) (K := SampleK256.sample_k256)
    (RV := SampleTron.no_verifiers) SampleHfi.vm SampleNative.tree _) as [t' rs] eqn:E.
  destruct H as [H _]. split_and!; [| |apply H].
  - change rs with (snd (t', rs)). rewrite <-E. vm_compute. reflexivity.
  - change rs with (snd (t', rs)). rewrite <-E. vm_compute. reflexivity.
Defined.


Lemma self_payment_mints_witness :
  exists t' r, hook_execute (CE := SampleEnv.sample_env) SampleHfi.hook SampleHfi.pay_self 5
      SampleHfi.registered = (t', Ok r) /\
    total_balance t' = total_balance SampleHfi.registered + 4.
Proof.
  destruct (@self_payment_mints SampleEnv.sample_env SampleHfi.hook SampleHfi.registered
    SampleHfi.pay_self 5 4 5 SampleHfi.registered_fits SampleHfi.self_payment) as (t' & r & He & _ & Ht).
  exists t', r. split; [exact He|exact Ht].
Defined.

(** Account 7 means to pay the account of xid 1; the account of xid 2 is paid. *)
Lemma registration_taken_over_witness :
  exists t2 r2, hook_execute (CE := SampleEnv.sample_env) SampleHfi.hook SampleHfi.pay_victim 5
      SampleHfi.taken = (t2, Ok r2) /\
    native_balance t2 (SampleHfi.owner 2) = native_balance SampleHfi.taken (SampleHfi.owner 2) + 4.
Proof.
  destruct (@registration_taken_over SampleEnv.sample_env SampleHfi.hook SampleHfi.registered
    (SampleHfi.register 2) 5 2 5 SampleDigest.sample_shape SampleHfi.registered_fits
    SampleHfi.second_registration) as (t' & r & He & Hp).
  assert (t' = SampleHfi.taken) as -> by (unfold SampleHfi.taken; rewrite He; reflexivity).
  destruct (Hp _ _ _ _ SampleHfi.taken_fits SampleHfi.payment_taken) as (_ & t2 & r2 & He2 & Hb).
  exists t2, r2. split; [exact He2|]. apply Hb. exact SampleHfi.payer_apart.
Defined.

(** With the key the deposit is sent to account 66, and the claim fails. *)
Lemma escrow_key_taken_witness :
  (exists t' r b, nvm_execute_transaction (CE := SampleEnv.sample_env) (K := SampleK256.sample_k256)
      (RV := SampleTron.no_verifiers) SampleHfi.vm SampleHfi.take_key 5 SampleHfi.funded = (t', Ok r) /\
    accounts t' !! SampleHfi.escrow = Some b /\ acc_auth_pubkey b = SampleSig.sample_key 6) /\
  native_balance SampleHfi.drained 66 = 4 /\
  is_ok (snd (hook_execute (CE := SampleEnv.sample_env) SampleHfi.hook SampleHfi.claim 6
    SampleHfi.drained)) = false.
Proof.
  split; [|split; vm_compute; reflexivity].
  destruct (@escrow_key_taken SampleEnv.sample_env SampleK256.sample_k256 SampleTron.no_verifiers
    SampleHfi.vm SampleNative.policy SampleHfi.funded (SampleHfi.intent Funded)
    (default (account_new 0) (accounts SampleHfi.funded !! SampleHfi.escrow))
    SampleHfi.take_key 5 0 (SampleSig.sample_key 6) eq_refl SampleHfi.funded_ok eq_refl)
    as (t' & r & b & He & Hb & Hk & _); try (vm_compute; reflexivity).
  exists t', r, b. split; [exact He|]. split; [exact Hb|exact Hk].
Defined.
