(* ===== verification/Swap.v ===== *)
(** The automated market maker (ace-defi/src/swap.rs).

    A pool holds two tokens of the token ledger and issues a third, its LP token.
    The pools are fields of [SwapEngine], in memory, while the tokens are in the
    state tree; an operation changes both and is a computation of [ST] on the
    pair, so that what an error leaves of either is part of the model.

    Arithmetic on [u128] and [u64] wraps as in a release build.  SHA-256 is an
    argument.  Every function of the file is translated. *)

From S2P Require Import Prelude SigAlgo ValidatorSet Account StateTree Slots StateM.
From S2P Require Import Wire Payload Transaction Engine Token.
Local Open Scope Z_scope.
Local Open Scope ace_scope.

(* ------------------------------------------------------------------ *)
(** * Computations on more than the state tree *)

Definition ST (W E A : Type) : Type := W -> W * result E A.

Definition st_ret {W E A} (a : A) : ST W E A := fun w => (w, Ok a).
Definition st_fail {W E A} (e : E) : ST W E A := fun w => (w, Err e).
Definition st_bind {W E A B} (m : ST W E A) (k : A -> ST W E B) : ST W E B := fun w =>
  match m w with
  | (w', Ok a) => k a w'
  | (w', Err e) => (w', Err e)
  end.

Notation "'let*' x := m 'in' k" := (st_bind m (fun x => k))
  (at level 10, x pattern, m at level 100, k at level 200) : ace_scope.
Notation "'do*' m 'in' k" := (st_bind m (fun _ => k))
  (at level 10, m at level 100, k at level 200) : ace_scope.

Definition st_gets {W E A} (f : W -> A) : ST W E A := fun w => (w, Ok (f w)).
Definition st_fail_if {W E} (c : bool) (e : E) : ST W E unit := if c then st_fail e else st_ret tt.
Definition st_require {W E A} (o : option A) (e : E) : ST W E A :=
  match o with
  | Some a => st_ret a
  | None => st_fail e
  end.

(** A computation on the state tree next to other data. *)
Definition on_tree {X E A} (m : M E A) : ST (StateTree * X) E A := fun '(t, x) =>
  let '(t', r) := m t in ((t', x), r).

(* ------------------------------------------------------------------ *)
(** * Data *)

Record Pool := {
  pool_key : AccountId;
  pool_token_a : AccountId;
  pool_token_b : AccountId;
  reserve_a : Z;
  reserve_b : Z;
  pool_lp_mint : AccountId;
  lp_supply : Z;
}.

Definition set_reserves (p : Pool) (a b lp : Z) : Pool :=
  {| pool_key := pool_key p; pool_token_a := pool_token_a p; pool_token_b := pool_token_b p;
     reserve_a := a; reserve_b := b; pool_lp_mint := pool_lp_mint p; lp_supply := lp |}.

Inductive SwapError : Type :=
| PoolNotFound (pool : AccountId)
| PoolAlreadyExists (pool : AccountId)
| InsufficientLiquidity
| SwapInsufficientBalance (have need : Z)
| SwapZeroAmount
| SlippageExceeded (min_out actual_out : Z)
| SwapTokenRuntime (msg : string)
| IdenticalTokens
| AmountOverflow.

(** The pools by id. *)
Abbreviation SwapEngine := (gmap AccountId Pool).

Definition FEE_NUMERATOR : Z := 3.
Definition FEE_DENOMINATOR : Z := 1000.

(** The state tree and the pools. *)
Abbreviation World := (StateTree * SwapEngine)%type.

(* ------------------------------------------------------------------ *)
(** * Arithmetic *)

(** [a * b] and [a + b] on [u128] in a release build, and [as u64]. *)
Definition u128_mul (a b : Z) : Z := (a * b) mod 2 ^ 128.
Definition u128_add (a b : Z) : Z := (a + b) mod 2 ^ 128.
Definition as_u64 (a : Z) : Z := a mod 2 ^ 64.

(** The loop of [isqrt], at most [fuel] rounds. *)
Fixpoint isqrt_loop (fuel : nat) (n x y : Z) : option Z :=
  if y <? x then
    match fuel with
    | O => None
    | S fuel => isqrt_loop fuel n y (u128_add y (n / y) / 2)
    end
  else Some x.

(** [None] if the loop has not ended after 128 rounds. *)
Definition isqrt (n : Z) : option Z :=
  if n =? 0 then Some 0 else isqrt_loop 128 n n (u128_add n 1 / 2).

(** The constant-product formula of [swap] and [quote], before the cast. *)
Definition product_out (amount_in reserve_in reserve_out : Z) : Z :=
  let amount_in_with_fee := u128_mul amount_in (FEE_DENOMINATOR - FEE_NUMERATOR) in
  let numerator := u128_mul amount_in_with_fee reserve_out in
  let denominator := u128_add (u128_mul reserve_in FEE_DENOMINATOR) amount_in_with_fee in
  numerator / denominator.

Definition amount_out (amount_in reserve_in reserve_out : Z) : Z :=
  as_u64 (product_out amount_in reserve_in reserve_out).

Section swap.
Context (sha256 : list Z -> list Z).

(* ------------------------------------------------------------------ *)
(** * Pool ids *)

(** The pair in the order of its bytes. *)
Definition sort_pair (token_a token_b : AccountId) : AccountId * AccountId :=
  if token_a <=? token_b then (token_a, token_b) else (token_b, token_a).

Definition pool_id (token_a token_b : AccountId) : AccountId :=
  let '(lo, hi) := sort_pair token_a token_b in
  digest sha256 (ascii_bytes "ace-pool:" ++ be_bytes 32 lo ++ be_bytes 32 hi).

Definition lp_mint_id (pool : AccountId) : AccountId :=
  digest sha256 (ascii_bytes "ace-lp-mint:" ++ be_bytes 32 pool).

(* ------------------------------------------------------------------ *)
(** * The engine *)

Definition find_pool (pid : AccountId) : ST World SwapError Pool :=
  let* found := st_gets (fun '(_, pools) => pools !! pid) in
  st_require found (PoolNotFound pid).

(** A write through [pools.get_mut(pid)]. *)
Definition write_pool (pid : AccountId) (f : Pool -> Pool) : ST World SwapError unit :=
  fun '(t, pools) => ((t, alter f pid pools), Ok tt).

(** A token operation whose error is answered after [state.rollback(saved)]. *)
Definition or_rollback {A} (saved : StateSnapshot) (m : M string A) : ST World SwapError A :=
  fun '(t, pools) =>
    match m t with
    | (t', Ok a) => ((t', pools), Ok a)
    | (t', Err e) => ((rollback t' saved, pools), Err (SwapTokenRuntime e))
    end.

Definition create_pool (token_a token_b : AccountId) : ST World SwapError AccountId :=
  do* st_fail_if (token_a =? token_b) IdenticalTokens in
  let '(lo, hi) := sort_pair token_a token_b in
  let pid := pool_id lo hi in
  let* known := st_gets (fun '(_, pools) => bool_decide (is_Some (pools !! pid))) in
  do* st_fail_if known (PoolAlreadyExists pid) in
  do* on_tree (let! there := contains pid in
               if there : bool then ret tt
               else modify (fun t => insert_account sha256 t (account_new pid))) in
  let lp := lp_mint_id pid in
  do* on_tree (map_err SwapTokenRuntime (create_mint sha256 lp 9 pid)) in
  let pool := {| pool_key := pid; pool_token_a := lo; pool_token_b := hi;
                 reserve_a := 0; reserve_b := 0; pool_lp_mint := lp; lp_supply := 0 |} in
  do* (fun '(t, pools) => ((t, <[pid := pool]> pools), Ok tt)) in
  st_ret pid.

(** The LP tokens a deposit is worth. *)
Definition lp_for_deposit (pool : Pool) (amt_a amt_b : Z) : result SwapError (option Z) :=
  if lp_supply pool =? 0 then Ok (isqrt (u128_mul amt_a amt_b))
  else if (reserve_a pool =? 0) || (reserve_b pool =? 0) then Err SwapZeroAmount
  else
    let lp_a := u128_mul amt_a (lp_supply pool) / reserve_a pool in
    let lp_b := u128_mul amt_b (lp_supply pool) / reserve_b pool in
    Ok (Some (Z.min lp_a lp_b)).

(** [reserve += amount], each field on its own. *)
Definition raise_a (pid : AccountId) (amount : Z) : ST World SwapError unit :=
  let* pool := find_pool pid in
  let* new := st_require (u64_checked_add (reserve_a pool) amount) AmountOverflow in
  write_pool pid (fun p => set_reserves p new (reserve_b p) (lp_supply p)).
Definition raise_b (pid : AccountId) (amount : Z) : ST World SwapError unit :=
  let* pool := find_pool pid in
  let* new := st_require (u64_checked_add (reserve_b pool) amount) AmountOverflow in
  write_pool pid (fun p => set_reserves p (reserve_a p) new (lp_supply p)).
Definition raise_lp (pid : AccountId) (amount : Z) : ST World SwapError unit :=
  let* pool := find_pool pid in
  let* new := st_require (u64_checked_add (lp_supply pool) amount) AmountOverflow in
  write_pool pid (fun p => set_reserves p (reserve_a p) (reserve_b p) new).
Definition lower_a (pid : AccountId) (amount : Z) : ST World SwapError unit :=
  let* pool := find_pool pid in
  let* new := st_require (u64_checked_sub (reserve_a pool) amount) InsufficientLiquidity in
  write_pool pid (fun p => set_reserves p new (reserve_b p) (lp_supply p)).
Definition lower_b (pid : AccountId) (amount : Z) : ST World SwapError unit :=
  let* pool := find_pool pid in
  let* new := st_require (u64_checked_sub (reserve_b pool) amount) InsufficientLiquidity in
  write_pool pid (fun p => set_reserves p (reserve_a p) new (lp_supply p)).

(** [if balance_of(state, mint, owner) < need return Err(..)]. *)
Definition check_balance (mint : Z) (owner : AccountId) (need : Z) : ST World SwapError unit :=
  let* have := st_gets (fun '(t, _) => balance_of sha256 t mint owner) in
  st_fail_if (have <? need) (SwapInsufficientBalance have need).

(** [None] only if [isqrt] does not end. *)
Definition add_liquidity (token_a token_b provider : AccountId) (amount_a amount_b : Z)
    : ST World SwapError (option Z) :=
  do* st_fail_if ((amount_a =? 0) || (amount_b =? 0)) SwapZeroAmount in
  let pid := pool_id token_a token_b in
  let* pool := find_pool pid in
  let '(amt_a, amt_b) :=
    if token_a <=? token_b then (amount_a, amount_b) else (amount_b, amount_a) in
  do* check_balance (pool_token_a pool) provider amt_a in
  do* check_balance (pool_token_b pool) provider amt_b in
  let* saved := st_gets (fun '(t, _) => snapshot t) in
  do* or_rollback saved
        (transfer_between_owners sha256 (pool_token_a pool) provider (pool_key pool) amt_a) in
  do* or_rollback saved
        (transfer_between_owners sha256 (pool_token_b pool) provider (pool_key pool) amt_b) in
  let* lp_amount_u128 := (fun w => (w, lp_for_deposit pool amt_a amt_b)) in
  match lp_amount_u128 with
  | None => st_ret None
  | Some lp_amount_u128 =>
      let* lp_amount := st_require (u64_try_from lp_amount_u128) AmountOverflow in
      do* st_fail_if (lp_amount =? 0) SwapZeroAmount in
      do* or_rollback saved
            (mint_to_owner sha256 (pool_lp_mint pool) provider lp_amount (pool_key pool)) in
      do* raise_a pid amt_a in
      do* raise_b pid amt_b in
      do* raise_lp pid lp_amount in
      st_ret (Some lp_amount)
  end.

Definition remove_liquidity (token_a token_b provider : AccountId) (lp_amount : Z)
    : ST World SwapError (Z * Z) :=
  do* st_fail_if (lp_amount =? 0) SwapZeroAmount in
  let pid := pool_id token_a token_b in
  let* pool := find_pool pid in
  do* st_fail_if (lp_supply pool <? lp_amount)
        (SwapInsufficientBalance (lp_supply pool) lp_amount) in
  let* out_a := st_require
    (u64_try_from (u128_mul lp_amount (reserve_a pool) / lp_supply pool)) AmountOverflow in
  let* out_b := st_require
    (u64_try_from (u128_mul lp_amount (reserve_b pool) / lp_supply pool)) AmountOverflow in
  do* st_fail_if ((out_a =? 0) || (out_b =? 0)) SwapZeroAmount in
  let* saved := st_gets (fun '(t, _) => snapshot t) in
  do* or_rollback saved
        (transfer_between_owners sha256 (pool_lp_mint pool) provider (pool_key pool) lp_amount) in
  do* or_rollback saved
        (transfer_between_owners sha256 (pool_token_a pool) (pool_key pool) provider out_a) in
  do* or_rollback saved
        (transfer_between_owners sha256 (pool_token_b pool) (pool_key pool) provider out_b) in
  do* write_pool pid (fun p =>
        set_reserves p (u64_sub (reserve_a p) out_a) (u64_sub (reserve_b p) out_b)
          (u64_sub (lp_supply p) lp_amount)) in
  st_ret (out_a, out_b).

(** Whether the pool takes [token_in] as its first token. *)
Definition in_is_a (pool : Pool) (token_in token_out : AccountId) : option bool :=
  if (token_in =? pool_token_a pool) && (token_out =? pool_token_b pool) then Some true
  else if (token_in =? pool_token_b pool) && (token_out =? pool_token_a pool) then Some false
  else None.

Definition swap (token_in token_out sender : AccountId) (amount_in min_amount_out : Z)
    : ST World SwapError Z :=
  do* st_fail_if (amount_in =? 0) SwapZeroAmount in
  do* st_fail_if (token_in =? token_out) IdenticalTokens in
  let pid := pool_id token_in token_out in
  let* pool := find_pool pid in
  do* st_fail_if ((reserve_a pool =? 0) || (reserve_b pool =? 0)) InsufficientLiquidity in
  let* in_is_a := st_require (in_is_a pool token_in token_out) (PoolNotFound pid) in
  let '(reserve_in, reserve_out) :=
    if in_is_a : bool then (reserve_a pool, reserve_b pool)
    else (reserve_b pool, reserve_a pool) in
  let amount_out := amount_out amount_in reserve_in reserve_out in
  do* st_fail_if (amount_out =? 0) InsufficientLiquidity in
  do* st_fail_if (amount_out <? min_amount_out) (SlippageExceeded min_amount_out amount_out) in
  do* check_balance token_in sender amount_in in
  let* saved := st_gets (fun '(t, _) => snapshot t) in
  do* or_rollback saved
        (transfer_between_owners sha256 token_in sender (pool_key pool) amount_in) in
  do* or_rollback saved
        (transfer_between_owners sha256 token_out (pool_key pool) sender amount_out) in
  do* (if in_is_a then
         do* raise_a pid amount_in in lower_b pid amount_out
       else
         do* raise_b pid amount_in in lower_a pid amount_out) in
  st_ret amount_out.

Definition get_pool (pools : SwapEngine) (token_a token_b : AccountId) : option Pool :=
  pools !! pool_id token_a token_b.

Definition quote (pools : SwapEngine) (token_in token_out : AccountId) (amount_in : Z)
    : result SwapError Z :=
  let pid := pool_id token_in token_out in
  let? pool := ok_or (pools !! pid) (PoolNotFound pid) in
  let? in_is_a := ok_or (in_is_a pool token_in token_out) (PoolNotFound pid) in
  let '(reserve_in, reserve_out) :=
    if in_is_a : bool then (reserve_a pool, reserve_b pool)
    else (reserve_b pool, reserve_a pool) in
  if (reserve_in =? 0) || (reserve_out =? 0) then Err InsufficientLiquidity
  else Ok (amount_out amount_in reserve_in reserve_out).

Definition pool_count (pools : SwapEngine) : nat := size pools.
End swap.
