(* ===== verification/SwapSpec.v ===== *)
(** What the market maker promises.

    The operations of [Swap] run on the abstract token ledger of [TokenSpec].  The
    reserves of every pool are covered by its tokens, and the shares of a pool
    never lose value. *)

From S2P Require Import Prelude SigAlgo ValidatorSet Account StateTree Slots StateM.
From S2P Require Import Wire Payload Transaction Engine Token TokenSpec Swap.
Local Open Scope Z_scope.
Local Open Scope ace_scope.

(* ------------------------------------------------------------------ *)
(** * Arithmetic *)

Lemma u128_mul_small a b : 0 <= a <= u64_max -> 0 <= b <= u64_max -> u128_mul a b = a * b.
Proof. intros. unfold u128_mul. apply Z.mod_small. unfold u64_max in *. nia. Qed.

Lemma u64_try_from_Some x y : u64_try_from x = Some y -> y = x /\ x <= u64_max.
Proof. unfold u64_try_from. case_match; [|done]. intros [= <-]. bool_prop. done. Qed.

Lemma u64_checked_sub_Some a b c : u64_checked_sub a b = Some c <-> c = a - b /\ b <= a.
Proof. unfold u64_checked_sub. case_match; naive_solver lia. Qed.

(** One round of the square root stays above it and halves the distance. *)
Lemma isqrt_round n x s :
  0 < s -> s * s <= n < (s + 1) * (s + 1) -> s <= x ->
  s <= (x + n / x) / 2 /\ (s < x -> (x + n / x) / 2 - s <= (x - s) / 2).
Proof.
  intros Hs Hn Hx. split.
  - apply Z.div_le_lower_bound; [lia|].
    assert (2 * s - x <= n / x); [|lia]. apply Z.div_le_lower_bound; [lia|]. nia.
  - intros Hlt. assert (n / x <= s) by (apply Z.lt_succ_r, Z.div_lt_upper_bound; nia).
    assert ((x + n / x) / 2 <= (x + s) / 2) by (apply Z.div_le_mono; lia).
    replace (x + s) with ((x - s) + s * 2) in * by lia. rewrite Z.div_add in * by lia. lia.
Qed.

Lemma isqrt_loop_spec fuel n x :
  0 < n < 2 ^ 128 -> Z.sqrt n <= x <= n -> x - Z.sqrt n < 2 ^ Z.of_nat fuel ->
  isqrt_loop fuel n x ((x + n / x) / 2) = Some (Z.sqrt n).
Proof.
  intros Hn. pose proof (Z.sqrt_spec n ltac:(lia)) as Hs. cbv zeta in Hs.
  assert (0 < Z.sqrt n) as Hpos by (apply Z.sqrt_pos; lia). set (s := Z.sqrt n) in *.
  revert x. induction fuel as [|fuel IH]; intros x Hx Hd; cbn [isqrt_loop];
    destruct (isqrt_round n x s Hpos ltac:(lia) ltac:(lia)) as [Hge Hhalf];
    destruct (Z.ltb_spec ((x + n / x) / 2) x) as [Hlt|Hle].
  - cbn in Hd. assert (x = s) as -> by lia. lia.
  - f_equal. cbn in Hd. lia.
  - assert (s < x) as Hsx by lia. specialize (Hhalf Hsx).
    set (y := (x + n / x) / 2) in *.
    assert (u128_add y (n / y) = y + n / y) as ->.
    { unfold u128_add. apply Z.mod_small.
      assert (0 <= n / y) by (apply Z.div_pos; lia).
      assert (n / y <= s + 2) by (apply Z.lt_succ_r, Z.div_lt_upper_bound; nia).
      assert (s < 2 ^ 64) by (apply Z.square_lt_simpl_nonneg; [done|]; nia).
      assert ((x - s) / 2 * 2 <= x - s)
        by (pose proof (Z.div_mod (x - s) 2); pose proof (Z.mod_pos_bound (x - s) 2); lia).
      lia. }
    apply IH; [lia|]. rewrite Nat2Z.inj_succ, Z.pow_succ_r in Hd by lia.
    assert ((x - s) / 2 < 2 ^ Z.of_nat fuel) by (apply Z.div_lt_upper_bound; lia). lia.
  - f_equal. assert (~ s < x); [|lia]. intros Hsx. specialize (Hhalf Hsx).
    assert ((x - s) / 2 < x - s) by (apply Z.div_lt; lia). lia.
Qed.

Lemma isqrt_sqrt n : 0 <= n < 2 ^ 128 - 1 -> isqrt n = Some (Z.sqrt n).
Proof.
  intros Hn. unfold isqrt. destruct (Z.eqb_spec n 0) as [->|H0]; [done|].
  assert (u128_add n 1 / 2 = (n + n / n) / 2) as ->
    by (rewrite Z.div_same by done; unfold u128_add; by rewrite Z.mod_small by lia).
  apply isqrt_loop_spec; [lia| |].
  - split; [apply Z.sqrt_le_lin; lia|lia].
  - pose proof (Z.sqrt_nonneg n). cbn. lia.
Qed.

(** What a deposit is worth. *)
Lemma isqrt_product x y :
  0 <= x <= u64_max -> 0 <= y <= u64_max ->
  exists z, isqrt (u128_mul x y) = Some z /\ 0 <= z /\ z * z <= x * y < (z + 1) * (z + 1).
Proof.
  intros Hx Hy. exists (Z.sqrt (x * y)). rewrite u128_mul_small by done.
  pose proof (Z.sqrt_spec (x * y) ltac:(nia)) as Hs. cbv zeta in Hs.
  split_and!; [apply isqrt_sqrt; unfold u64_max in *; nia|apply Z.sqrt_nonneg|lia..].
Qed.

(** The formula of a swap pays less than the reserve, and not more than keeps the
    product of the reserves, also when the numerator wraps. *)
Lemma product_out_bound x ri ro :
  0 < x <= u64_max -> 0 < ri <= u64_max -> 0 < ro <= u64_max ->
  amount_out x ri ro = product_out x ri ro /\ 0 <= amount_out x ri ro < ro /\
  amount_out x ri ro * (ri * 1000 + x * 997) <= x * 997 * ro.
Proof.
  intros Hx Hi Ho. unfold amount_out, product_out, as_u64, u128_mul, u128_add.
  change (FEE_DENOMINATOR - FEE_NUMERATOR) with 997. change FEE_DENOMINATOR with 1000.
  unfold u64_max in *. rewrite (Z.mod_small (x * 997)), (Z.mod_small (ri * 1000)) by lia.
  rewrite (Z.mod_small (ri * 1000 + x * 997)) by lia. set (N := x * 997 * ro). set (D := ri * 1000 + x * 997).
  assert (0 <= N) by nia. pose proof (Z.mod_pos_bound N (2 ^ 128) ltac:(lia)) as Hm.
  pose proof (Z.mod_le N (2 ^ 128) ltac:(lia) ltac:(lia)) as Hle.
  set (q := N mod 2 ^ 128 / D).
  assert (0 <= q) by (apply Z.div_pos; lia).
  assert (q * D <= N) by (pose proof (Z.mul_div_le (N mod 2 ^ 128) D ltac:(lia)); fold q in H1; lia).
  assert (q < ro) by (unfold N, D in *; nia).
  rewrite Z.mod_small by lia. split_and!; lia.
Qed.

(* ------------------------------------------------------------------ *)
(** * The value of a share *)

(** From reserves [a], [b] with [l] shares to [a'], [b'] with [l']: the product of
    the reserves per share squared does not fall. *)
Definition share_value_kept (a b l a' b' l' : Z) : Prop := a * b * (l' * l') <= a' * b' * (l * l).

Lemma swap_value x ri ro y :
  0 < x -> 0 < ri -> 0 < ro -> 0 <= y -> y * (ri * 1000 + x * 997) <= x * 997 * ro ->
  ri * ro <= (ri + x) * (ro - y).
Proof. intros. nia. Qed.

Lemma deposit_value a b l x y z :
  0 < a -> 0 < b -> 0 <= l -> 0 <= x -> 0 <= y -> 0 <= z -> z * a <= x * l -> z * b <= y * l ->
  share_value_kept a b l (a + x) (b + y) (l + z).
Proof.
  intros. unfold share_value_kept.
  assert (a * (l + z) <= (a + x) * l) by lia. assert (b * (l + z) <= (b + y) * l) by lia.
  assert (a * (l + z) * (b * (l + z)) <= (a + x) * l * ((b + y) * l)) by (apply Z.mul_le_mono_nonneg; nia).
  lia.
Qed.

Lemma redeem_value a b l z oa ob :
  0 <= a -> 0 <= b -> 0 <= z <= l -> oa * l <= z * a -> ob * l <= z * b ->
  share_value_kept a b l (a - oa) (b - ob) (l - z).
Proof.
  intros. unfold share_value_kept.
  assert (a * (l - z) <= (a - oa) * l) by lia. assert (b * (l - z) <= (b - ob) * l) by lia.
  assert (a * (l - z) * (b * (l - z)) <= (a - oa) * l * ((b - ob) * l)) by (apply Z.mul_le_mono_nonneg; nia).
  lia.
Qed.

(** Shares stay below the geometric mean of the reserves. *)
Lemma value_mean a b l a' b' l' :
  0 < l -> l * l <= a * b -> share_value_kept a b l a' b' l' -> l' * l' <= a' * b'.
Proof.
  intros Hl Hm Hv. unfold share_value_kept in Hv.
  assert (l * l * (l' * l') <= l * l * (a' * b')) by nia. apply (Z.mul_le_mono_pos_l _ _ (l * l)); [nia|done].
Qed.

(* ------------------------------------------------------------------ *)
(** * Running computations on the state tree and the pools *)

Definition st_wp {W E A} (m : ST W E A) (w : W) (Q : W -> result E A -> Prop) : Prop :=
  Q (fst (m w)) (snd (m w)).

Section rules.
Context {W E A B : Type}.
Implicit Types (w : W) (Q : W -> result E A -> Prop).

Lemma st_wp_bind (m : ST W E A) (k : A -> ST W E B) w (Q : W -> result E B -> Prop) :
  st_wp m w (fun w' r => match r with Ok a => st_wp (k a) w' Q | Err e => Q w' (Err e) end) ->
  st_wp (st_bind m k) w Q.
Proof. unfold st_wp, st_bind. by destruct (m w) as [w' [a|e]]. Qed.

Lemma st_wp_fail_if c (e : E) w (Q : W -> result E unit -> Prop) :
  (c = false -> Q w (Ok tt)) -> (c = true -> Q w (Err e)) -> st_wp (st_fail_if c e) w Q.
Proof. destruct c; intros H1 H2; [by apply H2|by apply H1]. Qed.

Lemma st_wp_require (o : option A) (e : E) w Q :
  (forall a, o = Some a -> Q w (Ok a)) -> (o = None -> Q w (Err e)) -> st_wp (st_require o e) w Q.
Proof. destruct o; intros H1 H2; [by apply H1|by apply H2]. Qed.

Lemma st_wp_mono (m : ST W E A) w (Q R : W -> result E A -> Prop) :
  (forall w' r, Q w' r -> R w' r) -> st_wp m w Q -> st_wp m w R.
Proof. intros H. apply H. Qed.

Lemma st_wp_run (m : ST W E A) w w' r Q : st_wp m w Q -> m w = (w', r) -> Q w' r.
Proof. unfold st_wp. intros H Hr. by rewrite Hr in H. Qed.
End rules.

Lemma st_wp_tree {X E A} (m : M E A) t (x : X) (Q : StateTree * X -> result E A -> Prop) :
  wp m t (fun t' r => Q (t', x) r) -> st_wp (on_tree m) (t, x) Q.
Proof. unfold st_wp, on_tree, wp. by destruct (m t). Qed.

Lemma st_wp_find pid t (pools : SwapEngine) (Q : World -> result SwapError Pool -> Prop) :
  (forall p, pools !! pid = Some p -> Q (t, pools) (Ok p)) ->
  (pools !! pid = None -> Q (t, pools) (Err (PoolNotFound pid))) ->
  st_wp (find_pool pid) (t, pools) Q.
Proof. intros H1 H2. apply st_wp_bind. by apply st_wp_require. Qed.

Lemma st_wp_check sha256 m o need t (pools : SwapEngine) (Q : World -> result SwapError unit -> Prop) :
  Q (t, pools) (Ok tt) -> (forall e, Q (t, pools) (Err e)) ->
  st_wp (check_balance sha256 m o need) (t, pools) Q.
Proof. intros H1 H2. apply st_wp_bind. by apply st_wp_fail_if. Qed.

(** The writes to the fields of a pool that is there. *)
Section fields.
Context (t : StateTree) (pools : SwapEngine) (pid : AccountId) (p : Pool).
Hypothesis Hp : pools !! pid = Some p.
Implicit Types (Q : World -> result SwapError unit -> Prop).

Lemma write_pool_run f : write_pool pid f (t, pools) = ((t, <[pid := f p]> pools), Ok tt).
Proof.
  unfold write_pool. do 3 f_equal. apply map_eq. intros i. destruct (decide (i = pid)) as [->|Hne].
  - by rewrite lookup_alter_eq, lookup_insert_eq, Hp.
  - by rewrite lookup_alter_ne, lookup_insert_ne.
Qed.

Local Ltac field :=
  intros Hx; unfold raise_a, raise_b, raise_lp, lower_a, lower_b, find_pool, st_gets, st_require, st_bind;
  cbn; rewrite Hp; cbn;
  first [rewrite (proj2 (u64_checked_add_Some _ _ _) (conj eq_refl Hx))
        |rewrite (proj2 (u64_checked_sub_Some _ _ _) (conj eq_refl Hx))]; apply write_pool_run.

Lemma raise_a_run x : reserve_a p + x <= u64_max ->
  raise_a pid x (t, pools) =
    ((t, <[pid := set_reserves p (reserve_a p + x) (reserve_b p) (lp_supply p)]> pools), Ok tt).
Proof. field. Qed.
Lemma raise_b_run x : reserve_b p + x <= u64_max ->
  raise_b pid x (t, pools) =
    ((t, <[pid := set_reserves p (reserve_a p) (reserve_b p + x) (lp_supply p)]> pools), Ok tt).
Proof. field. Qed.
Lemma raise_lp_run x : lp_supply p + x <= u64_max ->
  raise_lp pid x (t, pools) =
    ((t, <[pid := set_reserves p (reserve_a p) (reserve_b p) (lp_supply p + x)]> pools), Ok tt).
Proof. field. Qed.
Lemma lower_a_run x : x <= reserve_a p ->
  lower_a pid x (t, pools) =
    ((t, <[pid := set_reserves p (reserve_a p - x) (reserve_b p) (lp_supply p)]> pools), Ok tt).
Proof. field. Qed.
Lemma lower_b_run x : x <= reserve_b p ->
  lower_b pid x (t, pools) =
    ((t, <[pid := set_reserves p (reserve_a p) (reserve_b p - x) (lp_supply p)]> pools), Ok tt).
Proof. field. Qed.
End fields.

(* ------------------------------------------------------------------ *)
(** * The invariant *)

(** The balances after a transfer. *)
Lemma moved_at L m from to x m' o :
  from <> to ->
  balances (moved_tokens L m from to x) m' o =
    balances L m' o + (if decide (m' = m) then
      (if decide (o = to) then x else if decide (o = from) then - x else 0) else 0).
Proof.
  intros Hne. unfold moved_tokens. rewrite !balances_set_owned.
  repeat case_decide; naive_solver lia.
Qed.

(** The numbers of a pool, and the tokens behind them. *)
Record curve_ok (p : Pool) : Prop := {
  cv_a : is_u64 (reserve_a p);
  cv_b : is_u64 (reserve_b p);
  cv_lp : is_u64 (lp_supply p);
  cv_empty : lp_supply p = 0 -> reserve_a p = 0 /\ reserve_b p = 0;
  cv_mean : lp_supply p * lp_supply p <= reserve_a p * reserve_b p;
}.

Record backed (L : Ledger) (p : Pool) : Prop := {
  bk_a : reserve_a p <= balances L (pool_token_a p) (pool_key p);
  bk_b : reserve_b p <= balances L (pool_token_b p) (pool_key p);
  bk_lp : exists s d, tokens L (pool_lp_mint p) = Some (s, d) /\
    s - balances L (pool_lp_mint p) (pool_key p) <= lp_supply p;
  bk_authority : authorities L (pool_lp_mint p) = pool_key p;
}.

(** What an account owns and the supply of a mint, from [L] to [L']. *)
Record spares (o lp : AccountId) (L L' : Ledger) : Prop := {
  sr_balance m : balances L m o <= balances L' m o;
  sr_token : tokens L' lp = tokens L lp;
  sr_authority : authorities L' lp = authorities L lp;
}.

Lemma spares_refl o lp L : spares o lp L L.
Proof. by split. Qed.

Lemma spares_trans o lp L1 L2 L3 : spares o lp L1 L2 -> spares o lp L2 L3 -> spares o lp L1 L3.
Proof.
  intros [B1 T1 A1] [B2 T2 A2]. split; [|congruence..]. intros m. specialize (B1 m). specialize (B2 m). lia.
Qed.

Lemma spares_moved o lp L m from to x :
  0 <= x -> from <> to -> o <> from -> spares o lp L (moved_tokens L m from to x).
Proof. intros. split; [|done..]. intros m'. rewrite moved_at by done. repeat case_decide; lia || done. Qed.

Lemma backed_spares L L' p : spares (pool_key p) (pool_lp_mint p) L L' -> backed L p -> backed L' p.
Proof.
  intros [B T A] [Ha Hb (s & d & Es & Hs) Hau]. pose proof (B (pool_token_a p)). pose proof (B (pool_token_b p)).
  pose proof (B (pool_lp_mint p)). split; [lia|lia| |congruence]. exists s, d. rewrite T. split; [done|lia].
Qed.

Definition pool_message (a b : AccountId) : list Z :=
  let '(lo, hi) := sort_pair a b in ascii_bytes "ace-pool:" ++ be_bytes 32 lo ++ be_bytes 32 hi.
Definition lp_message (pool : AccountId) : list Z := ascii_bytes "ace-lp-mint:" ++ be_bytes 32 pool.

(** The messages hashed for the pools of pairs of [T]. *)
Definition pair_messages (T : gset AccountId) : list (list Z) :=
  a ← elements T; pool_message a <$> elements T.
Definition pools_apart (sha256 : list Z -> list Z) (T : gset AccountId) : Prop :=
  collision_free sha256
    (pair_messages T ++ ((fun m => lp_message (digest sha256 m)) <$> pair_messages T)).

(** [users] trade the tokens of [T]: the accounts and LP tokens of the pools are
    nobody's, and nothing collides. *)
Record amm_setting (sha256 : list Z -> list Z) (ids T users : gset AccountId) : Prop := {
  as_shape : digest_shape sha256;
  as_apart : token_apart sha256 ids;
  as_pools : pools_apart sha256 T;
  as_fit x : x ∈ ids -> is_u256 x;
  as_tokens : T ⊆ ids;
  as_users : users ⊆ ids;
  as_pool a b : a ∈ T -> b ∈ T -> a <> b ->
    let pid := pool_id sha256 a b in
    let lp := lp_mint_id sha256 pid in
    pid ∈ ids /\ lp ∈ ids /\ pid ∉ users /\ lp <> a /\ lp <> b;
}.

(** The effect on the value of the shares. *)
Definition values_kept (pools pools' : SwapEngine) : Prop :=
  forall pid p, pools !! pid = Some p -> exists p', pools' !! pid = Some p' /\
    share_value_kept (reserve_a p) (reserve_b p) (lp_supply p)
      (reserve_a p') (reserve_b p') (lp_supply p').

Section amm.
Context (sha256 : list Z -> list Z) (ids T users : gset AccountId).
Hypothesis HS : amm_setting sha256 ids T users.
Local Abbreviation pool_id := (pool_id sha256).
Local Abbreviation lp_mint_id := (lp_mint_id sha256).
Local Abbreviation spells := (spells sha256 ids).
Local Abbreviation Hshape := (as_shape _ _ _ _ HS).
Local Abbreviation Hapart := (as_apart _ _ _ _ HS).
Local Abbreviation Hids := (as_fit _ _ _ _ HS).

(** The pool of a pair of tokens. *)
Record pool_of (pid : AccountId) (p : Pool) : Prop := {
  po_a : pool_token_a p ∈ T;
  po_b : pool_token_b p ∈ T;
  po_lt : pool_token_a p < pool_token_b p;
  po_id : pid = pool_id (pool_token_a p) (pool_token_b p);
  po_key : pool_key p = pid;
  po_lp : pool_lp_mint p = lp_mint_id pid;
}.

Record amm_ok (t : StateTree) (pools : SwapEngine) (L : Ledger) : Prop := {
  am_ledger : spells t L;
  am_ok : ledger_ok ids L;
  am_pool pid p : pools !! pid = Some p -> pool_of pid p /\ curve_ok p /\ backed L p;
  am_allowance a b x s : a ∈ T -> b ∈ T -> a <> b -> x ∈ ids -> s ∈ ids -> allowances L x (pool_id a b) s = 0;
}.

(** ** Pool ids *)

Lemma pool_id_message a b : pool_id a b = digest sha256 (pool_message a b).
Proof. unfold Swap.pool_id, pool_message. by destruct (sort_pair a b). Qed.

Lemma pool_id_sorted a b lo hi : sort_pair a b = (lo, hi) -> pool_id a b = pool_id lo hi.
Proof.
  intros E. rewrite !pool_id_message. f_equal. unfold pool_message. rewrite E.
  assert (sort_pair lo hi = (lo, hi)) as ->; [|done]. unfold sort_pair in *.
  destruct (Z.leb_spec a b); injection E as <- <-; case_match; bool_prop; done || lia || (f_equal; lia).
Qed.

Lemma pair_messages_in a b : a ∈ T -> b ∈ T -> pool_message a b ∈ pair_messages T.
Proof.
  intros Ha Hb. apply list_elem_of_bind. exists a. split; [|by apply elem_of_elements].
  apply list_elem_of_fmap_2. by apply elem_of_elements.
Qed.

Lemma pool_message_digest a b a' b' :
  a ∈ T -> b ∈ T -> a' ∈ T -> b' ∈ T ->
  digest sha256 (pool_message a b) = digest sha256 (pool_message a' b') -> pool_message a b = pool_message a' b'.
Proof.
  intros Ha Hb Ha' Hb' E. apply (as_pools _ _ _ _ HS); [by apply elem_of_app; left; apply pair_messages_in..|].
  by apply digest_eq, E; apply Hshape.
Qed.

Lemma lp_mint_inj a b a' b' :
  a ∈ T -> b ∈ T -> a' ∈ T -> b' ∈ T ->
  lp_mint_id (pool_id a b) = lp_mint_id (pool_id a' b') -> pool_id a b = pool_id a' b'.
Proof.
  intros Ha Hb Ha' Hb' E. rewrite !pool_id_message in *.
  assert (lp_message (digest sha256 (pool_message a b)) = lp_message (digest sha256 (pool_message a' b'))) as Em.
  { apply (as_pools _ _ _ _ HS); [apply elem_of_app; right; apply list_elem_of_fmap;
      eexists; (split; [done|by apply pair_messages_in])..|].
    by apply digest_eq, E; apply Hshape. }
  apply app_inv_head in Em. apply (be_bytes_inj 32); [apply digest_range, Hshape..|done].
Qed.

Lemma pool_in_ids pid p : pool_of pid p -> pid ∈ ids /\ lp_mint_id pid ∈ ids /\ pid ∉ users /\
  lp_mint_id pid <> pool_token_a p /\ lp_mint_id pid <> pool_token_b p /\
  pool_token_a p ∈ ids /\ pool_token_b p ∈ ids.
Proof.
  intros [Ha Hb Hlt -> _ _]. destruct (as_pool _ _ _ _ HS _ _ Ha Hb ltac:(lia)) as (H1 & H2 & H3 & H4 & H5).
  pose proof (as_tokens _ _ _ _ HS). set_solver.
Qed.

(** Different pools have different LP tokens. *)
Lemma pool_lp_apart pid p qid q :
  pool_of pid p -> pool_of qid q -> pid <> qid -> pool_lp_mint p <> pool_lp_mint q.
Proof.
  intros [] [] Hne E. apply Hne. rewrite po_lp0, po_lp1, po_id0, po_id1 in E.
  rewrite po_id0, po_id1. by apply lp_mint_inj in E.
Qed.

(** ** Changing one pool *)

Lemma amm_spared t t' pools L L' :
  amm_ok t pools L -> spells t' L' -> ledger_ok ids L' -> allowances L' = allowances L ->
  (forall qid q, pools !! qid = Some q -> spares qid (pool_lp_mint q) L L') ->
  amm_ok t' pools L'.
Proof.
  intros [R O P A] R' O' Ea Hs. split; [done|done| |intros; rewrite Ea; auto].
  intros qid q Hq. destruct (P qid q Hq) as (Hof & Hc & Hb). split_and!; [done|done|].
  apply (backed_spares L); [|done]. rewrite (po_key _ _ Hof). by apply Hs.
Qed.

Lemma amm_update t t' pools L L' pid p a b l :
  amm_ok t pools L -> pools !! pid = Some p -> spells t' L' -> ledger_ok ids L' ->
  allowances L' = allowances L ->
  (forall qid q, pools !! qid = Some q -> qid <> pid -> spares qid (pool_lp_mint q) L L') ->
  curve_ok (set_reserves p a b l) -> backed L' (set_reserves p a b l) ->
  amm_ok t' (<[pid := set_reserves p a b l]> pools) L'.
Proof.
  intros [R O P A] Hp R' O' Ea Hs Hc Hb. split; [done|done| |intros; rewrite Ea; auto].
  intros qid q. rewrite lookup_insert. case_decide as Hd; [subst qid; intros [= <-]|intros Hq].
  - destruct (P pid p Hp) as ([] & _ & _). split_and!; [by split|done|done].
  - destruct (P qid q Hq) as (Hof & Hcq & Hbq). split_and!; [done|done|].
    apply (backed_spares L); [|done]. rewrite (po_key _ _ Hof). by apply Hs.
Qed.

Lemma values_kept_refl pools : values_kept pools pools.
Proof. intros pid p Hp. exists p. split; [done|]. unfold share_value_kept. lia. Qed.

Lemma values_kept_update pools pid p a b l :
  pools !! pid = Some p ->
  share_value_kept (reserve_a p) (reserve_b p) (lp_supply p) a b l ->
  values_kept pools (<[pid := set_reserves p a b l]> pools).
Proof.
  intros Hp Hv qid q Hq. rewrite lookup_insert. case_decide as Hd.
  - subst qid. assert (q = p) as -> by congruence. by eexists.
  - exists q. split; [done|]. unfold share_value_kept. lia.
Qed.

(** ** Token operations of a pool *)

Lemma transfer_rule t0 t (pools : SwapEngine) L m from to x (Q : World -> result SwapError _ -> Prop) :
  spells t L -> ledger_ok ids L -> m ∈ ids -> from ∈ ids -> to ∈ ids -> from <> to -> 0 < x ->
  (forall t' cs, spells t' (moved_tokens L m from to x) -> ledger_ok ids (moved_tokens L m from to x) ->
     x <= balances L m from -> Q (t', pools) (Ok cs)) ->
  (forall e, Q (t0, pools) (Err e)) ->
  st_wp (or_rollback (snapshot t0) (transfer_between_owners sha256 m from to x)) (t, pools) Q.
Proof.
  intros R O Hm Hf Ht Hne Hx Hok Herr.
  pose proof (transfer_sim sha256 ids Hshape Hapart Hids t L m from to x R O Hm Hf Ht ltac:(lia)) as H.
  unfold tsim, wp in H. unfold st_wp, or_rollback.
  destruct (transfer_between_owners sha256 m from to x t) as [t' r]. cbn in H.
  destruct (ledger_transfer L m from to x) as [L'|e] eqn:E; destruct H as [H R'].
  - destruct H as [cs ->]. cbn. pose proof (transfer_ok ids L m from to x L' O Hm Hf Ht ltac:(lia) E) as O'.
    unfold ledger_transfer in E. rewrite (proj2 (Z.eqb_neq x 0)), (proj2 (Z.eqb_neq from to)) in E by lia.
    destruct (tokens L m) eqn:Et; [|done]. cbn in E. destruct (_ <? x) eqn:Eb; [done|]. bool_prop.
    injection E as <-. by apply Hok.
  - subst r. cbn. rewrite rollback_snapshot. apply Herr.
Qed.

(** The ledger with new LP tokens. *)
Definition minted_tokens (L : Ledger) (m o x : Z) : Ledger :=
  match tokens L m with
  | Some (s, d) => set_owned (set_token L m (Some (s + x, d))) m o (balances L m o + x)
  | None => L
  end.

Lemma mint_rule t0 t (pools : SwapEngine) L m o x c (Q : World -> result SwapError _ -> Prop) :
  spells t L -> ledger_ok ids L -> m ∈ ids -> o ∈ ids -> 0 < x ->
  (forall t' cs, spells t' (minted_tokens L m o x) -> ledger_ok ids (minted_tokens L m o x) ->
     Q (t', pools) (Ok cs)) ->
  (forall e, Q (t0, pools) (Err e)) ->
  st_wp (or_rollback (snapshot t0) (mint_to_owner sha256 m o x c)) (t, pools) Q.
Proof.
  intros R O Hm Ho Hx Hok Herr.
  pose proof (mint_to_sim sha256 ids Hshape Hapart Hids t L m o x c R O Hm Ho ltac:(lia)) as H.
  unfold tsim, wp in H. unfold st_wp, or_rollback.
  destruct (mint_to_owner sha256 m o x c t) as [t' r]. cbn in H.
  destruct (ledger_mint_to L m o x c) as [L'|e] eqn:E; destruct H as [H R'].
  - destruct H as [cs ->]. cbn. pose proof (mint_to_ok ids L m o x c L' O Hm Ho ltac:(lia) E) as O'.
    unfold ledger_mint_to in E. rewrite (proj2 (Z.eqb_neq x 0)) in E by lia.
    assert (L' = minted_tokens L m o x) as ->; [|by apply Hok].
    unfold minted_tokens. destruct (tokens L m) as [[s d]|]; [|done]. cbn in E.
    destruct (negb _); [done|]. destruct (_ <? _); [done|]. by injection E as <-.
  - subst r. cbn. rewrite rollback_snapshot. apply Herr.
Qed.

Lemma spares_minted o lp L m u x :
  0 <= x -> lp <> m -> spares o lp L (minted_tokens L m u x).
Proof.
  intros Hx Hne. unfold minted_tokens. destruct (tokens L m) as [[s d]|]; [|apply spares_refl].
  split; [|cbn; by rewrite fupd_ne|done]. intros m'. rewrite balances_set_owned. cbn.
  case_decide as Hd; [destruct Hd as [-> ->]|]; lia.
Qed.

(** ** Deposits *)

Definition step_ok (pools : SwapEngine) (w : World) : Prop :=
  exists L, amm_ok (fst w) (snd w) L /\ values_kept pools (snd w).

Lemma step_same t pools L : amm_ok t pools L -> step_ok pools (t, pools).
Proof. intros H. exists L. split; [done|apply values_kept_refl]. Qed.

(** Every pool but [pid], and every user, is another account. *)
Lemma other_pool t pools L qid q u :
  amm_ok t pools L -> pools !! qid = Some q -> u ∈ users -> qid <> u.
Proof.
  intros H Hq Hu ->. destruct (am_pool _ _ _ H u q Hq) as (Hof & _). by apply pool_in_ids in Hof as (_ & _ & ? & _).
Qed.

(** The numbers after a deposit. *)
Lemma deposit_curve p x y z :
  curve_ok p -> 0 < x -> 0 < y -> 0 < z -> reserve_a p + x <= u64_max -> reserve_b p + y <= u64_max ->
  x <= u64_max -> y <= u64_max -> lp_for_deposit p x y = Ok (Some z) ->
  curve_ok (set_reserves p (reserve_a p + x) (reserve_b p + y) (lp_supply p + z)) /\
  share_value_kept (reserve_a p) (reserve_b p) (lp_supply p)
    (reserve_a p + x) (reserve_b p + y) (lp_supply p + z).
Proof.
  intros [Ca Cb Cl Ce Cm] Hx Hy Hz Ha Hb Hx' Hy' E. unfold is_u64 in *.
  assert ((lp_supply p + z) * (lp_supply p + z) <= (reserve_a p + x) * (reserve_b p + y) /\
    share_value_kept (reserve_a p) (reserve_b p) (lp_supply p)
      (reserve_a p + x) (reserve_b p + y) (lp_supply p + z)) as [Hm Hv].
  { unfold lp_for_deposit in E. destruct (Z.eqb_spec (lp_supply p) 0) as [E0|H0].
    - destruct (isqrt_product x y ltac:(lia) ltac:(lia)) as (z' & Ez & _ & Hz'). rewrite Ez in E.
      injection E as <-. destruct (Ce E0) as [-> ->]. rewrite E0. unfold share_value_kept. lia.
    - destruct (_ || _) eqn:Er; [done|]. bool_prop. injection E as E.
      rewrite !u128_mul_small in E by lia.
      pose proof (Z.mul_div_le (x * lp_supply p) (reserve_a p) ltac:(lia)).
      pose proof (Z.mul_div_le (y * lp_supply p) (reserve_b p) ltac:(lia)).
      assert (share_value_kept (reserve_a p) (reserve_b p) (lp_supply p)
        (reserve_a p + x) (reserve_b p + y) (lp_supply p + z)) as Hv by (apply deposit_value; nia).
      split; [|done]. by apply (value_mean (reserve_a p) (reserve_b p) (lp_supply p)); [lia|..]. }
  split; [|done]. split; cbn; unfold is_u64; try lia.
  split; [lia|]. apply Z.le_ngt. intros Hgt. unfold u64_max in *. nia.
Qed.

Lemma deposit_backed L p u x y z :
  backed L p -> pool_key p <> u -> pool_token_a p <> pool_token_b p ->
  pool_lp_mint p <> pool_token_a p -> pool_lp_mint p <> pool_token_b p -> 0 <= x -> 0 <= y ->
  backed (minted_tokens (moved_tokens (moved_tokens L (pool_token_a p) u (pool_key p) x)
    (pool_token_b p) u (pool_key p) y) (pool_lp_mint p) u z)
    (set_reserves p (reserve_a p + x) (reserve_b p + y) (lp_supply p + z)).
Proof.
  intros [Ha Hb (s & d & Es & Hs) Hau] Hu Hab Hla Hlb Hx Hy. set (L2 := moved_tokens _ _ _ _ y).
  assert (tokens L2 (pool_lp_mint p) = Some (s, d)) as Es2 by done.
  assert (forall m, balances (minted_tokens L2 (pool_lp_mint p) u z) m (pool_key p) = balances L2 m (pool_key p)) as Em.
  { intros m. unfold minted_tokens. rewrite Es2, balances_set_owned, decide_False by naive_solver. done. }
  assert (forall m, balances L2 m (pool_key p) = balances L m (pool_key p) +
    (if decide (m = pool_token_a p) then x else if decide (m = pool_token_b p) then y else 0)) as E2.
  { intros m. unfold L2. rewrite !moved_at by done. repeat case_decide; subst; try lia; done. }
  split; cbn [reserve_a reserve_b lp_supply pool_token_a pool_token_b pool_key pool_lp_mint set_reserves];
    rewrite ?Em, ?E2.
  - rewrite decide_True by done. lia.
  - rewrite decide_False, decide_True by done. lia.
  - exists (s + z), d. rewrite !decide_False by done. split; [|lia]. unfold minted_tokens. rewrite Es2.
    cbn. by rewrite fupd_eq.
  - unfold minted_tokens. rewrite Es2. done.
Qed.

Lemma add_step t pools L a b u x y :
  amm_ok t pools L -> u ∈ users -> is_u64 x -> is_u64 y ->
  st_wp (add_liquidity sha256 a b u x y) (t, pools) (fun w _ => step_ok pools w).
Proof.
  intros H Hu Hx Hy. pose proof (step_same _ _ _ H) as Hsame. apply st_wp_bind, st_wp_fail_if; [|done].
  intros E0. apply st_wp_bind, st_wp_find; [|done]. set (pid := pool_id a b). intros p Hp.
  assert (exists x' y', (if a <=? b then (x, y) else (y, x)) = (x', y') /\
    (0 < x' <= u64_max) /\ (0 < y' <= u64_max)) as (x' & y' & -> & Hx' & Hy').
  { bool_prop. unfold is_u64 in *. destruct (a <=? b); do 2 eexists; (split; [done|lia]). }
  apply st_wp_bind, st_wp_check; [|done]. apply st_wp_bind, st_wp_check; [|done].
  apply st_wp_bind. cbn [st_gets]. unfold st_wp at 1. cbn [fst snd].
  destruct (am_pool _ _ _ H pid p Hp) as (Hof & Hc & Hb).
  destruct (pool_in_ids pid p Hof) as (I1 & I2 & I3 & I4 & I5 & I6 & I7).
  pose proof (as_users _ _ _ _ HS u Hu) as Iu. rewrite (po_key _ _ Hof).
  assert (u <> pid) as Hne by (by intros ->). pose proof (am_ledger _ _ _ H) as R. pose proof (am_ok _ _ _ H) as O.
  apply st_wp_bind, (transfer_rule t t pools L); try done; [lia|]. intros t1 _ R1 O1 Hb1.
  set (L1 := moved_tokens L _ _ _ _) in *.
  apply st_wp_bind, (transfer_rule t t1 pools L1); try done; [lia|]. intros t2 _ R2 O2 Hb2.
  set (L2 := moved_tokens L1 _ _ _ _) in *.
  assert (forall qid q, pools !! qid = Some q -> spares qid (pool_lp_mint q) L L2) as Hsp.
  { intros qid q Hq. pose proof (other_pool _ _ _ _ _ u H Hq Hu).
    apply (spares_trans _ _ _ L1); apply spares_moved; done || lia. }
  assert (step_ok pools (t2, pools)) as Hsame2 by (apply (step_same _ _ L2), (amm_spared t _ _ L); done).
  apply st_wp_bind. unfold st_wp at 1. cbn [fst snd].
  destruct (lp_for_deposit p x' y') as [[z|]|e] eqn:El; [|exact Hsame2|exact Hsame2].
  apply st_wp_bind, st_wp_require; [|done]. intros z' [-> Hz]%u64_try_from_Some.
  apply st_wp_bind, st_wp_fail_if; [|done]. intros Ez. bool_prop.
  assert (0 < z) as Hz0.
  { destruct Hc as [Ca Cb Cl _ _]. unfold lp_for_deposit, is_u64 in *. destruct (_ =? 0) eqn:Esup.
    - destruct (isqrt_product x' y' ltac:(lia) ltac:(lia)) as (z' & Ez' & ? & _). rewrite Ez' in El.
      injection El as <-. lia.
    - destruct (_ || _) eqn:Er; [done|]. bool_prop. injection El as <-.
      rewrite !u128_mul_small in * by lia.
      assert (0 <= x' * lp_supply p / reserve_a p) by (apply Z.div_pos; nia).
      assert (0 <= y' * lp_supply p / reserve_b p) by (apply Z.div_pos; nia). lia. }
  rewrite (po_lp _ _ Hof) in *.
  apply st_wp_bind, (mint_rule t t2 pools L2); try done. intros t3 _ R3 O3.
  set (L3 := minted_tokens L2 _ _ _) in *.
  assert (backed L3 (set_reserves p (reserve_a p + x') (reserve_b p + y') (lp_supply p + z))) as Hb3.
  { pose proof (deposit_backed L p u x' y' z Hb) as Hd. rewrite (po_key _ _ Hof), (po_lp _ _ Hof) in Hd.
    apply Hd; try done; [pose proof (po_lt _ _ Hof)|..]; lia. }
  assert (reserve_a p + x' <= u64_max /\ reserve_b p + y' <= u64_max) as [Ha64 Hb64].
  { destruct Hb3 as [B1 B2 _ _]. cbn in B1, B2. rewrite (po_key _ _ Hof) in B1, B2.
    pose proof (lo_balance _ _ O3 (pool_token_a p) pid I6 I1). pose proof (lo_balance _ _ O3 (pool_token_b p) pid I7 I1).
    unfold is_u64 in *. lia. }
  destruct (deposit_curve p x' y' z Hc ltac:(lia) ltac:(lia) Hz0 Ha64 Hb64 ltac:(lia) ltac:(lia) El) as [Hc3 Hv3].
  apply st_wp_bind. unfold st_wp at 1. rewrite (raise_a_run t3 pools pid p Hp) by done. cbn [fst snd].
  apply st_wp_bind. unfold st_wp at 1.
  rewrite (raise_b_run t3 _ pid _ (lookup_insert_eq _ _ _)) by done. cbn [fst snd].
  apply st_wp_bind. unfold st_wp at 1.
  rewrite (raise_lp_run t3 _ pid _ (lookup_insert_eq _ _ _)) by apply Hc3. cbn [fst snd].
  rewrite !insert_insert_eq. exists L3. cbn [fst snd]. split;
    [|exact (values_kept_update pools pid p (reserve_a p + x') (reserve_b p + y') (lp_supply p + z) Hp Hv3)].
  apply (amm_update t t3 pools L L3 pid p (reserve_a p + x') (reserve_b p + y') (lp_supply p + z)); try done.
  - unfold L3, minted_tokens. by destruct (tokens _ _) as [[]|].
  - intros qid q Hq Hqp. apply (spares_trans _ _ _ L2); [by apply Hsp|]. apply spares_minted; [lia|].
    destruct (am_pool _ _ _ H qid q Hq) as (Hofq & _). rewrite <-(po_lp _ _ Hof).
    apply not_eq_sym. by apply (pool_lp_apart pid p qid q).
Qed.

(** ** Redemption *)

Lemma transfer_run t (pools : SwapEngine) L m from to x saved :
  spells t L -> ledger_ok ids L -> m ∈ ids -> from ∈ ids -> to ∈ ids -> from <> to ->
  0 < x <= balances L m from ->
  exists t' cs, or_rollback saved (transfer_between_owners sha256 m from to x) (t, pools) =
      ((t', pools), Ok cs) /\
    spells t' (moved_tokens L m from to x) /\ ledger_ok ids (moved_tokens L m from to x).
Proof.
  intros R O Hm Hf Ht Hne Hx.
  assert (is_Some (tokens L m)) as Hsome.
  { destruct (tokens L m) eqn:E; [done|]. rewrite (lo_none _ _ O m Hm E from Hf) in Hx. lia. }
  pose proof (ledger_transfer_moves L m from to x Hne ltac:(lia) Hsome ltac:(lia)) as E.
  pose proof (transfer_sim sha256 ids Hshape Hapart Hids t L m from to x R O Hm Hf Ht ltac:(lia)) as H.
  pose proof (transfer_ok ids L m from to x _ O Hm Hf Ht ltac:(lia) E) as O'.
  unfold tsim, wp in H. rewrite E in H. unfold or_rollback.
  destruct (transfer_between_owners sha256 m from to x t) as [t' r]. cbn in H.
  destruct H as [[cs ->] R']. by exists t', cs.
Qed.

Lemma redeem_curve p z oa ob :
  curve_ok p -> 0 < z <= lp_supply p -> oa = z * reserve_a p / lp_supply p ->
  ob = z * reserve_b p / lp_supply p ->
  (0 <= oa <= reserve_a p) /\ (0 <= ob <= reserve_b p) /\
  curve_ok (set_reserves p (reserve_a p - oa) (reserve_b p - ob) (lp_supply p - z)) /\
  share_value_kept (reserve_a p) (reserve_b p) (lp_supply p)
    (reserve_a p - oa) (reserve_b p - ob) (lp_supply p - z).
Proof.
  intros [Ca Cb Cl Ce Cm] Hz Ea Eb. unfold is_u64 in *.
  pose proof (Z.mul_div_le (z * reserve_a p) (lp_supply p) ltac:(lia)) as Ha.
  pose proof (Z.mul_div_le (z * reserve_b p) (lp_supply p) ltac:(lia)) as Hb.
  assert (0 <= oa) by (subst oa; apply Z.div_pos; nia). assert (0 <= ob) by (subst ob; apply Z.div_pos; nia).
  rewrite <-Ea in Ha. rewrite <-Eb in Hb. assert (oa <= reserve_a p) by nia. assert (ob <= reserve_b p) by nia.
  assert (share_value_kept (reserve_a p) (reserve_b p) (lp_supply p)
    (reserve_a p - oa) (reserve_b p - ob) (lp_supply p - z)) as Hv by (apply redeem_value; lia).
  split_and!; try lia; [|done]. split; cbn; unfold is_u64; try lia.
  - intros E. assert (z = lp_supply p) as -> by lia. rewrite !(Z.mul_comm (lp_supply p)), !Z.div_mul in * by lia.
    lia.
  - by apply (value_mean (reserve_a p) (reserve_b p) (lp_supply p)); [lia|..].
Qed.

(** The ledger after a redemption. *)
Definition redeemed (L : Ledger) (p : Pool) (u z oa ob : Z) : Ledger :=
  moved_tokens (moved_tokens (moved_tokens L (pool_lp_mint p) u (pool_key p) z)
    (pool_token_a p) (pool_key p) u oa) (pool_token_b p) (pool_key p) u ob.

Lemma redeemed_backed L p u z oa ob :
  backed L p -> pool_key p <> u -> pool_token_a p <> pool_token_b p ->
  pool_lp_mint p <> pool_token_a p -> pool_lp_mint p <> pool_token_b p ->
  backed (redeemed L p u z oa ob)
    (set_reserves p (reserve_a p - oa) (reserve_b p - ob) (lp_supply p - z)).
Proof.
  intros [Ha Hb (s & d & Es & Hs) Hau] Hu Hab Hla Hlb. unfold redeemed.
  split; cbn [reserve_a reserve_b lp_supply pool_token_a pool_token_b pool_key pool_lp_mint set_reserves].
  - rewrite !moved_at by done. repeat case_decide; try done; lia.
  - rewrite !moved_at by done. repeat case_decide; try done; lia.
  - exists s, d. rewrite !moved_at by done. split; [done|]. repeat case_decide; try done; lia.
  - done.
Qed.

Lemma circulating L pid p u :
  ledger_ok ids L -> pool_of pid p -> backed L p -> u ∈ users ->
  balances L (pool_lp_mint p) u <= lp_supply p.
Proof.
  intros O Hof [_ _ (s & d & Es & Hs) _] Hu. pose proof (pool_in_ids pid p Hof) as (I1 & I2 & I3 & _).
  rewrite (po_key _ _ Hof), (po_lp _ _ Hof) in *.
  pose proof (balances_le_supply ids L (lp_mint_id pid) s d u pid O I2 (as_users _ _ _ _ HS u Hu) I1
    ltac:(by intros ->) Es). lia.
Qed.

Lemma remove_run t pools L a b u z p :
  amm_ok t pools L -> pools !! pool_id a b = Some p -> u ∈ users ->
  0 < z <= balances L (pool_lp_mint p) u ->
  let oa := z * reserve_a p / lp_supply p in
  let ob := z * reserve_b p / lp_supply p in
  0 < oa -> 0 < ob ->
  exists t', remove_liquidity sha256 a b u z (t, pools) =
      ((t', <[pool_id a b := set_reserves p (reserve_a p - oa) (reserve_b p - ob) (lp_supply p - z)]> pools),
       Ok (oa, ob)) /\
    amm_ok t' (<[pool_id a b := set_reserves p (reserve_a p - oa) (reserve_b p - ob) (lp_supply p - z)]> pools)
      (redeemed L p u z oa ob) /\
    share_value_kept (reserve_a p) (reserve_b p) (lp_supply p)
      (reserve_a p - oa) (reserve_b p - ob) (lp_supply p - z).
Proof.
  set (pid := pool_id a b). intros H Hp Hu Hz oa ob Hoa Hob.
  destruct (am_pool _ _ _ H pid p Hp) as (Hof & Hc & Hb).
  destruct (pool_in_ids pid p Hof) as (I1 & I2 & I3 & I4 & I5 & I6 & I7).
  pose proof (as_users _ _ _ _ HS u Hu) as Iu. assert (u <> pid) as Hne by (by intros ->).
  pose proof (am_ledger _ _ _ H) as R. pose proof (am_ok _ _ _ H) as O.
  pose proof (circulating L pid p u O Hof Hb Hu) as Hcirc.
  destruct (redeem_curve p z oa ob Hc ltac:(lia) eq_refl eq_refl) as (Ba & Bb & Hc' & Hv).
  pose proof (redeemed_backed L p u z oa ob Hb) as Hb'.
  assert (pool_token_a p <> pool_token_b p) as Hab by (pose proof (po_lt _ _ Hof); lia).
  pose proof Hb as [Bka Bkb _ _]. destruct Hc as [Ca Cb Cl _ _]. unfold is_u64 in *.
  rewrite (po_key _ _ Hof), (po_lp _ _ Hof) in *.
  destruct (transfer_run t pools L (lp_mint_id pid) u pid z (snapshot t)) as (t1 & cs1 & E1 & R1 & O1); try done.
  set (L1 := moved_tokens L _ _ _ _) in *.
  destruct (transfer_run t1 pools L1 (pool_token_a p) pid u oa (snapshot t)) as (t2 & cs2 & E2 & R2 & O2); try done.
  { split; [done|]. unfold L1. rewrite moved_at by done. rewrite decide_False by done. lia. }
  set (L2 := moved_tokens L1 _ _ _ _) in *.
  destruct (transfer_run t2 pools L2 (pool_token_b p) pid u ob (snapshot t)) as (t3 & cs3 & E3 & R3 & O3); try done.
  { split; [done|]. unfold L2, L1. rewrite !moved_at by done. rewrite !decide_False by done. lia. }
  exists t3. split_and!; [| |done].
  - unfold remove_liquidity. fold pid. unfold st_bind, find_pool, st_fail_if, st_gets, st_require, st_ret.
    rewrite (proj2 (Z.eqb_neq z 0)) by lia. cbn -[or_rollback write_pool]. rewrite Hp, (proj2 (Z.ltb_ge _ _)) by lia. cbn -[or_rollback write_pool].
    rewrite !u128_mul_small by lia. fold oa ob. unfold u64_try_from.
    rewrite (proj2 (Z.leb_le oa u64_max)), (proj2 (Z.leb_le ob u64_max)) by lia. cbn -[or_rollback write_pool].
    rewrite (proj2 (Z.eqb_neq oa 0)), (proj2 (Z.eqb_neq ob 0)) by lia. cbn -[or_rollback write_pool].
    rewrite (po_key _ _ Hof), (po_lp _ _ Hof), E1, E2, E3. cbn -[or_rollback write_pool].
    rewrite (write_pool_run t3 pools pid p Hp), !u64_sub_small by lia. done.
  - apply (amm_update t t3 pools L (redeemed L p u z oa ob)); try done.
    1,2: unfold redeemed; rewrite (po_key _ _ Hof), (po_lp _ _ Hof); done.
    + intros qid q Hq Hqp. pose proof (other_pool _ _ _ _ _ u H Hq Hu).
      unfold redeemed. rewrite (po_key _ _ Hof), (po_lp _ _ Hof).
      apply (spares_trans _ _ _ L2); [apply (spares_trans _ _ _ L1)|]; apply spares_moved; done || lia.
    + by apply Hb'.
Qed.

Lemma remove_step t pools L a b u z :
  amm_ok t pools L -> u ∈ users -> is_u64 z ->
  st_wp (remove_liquidity sha256 a b u z) (t, pools) (fun w _ => step_ok pools w).
Proof.
  intros H Hu Hz. pose proof (step_same _ _ _ H) as Hsame. unfold is_u64 in Hz.
  assert (forall p, pools !! pool_id a b = Some p -> 0 < z <= balances L (pool_lp_mint p) u ->
    0 < z * reserve_a p / lp_supply p -> 0 < z * reserve_b p / lp_supply p ->
    step_ok pools (fst (remove_liquidity sha256 a b u z (t, pools)))) as Hrun.
  { intros p Hp Hb Hoa Hob. destruct (remove_run t pools L a b u z p H Hp Hu Hb Hoa Hob) as (t' & -> & H' & Hv).
    eexists. split; [exact H'|]. by apply values_kept_update. }
  destruct (pools !! pool_id a b) as [p|] eqn:Hp.
  2:{ apply st_wp_bind, st_wp_fail_if; [|done]. intros _. apply st_wp_bind, st_wp_find; [|done]. congruence. }
  specialize (Hrun p eq_refl). destruct (am_pool _ _ _ H _ p Hp) as (Hof & [Ca Cb Cl _ _] & Hb).
  unfold is_u64 in *.
  destruct (pool_in_ids _ p Hof) as (I1 & I2 & I3 & I4 & I5 & I6 & I7).
  assert (forall r, 0 <= r -> 0 <= z * r / lp_supply p) as Hpos by (intros r Hr; apply Z_div_nonneg_nonneg; nia).
  pose proof (Hpos _ (proj1 Ca)) as Hpa. pose proof (Hpos _ (proj1 Cb)) as Hpb.
  destruct (decide (0 < z <= balances L (pool_lp_mint p) u /\ 0 < z * reserve_a p / lp_supply p /\
    0 < z * reserve_b p / lp_supply p)) as [(? & ? & ?)|Hno]; [by apply Hrun|]. clear Hrun.
  apply st_wp_bind, st_wp_fail_if; [|done]. intros E0. apply st_wp_bind, st_wp_find; [|done].
  rewrite Hp. intros ? [= <-]. apply st_wp_bind, st_wp_fail_if; [|done]. intros E1. bool_prop.
  rewrite !u128_mul_small by lia.
  apply st_wp_bind, st_wp_require; [|done]. intros oa [-> _]%u64_try_from_Some.
  apply st_wp_bind, st_wp_require; [|done]. intros ob [-> _]%u64_try_from_Some.
  apply st_wp_bind, st_wp_fail_if; [|done]. intros E2. bool_prop.
  apply st_wp_bind. unfold st_wp at 1, st_gets at 1. cbn [fst snd].
  rewrite (po_key _ _ Hof), (po_lp _ _ Hof) in *.
  apply st_wp_bind, (transfer_rule t t pools L); try done; [apply H|apply H| |by intros ->|lia|].
  - by apply (as_users _ _ _ _ HS).
  - intros t' cs _ _ Hle. exfalso. apply Hno. lia.
Qed.

(** ** Swaps *)

(** The pool after a swap. *)
Definition swapped (dir : bool) (p : Pool) (x y : Z) : Pool :=
  if dir then set_reserves p (reserve_a p + x) (reserve_b p - y) (lp_supply p)
  else set_reserves p (reserve_a p - y) (reserve_b p + x) (lp_supply p).
Definition reserve_in (dir : bool) (p : Pool) : Z := if dir then reserve_a p else reserve_b p.
Definition reserve_out (dir : bool) (p : Pool) : Z := if dir then reserve_b p else reserve_a p.

Lemma in_is_a_Some p i o dir :
  in_is_a p i o = Some dir ->
  i = (if dir then pool_token_a p else pool_token_b p) /\ o = (if dir then pool_token_b p else pool_token_a p).
Proof.
  unfold in_is_a. destruct (_ && _) eqn:E1; bool_prop; [by intros [= <-]|].
  destruct (_ && _) eqn:E2; bool_prop; [by intros [= <-]|done].
Qed.

Lemma swapped_curve dir p x y :
  curve_ok p -> 0 < x <= u64_max -> 0 < reserve_a p -> 0 < reserve_b p ->
  reserve_in dir p + x <= u64_max -> y = amount_out x (reserve_in dir p) (reserve_out dir p) ->
  0 <= y < reserve_out dir p /\ curve_ok (swapped dir p x y) /\
  share_value_kept (reserve_a p) (reserve_b p) (lp_supply p)
    (reserve_a (swapped dir p x y)) (reserve_b (swapped dir p x y)) (lp_supply (swapped dir p x y)).
Proof.
  intros [Ca Cb Cl Ce Cm] Hx Ha Hb Hin Ey. unfold is_u64 in *.
  destruct (product_out_bound x (reserve_in dir p) (reserve_out dir p) Hx) as (_ & Hy & Hk);
    [destruct dir; cbn; lia..|]. rewrite <-Ey in Hy, Hk. split; [done|].
  pose proof (swap_value x (reserve_in dir p) (reserve_out dir p) y ltac:(lia) ltac:(destruct dir; cbn; lia)
    ltac:(destruct dir; cbn; lia) ltac:(lia) Hk) as Hv.
  assert (reserve_a p * reserve_b p <= reserve_a (swapped dir p x y) * reserve_b (swapped dir p x y)) as Hab.
  { destruct dir; cbn in *; [lia|]. rewrite (Z.mul_comm (_ - _)), (Z.mul_comm (reserve_a p)). lia. }
  split.
  - split; destruct dir; cbn in *; unfold is_u64; try lia.
  - unfold share_value_kept. assert (lp_supply (swapped dir p x y) = lp_supply p) as -> by (by destruct dir). nia.
Qed.

Lemma swapped_backed dir L p u x y i o :
  backed L p -> in_is_a p i o = Some dir -> pool_key p <> u -> pool_token_a p <> pool_token_b p ->
  pool_lp_mint p <> pool_token_a p -> pool_lp_mint p <> pool_token_b p ->
  backed (moved_tokens (moved_tokens L i u (pool_key p) x) o (pool_key p) u y) (swapped dir p x y).
Proof.
  intros [Ha Hb (s & d & Es & Hs) Hau] [-> ->]%in_is_a_Some Hu Hab Hla Hlb.
  destruct dir; (split; [..|done]);
    cbn [reserve_a reserve_b lp_supply pool_token_a pool_token_b pool_key pool_lp_mint set_reserves swapped].
  3,6: exists s, d; split; [done|].
  all: rewrite !moved_at by done; repeat case_decide; try congruence; lia.
Qed.

Lemma swap_run t pools L i o u x lo p dir :
  amm_ok t pools L -> pools !! pool_id i o = Some p -> u ∈ users -> in_is_a p i o = Some dir ->
  0 < reserve_a p -> 0 < reserve_b p -> 0 < x <= balances L i u ->
  let y := amount_out x (reserve_in dir p) (reserve_out dir p) in
  0 < y -> lo <= y ->
  exists t', swap sha256 i o u x lo (t, pools) =
      ((t', <[pool_id i o := swapped dir p x y]> pools), Ok y) /\
    amm_ok t' (<[pool_id i o := swapped dir p x y]> pools)
      (moved_tokens (moved_tokens L i u (pool_id i o) x) o (pool_id i o) u y) /\
    share_value_kept (reserve_a p) (reserve_b p) (lp_supply p)
      (reserve_a (swapped dir p x y)) (reserve_b (swapped dir p x y)) (lp_supply (swapped dir p x y)).
Proof.
  set (pid := pool_id i o). intros H Hp Hu Hdir Hra Hrb Hx y Hy Hlo.
  destruct (am_pool _ _ _ H pid p Hp) as (Hof & Hc & Hb).
  destruct (pool_in_ids pid p Hof) as (I1 & I2 & I3 & I4 & I5 & I6 & I7).
  pose proof (as_users _ _ _ _ HS u Hu) as Iu. assert (u <> pid) as Hne by (by intros ->).
  pose proof (am_ledger _ _ _ H) as R. pose proof (am_ok _ _ _ H) as O.
  assert (pool_token_a p <> pool_token_b p) as Hab by (pose proof (po_lt _ _ Hof); lia).
  assert (i ∈ ids /\ o ∈ ids /\ i <> o) as (Ii & Io & Hio)
    by (apply in_is_a_Some in Hdir as [-> ->]; by destruct dir).
  pose proof (lo_balance _ _ O i u Ii Iu) as Hub. unfold is_u64 in Hub.
  destruct (transfer_run t pools L i u pid x (snapshot t)) as (t1 & cs1 & E1 & R1 & O1); try done.
  set (L1 := moved_tokens L _ _ _ _) in *.
  pose proof (swapped_backed dir L p u x y i o Hb Hdir) as Hb'. rewrite (po_key _ _ Hof), (po_lp _ _ Hof) in Hb'.
  specialize (Hb' ltac:(done) Hab I4 I5).
  assert (reserve_in dir p + x <= u64_max) as Hin.
  { pose proof (lo_balance _ _ O1 i pid Ii I1) as Hl. unfold L1, is_u64 in Hl.
    rewrite moved_at in Hl by done. rewrite !decide_True in Hl by done. destruct Hb as [B1 B2 _ _].
    rewrite (po_key _ _ Hof) in B1, B2. apply in_is_a_Some in Hdir as [-> _]. destruct dir; cbn in *; lia. }
  destruct (swapped_curve dir p x y Hc ltac:(lia) Hra Hrb Hin eq_refl) as (Hyr & Hc' & Hv).
  destruct (transfer_run t1 pools L1 o pid u y (snapshot t)) as (t2 & cs2 & E2 & R2 & O2); try done.
  { split; [done|]. unfold L1. rewrite moved_at by done. rewrite decide_False by done. destruct Hb as [B1 B2 _ _].
    rewrite (po_key _ _ Hof) in B1, B2. apply in_is_a_Some in Hdir as [_ ->]. destruct dir; cbn in *; lia. }
  exists t2. split_and!; [| |done].
  - unfold swap. fold pid. unfold st_bind, find_pool, check_balance, st_fail_if, st_gets, st_require, st_ret.
    rewrite (proj2 (Z.eqb_neq x 0)), (proj2 (Z.eqb_neq i o)) by lia. cbn -[or_rollback raise_a raise_b lower_a lower_b].
    rewrite Hp, (proj2 (Z.eqb_neq (reserve_a p) 0)), (proj2 (Z.eqb_neq (reserve_b p) 0)) by lia.
    cbn -[or_rollback raise_a raise_b lower_a lower_b]. rewrite Hdir.
    cbn -[or_rollback raise_a raise_b lower_a lower_b].
    assert ((if dir then (reserve_a p, reserve_b p) else (reserve_b p, reserve_a p)) =
      (reserve_in dir p, reserve_out dir p)) as -> by (by destruct dir).
    fold y. rewrite (proj2 (Z.eqb_neq y 0)), (proj2 (Z.ltb_ge y lo)) by lia.
    assert (balance_of sha256 t i u = balances L i u) as -> by (by apply (sp_balance _ _ _ _ R)).
    rewrite (proj2 (Z.ltb_ge (balances L i u) x)) by lia.
    rewrite (po_key _ _ Hof), E1, E2. cbn -[or_rollback raise_a raise_b lower_a lower_b].
    destruct dir; cbn in Hin, Hyr.
    + rewrite (raise_a_run t2 pools pid p Hp) by done.
      rewrite (lower_b_run t2 _ pid _ (lookup_insert_eq _ _ _)) by (cbn; lia). by rewrite insert_insert_eq.
    + rewrite (raise_b_run t2 pools pid p Hp) by done.
      rewrite (lower_a_run t2 _ pid _ (lookup_insert_eq _ _ _)) by (cbn; lia). by rewrite insert_insert_eq.
  - assert (exists a b, swapped dir p x y = set_reserves p a b (lp_supply p)) as (a & b & Es)
      by (destruct dir; by do 2 eexists).
    rewrite Es in *. apply (amm_update t t2 pools L); try done.
    intros qid q Hq Hqp. pose proof (other_pool _ _ _ _ _ u H Hq Hu).
    apply (spares_trans _ _ _ L1); apply spares_moved; done || lia.
Qed.

Lemma swap_step t pools L i o u x lo :
  amm_ok t pools L -> u ∈ users -> i ∈ T -> is_u64 x ->
  st_wp (swap sha256 i o u x lo) (t, pools) (fun w _ => step_ok pools w).
Proof.
  intros H Hu Hi Hx. pose proof (step_same _ _ _ H) as Hsame. unfold is_u64 in Hx.
  destruct (pools !! pool_id i o) as [p|] eqn:Hp.
  2:{ apply st_wp_bind, st_wp_fail_if; [|done]. intros _. apply st_wp_bind, st_wp_fail_if; [|done]. intros _.
      apply st_wp_bind, st_wp_find; [|done]. congruence. }
  destruct (am_pool _ _ _ H _ p Hp) as (Hof & [Ca Cb Cl _ _] & Hb). unfold is_u64 in *.
  assert (balance_of sha256 t i u = balances L i u) as Ebal.
  { apply (sp_balance _ _ _ _ (am_ledger _ _ _ H)); [by apply (as_tokens _ _ _ _ HS)|by apply (as_users _ _ _ _ HS)]. }
  destruct (in_is_a p i o) as [dir|] eqn:Hdir.
  - set (y := amount_out x (reserve_in dir p) (reserve_out dir p)).
    destruct (decide (0 < reserve_a p /\ 0 < reserve_b p /\ 0 < x <= balances L i u /\ 0 < y /\ lo <= y))
      as [(Hra & Hrb & Hxb & Hy & Hlo)|Hno].
    { destruct (swap_run t pools L i o u x lo p dir H Hp Hu Hdir Hra Hrb Hxb Hy Hlo) as (t' & E & H' & Hv).
      unfold st_wp. rewrite E. cbn [fst]. eexists. split; [exact H'|].
      assert (exists a b, swapped dir p x y = set_reserves p a b (lp_supply p)) as (a & b & Es)
        by (destruct dir; by do 2 eexists).
      fold y in Hv |- *. rewrite Es in Hv |- *. by apply values_kept_update. }
    apply st_wp_bind, st_wp_fail_if; [|done]. intros E0. apply st_wp_bind, st_wp_fail_if; [|done]. intros E1.
    apply st_wp_bind, st_wp_find; [|done]. rewrite Hp. intros ? [= <-].
    apply st_wp_bind, st_wp_fail_if; [|done]. intros E2.
    apply st_wp_bind, st_wp_require; [|done]. rewrite Hdir. intros ? [= <-].
    assert ((if dir then (reserve_a p, reserve_b p) else (reserve_b p, reserve_a p)) =
      (reserve_in dir p, reserve_out dir p)) as -> by (by destruct dir). fold y.
    apply st_wp_bind, st_wp_fail_if; [|done]. intros E3. apply st_wp_bind, st_wp_fail_if; [|done]. intros E4.
    apply st_wp_bind, st_wp_bind. unfold st_wp at 1, st_gets at 1. cbn [fst snd].
    apply st_wp_fail_if; [|done]. rewrite Ebal. intros E5. bool_prop. exfalso. apply Hno.
    assert (0 <= y); [|lia]. unfold y, amount_out, as_u64. apply Z.mod_pos_bound. lia.
  - apply st_wp_bind, st_wp_fail_if; [|done]. intros E0. apply st_wp_bind, st_wp_fail_if; [|done]. intros E1.
    apply st_wp_bind, st_wp_find; [|done]. rewrite Hp. intros ? [= <-].
    apply st_wp_bind, st_wp_fail_if; [|done]. intros E2.
    apply st_wp_bind, st_wp_require; [|done]. congruence.
Qed.

(** ** New pools and the rest of the token ledger *)

Lemma sort_pair_in a b lo hi : sort_pair a b = (lo, hi) -> a <> b -> a ∈ T -> b ∈ T -> lo ∈ T /\ hi ∈ T /\ lo < hi.
Proof. unfold sort_pair. destruct (Z.leb_spec a b); intros [= <- <-] ???; (split_and!; [done|done|lia]). Qed.

Lemma create_step t pools L a b :
  amm_ok t pools L -> a ∈ T -> b ∈ T ->
  st_wp (create_pool sha256 a b) (t, pools) (fun w _ => step_ok pools w).
Proof.
  intros H Ha Hb. pose proof (step_same _ _ _ H) as Hsame.
  apply st_wp_bind, st_wp_fail_if; [|done]. intros E0. bool_prop.
  destruct (sort_pair a b) as [lo hi] eqn:Es. destruct (sort_pair_in a b lo hi Es E0 Ha Hb) as (Hlo & Hhi & Hlt).
  set (pid := pool_id lo hi). apply st_wp_bind. unfold st_wp at 1, st_gets at 1. cbn [fst snd].
  apply st_wp_bind, st_wp_fail_if; [|done]. intros E1. bool_prop. apply eq_None_not_Some in E1.
  destruct (as_pool _ _ _ _ HS lo hi Hlo Hhi ltac:(lia)) as (I1 & I2 & I3 & I4 & I5). fold pid in I1, I2, I3, I4, I5.
  apply st_wp_bind, st_wp_tree.
  assert (wp (let! there := contains pid in
    if there : bool then ret tt else modify (fun t => insert_account sha256 t (account_new pid)) : M SwapError unit) t
    (fun t1 r => r = Ok tt /\ spells t1 L)) as Hins.
  { apply wp_bind, wp_gets. case_bool_decide; (split; [done|]); [apply H|].
    apply (spells_storage sha256 ids t); [done|apply H]. }
  revert Hins. apply wp_mono. intros t1 r [-> R1]. apply st_wp_bind, st_wp_tree.
  pose proof (create_mint_sim sha256 ids Hshape Hapart Hids t1 L (lp_mint_id pid) 9 pid R1 I2 ltac:(done)) as Hm.
  unfold tsim, wp, map_err in *. destruct (create_mint sha256 (lp_mint_id pid) 9 pid t1) as [t2 r].
  cbn [fst snd] in Hm. destruct H as [R O P A].
  destruct (ledger_create_mint _ L (lp_mint_id pid) 9 pid) as [L'|e] eqn:E; destruct Hm as [Hr R2].
  2:{ subst r. cbn. apply (step_same _ _ L). by split. }
  pose proof (create_mint_ok ids _ L _ 9 pid L' O I2 E) as O2. destruct Hr as [cs ->]. cbn.
  unfold ledger_create_mint in E. destruct (tokens L (lp_mint_id pid)) eqn:Et; [done|]. injection E as <-.
  set (p := {| pool_key := pid |}).
  change (step_ok pools (t2, <[pid := p]> pools)). eexists. split; cbn [fst snd].
  - split; [exact R2|done| |done]. intros qid q. rewrite lookup_insert.
    case_decide as Hd; [intros [= <-]; subst qid|].
    + split_and!; [by split|split; cbn; unfold is_u64, u64_max; lia|].
      pose proof (lo_balance _ _ O (lp_mint_id pid) pid I2 I1).
      pose proof (lo_balance _ _ O lo pid (as_tokens _ _ _ _ HS lo Hlo) I1).
      pose proof (lo_balance _ _ O hi pid (as_tokens _ _ _ _ HS hi Hhi) I1). unfold is_u64 in *.
      split; cbn; rewrite ?fupd_eq; try done; try lia. do 2 eexists. split; [done|lia].
    + intros Hq. destruct (P qid q Hq) as (Hof & Hc & [B1 B2 (s & d & Eq & Hs) B4]). split_and!; [done|done|].
      assert (pool_lp_mint q <> lp_mint_id pid) as Hne by (intros En; rewrite En in Eq; congruence).
      split; cbn; rewrite ?fupd_ne by done; eauto.
  - intros qid q Hq. exists q. rewrite lookup_insert_ne by congruence. split; [done|].
    unfold share_value_kept. lia.
Qed.

Lemma amm_token_step t pools L op caller :
  amm_ok t pools L -> token_op_ok ids op -> by_caller caller op -> caller ∈ ids ->
  (forall a b, a ∈ T -> b ∈ T -> caller <> pool_id a b) ->
  exists L', amm_ok (fst (token_op sha256 op t)) pools L'.
Proof.
  intros [R O P A] Hop Hby Hc Hne. pose proof (token_op_sim ids sha256 Hshape Hapart Hids t L op R O Hop) as H.
  destruct (token_op sha256 op t) as [t' x]. cbn. destruct H as [_ R'].
  destruct (ledger_op _ L op) as [L'|e] eqn:E; [|by exists L].
  pose proof (ledger_op_ok ids _ L op L' O Hop E) as O'.
  apply (op_permitted ids _ caller) in E as [P1 P2 P3 P4 _]; [|done|done].
  assert (forall a b y s, a ∈ T -> b ∈ T -> a <> b -> y ∈ ids -> s ∈ ids ->
    allowances L' y (pool_id a b) s = 0) as A'.
  { intros a b y s Ha Hb Hab Hy Hs. pose proof (Hne a b Ha Hb).
    destruct (decide (s = caller)) as [->|Hn]; [|rewrite P2 by done; by apply A].
    specialize (P3 y (pool_id a b) ltac:(done)). rewrite A in P3 by done.
    destruct (as_pool _ _ _ _ HS a b Ha Hb Hab) as (I1 & _).
    destruct (lo_allowance _ _ O' y (pool_id a b) caller) as [? _]; try done. lia. }
  exists L'. split; try done. intros qid q Hq. destruct (P qid q Hq) as (Hof & Hcv & [B1 B2 (s & d & Es & Hs) B4]).
  split_and!; [done|done|]. destruct (pool_in_ids qid q Hof) as (I1 & I2 & I3 & _ & _ & I6 & I7).
  assert (forall m, m ∈ ids -> balances L m qid <= balances L' m qid) as Hle.
  { intros m Hm. pose proof (po_id _ _ Hof) as Ei. pose proof (po_a _ _ Hof) as Ha. pose proof (po_b _ _ Hof) as Hb.
    specialize (P1 m qid ltac:(rewrite Ei; by apply not_eq_sym, Hne)).
    assert (pool_token_a q <> pool_token_b q) as Hab by (pose proof (po_lt _ _ Hof); lia).
    pose proof (A _ _ m caller Ha Hb Hab Hm Hc) as E1. pose proof (A' _ _ m caller Ha Hb Hab Hm Hc) as E2.
    rewrite <-Ei in E1, E2. lia. }
  rewrite (po_key _ _ Hof), (po_lp _ _ Hof) in *. destruct (P4 _ s d Es) as [Ea (s' & Es' & Hs')].
  assert (s' = s) as ->.
  { destruct Hs' as [->|[_ Ec]]; [done|]. rewrite B4 in Ec. exfalso.
    by apply (Hne (pool_token_a q) (pool_token_b q) (po_a _ _ Hof) (po_b _ _ Hof)); rewrite Ec, <-(po_id _ _ Hof). }
  pose proof (Hle _ I6). pose proof (Hle _ I7). pose proof (Hle _ I2).
  split; rewrite ?(po_key _ _ Hof), ?(po_lp _ _ Hof); [lia|lia| |congruence]. exists s, d. split; [done|lia].
Qed.
End amm.

(* ------------------------------------------------------------------ *)
(** * Sequences of operations *)

Inductive AmmOp : Type :=
| AmmCreate (token_a token_b : AccountId)
| AmmAdd (token_a token_b provider : AccountId) (amount_a amount_b : Z)
| AmmRemove (token_a token_b provider : AccountId) (lp_amount : Z)
| AmmSwap (token_in token_out sender : AccountId) (amount_in min_amount_out : Z)
| AmmToken (op : TokenOp).

(** One operation, whatever it answers. *)
Definition run_amm (sha256 : list Z -> list Z) (w : World) (op : AmmOp) : World :=
  match op with
  | AmmCreate a b => fst (create_pool sha256 a b w)
  | AmmAdd a b u x y => fst (add_liquidity sha256 a b u x y w)
  | AmmRemove a b u z => fst (remove_liquidity sha256 a b u z w)
  | AmmSwap i o u x lo => fst (swap sha256 i o u x lo w)
  | AmmToken op => (fst (token_op sha256 op (fst w)), snd w)
  end.

Definition run_amms (sha256 : list Z -> list Z) (w : World) (ops : list AmmOp) : World :=
  foldl (run_amm sha256) w ops.

(** Users trade tokens of [T]; token operations are those of any caller but the
    account of a pool, which signs nothing. *)
Definition amm_op_ok (sha256 : list Z -> list Z) (ids T users : gset AccountId) (op : AmmOp) : Prop :=
  match op with
  | AmmCreate a b => a ∈ T /\ b ∈ T
  | AmmAdd a b u x y => u ∈ users /\ is_u64 x /\ is_u64 y
  | AmmRemove a b u z => u ∈ users /\ is_u64 z
  | AmmSwap i o u x lo => u ∈ users /\ i ∈ T /\ is_u64 x
  | AmmToken op => token_op_ok ids op /\ exists caller, caller ∈ ids /\ by_caller caller op /\
      forall a b, a ∈ T -> b ∈ T -> caller <> pool_id sha256 a b
  end.

Section sequences.
Context (sha256 : list Z -> list Z) (ids T users : gset AccountId).
Hypothesis HS : amm_setting sha256 ids T users.
Local Abbreviation amm_ok := (amm_ok sha256 ids T).

Lemma amm_step w L op :
  amm_ok (fst w) (snd w) L -> amm_op_ok sha256 ids T users op ->
  exists L', amm_ok (fst (run_amm sha256 w op)) (snd (run_amm sha256 w op)) L' /\
    values_kept (snd w) (snd (run_amm sha256 w op)).
Proof.
  destruct w as [t pools]. cbn [fst snd]. intros H Hop. destruct op as [a b|a b u x y|a b u z|i o u x lo|op]; cbn in *.
  - destruct Hop. by apply (create_step sha256 ids T users HS t pools L).
  - destruct Hop as (? & ? & ?). by apply (add_step sha256 ids T users HS t pools L).
  - destruct Hop. by apply (remove_step sha256 ids T users HS t pools L).
  - destruct Hop as (? & ? & ?). by apply (swap_step sha256 ids T users HS t pools L).
  - destruct Hop as [Hop (caller & Hc & Hby & Hne)].
    destruct (amm_token_step sha256 ids T users HS t pools L op caller H Hop Hby Hc Hne) as [L' H'].
    exists L'. split; [done|]. apply values_kept_refl.
Qed.

Lemma amm_steps ops w L :
  amm_ok (fst w) (snd w) L -> Forall (amm_op_ok sha256 ids T users) ops ->
  exists L', amm_ok (fst (run_amms sha256 w ops)) (snd (run_amms sha256 w ops)) L'.
Proof.
  revert w L. induction ops as [|op ops IH]; intros w L H Hops; [by exists L|].
  apply Forall_cons in Hops as [Hop Hops]. destruct (amm_step w L op H Hop) as (L1 & H1 & _).
  by apply (IH _ L1).
Qed.

Lemma amm_reachable t ops :
  contract_storage t !! token_program_account_id = None -> Forall (amm_op_ok sha256 ids T users) ops ->
  exists L, amm_ok (fst (run_amms sha256 (t, ∅) ops)) (snd (run_amms sha256 (t, ∅) ops)) L.
Proof.
  intros Ht Hops. apply (amm_steps ops (t, ∅) empty_ledger); [|done].
  split; [by apply empty_ledger_spells|apply empty_ledger_ok|done|done].
Qed.
End sequences.

(* ------------------------------------------------------------------ *)
(** * Theorems *)

(** C32. The pools are covered.  After any sequence of pool creations, deposits,
    redemptions, swaps and token operations on an empty ledger, whichever of them
    fail, the account of every pool owns at least the recorded reserves, the LP
    tokens outside of the pool are at most the recorded LP supply, and the LP
    supply is at most the geometric mean of the reserves. *)
Theorem amm_pools_backed sha256 ids T users t ops :
  amm_setting sha256 ids T users -> contract_storage t !! token_program_account_id = None ->
  Forall (amm_op_ok sha256 ids T users) ops ->
  let '(t', pools) := run_amms sha256 (t, ∅) ops in
  forall a b p, get_pool sha256 pools a b = Some p ->
    reserve_a p <= balance_of sha256 t' (pool_token_a p) (pool_key p) /\
    reserve_b p <= balance_of sha256 t' (pool_token_b p) (pool_key p) /\
    lp_supply p * lp_supply p <= reserve_a p * reserve_b p /\
    exists meta, get_mint_meta sha256 t' (pool_lp_mint p) = Some meta /\
      supply meta - balance_of sha256 t' (pool_lp_mint p) (pool_key p) <= lp_supply p.
Proof.
  intros HS Ht Hops. destruct (amm_reachable sha256 ids T users HS t ops Ht Hops) as [L H].
  destruct (run_amms sha256 (t, ∅) ops) as [t' pools]. cbn in H. intros a b p Hp.
  destruct (am_pool _ _ _ _ _ _ H _ p Hp) as (Hof & [_ _ _ _ Cm] & [Ba Bb (s & d & Es & Hs) _]).
  destruct (pool_in_ids sha256 ids T users HS _ p Hof) as (I1 & I2 & _ & _ & _ & I6 & I7).
  pose proof (am_ledger _ _ _ _ _ _ H) as R. rewrite (po_key _ _ _ _ Hof), (po_lp _ _ _ _ Hof) in *.
  assert (forall m, m ∈ ids -> balance_of sha256 t' m (pool_id sha256 a b) = balances L m (pool_id sha256 a b)) as Eb
    by (intros m Hm; by apply (sp_balance _ _ _ _ R)).
  rewrite !Eb by done. split_and!; try done. rewrite (read_mint_meta _ _ _ L _ R I2). unfold ledger_mint.
  rewrite Es. eexists. split; [done|]. done.
Qed.

(** C33. Shares never lose value.  In any state reached by operations of users, no
    further operation lowers, for any pool, the product of the reserves per LP
    token squared: not a swap at any price, not a deposit or a redemption of any
    size, and not one that fails. *)
Theorem amm_shares_keep_value sha256 ids T users t ops op :
  amm_setting sha256 ids T users -> contract_storage t !! token_program_account_id = None ->
  Forall (amm_op_ok sha256 ids T users) ops -> amm_op_ok sha256 ids T users op ->
  let w := run_amms sha256 (t, ∅) ops in
  forall pid p, snd w !! pid = Some p ->
    exists p', snd (run_amm sha256 w op) !! pid = Some p' /\
      reserve_a p * reserve_b p * (lp_supply p' * lp_supply p') <=
      reserve_a p' * reserve_b p' * (lp_supply p * lp_supply p).
Proof.
  intros HS Ht Hops Hop w. destruct (amm_reachable sha256 ids T users HS t ops Ht Hops) as [L H].
  by destruct (amm_step sha256 ids T users HS w L op H Hop) as (_ & _ & Hv).
Qed.

(** C34. Shares can be redeemed.  In any state reached by operations of users, a
    user who redeems LP tokens they own gets the rounded down part of both
    reserves, unless one of the parts is nothing: the redemption does not fail
    and pays exactly that. *)
Theorem shares_redeemable sha256 ids T users t ops a b u z p :
  amm_setting sha256 ids T users -> contract_storage t !! token_program_account_id = None ->
  Forall (amm_op_ok sha256 ids T users) ops ->
  let w := run_amms sha256 (t, ∅) ops in
  let oa := z * reserve_a p / lp_supply p in
  let ob := z * reserve_b p / lp_supply p in
  get_pool sha256 (snd w) a b = Some p -> u ∈ users ->
  0 < z <= balance_of sha256 (fst w) (pool_lp_mint p) u -> 0 < oa -> 0 < ob ->
  exists t' pools', remove_liquidity sha256 a b u z w = ((t', pools'), Ok (oa, ob)) /\
    balance_of sha256 t' (pool_token_a p) u = balance_of sha256 (fst w) (pool_token_a p) u + oa /\
    balance_of sha256 t' (pool_token_b p) u = balance_of sha256 (fst w) (pool_token_b p) u + ob /\
    balance_of sha256 t' (pool_lp_mint p) u = balance_of sha256 (fst w) (pool_lp_mint p) u - z.
Proof.
  intros HS Ht Hops w oa ob Hp Hu Hz Hoa Hob.
  destruct (amm_reachable sha256 ids T users HS t ops Ht Hops) as [L H]. fold w in H.
  destruct w as [t1 pools]. cbn [fst snd] in *. pose proof (am_ledger _ _ _ _ _ _ H) as R.
  destruct (am_pool _ _ _ _ _ _ H _ p Hp) as (Hof & _ & _).
  destruct (pool_in_ids sha256 ids T users HS _ p Hof) as (I1 & I2 & I3 & I4 & I5 & I6 & I7).
  pose proof (as_users _ _ _ _ HS u Hu) as Iu. rewrite <-(po_lp _ _ _ _ Hof) in I2, I4, I5.
  assert (forall m, m ∈ ids -> balance_of sha256 t1 m u = balances L m u) as Eb
    by (intros m Hm; by apply (sp_balance _ _ _ _ R)). rewrite Eb in Hz by done.
  destruct (remove_run sha256 ids T users HS t1 pools L a b u z p H Hp Hu Hz Hoa Hob) as (t' & E & H' & _).
  do 2 eexists. split; [exact E|]. pose proof (am_ledger _ _ _ _ _ _ H') as R'.
  assert (forall m, m ∈ ids -> balance_of sha256 t' m u = balances (redeemed L p u z oa ob) m u) as Eb'
    by (intros m Hm; by apply (sp_balance _ _ _ _ R')).
  assert (u <> pool_key p) as Hne by (rewrite (po_key _ _ _ _ Hof); by intros ->).
  pose proof (po_lt _ _ _ _ Hof). rewrite !Eb, !Eb' by done. unfold redeemed.
  split_and!; rewrite !moved_at by done; repeat case_decide; try congruence; lia.
Qed.

(** The rounded down output of the constant product formula, less the fee. *)
Definition constant_product (x ri ro : Z) : Z := x * 997 * ro / (ri * 1000 + x * 997).

(** C35. When the price is computed exactly.  The amount a swap pays is the
    rounded down constant-product amount if and only if the numerator fits 128
    bits; when it does not, it wraps and the trader gets less, with reserves and
    amounts that are ordinary for tokens of 18 decimals. *)
Theorem swap_price_exact x ri ro :
  0 < x <= u64_max -> 0 < ri <= u64_max -> 0 < ro <= u64_max ->
  (x * 997 * ro < 2 ^ 128 -> amount_out x ri ro = constant_product x ri ro) /\
  (2 ^ 128 <= x * 997 * ro -> amount_out x ri ro < constant_product x ri ro).
Proof.
  intros Hx Hi Ho. unfold constant_product. destruct (product_out_bound x ri ro Hx Hi Ho) as (-> & _ & _).
  unfold product_out, u128_mul, u128_add. change (FEE_DENOMINATOR - FEE_NUMERATOR) with 997.
  change FEE_DENOMINATOR with 1000. unfold u64_max in *.
  rewrite (Z.mod_small (x * 997)), (Z.mod_small (ri * 1000)) by lia.
  rewrite (Z.mod_small (ri * 1000 + x * 997)) by lia. split; intros HN.
  - rewrite Z.mod_small; [done|]. split; [|done]. nia.
  - set (N := x * 997 * ro) in *. set (D := ri * 1000 + x * 997).
    assert (N mod 2 ^ 128 <= N - 2 ^ 128) as Hm.
    { rewrite Z.mod_eq by lia. assert (1 <= N / 2 ^ 128) by (apply Z.div_le_lower_bound; lia). lia. }
    apply Z.lt_le_trans with ((N mod 2 ^ 128 + 1 * D) / D); [rewrite Z.div_add by lia; lia|].
    apply Z.div_le_mono; lia.
Qed.

(* ------------------------------------------------------------------ *)
(** * Samples *)

Lemma collision_free_decide sha256 (ms : list (list Z)) :
  bool_decide (Forall (fun x => Forall (fun y => sha256 x = sha256 y -> x = y) ms) ms) = true ->
  collision_free sha256 ms.
Proof.
  intros H%bool_decide_eq_true x y Hx Hy. rewrite Forall_forall in H. specialize (H x Hx).
  rewrite Forall_forall in H. by apply H.
Qed.

Module SampleAmm.
(** Keeps the last bytes of each id of a message, and its length. *)
Definition byte_back (l : list Z) (n : nat) : Z := default 0 (reverse l !! n) mod 256.
Definition sha (l : list Z) : list Z :=
  let h := map (byte_back l) [65; 64; 33; 2]%nat ++ [Z.of_nat (length l) mod 256] ++
    map (byte_back l) [1; 32; 0]%nat in
  h ++ replicate 16 0 ++ h.

Lemma amm_sha_shape : digest_shape sha.
Proof.
  intros l. split; [done|]. unfold sha.
  repeat (apply Forall_app; split); try (by apply Forall_replicate);
    repeat constructor; apply Z.mod_pos_bound; lia.
Qed.

Definition pid : Z := Eval vm_compute in pool_id sha 3 7.
Definition lp : Z := Eval vm_compute in lp_mint_id sha pid.

(** User 1 and the tokens 3 and 7. *)
Definition ids : gset Z := {[ 1; 3; 7; pid; lp ]}.
Definition T : gset Z := {[ 3; 7 ]}.
Definition users : gset Z := {[ 1 ]}.

Lemma sample_pool a b : a ∈ T -> b ∈ T -> a <> b -> pool_id sha a b = pid.
Proof.
  unfold T. rewrite !elem_of_union, !elem_of_singleton. intros [-> | ->] [-> | ->] H; [done| | |done]; by vm_compute.
Qed.

Lemma sample_setting : amm_setting sha ids T users.
Proof.
  split.
  - exact amm_sha_shape.
  - apply NoDup_collision_free, (bool_decide_unpack _). vm_compute. exact I.
  - apply collision_free_decide. vm_compute. reflexivity.
  - intros x. unfold ids. rewrite !elem_of_union, !elem_of_singleton.
    intros [[[[-> | ->] | ->] | ->] | ->]; by vm_compute.
  - apply (bool_decide_unpack _). vm_compute. exact I.
  - apply (bool_decide_unpack _). vm_compute. exact I.
  - intros a b Ha Hb Hab. rewrite (sample_pool a b Ha Hb Hab).
    change (lp_mint_id sha pid) with lp. revert Ha Hb. unfold T. rewrite !elem_of_union, !elem_of_singleton.
    intros Ha Hb. split_and!; [apply (bool_decide_unpack _); vm_compute; exact I..| |]; 
      [destruct Ha as [-> | ->]|destruct Hb as [-> | ->]]; apply Z.eqb_neq; reflexivity.
Qed.

Definition ops : list AmmOp :=
  [AmmToken (OpCreateMint 3 6 1); AmmToken (OpCreateMint 7 6 1);
   AmmToken (OpMintTo 3 1 1000000 1); AmmToken (OpMintTo 7 1 1000000 1);
   AmmCreate 3 7; AmmAdd 3 7 1 1000 4000; AmmSwap 7 3 1 500 100; AmmSwap 7 3 1 500 200].

Lemma sample_token op : token_op_ok ids op -> by_caller 1 op -> amm_op_ok sha ids T users (AmmToken op).
Proof.
  intros Hop Hby. split; [done|]. exists 1. split_and!; [apply (bool_decide_unpack _); vm_compute; exact I|done|].
  intros a b Ha Hb. destruct (decide (a = b)) as [->|Hab]; [|by rewrite sample_pool].
  revert Ha. unfold T. rewrite elem_of_union, !elem_of_singleton. intros [-> | ->]; by vm_compute.
Qed.

Lemma sample_ops : Forall (amm_op_ok sha ids T users) ops.
Proof.
  unfold ops. repeat apply Forall_cons_2; [apply sample_token..| | | | |constructor].
  all: try done.
  all: cbn; split_and!; try (apply (bool_decide_unpack _); vm_compute; exact I); unfold is_byte, is_u64, u64_max; lia.
Qed.

Lemma sample_swap x lo : is_u64 x -> amm_op_ok sha ids T users (AmmSwap 3 7 1 x lo).
Proof. intros Hx. cbn. split_and!; [apply (bool_decide_unpack _); vm_compute; exact I..|done]. Qed.

Definition world : World := run_amms sha (state_new, ∅) ops.

Definition pool : Pool :=
  {| pool_key := pid; pool_token_a := 3; pool_token_b := 7; reserve_a := 890; reserve_b := 4500;
     pool_lp_mint := lp; lp_supply := 2000 |}.

Lemma sample_world : get_pool sha (snd world) 3 7 = Some pool /\ balance_of sha (fst world) lp 1 = 2000 /\
  balance_of sha (fst world) 3 1 = 999110.
Proof. vm_compute. done. Qed.
End SampleAmm.

Lemma amm_pools_backed_witness :
  let '(t', pools) := SampleAmm.world in
  forall a b p, get_pool SampleAmm.sha pools a b = Some p ->
    reserve_a p <= balance_of SampleAmm.sha t' (pool_token_a p) (pool_key p) /\
    reserve_b p <= balance_of SampleAmm.sha t' (pool_token_b p) (pool_key p) /\
    lp_supply p * lp_supply p <= reserve_a p * reserve_b p /\
    exists meta, get_mint_meta SampleAmm.sha t' (pool_lp_mint p) = Some meta /\
      supply meta - balance_of SampleAmm.sha t' (pool_lp_mint p) (pool_key p) <= lp_supply p.
Proof.
  exact (amm_pools_backed SampleAmm.sha SampleAmm.ids SampleAmm.T SampleAmm.users state_new SampleAmm.ops
    SampleAmm.sample_setting eq_refl SampleAmm.sample_ops).
Defined.

(** A swap that takes most of the cheaper token. *)
Lemma amm_shares_keep_value_witness :
  let w := SampleAmm.world in
  let op := AmmSwap 3 7 1 900000 1 in
  (forall pid p, snd w !! pid = Some p ->
    exists p', snd (run_amm SampleAmm.sha w op) !! pid = Some p' /\
      reserve_a p * reserve_b p * (lp_supply p' * lp_supply p') <=
      reserve_a p' * reserve_b p' * (lp_supply p * lp_supply p)) /\
  (reserve_b <$> get_pool SampleAmm.sha (snd (run_amm SampleAmm.sha w op)) 3 7) = Some 5.
Proof.
  split; [|vm_compute; reflexivity].
  exact (amm_shares_keep_value SampleAmm.sha SampleAmm.ids SampleAmm.T SampleAmm.users state_new SampleAmm.ops
    (AmmSwap 3 7 1 900000 1) SampleAmm.sample_setting eq_refl SampleAmm.sample_ops
    (SampleAmm.sample_swap 900000 1 ltac:(unfold is_u64, u64_max; lia))).
Defined.

(** Half of the shares. *)
Lemma shares_redeemable_witness :
  let w := SampleAmm.world in
  exists t' pools', remove_liquidity SampleAmm.sha 3 7 1 1000 w = ((t', pools'), Ok (445, 2250)) /\
    balance_of SampleAmm.sha t' 3 1 = balance_of SampleAmm.sha (fst w) 3 1 + 445 /\
    balance_of SampleAmm.sha t' 7 1 = balance_of SampleAmm.sha (fst w) 7 1 + 2250 /\
    balance_of SampleAmm.sha t' SampleAmm.lp 1 = balance_of SampleAmm.sha (fst w) SampleAmm.lp 1 - 1000.
Proof.
  destruct SampleAmm.sample_world as (Hp & Hb & _).
  apply (shares_redeemable SampleAmm.sha SampleAmm.ids SampleAmm.T SampleAmm.users state_new SampleAmm.ops
    3 7 1 1000 SampleAmm.pool SampleAmm.sample_setting eq_refl SampleAmm.sample_ops Hp).
  - unfold SampleAmm.users. set_solver.
  - change (0 < 1000 <= balance_of SampleAmm.sha (fst SampleAmm.world) SampleAmm.lp 1). rewrite Hb. lia.
  - reflexivity.
  - reflexivity.
Defined.

(** 4.6 of a token of 18 decimals, into a pool of 4.6 and 4.6. *)
Lemma swap_price_exact_witness :
  amount_out (2 ^ 62) (2 ^ 62) (2 ^ 62) < 2 ^ 62 * 997 * 2 ^ 62 / (2 ^ 62 * 1000 + 2 ^ 62 * 997) /\
  amount_out (2 ^ 62) (2 ^ 62) (2 ^ 62) * 100 < 2 ^ 62.
Proof.
  split; [|vm_compute; reflexivity].
  apply (swap_price_exact (2 ^ 62) (2 ^ 62) (2 ^ 62)); unfold u64_max; lia.
Defined.
