(* ===== verification/Omni.v ===== *)
(** The bridge of ACE DeFi: external assets, their reserves and the canonical
    oAssets minted against them (ace-defi/src: types.rs, canonical.rs, reserve.rs,
    risk.rs, compartment.rs, intent.rs, wire.rs, and the oAsset parts of deposit.rs
    and withdraw.rs).

    Every record is stored in chunks in slots of the bridge authority's account.
    A function that takes [&mut StateTree] is a computation of [StateM]; one that
    takes [&StateTree] reads a state.  Third-party code is an argument: SHA-256,
    the check of Ed25519 signatures ([DefiEnv]), and bincode, one instance of
    [Bincode] for each type of record.  Texts of errors are the static part of the
    texts of the source. *)

From S2P Require Import Prelude SigAlgo ValidatorSet Account StateTree Slots StateM.
From S2P Require Import Wire Payload Transaction Engine Token.
Local Open Scope Z_scope.
Local Open Scope ace_scope.

(* ------------------------------------------------------------------ *)
(** * Assets *)

Inductive ExternalChain : Type :=
| Ethereum
| Solana
| Bitcoin
| Tron
| Bsc.

#[global] Instance ExternalChain_eq_dec : EqDecision ExternalChain.
Proof. solve_decision. Defined.

Definition chain_number (c : ExternalChain) : Z :=
  match c with
  | Ethereum => 1
  | Solana => 2
  | Bitcoin => 3
  | Tron => 4
  | Bsc => 5
  end.

Definition chain_name (c : ExternalChain) : string :=
  match c with
  | Ethereum => "ethereum"
  | Solana => "solana"
  | Bitcoin => "bitcoin"
  | Tron => "tron"
  | Bsc => "bsc"
  end.

Definition all_chains : list ExternalChain := [Ethereum; Solana; Bitcoin; Tron; Bsc].

Inductive ExternalAsset : Type :=
| Native (c : ExternalChain)
| Erc20 (addr : Z)
| Bep20 (addr : Z)
| SplToken (mint : Z)
| Trc20 (addr : Z).

#[global] Instance ExternalAsset_eq_dec : EqDecision ExternalAsset.
Proof. solve_decision. Defined.

Definition asset_chain (a : ExternalAsset) : ExternalChain :=
  match a with
  | Native c => c
  | Erc20 _ => Ethereum
  | Bep20 _ => Bsc
  | SplToken _ => Solana
  | Trc20 _ => Tron
  end.

Definition label (a : ExternalAsset) : list Z :=
  match a with
  | Native c => ascii_bytes (chain_name c) ++ ascii_bytes ":native"
  | Erc20 addr => ascii_bytes "ethereum:erc20:" ++ be_bytes 20 addr
  | Bep20 addr => ascii_bytes "bsc:bep20:" ++ be_bytes 20 addr
  | SplToken mint => ascii_bytes "solana:spl:" ++ be_bytes 32 mint
  | Trc20 addr => ascii_bytes "tron:trc20:" ++ be_bytes 20 addr
  end.

Definition native_decimals (c : ExternalChain) : Z :=
  match c with
  | Ethereum => 18
  | Solana => 9
  | Bitcoin => 8
  | Tron => 6
  | Bsc => 18
  end.

(** The tagged form of an asset in payloads (runtime.rs, wire.rs). *)
Definition encode_asset (a : ExternalAsset) : list Z :=
  match a with
  | Native c => [1; chain_number c]
  | Erc20 addr => 2 :: be_bytes 20 addr
  | Bep20 addr => 5 :: be_bytes 20 addr
  | SplToken mint => 3 :: be_bytes 32 mint
  | Trc20 addr => 4 :: be_bytes 20 addr
  end.

Definition chain_from_number (n : Z) : option ExternalChain :=
  if n =? 1 then Some Ethereum
  else if n =? 2 then Some Solana
  else if n =? 3 then Some Bitcoin
  else if n =? 4 then Some Tron
  else if n =? 5 then Some Bsc
  else None.

Definition decode_asset_for_wire (data : list Z) : result DecodeError (ExternalAsset * nat) :=
  match data with
  | [] => Err (Rejected "empty asset tag")
  | tag :: _ =>
      if tag =? 1 then
        if (length data <? 2)%nat then Err (Rejected "missing chain id")
        else
          let? n := read_byte 1 data in
          let? chain := ok_or (chain_from_number n) (Rejected "unknown native chain id") in
          Ok (Native chain, 2%nat)
      else if tag =? 2 then
        if (length data <? 21)%nat then Err (Rejected "truncated ERC20 asset")
        else let? addr := slice 1 20 data in Ok (Erc20 (be_num addr), 21%nat)
      else if tag =? 3 then
        if (length data <? 33)%nat then Err (Rejected "truncated SPL asset")
        else let? mint := slice 1 32 data in Ok (SplToken (be_num mint), 33%nat)
      else if tag =? 4 then
        if (length data <? 21)%nat then Err (Rejected "truncated TRC20 asset")
        else let? addr := slice 1 20 data in Ok (Trc20 (be_num addr), 21%nat)
      else if tag =? 5 then
        if (length data <? 21)%nat then Err (Rejected "truncated BEP20 asset")
        else let? addr := slice 1 20 data in Ok (Bep20 (be_num addr), 21%nat)
      else Err (Rejected "unknown asset tag")
  end.

(* ------------------------------------------------------------------ *)
(** * Records *)

Record DepositRecord := {
  deposit_id : Z;
  dep_intent_id : Z;
  dep_asset : ExternalAsset;
  dep_amount : Z;
  recipient : AccountId;
  processed_at : Z;
}.

Record SignedDepositRecord := {
  sd_deposit : DepositRecord;
  sd_relayer : Z;
  sd_signature : list Z;
}.

Record WithdrawalRecord := {
  withdrawal_id : Z;
  wd_intent_id : Z;
  wd_asset : ExternalAsset;
  wd_amount : Z;
  wd_sender : AccountId;
  external_dest : list Z;
  requested_at : Z;
  completed : bool;
}.

Definition set_completed (r : WithdrawalRecord) : WithdrawalRecord :=
  {| withdrawal_id := withdrawal_id r; wd_intent_id := wd_intent_id r; wd_asset := wd_asset r;
     wd_amount := wd_amount r; wd_sender := wd_sender r; external_dest := external_dest r;
     requested_at := requested_at r; completed := true |}.

Record WithdrawalCompletionRecord := {
  wc_withdrawal_id : Z;
  destination_chain : ExternalChain;
  external_tx_hash : Z;
  withdrawal_record_hash : Z;
  released_asset : ExternalAsset;
  released_recipient : list Z;
  released_amount : Z;
  gateway_address : list Z;
  wc_relayer : Z;
  wc_signature : list Z;
}.

Record OAssetWithdrawRequest := {
  req_nonce : Z;
  req_intent_id : Z;
  req_canonical : Z;
  req_amount : Z;
  req_target : ExternalAsset;
  req_dest : list Z;
}.

Inductive RiskTier : Type :=
| Tier1
| Tier2
| Tier3
| Experimental.

Record RiskConfig := {
  deposit_paused : bool;
  withdraw_paused : bool;
  max_single_deposit : Z;
  max_single_withdrawal : Z;
  daily_deposit_limit : Z;
  daily_withdrawal_limit : Z;
  finality_blocks : Z;
  required_relayer_quorum : Z;
}.

Definition tier1_stablecoin : RiskConfig :=
  {| deposit_paused := false; withdraw_paused := false;
     max_single_deposit := 1000000000000000000; max_single_withdrawal := 1000000000000000000;
     daily_deposit_limit := u64_max; daily_withdrawal_limit := u64_max;
     finality_blocks := 96; required_relayer_quorum := 1 |}.

Record CanonicalAsset := {
  ca_id : Z;
  ca_symbol : list Z;
  ca_decimals : Z;
  ca_mint : AccountId;
  ca_active : bool;
  ca_risk_tier : RiskTier;
}.

Definition set_active (a : CanonicalAsset) (active : bool) : CanonicalAsset :=
  {| ca_id := ca_id a; ca_symbol := ca_symbol a; ca_decimals := ca_decimals a; ca_mint := ca_mint a;
     ca_active := active; ca_risk_tier := ca_risk_tier a |}.

Record ExternalAssetMapping := {
  em_asset : ExternalAsset;
  em_reserve_mint : AccountId;
  em_canonical : Z;
  external_decimals : Z;
  canonical_decimals : Z;
  mint_enabled : bool;
  withdraw_enabled : bool;
  em_risk : RiskConfig;
}.

Definition set_enabled (m : ExternalAssetMapping) (mint withdraw : bool) : ExternalAssetMapping :=
  {| em_asset := em_asset m; em_reserve_mint := em_reserve_mint m; em_canonical := em_canonical m;
     external_decimals := external_decimals m; canonical_decimals := canonical_decimals m;
     mint_enabled := mint; withdraw_enabled := withdraw; em_risk := em_risk m |}.

Record ReservePosition := {
  rp_asset : ExternalAsset;
  rp_canonical : Z;
  total_deposited : Z;
  total_withdrawn : Z;
  pending_withdrawal : Z;
  available : Z;
  last_updated_slot : Z;
}.

Definition set_position (p : ReservePosition) (deposited withdrawn pending avail slot : Z)
    : ReservePosition :=
  {| rp_asset := rp_asset p; rp_canonical := rp_canonical p; total_deposited := deposited;
     total_withdrawn := withdrawn; pending_withdrawal := pending; available := avail;
     last_updated_slot := slot |}.

Record CanonicalSupply := {
  cs_canonical : Z;
  total_minted : Z;
  total_burned : Z;
  active_supply : Z;
  safety_buffer : Z;
}.

Definition set_supply (s : CanonicalSupply) (minted burned active : Z) : CanonicalSupply :=
  {| cs_canonical := cs_canonical s; total_minted := minted; total_burned := burned;
     active_supply := active; safety_buffer := safety_buffer s |}.

Record CanonicalReserveTotal := {
  rt_canonical : Z;
  backing_total : Z;
}.

Definition new_position (a : ExternalAsset) (canonical : Z) : ReservePosition :=
  {| rp_asset := a; rp_canonical := canonical; total_deposited := 0; total_withdrawn := 0;
     pending_withdrawal := 0; available := 0; last_updated_slot := 0 |}.
Definition new_supply (canonical : Z) : CanonicalSupply :=
  {| cs_canonical := canonical; total_minted := 0; total_burned := 0; active_supply := 0;
     safety_buffer := 0 |}.
Definition new_total (canonical : Z) : CanonicalReserveTotal :=
  {| rt_canonical := canonical; backing_total := 0 |}.

(** A conversion a user asked for (intent.rs). *)
Record ConvertIntent := {
  ci_intent_id : Z;
  source_asset : ExternalAsset;
  ci_source_amount : Z;
  target_asset : ExternalAsset;
  ci_min_amount_out : Z;
  ci_recipient : list Z;
  refund_destination : list Z;
  ci_expiry_slot : Z;
  ci_fee_quote_bps : Z;
  ci_relayer_set_id : Z;
  ci_nonce : Z;
}.

Inductive RiskCompartmentKind : Type :=
| CompartmentCanonicalAsset
| CompartmentExternalAssetMapping
| CompartmentLiquidityPool
| CompartmentLiquidMarket
| CompartmentWithdrawalRoute
| CompartmentRelayerSet
| CompartmentOracleFeed.

Definition compartment_label (k : RiskCompartmentKind) : string :=
  match k with
  | CompartmentCanonicalAsset => "canonical-asset"
  | CompartmentExternalAssetMapping => "external-asset-mapping"
  | CompartmentLiquidityPool => "liquidity-pool"
  | CompartmentLiquidMarket => "liquid-market"
  | CompartmentWithdrawalRoute => "withdrawal-route"
  | CompartmentRelayerSet => "relayer-set"
  | CompartmentOracleFeed => "oracle-feed"
  end.

Inductive BridgeError : Type :=
| AssetNotRegistered
| DepositAlreadyProcessed (id : Z)
| RiskLimitExceeded (msg : string)
| InvalidDepositProof (msg : string)
| BridgeInsufficientBalance (have need : Z)
| WithdrawalNotFound (id : Z)
| WithdrawalAlreadyCompleted (id : Z)
| MintError (msg : string)
| BurnError (msg : string)
| InvalidAmount
| InvalidDestination
| AuthorityMismatch
| BridgeSerialization (msg : string)
| CanonicalAssetAlreadyExists
| CanonicalAssetNotFound (id : Z)
| CanonicalAssetInactive
| InvalidCanonicalSymbol
| InvalidDecimals (d : Z)
| ExternalAssetAlreadyMapped
| AssetNotMapped
| MappingMismatch
| MintDisabled
| WithdrawDisabled
| DepositPaused
| WithdrawPaused
| LimitExceeded (msg : string)
| AmountTooSmall
| InsufficientReserve (have need : Z)
| ReserveInvariantViolation
| BridgeArithmeticOverflow.

(** bincode, for a type of record. *)
Class Bincode (T : Type) := {
  encode : T -> result string (list Z);
  decode : list Z -> result string T;
}.

(** [VerifyingKey::from_bytes] and [verify_strict] of ed25519-dalek, and the
    feature [devnet]. *)
Class DefiEnv := {
  ed_from_bytes : Z -> bool;
  ed_verify_strict : Z -> list Z -> list Z -> bool;
  defi_devnet : bool;
}.

Definition decode_message (e : DecodeError) : string :=
  match e with
  | Rejected msg => msg
  | Panicked => "panic"
  end.

Section omni.
Context (sha256 : list Z -> list Z) {Env : DefiEnv}.
Context {B1 : Bincode CanonicalAsset} {B2 : Bincode ExternalAssetMapping} {B3 : Bincode ReservePosition}.
Context {B4 : Bincode CanonicalSupply} {B5 : Bincode CanonicalReserveTotal} {B6 : Bincode WithdrawalRecord}.

Definition wrapped_mint_id (a : ExternalAsset) : AccountId :=
  digest sha256 (ascii_bytes "ace-wrapped:" ++ label a).

Definition bridge_authority_id : AccountId := digest sha256 (ascii_bytes "ace-bridge-authority").

Definition hash_deposit_record (d : DepositRecord) : Z :=
  let l := label (dep_asset d) in
  digest sha256 (ascii_bytes "ace-deposit-v1:" ++ be_bytes 32 (deposit_id d) ++
    be_bytes 32 (dep_intent_id d) ++ le_bytes 4 (Z.of_nat (length l)) ++ l ++
    le_bytes 8 (dep_amount d) ++ be_bytes 32 (recipient d)).

Definition hash_withdrawal_completion (c : WithdrawalCompletionRecord) : Z :=
  let l := label (released_asset c) in
  digest sha256 (ascii_bytes "ace-withdrawal-completed-v1:" ++ le_bytes 8 (wc_withdrawal_id c) ++
    [chain_number (destination_chain c)] ++ be_bytes 32 (external_tx_hash c) ++
    be_bytes 32 (withdrawal_record_hash c) ++ le_bytes 4 (Z.of_nat (length l)) ++ l ++
    le_bytes 4 (Z.of_nat (length (released_recipient c))) ++ released_recipient c ++
    le_bytes 8 (released_amount c) ++
    le_bytes 4 (Z.of_nat (length (gateway_address c))) ++ gateway_address c ++
    be_bytes 32 (wc_relayer c)).

(** Intents of conversions (intent.rs). *)
Definition labelled (a : ExternalAsset) : list Z := le_bytes 4 (Z.of_nat (length (label a))) ++ label a.

Definition compute_intent_id (source : ExternalAsset) (source_amount : Z) (target : ExternalAsset)
    (min_amount_out : Z) (dest refund : list Z) (expiry_slot fee_quote_bps relayer_set_id nonce : Z) : Z :=
  digest sha256 (ascii_bytes "ace-defi:convert-intent:v1" ++ labelled source ++ le_bytes 8 source_amount ++
    labelled target ++ le_bytes 8 min_amount_out ++ le_bytes 4 (Z.of_nat (length dest)) ++ dest ++
    le_bytes 4 (Z.of_nat (length refund)) ++ refund ++ le_bytes 8 expiry_slot ++ le_bytes 8 fee_quote_bps ++
    le_bytes 8 relayer_set_id ++ le_bytes 8 nonce).

Definition convert_intent_new (source : ExternalAsset) (source_amount : Z) (target : ExternalAsset)
    (min_amount_out : Z) (dest refund : list Z) (expiry_slot fee_quote_bps relayer_set_id nonce : Z)
    : ConvertIntent :=
  {| ci_intent_id := compute_intent_id source source_amount target min_amount_out dest refund
       expiry_slot fee_quote_bps relayer_set_id nonce;
     source_asset := source; ci_source_amount := source_amount; target_asset := target;
     ci_min_amount_out := min_amount_out; ci_recipient := dest; refund_destination := refund;
     ci_expiry_slot := expiry_slot; ci_fee_quote_bps := fee_quote_bps;
     ci_relayer_set_id := relayer_set_id; ci_nonce := nonce |}.

Definition validate_id (i : ConvertIntent) : bool :=
  ci_intent_id i =? compute_intent_id (source_asset i) (ci_source_amount i) (target_asset i)
    (ci_min_amount_out i) (ci_recipient i) (refund_destination i) (ci_expiry_slot i)
    (ci_fee_quote_bps i) (ci_relayer_set_id i) (ci_nonce i).

(** Risk compartments (compartment.rs). *)
Definition risk_compartment_id (kind : RiskCompartmentKind) (key : list Z) : Z :=
  digest sha256 (ascii_bytes "ace:risk-compartment:v1:" ++ ascii_bytes (compartment_label kind) ++
    le_bytes 4 (Z.of_nat (length key)) ++ key).
Definition canonical_asset_compartment_id (id : Z) : Z :=
  risk_compartment_id CompartmentCanonicalAsset (be_bytes 32 id).
Definition external_asset_mapping_compartment_id (a : ExternalAsset) : Z :=
  risk_compartment_id CompartmentExternalAssetMapping (label a).
Definition withdrawal_route_compartment_id (a : ExternalAsset) (destination : list Z) : Z :=
  risk_compartment_id CompartmentWithdrawalRoute
    (label a ++ le_bytes 4 (Z.of_nat (length destination)) ++ destination).

(** The account of a recipient on an external chain (deposit.rs). *)
Definition recipient_from_evm_address (t : StateTree) (addr : Z) : AccountId :=
  default (legacy_idcom_evm sha256 addr) (evm_index t !! addr).
Definition recipient_from_solana_pubkey (t : StateTree) (pubkey : Z) : AccountId :=
  default (legacy_idcom_solana sha256 pubkey) (solana_index t !! pubkey).
Definition legacy_idcom_btc (compressed_pubkey : list Z) : AccountId :=
  digest sha256 (ascii_bytes "ace-legacy-btc" ++ compressed_pubkey).
Definition recipient_from_btc_pubkey (t : StateTree) (compressed_pubkey : list Z) : AccountId :=
  default (legacy_idcom_btc compressed_pubkey) (btc_index t !! compressed_pubkey).
Definition recipient_from_tron_address (t : StateTree) (addr : Z) : AccountId :=
  default (legacy_idcom_tron sha256 addr) (tron_index t !! addr).

(* ------------------------------------------------------------------ *)
(** * Records in the storage *)

(** [domain_slot] of canonical.rs and of wire.rs. *)
Definition omni_slot (domain : string) (data : list Z) : Z :=
  digest sha256 (ascii_bytes domain ++ data).

Fixpoint write_chunk_slots (t : StateTree) (slot : Z -> Z) (idx : Z) (chunks : list (list Z))
    : StateTree :=
  match chunks with
  | [] => t
  | chunk :: chunks =>
      let t := set_storage t bridge_authority_id (slot idx) (chunk_value chunk) in
      write_chunk_slots t slot (idx + 1) chunks
  end.

(** The bytes of a record in the slots of its count, its length and its chunks. *)
Definition store_bytes (count len : Z) (slot : Z -> Z) (bytes : list Z) (t : StateTree) : StateTree :=
  let chunks := chunks32 (length bytes) bytes in
  let t := write_slot_u64 t bridge_authority_id count (Z.of_nat (length chunks)) in
  let t := write_slot_u64 t bridge_authority_id len (Z.of_nat (length bytes)) in
  write_chunk_slots t slot 0 chunks.

Fixpoint read_chunk_slots (t : StateTree) (slot : Z -> Z) (idx : Z) (n : nat) : list Z :=
  match n with
  | O => []
  | S n =>
      be_bytes 32 (get_storage t bridge_authority_id (slot idx)) ++ read_chunk_slots t slot (idx + 1) n
  end.

Definition load_bytes (count len : Z) (slot : Z -> Z) (msg : string) (t : StateTree)
    : result BridgeError (option (list Z)) :=
  let chunks := slot_u64 t bridge_authority_id count in
  if chunks =? 0 then Ok None
  else
    let byte_len := slot_u64 t bridge_authority_id len in
    let bytes := read_chunk_slots t slot 0 (Z.to_nat chunks) in
    if Z.of_nat (length bytes) <? byte_len then Err (BridgeSerialization msg)
    else Ok (Some (take (Z.to_nat byte_len) bytes)).

Definition record_slot (domain : string) (key idx : Z) : Z :=
  omni_slot domain (be_bytes 32 key ++ le_bytes 8 idx).

Definition put_record {T} `{!Bincode T} (key : Z) (value : T) : M BridgeError unit :=
  match encode value with
  | Err e => fail (BridgeSerialization e)
  | Ok bytes =>
      modify (store_bytes (record_slot "omni:record-chunks:v1:" key 0)
        (record_slot "omni:record-len:v1:" key 0) (record_slot "omni:record-chunk:v1:" key) bytes)
  end.

Definition get_record {T} `{!Bincode T} (t : StateTree) (key : Z) : result BridgeError (option T) :=
  let? found := load_bytes (record_slot "omni:record-chunks:v1:" key 0)
    (record_slot "omni:record-len:v1:" key 0) (record_slot "omni:record-chunk:v1:" key)
    "record byte length exceeds stored chunks" t in
  match found with
  | None => Ok None
  | Some bytes =>
      match decode bytes with
      | Ok v => Ok (Some v)
      | Err e => Err (BridgeSerialization e)
      end
  end.

Definition canonical_slot (id : Z) : Z := omni_slot "omni:canonical-asset:v1:" (be_bytes 32 id).
Definition mapping_slot (a : ExternalAsset) : Z := omni_slot "omni:external-mapping:v1:" (label a).
Definition reserve_slot (a : ExternalAsset) : Z := omni_slot "omni:reserve-position:v1:" (label a).
Definition supply_slot (id : Z) : Z := omni_slot "omni:canonical-supply:v1:" (be_bytes 32 id).
Definition reserve_total_slot (id : Z) : Z :=
  omni_slot "omni:canonical-reserve-total:v1:" (be_bytes 32 id).

(** A pure reading of the state inside a computation. *)
Definition reads {A} (f : StateTree -> result BridgeError A) : M BridgeError A := fun t => (t, f t).

Definition get_canonical_asset (t : StateTree) (id : Z) : result BridgeError (option CanonicalAsset) :=
  get_record t (canonical_slot id).
Definition get_mapping (t : StateTree) (a : ExternalAsset)
    : result BridgeError (option ExternalAssetMapping) :=
  get_record t (mapping_slot a).
Definition get_position (t : StateTree) (a : ExternalAsset)
    : result BridgeError (option ReservePosition) :=
  get_record t (reserve_slot a).
Definition get_supply (t : StateTree) (id : Z) : result BridgeError (option CanonicalSupply) :=
  get_record t (supply_slot id).
Definition get_reserve_total (t : StateTree) (id : Z)
    : result BridgeError (option CanonicalReserveTotal) :=
  get_record t (reserve_total_slot id).

(* ------------------------------------------------------------------ *)
(** * Reserves *)

Definition init_position (a : ExternalAsset) (canonical : Z) : M BridgeError unit :=
  let! found := reads (fun t => get_position t a) in
  match found with
  | Some _ => ret tt
  | None => put_record (reserve_slot a) (new_position a canonical)
  end.

Definition init_supply (canonical : Z) : M BridgeError unit :=
  let! found := reads (fun t => get_supply t canonical) in
  match found with
  | Some _ => ret tt
  | None =>
      do! put_record (supply_slot canonical) (new_supply canonical) in
      put_record (reserve_total_slot canonical) (new_total canonical)
  end.

Definition increase_reserve_total (canonical amount : Z) : M BridgeError Z :=
  let! found := reads (fun t => get_reserve_total t canonical) in
  let total := default (new_total canonical) found in
  let! new := require (u64_checked_add (backing_total total) amount) BridgeArithmeticOverflow in
  do! put_record (reserve_total_slot canonical)
        {| rt_canonical := rt_canonical total; backing_total := new |} in
  ret new.

Definition decrease_reserve_total (canonical amount : Z) : M BridgeError Z :=
  let! found := reads (fun t => get_reserve_total t canonical) in
  let! total := require found (CanonicalAssetNotFound canonical) in
  do! fail_if (backing_total total <? amount)
        (InsufficientReserve (backing_total total) amount) in
  let new := backing_total total - amount in
  do! put_record (reserve_total_slot canonical)
        {| rt_canonical := rt_canonical total; backing_total := new |} in
  ret new.

Definition record_deposit (a : ExternalAsset) (canonical amount slot : Z) : M BridgeError unit :=
  do! fail_if (amount =? 0) InvalidAmount in
  let! found := reads (fun t => get_position t a) in
  let p := default (new_position a canonical) found in
  do! fail_if (negb (rp_canonical p =? canonical)) MappingMismatch in
  let! deposited := require (u64_checked_add (total_deposited p) amount) BridgeArithmeticOverflow in
  let! avail := require (u64_checked_add (available p) amount) BridgeArithmeticOverflow in
  do! put_record (reserve_slot a)
        (set_position p deposited (total_withdrawn p) (pending_withdrawal p) avail slot) in
  do! increase_reserve_total canonical amount in
  ret tt.

Definition reserve_withdrawal (a : ExternalAsset) (canonical amount slot : Z) : M BridgeError unit :=
  do! fail_if (amount =? 0) InvalidAmount in
  let! found := reads (fun t => get_position t a) in
  let! p := require found AssetNotMapped in
  do! fail_if (negb (rp_canonical p =? canonical)) MappingMismatch in
  do! fail_if (available p <? amount) (InsufficientReserve (available p) amount) in
  let avail := available p - amount in
  let! pending :=
    require (u64_checked_add (pending_withdrawal p) amount) BridgeArithmeticOverflow in
  put_record (reserve_slot a)
    (set_position p (total_deposited p) (total_withdrawn p) pending avail slot).

Definition finalize_withdrawal (a : ExternalAsset) (amount slot : Z) : M BridgeError unit :=
  let! found := reads (fun t => get_position t a) in
  let! p := require found AssetNotMapped in
  do! fail_if (pending_withdrawal p <? amount)
        (InsufficientReserve (pending_withdrawal p) amount) in
  let pending := pending_withdrawal p - amount in
  let! withdrawn := require (u64_checked_add (total_withdrawn p) amount) BridgeArithmeticOverflow in
  do! put_record (reserve_slot a)
        (set_position p (total_deposited p) withdrawn pending (available p) slot) in
  do! decrease_reserve_total (rp_canonical p) amount in
  ret tt.

Definition cancel_withdrawal (a : ExternalAsset) (amount slot : Z) : M BridgeError unit :=
  let! found := reads (fun t => get_position t a) in
  let! p := require found AssetNotMapped in
  do! fail_if (pending_withdrawal p <? amount)
        (InsufficientReserve (pending_withdrawal p) amount) in
  let pending := pending_withdrawal p - amount in
  let! avail := require (u64_checked_add (available p) amount) BridgeArithmeticOverflow in
  put_record (reserve_slot a)
    (set_position p (total_deposited p) (total_withdrawn p) pending avail slot).

Definition active_supply_of (t : StateTree) (canonical : Z) : result BridgeError Z :=
  let? found := get_supply t canonical in Ok (default 0 (active_supply <$> found)).

Definition increase_supply (canonical amount : Z) : M BridgeError unit :=
  let! found := reads (fun t => get_supply t canonical) in
  let s := default (new_supply canonical) found in
  let! minted := require (u64_checked_add (total_minted s) amount) BridgeArithmeticOverflow in
  let! active := require (u64_checked_add (active_supply s) amount) BridgeArithmeticOverflow in
  put_record (supply_slot canonical) (set_supply s minted (total_burned s) active).

Definition decrease_supply (canonical amount : Z) : M BridgeError unit :=
  let! found := reads (fun t => get_supply t canonical) in
  let! s := require found (CanonicalAssetNotFound canonical) in
  do! fail_if (active_supply s <? amount) (BridgeInsufficientBalance (active_supply s) amount) in
  let! burned := require (u64_checked_add (total_burned s) amount) BridgeArithmeticOverflow in
  put_record (supply_slot canonical)
    (set_supply s (total_minted s) burned (active_supply s - amount)).

Definition reserve_total (t : StateTree) (canonical : Z) : result BridgeError Z :=
  let? found := get_reserve_total t canonical in Ok (default 0 (backing_total <$> found)).

Definition check_invariant (t : StateTree) (canonical : Z) : result BridgeError unit :=
  let? found := get_supply t canonical in
  let s := default (new_supply canonical) found in
  let? total := reserve_total t canonical in
  let? needed :=
    ok_or (u64_checked_add (active_supply s) (safety_buffer s)) BridgeArithmeticOverflow in
  if total <? needed then Err ReserveInvariantViolation else Ok tt.

(* ------------------------------------------------------------------ *)
(** * Risk limits *)

Definition check_supported_quorum (r : RiskConfig) : result BridgeError unit :=
  if negb (required_relayer_quorum r =? 1)
  then Err (LimitExceeded "relayer quorum is not supported by single-signature wire format")
  else Ok tt.

Definition check_deposit (r : RiskConfig) (amount : Z) : result BridgeError unit :=
  let? _ := check_supported_quorum r in
  if deposit_paused r then Err DepositPaused
  else if max_single_deposit r <? amount
  then Err (LimitExceeded "deposit amount exceeds single deposit limit")
  else Ok tt.

Definition check_withdrawal (r : RiskConfig) (amount : Z) : result BridgeError unit :=
  let? _ := check_supported_quorum r in
  if withdraw_paused r then Err WithdrawPaused
  else if max_single_withdrawal r <? amount
  then Err (LimitExceeded "withdrawal amount exceeds single withdrawal limit")
  else Ok tt.

Definition daily_counter_slot (domain : string) (a : ExternalAsset) (day : Z) : Z :=
  digest sha256 (ascii_bytes domain ++ label a ++ le_bytes 8 day).

Definition SLOT_DURATION_MS : Z := if defi_devnet then 500 else 400.
Definition slots_per_day : Z := Z.max (86400000 / SLOT_DURATION_MS) 1.

Definition record_daily_limit (domain : string) (a : ExternalAsset) (amount slot limit : Z)
    : M BridgeError unit :=
  if limit =? u64_max then ret tt
  else
    let day := slot / slots_per_day in
    let counter_slot := daily_counter_slot domain a day in
    let! current := gets (fun t => slot_u64 t bridge_authority_id counter_slot) in
    let! next := require (u64_checked_add current amount) BridgeArithmeticOverflow in
    do! fail_if (limit <? next) (LimitExceeded "daily amount exceeds limit") in
    modify (fun t => write_slot_u64 t bridge_authority_id counter_slot next).

Definition check_and_record_deposit (r : RiskConfig) (a : ExternalAsset) (amount slot : Z)
    : M BridgeError unit :=
  do! lift (check_deposit r amount) in
  record_daily_limit "omni:risk-daily-deposit:v1:" a amount slot (daily_deposit_limit r).

Definition check_and_record_withdrawal (r : RiskConfig) (a : ExternalAsset) (amount slot : Z)
    : M BridgeError unit :=
  do! lift (check_withdrawal r amount) in
  record_daily_limit "omni:risk-daily-withdraw:v1:" a amount slot (daily_withdrawal_limit r).

(* ------------------------------------------------------------------ *)
(** * Canonical assets *)

Definition validate_decimals (d : Z) : result BridgeError unit :=
  if 18 <? d then Err (InvalidDecimals d) else Ok tt.

Definition is_ascii_alphanumeric (b : Z) : bool :=
  ((48 <=? b) && (b <=? 57)) || ((65 <=? b) && (b <=? 90)) || ((97 <=? b) && (b <=? 122)).

Definition validate_symbol (symbol : list Z) : result BridgeError unit :=
  if (length symbol =? 0)%nat || (16 <? length symbol)%nat then Err InvalidCanonicalSymbol
  else if negb (forallb is_ascii_alphanumeric symbol) then Err InvalidCanonicalSymbol
  else Ok tt.

Definition canonical_asset_id (symbol : list Z) (decimals : Z) : result BridgeError Z :=
  let? _ := validate_symbol symbol in
  let? _ := validate_decimals decimals in
  Ok (digest sha256 (ascii_bytes "omni-canonical-asset:v1:" ++ le_bytes 2 (Z.of_nat (length symbol)) ++
        symbol ++ [decimals])).

Definition oasset_mint_id (id : Z) : AccountId :=
  digest sha256 (ascii_bytes "omni-oasset-mint:v1:" ++ be_bytes 32 id).

(** [10u64.checked_pow(n)]. *)
Definition checked_pow10 (n : Z) : option Z := if 10 ^ n <=? u64_max then Some (10 ^ n) else None.
Definition u64_checked_mul (a b : Z) : option Z := if a * b <=? u64_max then Some (a * b) else None.

Definition normalize_amount (amount from_decimals to_decimals : Z) : result BridgeError Z :=
  let? _ := validate_decimals from_decimals in
  let? _ := validate_decimals to_decimals in
  if amount =? 0 then Err InvalidAmount
  else if from_decimals =? to_decimals then Ok amount
  else if from_decimals <? to_decimals then
    let? scale := ok_or (checked_pow10 (to_decimals - from_decimals)) BridgeArithmeticOverflow in
    ok_or (u64_checked_mul amount scale) BridgeArithmeticOverflow
  else
    let? scale := ok_or (checked_pow10 (from_decimals - to_decimals)) BridgeArithmeticOverflow in
    let normalized := amount / scale in
    if normalized =? 0 then Err AmountTooSmall else Ok normalized.

(** The account of the authority, with the placeholder key. *)
Definition ensure_bridge_authority {E} : M E unit :=
  let! there := contains bridge_authority_id in
  if there : bool then ret tt
  else
    let placeholder := {| pk_algorithm := Ed25519; pk_bytes := replicate 32 0 |} in
    modify (fun t => insert_account sha256 t (set_keys (account_new bridge_authority_id) placeholder [])).

Definition register_canonical_asset (symbol : list Z) (decimals : Z) (tier : RiskTier)
    : M BridgeError CanonicalAsset :=
  do! lift (validate_symbol symbol) in
  do! lift (validate_decimals decimals) in
  let! id := lift (canonical_asset_id symbol decimals) in
  let! known := reads (fun t => get_canonical_asset t id) in
  do! fail_if (bool_decide (is_Some known)) CanonicalAssetAlreadyExists in
  let mint := oasset_mint_id id in
  do! ensure_bridge_authority in
  do! map_err MintError (create_mint sha256 mint decimals bridge_authority_id) in
  let asset := {| ca_id := id; ca_symbol := symbol; ca_decimals := decimals; ca_mint := mint;
                  ca_active := true; ca_risk_tier := tier |} in
  do! put_record (canonical_slot id) asset in
  do! init_supply id in
  ret asset.

Definition set_canonical_asset_active (id : Z) (active : bool) : M BridgeError unit :=
  let! found := reads (fun t => get_canonical_asset t id) in
  let! asset := require found (CanonicalAssetNotFound id) in
  put_record (canonical_slot id) (set_active asset active).

Definition map_external_asset (a : ExternalAsset) (canonical ext_decimals : Z) (risk : RiskConfig)
    : M BridgeError ExternalAssetMapping :=
  do! lift (validate_decimals ext_decimals) in
  let! found := reads (fun t => get_canonical_asset t canonical) in
  let! asset := require found (CanonicalAssetNotFound canonical) in
  do! fail_if (negb (ca_active asset)) CanonicalAssetInactive in
  let! known := reads (fun t => get_mapping t a) in
  do! fail_if (bool_decide (is_Some known)) ExternalAssetAlreadyMapped in
  let reserve_mint := wrapped_mint_id a in
  let! meta := gets (fun t => get_mint_meta sha256 t reserve_mint) in
  do! (match meta with
       | Some _ => ret tt
       | None =>
           do! ensure_bridge_authority in
           do! map_err MintError (create_mint sha256 reserve_mint ext_decimals bridge_authority_id) in
           ret tt
       end) in
  let mapping := {| em_asset := a; em_reserve_mint := reserve_mint; em_canonical := canonical;
                    external_decimals := ext_decimals; canonical_decimals := ca_decimals asset;
                    mint_enabled := true; withdraw_enabled := true; em_risk := risk |} in
  do! put_record (mapping_slot a) mapping in
  do! init_position a canonical in
  ret mapping.

Definition set_mapping_mint_enabled (a : ExternalAsset) (enabled : bool) : M BridgeError unit :=
  let! found := reads (fun t => get_mapping t a) in
  let! m := require found AssetNotMapped in
  put_record (mapping_slot a) (set_enabled m enabled (withdraw_enabled m)).

Definition set_mapping_withdraw_enabled (a : ExternalAsset) (enabled : bool) : M BridgeError unit :=
  let! found := reads (fun t => get_mapping t a) in
  let! m := require found AssetNotMapped in
  put_record (mapping_slot a) (set_enabled m (mint_enabled m) enabled).

(* ------------------------------------------------------------------ *)
(** * Relayers *)

(** [marker[0] = 0x01]. *)
Definition marker : Z := be_num (1 :: replicate 31 0).

Definition relayer_approval_slot (relayer : Z) : Z :=
  omni_slot "ace-defi:relayer-approved:v1:" (be_bytes 32 relayer).

Definition approve_relayer_in_state (t : StateTree) (relayer : Z) : StateTree :=
  set_storage t bridge_authority_id (relayer_approval_slot relayer) marker.

Definition is_relayer_approved_in_state (t : StateTree) (relayer : Z) : bool :=
  byte_of (get_storage t bridge_authority_id (relayer_approval_slot relayer)) 0 =? 1.

(** [from_bytes] of the key and [verify_strict] of the 32 bytes of a hash. *)
Definition verify_relayer (relayer hash : Z) (signature : list Z) : result BridgeError unit :=
  if negb (ed_from_bytes relayer) then Err (InvalidDepositProof "invalid relayer pubkey")
  else if negb (ed_verify_strict relayer (be_bytes 32 hash) signature)
  then Err (InvalidDepositProof "invalid signature")
  else Ok tt.

Definition verify_signed_deposit_signature (s : SignedDepositRecord) : result BridgeError unit :=
  verify_relayer (sd_relayer s) (hash_deposit_record (sd_deposit s)) (sd_signature s).

Definition verify_signed_deposit_against_state (t : StateTree) (s : SignedDepositRecord)
    : result BridgeError unit :=
  if negb (is_relayer_approved_in_state t (sd_relayer s))
  then Err (InvalidDepositProof "relayer not in state-approved set")
  else verify_signed_deposit_signature s.

(* ------------------------------------------------------------------ *)
(** * The index of withdrawals *)

Definition withdrawal_index_count_slot : Z := omni_slot "ace-defi:withdrawal-index-count:v1" [].
Definition withdrawal_index_id_slot (index : Z) : Z :=
  omni_slot "ace-defi:withdrawal-index-id:v1:" (le_bytes 8 index).
Definition withdrawal_record_chunk_count_slot (id : Z) : Z :=
  omni_slot "ace-defi:withdrawal-record-chunks:v1:" (le_bytes 8 id).
Definition withdrawal_record_len_slot (id : Z) : Z :=
  omni_slot "ace-defi:withdrawal-record-len:v1:" (le_bytes 8 id).
Definition withdrawal_record_chunk_slot (id idx : Z) : Z :=
  omni_slot "ace-defi:withdrawal-record-chunk:v1:" (le_bytes 8 id ++ le_bytes 8 idx).

Definition load_indexed_withdrawal_record (t : StateTree) (id : Z)
    : result BridgeError (option WithdrawalRecord) :=
  let? found := load_bytes (withdrawal_record_chunk_count_slot id) (withdrawal_record_len_slot id)
    (withdrawal_record_chunk_slot id) "withdrawal byte length exceeds stored chunks" t in
  match found with
  | None => Ok None
  | Some bytes =>
      match decode bytes with
      | Ok r => Ok (Some r)
      | Err e => Err (BridgeSerialization "withdrawal decode failed")
      end
  end.

Definition write_withdrawal_record (r : WithdrawalRecord) : M BridgeError unit :=
  let id := withdrawal_id r in
  match encode r with
  | Err e => fail (BridgeSerialization e)
  | Ok bytes =>
      modify (store_bytes (withdrawal_record_chunk_count_slot id) (withdrawal_record_len_slot id)
        (withdrawal_record_chunk_slot id) bytes)
  end.

Definition index_withdrawal_record (r : WithdrawalRecord) : M BridgeError unit :=
  let! existing := reads (fun t => load_indexed_withdrawal_record t (withdrawal_id r)) in
  do! (match existing with
       | Some _ => ret tt
       | None =>
           let owner := bridge_authority_id in
           let! index := gets (fun t => slot_u64 t owner withdrawal_index_count_slot) in
           do! modify (fun t => write_slot_u64 t owner (withdrawal_index_id_slot index) (withdrawal_id r)) in
           modify (fun t => write_slot_u64 t owner withdrawal_index_count_slot (u64_add index 1))
       end) in
  write_withdrawal_record r.

Definition mark_indexed_withdrawal_completed (id : Z) : M BridgeError unit :=
  let! found := reads (fun t => load_indexed_withdrawal_record t id) in
  match found with
  | Some r => write_withdrawal_record (set_completed r)
  | None => ret tt
  end.

Definition withdrawal_storage_slot (id : Z) : Z :=
  digest sha256 (ascii_bytes "ace-withdrawal-slot:" ++ le_bytes 8 id).
Definition withdrawal_completed_slot (id : Z) : Z :=
  digest sha256 (ascii_bytes "ace-withdrawal-completed:" ++ le_bytes 8 id).

Definition hash_withdrawal_record (r : WithdrawalRecord) : Z :=
  let l := label (wd_asset r) in
  digest sha256 (ascii_bytes "ace-withdrawal-v1:" ++ le_bytes 8 (withdrawal_id r) ++
    be_bytes 32 (wd_intent_id r) ++ le_bytes 4 (Z.of_nat (length l)) ++ l ++
    le_bytes 8 (wd_amount r) ++ be_bytes 32 (wd_sender r) ++
    le_bytes 4 (Z.of_nat (length (external_dest r))) ++ external_dest r).

(** The open withdrawals among the first [n] of the index, in its order. *)
Fixpoint open_withdrawals (t : StateTree) (index : Z) (n : nat) : result BridgeError (list WithdrawalRecord) :=
  match n with
  | O => Ok []
  | S n =>
      let id := slot_u64 t bridge_authority_id (withdrawal_index_id_slot index) in
      let? found := load_indexed_withdrawal_record t id in
      let? rest := open_withdrawals t (index + 1) n in
      Ok (match found with
          | Some r => if completed r then rest else r :: rest
          | None => rest
          end)
  end.

Definition list_pending_withdrawals (t : StateTree) : result BridgeError (list WithdrawalRecord) :=
  let count := slot_u64 t bridge_authority_id withdrawal_index_count_slot in
  let? out := open_withdrawals t 0 (Z.to_nat count) in
  Ok (sort_by withdrawal_id out).

Record PendingWithdrawalsPage := {
  page_withdrawals : list WithdrawalRecord;
  next_index : Z;
  total_indexed : Z;
}.

(** The loop of [list_pending_withdrawals_page], [todo] entries before the end of
    the index and [room] more records. *)
Fixpoint page_loop (t : StateTree) (index : Z) (todo room : nat) : result BridgeError (list WithdrawalRecord * Z) :=
  match todo, room with
  | O, _ | _, O => Ok ([], index)
  | S todo, S room' =>
      let id := slot_u64 t bridge_authority_id (withdrawal_index_id_slot index) in
      let? found := load_indexed_withdrawal_record t id in
      match found with
      | Some r =>
          if completed r then page_loop t (index + 1) todo room
          else
            let? (out, last) := page_loop t (index + 1) todo room' in
            Ok (r :: out, last)
      | None => page_loop t (index + 1) todo room
      end
  end.

Definition list_pending_withdrawals_page (t : StateTree) (start_index limit : Z)
    : result BridgeError PendingWithdrawalsPage :=
  let count := slot_u64 t bridge_authority_id withdrawal_index_count_slot in
  let limit := Z.max 1 (Z.min limit 1000) in
  let index := Z.min start_index count in
  let? (out, last) := page_loop t index (Z.to_nat (count - index)) (Z.to_nat limit) in
  Ok {| page_withdrawals := out; next_index := last; total_indexed := count |}.

(* ------------------------------------------------------------------ *)
(** * Completed withdrawals *)

Definition verify_withdrawal_completion_against_state (t : StateTree) (c : WithdrawalCompletionRecord)
    : result BridgeError unit :=
  if negb (is_relayer_approved_in_state t (wc_relayer c))
  then Err (InvalidDepositProof "relayer not in state-approved set")
  else
    let? found := load_indexed_withdrawal_record t (wc_withdrawal_id c) in
    let? r := ok_or found (InvalidDepositProof "withdrawal not found") in
    if completed r then Err (InvalidDepositProof "withdrawal already completed")
    else if negb (bool_decide (asset_chain (wd_asset r) = destination_chain c))
    then Err (InvalidDepositProof "withdrawal chain mismatch")
    else if negb (bool_decide (wd_asset r = released_asset c))
    then Err (InvalidDepositProof "withdrawal released asset mismatch")
    else if negb (bool_decide (external_dest r = released_recipient c))
    then Err (InvalidDepositProof "withdrawal released recipient mismatch")
    else if negb (wd_amount r =? released_amount c)
    then Err (InvalidDepositProof "withdrawal released amount mismatch")
    else if negb (withdrawal_record_hash c =? hash_withdrawal_record r)
    then Err (InvalidDepositProof "withdrawal record hash mismatch")
    else verify_relayer (wc_relayer c) (hash_withdrawal_completion c) (wc_signature c).

Definition complete_indexed_withdrawal_inner (c : WithdrawalCompletionRecord)
    : M BridgeError WithdrawalRecord :=
  do! reads (fun t => verify_withdrawal_completion_against_state t c) in
  let! found := reads (fun t => load_indexed_withdrawal_record t (wc_withdrawal_id c)) in
  let! r := require found (InvalidDepositProof "withdrawal not found") in
  let r := set_completed r in
  do! write_withdrawal_record r in
  let! mapping := reads (fun t => get_mapping t (wd_asset r)) in
  do! (match mapping with
       | Some m =>
           let! canonical_amount :=
             lift (normalize_amount (wd_amount r) (external_decimals m) (canonical_decimals m)) in
           finalize_withdrawal (wd_asset r) canonical_amount (requested_at r)
       | None => ret tt
       end) in
  do! modify (fun t =>
        set_storage t bridge_authority_id (withdrawal_completed_slot (wc_withdrawal_id c)) marker) in
  ret r.

Definition complete_indexed_withdrawal (c : WithdrawalCompletionRecord)
    : M BridgeError WithdrawalRecord :=
  atomically (complete_indexed_withdrawal_inner c).

(* ------------------------------------------------------------------ *)
(** * Deposits and withdrawals of oAssets *)

Definition process_deposit_to_oasset_inner (s : SignedDepositRecord) (current_slot : Z)
    : M BridgeError AccountId :=
  do! reads (fun t => verify_signed_deposit_against_state t s) in
  let d := sd_deposit s in
  do! fail_if (dep_amount d =? 0) InvalidAmount in
  let! processed := gets (fun t => get_storage t bridge_authority_id (deposit_id d)) in
  do! fail_if (byte_of processed 0 =? 1) (DepositAlreadyProcessed (deposit_id d)) in
  let! found := reads (fun t => get_mapping t (dep_asset d)) in
  let! mapping := require found AssetNotMapped in
  do! fail_if (negb (mint_enabled mapping)) MintDisabled in
  do! check_and_record_deposit (em_risk mapping) (dep_asset d) (dep_amount d) current_slot in
  let! found := reads (fun t => get_canonical_asset t (em_canonical mapping)) in
  let! canonical := require found (CanonicalAssetNotFound (em_canonical mapping)) in
  do! fail_if (negb (ca_active canonical)) CanonicalAssetInactive in
  let! amount :=
    lift (normalize_amount (dep_amount d) (external_decimals mapping) (canonical_decimals mapping)) in
  do! record_deposit (dep_asset d) (em_canonical mapping) amount current_slot in
  do! map_err MintError
        (mint_to_owner sha256 (ca_mint canonical) (recipient d) amount bridge_authority_id) in
  do! increase_supply (em_canonical mapping) amount in
  do! modify (fun t => set_storage t bridge_authority_id (deposit_id d) marker) in
  do! reads (fun t => check_invariant t (em_canonical mapping)) in
  ret (ca_mint canonical).

Definition process_deposit_to_oasset (s : SignedDepositRecord) (current_slot : Z)
    : M BridgeError AccountId :=
  atomically (process_deposit_to_oasset_inner s current_slot).

Definition validate_external_destination (a : ExternalAsset) (dest : list Z) : result BridgeError unit :=
  let n := length dest in
  let valid :=
    match a with
    | Native Ethereum | Erc20 _ | Native Bsc | Bep20 _ | Native Tron | Trc20 _ => (n =? 20)%nat
    | Native Solana | SplToken _ => (n =? 32)%nat
    | Native Bitcoin => (n =? 20)%nat || (n =? 32)%nat || (n =? 33)%nat
    end in
  if valid then Ok tt else Err InvalidDestination.

Definition request_oasset_withdrawal_inner (sender : AccountId) (intent_id canonical_asset amount : Z)
    (target : ExternalAsset) (dest : list Z) (current_slot next_withdrawal_id : Z)
    : M BridgeError WithdrawalRecord :=
  do! fail_if (amount =? 0) InvalidAmount in
  let! found := reads (fun t => get_canonical_asset t canonical_asset) in
  let! canonical := require found (CanonicalAssetNotFound canonical_asset) in
  do! fail_if (negb (ca_active canonical)) CanonicalAssetInactive in
  let! found := reads (fun t => get_mapping t target) in
  let! mapping := require found AssetNotMapped in
  do! fail_if (negb (em_canonical mapping =? canonical_asset)) MappingMismatch in
  do! fail_if (negb (withdraw_enabled mapping)) WithdrawDisabled in
  do! check_and_record_withdrawal (em_risk mapping) target amount current_slot in
  do! lift (validate_external_destination target dest) in
  let! external_amount :=
    lift (normalize_amount amount (canonical_decimals mapping) (external_decimals mapping)) in
  let! balance := gets (fun t => balance_of sha256 t (ca_mint canonical) sender) in
  do! fail_if (balance <? amount) (BridgeInsufficientBalance balance amount) in
  do! reserve_withdrawal target canonical_asset amount current_slot in
  do! map_err BurnError
        (transfer_between_owners sha256 (ca_mint canonical) sender bridge_authority_id amount) in
  do! decrease_supply canonical_asset amount in
  let record :=
    {| withdrawal_id := next_withdrawal_id; wd_intent_id := intent_id; wd_asset := target;
       wd_amount := external_amount; wd_sender := sender; external_dest := dest;
       requested_at := current_slot; completed := false |} in
  do! index_withdrawal_record record in
  do! reads (fun t => check_invariant t canonical_asset) in
  ret record.

Definition request_oasset_withdrawal (sender : AccountId) (intent_id canonical_asset amount : Z)
    (target : ExternalAsset) (dest : list Z) (current_slot next_withdrawal_id : Z)
    : M BridgeError WithdrawalRecord :=
  atomically (request_oasset_withdrawal_inner sender intent_id canonical_asset amount target dest
    current_slot next_withdrawal_id).
End omni.

(* ------------------------------------------------------------------ *)
(** * Payloads *)

Definition OP_BRIDGE_DEPOSIT : Z := 13.
Definition OP_WITHDRAWAL_COMPLETED : Z := 14.
Definition OP_OASSET_WITHDRAW : Z := 19.

Section payloads.
Context {B7 : Bincode SignedDepositRecord} {B8 : Bincode WithdrawalCompletionRecord}.

(** An opcode, the length of the bytes as [u32], and the bytes. *)
Definition frame (op : Z) (bytes : list Z) : result BridgeError (list Z) :=
  if u32_max <? Z.of_nat (length bytes)
  then Err (BridgeSerialization "payload exceeds u32 length")
  else Ok (op :: le_bytes 4 (Z.of_nat (length bytes)) ++ bytes).

Definition unframe (op : Z) (payload : list Z) : result DecodeError (list Z) :=
  if (length payload <? 5)%nat || negb (bool_decide (head payload = Some op))
  then Err (Rejected "not an ACE DeFi payload")
  else
    let? len := read_le 1 4 payload in
    if negb (Z.of_nat (length payload) =? 5 + len) then Err (Rejected "invalid payload length")
    else slice_from 5 payload.

Definition encode_signed_deposit_payload (s : SignedDepositRecord) : result BridgeError (list Z) :=
  match encode s with
  | Err e => Err (BridgeSerialization e)
  | Ok bytes => frame OP_BRIDGE_DEPOSIT bytes
  end.

Definition decode_signed_deposit_payload (payload : list Z) : result DecodeError SignedDepositRecord :=
  let? bytes := unframe OP_BRIDGE_DEPOSIT payload in
  match decode bytes with
  | Ok s => Ok s
  | Err e => Err (Rejected "invalid signed deposit encoding")
  end.

Definition encode_withdrawal_completion_payload (c : WithdrawalCompletionRecord)
    : result BridgeError (list Z) :=
  match encode c with
  | Err e => Err (BridgeSerialization e)
  | Ok bytes => frame OP_WITHDRAWAL_COMPLETED bytes
  end.

Definition decode_withdrawal_completion_payload (payload : list Z)
    : result DecodeError WithdrawalCompletionRecord :=
  let? bytes := unframe OP_WITHDRAWAL_COMPLETED payload in
  match decode bytes with
  | Ok c => Ok c
  | Err e => Err (Rejected "invalid withdrawal completion encoding")
  end.
End payloads.

Definition build_oasset_withdraw_payload (nonce intent_id canonical amount : Z)
    (target : ExternalAsset) (dest : list Z) : result BridgeError (list Z) :=
  if 65535 <? Z.of_nat (length dest)
  then Err (BridgeSerialization "external destination too long")
  else Ok (OP_OASSET_WITHDRAW :: le_bytes 8 nonce ++ be_bytes 32 intent_id ++ be_bytes 32 canonical ++
           le_bytes 8 amount ++ encode_asset target ++ le_bytes 2 (Z.of_nat (length dest)) ++ dest).

Definition decode_oasset_withdraw_payload (payload : list Z) : result DecodeError OAssetWithdrawRequest :=
  if (length payload <? 83)%nat || negb (bool_decide (head payload = Some OP_OASSET_WITHDRAW))
  then Err (Rejected "not an OmniLiquid oAsset withdrawal payload")
  else
    let? nonce := read_u64 1 payload in
    let? intent_id := read_32 9 payload in
    let? canonical := read_32 41 payload in
    let? amount := read_u64 73 payload in
    let? rest := slice_from 81 payload in
    let? (target, consumed) := decode_asset_for_wire rest in
    let cursor := (81 + consumed)%nat in
    if (length payload <? cursor + 2)%nat
    then Err (Rejected "missing external destination length")
    else
      let? dest_len := read_u16 cursor payload in
      if negb (cursor + 2 + dest_len =? length payload)%nat
      then Err (Rejected "invalid external destination length")
      else
        let? dest := slice_from (cursor + 2) payload in
        Ok {| req_nonce := nonce; req_intent_id := intent_id; req_canonical := canonical;
              req_amount := amount; req_target := target; req_dest := dest |}.
