(* ===== verification/Bridge.v ===== *)
(** The rest of ACE DeFi on top of [Omni] and [Swap]: the registry of wrapped
    assets, the bridge manager, atomic settlement and the runtime that holds them
    (ace-defi/src: registry.rs, bridge.rs, deposit.rs, withdraw.rs, settle.rs,
    runtime.rs), and the three system transactions of the bridge a node executes
    (ace-node/src/node.rs).

    What a Rust value holds in memory next to the state tree is a part of the
    state of [ST].  Errors of the node are the static part of their texts. *)

From S2P Require Import Prelude SigAlgo ValidatorSet Account StateTree Slots StateM.
From S2P Require Import Wire Payload Transaction Engine Vm Token Swap Omni.
Local Open Scope Z_scope.
Local Open Scope ace_scope.

(* ------------------------------------------------------------------ *)
(** * Data *)

(** [AssetRegistry]: the mints known in memory. *)
Abbreviation AssetRegistry := (gset AccountId).

Record BridgeState := {
  registry : AssetRegistry;
  processed_deposits : gset Z;
  next_withdrawal_id : Z;
  withdrawals : list WithdrawalRecord;
  governance_pubkey : option Z;
  approved_relayers : list Z;
}.

Definition bridge_new : BridgeState :=
  {| registry := ∅; processed_deposits := ∅; next_withdrawal_id := 0; withdrawals := [];
     governance_pubkey := None; approved_relayers := [] |}.

Definition new_with_governance (key : Z) : BridgeState :=
  {| registry := ∅; processed_deposits := ∅; next_withdrawal_id := 0; withdrawals := [];
     governance_pubkey := Some key; approved_relayers := [] |}.

Definition set_registry (b : BridgeState) (r : AssetRegistry) : BridgeState :=
  {| registry := r; processed_deposits := processed_deposits b;
     next_withdrawal_id := next_withdrawal_id b; withdrawals := withdrawals b;
     governance_pubkey := governance_pubkey b; approved_relayers := approved_relayers b |}.
Definition set_processed (b : BridgeState) (ids : gset Z) : BridgeState :=
  {| registry := registry b; processed_deposits := ids;
     next_withdrawal_id := next_withdrawal_id b; withdrawals := withdrawals b;
     governance_pubkey := governance_pubkey b; approved_relayers := approved_relayers b |}.
Definition set_withdrawals (b : BridgeState) (next : Z) (ws : list WithdrawalRecord) : BridgeState :=
  {| registry := registry b; processed_deposits := processed_deposits b;
     next_withdrawal_id := next; withdrawals := ws;
     governance_pubkey := governance_pubkey b; approved_relayers := approved_relayers b |}.
Definition set_relayers (b : BridgeState) (rs : list Z) : BridgeState :=
  {| registry := registry b; processed_deposits := processed_deposits b;
     next_withdrawal_id := next_withdrawal_id b; withdrawals := withdrawals b;
     governance_pubkey := governance_pubkey b; approved_relayers := rs |}.

Record CrossVmSettleParams := {
  st_sender : AccountId;
  st_intent_id : Z;
  st_nonce : Z;
  swap_in_asset : ExternalAsset;
  swap_in_amount : Z;
  swap_out_asset : ExternalAsset;
  st_min_amount_out : Z;
  withdraw_dest : list Z;
  st_current_slot : Z;
  st_withdrawal_id : Z;
}.

Record SettleResult := {
  sr_amount_in : Z;
  sr_amount_out : Z;
  sr_sender : AccountId;
  sr_in_mint : AccountId;
  sr_out_mint : AccountId;
  sr_withdrawal : WithdrawalRecord;
}.

Inductive SettleError : Type :=
| SettleSwap (e : SwapError)
| SettleWithdraw (e : BridgeError)
| SettleZeroAmount
| SettleDecode (msg : string)
| SettleInsufficientBalance (have need : Z).

Record DefiRuntime := {
  rt_registry : AssetRegistry;
  swap_engine : SwapEngine;
  rt_next_withdrawal_id : Z;
  initialized : bool;
}.

Definition runtime_new : DefiRuntime :=
  {| rt_registry := ∅; swap_engine := ∅; rt_next_withdrawal_id := 1; initialized := false |}.

Definition bridge_error_text (e : BridgeError) : string :=
  match e with
  | AssetNotRegistered => "asset not registered"
  | DepositAlreadyProcessed _ => "deposit already processed"
  | RiskLimitExceeded m => "risk limit exceeded: " +:+ m
  | InvalidDepositProof m => "invalid deposit proof: " +:+ m
  | BridgeInsufficientBalance _ _ => "insufficient wrapped balance"
  | WithdrawalNotFound _ => "withdrawal not found"
  | WithdrawalAlreadyCompleted _ => "withdrawal already completed"
  | MintError m => "mint error: " +:+ m
  | BurnError m => "burn error: " +:+ m
  | InvalidAmount => "invalid amount"
  | InvalidDestination => "invalid destination address"
  | AuthorityMismatch => "bridge authority mismatch"
  | BridgeSerialization m => "serialization error: " +:+ m
  | CanonicalAssetAlreadyExists => "canonical asset already exists"
  | CanonicalAssetNotFound _ => "canonical asset not found"
  | CanonicalAssetInactive => "canonical asset inactive"
  | InvalidCanonicalSymbol => "invalid canonical symbol"
  | InvalidDecimals _ => "invalid decimals"
  | ExternalAssetAlreadyMapped => "external asset already mapped"
  | AssetNotMapped => "asset not mapped"
  | MappingMismatch => "external asset mapping does not match canonical asset"
  | MintDisabled => "mint disabled"
  | WithdrawDisabled => "withdraw disabled"
  | DepositPaused => "deposit paused"
  | WithdrawPaused => "withdraw paused"
  | LimitExceeded m => "limit exceeded: " +:+ m
  | AmountTooSmall => "amount too small after normalization"
  | InsufficientReserve _ _ => "insufficient reserve"
  | ReserveInvariantViolation => "reserve invariant violation"
  | BridgeArithmeticOverflow => "arithmetic overflow"
  end.

(** A computation on the registry inside of a larger state. *)
Definition on_registry {X E A} (get : X -> AssetRegistry) (set : X -> AssetRegistry -> X)
    (m : ST (StateTree * AssetRegistry) E A) : ST (StateTree * X) E A := fun '(t, x) =>
  let '((t', r), a) := m (t, get x) in ((t', set x r), a).

Definition st_map_err {W E F A} (f : E -> F) (m : ST W E A) : ST W F A := fun w =>
  match m w with
  | (w', Ok a) => (w', Ok a)
  | (w', Err e) => (w', Err (f e))
  end.

Section bridge.
Context (sha256 : list Z -> list Z) {Env : DefiEnv}.
Context {B1 : Bincode CanonicalAsset} {B2 : Bincode ExternalAssetMapping} {B3 : Bincode ReservePosition}.
Context {B4 : Bincode CanonicalSupply} {B5 : Bincode CanonicalReserveTotal} {B6 : Bincode WithdrawalRecord}.
Local Abbreviation authority := (bridge_authority_id sha256).

(* ------------------------------------------------------------------ *)
(** * The registry *)

Definition is_registered (known : AssetRegistry) (a : ExternalAsset) (t : StateTree) : bool :=
  let mint_id := wrapped_mint_id sha256 a in
  if bool_decide (mint_id ∈ known) then true
  else bool_decide (is_Some (get_mint_meta sha256 t mint_id)).

Definition register_asset (a : ExternalAsset) (decimals : Z)
    : ST (StateTree * AssetRegistry) BridgeError AccountId :=
  let mint_id := wrapped_mint_id sha256 a in
  do* on_tree (ensure_bridge_authority sha256) in
  let* known := st_gets (fun '(t, r) => is_registered r a t) in
  if known : bool then
    fun '(t, r) => ((t, {[ mint_id ]} ∪ r), Ok mint_id)
  else
    do* on_tree (map_err MintError (create_mint sha256 mint_id decimals authority)) in
    fun '(t, r) => ((t, {[ mint_id ]} ∪ r), Ok mint_id).

Fixpoint register_natives (chains : list ExternalChain)
    : ST (StateTree * AssetRegistry) BridgeError unit :=
  match chains with
  | [] => st_ret tt
  | c :: chains =>
      do* register_asset (Native c) (native_decimals c) in
      register_natives chains
  end.

Definition register_all_natives : ST (StateTree * AssetRegistry) BridgeError unit :=
  register_natives all_chains.

(* ------------------------------------------------------------------ *)
(** * Wrapped deposits and withdrawals *)

Definition process_deposit_wrapped (known : AssetRegistry) (d : DepositRecord) : M BridgeError unit :=
  do! fail_if ((dep_amount d =? 0) || (u64_max / 2 <? dep_amount d)) InvalidAmount in
  let! registered := gets (is_registered known (dep_asset d)) in
  do! fail_if (negb registered) AssetNotRegistered in
  let mint_id := wrapped_mint_id sha256 (dep_asset d) in
  let! there := contains (recipient d) in
  do! (if there : bool then ret tt
       else modify (fun t => insert_account sha256 t (account_new (recipient d)))) in
  do! map_err MintError (mint_to_owner sha256 mint_id (recipient d) (dep_amount d) authority) in
  ret tt.

Definition request_withdrawal_wrapped (known : AssetRegistry) (sender : AccountId) (intent_id : Z)
    (a : ExternalAsset) (amount : Z) (dest : list Z) (current_slot next_id : Z)
    : M BridgeError WithdrawalRecord :=
  do! fail_if (amount =? 0) InvalidAmount in
  do! lift (validate_external_destination a dest) in
  let! registered := gets (is_registered known a) in
  do! fail_if (negb registered) AssetNotRegistered in
  let mint_id := wrapped_mint_id sha256 a in
  let! balance := gets (fun t => balance_of sha256 t mint_id sender) in
  do! fail_if (balance <? amount) (BridgeInsufficientBalance balance amount) in
  do! map_err BurnError (transfer_between_owners sha256 mint_id sender authority amount) in
  let record :=
    {| withdrawal_id := next_id; wd_intent_id := intent_id; wd_asset := a; wd_amount := amount;
       wd_sender := sender; external_dest := dest; requested_at := current_slot;
       completed := false |} in
  do! modify (fun t => set_storage t sender (withdrawal_storage_slot sha256 next_id)
        (hash_withdrawal_record sha256 record)) in
  do! index_withdrawal_record sha256 record in
  ret record.

(* ------------------------------------------------------------------ *)
(** * The bridge manager *)

(** [b"nxt_w_id"] and 24 zeros. *)
Definition nwid_slot : Z := be_num (ascii_bytes "nxt_w_id" ++ replicate 24 0).

Definition initialize : ST (StateTree * BridgeState) BridgeError unit :=
  do* (fun '(t, b) =>
         ((t, set_withdrawals b (slot_u64 t authority nwid_slot) (withdrawals b)), Ok tt)) in
  on_registry registry set_registry register_all_natives.

Definition limit_decimals (a : ExternalAsset) : Z :=
  match a with
  | Native Ethereum | Erc20 _ => 18
  | Native Bsc | Bep20 _ => 18
  | Native Solana | SplToken _ => 9
  | Native Tron | Trc20 _ => 6
  | Native Bitcoin => 8
  end.

Definition whole_units (a : ExternalAsset) (amount : Z) : Z :=
  amount / Z.max (10 ^ limit_decimals a) 1.

Definition daily_out_slot (current_slot : Z) : Z :=
  digest sha256 (ascii_bytes "ace-daily-out:" ++ le_bytes 8 (current_slot / 86400)).

Definition check_limits (t : StateTree) (a : ExternalAsset) (amount current_slot : Z)
    (is_deposit : bool) : result BridgeError unit :=
  let amount_normalized := whole_units a amount in
  if 50000 <? amount_normalized then Err (RiskLimitExceeded "single tx limit 50k")
  else if is_deposit then
    let current_supply := default 0 (supply <$> get_mint_meta sha256 t (wrapped_mint_id sha256 a)) in
    if 1000000 <? u64_add (whole_units a current_supply) amount_normalized
    then Err (RiskLimitExceeded "TVL limit 1M")
    else Ok tt
  else
    let daily_total := slot_u64 t authority (daily_out_slot current_slot) in
    if 250000 <? u64_add daily_total amount_normalized
    then Err (RiskLimitExceeded "daily limit 250k")
    else Ok tt.

Definition is_deposit_processed (b : BridgeState) (t : StateTree) (id : Z) : bool :=
  if bool_decide (id ∈ processed_deposits b) then true
  else byte_of (get_storage t authority id) 0 =? 1.

Definition process_deposit (d : DepositRecord) : ST (StateTree * BridgeState) BridgeError unit :=
  let* processed := st_gets (fun '(t, b) => is_deposit_processed b t (deposit_id d)) in
  do* st_fail_if processed (DepositAlreadyProcessed (deposit_id d)) in
  do* (fun '(t, b) => ((t, b), check_limits t (dep_asset d) (dep_amount d) (processed_at d) true)) in
  let* known := st_gets (fun '(_, b) => registry b) in
  do* on_tree (process_deposit_wrapped known d) in
  fun '(t, b) =>
    ((set_storage t authority (deposit_id d) marker,
      set_processed b ({[ deposit_id d ]} ∪ processed_deposits b)), Ok tt).

Definition request_withdrawal (sender : AccountId) (intent_id : Z) (a : ExternalAsset) (amount : Z)
    (dest : list Z) (current_slot : Z) : ST (StateTree * BridgeState) BridgeError WithdrawalRecord :=
  do* (fun '(t, b) => ((t, b), check_limits t a amount current_slot false)) in
  let* b := st_gets snd in
  let* record := on_tree (request_withdrawal_wrapped (registry b) sender intent_id a amount dest
    current_slot (next_withdrawal_id b)) in
  do* (fun '(t, b) =>
         ((t, set_withdrawals b (u64_add (next_withdrawal_id b) 1) (withdrawals b ++ [record])), Ok tt)) in
  do* (fun '(t, b) =>
         let slot := daily_out_slot current_slot in
         let total := u64_add (slot_u64 t authority slot) (whole_units a amount) in
         let t := write_slot_u64 t authority slot total in
         ((write_slot_u64 t authority nwid_slot (next_withdrawal_id b), b), Ok tt)) in
  st_ret record.

(** The first withdrawal with the id, marked as completed. *)
Fixpoint complete_first (id : Z) (ws : list WithdrawalRecord)
    : result BridgeError (list WithdrawalRecord) :=
  match ws with
  | [] => Err (WithdrawalNotFound id)
  | r :: ws =>
      if withdrawal_id r =? id then
        if completed r then Err (WithdrawalAlreadyCompleted id) else Ok (set_completed r :: ws)
      else let? ws := complete_first id ws in Ok (r :: ws)
  end.

Definition complete_withdrawal (caller : AccountId) (id : Z)
    : ST (StateTree * BridgeState) BridgeError unit :=
  do* st_fail_if (negb (caller =? authority)) AuthorityMismatch in
  let completed_slot := withdrawal_completed_slot sha256 id in
  let* stored := st_gets (fun '(t, _) => get_storage t authority completed_slot) in
  do* st_fail_if (byte_of stored 0 =? 1) (WithdrawalAlreadyCompleted id) in
  let* ws := (fun '(t, b) => ((t, b), complete_first id (withdrawals b))) in
  do* (fun '(t, b) =>
         ((set_storage t authority completed_slot marker,
           set_withdrawals b (next_withdrawal_id b) ws), Ok tt)) in
  on_tree (mark_indexed_withdrawal_completed sha256 id).

Definition get_withdrawal (b : BridgeState) (id : Z) : option WithdrawalRecord :=
  List.find (fun r => withdrawal_id r =? id) (withdrawals b).
Definition pending_withdrawals (b : BridgeState) : list WithdrawalRecord :=
  List.filter (fun r => negb (completed r)) (withdrawals b).

Definition add_relayer (relayer : Z) (signature : list Z) : ST (StateTree * BridgeState) BridgeError unit :=
  fun '(t, b) =>
    let msg := ascii_bytes "bridge:add-relayer:v1" ++ be_bytes 32 relayer in
    match governance_pubkey b with
    | None => ((t, b), Err (InvalidDepositProof "bridge governance key not configured"))
    | Some key =>
        if negb (ed_from_bytes key) then ((t, b), Err (InvalidDepositProof "invalid governance key"))
        else if negb (ed_verify_strict key msg signature)
        then ((t, b), Err (InvalidDepositProof "governance signature invalid"))
        else if bool_decide (relayer ∈ approved_relayers b) then ((t, b), Ok tt)
        else ((t, set_relayers b (approved_relayers b ++ [relayer])), Ok tt)
    end.

Definition process_signed_deposit (s : SignedDepositRecord)
    : ST (StateTree * BridgeState) BridgeError unit :=
  let* approved := st_gets (fun '(_, b) => bool_decide (sd_relayer s ∈ approved_relayers b)) in
  do* st_fail_if (negb approved) (InvalidDepositProof "relayer not in approved set") in
  do* (fun w => (w, verify_signed_deposit_signature sha256 s)) in
  process_deposit (sd_deposit s).

Definition process_state_approved_signed_deposit (s : SignedDepositRecord)
    : ST (StateTree * BridgeState) BridgeError unit :=
  do* (fun '(t, b) => ((t, b), verify_signed_deposit_against_state sha256 t s)) in
  let a := dep_asset (sd_deposit s) in
  let* known := st_gets (fun '(t, b) => is_registered (registry b) a t) in
  do* (if known : bool then st_ret tt
       else
         let decimals :=
           match a with
           | Native chain => native_decimals chain
           | Erc20 _ | Bep20 _ => 18
           | SplToken _ => 9
           | Trc20 _ => 6
           end in
         do* on_registry registry set_registry (register_asset a decimals) in
         st_ret tt) in
  process_deposit (sd_deposit s).

(* ------------------------------------------------------------------ *)
(** * Settlement *)

Definition cross_vm_settle (known : AssetRegistry) (p : CrossVmSettleParams)
    : ST World SettleError SettleResult :=
  do* st_fail_if (swap_in_amount p =? 0) SettleZeroAmount in
  let* account := st_gets (fun '(t, _) => accounts t !! st_sender p) in
  let* account := st_require account (SettleDecode "sender account not found") in
  do* st_fail_if (negb (acc_nonce account =? st_nonce p)) (SettleDecode "nonce mismatch") in
  let* nonce := st_require (u64_checked_add (acc_nonce account) 1) (SettleDecode "nonce overflow") in
  do* on_tree (update (st_sender p) (fun a => set_nonce a nonce)) in
  let in_mint := wrapped_mint_id sha256 (swap_in_asset p) in
  let out_mint := wrapped_mint_id sha256 (swap_out_asset p) in
  let* balance := st_gets (fun '(t, _) => balance_of sha256 t in_mint (st_sender p)) in
  do* st_fail_if (balance <? swap_in_amount p) (SettleInsufficientBalance balance (swap_in_amount p)) in
  let* amount_out := st_map_err SettleSwap
    (swap sha256 in_mint out_mint (st_sender p) (swap_in_amount p) (st_min_amount_out p)) in
  let* withdrawal := st_map_err SettleWithdraw
    (on_tree (request_withdrawal_wrapped known (st_sender p) (st_intent_id p) (swap_out_asset p)
       amount_out (withdraw_dest p) (st_current_slot p) (st_withdrawal_id p))) in
  st_ret {| sr_amount_in := swap_in_amount p; sr_amount_out := amount_out; sr_sender := st_sender p;
            sr_in_mint := in_mint; sr_out_mint := out_mint; sr_withdrawal := withdrawal |}.

(* ------------------------------------------------------------------ *)
(** * The runtime *)

Definition OP_CROSS_VM_SETTLE : Z := 5.

Definition set_rt_registry (r : DefiRuntime) (known : AssetRegistry) : DefiRuntime :=
  {| rt_registry := known; swap_engine := swap_engine r;
     rt_next_withdrawal_id := rt_next_withdrawal_id r; initialized := initialized r |}.

Definition rt_initialize : ST (StateTree * DefiRuntime) BridgeError unit :=
  do* on_registry rt_registry set_rt_registry register_all_natives in
  fun '(t, r) =>
    let stored := get_storage t authority nwid_slot in
    let next := if stored =? 0 then rt_next_withdrawal_id r else u64_at stored 0 in
    ((t, {| rt_registry := rt_registry r; swap_engine := swap_engine r;
            rt_next_withdrawal_id := next; initialized := true |}), Ok tt).

Definition decode_asset (data : list Z) : result DecodeError (ExternalAsset * nat) :=
  match data with
  | [] => Err (Rejected "empty asset tag")
  | tag :: _ =>
      if tag =? 1 then
        if (length data <? 2)%nat then Err (Rejected "missing chain id")
        else
          let? n := read_byte 1 data in
          let? chain := ok_or (chain_from_number n) (Rejected "unknown chain") in
          Ok (Native chain, 2%nat)
      else if tag =? 2 then
        if (length data <? 21)%nat then Err (Rejected "erc20 address truncated")
        else let? addr := slice 1 20 data in Ok (Erc20 (be_num addr), 21%nat)
      else if tag =? 3 then
        if (length data <? 33)%nat then Err (Rejected "spl token mint truncated")
        else let? mint := slice 1 32 data in Ok (SplToken (be_num mint), 33%nat)
      else if tag =? 4 then
        if (length data <? 21)%nat then Err (Rejected "trc20 address truncated")
        else let? addr := slice 1 20 data in Ok (Trc20 (be_num addr), 21%nat)
      else if tag =? 5 then
        if (length data <? 21)%nat then Err (Rejected "bep20 address truncated")
        else let? addr := slice 1 20 data in Ok (Bep20 (be_num addr), 21%nat)
      else Err (Rejected "unknown asset tag")
  end.

Definition decode_settle_payload (payload : list Z) (sender : AccountId) (block_slot withdrawal : Z)
    : result DecodeError CrossVmSettleParams :=
  if negb (bool_decide (head payload = Some OP_CROSS_VM_SETTLE))
  then Err (Rejected "not a CrossVmSettle payload")
  else if (length payload <? 63)%nat then Err (Rejected "payload too short for CrossVmSettle")
  else
    let? intent_id := read_32 1 payload in
    let? nonce := read_u64 33 payload in
    let? rest := slice_from 41 payload in
    let? (in_asset, consumed) := decode_asset rest in
    let cursor := (41 + consumed)%nat in
    if (length payload <? cursor + 8)%nat then Err (Rejected "missing swap_in_amount")
    else
      let? in_amount := read_u64 cursor payload in
      let cursor := (cursor + 8)%nat in
      let? rest := slice_from cursor payload in
      let? (out_asset, consumed) := decode_asset rest in
      let cursor := (cursor + consumed)%nat in
      if (length payload <? cursor + 8)%nat then Err (Rejected "missing min_amount_out")
      else
        let? min_out := read_u64 cursor payload in
        let cursor := (cursor + 8)%nat in
        if (length payload <? cursor + 2)%nat then Err (Rejected "missing withdraw_dest_len")
        else
          let? dest_len := read_u16 cursor payload in
          let cursor := (cursor + 2)%nat in
          if (length payload <? cursor + dest_len)%nat then Err (Rejected "withdraw_dest truncated")
          else
            let? dest := slice cursor dest_len payload in
            Ok {| st_sender := sender; st_intent_id := intent_id; st_nonce := nonce;
                  swap_in_asset := in_asset; swap_in_amount := in_amount;
                  swap_out_asset := out_asset; st_min_amount_out := min_out; withdraw_dest := dest;
                  st_current_slot := block_slot; st_withdrawal_id := withdrawal |}.

Definition build_settle_payload (intent_id nonce : Z) (in_asset : ExternalAsset) (in_amount : Z)
    (out_asset : ExternalAsset) (min_amount_out : Z) (dest : list Z) : list Z :=
  OP_CROSS_VM_SETTLE :: be_bytes 32 intent_id ++ le_bytes 8 nonce ++ encode_asset in_asset ++
  le_bytes 8 in_amount ++ encode_asset out_asset ++ le_bytes 8 min_amount_out ++
  le_bytes 2 (Z.of_nat (length dest)) ++ dest.

(** A computation on the pools inside of the runtime. *)
Definition on_engine {E A} (m : ST World E A) : ST (StateTree * DefiRuntime) E A := fun '(t, r) =>
  let '((t', pools), a) := m (t, swap_engine r) in
  ((t', {| rt_registry := rt_registry r; swap_engine := pools;
           rt_next_withdrawal_id := rt_next_withdrawal_id r; initialized := initialized r |}), a).

Definition execute_settle (sender : AccountId) (payload : list Z) (block_slot : Z)
    : ST (StateTree * DefiRuntime) SettleError SettleResult :=
  let* ready := st_gets (fun '(_, r) => initialized r) in
  do* (if ready : bool then st_ret tt
       else st_map_err (fun e => SettleDecode ("DeFi runtime init failed: " +:+ bridge_error_text e))
              rt_initialize) in
  let* n := st_gets (fun '(_, r) => pool_count (swap_engine r)) in
  do* st_fail_if (n =? 0)%nat
        (SettleDecode "CrossVmSettle requires pre-initialized in-memory AMM pools in Phase A") in
  let* r := st_gets snd in
  let* params := (fun w => (w,
    match decode_settle_payload payload sender block_slot (rt_next_withdrawal_id r) with
    | Ok p => Ok p
    | Err e => Err (SettleDecode (decode_message e))
    end)) in
  let* result := on_engine (cross_vm_settle (rt_registry r) params) in
  do* (fun '(t, r) =>
         let next := u64_add (rt_next_withdrawal_id r) 1 in
         ((write_slot_u64 t authority nwid_slot next,
           {| rt_registry := rt_registry r; swap_engine := swap_engine r;
              rt_next_withdrawal_id := next; initialized := initialized r |}), Ok tt)) in
  st_ret result.
End bridge.

(* ------------------------------------------------------------------ *)
(** * System transactions *)

Section node.
Context {CE : CryptoEnv} {Env : DefiEnv}.
Context {B1 : Bincode CanonicalAsset} {B2 : Bincode ExternalAssetMapping} {B3 : Bincode ReservePosition}.
Context {B4 : Bincode CanonicalSupply} {B5 : Bincode CanonicalReserveTotal} {B6 : Bincode WithdrawalRecord}.
Context {B7 : Bincode SignedDepositRecord} {B8 : Bincode WithdrawalCompletionRecord}.
Local Abbreviation sha256 := env_sha256.
Local Abbreviation authority := (bridge_authority_id env_sha256).

(** [.map_err(|e| e.to_string())]. *)
Definition bridge_text {A} (m : M BridgeError A) : M string A := map_err bridge_error_text m.
Definition decode_text {A} (r : result DecodeError A) : M string A :=
  lift (match r with Ok a => Ok a | Err e => Err (decode_message e) end).

(** A receipt of the native VM. *)
Definition system_receipt (tx : Transaction) (changes : list StateChange) (data : list Z) : VmReceipt :=
  {| vm_id := AceNative; vm_tx_hash := tx_hash sha256 tx; vm_success := true; vm_sender := tx_sender tx;
     vm_changes := changes; vm_error := None; vm_simulated := false; vm_gas_used := None;
     vm_contract_address := None; vm_return_data := Some data; vm_logs := [] |}.

(** The fresh bridge manager of a deposit of an asset without a mapping. *)
Definition wrapped_deposit (s : SignedDepositRecord) : M BridgeError unit := fun t =>
  let '((t', _), r) :=
    st_bind (initialize sha256) (fun _ => process_state_approved_signed_deposit sha256 s) (t, bridge_new) in
  (t', r).

Definition execute_bridge_deposit_system_tx (tx : Transaction) : M string VmReceipt :=
  let! signed := decode_text (decode_signed_deposit_payload (payload tx)) in
  let d := sd_deposit signed in
  let! old_marker := gets (fun t => get_storage t authority (deposit_id d)) in
  let! mapping := bridge_text (reads (fun t => get_mapping sha256 t (dep_asset d))) in
  let! mint_id :=
    match mapping with
    | Some m =>
        let! found := bridge_text (reads (fun t => get_canonical_asset sha256 t (em_canonical m))) in
        let! canonical := require found "canonical asset mapping points to missing asset" in
        ret (ca_mint canonical)
    | None => ret (wrapped_mint_id sha256 (dep_asset d))
    end in
  let! old_balance := gets (fun t => balance_of sha256 t mint_id (recipient d)) in
  do! (match mapping with
       | Some _ =>
           do! bridge_text (process_deposit_to_oasset sha256 signed (processed_at d)) in ret tt
       | None => bridge_text (wrapped_deposit signed)
       end) in
  let! new_marker := gets (fun t => get_storage t authority (deposit_id d)) in
  let! new_balance := gets (fun t => balance_of sha256 t mint_id (recipient d)) in
  ret (system_receipt tx
    [StorageChange authority (deposit_id d) old_marker new_marker;
     BalanceChange (recipient d) old_balance new_balance] (be_bytes 32 (deposit_id d))).

Definition execute_oasset_withdraw_system_tx (tx : Transaction) (block_slot : Z) : M string VmReceipt :=
  let! request := decode_text (decode_oasset_withdraw_payload (payload tx)) in
  let sender := tx_sender tx in
  let! found := get_account sender in
  let! account := require found "unknown sender" in
  do! fail_if (negb (acc_nonce account =? req_nonce request)) "invalid nonce" in
  let! nonce := require (u64_checked_add (acc_nonce account) 1) "nonce overflow for sender" in
  do! update sender (fun a => set_nonce a nonce) in
  let! old_next := gets (fun t => get_storage t authority nwid_slot) in
  let next_withdrawal_id := u64_at old_next 0 in
  let! found := bridge_text (reads (fun t => get_canonical_asset sha256 t (req_canonical request))) in
  do! require found "canonical asset not found" in
  let! record := bridge_text (request_oasset_withdrawal sha256 sender (req_intent_id request)
    (req_canonical request) (req_amount request) (req_target request) (req_dest request)
    block_slot next_withdrawal_id) in
  let! after := require (u64_checked_add next_withdrawal_id 1) "withdrawal id overflow" in
  let new_next := be_num (le_bytes 8 after ++ replicate 24 0) in
  do! modify (fun t => set_storage t authority nwid_slot new_next) in
  ret (system_receipt tx
    [NonceIncrement sender nonce; StorageChange authority nwid_slot old_next new_next]
    (le_bytes 8 (withdrawal_id record))).

Definition bridge_deposit_tx_idcom (s : SignedDepositRecord) : Z :=
  digest sha256 (ascii_bytes "ace-defi:bridge-deposit:v1:" ++ be_bytes 32 (sd_relayer s)).
Definition withdrawal_completion_tx_idcom (c : WithdrawalCompletionRecord) : Z :=
  digest sha256 (ascii_bytes "ace-defi:withdrawal-completed:v1:" ++ be_bytes 32 (wc_relayer c)).

Definition execute_withdrawal_completion_system_tx (tx : Transaction) : M string VmReceipt :=
  let! completion := decode_text (decode_withdrawal_completion_payload (payload tx)) in
  do! fail_if (negb (tx_sender tx =? withdrawal_completion_tx_idcom completion))
        "withdrawal completion idcom does not match relayer pubkey" in
  do! bridge_text (reads (fun t => verify_withdrawal_completion_against_state sha256 t completion)) in
  let completion_slot := withdrawal_completed_slot sha256 (wc_withdrawal_id completion) in
  let! old_marker := gets (fun t => get_storage t authority completion_slot) in
  let! record := bridge_text (complete_indexed_withdrawal sha256 completion) in
  let! new_marker := gets (fun t => get_storage t authority completion_slot) in
  ret (system_receipt tx [StorageChange authority completion_slot old_marker new_marker]
    (le_bytes 8 (withdrawal_id record))).
End node.
