(* ===== verification/Svm.v ===== *)
(** The Solana machine (ace-n-vm/src/svm/programs.rs and engine.rs): the built-in
    programs, their registry, and the engine that runs a transaction. *)

From S2P Require Import Prelude SigAlgo ValidatorSet Account StateTree Slots StateM.
From S2P Require Import Wire Payload Transaction Engine Vm Token TokenSpec RawSolana RawTron Dispatch.
Local Open Scope Z_scope.
Local Open Scope ace_scope.

Record SvmProgram := {
  program_id : Z;
  program_name : string;
  program_execute : AccountId -> list Z -> list Z -> M string (list StateChange);
}.

(** [BTreeMap<[u8; 32], Box<dyn SvmProgram>>]. *)
Definition ProgramRegistry : Type := gmap Z SvmProgram.

Definition registry_register (reg : ProgramRegistry) (p : SvmProgram) : ProgramRegistry :=
  <[program_id p := p]> reg.

(** [u64::from_le_bytes(data[1..9])], and [accounts[i]], which panics when there
    are fewer accounts. *)
Definition data_amount (data : list Z) : Z := le_num (take 8 (drop 1 data)).
Definition arg (accounts : list Z) (i : nat) : M string Z := require (accounts !! i) "panic".

(** [if accounts.len() < n || data.len() < m return Err(msg)]. *)
Definition need (accounts data : list Z) (n m : nat) (msg : string) : M string unit :=
  fail_if ((length accounts <? n)%nat || (length data <? m)%nat) msg.

Section programs.
Context {CE : CryptoEnv} {Spl : SplEnv}.

(* ------------------------------------------------------------------ *)
(** * System program *)

Definition system_execute (caller : AccountId) (accounts data : list Z)
    : M string (list StateChange) :=
  match data with
  | [] => fail "empty instruction data"
  | 0 :: _ =>
      do! fail_if (bool_decide (accounts = [])) "transfer: missing recipient" in
      do! fail_if (length data <? 9)%nat "transfer: data too short" in
      let! to := arg accounts 0 in
      map_err error_text (transfer caller to (data_amount data) None)
  | 1 :: _ =>
      do! fail_if (bool_decide (accounts = [])) "create_account: missing account id" in
      let! new_id := arg accounts 0 in
      let! there := contains new_id in
      do! fail_if there "account already exists" in
      do! modify (fun t => insert_account env_sha256 t (account_new new_id)) in
      ret [AccountCreated new_id]
  | _ => fail "SystemProgram: unknown instruction "
  end.

Definition SystemProgram : SvmProgram :=
  {| program_id := SYSTEM_PROGRAM_ID; program_name := "SystemProgram";
     program_execute := system_execute |}.

(* ------------------------------------------------------------------ *)
(** * Token program *)

(** [get_token_account_meta(..).ok_or(msg)?]. *)
Definition token_account (a : Z) (msg : string) : M string TokenAccountMeta :=
  let! found := gets (fun t => get_token_account_meta env_sha256 t a) in
  require found msg.

Definition check_decimals (mint decimals : Z) : M string unit :=
  let! found := gets (fun t => get_mint_meta env_sha256 t mint) in
  let! meta := require found "mint does not exist" in
  fail_if (negb (decimals =? Token.decimals meta)) "spl transfer checked decimals mismatch".

(** The destination of a transfer with an associated account: it exists with the
    right mint and owner, or it is created at the derived address. *)
Definition ata_destination (account mint owner : Z)
    : M string (TokenAccountMeta * list StateChange) :=
  let! found := gets (fun t => get_token_account_meta env_sha256 t account) in
  match found with
  | Some meta =>
      do! fail_if (negb (ta_mint meta =? mint) || negb (owner_sol_pubkey meta =? owner))
        "destination token account metadata mismatch" in
      ret (meta, [])
  | None =>
      let! expected := require (derive_associated_token_address env_sha256 owner mint) "panic" in
      do! fail_if (negb (expected =? account))
        "destination token account is not the expected ATA" in
      let owner_idcom := legacy_idcom_solana env_sha256 owner in
      let! changes :=
        ensure_registered_token_account env_sha256 account mint owner owner_idcom in
      let! meta := token_account account "failed to create destination token account" in
      ret (meta, changes)
  end.

(** The arms of the match on the instruction. *)
Definition token_instruction (caller : AccountId) (accounts data : list Z) (op : Z)
    : M string (list StateChange) :=
  let amount := data_amount data in
  let sha256 := env_sha256 in
  match op with
  | 0 =>
      do! need accounts data 1 2 "create_mint: missing args" in
      let! a0 := arg accounts 0 in
      let! decimals := arg data 1 in
      create_mint sha256 a0 decimals caller
  | 1 =>
      do! need accounts data 2 9 "mint_to: missing args" in
      let! a0 := arg accounts 0 in
      let! a1 := arg accounts 1 in
      mint_to_owner sha256 a0 a1 amount caller
  | 2 =>
      do! need accounts data 2 9 "token_transfer: missing args" in
      let! a0 := arg accounts 0 in
      let! recipient := arg accounts 1 in
      transfer_between_owners sha256 a0 caller recipient amount
  | 3 =>
      do! need accounts data 2 9 "approve: missing args" in
      let! a0 := arg accounts 0 in
      let! spender := arg accounts 1 in
      set_allowance sha256 a0 caller spender amount
  | 4 =>
      do! need accounts data 3 9 "transfer_from: missing args" in
      let! a0 := arg accounts 0 in
      let! owner := arg accounts 1 in
      let! recipient := arg accounts 2 in
      transfer_from sha256 a0 caller owner recipient amount
  | 16 =>
      do! need accounts data 3 0 "register_token_account: missing args" in
      let! a0 := arg accounts 0 in
      let! a1 := arg accounts 1 in
      let! a2 := arg accounts 2 in
      register_token_account sha256 a0 a1 a2 (legacy_idcom_solana sha256 a2)
  | 17 =>
      do! need accounts data 3 9 "spl_transfer: missing args" in
      let! a0 := arg accounts 0 in
      let! a1 := arg accounts 1 in
      let! source := token_account a0 "unknown source token account" in
      let! destination := token_account a1 "unknown destination token account" in
      do! fail_if (negb (ta_mint source =? ta_mint destination)) "token account mint mismatch" in
      do! fail_if (negb (caller =? owner_idcom source))
        "spl transfer: caller does not own the source account" in
      transfer_between_owners sha256 (ta_mint source) (owner_idcom source) (owner_idcom destination)
        amount
  | 18 =>
      do! need accounts data 4 10 "spl_transfer_checked: missing args" in
      let! a0 := arg accounts 0 in
      let! a1 := arg accounts 1 in
      let! a2 := arg accounts 2 in
      let! source := token_account a0 "unknown source token account" in
      let! destination := token_account a2 "unknown destination token account" in
      do! fail_if (negb (ta_mint source =? a1) || negb (ta_mint destination =? a1))
        "token account mint mismatch" in
      do! fail_if (negb (caller =? owner_idcom source))
        "spl transfer checked: caller does not own the source account" in
      let! decimals := arg data 9 in
      do! check_decimals a1 decimals in
      transfer_between_owners sha256 a1 (owner_idcom source) (owner_idcom destination) amount
  | 19 =>
      do! need accounts data 4 9 "spl_transfer_with_ata: missing args" in
      let! a0 := arg accounts 0 in
      let! a1 := arg accounts 1 in
      let! a3 := arg accounts 3 in
      let! source := token_account a0 "unknown source token account" in
      do! fail_if (negb (caller =? owner_idcom source))
        "spl transfer with ata: caller does not own the source account" in
      let! (destination, create_changes) := ata_destination a1 (ta_mint source) a3 in
      let! changes :=
        transfer_between_owners sha256 (ta_mint source) (owner_idcom source)
          (owner_idcom destination) amount in
      ret (create_changes ++ changes)
  | 20 =>
      do! need accounts data 5 10 "spl_transfer_checked_with_ata: missing args" in
      let! a0 := arg accounts 0 in
      let! a1 := arg accounts 1 in
      let! a2 := arg accounts 2 in
      let! a4 := arg accounts 4 in
      let! source := token_account a0 "unknown source token account" in
      do! fail_if (negb (caller =? owner_idcom source))
        "spl transfer checked with ata: caller does not own the source account" in
      do! fail_if (negb (ta_mint source =? a1)) "source token account mint mismatch" in
      let! decimals := arg data 9 in
      do! check_decimals a1 decimals in
      let! (destination, create_changes) := ata_destination a2 a1 a4 in
      let! changes :=
        transfer_between_owners sha256 a1 (owner_idcom source) (owner_idcom destination) amount in
      ret (create_changes ++ changes)
  | 21 =>
      do! need accounts data 3 0 "ensure_token_account: missing args" in
      let! a0 := arg accounts 0 in
      let! a1 := arg accounts 1 in
      let! a2 := arg accounts 2 in
      ensure_registered_token_account sha256 a0 a1 a2 (legacy_idcom_solana sha256 a2)
  | _ => fail "TokenProgram: unknown instruction "
  end.

Definition token_execute (caller : AccountId) (accounts data : list Z)
    : M string (list StateChange) :=
  match data with
  | [] => fail "empty instruction data"
  | op :: _ =>
      let! created := ensure_token_program_account env_sha256 in
      let! changes := token_instruction caller accounts data op in
      ret (option_list created ++ changes)
  end.

Definition TokenProgram : SvmProgram :=
  {| program_id := TOKEN_PROGRAM_ID; program_name := "TokenProgram";
     program_execute := token_execute |}.

Definition registry_with_defaults : ProgramRegistry :=
  registry_register (registry_register ∅ SystemProgram) TokenProgram.
End programs.

(* ------------------------------------------------------------------ *)
(** * The engine *)

Definition parse_transfer_payload (payload : list Z) (allow_legacy : bool)
    : result NVmError (option Z * AccountId * Z) :=
  if (49 <=? length payload)%nat then
    let? nonce := sub_u64 1 payload in
    let? to := sub_key 9 payload in
    let? amount := sub_u64 41 payload in
    Ok (Some nonce, to, amount)
  else if allow_legacy && (41 <=? length payload)%nat then
    let? to := sub_key 1 payload in
    let? amount := sub_u64 33 payload in
    Ok (None, to, amount)
  else Err (SvmError "transfer payload too short or missing nonce").

Definition is_raw_solana (tx : Transaction) : bool :=
  match raw_chain tx with
  | Some raw => match raw_kind raw with RawSolana => true | _ => false end
  | None => false
  end.

Section engine.
Context {CE : CryptoEnv} {Spl : SplEnv}.
Variable registry : ProgramRegistry.

(** The slot and the value of the replay marker of a raw Solana transaction. *)
Definition solana_replay_marker (tx : Transaction) : result NVmError (option (Z * Z)) :=
  match raw_chain tx with
  | Some raw =>
      match raw_kind raw with
      | RawSolana =>
          match extract_first_solana_signature (raw_bytes raw) with
          | Err e => Err (SvmError (nvm_error_text e))
          | Ok signature =>
              let slot := domain_slot (att_domain (attestation tx)) in
              let marker := be_num ([1] ++ le_bytes 8 slot ++ replicate 23 0) in
              Ok (Some (solana_signature_replay_slot signature, marker))
          end
      | _ => Ok None
      end
  | None => Ok None
  end.

Definition svm_invoke (sender : AccountId) (payload : list Z) : M NVmError (list StateChange) :=
  do! fail_if (length payload <? 34)%nat (SvmError "invoke payload too short") in
  let! program_id := lift (sub_key 1 payload) in
  let! n := lift (index payload 33) in
  let num_accounts := Z.to_nat n in
  let accounts_end := (34 + num_accounts * 32)%nat in
  do! fail_if (length payload <? accounts_end)%nat (SvmError "invoke: not enough account data") in
  let! (accounts, _) := lift (read_keys num_accounts payload 34) in
  let instruction_data := drop accounts_end payload in
  let! program := require (registry !! program_id) (SvmError "unknown program: 0x") in
  map_err SvmError (program_execute program sender accounts instruction_data).

Definition svm_transfer (sender : AccountId) (payload : list Z) (allow_legacy : bool)
    : M NVmError (list StateChange) :=
  let! (expected_nonce, recipient, amount) := lift (parse_transfer_payload payload allow_legacy) in
  let! there := contains recipient in
  let! created :=
    (if there : bool then ret []
     else
       do! modify (fun t => insert_account env_sha256 t (account_new recipient)) in
       ret [AccountCreated recipient]) in
  let! found := get_account sender in
  let! account := require found (SvmError "sender account not found") in
  let! transfer_changes :=
    map_err (fun e => SvmError (error_text e))
      (transfer sender recipient amount (Some (default (acc_nonce account) expected_nonce))) in
  ret (created ++ transfer_changes).

Definition svm_execute_impl (tx : Transaction) : M NVmError VmReceipt :=
  match payload tx with
  | [] => fail EmptyPayload
  | opcode :: _ =>
      let sender := tx_sender tx in
      let! solana_replay_marker := lift (solana_replay_marker tx) in
      do! match solana_replay_marker with
          | Some (replay_slot, _) =>
              let! used := gets (fun t => get_storage t sender replay_slot) in
              fail_if (negb (used =? 0))
                (SvmError "solana transaction signature has already been used")
          | None => ret tt
          end in
      let! state_changes :=
        (if opcode =? 32 then svm_invoke sender (payload tx)
         else if opcode =? 33 then svm_transfer sender (payload tx) (is_raw_solana tx)
         else fail (SvmError "unsupported SVM opcode: 0x")) in
      let! state_changes :=
        match solana_replay_marker with
        | Some (replay_slot, marker) =>
            do! modify (fun t => set_storage t sender replay_slot marker) in
            ret (state_changes ++ [StorageChange sender replay_slot 0 marker])
        | None => ret state_changes
        end in
      ret {| vm_id := Svm; vm_tx_hash := tx_hash env_sha256 tx; vm_success := true;
             vm_sender := sender; vm_changes := state_changes; vm_error := None;
             vm_simulated := false; vm_gas_used := None; vm_contract_address := None;
             vm_return_data := None; vm_logs := [] |}
  end.

Definition svm_engine : VmEngine := fun tx => map_err nvm_error_to_vm (svm_execute_impl tx).
End engine.

(* ------------------------------------------------------------------ *)
(** * Conservation *)

Section conservation.
Context {CE : CryptoEnv} {Spl : SplEnv}.

Lemma token_account_framed a msg : framed (token_account a msg).
Proof. unfold token_account. repeat framed_step. Qed.

Lemma check_decimals_framed m d : framed (check_decimals m d).
Proof. unfold check_decimals. repeat framed_step. Qed.

Lemma ata_destination_framed a m o : framed (ata_destination a m o).
Proof.
  unfold ata_destination. repeat framed_step; [apply ensure_framed|apply token_account_framed].
Qed.

Lemma token_execute_framed caller accounts data : framed (token_execute caller accounts data).
Proof.
  unfold token_execute. destruct data as [|op rest]; [by apply framed_pure|]. set (data := op :: rest).
  framed_step; [apply framed_ensure|]. framed_step; [|framed_step].
  unfold token_instruction, need, arg. cbv zeta. repeat framed_step;
    first [apply create_mint_framed|apply mint_to_framed|apply transfer_framed|apply approve_framed
          |apply transfer_from_framed|apply register_framed|apply ensure_framed
          |apply token_account_framed|apply check_decimals_framed|apply ata_destination_framed].
Qed.

Lemma frame_moved t t' : tree_fits t -> token_frame t t' -> moved t t' 0.
Proof.
  intros Hf [_ [Ea|[Hn Ea]] Er]; [apply moved_same; [done|done|by rewrite Er]|].
  apply (moved_new t t' token_program_account_id (account_new token_program_account_id)); done.
Qed.

Lemma new_account_moved t id :
  tree_fits t -> accounts t !! id = None -> moved t (insert_account env_sha256 t (account_new id)) 0.
Proof.
  intros Hf Hn. apply (moved_new t _ id (account_new id)); done.
Qed.

Lemma transfer_moves {F} (f : EngineError -> F) t from to amount en :
  tree_fits t -> 0 <= amount -> wp (map_err f (transfer from to amount en)) t (ok_moves t).
Proof.
  intros Hf Ha. pose proof (transfer_spec t from to amount en true Hf Ha) as [(d & Hm & Hd) _].
  unfold wp, map_err, transfer in *. destruct (transfer_with_nonce_policy from to amount en true t) as [t' [r|e]]; [|done].
  cbn in *. by subst d.
Qed.

Lemma data_amount_nonneg data : Forall is_byte data -> 0 <= data_amount data.
Proof. intros H. apply le_num_range. by apply Forall_take, Forall_drop. Qed.

Lemma system_execute_moves t caller accounts data :
  tree_fits t -> Forall is_byte data -> wp (system_execute caller accounts data) t (ok_moves t).
Proof.
  intros Hf Hb. unfold system_execute. destruct data as [|op rest] eqn:Ed; [done|].
  rewrite <-Ed in *. destruct op as [|[]|]; try done.
  - unfold arg. wp_go; try done. by apply transfer_moves; [|apply data_amount_nonneg].
  - unfold arg. wp_go; try done. bool_prop. apply new_account_moved; [done|by apply eq_None_not_Some].
Qed.

(** The programs of a registry conserve money. *)
Definition programs_conserve (reg : ProgramRegistry) : Prop :=
  map_Forall (fun _ p => forall t caller accounts data, tree_fits t -> Forall is_byte data ->
    wp (program_execute p caller accounts data) t (ok_moves t)) reg.

Lemma defaults_conserve : programs_conserve registry_with_defaults.
Proof.
  apply map_Forall_insert_2; [|apply map_Forall_insert_2; [|apply map_Forall_empty]].
  - intros t caller accounts data Hf _. generalize (token_execute_framed caller accounts data t).
    apply wp_mono. intros t' [r|e] F; [|done]. by apply frame_moved.
  - intros t caller accounts data. apply system_execute_moves.
Qed.

Lemma svm_invoke_moves reg t sender payload :
  programs_conserve reg -> tree_fits t -> Forall is_byte payload ->
  wp (svm_invoke reg sender payload) t (ok_moves t).
Proof.
  intros Hr Hf Hb. unfold svm_invoke. cbv zeta. wp_step. wp_step; [|done].
  apply wp_bind, wp_lift. destruct (sub_key 1 payload) as [id|]; [|done].
  apply wp_bind, wp_lift. destruct (index payload 33) as [n|]; [|done].
  wp_step. wp_step; [|done]. apply wp_bind, wp_lift. destruct (read_keys _ _ _) as [[accounts o]|]; [|done].
  wp_step. wp_step; [|done]. match goal with H : reg !! id = Some ?x |- _ => rename x into p, H into Ep end.
  pose proof (Hr id p Ep t sender accounts (drop (34 + Z.to_nat n * 32) payload) Hf
    (Forall_drop _ _ _ Hb)) as Hp.
  unfold wp, map_err in *. by destruct (program_execute _ _ _ _ t) as [t' [r|e]].
Qed.

Lemma sub_u64_nonneg p l x : Forall is_byte l -> sub_u64 p l = Ok x -> 0 <= x.
Proof.
  intros Hb (b & Eb & [= <-])%rbind_ok. unfold sub in Eb. case_match; [|done]. injection Eb as <-.
  apply le_num_range. by apply Forall_take, Forall_drop.
Qed.

Lemma svm_transfer_moves t sender payload legacy :
  tree_fits t -> Forall is_byte payload -> wp (svm_transfer sender payload legacy) t (ok_moves t).
Proof.
  intros Hf Hb. unfold svm_transfer. apply wp_bind, wp_lift.
  destruct (parse_transfer_payload payload legacy) as [[[en to] amount]|] eqn:Ep; [|done].
  assert (0 <= amount) as Ha.
  { unfold parse_transfer_payload in Ep. repeat case_match; try done;
      repeat (apply rbind_ok in Ep as (? & ? & Ep)); injection Ep as _ _ <-; by eapply sub_u64_nonneg. }
  apply wp_bind, wp_gets. apply ok_moves_bind.
  { wp_go; [by apply moved_refl|]. bool_prop. apply new_account_moved; [done|by apply eq_None_not_Some]. }
  intros created t1 [Hf1 _ _ _]. wp_step. wp_step. wp_step. wp_step; [|done].
  apply ok_moves_bind; [by apply transfer_moves|]. intros l t2 [Hf2 _ _ _]. by apply moved_refl.
Qed.

#[export] Instance svm_conserving : Conserving (svm_engine registry_with_defaults).
Proof.
  intros tx t t' r Hf Hb. unfold svm_engine, map_err.
  destruct (svm_execute_impl registry_with_defaults tx t) as [t1 [x|e]] eqn:E; [|done]. intros [= <- _].
  assert (wp (svm_execute_impl registry_with_defaults tx) t (ok_moves t)) as H; [|exact (wp_run _ _ _ _ _ H E)].
  clear E. unfold svm_execute_impl. destruct (payload tx) as [|op rest] eqn:Ep; [done|].
  rewrite <-Ep in Hb |- *. cbv zeta. apply wp_bind, wp_lift. destruct (solana_replay_marker tx) as [marker|]; [|done].
  apply ok_moves_bind. { destruct marker as [[slot v]|]; wp_go; try done; by apply moved_refl. }
  intros _ t2 [Hf2 _ _ _]. apply ok_moves_bind.
  { destruct (op =? 32); [by apply svm_invoke_moves; [apply defaults_conserve|..]|].
    destruct (op =? 33); [by apply svm_transfer_moves|done]. }
  intros changes t3 [Hf3 _ _ _]. apply ok_moves_bind.
  { destruct marker as [[slot v]|]; wp_go; [by apply moved_same|by apply moved_refl]. }
  intros l t4 [Hf4 _ _ _]. by apply moved_refl.
Qed.
End conservation.

(* ------------------------------------------------------------------ *)
(** * Blocks of native and Solana transactions *)

(** The machine of the node, as far as these blocks use it: the native engine and
    the Solana engine with the built-in programs. *)
Record standard_engines {CE : CryptoEnv} {K : K256} {RV : RawVerifiers} (policy : ExecutionPolicy) (vm : NVm) : Prop := {
  se_native : engines vm AceNative = Some (native_engine policy);
  se_svm : engines vm Svm = Some (svm_engine registry_with_defaults);
}.

(** Transactions the dispatcher gives to these two engines, or to none. *)
Definition native_or_svm (tx : Transaction) : bool :=
  match payload tx with
  | [] => true
  | op :: _ =>
      negb (is_hfi_opcode op) &&
      match vm_from_opcode op with None | Some AceNative | Some Svm => true | _ => false end
  end.

(** C6. Executing a block of native and Solana transactions neither creates nor
    destroys money.  Whatever the transactions are (also ones signed on a foreign
    chain, malformed ones and ones of unknown opcodes), however many of them fail,
    and whatever other engines and HFI Pay hook the machine has, the total balance
    of the hot accounts stays as it was, balances and nonces stay in 64 bits, no
    account is lost, no nonce falls, and there is one receipt per transaction.
    Transactions for the other machines and for HFI Pay (where a payment to oneself
    creates money) are not in the block. *)
Theorem dispatched_block_conserves {CE : CryptoEnv} {K : K256} {RV : RawVerifiers} policy vm slot txs t :
  standard_engines policy vm -> tree_fits t ->
  Forall (fun tx => Forall is_byte (payload tx) /\ native_or_svm tx = true) txs ->
  let '(t', receipts) := nvm_execute_block vm slot t txs in
  total_balance t' = total_balance t /\ tree_fits t' /\ grows t t' /\
  length receipts = length txs.
Proof.
  intros [En Es] Hf Hb. destruct (nvm_block_moves vm slot txs t Hf) as [Hm Hl].
  { eapply Forall_impl; [exact Hb|]. intros tx [Hx Hr]. split; [done|]. intros op rest Ep.
    unfold native_or_svm in Hr. rewrite Ep in Hr. bool_prop. split; [|congruence]. intros v e _ Hv He. rewrite Hv in *.
    destruct v; try done; simplify_eq; [apply native_conserving|apply svm_conserving]. }
  destruct (nvm_execute_block vm slot t txs) as [t' rs]. cbn in *. destruct Hm. split_and!; [lia|done..].
Qed.

(* ------------------------------------------------------------------ *)
(** * Who may move tokens *)

Section authority.
Context {CE : CryptoEnv} {Spl : SplEnv} (ids : gset Z).

(** The mints and owners that token accounts name are in [ids]. *)
Definition closed (L : Ledger) : Prop :=
  forall a meta, a ∈ ids -> ledger_meta L a = Some meta -> ta_mint meta ∈ ids /\ owner_idcom meta ∈ ids.

Definition names_ids (op : TokenOp) : Prop :=
  match op with
  | OpRegister _ _ _ idcom | OpEnsure _ _ _ idcom => idcom ∈ ids
  | _ => True
  end.

Lemma closed_same L L' : (forall a, ledger_meta L' a = ledger_meta L a) -> closed L -> closed L'.
Proof. intros E H a meta Ha Em. rewrite E in Em. by apply (H a). Qed.

Lemma closed_op address L op L' :
  closed L -> token_op_ok ids op -> names_ids op -> ledger_op address L op = Ok L' -> closed L'.
Proof.
  intros H. assert (forall a m sol idcom, m ∈ ids -> idcom ∈ ids ->
    ledger_register L a m sol idcom = Ok L' -> closed L') as Hregister.
  { intros a m sol idcom Hm Hi E. unfold ledger_register in E. destruct (tokens L m); [|done]. cbn in E.
    destruct (_ || _); [done|]. injection E as <-. intros a' meta Ha'. unfold ledger_meta. cbn. unfold fupd.
    repeat case_decide; [|exact (H a' meta Ha')]. case_match; [done|]. by intros [= <-]. }
  destruct op as [m d c|m o amount c|m from to amount|m o s amount|m s o r amount|a m sol idcom
    |a m sol idcom|m]; cbn; intros Hok Hn.
  - unfold ledger_create_mint. destruct (tokens L m); [done|]. intros [= <-]. by apply (closed_same L).
  - unfold ledger_mint_to. destruct (amount =? 0); [by intros [= <-]|].
    destruct (tokens L m) as [[]|]; [|done]. cbn. repeat case_match; try done.
    intros [= <-]. by apply (closed_same L).
  - unfold ledger_transfer. destruct (amount =? 0); [by intros [= <-]|]. destruct (tokens L m); [|done]. cbn.
    repeat case_match; try done; intros [= <-]; by apply (closed_same L).
  - unfold ledger_approve. destruct (tokens L m); [|done]. intros [= <-]. by apply (closed_same L).
  - unfold ledger_transfer_from. case_match; [done|]. intros (L1 & E1 & E2)%rbind_ok.
    assert (closed L1) as H1.
    { unfold ledger_transfer in E1. destruct (amount =? 0); [by injection E1 as <-|].
      destruct (tokens L m); [|done]. cbn in E1. repeat case_match; try done; injection E1 as <-; by apply (closed_same L). }
    unfold ledger_approve in E2. destruct (tokens L1 m); [|done]. injection E2 as <-. by apply (closed_same L1).
  - apply Hregister; [apply Hok|done].
  - unfold ledger_ensure. destruct (ledger_meta L a); [|apply Hregister; [apply Hok|done]].
    case_match; [|done]. by intros [= <-].
  - intros [= <-]. by apply (closed_same L).
Qed.

Hypothesis Hshape : digest_shape env_sha256.
Hypothesis Hapart : token_apart env_sha256 ids.
Hypothesis Hids : forall x, x ∈ ids -> is_u256 x.

Record sound (t : StateTree) (L : Ledger) : Prop := {
  so_spells : spells env_sha256 ids t L;
  so_ok : ledger_ok ids L;
  so_closed : closed L;
}.

(** A successful run by [caller] leaves a ledger the caller was permitted to
    make. *)
Definition grants {A} (caller : AccountId) (c : M string A) (t : StateTree) (L : Ledger) : Prop :=
  wp c t (fun t' r => match r with
    | Ok _ => exists L', sound t' L' /\ permitted caller L L'
    | Err _ => True
    end).

Lemma grants_bind {A B} caller (c : M string A) (k : A -> M string B) t L :
  grants caller c t L -> (forall a t1 L1, sound t1 L1 -> grants caller (k a) t1 L1) ->
  grants caller (bind c k) t L.
Proof.
  intros Hc Hk. apply wp_bind. revert Hc. apply wp_mono. intros t1 [a|e]; [|done].
  intros (L1 & S1 & P1). generalize (Hk a t1 L1 S1). apply wp_mono. intros t2 [b|e]; [|done].
  intros (L2 & S2 & P2). exists L2. split; [done|]. by eapply permitted_trans.
Qed.

Lemma grants_ret {A} caller (a : A) t L : sound t L -> grants caller (ret a) t L.
Proof. intros S. exists L. split; [done|apply permitted_refl]. Qed.

Lemma grants_op {A} caller (c : M string A) t L op :
  sound t L -> token_op_ok ids op -> names_ids op -> by_caller caller op ->
  tsim env_sha256 ids c t L (ledger_op (erc20_of env_sha256) L op) -> grants caller c t L.
Proof.
  intros [R H Hc] Hok Hn Hby. unfold tsim, grants. apply wp_mono. intros t' x.
  destruct (ledger_op _ L op) as [L'|e] eqn:E; [|by intros [-> _]]. intros [[a ->] R'].
  exists L'. split; [|by apply (op_permitted ids (erc20_of env_sha256) caller L op)].
  split; [done|by apply (ledger_op_ok ids (erc20_of env_sha256) L op)|].
  by apply (closed_op (erc20_of env_sha256) L op).
Qed.

Lemma grants_ensure_program {A} caller (k : option StateChange -> M string A) t L :
  sound t L -> (forall o t1, sound t1 L -> grants caller (k o) t1 L) ->
  grants caller (bind (ensure_token_program_account env_sha256) k) t L.
Proof.
  intros [R H Hc] Hk. apply wp_bind. unfold ensure_token_program_account. cbv beta zeta.
  wp_go; apply Hk; split; try done. revert R. by apply spells_storage.
Qed.

Lemma grants_transfer caller m to amount t L :
  sound t L -> m ∈ ids -> caller ∈ ids -> to ∈ ids -> is_u64 amount ->
  grants caller (transfer_between_owners env_sha256 m caller to amount) t L.
Proof.
  intros S Hm Hc Ht Ha. apply (grants_op caller _ t L (OpTransfer m caller to amount)); try done.
  apply transfer_sim; try done; [apply S|apply S|apply Ha].
Qed.

Lemma grants_ensure caller a m sol idcom t L :
  sound t L -> a ∈ ids -> m ∈ ids -> idcom ∈ ids ->
  grants caller (ensure_registered_token_account env_sha256 a m sol idcom) t L.
Proof.
  intros S Ha Hm Hi. apply (grants_op caller _ t L (OpEnsure a m sol idcom)); try done.
  apply ensure_sim; try done. apply S.
Qed.

(** ** The instructions *)

Lemma grants_fail_if {A} caller c msg (k : unit -> M string A) t L :
  (c = false -> grants caller (k tt) t L) -> grants caller (bind (fail_if c msg) k) t L.
Proof. intros H. apply wp_bind, wp_fail_if; [exact H|done]. Qed.

Lemma grants_arg {A} caller l i (k : Z -> M string A) t L :
  (forall a, l !! i = Some a -> grants caller (k a) t L) -> grants caller (bind (arg l i) k) t L.
Proof. intros H. apply wp_bind, wp_require; [exact H|done]. Qed.

Lemma grants_account {A} caller a msg (k : TokenAccountMeta -> M string A) t L :
  sound t L -> a ∈ ids ->
  (forall meta, ta_mint meta ∈ ids -> owner_idcom meta ∈ ids -> grants caller (k meta) t L) ->
  grants caller (bind (token_account a msg) k) t L.
Proof.
  intros S Ha Hk. apply wp_bind. unfold token_account. apply wp_bind, wp_gets.
  rewrite (read_account_meta env_sha256 ids t L a (so_spells t L S) Ha).
  apply wp_require; [|done]. intros meta E. destruct (so_closed t L S a meta Ha E). by apply Hk.
Qed.

Lemma grants_decimals {A} caller m d (k : unit -> M string A) t L :
  grants caller (k tt) t L -> grants caller (bind (check_decimals m d) k) t L.
Proof. intros H. apply wp_bind. unfold check_decimals. by wp_go. Qed.

Lemma grants_destination {A} caller a m owner (k : TokenAccountMeta * list StateChange -> M string A) t L :
  sound t L -> a ∈ ids -> m ∈ ids -> legacy_idcom_solana env_sha256 owner ∈ ids ->
  (forall meta l t1 L1, sound t1 L1 -> owner_idcom meta ∈ ids -> grants caller (k (meta, l)) t1 L1) ->
  grants caller (bind (ata_destination a m owner) k) t L.
Proof.
  intros S Ha Hm Ho Hk. unfold ata_destination.
  assert (forall c, grants caller (bind (bind (gets (fun t => get_token_account_meta env_sha256 t a)) c) k) t L <->
    grants caller (bind (c (ledger_meta L a)) k) t L) as ->.
  { intros c. unfold grants, wp, bind, gets.
    by rewrite (read_account_meta env_sha256 ids t L a (so_spells t L S) Ha). }
  destruct (ledger_meta L a) as [meta|] eqn:E.
  - destruct (so_closed t L S a meta Ha E) as [_ Hi]. apply wp_bind, wp_bind, wp_fail_if; [|done].
    intros _. apply wp_ret. by apply Hk.
  - apply wp_bind, wp_bind, wp_require; [|done]. intros expected _. apply wp_bind, wp_fail_if; [|done].
    intros _. apply wp_bind. generalize (grants_ensure caller a m owner _ t L S Ha Hm Ho). apply wp_mono.
    intros t1 [l|e]; [|done]. intros (L1 & S1 & P1). unfold token_account. apply wp_bind, wp_bind, wp_gets.
    rewrite (read_account_meta env_sha256 ids t1 L1 a (so_spells t1 L1 S1) Ha). apply wp_require; [|done].
    intros meta Em. destruct (so_closed t1 L1 S1 a meta Ha Em) as [_ Hi]. apply wp_ret.
    generalize (Hk meta l t1 L1 S1 Hi). apply wp_mono. intros t2 [x|e]; [|done].
    intros (L2 & S2 & P2). exists L2. split; [done|]. by eapply permitted_trans.
Qed.

Lemma data_amount_u64 data : Forall is_byte data -> is_u64 (data_amount data).
Proof.
  intros H. unfold data_amount. set (l := take 8 (drop 1 data)).
  assert (Forall is_byte l) as Hl by by apply Forall_take, Forall_drop.
  pose proof (le_num_range l Hl) as Hr. unfold is_u64, u64_max. split; [lia|].
  assert (length l <= 8)%nat as Hn by (unfold l; rewrite length_take; lia).
  assert (256 ^ Z.of_nat (length l) <= 256 ^ 8) by (apply Z.pow_le_mono_r; lia). cbn in *. lia.
Qed.

Lemma token_instruction_grants caller accounts data op t L :
  sound t L -> caller ∈ ids -> Forall is_byte data ->
  Forall (fun a => a ∈ ids /\ legacy_idcom_solana env_sha256 a ∈ ids) accounts ->
  grants caller (token_instruction caller accounts data op) t L.
Proof.
  intros S Hc Hd Ha. pose proof (data_amount_u64 data Hd) as Hu.
  assert (forall i a, accounts !! i = Some a -> a ∈ ids) as Hacc
    by (intros i a Ei; by apply (Forall_lookup_1 _ _ _ _ Ha Ei)).
  assert (forall i a, accounts !! i = Some a -> legacy_idcom_solana env_sha256 a ∈ ids) as Hleg
    by (intros i a Ei; by apply (Forall_lookup_1 _ _ _ _ Ha Ei)).
  pose proof S as [R Hok Hcl]. unfold token_instruction, need. cbv zeta.
  repeat match goal with |- grants _ (match ?p with _ => _ end) _ _ => is_var p; destruct p end; try done;
    repeat lazymatch goal with
      | |- grants _ (bind (fail_if _ _) _) _ _ => apply grants_fail_if; intros ?
      | |- grants _ (bind (arg _ _) _) _ _ => apply grants_arg; intros ? ?
      | |- grants _ (bind (token_account _ _) _) _ _ => apply grants_account; [done|by eauto|intros ? ? ?]
      | |- grants _ (bind (check_decimals _ _) _) _ _ => apply grants_decimals
      end;
    repeat match goal with H : negb (caller =? _) = false |- _ => apply negb_false_iff, Z.eqb_eq in H as <- end.
  - apply (grants_op caller _ t L (OpCreateMint a a0 caller)); try done.
    + split; [by eauto|]. by apply (Forall_lookup_1 _ _ _ _ Hd H1).
    + apply create_mint_sim; eauto. by apply (Forall_lookup_1 _ _ _ _ Hd H1).
  - apply grants_destination; eauto. intros m' l t1 L1 S1 Hi. apply grants_bind; [by apply grants_transfer|].
    intros. by apply grants_ret.
  - apply grants_ensure; eauto.
  - apply grants_transfer; eauto.
  - apply (grants_op caller _ t L (OpApprove a caller a0 (data_amount data))); try done.
    + split_and!; eauto; apply Hu.
    + apply approve_sim; eauto.
  - apply grants_transfer; eauto.
  - apply grants_destination; eauto. intros m' l t1 L1 S1 Hi. apply grants_bind; [by apply grants_transfer; eauto|].
    intros. by apply grants_ret.
  - apply (grants_op caller _ t L (OpRegister a a0 a1 (legacy_idcom_solana env_sha256 a1))); try done.
    + split; eauto.
    + cbn. eauto.
    + apply register_sim; eauto.
  - apply (grants_op caller _ t L (OpTransferFrom a caller a0 a1 (data_amount data))); try done.
    + split_and!; eauto; apply Hu.
    + apply transfer_from_sim; eauto. apply Hu.
  - apply grants_transfer; eauto.
  - apply (grants_op caller _ t L (OpMintTo a a0 (data_amount data) caller)); try done.
    + split_and!; eauto; apply Hu.
    + apply mint_to_sim; eauto. apply Hu.
Qed.

Lemma token_execute_grants caller accounts data t L :
  sound t L -> caller ∈ ids -> Forall is_byte data ->
  Forall (fun a => a ∈ ids /\ legacy_idcom_solana env_sha256 a ∈ ids) accounts ->
  grants caller (token_execute caller accounts data) t L.
Proof.
  intros S Hc Hd Ha. unfold token_execute. destruct data as [|op rest] eqn:Ed; [done|]. rewrite <-Ed in *.
  apply grants_ensure_program; [done|]. intros o t1 S1.
  apply grants_bind; [by apply token_instruction_grants|]. intros. by apply grants_ret.
Qed.
End authority.

(** C38. Nobody's tokens move without their consent.  After a successful call of
    the token program, by whichever instruction, what another account than the
    caller owns of a mint has fallen by at most the allowance that account had
    given to the caller and the call used up; allowances between others are
    unchanged; a mint keeps its authority and decimals, and its supply grows only
    in a call by its authority; the owner and the mint of a token account never
    change.  The ledger stays sound, so that the same holds for the next call. *)
Theorem token_program_permissions {CE : CryptoEnv} {Spl : SplEnv} ids caller accounts data t L t' changes :
  digest_shape env_sha256 -> token_apart env_sha256 ids -> (forall x, x ∈ ids -> is_u256 x) ->
  sound ids t L -> caller ∈ ids -> Forall is_byte data ->
  Forall (fun a => a ∈ ids /\ legacy_idcom_solana env_sha256 a ∈ ids) accounts ->
  token_execute caller accounts data t = (t', Ok changes) ->
  (forall m o, m ∈ ids -> o ∈ ids -> o <> caller ->
     balance_of env_sha256 t m o <= balance_of env_sha256 t' m o +
       (allowance_of env_sha256 t m o caller - allowance_of env_sha256 t' m o caller)) /\
  (forall m o s, m ∈ ids -> o ∈ ids -> s ∈ ids -> o <> caller -> s <> caller ->
     allowance_of env_sha256 t' m o s = allowance_of env_sha256 t m o s) /\
  (forall m meta, m ∈ ids -> get_mint_meta env_sha256 t m = Some meta ->
     exists new, get_mint_meta env_sha256 t' m =
         Some {| supply := new; decimals := decimals meta; authority := authority meta |} /\
       (new = supply meta \/ (supply meta < new /\ caller = authority meta))) /\
  (forall a meta, a ∈ ids -> get_token_account_meta env_sha256 t a = Some meta ->
     get_token_account_meta env_sha256 t' a = Some meta) /\
  exists L', sound ids t' L'.
Proof.
  intros Hshape Hapart Hids S Hc Hd Ha E.
  pose proof (token_execute_grants ids Hshape Hapart Hids caller accounts data t L S Hc Hd Ha) as G.
  unfold grants, wp in G. rewrite E in G. destruct G as (L' & S' & [B A U P T]).
  destruct S as [R H Hcl]. pose proof (so_spells ids t' L' S') as R'. split_and!.
  - intros m o Hm Ho Hne.
    rewrite (sp_balance _ _ _ _ R m o Hm Ho : balance_of _ t m o = _),
      (sp_balance _ _ _ _ R' m o Hm Ho : balance_of _ t' m o = _),
      (sp_allowance _ _ _ _ R m o caller Hm Ho Hc : allowance_of _ t m o caller = _),
      (sp_allowance _ _ _ _ R' m o caller Hm Ho Hc : allowance_of _ t' m o caller = _). by apply B.
  - intros m o s Hm Ho Hs Hne Hne'.
    rewrite (sp_allowance _ _ _ _ R m o s Hm Ho Hs : allowance_of _ t m o s = _),
      (sp_allowance _ _ _ _ R' m o s Hm Ho Hs : allowance_of _ t' m o s = _). by apply A.
  - intros m meta Hm. rewrite (read_mint_meta _ _ _ _ m R Hm), (read_mint_meta _ _ _ _ m R' Hm). unfold ledger_mint.
    destruct (tokens L m) as [[s d]|] eqn:Et; [|done]. intros [= <-].
    destruct (P m s d Et) as [-> (s' & -> & Hs)]. by exists s'.
  - intros a meta Hm. rewrite (read_account_meta _ _ _ _ a R Hm), (read_account_meta _ _ _ _ a R' Hm). apply T.
  - by exists L'.
Qed.

(* ------------------------------------------------------------------ *)
(** * Replay *)

Section replay.
Context {CE : CryptoEnv} {K : K256} {RV : RawVerifiers}.

(** What the dispatcher knows when it has accepted a raw Solana transaction. *)
Definition solana_accepted (t : StateTree) (tx : Transaction) (raw : RawChainPayload) : Prop :=
  exists v,
    extract_first_solana_signature (raw_bytes raw) = Ok (sol_first_signature v) /\
    get_storage t (tx_sender tx) (solana_signature_replay_slot (sol_first_signature v)) = 0 /\
    (head (payload tx) = Some 32 \/ head (payload tx) = Some 33).

Lemma solana_authorised t tx raw op :
  raw_chain tx = Some raw -> raw_kind raw = RawSolana ->
  wp (authorise tx op) t (fun _ r => match r with Ok _ => solana_accepted t tx raw | Err _ => True end).
Proof.
  intros Hraw Hk. unfold authorise, raw_auth, prepare_raw_chain_accounts. rewrite Hraw, Hk.
  apply wp_bind. cbn [raw_committee_domain]. destruct (committee_certificate raw) as [c|]; [|done].
  destruct (cert_domain c); try done. apply wp_ret. cbv zeta. wp_step. wp_step.
  apply wp_bind, wp_lift. destruct (verify_raw_solana_transfer_for_slot _ _ _ _) as [v|] eqn:Ev; [|done].
  apply verified_fields in Ev as (Es & Eg & Eh).
  wp_go; try done; bool_prop; exists v; split_and!; congruence.
Qed.

(** Whatever a computation does, what follows it has to be right. *)
Lemma wp_after {E A B} (c : M E A) (k : A -> M E B) t Q :
  (forall a t1, wp (k a) t1 Q) -> (forall e t1, Q t1 (Err e)) -> wp (bind c k) t Q.
Proof. intros Hk He. apply wp_bind. unfold wp. destruct (snd (c t)); [apply Hk|apply He]. Qed.

Lemma svm_leaves_marker reg tx raw sig t t' r :
  raw_chain tx = Some raw -> raw_kind raw = RawSolana ->
  extract_first_solana_signature (raw_bytes raw) = Ok sig ->
  svm_engine reg tx t = (t', Ok r) ->
  get_storage t' (tx_sender tx) (solana_signature_replay_slot sig) <> 0.
Proof.
  intros Hraw Hk Hs. unfold svm_engine, map_err.
  destruct (svm_execute_impl reg tx t) as [t1 [x|e]] eqn:E; [|done]. intros [= <- _].
  assert (wp (svm_execute_impl reg tx) t (fun t1 r => match r with
    | Ok _ => get_storage t1 (tx_sender tx) (solana_signature_replay_slot sig) <> 0
    | Err _ => True end)) as H; [|exact (wp_run _ _ _ _ _ H E)]. clear E t1 x.
  unfold svm_execute_impl. destruct (payload tx) as [|op rest]; [done|]. cbv zeta.
  unfold solana_replay_marker. rewrite Hraw, Hk, Hs. apply wp_bind, wp_lift.
  apply wp_after; [|done]. intros _ t1. apply wp_after; [|done]. intros changes t2. wp_go.
  rewrite get_set_storage. apply tron_replay_marker_nonzero.
Qed.

Lemma solana_run_marks vm reg tx raw sig slot t t' r :
  engines vm Svm = Some (svm_engine reg) ->
  raw_chain tx = Some raw -> raw_kind raw = RawSolana ->
  extract_first_solana_signature (raw_bytes raw) = Ok sig ->
  nvm_execute_transaction vm tx slot t = (t', Ok r) ->
  get_storage t' (tx_sender tx) (solana_signature_replay_slot sig) <> 0.
Proof.
  intros He Hraw Hk Hs. unfold nvm_execute_transaction. destruct (payload tx) as [|op rest] eqn:Ep; [done|].
  destruct (is_raw_chain tx && is_zk_auth tx); [done|]. intros E%atomically_ok.
  assert (wp (dispatch vm tx op slot) t (fun t1 r => match r with
    | Ok _ => get_storage t1 (tx_sender tx) (solana_signature_replay_slot sig) <> 0
    | Err _ => True end)) as H; [|exact (wp_run _ _ _ _ _ H E)]. clear E.
  unfold dispatch, tron_marker. rewrite Hraw, Hk. apply wp_bind, wp_lift, wp_bind.
  generalize (solana_authorised t tx raw op Hraw Hk). apply wp_mono. intros t1 [[]|e]; [|done].
  intros (v & _ & _ & Hop). rewrite Ep in Hop. cbn in Hop.
  assert (is_hfi_opcode op = false /\ vm_from_opcode op = Some Svm) as [-> ->]
    by (destruct Hop as [[= ->]|[= ->]]; done).
  cbn [require]. apply wp_bind, wp_ret. rewrite He. apply wp_bind, wp_ret, wp_bind. unfold wp, map_err.
  destruct (svm_engine reg tx t1) as [t2 [x|e]] eqn:E2; [|done]. cbn.
  by apply (svm_leaves_marker reg tx raw sig t1 t2 x).
Qed.

(** C39. A transaction signed on Solana runs at most once.  Once a raw Solana
    transaction has run, no transaction of the same sender with the same first
    signature runs again, whatever its bytes and whatever the machine, as long as
    the marker is kept: it fails and leaves the state as it was. *)
Theorem solana_runs_once vm reg tx raw sig slot t t' r vm2 tx2 raw2 slot2 t2 :
  engines vm Svm = Some (svm_engine reg) ->
  raw_chain tx = Some raw -> raw_kind raw = RawSolana ->
  extract_first_solana_signature (raw_bytes raw) = Ok sig ->
  nvm_execute_transaction vm tx slot t = (t', Ok r) ->
  raw_chain tx2 = Some raw2 -> raw_kind raw2 = RawSolana ->
  extract_first_solana_signature (raw_bytes raw2) = Ok sig -> tx_sender tx2 = tx_sender tx ->
  (let replay_slot := solana_signature_replay_slot sig in
   get_storage t2 (tx_sender tx) replay_slot = get_storage t' (tx_sender tx) replay_slot) ->
  exists e, nvm_execute_transaction vm2 tx2 slot2 t2 = (t2, Err e).
Proof.
  intros He Hraw Hk Hs Hrun Hraw2 Hk2 Hs2 Hsender Hkept. cbv zeta in Hkept.
  pose proof (solana_run_marks vm reg tx raw sig slot t t' r He Hraw Hk Hs Hrun) as Hm.
  destruct (nvm_execute_transaction vm2 tx2 slot2 t2) as [t3 [x|e]] eqn:E.
  2:{ exists e. by rewrite (nvm_error_restores _ _ _ _ _ _ E). }
  exfalso. revert E. unfold nvm_execute_transaction. destruct (payload tx2) as [|op rest]; [done|].
  destruct (is_raw_chain tx2 && is_zk_auth tx2); [done|]. intros E%atomically_ok. revert E.
  unfold dispatch, tron_marker. rewrite Hraw2, Hk2. unfold bind at 1, lift. unfold bind at 1.
  pose proof (solana_authorised t2 tx2 raw2 op Hraw2 Hk2) as H. unfold wp in H.
  destruct (authorise tx2 op t2) as [t4 [[]|e]]; [|done]. destruct H as (v & Ev & Eg & _).
  rewrite Hs2 in Ev. injection Ev as Ev. rewrite <-Ev, Hsender, Hkept in Eg. done.
Qed.
End replay.

(** ** Calls under an ACE credential carry no nonce *)

Section unprotected.
Context {CE : CryptoEnv} {K : K256} {RV : RawVerifiers} (ids : gset Z).

(** A call of the token program that transfers [amount] of [m] to [to]. *)
Definition invoke_transfer (m to amount : Z) : list Z :=
  token_payload [m; to] ([2] ++ le_bytes 8 amount).

Lemma svm_invoke_transfer sender m to amount t :
  is_u256 m -> is_u256 to ->
  svm_invoke registry_with_defaults sender (invoke_transfer m to amount) t =
  map_err SvmError (token_execute sender [m; to] ([2] ++ le_bytes 8 amount)) t.
Proof.
  intros Hm Ht. set (l := invoke_transfer m to amount).
  assert (cursor l 0 l) as H by (split; [lia|by rewrite drop_0]).
  unfold l at 2, invoke_transfer, token_payload in H.
  apply (cursor_advance l 0 [32]) in H. cbn [length Nat.add] in H.
  apply cursor_key in H as [E1 H]; [|done]. cbn [Nat.add] in H. apply cursor_index in H as [E2 H].
  cbn [Nat.add length Z.of_nat] in E2, H. pose proof H as H0.
  apply (keys_read l 34 [m; to]) in H0 as (o & E3 & _);
    [|by rewrite !Forall_cons].
  assert (length l = 107)%nat as El.
  { unfold l, invoke_transfer, token_payload. rewrite !length_app, keys_length. by rewrite length_be_bytes, length_le_bytes. }
  apply cursor_advance in H. rewrite keys_length in H. destruct H as [_ H]. cbn [length Nat.add Nat.mul] in H.
  cbn [length] in E3. unfold svm_invoke. cbv zeta. rewrite El. unfold bind, lift, fail_if, ret.
  cbn [Nat.ltb Nat.leb]. rewrite E1, E2, Nat2Z.id. cbn [Nat.ltb Nat.leb Nat.add Nat.mul]. rewrite E3, H.
  reflexivity.
Qed.

Hypothesis Hshape : digest_shape env_sha256.
Hypothesis Hapart : token_apart env_sha256 ids.
Hypothesis Hids : forall x, x ∈ ids -> is_u256 x.

Lemma token_transfer_runs sender m to amount t L :
  spells env_sha256 ids t L -> ledger_ok ids L -> m ∈ ids -> sender ∈ ids -> to ∈ ids -> sender <> to ->
  0 < amount <= u64_max -> is_Some (tokens L m) -> amount <= balances L m sender ->
  is_Some (accounts t !! token_program_account_id) ->
  exists t' cs, token_execute sender [m; to] ([2] ++ le_bytes 8 amount) t = (t', Ok cs) /\
    spells env_sha256 ids t' (moved_tokens L m sender to amount) /\
    ledger_ok ids (moved_tokens L m sender to amount) /\ accounts t' = accounts t.
Proof.
  intros R H Hm Hs Ht Hne Ha [x Ex] Hb Hp.
  assert (data_amount ([2] ++ le_bytes 8 amount) = amount) as Ed.
  { unfold data_amount. change (drop 1 ([2] ++ le_bytes 8 amount)) with (le_bytes 8 amount).
    rewrite take_ge by (by rewrite length_le_bytes). apply le_num_bytes. unfold u64_max in Ha. cbn. lia. }
  pose proof (ledger_transfer_moves L m sender to amount Hne ltac:(lia) ltac:(by rewrite Ex) Hb) as El.
  pose proof (transfer_sim env_sha256 ids Hshape Hapart Hids t L m sender to amount R H Hm Hs Ht ltac:(lia)) as S.
  rewrite El in S. unfold tsim, wp in S. pose proof (transfer_framed env_sha256 m sender to amount t) as F.
  unfold wp in F. destruct (transfer_between_owners env_sha256 m sender to amount t) as [t' r] eqn:Er.
  cbn in S, F. destruct S as [[cs ->] R'].
  assert (token_execute sender [m; to] ([2] ++ le_bytes 8 amount) t = (t', Ok cs)) as Erun.
  { unfold token_execute, token_instruction. cbn [app]. cbv zeta. change (2 :: le_bytes 8 amount) with ([2] ++ le_bytes 8 amount).
    rewrite Ed. unfold need. rewrite length_app, length_le_bytes. cbn [length Nat.ltb Nat.leb orb Nat.add].
    unfold ensure_token_program_account, contains, gets, bind, fail_if, arg, require, ret. cbn [lookup list_lookup].
    rewrite bool_decide_true by done. by rewrite Er. }
  exists t', cs. split_and!; [done|done|by apply (transfer_ok ids L m sender to amount); [..|lia|]|].
  destruct F as [_ [E|[E _]] _]; [done|]. rewrite E in Hp. by destruct Hp.
Qed.

(** The check of a credential reads the account of the sender and nothing else. *)
Lemma credential_reads tx t t1 :
  accounts t1 !! tx_sender tx = accounts t !! tx_sender tx ->
  credential_auth tx 32 t = (t, Ok tt) -> credential_auth tx 32 t1 = (t1, Ok tt).
Proof.
  unfold credential_auth. rewrite bool_decide_false by done. unfold get_account, gets, bind, require, ret, fail.
  intros ->. destruct (accounts t !! tx_sender tx) as [a|]; [|done].
  destruct (auth_key_for_algorithm _ _) as [k|]; [|done]. unfold check_credential, fail_if.
  destruct (negb _); [done|]. done.
Qed.

Lemma invoke_runs vm tx slot m to amount t t' cs :
  engines vm Svm = Some (svm_engine registry_with_defaults) ->
  raw_chain tx = None -> zk_auth tx = None -> payload tx = invoke_transfer m to amount ->
  is_u256 m -> is_u256 to -> credential_auth tx 32 t = (t, Ok tt) ->
  token_execute (tx_sender tx) [m; to] ([2] ++ le_bytes 8 amount) t = (t', Ok cs) ->
  exists r, nvm_execute_transaction vm tx slot t = (t', Ok r).
Proof.
  intros He Hr Hz Hp Hm Ht Hc Hx.
  assert (svm_invoke registry_with_defaults (tx_sender tx) (payload tx) t = (t', Ok cs)) as Ei.
  { rewrite Hp, svm_invoke_transfer by done. unfold map_err. by rewrite Hx. }
  assert (exists rest, payload tx = 32 :: rest) as [rest Ep] by (rewrite Hp; by eexists).
  assert (exists r, svm_execute_impl registry_with_defaults tx t = (t', Ok r)) as [r Ex].
  { rewrite Ep in Ei. unfold svm_execute_impl, solana_replay_marker. rewrite Hr, Ep. cbv zeta.
    rewrite (bind_run _ _ t t None) by done. rewrite (bind_run _ _ t t tt) by done.
    change (32 =? 32) with true. rewrite (bind_run _ _ t t' cs) by done. by eexists. }
  exists r. unfold nvm_execute_transaction. rewrite Ep.
  assert (is_raw_chain tx && is_zk_auth tx = false) as -> by (unfold is_raw_chain; by rewrite Hr).
  unfold atomically. assert (dispatch vm tx 32 slot t = (t', Ok r)) as ->; [|done].
  unfold dispatch, tron_marker, authorise. rewrite Hr, Hz. rewrite (bind_run _ _ t t None) by done.
  rewrite (bind_run _ _ t t tt) by done. change (is_hfi_opcode 32) with false. cbv beta iota.
  rewrite (bind_run _ _ t t Svm) by done.
  rewrite (bind_run _ _ t t (svm_engine registry_with_defaults)) by (by rewrite He).
  rewrite (bind_run _ _ t t' r); [done|]. unfold map_err, svm_engine, map_err. by rewrite Ex.
Qed.

(** A call of a Solana program under an ACE credential can be replayed.  The
    call carries no nonce and leaves no marker: the same signed transaction, a
    transfer of tokens by the token program, succeeds twice and moves the tokens
    twice, as long as the credential holds and the balance is enough. *)
Theorem svm_invoke_replays vm tx slot slot2 m to amount t L :
  engines vm Svm = Some (svm_engine registry_with_defaults) ->
  raw_chain tx = None -> zk_auth tx = None -> payload tx = invoke_transfer m to amount ->
  credential_auth tx 32 t = (t, Ok tt) ->
  spells env_sha256 ids t L -> ledger_ok ids L -> m ∈ ids -> tx_sender tx ∈ ids -> to ∈ ids ->
  tx_sender tx <> to -> 0 < amount <= u64_max ->
  is_Some (accounts t !! token_program_account_id) -> is_Some (get_mint_meta env_sha256 t m) ->
  2 * amount <= balance_of env_sha256 t m (tx_sender tx) ->
  exists t1 r1 t2 r2,
    nvm_execute_transaction vm tx slot t = (t1, Ok r1) /\
    nvm_execute_transaction vm tx slot2 t1 = (t2, Ok r2) /\
    balance_of env_sha256 t2 m (tx_sender tx) = balance_of env_sha256 t m (tx_sender tx) - 2 * amount /\
    balance_of env_sha256 t2 m to = balance_of env_sha256 t m to + 2 * amount.
Proof.
  intros He Hr Hz Hp Hc R H Hm Hs Ht Hne Ha Hprog Hmint Hbal.
  rewrite (read_mint_meta env_sha256 ids t L m R Hm) in Hmint. unfold ledger_mint in Hmint.
  assert (forall t L o, spells env_sha256 ids t L -> o ∈ ids -> balance_of env_sha256 t m o = balances L m o) as Eb
    by (intros ??? R' Ho; by apply (sp_balance _ _ _ _ R')).
  rewrite (Eb t L) in Hbal by done.
  assert (is_Some (tokens L m)) as Htok by (destruct (tokens L m) as [[]|]; [done|by destruct Hmint]).
  destruct (token_transfer_runs (tx_sender tx) m to amount t L R H Hm Hs Ht Hne Ha Htok ltac:(lia) Hprog)
    as (t1 & cs & E1 & R1 & H1 & A1).
  destruct (moved_balances L m (tx_sender tx) to amount Hne) as [B1 B1'].
  set (L1 := moved_tokens L m (tx_sender tx) to amount) in *.
  destruct (token_transfer_runs (tx_sender tx) m to amount t1 L1 R1 H1 Hm Hs Ht Hne Ha Htok ltac:(lia)
    ltac:(by rewrite A1)) as (t2 & cs2 & E2 & R2 & _ & _).
  destruct (moved_balances L1 m (tx_sender tx) to amount Hne) as [B2 B2'].
  destruct (invoke_runs vm tx slot m to amount t t1 cs He Hr Hz Hp (Hids m Hm) (Hids to Ht) Hc E1) as [r1 N1].
  destruct (invoke_runs vm tx slot2 m to amount t1 t2 cs2 He Hr Hz Hp (Hids m Hm) (Hids to Ht)
    (credential_reads tx t t1 ltac:(by rewrite A1) Hc) E2) as [r2 N2].
  exists t1, r1, t2, r2. rewrite !(Eb t2 _ _ R2), !(Eb t L _ R) by done. split_and!; [done|done|lia|lia].
Qed.
End unprotected.

Module SampleSvm.
#[export] Instance env : CryptoEnv := {|
  env_backend := SampleSig.sample_backend;
  env_sha256 := SampleToken.sha;
  env_keccak256 := SampleToken.sha;
  env_ripemd160 l := take 20 (l ++ replicate 20 0);
  env_uncompress l := Some (4 :: l);
  env_verify_zk _ _ := true;
  env_devnet := true;
|}.
#[export] Existing Instance SampleSolana.spl.

(** Two owners, a mint, and their Solana identities. *)
Definition base : list Z := [1; 3; 7].
Definition ids : gset Z :=
  Eval vm_compute in list_to_set (base ++ (legacy_idcom_solana SampleToken.sha <$> base)).

Lemma svm_ids_fit x : x ∈ ids -> is_u256 x.
Proof.
  intros H%elem_of_elements. revert H. apply Forall_forall. apply (bool_decide_unpack _).
  vm_compute. exact I.
Qed.

Lemma ids_apart : token_apart SampleToken.sha ids.
Proof. apply NoDup_collision_free, (bool_decide_unpack _). vm_compute. exact I. Qed.

(** Mint 7 exists and owner 1 has 100 of it. *)
Definition ops : list TokenOp := [OpCreateMint 7 6 1; OpMintTo 7 1 100 1; OpApprove 7 1 3 50].
Definition L0 : Ledger :=
  fst (ledger_ops (runtime_erc20_address_for_mint SampleToken.sha) empty_ledger ops).

Lemma svm_ops_ok : Forall (token_op_ok ids) ops.
Proof. repeat constructor; cbn; try (by vm_compute); unfold is_byte, is_u64, u64_max; lia. Qed.

Lemma L0_ok : ledger_ok ids L0.
Proof. apply ledger_ops_ok; [apply empty_ledger_ok|apply svm_ops_ok]. Qed.

(** Owner 1 has an account with a key, and so has the Solana key 5. *)
Definition payer : AccountId := legacy_idcom_solana SampleToken.sha 5.
Definition before : StateTree :=
  insert_account SampleToken.sha
    (insert_account SampleToken.sha state_new (with_auth 1 0 (SampleSig.sample_key 1)))
    (with_balance payer 100).
Definition t0 : StateTree := fst (token_ops SampleToken.sha before ops).

Lemma t0_spells : spells SampleToken.sha ids t0 L0.
Proof.
  apply token_ops_sim; [apply SampleToken.sha_shape|apply ids_apart|apply svm_ids_fit| |apply empty_ledger_ok|
    apply svm_ops_ok].
  apply empty_ledger_spells. reflexivity.
Qed.

Lemma t0_sound : sound ids t0 L0.
Proof. split; [apply t0_spells|apply L0_ok|]. intros a meta _. unfold ledger_meta. vm_compute. done. Qed.

Definition vm : NVm :=
  {| engines v := match v with Svm => Some (svm_engine registry_with_defaults) | _ => None end;
     hfi_claim := None |}.

(** Owner 1 calls the token program. *)
Definition call : list Z := invoke_transfer 7 3 30.
Definition call_tx : Transaction :=
  {| payload := call;
     attestation := {| obj_hash := digest SampleToken.sha call; idcom := 1;
       att_domain := {| chain_id := 1; domain_slot := 5 |}; context_tag := 0;
       credential := SampleSig.sample_sign 1 [] |};
     raw_chain := None; zk_auth := None |}.

Definition is_ok {E A} (r : result E A) : bool := match r with Ok _ => true | Err _ => false end.
Lemma is_ok_inv {E A} (r : result E A) : is_ok r = true -> exists a, r = Ok a.
Proof. destruct r; [by eexists|done]. Qed.

(** Key 5 pays 70 to key 6 in a Solana transaction. *)
Definition paid : list Z := encode_solana_tx (SampleSolana.pay (derive_ace_solana_blockhash 1 5)).
Definition paid_payload : list Z :=
  build_transfer_payload (legacy_idcom_solana SampleToken.sha 6) 70.
Definition paid_tx : Transaction :=
  {| payload := paid_payload;
     attestation := {| obj_hash := 0; idcom := payer;
       att_domain := {| chain_id := 1; domain_slot := 5 |}; context_tag := 0;
       credential := ml_dsa_44_stripped |};
     raw_chain := Some {| raw_kind := RawSolana; raw_bytes := paid;
       committee_certificate := Some {| cert_domain := SolanaLight; cert_tx_hash := 0; approvals := [] |} |};
     zk_auth := None |}.
End SampleSvm.

Import SampleSvm.
#[local] Existing Instances SampleSvm.env SampleK256.sample_k256 SampleTron.no_verifiers.

Lemma token_program_permissions_witness :
  let after := token_execute 3 [7; 1; 3] ([4] ++ le_bytes 8 20) t0 in
  balance_of SampleToken.sha t0 7 1 <= balance_of SampleToken.sha (fst after) 7 1 +
    (allowance_of SampleToken.sha t0 7 1 3 - allowance_of SampleToken.sha (fst after) 7 1 3) /\
  balance_of SampleToken.sha (fst after) 7 1 = 80.
Proof.
  intros after. destruct (is_ok_inv (snd after)) as [changes E]; [vm_compute; reflexivity|]. split; [|by vm_compute].
  apply (token_program_permissions (CE := env) ids 3 [7; 1; 3] ([4] ++ le_bytes 8 20) t0 L0 (fst after) changes
    SampleToken.sha_shape ids_apart svm_ids_fit t0_sound).
  - by vm_compute.
  - by repeat constructor.
  - apply (bool_decide_unpack _). by vm_compute.
  - rewrite <-E. apply surjective_pairing.
  - by vm_compute.
  - by vm_compute.
  - lia.
Defined.

Lemma solana_runs_once_witness :
  let after := fst (nvm_execute_transaction vm paid_tx 5 t0) in
  get_storage after payer (solana_signature_replay_slot SampleSolana.sig) <> 0 /\
  exists e, nvm_execute_transaction vm paid_tx 6 after = (after, Err e).
Proof.
  intros after. split; [by vm_compute|].
  destruct (is_ok_inv (snd (nvm_execute_transaction vm paid_tx 5 t0))) as [r E]; [vm_compute; reflexivity|].
  eapply (solana_runs_once (CE := env) vm registry_with_defaults paid_tx _ SampleSolana.sig 5 t0 after r vm paid_tx _ 6 after).
  - reflexivity.
  - reflexivity.
  - reflexivity.
  - reflexivity.
  - rewrite <-E. apply surjective_pairing.
  - reflexivity.
  - reflexivity.
  - reflexivity.
  - reflexivity.
  - reflexivity.
Defined.

Lemma svm_invoke_replays_witness :
  exists t1 r1 t2 r2,
    nvm_execute_transaction vm call_tx 5 t0 = (t1, Ok r1) /\
    nvm_execute_transaction vm call_tx 6 t1 = (t2, Ok r2) /\
    balance_of SampleToken.sha t2 7 1 = 40 /\ balance_of SampleToken.sha t2 7 3 = 60.
Proof.
  destruct (svm_invoke_replays (CE := env) ids SampleToken.sha_shape ids_apart svm_ids_fit vm call_tx 5 6 7 3 30 t0 L0)
    as (t1 & r1 & t2 & r2 & E1 & E2 & E3 & E4).
  - reflexivity.
  - reflexivity.
  - reflexivity.
  - reflexivity.
  - vm_compute. reflexivity.
  - apply t0_spells.
  - apply L0_ok.
  - by vm_compute.
  - by vm_compute.
  - by vm_compute.
  - by vm_compute.
  - unfold u64_max. lia.
  - apply (bool_decide_unpack _). by vm_compute.
  - apply (bool_decide_unpack _). by vm_compute.
  - by vm_compute.
  - exists t1, r1, t2, r2. split; [exact E1|]. split; [exact E2|].
    split; [refine (eq_trans E3 _)|refine (eq_trans E4 _)]; by vm_compute.
Defined.

Module SampleMachine.
Definition machine : NVm :=
  {| engines v := match v with
                  | AceNative => Some (native_engine (CE := SampleEnv.sample_env) SampleNative.policy)
                  | Svm => Some (svm_engine (CE := SampleEnv.sample_env)
                      (registry_with_defaults (CE := SampleEnv.sample_env)))
                  | _ => None
                  end;
     hfi_claim := None |}.

(** A transfer, the same again, a Solana transfer without arguments, and a payment
    back in lamports. *)
Definition block : list Transaction :=
  [SampleNative.pay; SampleNative.pay; SampleNative.signed 7 [33];
   SampleNative.signed 7 ([33] ++ le_bytes 8 1 ++ be_bytes 32 9 ++ le_bytes 8 2)].

Lemma machine_standard : standard_engines (CE := SampleEnv.sample_env) (K := SampleK256.sample_k256)
  (RV := SampleTron.no_verifiers) SampleNative.policy machine.
Proof. split; reflexivity. Qed.

Lemma block_ok : Forall (fun tx => Forall is_byte (payload tx) /\ native_or_svm tx = true) block.
Proof.
  assert (forall l, forallb (fun b => (0 <=? b) && (b <=? 255)) l = true -> Forall is_byte l) as Hb.
  { intros l Hl. apply Forall_forall. intros b Hin%list_elem_of_In. rewrite forallb_forall in Hl.
    specialize (Hl b Hin). bool_prop. unfold is_byte. lia. }
  repeat (apply Forall_cons; split; [split; [apply Hb; vm_compute; reflexivity|reflexivity]|]). constructor.
Qed.
End SampleMachine.

Lemma dispatched_block_conserves_witness :
  let '(t', receipts) := nvm_execute_block (CE := SampleEnv.sample_env)
    (K := SampleK256.sample_k256) (RV := SampleTron.no_verifiers) SampleMachine.machine 9
    SampleNative.tree SampleMachine.block in
  total_balance t' = 10 /\ vm_success <$> receipts = [true; false; false; true] /\
  acc_balance <$> accounts t' !! 7 = Some 5.
Proof.
  pose proof (@dispatched_block_conserves SampleEnv.sample_env SampleK256.sample_k256
    SampleTron.no_verifiers SampleNative.policy SampleMachine.machine 9 SampleMachine.block
    SampleNative.tree SampleMachine.machine_standard SampleNative.sample_fits
    SampleMachine.block_ok) as H.
  destruct (nvm_execute_block (CE := SampleEnv.sample_env) (K := SampleK256.sample_k256)
    (RV := SampleTron.no_verifiers) SampleMachine.machine 9 SampleNative.tree SampleMachine.block) as [t' rs] eqn:E.
  destruct H as [H _]. split; [exact H|].
  vm_compute in E. injection E as <- <-. split; vm_compute; reflexivity.
Defined.
