(* ===== verification/Scheduler.v ===== *)
(** The scheduler of parallel execution (ace-n-vm/src/scheduler.rs): the write
    set of a transaction, read from its payload, and the greedy batches. *)

From S2P Require Import Prelude SigAlgo Account StateTree StateM.
From S2P Require Import Wire Payload Transaction Engine.
Local Open Scope Z_scope.
Local Open Scope ace_scope.

Inductive WriteSet : Type :=
| Accounts (set : gset AccountId)
| Global.

Definition conflicts_with (a b : WriteSet) : bool :=
  match a, b with
  | Global, _ | _, Global => true
  | Accounts a, Accounts b => bool_decide (a ∩ b <> ∅)
  end.

(* ------------------------------------------------------------------ *)
(** * Write sets *)

Definition payload_len (l : list Z) : Z := Z.of_nat (length l).
Definition byte_at (l : list Z) (p : Z) : Z := default 0 (l !! Z.to_nat p).
Definition bytes_at (l : list Z) (p n : Z) : list Z := take (Z.to_nat n) (drop (Z.to_nat p) l).
Definition account_at (l : list Z) (p : Z) : AccountId := be_num (bytes_at l p 32).

(** Transfers of three machines share a layout; a short payload has no nonce. *)
Definition transfer_write_set (sender : AccountId) (l : list Z) : WriteSet :=
  let recipient_offset := if 49 <=? payload_len l then 9 else 1 in
  if recipient_offset + 32 <=? payload_len l
  then Accounts {[ sender; account_at l recipient_offset ]}
  else Accounts {[ sender ]}.

(** The account keys of an SVM call. *)
Fixpoint svm_accounts (n : nat) (l : list Z) (cursor : Z) (set : gset AccountId)
    : gset AccountId :=
  match n with
  | O => set
  | S n =>
      if payload_len l <? cursor + 34 then set
      else svm_accounts n l (cursor + 34) ({[ account_at l cursor ]} ∪ set)
  end.

(** The position after the inputs of a UTXO spend; [None] for a malformed one. *)
Fixpoint utxo_inputs (n : nat) (l : list Z) (cursor : Z) : option Z :=
  match n with
  | O => Some cursor
  | S n =>
      if payload_len l <? cursor + 40 then None
      else
        let sig_len := le_num (bytes_at l (cursor + 36) 4) in
        let cursor := cursor + 40 in
        if payload_len l <? cursor + sig_len then None
        else utxo_inputs n l (cursor + sig_len)
  end.

Fixpoint utxo_outputs (n : nat) (l : list Z) (cursor : Z) (set : gset AccountId)
    : option (gset AccountId) :=
  match n with
  | O => Some set
  | S n =>
      if payload_len l <? cursor + 40 then None
      else
        let set := {[ account_at l cursor ]} ∪ set in
        let cursor := cursor + 40 in
        if payload_len l <? cursor + 4 then Some set
        else
          let spk_len := le_num (bytes_at l cursor 4) in
          let cursor := cursor + 4 in
          if payload_len l <? cursor + spk_len then Some set
          else utxo_outputs n l (cursor + spk_len) set
  end.

Definition utxo_write_set (sender : AccountId) (l : list Z) : WriteSet :=
  if payload_len l <=? 1 then Accounts {[ sender ]}
  else
    match utxo_inputs (Z.to_nat (byte_at l 1)) l 2 with
    | None => Global
    | Some cursor =>
        if payload_len l <=? cursor then Accounts {[ sender ]}
        else
          match utxo_outputs (Z.to_nat (byte_at l cursor)) l (cursor + 1) {[ sender ]} with
          | None => Global
          | Some set => Accounts set
          end
    end.

Definition move_write_set (sender : AccountId) (l : list Z) : WriteSet :=
  if payload_len l <? 75 then Global
  else
    let func_name_len := le_num (bytes_at l 73 2) in
    let func_start := 75 in
    if payload_len l <? func_start + func_name_len then Global
    else if bool_decide (bytes_at l func_start func_name_len = ascii_bytes "transfer") then
      let args_offset := func_start + func_name_len + 2 in
      if args_offset + 1 + 32 <=? payload_len l
      then Accounts {[ sender; account_at l (args_offset + 1) ]}
      else Global
    else Global.

Section write_set.
Context (sha256 : list Z -> list Z).

Definition ace_liquid_book_account (market_id : Z) : AccountId :=
  digest sha256 (ascii_bytes "ace-liquid:book:v1:" ++ be_bytes 32 market_id).

Definition liquid_write_set (sender : AccountId) (l : list Z) : WriteSet :=
  if (42 <=? payload_len l) && ((byte_at l 1 =? 2) || (byte_at l 1 =? 3))
  then Accounts {[ sender; ace_liquid_book_account (account_at l 10) ]}
  else Global.

Definition is_raw_btc (tx : Transaction) : bool :=
  match raw_chain tx with
  | Some raw => match raw_kind raw with RawBtc => true | _ => false end
  | None => false
  end.

Definition extract_write_set (tx : Transaction) : WriteSet :=
  match payload tx with
  | [] => Accounts ∅
  | opcode :: _ =>
      let l := payload tx in
      let sender := tx_sender tx in
      let within a b := (a <=? opcode) && (opcode <=? b) in
      if opcode =? 1 then transfer_write_set sender l
      else if opcode =? 2 then
        if 33 <=? payload_len l then Accounts {[ sender; account_at l 1 ]}
        else Accounts {[ sender ]}
      else if within 16 19 then Global
      else if opcode =? 32 then
        if payload_len l <? 34 then Global
        else Accounts (svm_accounts (Z.to_nat (byte_at l 33)) l 34 {[ sender ]})
      else if (opcode =? 33) || (opcode =? 48) then transfer_write_set sender l
      else if opcode =? 49 then Accounts {[ sender ]}
      else if opcode =? 50 then if is_raw_btc tx then Global else utxo_write_set sender l
      else if (opcode =? 3) || (opcode =? 4) then Accounts {[ sender ]}
      else if (opcode =? 5) || within 6 11 || (opcode =? 13) || (opcode =? 14) then Global
      else if opcode =? 20 then Global
      else if opcode =? 15 then liquid_write_set sender l
      else if opcode =? 12 then Accounts {[ sender ]}
      else if within 64 79 then Global
      else if within 80 95 then move_write_set sender l
      else Accounts ∅
  end.

(* ------------------------------------------------------------------ *)
(** * Batches *)

Record Batch := {
  tx_indices : list nat;
  write_set_union : WriteSet;
}.

Definition batch_new : Batch := {| tx_indices := []; write_set_union := Accounts ∅ |}.

Definition union_with_set (u ws : WriteSet) : WriteSet :=
  match u, ws with
  | Accounts a, Accounts b => Accounts (a ∪ b)
  | _, _ => Global
  end.

(** [None] when the transaction conflicts with the batch. *)
Definition try_add (b : Batch) (tx_idx : nat) (ws : WriteSet) : option Batch :=
  if negb (bool_decide (tx_indices b = [])) && conflicts_with (write_set_union b) ws then None
  else Some {| tx_indices := tx_indices b ++ [tx_idx];
               write_set_union := union_with_set (write_set_union b) ws |}.

(** The first batch from position [earliest] on that accepts the transaction,
    with its position counted from [pos]. *)
Fixpoint place (earliest pos : nat) (bs : list Batch) (i : nat) (ws : WriteSet)
    : option (list Batch * nat) :=
  match bs with
  | [] => None
  | b :: bs =>
      let later := '(bs, p) ← place earliest (S pos) bs i ws; Some (b :: bs, p) in
      if (pos <? earliest)%nat then later
      else
        match try_add b i ws with
        | Some b => Some (b :: bs, pos)
        | None => later
        end
  end.

Record Schedule := {
  batches : list Batch;
  sender_latest : gmap AccountId nat;
}.

(** One turn of the loop; a new batch accepts any transaction. *)
Definition schedule_tx (s : Schedule) (i : nat) (tx : Transaction) : Schedule :=
  let sender := tx_sender tx in
  let ws := extract_write_set tx in
  let earliest := default 0%nat (S <$> sender_latest s !! sender) in
  match place earliest 0 (batches s) i ws with
  | Some (bs, p) => {| batches := bs; sender_latest := <[sender := p]> (sender_latest s) |}
  | None =>
      {| batches := batches s ++ [default batch_new (try_add batch_new i ws)];
         sender_latest := <[sender := length (batches s)]> (sender_latest s) |}
  end.

Fixpoint schedule_all (s : Schedule) (i : nat) (txs : list Transaction) : Schedule :=
  match txs with
  | [] => s
  | tx :: txs => schedule_all (schedule_tx s i tx) (S i) txs
  end.

Definition build_batches (txs : list Transaction) : list Batch :=
  batches (schedule_all {| batches := []; sender_latest := ∅ |} 0 txs).
End write_set.

(* ------------------------------------------------------------------ *)
(** * The batches are sound *)

Definition in_batch (bs : list Batch) (i p : nat) : Prop :=
  exists b, bs !! p = Some b /\ i ∈ tx_indices b.
Definition all_indices (bs : list Batch) : list nat := concat (tx_indices <$> bs).

Lemma conflicts_sym a b : conflicts_with a b = conflicts_with b a.
Proof. destruct a, b; try done. cbn. by rewrite (comm_L (∩)). Qed.

Lemma try_add_Some b i ws b' :
  try_add b i ws = Some b' ->
  b' = {| tx_indices := tx_indices b ++ [i];
          write_set_union := union_with_set (write_set_union b) ws |} /\
  (tx_indices b = [] \/ conflicts_with (write_set_union b) ws = false).
Proof.
  unfold try_add. destruct (bool_decide_reflect (tx_indices b = [])) as [|]; cbn [negb andb].
  - intros [= <-]. auto.
  - destruct (conflicts_with _ _); [done|]. intros [= <-]. auto.
Qed.

Lemma place_Some earliest pos bs i ws bs' p :
  place earliest pos bs i ws = Some (bs', p) ->
  exists k b b', p = (pos + k)%nat /\ (earliest <= p)%nat /\ bs !! k = Some b /\
    try_add b i ws = Some b' /\ bs' = <[k := b']> bs.
Proof.
  revert pos bs'. induction bs as [|b bs IH]; intros pos bs'; cbn [place]; [done|].
  assert (forall r, ('(bs, p) ← place earliest (S pos) bs i ws; Some (b :: bs, p)) = Some r ->
    r = (bs', p) -> exists k c c', p = (pos + k)%nat /\ (earliest <= p)%nat /\
      (b :: bs) !! k = Some c /\ try_add c i ws = Some c' /\ bs' = <[k := c']> (b :: bs)) as Hl.
  { intros r Hr ->. destruct (place earliest (S pos) bs i ws) as [[bs1 q]|] eqn:E; [|done].
    injection Hr as <- <-. destruct (IH _ _ E) as (k & c & c' & -> & ? & ? & ? & ->).
    exists (S k), c, c'. split_and!; [lia|done..]. }
  destruct (Nat.ltb_spec pos earliest); [intros Hr; by eapply Hl|].
  destruct (try_add b i ws) as [b'|] eqn:E; [|intros Hr; by eapply Hl].
  intros [= <- <-]. exists 0%nat, b, b'. split_and!; [lia|lia|done..].
Qed.

Lemma in_batch_insert bs k b b' i j p :
  bs !! k = Some b -> tx_indices b' = tx_indices b ++ [i] ->
  in_batch (<[k := b']> bs) j p <-> in_batch bs j p \/ (j = i /\ p = k).
Proof.
  intros Hk Hb. assert (k < length bs)%nat as Hlt by by eapply lookup_lt_Some.
  unfold in_batch. destruct (decide (p = k)) as [->|Hne].
  - rewrite list_lookup_insert_eq by done. rewrite Hk. split.
    + intros (c & [= <-] & Hj). rewrite Hb in Hj. set_solver.
    + intros [(c & [= <-] & Hj)|[-> _]]; exists b'; (split; [done|]); rewrite Hb; set_solver.
  - rewrite list_lookup_insert_ne by done. naive_solver.
Qed.

Lemma in_batch_snoc bs b i j p :
  tx_indices b = [i] ->
  in_batch (bs ++ [b]) j p <-> in_batch bs j p \/ (j = i /\ p = length bs).
Proof.
  intros Hb. unfold in_batch. split.
  - intros (c & Hc & Hj). apply lookup_app_Some in Hc as [Hc|[Hl Hc]]; [by left; exists c|].
    apply list_lookup_singleton_Some in Hc as [Hp <-]. rewrite Hb in Hj. right. set_solver by lia.
  - intros [(c & Hc & Hj)|[-> ->]].
    + exists c. split; [|done]. by apply lookup_app_l_Some.
    + exists b. rewrite lookup_app_r by done. rewrite Nat.sub_diag, Hb. set_solver.
Qed.

Lemma all_indices_insert bs k b b' i :
  bs !! k = Some b -> tx_indices b' = tx_indices b ++ [i] ->
  all_indices (<[k := b']> bs) ≡ₚ i :: all_indices bs.
Proof.
  intros Hk Hb. unfold all_indices. revert k Hk. induction bs as [|c bs IH]; intros [|k] Hk; [done..| |].
  - injection Hk as ->. cbn. rewrite Hb, <-app_assoc. symmetry. apply Permutation_middle.
  - cbn. rewrite (IH k Hk). symmetry. apply Permutation_middle.
Qed.

(** The union of a batch covers the write set of each of its members. *)
Definition covers (u ws : WriteSet) : Prop :=
  match u with
  | Global => True
  | Accounts a => exists b, ws = Accounts b /\ b ⊆ a
  end.

Lemma covers_union_l u v ws : covers u ws -> covers (union_with_set u v) ws.
Proof.
  destruct u as [a|], v as [b|]; cbn; try done. intros (c & -> & ?). exists c. set_solver.
Qed.
Lemma covers_union_r u v : covers (union_with_set u v) v.
Proof. destruct u as [a|], v as [b|]; cbn; try done. exists b. set_solver. Qed.

Lemma covers_no_conflict u v ws :
  covers u v -> conflicts_with u ws = false -> conflicts_with v ws = false.
Proof.
  destruct u as [a|]; [|done]. intros (c & -> & Hc). destruct ws as [b|]; [|done]. cbn.
  intros H%bool_decide_eq_false. apply bool_decide_eq_false. set_solver.
Qed.

Section sound.
Variable ws : nat -> WriteSet.

Record batch_ok (b : Batch) : Prop := {
  batch_covers i : i ∈ tx_indices b -> covers (write_set_union b) (ws i);
  batch_apart i j : i ∈ tx_indices b -> j ∈ tx_indices b -> i <> j ->
    conflicts_with (ws i) (ws j) = false;
}.

Lemma batch_ok_new : batch_ok batch_new.
Proof. split; cbn; set_solver. Qed.

Lemma batch_ok_add b i b' : batch_ok b -> try_add b i (ws i) = Some b' -> batch_ok b'.
Proof.
  intros [Hc Ha] [-> Hn]%try_add_Some.
  assert (forall j, j ∈ tx_indices b -> conflicts_with (ws j) (ws i) = false) as Hi.
  { intros j Hj. destruct Hn as [Hn|Hn]; [rewrite Hn in Hj; set_solver|].
    by apply (covers_no_conflict (write_set_union b)); [apply Hc|]. }
  split; cbn.
  - intros j [Hj| ->%list_elem_of_singleton]%elem_of_app; [by apply covers_union_l, Hc|apply covers_union_r].
  - intros j k [Hj|Hj%list_elem_of_singleton]%elem_of_app [Hk|Hk%list_elem_of_singleton]%elem_of_app Hne;
      subst; [by apply Ha|by apply Hi|rewrite conflicts_sym; by apply Hi|done].
Qed.
End sound.

Section schedule.
Variables (sha256 : list Z -> list Z) (txs : list Transaction).

Definition ws_of (i : nat) : WriteSet :=
  default (Accounts ∅) (extract_write_set sha256 <$> txs !! i).
Definition same_sender (i j : nat) : Prop :=
  exists x y, txs !! i = Some x /\ txs !! j = Some y /\ tx_sender x = tx_sender y.

(** The loop has placed the first [n] transactions. *)
Record scheduled (n : nat) (s : Schedule) : Prop := {
  sched_all : all_indices (batches s) ≡ₚ seq 0 n;
  sched_ok b : b ∈ batches s -> batch_ok ws_of b;
  sched_bound i p : in_batch (batches s) i p -> (i < n)%nat;
  sched_latest i p x : in_batch (batches s) i p -> txs !! i = Some x ->
    exists q, sender_latest s !! tx_sender x = Some q /\ (p <= q)%nat;
  sched_order i j p q : (i < j)%nat -> same_sender i j ->
    in_batch (batches s) i p -> in_batch (batches s) j q -> (p < q)%nat;
  sched_lt a q : sender_latest s !! a = Some q -> (q < length (batches s))%nat;
}.

(** Adding transaction [n] in position [k], after its sender's latest. *)
Lemma scheduled_step n s bs k tx :
  txs !! n = Some tx -> scheduled n s ->
  (forall q, sender_latest s !! tx_sender tx = Some q -> (q < k)%nat) ->
  all_indices bs ≡ₚ n :: all_indices (batches s) ->
  (forall b, b ∈ bs -> batch_ok ws_of b) ->
  (k < length bs)%nat -> (length (batches s) <= length bs)%nat ->
  (forall j p, in_batch bs j p <-> in_batch (batches s) j p \/ (j = n /\ p = k)) ->
  scheduled (S n) {| batches := bs; sender_latest := <[tx_sender tx := k]> (sender_latest s) |}.
Proof.
  intros Hn [Hall Hok Hb Hl Ho Hlt] Hk Hp Hoks Hkl Hgrow Hin. split; cbn [batches sender_latest].
  - rewrite Hp, Hall, seq_S. apply Permutation_cons_append.
  - done.
  - intros i p [H|[-> _]]%Hin; [apply Hb in H|]; lia.
  - intros i p x Hi Hx. destruct (decide (tx_sender x = tx_sender tx)) as [E|E].
    + rewrite E, lookup_insert_eq. exists k. split; [done|].
      apply Hin in Hi as [Hi|[_ ->]]; [|done]. destruct (Hl _ _ _ Hi Hx) as (q & Hq & ?).
      rewrite E in Hq. apply Hk in Hq. lia.
    + rewrite lookup_insert_ne by done. apply Hin in Hi as [Hi|[-> _]]; [by eapply Hl|congruence].
  - intros i j p q Hij Hs Hi Hj. apply Hin in Hi as [Hi|[-> ->]]; apply Hin in Hj as [Hj|[-> ->]].
    + by eapply Ho.
    + destruct Hs as (x & y & Hx & Hy & E). destruct (Hl _ _ _ Hi Hx) as (r & Hr & ?).
      simplify_eq. rewrite E in Hr. apply Hk in Hr. lia.
    + apply Hb in Hj. lia.
    + lia.
  - intros a q [[_ <-]|[_ Hq]]%lookup_insert_Some; [done|]. apply Hlt in Hq. lia.
Qed.

Lemma schedule_tx_ok n s tx :
  txs !! n = Some tx -> scheduled n s -> scheduled (S n) (schedule_tx sha256 s n tx).
Proof.
  intros Hn Hs. assert (extract_write_set sha256 tx = ws_of n) as Hws by (unfold ws_of; by rewrite Hn).
  assert (forall k, (default 0 (S <$> sender_latest s !! tx_sender tx) <= k)%nat ->
    forall q, sender_latest s !! tx_sender tx = Some q -> (q < k)%nat) as Hk.
  { intros k H q Hq. rewrite Hq in H. cbn in H. lia. }
  unfold schedule_tx. rewrite Hws. destruct (place _ _ _ _ _) as [[bs p]|] eqn:E.
  - apply place_Some in E as (k & b & b' & -> & He & Hb & Hadd & ->). cbn in He |- *.
    pose proof (try_add_Some _ _ _ _ Hadd) as [Hb' _].
    apply scheduled_step; [done|done|by apply Hk| | | | |].
    + by apply (all_indices_insert _ _ b); [|rewrite Hb'].
    + intros c Hc%list_elem_of_lookup. destruct Hc as (m & [(-> & -> & _)|[_ Hc]]%list_lookup_insert_Some).
      * eapply batch_ok_add; [|exact Hadd]. apply Hs. by eapply list_elem_of_lookup_2.
      * apply Hs. by eapply list_elem_of_lookup_2.
    + rewrite length_insert. by eapply lookup_lt_Some.
    + by rewrite length_insert.
    + intros j q. by apply (in_batch_insert _ _ b); [|rewrite Hb'].
  - change (try_add batch_new n (ws_of n)) with
      (Some {| tx_indices := [n]; write_set_union := union_with_set (Accounts ∅) (ws_of n) |}).
    cbn [default from_option id].
    apply scheduled_step; [done|done|intros q; apply Hs| | |rewrite length_app; cbn; lia..|].
    + unfold all_indices. rewrite fmap_app, concat_app. cbn. apply Permutation_app_comm.
    + intros b [Hb|Hb%list_elem_of_singleton]%elem_of_app; [by apply Hs|]. subst.
      eapply batch_ok_add; [apply batch_ok_new|done].
    + intros j q. by apply in_batch_snoc.
Qed.
Lemma schedule_all_ok rest n s :
  (forall k, rest !! k = txs !! (n + k)%nat) -> scheduled n s ->
  scheduled (n + length rest) (schedule_all sha256 s n rest).
Proof.
  revert n s. induction rest as [|tx rest IH]; intros n s Hr Hs; cbn [schedule_all length].
  { by rewrite Nat.add_0_r. }
  rewrite Nat.add_succ_r. apply (IH (S n)).
  - intros k. rewrite Nat.add_succ_l, <-Nat.add_succ_r. apply (Hr (S k)).
  - apply schedule_tx_ok; [|done]. specialize (Hr 0%nat). by rewrite Nat.add_0_r in Hr.
Qed.

(** The whole loop. *)
Lemma build_batches_scheduled :
  scheduled (length txs) (schedule_all sha256 {| batches := []; sender_latest := ∅ |} 0 txs).
Proof.
  apply (schedule_all_ok txs 0 _ (fun k => eq_refl)).
  split; cbn; try done; try (intros; set_solver).
  - by intros i p (b & ? & _).
  - by intros i p x (b & ? & _).
  - by intros i j p q _ _ (b & ? & _).
Qed.

Lemma build_batches_all : all_indices (build_batches sha256 txs) ≡ₚ seq 0 (length txs).
Proof. apply build_batches_scheduled. Qed.

Lemma build_batches_apart b i j x y :
  b ∈ build_batches sha256 txs -> i ∈ tx_indices b -> j ∈ tx_indices b -> i <> j ->
  txs !! i = Some x -> txs !! j = Some y ->
  conflicts_with (extract_write_set sha256 x) (extract_write_set sha256 y) = false.
Proof.
  intros Hb Hi Hj Hne Hx Hy.
  pose proof (batch_apart _ _ (sched_ok _ _ build_batches_scheduled b Hb) i j Hi Hj Hne) as H.
  unfold ws_of in H. by rewrite Hx, Hy in H.
Qed.

Lemma build_batches_NoDup b : b ∈ build_batches sha256 txs -> NoDup (tx_indices b).
Proof.
  intros Hb. assert (NoDup (all_indices (build_batches sha256 txs))) as Hnd
    by (rewrite build_batches_all; apply NoDup_seq).
  apply list_elem_of_split in Hb as (l1 & l2 & E). unfold all_indices in Hnd.
  rewrite E, fmap_app, concat_app in Hnd. apply NoDup_app in Hnd as (_ & _ & Hnd).
  cbn in Hnd. by apply NoDup_app in Hnd as (? & _).
Qed.

Lemma build_batches_lookup b i :
  b ∈ build_batches sha256 txs -> i ∈ tx_indices b -> is_Some (txs !! i).
Proof.
  intros Hb Hi. apply lookup_lt_is_Some.
  assert (i ∈ seq 0 (length txs)) as H%elem_of_seq; [|lia].
  rewrite <-build_batches_all. apply list_elem_of_In, in_concat. exists (tx_indices b).
  split; [|by apply list_elem_of_In]. by apply list_elem_of_In, list_elem_of_fmap_2.
Qed.

(** C26. The batches of a block are sound.  Every transaction is in exactly one
    batch; two transactions of one batch have write sets that do not conflict,
    so a transaction with a global write set is alone in its batch; and the
    transactions of one sender are in batches of increasing position, in the
    order of the block. *)
Theorem build_batches_sound :
  let bs := build_batches sha256 txs in
  all_indices bs ≡ₚ seq 0 (length txs) /\
  (forall b i j x y, b ∈ bs -> i ∈ tx_indices b -> j ∈ tx_indices b -> i <> j ->
     txs !! i = Some x -> txs !! j = Some y ->
     conflicts_with (extract_write_set sha256 x) (extract_write_set sha256 y) = false) /\
  (forall i j x y p q, (i < j)%nat -> txs !! i = Some x -> txs !! j = Some y ->
     tx_sender x = tx_sender y -> in_batch bs i p -> in_batch bs j q -> (p < q)%nat).
Proof.
  cbv zeta. split_and!; [apply build_batches_all|apply build_batches_apart|].
  intros i j x y p q Hij Hx Hy E Hi Hj.
  eapply (sched_order _ _ build_batches_scheduled); [exact Hij| |exact Hi|exact Hj]. by exists x, y.
Qed.
End schedule.

(* ------------------------------------------------------------------ *)
(** * A block of three transactions, two of one sender *)

Module SampleSchedule.
Definition sha : list Z -> list Z := SampleDigest.sample_sha256.
Definition signed (sender : AccountId) (p : list Z) : Transaction :=
  {| payload := p;
     attestation := {| obj_hash := 0; idcom := sender;
       att_domain := {| chain_id := 1; domain_slot := 9 |}; context_tag := 0;
       credential := SampleSig.sample_sign 7 [] |};
     raw_chain := None; zk_auth := None |}.
Definition pay (from to nonce : Z) : Transaction :=
  signed from ([1] ++ le_bytes 8 nonce ++ be_bytes 32 to ++ le_bytes 8 3).
Definition block : list Transaction := [pay 7 8 0; pay 5 6 0; pay 7 4 1].
End SampleSchedule.

Lemma build_batches_sound_witness :
  let bs := build_batches SampleSchedule.sha SampleSchedule.block in
  tx_indices <$> bs = [[0; 1]; [2]]%nat /\ (0 < 1)%nat /\
  conflicts_with (extract_write_set SampleSchedule.sha (SampleSchedule.pay 7 8 0))
    (extract_write_set SampleSchedule.sha (SampleSchedule.pay 5 6 0)) = false.
Proof.
  intros bs.
  destruct (build_batches_sound SampleSchedule.sha SampleSchedule.block) as (_ & Hc & Ho).
  fold bs in Hc, Ho. split_and!; [vm_compute; reflexivity| |].
  - apply (Ho 0%nat 2%nat (SampleSchedule.pay 7 8 0) (SampleSchedule.pay 7 4 1));
      [lia|reflexivity..| |]; (eexists; split; [vm_compute; reflexivity|set_solver]).
  - apply (Hc (default batch_new (head bs)) 0%nat 1%nat); [|vm_compute; set_solver..|done|done|done].
    apply (list_elem_of_lookup_2 _ 0). vm_compute. reflexivity.
Defined.
