(* ===== verification/BlockExec.v ===== *)
(** Execution of a block by a node (ace-node/src/node.rs,
    [execute_transactions_with_fees] and what it calls): checks before the
    execution, fees, batches of the scheduler on copies of the state, and the
    merge of the copies.

    The system transactions of the bridge (translated in [Bridge]), of the order book
    and of the omission evidence, and the verification of committee certificates, are
    the fields of [NodeEnv]; nothing is assumed of them here.  A set
    of accounts is merged in the order of [elements], where the source iterates
    over a hash set. *)

From S2P Require Import Prelude SigAlgo Account StateTree StateM Rewards.
From S2P Require Import Wire Payload Transaction Engine Vm RawTron Dispatch Scheduler.
Local Open Scope Z_scope.
Local Open Scope ace_scope.

Record NodeEnv (G : Type) := {
  node_vm : NVm;
  verify_certificate : StateTree -> Transaction -> result string unit;
  bridge_deposit : Transaction -> M string VmReceipt;
  withdrawal_completion : Transaction -> M string VmReceipt;
  omission_evidence : Transaction -> G -> StateTree -> StateTree * G * result string VmReceipt;
  oasset_withdraw : Transaction -> Z -> M string VmReceipt;
  liquid : Transaction -> M string VmReceipt;
}.
Arguments node_vm {G}.
Arguments verify_certificate {G}.
Arguments bridge_deposit {G}.
Arguments withdrawal_completion {G}.
Arguments omission_evidence {G}.
Arguments oasset_withdraw {G}.
Arguments liquid {G}.

Inductive PreVerifyTask : Type :=
| SlotFail (msg : string)
| Certificate
| CredentialTask (k : TaggedPubkey)
| ZkAuthTask
| NoTask.

Definition has_opcode (tx : Transaction) (op : Z) : bool :=
  bool_decide (head (payload tx) = Some op).

Section exec.
Context {CE : CryptoEnv} {K : K256} {RV : RawVerifiers} {G : Type}.
Variable env : NodeEnv G.

(* ------------------------------------------------------------------ *)
(** * Checks before the execution *)

Definition domain_slot_within_tolerance (tx_slot block_slot : Z) : bool :=
  let lo := u64_saturating_sub block_slot 100 in
  let hi := u64_add block_slot 100 in
  (lo <=? tx_slot) && (tx_slot <=? hi).

Definition should_enforce_domain_slot_tolerance (tx : Transaction) : bool :=
  if has_opcode tx 20 then false
  else
    match raw_chain tx with
    | None => true
    | Some raw =>
        match raw_kind raw with
        | RawTron => false
        | kind => bool_decide (raw_committee_domain kind = None)
        end
    end.

(** The key of a sender with an account, for the checks of the node. *)
Definition node_auth_key (a : Account) (tx : Transaction) (op : result DecodeError TransactionOp)
    : TaggedPubkey :=
  let sig_alg := sig_algorithm (credential (attestation tx)) in
  match op with
  | Ok (SetAuthPubkey _ auth_pubkey) | Ok (AddAuthKey _ auth_pubkey) =>
      match auth_key_for_algorithm a sig_alg with
      | Some k => if negb (pubkey_is_zero k) then k else auth_pubkey
      | None => auth_pubkey
      end
  | _ => default (acc_auth_pubkey a) (auth_key_for_algorithm a sig_alg)
  end.

(** The key a [CreateAccount] for its own sender brings. *)
Definition created_key (tx : Transaction) : option TaggedPubkey :=
  match decode (payload tx) with
  | Ok (CreateAccount id_com auth_pubkey) =>
      if id_com =? tx_sender tx then Some auth_pubkey else None
  | _ => None
  end.

Definition pre_verify_task (t : StateTree) (block_slot : Z) (tx : Transaction) : PreVerifyTask :=
  if should_enforce_domain_slot_tolerance tx &&
     negb (domain_slot_within_tolerance (domain_slot (att_domain (attestation tx))) block_slot)
  then SlotFail "transaction domain.slot is outside allowed range for block slot"
  else if is_zk_auth tx then ZkAuthTask
  else
    match raw_chain tx with
    | Some raw =>
        if bool_decide (is_Some (raw_committee_domain (raw_kind raw))) then Certificate else NoTask
    | None =>
        match accounts t !! tx_sender tx with
        | Some a => CredentialTask (node_auth_key a tx (decode (payload tx)))
        | None => match created_key tx with Some k => CredentialTask k | None => NoTask end
        end
    end.

Definition node_credential_ok (tx : Transaction) (k : TaggedPubkey) : bool :=
  verify_credential env_sha256 env_devnet (attestation tx) (payload tx) k.

Definition verify_task (t : StateTree) (tx : Transaction) (task : PreVerifyTask)
    : option (result string unit) :=
  match task with
  | SlotFail msg => Some (Err msg)
  | Certificate => Some (verify_certificate env t tx)
  | ZkAuthTask =>
      Some (match zk_auth tx with
            | None => Err "ZkAuth task but zk_auth is None"
            | Some zk => if env_verify_zk tx zk then Ok tt else Err "ZK-ACE"
            end)
  | CredentialTask k =>
      Some (if node_credential_ok tx k then Ok tt else Err "invalid credential for sender ")
  | NoTask => None
  end.

Definition verify_result (t : StateTree) (block_slot : Z) (tx : Transaction)
    : option (result string unit) :=
  verify_task t tx (pre_verify_task t block_slot tx).

(* ------------------------------------------------------------------ *)
(** * Fees *)

Definition charge_tx_fee_with_pre_verified (tx : Transaction) (sig_pre_verified : bool)
    : M string (option StateChange) :=
  let sender := tx_sender tx in
  let! found := get_account sender in
  match found with
  | None =>
      let! auth_pubkey := require (created_key tx) "unknown sender " in
      do! fail_if (negb sig_pre_verified && negb (node_credential_ok tx auth_pubkey))
        "invalid credential for sender " in
      ret None
  | Some sender_account =>
      do! (if bool_decide (raw_chain tx = None) then
             do! (if negb sig_pre_verified then
                    match decode (payload tx) with
                    | Err (Rejected m) => fail ("invalid transaction payload: " +:+ m)
                    | Err Panicked => fail "panic"
                    | Ok op =>
                        fail_if (negb (node_credential_ok tx (node_auth_key sender_account tx (Ok op))))
                          "invalid credential for sender "
                    end
                  else ret tt) in
             fail_if (negb (has_provisioned_auth_key sender_account) &&
                      negb (has_opcode tx 3) && negb (has_opcode tx 4))
               "sender has no provisioned auth_pubkey"
           else ret tt) in
      do! fail_if (acc_balance sender_account <? TX_FEE)
        "insufficient balance for transaction fee" in
      let old_balance := acc_balance sender_account in
      do! update sender (fun a => set_balance a (acc_balance a - TX_FEE)) in
      ret (Some (BalanceChange sender old_balance (old_balance - TX_FEE)))
  end.

(** [receipt.state_changes.insert(0, change)] when a fee was charged. *)
Definition with_fee (fee : option StateChange) (r : VmReceipt) : VmReceipt :=
  match fee with
  | None => r
  | Some change =>
      {| vm_id := vm_id r; vm_tx_hash := vm_tx_hash r; vm_success := vm_success r;
         vm_sender := vm_sender r; vm_changes := change :: vm_changes r; vm_error := vm_error r;
         vm_simulated := vm_simulated r; vm_gas_used := vm_gas_used r;
         vm_contract_address := vm_contract_address r; vm_return_data := vm_return_data r;
         vm_logs := vm_logs r |}
  end.

(* ------------------------------------------------------------------ *)
(** * One transaction *)

Definition is_pre_verified (vr : option (result string unit)) : bool :=
  match vr with Some (Ok _) => true | _ => false end.

(** The dispatcher, with its error as text. *)
Definition run_vm (tx : Transaction) (block_slot : Z) : M string VmReceipt :=
  map_err nvm_error_text (nvm_execute_transaction (node_vm env) tx block_slot).

(** A transaction that pays a fee, alone in its batch. *)
Definition charged_single (tx : Transaction) (block_slot : Z) (pre : bool)
    : M string VmReceipt :=
  let! fee := charge_tx_fee_with_pre_verified tx pre in
  let! r :=
    (if has_opcode tx 19 then oasset_withdraw env tx block_slot
     else if has_opcode tx 15 then liquid env tx
     else if has_opcode tx 5 then
       fail "CrossVmSettle opcode disabled until AMM pools are state-backed"
     else run_vm tx block_slot) in
  ret (with_fee fee r).

(** A transaction of a batch with others, on a copy of the state. *)
Definition charged_local (tx : Transaction) (block_slot : Z) (pre : bool) : M string VmReceipt :=
  let! fee := charge_tx_fee_with_pre_verified tx pre in
  let! r := (if has_opcode tx 15 then liquid env tx else run_vm tx block_slot) in
  ret (with_fee fee r).

Record BlockState := {
  bs_tree : StateTree;
  bs_gov : G;
  bs_receipts : gmap nat VmReceipt;
  bs_charged : Z;
}.

(** What one transaction leaves: its receipt, and whether it counts as charged. *)
Definition settle (s : BlockState) (idx : nat) (t : StateTree) (g : G) (r : VmReceipt)
    (charged : bool) : BlockState :=
  {| bs_tree := t; bs_gov := g; bs_receipts := <[idx := r]> (bs_receipts s);
     bs_charged := if charged then bs_charged s + 1 else bs_charged s |}.

Definition run_single (block_slot : Z) (s : BlockState) (idx : nat) (tx : Transaction)
    (vr : option (result string unit)) : BlockState :=
  let t := bs_tree s in
  let g := bs_gov s in
  let finish (charged : bool) (m : M string VmReceipt) :=
    match atomically m t with
    | (t', Ok r) => settle s idx t' g r charged
    | (t', Err e) => settle s idx t' g (vm_failure tx e) false
    end in
  match vr with
  | Some (Err e) => settle s idx t g (vm_failure tx e) false
  | _ =>
      if has_opcode tx 13 then finish false (bridge_deposit env tx)
      else if has_opcode tx 14 then finish false (withdrawal_completion env tx)
      else if has_opcode tx 20 then
        let saved := snapshot t in
        match omission_evidence env tx g t with
        | (t', g', Ok r) => settle s idx t' g' r false
        | (t', g', Err e) => settle s idx (rollback t' saved) g' (vm_failure tx e) false
        end
      else finish true (charged_single tx block_slot (is_pre_verified vr))
  end.

(* ------------------------------------------------------------------ *)
(** * Batches *)

(** A result of the parallel part: the receipt, and the copy on success. *)
Definition run_local (block_slot : Z) (t : StateTree) (tx : Transaction)
    (vr : option (result string unit)) : VmReceipt * option StateTree :=
  match vr with
  | Some (Err e) => (vm_failure tx e, None)
  | _ =>
      match charged_local tx block_slot (is_pre_verified vr) t with
      | (t', Ok r) => (r, Some t')
      | (_, Err e) => (vm_failure tx e, None)
      end
  end.

Definition merge_account (local : StateTree) (main : StateTree) (id : AccountId) : StateTree :=
  match accounts local !! id with
  | Some acct =>
      let main := insert_account env_sha256 main acct in
      match contract_storage local !! id with
      | Some storage => foldl (fun m '(slot, v) => set_storage m id slot v) main (entries storage)
      | None => main
      end
  | None => fst (remove_account env_sha256 main id)
  end.

Definition merge_write_set (main local : StateTree) (tx : Transaction) : StateTree :=
  match extract_write_set env_sha256 tx with
  | Accounts set => foldl (merge_account local) main (elements set)
  | Global => local
  end.

Definition merge_result (s : BlockState) (e : nat * Transaction * (VmReceipt * option StateTree))
    : BlockState :=
  let '(idx, tx, (r, local)) := e in
  match local with
  | Some local => settle s idx (merge_write_set (bs_tree s) local tx) (bs_gov s) r true
  | None => settle s idx (bs_tree s) (bs_gov s) r false
  end.

Definition run_batch (block_slot : Z) (t0 : StateTree) (txs : list Transaction) (s : BlockState)
    (b : Batch) : BlockState :=
  let entries := omap (fun i => (fun tx => (i, tx)) <$> txs !! i) (tx_indices b) in
  if (length (tx_indices b) <=? 1)%nat then
    foldl (fun s '(i, tx) => run_single block_slot s i tx (verify_result t0 block_slot tx)) s entries
  else
    foldl merge_result s
      ((fun '(i, tx) =>
          (i, tx, run_local block_slot (bs_tree s) tx (verify_result t0 block_slot tx))) <$> entries).

Definition execute_transactions_with_fees (t : StateTree) (g : G) (txs : list Transaction)
    (block_slot : Z) : BlockState * list VmReceipt :=
  let s := foldl (run_batch block_slot t txs)
    {| bs_tree := t; bs_gov := g; bs_receipts := ∅; bs_charged := 0 |}
    (build_batches env_sha256 txs) in
  (s, imap (fun i tx => default (vm_failure tx "receipt missing") (bs_receipts s !! i)) txs).

(* ------------------------------------------------------------------ *)
(** * Touched accounts *)

Definition change_account (c : StateChange) : option AccountId :=
  match c with
  | BalanceChange a _ _ | NonceIncrement a _ | AccountCreated a | StorageChange a _ _ _
  | CodeDeployed a _ | AddressBound a _ | AuthKeyUpdated a _ | ZkReplayConsumed _ a => Some a
  | Fee _ | IntentChange _ _ _ _ => None
  end.

Definition touch (current_slot : Z) (t : StateTree) (c : StateChange) : StateTree :=
  match change_account c with
  | Some id => get_mut_update t id (fun a => set_last_touched a current_slot)
  | None => t
  end.

Definition update_touched_slots (t : StateTree) (receipts : list VmReceipt) (current_slot : Z)
    : StateTree :=
  foldl (fun t r => if vm_success r then foldl (touch current_slot) t (vm_changes r) else t)
    t receipts.

(* ------------------------------------------------------------------ *)
(** * What a batch leaves of the replay registry *)

Lemma set_storage_all_replay id l main :
  zk_replay_registry (foldl (fun m '(slot, v) => set_storage m id slot v) main l) =
  zk_replay_registry main.
Proof. revert main. induction l as [|[k v] l IH]; intros main; [done|]. cbn. by rewrite IH. Qed.

Lemma merge_account_replay local main id :
  zk_replay_registry (merge_account local main id) = zk_replay_registry main.
Proof.
  unfold merge_account, remove_account. destruct (accounts local !! id).
  - destruct (contract_storage local !! id); [by rewrite set_storage_all_replay|done].
  - by destruct (accounts main !! id).
Qed.

Lemma merge_accounts_replay local main l :
  zk_replay_registry (foldl (merge_account local) main l) = zk_replay_registry main.
Proof.
  revert main. induction l as [|id l IH]; intros main; [done|].
  cbn. by rewrite IH, merge_account_replay.
Qed.

Lemma merge_result_replay s i tx r set :
  extract_write_set env_sha256 tx = Accounts set ->
  zk_replay_registry (bs_tree (merge_result s (i, tx, r))) = zk_replay_registry (bs_tree s).
Proof.
  intros Hw. destruct r as [r [local|]]; [|done]. cbn. unfold merge_write_set. rewrite Hw.
  apply merge_accounts_replay.
Qed.

Lemma conflict_free_finite x y :
  conflicts_with (extract_write_set env_sha256 x) (extract_write_set env_sha256 y) = false ->
  exists set, extract_write_set env_sha256 x = Accounts set.
Proof. destruct (extract_write_set env_sha256 x); [by eexists|done]. Qed.

(** In a batch of two or more every write set is finite. *)
Lemma shared_batch_finite txs b i x :
  b ∈ build_batches env_sha256 txs -> (2 <= length (tx_indices b))%nat ->
  i ∈ tx_indices b -> txs !! i = Some x ->
  exists set, extract_write_set env_sha256 x = Accounts set.
Proof.
  intros Hb Hl Hi Hx.
  assert (exists j, j ∈ tx_indices b /\ i <> j) as (j & Hj & Hne).
  { pose proof (build_batches_NoDup _ _ _ Hb) as Hnd.
    destruct (tx_indices b) as [|j [|k l]]; cbn in Hl; [lia..|].
    destruct (decide (i = j)) as [->|]; [exists k|exists j]; (split; [set_solver|]); [|done].
    intros ->. by apply NoDup_cons in Hnd as [[]%not_elem_of_cons _]. }
  destruct (build_batches_lookup _ _ _ _ Hb Hj) as [y Hy].
  eapply conflict_free_finite, (build_batches_apart env_sha256 txs b i j); done.
Qed.

(** A batch of two or more transactions loses the marks of spent
    zero-knowledge authorisations.  Whatever the transactions of such a batch
    do, the registry of consumed replay commitments is afterwards what it was
    before the batch: the merge copies accounts and storage only.  The marker
    written on the copy by a successful transfer is gone, and the transfer can
    run again. *)
Theorem replay_marks_lost slot t0 txs s b :
  b ∈ build_batches env_sha256 txs -> (2 <= length (tx_indices b))%nat ->
  zk_replay_registry (bs_tree (run_batch slot t0 txs s b)) = zk_replay_registry (bs_tree s).
Proof.
  intros Hb Hl. unfold run_batch. destruct (Nat.leb_spec (length (tx_indices b)) 1); [lia|].
  assert (forall e, e ∈ omap (fun i => (fun tx => (i, tx)) <$> txs !! i) (tx_indices b) ->
    exists set, extract_write_set env_sha256 (snd e) = Accounts set) as Hw.
  { intros [i tx] (j & Hj & E)%list_elem_of_omap. destruct (txs !! j) eqn:Hx; [|done].
    cbn in E. injection E as -> ->. by eapply shared_batch_finite. }
  generalize dependent s. revert Hw. generalize (omap (fun i => (fun tx => (i, tx)) <$> txs !! i)
    (tx_indices b)) as es. intros es Hw s. generalize (bs_tree s) at 1 as tb. intros tb. revert s.
  induction es as [|[i tx] es IH]; intros s; [done|]. cbn [fmap list_fmap foldl].
  rewrite IH by (intros e He; apply Hw; by right).
  destruct (Hw (i, tx) (list_elem_of_here _ _)) as [set Hset]. by eapply merge_result_replay.
Qed.

(* ------------------------------------------------------------------ *)
(** * Creations and the count of charged transactions *)

Lemma create_charge t tx key :
  accounts t !! tx_sender tx = None ->
  decode (payload tx) = Ok (CreateAccount (tx_sender tx) key) ->
  charge_tx_fee_with_pre_verified tx true t = (t, Ok None).
Proof.
  intros Ha Hd. unfold charge_tx_fee_with_pre_verified, bind, get_account, gets. rewrite Ha.
  unfold created_key. by rewrite Hd, Z.eqb_refl.
Qed.

Lemma create_dispatched policy slot t tx l key :
  engines (node_vm env) AceNative = Some (native_engine policy) ->
  raw_chain tx = None -> zk_auth tx = None -> payload tx = 2 :: l ->
  decode (payload tx) = Ok (CreateAccount (tx_sender tx) key) ->
  node_credential_ok tx key = true -> accounts t !! tx_sender tx = None ->
  exists r, nvm_execute_transaction (node_vm env) tx slot t =
    (insert_account env_sha256 t (with_auth (tx_sender tx) 0 key), Ok r).
Proof.
  intros Hnat Hraw Hzk Hp Hdec Hcred Ha. unfold nvm_execute_transaction.
  rewrite Hp. replace (is_raw_chain tx && is_zk_auth tx) with false
    by (unfold is_raw_chain; rewrite Hraw; by rewrite bool_decide_false by by intros [??]).
  unfold atomically, dispatch, tron_marker, authorise, credential_auth, nvm_decode, engine_decode.
  rewrite Hraw, Hzk, Hdec. cbn [vm_from_opcode]. rewrite bool_decide_true by done.
  unfold bind, lift, get_account, gets, native_auth_key. rewrite Ha, Hp, bool_decide_true by done.
  rewrite Z.eqb_refl. unfold check_credential, fail_if.
  unfold node_credential_ok in Hcred. rewrite Hcred. cbn.
  rewrite Hnat. unfold require, ret, map_err, native_engine.
  rewrite (create_runs t tx policy (tx_sender tx) key) by done.
  by eexists.
Qed.

(** The creation of an account counts as charged and pays nothing.  For
    every absent sender whose credential was verified, the creation succeeds,
    the count of charged transactions grows by one, and no balance changes: the
    new account starts at zero and every other account is as before.  The fees
    paid to the validators are [TX_FEE] for each transaction of the count. *)
Theorem creation_charged_for_free policy slot s i tx l key :
  engines (node_vm env) AceNative = Some (native_engine policy) ->
  raw_chain tx = None -> zk_auth tx = None -> payload tx = 2 :: l ->
  decode (payload tx) = Ok (CreateAccount (tx_sender tx) key) ->
  node_credential_ok tx key = true -> accounts (bs_tree s) !! tx_sender tx = None ->
  let s' := run_single slot s i tx (Some (Ok tt)) in
  bs_charged s' = bs_charged s + 1 /\
  accounts (bs_tree s') = <[tx_sender tx := with_auth (tx_sender tx) 0 key]> (accounts (bs_tree s)).
Proof.
  intros Hnat Hraw Hzk Hp Hdec Hcred Habs. unfold run_single.
  assert (forall o, o <> 2 -> has_opcode tx o = false) as Hop.
  { intros o Ho. unfold has_opcode. rewrite Hp. apply bool_decide_false. by intros [= ]. }
  rewrite !Hop by done.
  assert (exists r, charged_single tx slot true (bs_tree s) =
    (insert_account env_sha256 (bs_tree s) (with_auth (tx_sender tx) 0 key), Ok r)) as [r Hr].
  { unfold charged_single. rewrite !Hop by done.
    destruct (create_dispatched policy slot (bs_tree s) tx l key) as [r Hr]; try done.
    unfold bind, run_vm, map_err. rewrite (create_charge _ tx key), Hr by done. by eexists. }
  unfold atomically. cbn [is_pre_verified]. by rewrite Hr.
Qed.
End exec.

(* ------------------------------------------------------------------ *)
(** * A node with the native engine, for evaluation *)

Module SampleNode.
Import SampleEnv SampleK256 SampleTron.
Definition env : NodeEnv unit :=
  {| node_vm := SampleBlock.vm;
     verify_certificate _ _ := Err "none";
     bridge_deposit _ := fail "none";
     withdrawal_completion _ := fail "none";
     omission_evidence _ g t := (t, g, Err "none");
     oasset_withdraw _ _ := fail "none";
     liquid _ := fail "none" |}.
Definition sent (from to nonce amount : Z) (zk : option ZkAuth) : Transaction :=
  let p := [1] ++ le_bytes 8 nonce ++ be_bytes 32 to ++ le_bytes 8 amount in
  {| payload := p;
     attestation := {| obj_hash := digest env_sha256 p; idcom := from;
       att_domain := {| chain_id := 1; domain_slot := 9 |}; context_tag := 0;
       credential := SampleSig.sample_sign from [] |};
     raw_chain := None; zk_auth := zk |}.
Definition tree : StateTree :=
  insert_account env_sha256
    (insert_account env_sha256 state_new (with_auth 7 (10 * TX_FEE) (SampleSig.sample_key 7)))
    (with_auth 9 (10 * TX_FEE) (SampleSig.sample_key 9)).
Definition start : BlockState (G := unit) :=
  {| bs_tree := tree; bs_gov := (); bs_receipts := ∅; bs_charged := 0 |}.
Definition run (t : StateTree) (slot : Z) (txs : list Transaction)
    : BlockState (G := unit) * list VmReceipt :=
  execute_transactions_with_fees env t () txs slot.

(** A transfer under a zero-knowledge authorisation, beside a transfer of
    another sender. *)
Definition zk_pay : Transaction :=
  sent 7 8 0 3 (Some {| zk_proof := []; zk_target := 0; rp_com := 77; zk_nonce := 0 |}).
Definition block1 : list Transaction := [zk_pay; sent 9 10 0 4 None].
Definition block2 : list Transaction := [zk_pay; sent 9 10 1 4 None].
Definition batch1 : Batch := default batch_new (head (build_batches env_sha256 block1)).
Definition after1 : BlockState (G := unit) := fst (run tree 9 block1).
Definition after2 : BlockState (G := unit) := fst (run (bs_tree after1) 10 block2).
(** The same transfer alone in its block. *)
Definition alone1 : BlockState (G := unit) := fst (run tree 9 [zk_pay]).
Definition alone2 : BlockState (G := unit) := fst (run (bs_tree alone1) 10 [zk_pay]).
Definition paid (s : BlockState (G := unit)) : option Z := acc_balance <$> accounts (bs_tree s) !! 8.
End SampleNode.

(** The transfer of 3 is paid in both blocks; alone in its block, only once. *)
Lemma replay_marks_lost_witness :
  zk_replay_registry (bs_tree (run_batch (CE := SampleEnv.sample_env) (K := SampleK256.sample_k256)
    (RV := SampleTron.no_verifiers) SampleNode.env 9 SampleNode.tree SampleNode.block1
    SampleNode.start SampleNode.batch1)) = ∅ /\
  SampleNode.paid SampleNode.after1 = Some 3 /\ SampleNode.paid SampleNode.after2 = Some 6 /\
  SampleNode.paid SampleNode.alone1 = Some 3 /\ SampleNode.paid SampleNode.alone2 = Some 3.
Proof.
  split_and!; [|vm_compute; reflexivity..].
  rewrite (replay_marks_lost (CE := SampleEnv.sample_env) (K := SampleK256.sample_k256)
    (RV := SampleTron.no_verifiers) SampleNode.env 9 SampleNode.tree SampleNode.block1
    SampleNode.start SampleNode.batch1); [vm_compute; reflexivity| |vm_compute; lia].
  apply (list_elem_of_lookup_2 _ 0). vm_compute. reflexivity.
Defined.

Lemma creation_charged_for_free_witness :
  let s' := run_single (CE := SampleEnv.sample_env) (K := SampleK256.sample_k256)
    (RV := SampleTron.no_verifiers) SampleNode.env 9 SampleNode.start 0 SampleNative.create
    (Some (Ok tt)) in
  (bs_charged s' = 1 /\
   accounts (bs_tree s') = <[5 := with_auth 5 0 SampleNative.key]> (accounts SampleNode.tree)) /\
  total_balance (bs_tree s') = total_balance SampleNode.tree.
Proof.
  split; [|vm_compute; reflexivity].
  refine (creation_charged_for_free (CE := SampleEnv.sample_env)
    (K := SampleK256.sample_k256) (RV := SampleTron.no_verifiers) SampleNode.env
    SampleNative.policy 9 SampleNode.start 0 SampleNative.create
    (tail (payload SampleNative.create)) SampleNative.key eq_refl _ _ _ _ _ _); vm_compute; reflexivity.
Defined.
