(* ===== verification/Parallel.v ===== *)
(** Parallel execution of a batch is serial execution.

    A computation is [local] to a set of accounts when its result depends only
    on those accounts and their stubs and it writes nothing else.  Locality is
    closed under the combinators of [StateM], so it follows the structure of the
    code; native transactions are local to the write set the scheduler reads
    from their payload.  Running such transactions on copies of the state and
    merging the copies then has the outcome of running them one by one. *)

From S2P Require Import Prelude SigAlgo Account StateTree StateM Rewards.
From S2P Require Import Wire Payload Transaction Engine Vm RawTron Dispatch Scheduler BlockExec.
Local Open Scope Z_scope.
Local Open Scope ace_scope.

(* ------------------------------------------------------------------ *)
(** * Locality *)

(** The same accounts and stubs on [S]. *)
Definition agree (S : gset AccountId) (t1 t2 : StateTree) : Prop :=
  forall id, id ∈ S ->
    accounts t1 !! id = accounts t2 !! id /\ stubs t1 !! id = stubs t2 !! id.

(** What a local computation leaves alone. *)
Record framed (S : gset AccountId) (t t' : StateTree) : Prop := {
  fr_accounts id : id ∉ S -> accounts t' !! id = accounts t !! id;
  fr_stubs id : id ∉ S -> stubs t' !! id = stubs t !! id;
  fr_storage : contract_storage t' = contract_storage t;
  fr_replay : zk_replay_registry t' = zk_replay_registry t;
  fr_hfi : hfi_intents t' = hfi_intents t /\ hfi_recipients t' = hfi_recipients t /\
    hfi_idcom_index t' = hfi_idcom_index t;
  fr_absent id : accounts t' !! id = None -> stubs t' !! id = stubs t !! id;
  fr_present id : is_Some (accounts t !! id) -> is_Some (accounts t' !! id);
  fr_disjoint : (forall id, is_Some (accounts t !! id) -> stubs t !! id = None) ->
    forall id, is_Some (accounts t' !! id) -> stubs t' !! id = None;
  fr_ids : (forall id a, accounts t !! id = Some a -> acc_id_com a = id) ->
    forall id a, accounts t' !! id = Some a -> acc_id_com a = id;
}.

Definition ids_ok (t : StateTree) : Prop :=
  forall id a, accounts t !! id = Some a -> acc_id_com a = id.

Lemma framed_refl S t : framed S t t.
Proof. by split. Qed.

Lemma framed_trans S t1 t2 t3 : framed S t1 t2 -> framed S t2 t3 -> framed S t1 t3.
Proof.
  intros [a1 b1 c1 d1 (x1 & y1 & z1) h1 e1 f1 g1] [a2 b2 c2 d2 (x2 & y2 & z2) h2 e2 f2 g2].
  split; intros; [rewrite a2, a1|rewrite b2, b1|congruence|congruence|split_and!; congruence| | | |];
    eauto.
  rewrite h2 by done. apply h1. apply eq_None_not_Some. intros Hs.
  apply e2 in Hs as [? Hs]. congruence.
Qed.

Definition local {E A} (S : gset AccountId) (m : M E A) : Prop :=
  forall t1 t2, agree S t1 t2 -> ids_ok t1 ->
    snd (m t1) = snd (m t2) /\ agree S (fst (m t1)) (fst (m t2)) /\ framed S t1 (fst (m t1)).

Create HintDb local.

Section locality.
Context {E A B : Type} (S : gset AccountId).

Lemma local_ret (a : A) : local S (ret a : M E A).
Proof. intros t1 t2 H _. split_and!; [done|done|apply framed_refl]. Qed.

Lemma local_fail (e : E) : local S (fail e : M E A).
Proof. intros t1 t2 H _. split_and!; [done|done|apply framed_refl]. Qed.

Lemma local_lift (r : result E A) : local S (lift r).
Proof. intros t1 t2 H _. split_and!; [done|done|apply framed_refl]. Qed.

Lemma local_require (o : option A) (e : E) : local S (require o e).
Proof. destruct o; [apply local_ret|apply local_fail]. Qed.

Lemma local_fail_if c (e : E) : local S (fail_if c e).
Proof. intros t1 t2 H _. destruct c; (split_and!; [done|done|apply framed_refl]). Qed.

Lemma local_bind (m : M E A) (k : A -> M E B) :
  local S m -> (forall a, local S (k a)) -> local S (bind m k).
Proof.
  intros Hm Hk t1 t2 H Hi. destruct (Hm t1 t2 H Hi) as (Hr & Ha & Hf). unfold bind.
  destruct (m t1) as [s1 r1], (m t2) as [s2 r2]. cbn in *. subst r2.
  destruct r1 as [a|e]; [|done].
  destruct (Hk a s1 s2 Ha (fr_ids _ _ _ Hf Hi)) as (Hr & Ha2 & Hf2).
  split_and!; [done|done|by eapply framed_trans].
Qed.

Lemma local_if (c : bool) (m n : M E A) : local S m -> local S n -> local S (if c then m else n).
Proof. by destruct c. Qed.

Lemma local_get_account id : id ∈ S -> local S (get_account id : M E _).
Proof.
  intros Hid t1 t2 H _. unfold get_account, gets. cbn. destruct (H id Hid) as [-> _].
  split_and!; [done|done|apply framed_refl].
Qed.

Lemma local_is_stubbed id : id ∈ S -> local S (is_stubbed id : M E _).
Proof.
  intros Hid t1 t2 H _. unfold is_stubbed, gets. cbn. destruct (H id Hid) as [_ ->].
  split_and!; [done|done|apply framed_refl].
Qed.

Lemma local_contains id : id ∈ S -> local S (contains id : M E _).
Proof.
  intros Hid t1 t2 H _. unfold contains, gets. cbn. destruct (H id Hid) as [-> _].
  split_and!; [done|done|apply framed_refl].
Qed.

Lemma local_update id f :
  id ∈ S -> (forall a, acc_id_com a = id -> acc_id_com (f a) = id) ->
  local S (update id f : M E _).
Proof.
  intros Hid Hf t1 t2 H Hi. unfold update, modify. cbn. split; [done|].
  destruct (H id Hid) as [Ha _]. unfold get_mut_update. rewrite <-Ha.
  destruct (accounts t1 !! id) as [a|] eqn:E1; [|split; [done|apply framed_refl]].
  split.
  - intros j Hj. cbn. destruct (decide (j = id)) as [->|]; [rewrite !lookup_insert_eq|rewrite !lookup_insert_ne by done];
      split; try done; by apply H.
  - split; cbn; try done.
    + intros j Hj. rewrite lookup_insert_ne by set_solver. done.
    + intros j [b Hb]. destruct (decide (j = id)) as [->|]; [rewrite lookup_insert_eq|rewrite lookup_insert_ne by done]; by eexists.
    + intros Hd j Hj. apply Hd. destruct (decide (j = id)) as [->|]; [by rewrite E1|by rewrite lookup_insert_ne in Hj].
    + intros Hids j b [[<- <-]|[_ Hb]]%lookup_insert_Some; eauto.
Qed.

(** The account read has the id it was read with. *)
Lemma local_bind_account id (k : option Account -> M E B) :
  id ∈ S -> (forall o, (forall a, o = Some a -> acc_id_com a = id) -> local S (k o)) ->
  local S (bind (get_account id) k).
Proof.
  intros Hid Hk t1 t2 H Hi. unfold bind, get_account, gets. destruct (H id Hid) as [Ha _].
  rewrite <-Ha. apply Hk; [|done|done]. intros a Ea. by apply Hi.
Qed.

Lemma local_insert sha256 (a : Account) :
  acc_id_com a ∈ S -> local S (modify (fun t => insert_account sha256 t a) : M E _).
Proof.
  intros Hid t1 t2 H Hi. unfold modify. cbn. split; [done|]. split.
  - intros j Hj. cbn. destruct (decide (j = acc_id_com a)) as [->|].
    + by rewrite !lookup_insert_eq, !lookup_delete_eq.
    + rewrite !lookup_insert_ne, !lookup_delete_ne by done. by apply H.
  - split; cbn; try done.
    + intros j Hj. rewrite lookup_insert_ne by set_solver. done.
    + intros j Hj. rewrite lookup_delete_ne by set_solver. done.
    + intros j [_ Hne]%lookup_insert_None. by rewrite lookup_delete_ne.
    + intros j [b Hb]. destruct (decide (j = acc_id_com a)) as [->|];
        [rewrite lookup_insert_eq|rewrite lookup_insert_ne by done]; by eexists.
    + intros Hd j Hj. destruct (decide (j = acc_id_com a)) as [->|]; [apply lookup_delete_eq|].
      rewrite lookup_delete_ne by done. rewrite lookup_insert_ne in Hj by done. by apply Hd.
    + intros Hids j b [[<- <-]|[_ Hb]]%lookup_insert_Some; eauto.
Qed.

Lemma local_atomically (m : M E A) : local S m -> local S (atomically m).
Proof.
  intros Hm t1 t2 H Hi. destruct (Hm t1 t2 H Hi) as (Hr & Ha & Hf). unfold atomically.
  destruct (m t1) as [s1 r1], (m t2) as [s2 r2]. cbn in *. subst r2.
  destruct r1; [done|]. cbn. rewrite !rollback_snapshot. split_and!; [done|done|apply framed_refl].
Qed.
End locality.

(** The value of a pure step is known to the rest. *)
Lemma local_bind_lift {E A B} S (r : result E A) (k : A -> M E B) :
  (forall a, r = Ok a -> local S (k a)) -> local S (bind (lift r) k).
Proof.
  intros Hk. destruct r as [a|e]; [by apply Hk|]. exact (local_fail (A := B) S e).
Qed.

Lemma local_bind_require {E A B} S (o : option A) e (k : A -> M E B) :
  (forall a, o = Some a -> local S (k a)) -> local S (bind (require o e) k).
Proof.
  intros Hk. destruct o as [a|]; [by apply Hk|]. exact (local_fail (A := B) S e).
Qed.

Lemma local_map_err {E F A} (f : E -> F) S (m : M E A) : local S m -> local S (map_err f m).
Proof.
  intros Hm t1 t2 H Hi. destruct (Hm t1 t2 H Hi) as (Hr & Ha & Hf). unfold map_err.
  destruct (m t1) as [s1 r1], (m t2) as [s2 r2]. cbn in *. subst r2. by destruct r1.
Qed.

#[export] Hint Resolve local_ret local_fail local_lift local_require local_fail_if local_bind
  local_if local_get_account local_is_stubbed local_contains local_update local_insert
  local_atomically local_map_err : local.

(* ------------------------------------------------------------------ *)
(** * Native transactions are local *)

Ltac local_step :=
  lazymatch goal with
  | |- local _ (bind (get_account _) _) => apply local_bind_account; [|intros ? ?]
  | |- local _ (bind (lift _) _) => apply local_bind_lift; intros ? ?
  | |- local _ (bind (require _ _) _) => apply local_bind_require; intros ? ?
  | |- local _ (bind _ _) => apply local_bind; [|intros ?]
  | |- local _ (if _ then _ else _) => apply local_if
  | |- local _ (match ?x with _ => _ end) => destruct x
  | |- local _ (ret _) => apply local_ret
  | |- local _ (fail _) => apply local_fail
  | |- local _ (lift _) => apply local_lift
  | |- local _ (require _ _) => apply local_require
  | |- local _ (fail_if _ _) => apply local_fail_if
  | |- local _ (get_account _) => apply local_get_account
  | |- local _ (is_stubbed _) => apply local_is_stubbed
  | |- local _ (contains _) => apply local_contains
  | |- local _ (update _ _) => apply local_update; [|intros ? ?; cbn]
  | |- local _ (modify (fun t => insert_account _ t _)) => apply local_insert; cbn
  | |- local _ (map_err _ _) => apply local_map_err
  | |- local _ (atomically _) => apply local_atomically
  end.
Ltac local_go := cbv beta zeta; repeat (local_step; cbv beta zeta); try done.

Section native.
Context {CE : CryptoEnv} {K : K256} {RV : RawVerifiers}.
Variable S : gset AccountId.

Lemma transfer_local from to amount en inc :
  from ∈ S -> to ∈ S -> local S (transfer_with_nonce_policy from to amount en inc).
Proof. intros Hf Ht. unfold transfer_with_nonce_policy, transfer_pay. local_go. Qed.

Lemma consume_nonce_local id n : id ∈ S -> local S (consume_account_nonce id n).
Proof. intros Hid. unfold consume_account_nonce. local_go. Qed.

Lemma change_keys_local id n k change :
  id ∈ S -> (forall a b, change a k = Ok b -> acc_id_com b = acc_id_com a) ->
  local S (change_keys id n k change).
Proof.
  intros Hid Hc. unfold change_keys. apply local_bind; [by apply consume_nonce_local|]. intros c.
  local_go. subst. rewrite (Hc _ _ ltac:(eassumption)). auto.
Qed.

(** The accounts an operation of one of the local kinds works on. *)
Definition works_on (sender : AccountId) (op : TransactionOp) : Prop :=
  match op with
  | Transfer _ to _ => to ∈ S
  | CreateAccount id _ => id ∈ S
  | SetAuthPubkey _ _ | AddAuthKey _ _ | ApproveValidator _ _ _ => True
  | _ => False
  end.

Lemma operation_local tx op policy :
  tx_sender tx ∈ S -> works_on (tx_sender tx) op -> is_zk_auth tx = false ->
  local S (apply_operation tx op policy).
Proof.
  intros Hs Hw Hz. destruct op; try done; unfold apply_operation; rewrite ?Hz.
  - by apply transfer_local.
  - local_go.
  - apply change_keys_local; [done|]. intros a b H. by apply rotate_key_same_money in H as (? & _).
  - apply change_keys_local; [done|]. intros a b H. by apply add_key_same_money in H as (? & _).
  - unfold apply_approve_validator_nonce. local_go. by apply consume_nonce_local.
Qed.

Lemma execute_local tx policy :
  tx_sender tx ∈ S -> zk_auth tx = None ->
  (forall op, decode (payload tx) = Ok op -> works_on (tx_sender tx) op) ->
  local S (execute_transaction tx policy).
Proof.
  intros Hs Hz Hw. unfold execute_transaction. apply local_bind_lift. intros op Hd.
  assert (decode (payload tx) = Ok op) as Hd'.
  { unfold engine_decode in Hd. destruct (decode (payload tx)) as [|[]]; by simplify_eq. }
  unfold zk_only_transfer, authorize. rewrite Hz. local_go.
  apply operation_local; [done|by apply Hw|by apply zk_is_None].
Qed.
End native.

(* ------------------------------------------------------------------ *)
(** * The write set covers the transaction *)

(** A native transaction with a finite write set: a transfer, the creation of
    an account, a change of keys or an approval, under a credential. *)
Definition native_tx (tx : Transaction) : Prop :=
  raw_chain tx = None /\ zk_auth tx = None /\
  exists op l, payload tx = op :: l /\ (op = 1 \/ op = 2 \/ op = 3 \/ op = 4 \/ op = 12).

Lemma read_32_account_at p l x : read_32 p l = Ok x -> x = account_at l (Z.of_nat p).
Proof.
  unfold read_32, slice. case_match; [|done]. intros [= <-]. unfold account_at, bytes_at.
  by rewrite Nat2Z.id.
Qed.

Lemma read_32_length p l x : read_32 p l = Ok x -> (p + 32 <= length l)%nat.
Proof. unfold read_32, slice. case_match; [|done]. intros _. by apply Nat.leb_le. Qed.

Lemma transfer_works S sender l :
  transfer_write_set sender l = Accounts S -> post (works_on S sender) (decode_transfer l).
Proof.
  unfold decode_transfer, reject. destruct (Nat.eqb_spec (length l) 49) as [Hl|]; [|done]. cbn [negb].
  unfold transfer_write_set, payload_len. rewrite Hl. cbn. intros [= <-].
  apply post_bind; intros n _. apply post_bind; intros to Hto. apply post_bind; intros am _. cbn.
  apply read_32_account_at in Hto. cbn in Hto. set_solver.
Qed.

Lemma create_works S sender l :
  (if 33 <=? payload_len l then Accounts {[ sender; account_at l 1 ]} else Accounts {[ sender ]}) =
    Accounts S ->
  post (works_on S sender) (decode_create_account l).
Proof.
  unfold decode_create_account. intros HS. apply post_reject, post_bind. intros id Hid.
  pose proof (read_32_length _ _ _ Hid). apply read_32_account_at in Hid. cbn in Hid.
  unfold payload_len in HS. destruct (Z.leb_spec 33 (Z.of_nat (length l))); [|lia].
  injection HS as <-. apply post_bind. intros k _. apply post_reject. cbn.
  set_solver.
Qed.

Lemma transfer_write_set_finite sender l :
  exists S, transfer_write_set sender l = Accounts S /\ sender ∈ S.
Proof. unfold transfer_write_set. cbv zeta. repeat case_match; eexists; (split; [done|set_solver]). Qed.

Lemma create_write_set_finite sender l :
  exists S, (if 33 <=? payload_len l then Accounts {[ sender; account_at l 1 ]}
             else Accounts {[ sender ]}) = Accounts S /\ sender ∈ S.
Proof. case_match; eexists; (split; [done|set_solver]). Qed.

Lemma sender_works S sender l o :
  (o = 3 \/ o = 4 \/ o = 12) -> post (works_on S sender) (decode (o :: l)).
Proof.
  intros [->|[->| ->]]; unfold decode; cbn [Z.eqb Pos.eqb OP_TRANSFER OP_CREATE_ACCOUNT];
    [change (post (works_on S sender) (decode_set_auth_pubkey (3 :: l)))
    |change (post (works_on S sender) (decode_add_auth_key (4 :: l)))
    |change (post (works_on S sender) (decode_approve_validator (12 :: l)))];
    unfold decode_set_auth_pubkey, decode_add_auth_key, decode_approve_validator; solve_post; try done.
  all: unfold decode_legacy_add_auth_key; solve_post; done.
Qed.

Lemma write_set_works sha256 tx :
  native_tx tx -> exists S, extract_write_set sha256 tx = Accounts S /\ tx_sender tx ∈ S /\
    forall op, decode (payload tx) = Ok op -> works_on S (tx_sender tx) op.
Proof.
  intros (_ & _ & o & l & Hp & Ho).
  assert (exists S, extract_write_set sha256 tx = Accounts S /\ tx_sender tx ∈ S /\
    post (works_on S (tx_sender tx)) (decode (payload tx))) as (S & HS & Hin & Hpost);
    [|exists S; split_and!; [done|done|]; intros op E; by rewrite E in Hpost].
  unfold extract_write_set. rewrite Hp. destruct Ho as [->|[->|Ho]].
  - destruct (transfer_write_set_finite (tx_sender tx) (1 :: l)) as (S & HS & Hin).
    exists S. split_and!; [exact HS|done|]. exact (transfer_works S _ _ HS).
  - destruct (create_write_set_finite (tx_sender tx) (2 :: l)) as (S & HS & Hin).
    exists S. split_and!; [exact HS|done|]. exact (create_works S _ _ HS).
  - exists {[ tx_sender tx ]}. split_and!; [|set_solver|by apply sender_works].
    by destruct Ho as [->|[->| ->]].
Qed.

(* ------------------------------------------------------------------ *)
(** * The whole transaction of a block is local *)

Section node.
Context {CE : CryptoEnv} {K : K256} {RV : RawVerifiers} {G : Type}.
Variables (env : NodeEnv G) (policy : ExecutionPolicy).
Hypothesis Hnative : engines (node_vm env) AceNative = Some (native_engine policy).

Lemma native_engine_local S tx :
  tx_sender tx ∈ S -> zk_auth tx = None ->
  (forall op, decode (payload tx) = Ok op -> works_on S (tx_sender tx) op) ->
  local S (native_engine policy tx).
Proof.
  intros Hs Hz Hw t1 t2 H Hi.
  destruct (execute_local S tx policy Hs Hz Hw t1 t2 H Hi) as (Hr & Ha & Hf). unfold native_engine.
  destruct (execute_transaction tx policy t1) as [s1 r1],
    (execute_transaction tx policy t2) as [s2 r2]. cbn in *. subst r2. by destruct r1.
Qed.

Lemma nvm_local S tx slot :
  native_tx tx -> tx_sender tx ∈ S ->
  (forall op, decode (payload tx) = Ok op -> works_on S (tx_sender tx) op) ->
  local S (nvm_execute_transaction (node_vm env) tx slot).
Proof.
  intros (Hraw & Hzk & o & l & Hp & Ho) Hs Hw. unfold nvm_execute_transaction. rewrite Hp.
  replace (is_raw_chain tx && is_zk_auth tx) with false
    by (unfold is_raw_chain; rewrite Hraw; by rewrite bool_decide_false by by intros [??]).
  assert (vm_from_opcode o = Some AceNative /\ is_hfi_opcode o = false) as [Hvm Hhfi]
    by (by destruct Ho as [->|[->|[->|[->| ->]]]]).
  unfold dispatch, tron_marker, authorise, credential_auth, check_credential, write_marker.
  rewrite Hraw, Hzk, Hhfi, Hvm. rewrite bool_decide_true by done. local_go.
  simplify_eq. by apply native_engine_local.
Qed.

Lemma charge_local S tx pre :
  tx_sender tx ∈ S -> local S (charge_tx_fee_with_pre_verified tx pre).
Proof.
  intros Hs. unfold charge_tx_fee_with_pre_verified. local_go.
Qed.

Lemma not_special tx :
  native_tx tx -> has_opcode tx 5 = false /\ has_opcode tx 13 = false /\ has_opcode tx 14 = false /\
    has_opcode tx 15 = false /\ has_opcode tx 19 = false /\ has_opcode tx 20 = false.
Proof.
  intros (_ & _ & o & l & Hp & Ho). unfold has_opcode. rewrite Hp.
  by destruct Ho as [->|[->|[->|[->| ->]]]].
Qed.

Lemma charged_local_local S tx slot pre :
  native_tx tx -> tx_sender tx ∈ S ->
  (forall op, decode (payload tx) = Ok op -> works_on S (tx_sender tx) op) ->
  local S (charged_local env tx slot pre).
Proof.
  intros Hn Hs Hw. unfold charged_local, run_vm. destruct (not_special tx Hn) as (_ & _ & _ & -> & _).
  local_go; [by apply charge_local|by apply nvm_local].
Qed.

(** Alone in its batch a native transaction does the same. *)
Lemma charged_single_local tx slot pre :
  native_tx tx -> charged_single env tx slot pre = charged_local env tx slot pre.
Proof.
  intros Hn. unfold charged_single, charged_local.
  by destruct (not_special tx Hn) as (-> & _ & _ & -> & -> & _).
Qed.
End node.

(* ------------------------------------------------------------------ *)
(** * Merging *)

(** Everything but the address indices, which follow from the accounts. *)
Record same_content (t1 t2 : StateTree) : Prop := {
  sc_accounts : accounts t1 = accounts t2;
  sc_stubs : stubs t1 = stubs t2;
  sc_storage : contract_storage t1 = contract_storage t2;
  sc_intents : hfi_intents t1 = hfi_intents t2;
  sc_recipients : hfi_recipients t1 = hfi_recipients t2;
  sc_idcoms : hfi_idcom_index t1 = hfi_idcom_index t2;
  sc_replay : zk_replay_registry t1 = zk_replay_registry t2;
}.

#[export] Instance same_content_equiv : Equivalence same_content.
Proof.
  split; [by split|by intros ?? []|].
  intros ??? [] []. split; congruence.
Qed.

(** States with the same content have the same root. *)
Lemma same_content_root sha256 t1 t2 :
  same_content t1 t2 -> compute_root sha256 t1 = compute_root sha256 t2.
Proof.
  destruct t1, t2. intros [E1 E2 E3 E4 E5 E6 E7]. cbn in *. by subst.
Qed.

Definition tiers_apart (t : StateTree) : Prop :=
  forall id, is_Some (accounts t !! id) -> stubs t !! id = None.

Lemma same_content_agree S t1 t2 : same_content t1 t2 -> agree S t1 t2.
Proof. intros [Ea Es _ _ _ _ _] id _. by rewrite Ea, Es. Qed.

(** A local computation gives the same result on the same content. *)
Lemma local_content {E A} S (m : M E A) t1 t2 :
  local S m -> same_content t1 t2 -> ids_ok t1 ->
  snd (m t1) = snd (m t2) /\ same_content (fst (m t1)) (fst (m t2)).
Proof.
  intros Hm Hc Hi. assert (ids_ok t2) as Hi2 by (intros id a; rewrite <-(sc_accounts _ _ Hc); apply Hi).
  destruct (Hm t1 t2 (same_content_agree S _ _ Hc) Hi) as (Hr & Ha & F1).
  destruct (Hm t2 t1 (same_content_agree S _ _ (symmetry Hc)) Hi2) as (_ & _ & F2).
  destruct Hc as [E1 E2 E3 E4 E5 E6 E7]. destruct F1 as [a1 b1 c1 d1 (x1 & y1 & z1) _ _ _ _].
  destruct F2 as [a2 b2 c2 d2 (x2 & y2 & z2) _ _ _ _].
  split; [done|]. split; try congruence; apply map_eq; intros id;
    (destruct (decide (id ∈ S)); [by apply Ha|]).
  - by rewrite a1, a2, E1.
  - by rewrite b1, b2, E2.
Qed.

Section merge.
Context {CE : CryptoEnv}.

(** Writing back storage that is already there. *)
Lemma restore_same t id (m : Storage) l :
  contract_storage t !! id = Some m -> (forall k v, (k, v) ∈ l -> m !! k = Some v) ->
  foldl (fun x '(slot, v) => set_storage x id slot v) t l = t.
Proof.
  intros Hm Hl. induction l as [|[k v] l IH]; [done|]. cbn [foldl].
  replace (set_storage t id k v) with t; [apply IH; set_solver|].
  unfold set_storage. rewrite Hm. cbn. rewrite (insert_id m k v) by (apply Hl; set_solver).
  rewrite insert_id by done. by destruct t.
Qed.

Lemma merge_account_spec S t0 loc main id :
  framed S t0 loc -> ids_ok loc -> tiers_apart loc -> id ∈ S ->
  agree {[ id ]} t0 main -> contract_storage main = contract_storage t0 ->
  let t' := merge_account loc main id in
  (forall j, accounts t' !! j = if decide (j = id) then accounts loc !! j else accounts main !! j) /\
  (forall j, stubs t' !! j = if decide (j = id) then stubs loc !! j else stubs main !! j) /\
  contract_storage t' = contract_storage main /\ hfi_intents t' = hfi_intents main /\
  hfi_recipients t' = hfi_recipients main /\ hfi_idcom_index t' = hfi_idcom_index main /\
  zk_replay_registry t' = zk_replay_registry main.
Proof.
  intros F Hids Hap Hin Hag Hst. cbv zeta. unfold merge_account.
  destruct (Hag id ltac:(set_solver)) as [Ea Es].
  destruct (accounts loc !! id) as [a|] eqn:El.
  - set (m1 := insert_account env_sha256 main a).
    assert (match contract_storage loc !! id with
      | Some storage => foldl (fun m '(slot, v) => set_storage m id slot v) m1 (entries storage)
      | None => m1 end = m1) as ->.
    { destruct (contract_storage loc !! id) as [m|] eqn:Em; [|done].
      apply (restore_same m1 id m); [cbn; rewrite Hst, <-(fr_storage _ _ _ F); done|].
      intros k v. apply elem_of_entries. }
    assert (acc_id_com a = id) as Hid by by apply Hids. split_and!; try done; intros j; cbn; rewrite Hid.
    + destruct (decide (j = id)) as [->|]; [by rewrite lookup_insert_eq|by rewrite lookup_insert_ne].
    + destruct (decide (j = id)) as [->|]; [|by rewrite lookup_delete_ne].
      rewrite lookup_delete_eq, Hap; [done|by eexists].
  - assert (accounts main !! id = None) as Hm.
    { rewrite <-Ea. apply eq_None_not_Some. intros H%(fr_present _ _ _ F). destruct H. congruence. }
    unfold remove_account. rewrite Hm. cbn. split_and!; try done; intros j;
      destruct (decide (j = id)) as [->|]; try done; [congruence|].
    by rewrite (fr_absent _ _ _ F) by done.
Qed.

Lemma merge_accounts_spec S t0 loc L main :
  framed S t0 loc -> ids_ok loc -> tiers_apart loc -> NoDup L -> (forall id, id ∈ L -> id ∈ S) ->
  agree (list_to_set L) t0 main -> contract_storage main = contract_storage t0 ->
  let t' := foldl (merge_account loc) main L in
  (forall j, accounts t' !! j = if decide (j ∈ L) then accounts loc !! j else accounts main !! j) /\
  (forall j, stubs t' !! j = if decide (j ∈ L) then stubs loc !! j else stubs main !! j) /\
  contract_storage t' = contract_storage main /\ hfi_intents t' = hfi_intents main /\
  hfi_recipients t' = hfi_recipients main /\ hfi_idcom_index t' = hfi_idcom_index main /\
  zk_replay_registry t' = zk_replay_registry main.
Proof.
  intros F Hids Hap. revert main. induction L as [|x L IH]; intros main Hnd HS Hag Hst; cbv zeta.
  { cbn [foldl]. split_and!; try done; intros j; destruct (decide (j ∈ [])); set_solver. }
  apply NoDup_cons in Hnd as [Hx Hnd]. cbn [foldl].
  destruct (merge_account_spec S t0 loc main x) as (A1 & B1 & C1 & D1 & E1 & F1 & G1);
    [done..|apply HS; set_solver|intros j Hj; apply Hag; set_solver|done|].
  destruct (IH (merge_account loc main x)) as (A2 & B2 & C2 & D2 & E2 & F2 & G2);
    [done|intros; apply HS; set_solver| |congruence|].
  { intros j Hj. rewrite A1, B1. rewrite !decide_False by set_solver. apply Hag. set_solver. }
  assert (forall j, j ∈ x :: L <-> j = x \/ j ∈ L) as Hel by (intros; apply elem_of_cons).
  split_and!; try congruence; intros j; specialize (Hel j); [rewrite A2, A1|rewrite B2, B1];
    repeat case_decide; try done; tauto.
Qed.

(** Merging the copy a local computation made of [t0] into [main] is running the
    computation on a state with the content of [main]. *)
Lemma merge_is_run {E A} S (m : M E A) t0 main ser tx :
  local S m -> extract_write_set env_sha256 tx = Accounts S -> ids_ok t0 -> tiers_apart t0 ->
  ids_ok ser -> agree S t0 ser -> same_content main ser -> contract_storage ser = contract_storage t0 ->
  snd (m ser) = snd (m t0) /\
  same_content (merge_write_set main (fst (m t0)) tx) (fst (m ser)) /\
  framed S ser (fst (m ser)).
Proof.
  intros Hm Hws Hids Hap Hids2 Hag Hc Hst.
  destruct (Hm t0 ser Hag Hids) as (Hr & Ha & F).
  assert (framed S ser (fst (m ser))) as Fs.
  { apply (Hm ser ser); [by intros id|done]. }
  split; [done|]. split; [|done]. unfold merge_write_set. rewrite Hws. destruct Hc as [c1 c2 c3 c4 c5 c6 c7].
  destruct (merge_accounts_spec S t0 (fst (m t0)) (elements S) main) as (A1 & B1 & C1 & D1 & E1 & F1 & G1);
    [done|exact (fr_ids _ _ _ F Hids)|exact (fr_disjoint _ _ _ F Hap)|apply NoDup_elements
    |intros id; by rewrite elem_of_elements| |congruence|].
  { intros j Hj. rewrite c1, c2. apply Hag. set_solver. }
  destruct Fs as [s1 s2 s3 s4 (s5 & s6 & s7) _ _ _ _].
  split; try congruence; apply map_eq; intros j; [rewrite A1|rewrite B1];
    destruct (decide (j ∈ elements S)) as [Hj|Hj]; rewrite elem_of_elements in Hj.
  - by apply Ha.
  - by rewrite s1, c1.
  - by apply Ha.
  - by rewrite s2, c2.
Qed.
End merge.

(* ------------------------------------------------------------------ *)
(** * Batches and blocks *)

Section blocks.
Context {CE : CryptoEnv} {K : K256} {RV : RawVerifiers} {G : Type}.
Variables (env : NodeEnv G) (policy : ExecutionPolicy).
Hypothesis Hnative : engines (node_vm env) AceNative = Some (native_engine policy).
Variables (slot : Z) (t0 : StateTree).

(** The serial reference: one transaction after the other on the state. *)
Definition serial_step (s : BlockState (G := G)) (e : nat * Transaction) : BlockState :=
  run_single env slot s (fst e) (snd e) (verify_result env t0 slot (snd e)).

Record same_block (s1 s2 : BlockState (G := G)) : Prop := {
  sb_tree : same_content (bs_tree s1) (bs_tree s2);
  sb_gov : bs_gov s1 = bs_gov s2;
  sb_receipts : bs_receipts s1 = bs_receipts s2;
  sb_charged : bs_charged s1 = bs_charged s2;
}.

#[local] Instance same_block_equiv : Equivalence same_block.
Proof.
  split; [by intros; split|by intros ?? []; split|].
  intros ??? [] []. split; [by etrans|congruence..].
Qed.

(** A native transaction of the serial reference, spelled out. *)
Lemma serial_step_native s i tx :
  native_tx tx ->
  serial_step s (i, tx) =
    match verify_result env t0 slot tx with
    | Some (Err e) => settle s i (bs_tree s) (bs_gov s) (vm_failure tx e) false
    | vr =>
        match charged_local env tx slot (is_pre_verified vr) (bs_tree s) with
        | (t', Ok r) => settle s i t' (bs_gov s) r true
        | (_, Err e) => settle s i (bs_tree s) (bs_gov s) (vm_failure tx e) false
        end
    end.
Proof.
  intros Hn. unfold serial_step, run_single. cbn [fst snd].
  destruct (not_special tx Hn) as (_ & -> & -> & _ & _ & ->).
  rewrite charged_single_local by done. unfold atomically.
  destruct (verify_result env t0 slot tx) as [[[]|e]|]; [|done|];
    (destruct (charged_local _ _ _ _ _) as [t' [r|e]]; [done|by rewrite rollback_snapshot]).
Qed.

(** The write set of a native transaction. *)
Definition set_of (tx : Transaction) : gset AccountId :=
  match extract_write_set env_sha256 tx with Accounts set => set | Global => ∅ end.

Lemma native_local tx pre :
  native_tx tx ->
  extract_write_set env_sha256 tx = Accounts (set_of tx) /\
  local (set_of tx) (charged_local env tx slot pre).
Proof.
  intros Hn. destruct (write_set_works env_sha256 tx Hn) as (S & HS & Hs & Hw).
  unfold set_of. rewrite HS. split; [done|]. by apply (charged_local_local env policy).
Qed.

(** One transaction of a batch: the copy of [tb], merged into the parallel
    state, has the effect of the transaction on the serial state. *)
Lemma merge_step tb sp ss i tx :
  native_tx tx -> ids_ok tb -> tiers_apart tb -> ids_ok (bs_tree ss) ->
  agree (set_of tx) tb (bs_tree ss) -> same_block sp ss ->
  contract_storage (bs_tree ss) = contract_storage tb ->
  same_block
    (merge_result sp (i, tx, run_local env slot tb tx (verify_result env t0 slot tx)))
    (serial_step ss (i, tx)) /\
  framed (set_of tx) (bs_tree ss) (bs_tree (serial_step ss (i, tx))).
Proof.
  intros Hn Hi Hap His Hag [Hc Hg Hr Hch] Hst. rewrite serial_step_native by done.
  unfold merge_result, run_local.
  assert (forall e, same_block (settle sp i (bs_tree sp) (bs_gov sp) (vm_failure tx e) false)
    (settle ss i (bs_tree ss) (bs_gov ss) (vm_failure tx e) false)) as Hfail
    by (intros e; split; cbn; [done|done|by rewrite Hr|done]).
  assert (forall pre,
    let '(r, local) := match charged_local env tx slot pre tb with
      | (t', Ok r) => (r, Some t') | (_, Err e) => (vm_failure tx e, None) end in
    let s' := match charged_local env tx slot pre (bs_tree ss) with
      | (t', Ok r) => settle ss i t' (bs_gov ss) r true
      | (_, Err e) => settle ss i (bs_tree ss) (bs_gov ss) (vm_failure tx e) false end in
    same_block (match local with
      | Some local => settle sp i (merge_write_set (bs_tree sp) local tx) (bs_gov sp) r true
      | None => settle sp i (bs_tree sp) (bs_gov sp) r false end) s' /\
    framed (set_of tx) (bs_tree ss) (bs_tree s')) as Hrun.
  { intros pre. destruct (native_local tx pre Hn) as [Hws Hl].
    destruct (merge_is_run (set_of tx) _ tb (bs_tree sp) (bs_tree ss) tx Hl Hws Hi Hap His Hag Hc Hst)
      as (He & Hm & Hf).
    destruct (charged_local env tx slot pre tb) as [t1 r1],
      (charged_local env tx slot pre (bs_tree ss)) as [t2 r2]. cbn in He, Hm, Hf. subst r2.
    destruct r1 as [r|e]; cbn; [|split; [apply Hfail|apply framed_refl]].
    split; [|done]. split; cbn; [done|done|by rewrite Hr|by rewrite Hch]. }
  destruct (verify_result env t0 slot tx) as [[[]|e]|].
  - specialize (Hrun (is_pre_verified (Some (Ok ())))).
    by destruct (charged_local env tx slot _ tb) as [? [|]].
  - split; [apply Hfail|apply framed_refl].
  - specialize (Hrun (is_pre_verified None)).
    by destruct (charged_local env tx slot _ tb) as [? [|]].
Qed.

Definition tree_ok (t : StateTree) : Prop := ids_ok t /\ tiers_apart t.

Lemma framed_tree_ok S t t' : framed S t t' -> tree_ok t -> tree_ok t'.
Proof. intros F [Hi Hd]. split; [exact (fr_ids _ _ _ F Hi)|exact (fr_disjoint _ _ _ F Hd)]. Qed.

(** Pairwise disjoint write sets. *)
Fixpoint apart (es : list (nat * Transaction)) : Prop :=
  match es with
  | [] => True
  | e :: es => (forall f, f ∈ es -> set_of (snd e) ## set_of (snd f)) /\ apart es
  end.

Definition all_native (es : list (nat * Transaction)) : Prop :=
  forall e, e ∈ es -> native_tx (snd e).

Lemma agree_framed S S' t t1 t2 :
  agree S t t1 -> framed S' t1 t2 -> S' ## S -> agree S t t2.
Proof.
  intros Ha F Hd id Hid. rewrite (fr_accounts _ _ _ F), (fr_stubs _ _ _ F) by set_solver.
  by apply Ha.
Qed.

Definition local_result (tb : StateTree) (e : nat * Transaction)
    : nat * Transaction * (VmReceipt * option StateTree) :=
  (fst e, snd e, run_local env slot tb (snd e) (verify_result env t0 slot (snd e))).

Lemma batch_is_serial tb es sp ss :
  all_native es -> apart es -> tree_ok tb -> tree_ok (bs_tree ss) ->
  (forall e, e ∈ es -> agree (set_of (snd e)) tb (bs_tree ss)) ->
  same_block sp ss -> contract_storage (bs_tree ss) = contract_storage tb ->
  same_block (foldl merge_result sp (local_result tb <$> es)) (foldl serial_step ss es).
Proof.
  revert sp ss. induction es as [|[i tx] es IH]; intros sp ss Hn Hap Htb Hss Hag Hs Hst; [done|].
  destruct Hap as [Hd Hap]. cbn [fmap list_fmap foldl].
  destruct (merge_step tb sp ss i tx) as [Hs' Hf]; try done;
    [exact (Hn _ (list_elem_of_here _ _))|apply Htb|apply Htb|apply Hss
    |exact (Hag _ (list_elem_of_here _ _))|].
  apply IH; try done.
  - intros e He. apply Hn. by right.
  - by eapply framed_tree_ok.
  - intros e He. eapply agree_framed; [apply Hag; by right|exact Hf|by apply Hd].
  - by rewrite (fr_storage _ _ _ Hf).
Qed.

(** Serial execution respects the content of the state. *)
Lemma serial_step_content s1 s2 e :
  native_tx (snd e) -> ids_ok (bs_tree s1) -> same_block s1 s2 ->
  same_block (serial_step s1 e) (serial_step s2 e).
Proof.
  destruct e as [i tx]. intros Hn Hi [Hc Hg Hr Hch]. rewrite !serial_step_native by done.
  assert (forall x, same_block (settle s1 i (bs_tree s1) (bs_gov s1) (vm_failure tx x) false)
    (settle s2 i (bs_tree s2) (bs_gov s2) (vm_failure tx x) false)) as Hfail
    by (intros x; split; cbn; [done|done|by rewrite Hr|done]).
  destruct (verify_result env t0 slot tx) as [[[]|e]|]; [|apply Hfail|];
    match goal with |- context [charged_local _ _ _ ?p _] =>
      destruct (local_content _ _ _ _ (proj2 (native_local tx p Hn)) Hc Hi) as [He Hm];
      destruct (charged_local env tx slot p (bs_tree s1)) as [t1 r1],
        (charged_local env tx slot p (bs_tree s2)) as [t2 r2] end;
    cbn in He, Hm; subst r2; destruct r1; try apply Hfail;
    (split; cbn; [done|done|by rewrite Hr|by rewrite Hch]).
Qed.

Lemma serial_step_ok s e :
  native_tx (snd e) -> tree_ok (bs_tree s) -> tree_ok (bs_tree (serial_step s e)).
Proof.
  destruct e as [i tx]. intros Hn Hok.
  destruct (merge_step (bs_tree s) s s i tx) as [_ Hf];
    [done|apply Hok|apply Hok|apply Hok|by intros id|reflexivity|done|].
  by eapply framed_tree_ok.
Qed.

Lemma serial_all_content es s1 s2 :
  all_native es -> tree_ok (bs_tree s1) -> same_block s1 s2 ->
  same_block (foldl serial_step s1 es) (foldl serial_step s2 es) /\
  tree_ok (bs_tree (foldl serial_step s1 es)).
Proof.
  revert s1 s2. induction es as [|e es IH]; intros s1 s2 Hn Hok Hs; [done|]. cbn [foldl].
  apply IH; [intros f Hf; apply Hn; by right| |].
  - apply serial_step_ok; [apply Hn; by left|done].
  - apply serial_step_content; [apply Hn; by left|apply Hok|done].
Qed.

(** The transactions of a batch, and of all batches in order. *)
Definition batch_entries (txs : list Transaction) (idx : list nat) : list (nat * Transaction) :=
  omap (fun i => (fun tx => (i, tx)) <$> txs !! i) idx.

Lemma elem_of_batch_entries txs idx i tx :
  (i, tx) ∈ batch_entries txs idx <-> i ∈ idx /\ txs !! i = Some tx.
Proof.
  unfold batch_entries. rewrite list_elem_of_omap. split.
  - intros (j & Hj & H). destruct (txs !! j) eqn:E; [|done]. by simplify_option_eq.
  - intros [Hi Ht]. exists i. by rewrite Ht.
Qed.

Lemma run_batch_serial txs s b :
  all_native (batch_entries txs (tx_indices b)) -> apart (batch_entries txs (tx_indices b)) ->
  tree_ok (bs_tree s) ->
  same_block (run_batch env slot t0 txs s b)
    (foldl serial_step s (batch_entries txs (tx_indices b))).
Proof.
  intros Hn Hap Hok. unfold run_batch. fold (batch_entries txs (tx_indices b)).
  destruct (length (tx_indices b) <=? 1)%nat.
  - assert (forall es s', foldl (fun s '(i, tx) => run_single env slot s i tx
      (verify_result env t0 slot tx)) s' es = foldl serial_step s' es) as ->; [|done].
    induction es as [|[i tx] es IH]; intros s'; [done|apply IH].
  - etrans; [|apply (batch_is_serial (bs_tree s)); try done; by intros].
    replace ((fun '(i, tx) => (i, tx, run_local env slot (bs_tree s) tx
      (verify_result env t0 slot tx))) <$> batch_entries txs (tx_indices b))
      with (local_result (bs_tree s) <$> batch_entries txs (tx_indices b)); [done|].
    apply list_fmap_ext. by intros ? [i tx].
Qed.

Lemma batch_entries_app txs l1 l2 :
  batch_entries txs (l1 ++ l2) = batch_entries txs l1 ++ batch_entries txs l2.
Proof. apply omap_app. Qed.

Lemma apart_entries txs idx :
  NoDup idx ->
  (forall i j x y, i ∈ idx -> j ∈ idx -> i <> j -> txs !! i = Some x -> txs !! j = Some y ->
     set_of x ## set_of y) ->
  apart (batch_entries txs idx).
Proof.
  intros Hnd. induction Hnd as [|i idx Hi Hnd IH]; intros Hd; [done|].
  unfold batch_entries. cbn [omap list_omap]. fold (batch_entries txs idx).
  assert (apart (batch_entries txs idx)) as Hap
    by (apply IH; intros j k x y Hj Hk; apply (Hd j k); by right).
  destruct (txs !! i) as [x|] eqn:Ex; cbn; [|done]. split; [|done].
  intros [j y] [Hj Hy]%elem_of_batch_entries. cbn.
  apply (Hd i j); [by left|by right|by intros ->|done|done].
Qed.

Lemma batches_serial txs bs s1 s2 :
  (forall b, b ∈ bs -> all_native (batch_entries txs (tx_indices b)) /\
     apart (batch_entries txs (tx_indices b))) ->
  tree_ok (bs_tree s2) -> same_block s1 s2 ->
  same_block (foldl (run_batch env slot t0 txs) s1 bs)
    (foldl serial_step s2 (batch_entries txs (all_indices bs))).
Proof.
  revert s1 s2. induction bs as [|b bs IH]; intros s1 s2 Hb Hok Hs; [done|].
  destruct (Hb b (list_elem_of_here _ _)) as [Hn Hap].
  unfold all_indices. cbn [fmap list_fmap concat foldl]. fold (all_indices bs).
  rewrite batch_entries_app, foldl_app.
  assert (tree_ok (bs_tree s1)) as Hok1.
  { destruct Hok as [Hi Ha]. destruct (sb_tree _ _ Hs) as [E1 E2 _ _ _ _ _].
    split; [intros id a; rewrite E1; apply Hi|intros id; rewrite E1, E2; apply Ha]. }
  destruct (serial_all_content (batch_entries txs (tx_indices b)) s2 s1 Hn Hok (symmetry Hs))
    as [Hc Hok2].
  apply IH; [intros c Hc'; apply Hb; by right|done|].
  etrans; [by apply run_batch_serial|by symmetry].
Qed.

Lemma serial_step_receipts s e i :
  native_tx (snd e) -> i = fst e \/ is_Some (bs_receipts s !! i) ->
  is_Some (bs_receipts (serial_step s e) !! i).
Proof.
  destruct e as [j tx]. intros Hn Hi. cbn [fst snd] in *. rewrite serial_step_native by done.
  assert (forall t g r c, is_Some (bs_receipts (settle s j t g r c) !! i)) as H.
  { intros t g r c. cbn. destruct Hi as [->|Hi]; [by rewrite lookup_insert_eq|].
    destruct (decide (i = j)) as [->|]; [by rewrite lookup_insert_eq|by rewrite lookup_insert_ne]. }
  by destruct (verify_result env t0 slot tx) as [[[]|e]|];
    [destruct (charged_local _ _ _ _ _) as [? []]| |destruct (charged_local _ _ _ _ _) as [? []]].
Qed.

Lemma serial_receipts es s i :
  all_native es -> (exists tx, (i, tx) ∈ es) \/ is_Some (bs_receipts s !! i) ->
  is_Some (bs_receipts (foldl serial_step s es) !! i).
Proof.
  revert s. induction es as [|e es IH]; intros s Hn Hi; cbn [foldl].
  { destruct Hi as [[tx Hi]|Hi]; [by apply elem_of_nil in Hi|done]. }
  assert (native_tx (snd e)) by (apply Hn; by left).
  apply IH; [intros f Hf; apply Hn; by right|].
  destruct Hi as [[tx [<-|Hi]%elem_of_cons]|Hi]; [right|left; by exists tx|right];
    apply serial_step_receipts; auto.
Qed.
End blocks.

Lemma no_conflict_disjoint {CE : CryptoEnv} x y :
  native_tx x -> native_tx y ->
  conflicts_with (extract_write_set env_sha256 x) (extract_write_set env_sha256 y) = false ->
  set_of x ## set_of y.
Proof.
  intros Hx Hy. destruct (write_set_works env_sha256 x Hx) as (S & HS & _).
  destruct (write_set_works env_sha256 y Hy) as (S' & HS' & _). unfold set_of. rewrite HS, HS'. cbn.
  intros H%bool_decide_eq_false. set_solver.
Qed.

Instance batch_entries_perm txs : Proper ((≡ₚ) ==> (≡ₚ)) (batch_entries txs).
Proof. intros l1 l2 H. unfold batch_entries. by rewrite H. Qed.

Lemma entries_from pre txs :
  batch_entries (pre ++ txs) (seq (length pre) (length txs)) =
  imap (fun i tx => (length pre + i, tx)%nat) txs.
Proof.
  revert pre. induction txs as [|x txs IH]; intros pre; [done|].
  cbn [length seq]. unfold batch_entries. cbn [omap list_omap].
  rewrite lookup_app_r, Nat.sub_diag by done. cbn [lookup list_lookup fmap option_fmap option_map imap].
  rewrite Nat.add_0_r. f_equal. specialize (IH (pre ++ [x])).
  rewrite <-app_assoc, length_app, Nat.add_1_r in IH. cbn in IH.
  etrans; [exact IH|]. apply imap_ext. intros i y _. cbn. f_equal. lia.
Qed.

Lemma entries_seq txs : batch_entries txs (seq 0 (length txs)) = imap pair txs.
Proof. exact (entries_from [] txs). Qed.

(** The order in which the batches run the transactions of a block. *)
Definition execution_order {CE : CryptoEnv} (txs : list Transaction) : list (nat * Transaction) :=
  batch_entries txs (all_indices (build_batches env_sha256 txs)).

(** C4. Parallel execution of a block is serial execution, for a block in which
    every transaction is authorised by its credential (none carries a zero-knowledge
    authorisation, none is a raw transaction of another chain) and is a transfer, a
    creation, a key change or an approval of a validator ([native_tx]).  Checking,
    charging and running the transactions of each batch on copies of the state and
    merging the copies gives the same accounts, stubs, storage and registries, hence
    the same state root, for each transaction the receipt, and the number of charged
    transactions of running them one by one on one state in the order of the
    batches.  That order is a permutation of the block, so no transaction is left
    without a receipt.  For transfers with a zero-knowledge authorisation it does
    not hold, since the merge drops their replay marks ([replay_marks_lost]). *)
Theorem parallel_is_serial {CE : CryptoEnv} {K : K256} {RV : RawVerifiers} {G}
    (env : NodeEnv G) policy slot t g txs :
  engines (node_vm env) AceNative = Some (native_engine policy) ->
  (forall tx, tx ∈ txs -> native_tx tx) -> tree_ok t ->
  let '(s, receipts) := execute_transactions_with_fees env t g txs slot in
  let ref := foldl (serial_step env slot t)
    {| bs_tree := t; bs_gov := g; bs_receipts := ∅; bs_charged := 0 |} (execution_order txs) in
  same_content (bs_tree s) (bs_tree ref) /\
  compute_root env_sha256 (bs_tree s) = compute_root env_sha256 (bs_tree ref) /\
  Some <$> receipts = imap (fun i _ => bs_receipts ref !! i) txs /\
  bs_charged s = bs_charged ref /\
  execution_order txs ≡ₚ imap pair txs.
Proof.
  intros Hnat Htx Hok. unfold execute_transactions_with_fees, execution_order.
  pose proof (build_batches_all env_sha256 txs) as Hall.
  pose proof (build_batches_apart env_sha256 txs) as Hapart.
  set (bs := build_batches env_sha256 txs) in *.
  set (s0 := {| bs_tree := t; bs_gov := g; bs_receipts := ∅; bs_charged := 0 |}).
  assert (same_block (foldl (run_batch env slot t txs) s0 bs)
    (foldl (serial_step env slot t) s0 (batch_entries txs (all_indices bs)))) as [Hc _ Hr Hch].
  { apply (batches_serial env policy Hnat); [|done|by split].
    intros b Hb. split.
    - intros [i tx] [_ Ht]%elem_of_batch_entries. apply Htx. by eapply list_elem_of_lookup_2.
    - apply apart_entries; [by eapply build_batches_NoDup|]. intros i j x y Hi Hj Hne Hx Hy.
      apply no_conflict_disjoint, (Hapart b i j); auto; apply Htx; by eapply list_elem_of_lookup_2. }
  assert (batch_entries txs (all_indices bs) ≡ₚ imap pair txs) as Hperm
    by by rewrite Hall, entries_seq.
  split_and!; [done|by apply same_content_root| |done|done].
  rewrite Hr, fmap_imap. apply imap_ext. intros i tx Hi. cbn.
  assert ((i, tx) ∈ batch_entries txs (all_indices bs)) as Hin
    by (rewrite Hperm; apply elem_of_lookup_imap; by exists i, tx).
  destruct (serial_receipts env slot t (batch_entries txs (all_indices bs)) s0 i)
    as [r ->]; [|left; by exists tx|done].
  intros [j x] [_ Hx]%elem_of_batch_entries. apply Htx. by eapply list_elem_of_lookup_2.
Qed.

(* ------------------------------------------------------------------ *)
(** * A block of three transfers in two batches *)

Module SampleParallel.
Import SampleEnv SampleK256 SampleTron SampleNode.
Definition block : list Transaction :=
  [sent 7 8 0 3 None; sent 9 10 0 4 None; sent 7 9 1 2 None].
Definition result : BlockState (G := unit) * list VmReceipt := run tree 9 block.
Definition reference : BlockState (G := unit) :=
  foldl (serial_step env 9 tree) start (execution_order block).
Definition root (s : BlockState (G := unit)) : option Hash := compute_root env_sha256 (bs_tree s).
Definition batches : list (list nat) := tx_indices <$> build_batches env_sha256 block.
Lemma ok : tree_ok tree.
Proof.
  split; [|by intros id _]. apply map_Forall_lookup. apply (bool_decide_unpack _).
  by vm_compute.
Qed.

Lemma native tx : tx ∈ block -> native_tx tx.
Proof.
  unfold block. rewrite !elem_of_cons, elem_of_nil.
  intros [->|[->|[->|[]]]]; (split_and!; [done|done|do 2 eexists; split; [done|by left]]).
Qed.
End SampleParallel.

Lemma parallel_is_serial_witness :
  let '(s, receipts) := SampleParallel.result in
  SampleParallel.batches = [[0; 1]; [2]]%nat /\ vm_success <$> receipts = [true; true; true] /\
  SampleParallel.root s = SampleParallel.root SampleParallel.reference /\
  acc_balance <$> accounts (bs_tree s) !! 7 = Some (8 * TX_FEE - 5) /\ bs_charged s = 3.
Proof.
  pose proof (@parallel_is_serial SampleEnv.sample_env SampleK256.sample_k256
    SampleTron.no_verifiers unit SampleNode.env SampleNative.policy 9 SampleNode.tree ()
    SampleParallel.block eq_refl SampleParallel.native SampleParallel.ok) as H.
  unfold SampleParallel.result, SampleNode.run.
  destruct (execute_transactions_with_fees _ _ _ _ _) as [s rs] eqn:E.
  destruct H as (_ & Hroot & _). split_and!; [vm_compute; reflexivity| |exact Hroot| |].
  - by vm_compute in E; injection E as <- <-.
  - by vm_compute in E; injection E as <- <-.
  - by vm_compute in E; injection E as <- <-.
Defined.
