(* ===== verification/Mempool.v ===== *)
(** The transaction pool (ace-mempool/src/pool.rs, validator.rs,
    zk_authorization.rs, error.rs).

    A transaction that passes the checks is kept under its hash, in the lane of
    its sender: ready when the nonces before it are there, in the future
    otherwise, or unordered when it has no nonce.  A copy whose credential was
    stripped for gossip is parked until the full one arrives.  The ready queue is
    lazy: it may hold hashes that are no longer ready members.

    The pool is behind a lock.  [insert_inner] reads it twice before it takes the
    write lock, to look for a pending replay commitment and for a stripped copy;
    [insert_locked] is what happens under the write lock, with the second answer
    and the chain nonce as arguments.  A hash map is walked in an order the source
    does not fix, which is an argument ([order]) of the operations that do so.
    Metrics are left out.  [MempoolEnv] abstracts code of the repository that is
    not translated: the nonce of a raw EVM transaction and the checks of the three
    kinds of system transaction.  The build without the feature [test-utils] is
    modelled. *)

From S2P Require Import Prelude SigAlgo Account StateTree StateRoot Sharded.
From S2P Require Import StateM Wire Payload Transaction Engine Vm Token RawSolana RawTron Dispatch.
Local Open Scope Z_scope.
Local Open Scope ace_scope.

(* ------------------------------------------------------------------ *)
(** * Data *)

Record MempoolConfig := {
  max_size : Z;
  cfg_high_watermark : Z;
  cfg_low_watermark : Z;
  cfg_chain_id : Z;
  max_tx_bytes : Z;
  max_future_nonce_gap : Z;
  max_future_txs_per_sender : Z;
  cfg_founder_id_com : option AccountId;
}.

Definition default_config : MempoolConfig :=
  {| max_size := 10000; cfg_high_watermark := 8000; cfg_low_watermark := 6000;
     cfg_chain_id := 122766; max_tx_bytes := 65536; max_future_nonce_gap := 512;
     max_future_txs_per_sender := 512; cfg_founder_id_com := None |}.

Definition MAX_TXS_PER_SENDER : Z := 10000.

Record SenderLane := {
  onchain_nonce : Z;
  ready : gmap Z Hash;
  future : gmap Z Hash;
  unordered : gset Hash;
  future_only_since_slot : option Z;
}.

Inductive TxMempoolState : Type :=
| ReadyExecutable
| FutureNonce
| ParkedStrippedCredential
| ParkedMissingWitness
| ParkedMissingCommitteeCertificate
| UnorderedExecutable.

#[global] Instance TxMempoolState_eq_dec : EqDecision TxMempoolState.
Proof. solve_decision. Defined.

Inductive ParkedTxReason : Type :=
| MissingWitness
| MissingCommitteeCertificate.

Definition reason_state (r : ParkedTxReason) : TxMempoolState :=
  match r with
  | MissingWitness => ParkedMissingWitness
  | MissingCommitteeCertificate => ParkedMissingCommitteeCertificate
  end.

Record PoolState := {
  pending : gmap Hash Transaction;
  tx_states : gmap Hash TxMempoolState;
  ready_queue : list Hash;
  ready_members : gset Hash;
  senders : gmap AccountId SenderLane;
  last_chain_sync_slot : option Z;
}.

Definition pool_new : PoolState :=
  {| pending := ∅; tx_states := ∅; ready_queue := []; ready_members := ∅; senders := ∅;
     last_chain_sync_slot := None |}.

Record MempoolStateCounts := {
  pending_total : nat;
  count_ready_executable : nat;
  count_future_nonce : nat;
  count_parked_stripped_credential : nat;
  count_parked_missing_witness : nat;
  count_parked_missing_committee_certificate : nat;
  count_unordered_executable : nat;
}.

Record InsertOutcome := {
  outcome_hash : Hash;
  became_ready : bool;
}.

(** [MempoolPanic] stands for a Rust panic. *)
Inductive MempoolError : Type :=
| Overloaded (queued high_watermark low_watermark : Z)
| PoolFull (max : Z)
| DuplicateTransaction (h : Hash)
| SenderNonceConflict (sender : AccountId) (nonce : Z)
| StaleNonce (sender : AccountId) (expected got : Z)
| FutureNonceGap (sender : AccountId) (expected got max_gap : Z)
| FutureQueueFull (sender : AccountId) (max_pending_future : Z)
| PayloadBindingMismatch
| UnknownSender (sender : AccountId)
| MpInvalidCredential (sender : AccountId)
| MpEmptyPayload
| InvalidFormat (msg : string)
| InvalidChainId (expected got : Z)
| PayloadTooLarge (size max : Z)
| SlotOutOfRange (tx_slot current tolerance : Z)
| ValidationError (msg : string)
| MempoolPanic.

Definition short_reason (e : MempoolError) : string :=
  match e with
  | Overloaded _ _ _ => "overloaded"
  | PoolFull _ => "pool_full"
  | DuplicateTransaction _ => "duplicate"
  | SenderNonceConflict _ _ => "nonce_conflict"
  | StaleNonce _ _ _ => "stale_nonce"
  | FutureNonceGap _ _ _ _ => "future_nonce_gap"
  | FutureQueueFull _ _ => "future_queue_full"
  | PayloadBindingMismatch => "payload_mismatch"
  | UnknownSender _ => "unknown_sender"
  | MpInvalidCredential _ => "invalid_credential"
  | MpEmptyPayload => "empty_payload"
  | InvalidFormat _ => "invalid_format"
  | InvalidChainId _ _ => "invalid_chain_id"
  | PayloadTooLarge _ _ => "payload_too_large"
  | SlotOutOfRange _ _ _ => "slot_out_of_range"
  | ValidationError _ => "validation_error"
  | MempoolPanic => "panic"
  end.

Record Mempool := {
  config : MempoolConfig;
  pool : PoolState;
  current_slot : Z;
  state_view : option ShardedState;
  avg_block_txs : Z;
  committed_block_count : Z;
  admission_counter : Z;
}.

Definition with_slot_and_state (c : MempoolConfig) (slot : Z) (s : option ShardedState) : Mempool :=
  {| config := c; pool := pool_new; current_slot := slot; state_view := s;
     avg_block_txs := 0; committed_block_count := 0; admission_counter := 0 |}.

Definition mempool_new (c : MempoolConfig) : Mempool := with_slot_and_state c 0 None.

Definition FUTURE_ONLY_EVICT_AFTER_SLOTS : Z := 10.
Definition FUTURE_ONLY_EVICT_PER_RUN : nat := 256.
Definition DOMAIN_SLOT_TOLERANCE : Z := 100.
Definition SLOT_FRESHNESS_GUARD : Z := 20.
Definition READY_STARVATION_BYPASS_BELOW : Z := 64.
Definition MIN_DYNAMIC_HIGH : Z := 2000.
Definition MIN_BLOCKS_FOR_DYNAMIC : Z := 30.

Definition zsize {A} `{Size A} (x : A) : Z := Z.of_nat (size x).

(** ** Field updates *)

Definition set_pool (mp : Mempool) (p : PoolState) : Mempool :=
  {| config := config mp; pool := p; current_slot := current_slot mp; state_view := state_view mp;
     avg_block_txs := avg_block_txs mp; committed_block_count := committed_block_count mp;
     admission_counter := admission_counter mp |}.

Definition set_counter (mp : Mempool) (n : Z) : Mempool :=
  {| config := config mp; pool := pool mp; current_slot := current_slot mp; state_view := state_view mp;
     avg_block_txs := avg_block_txs mp; committed_block_count := committed_block_count mp;
     admission_counter := n |}.

Definition set_pending (p : PoolState) (x : gmap Hash Transaction) : PoolState :=
  {| pending := x; tx_states := tx_states p; ready_queue := ready_queue p;
     ready_members := ready_members p; senders := senders p;
     last_chain_sync_slot := last_chain_sync_slot p |}.

Definition set_tx_states (p : PoolState) (x : gmap Hash TxMempoolState) : PoolState :=
  {| pending := pending p; tx_states := x; ready_queue := ready_queue p;
     ready_members := ready_members p; senders := senders p;
     last_chain_sync_slot := last_chain_sync_slot p |}.

Definition set_ready (p : PoolState) (q : list Hash) (m : gset Hash) : PoolState :=
  {| pending := pending p; tx_states := tx_states p; ready_queue := q; ready_members := m;
     senders := senders p; last_chain_sync_slot := last_chain_sync_slot p |}.

Definition set_senders (p : PoolState) (x : gmap AccountId SenderLane) : PoolState :=
  {| pending := pending p; tx_states := tx_states p; ready_queue := ready_queue p;
     ready_members := ready_members p; senders := x; last_chain_sync_slot := last_chain_sync_slot p |}.

Definition set_sync_slot (p : PoolState) (x : option Z) : PoolState :=
  {| pending := pending p; tx_states := tx_states p; ready_queue := ready_queue p;
     ready_members := ready_members p; senders := senders p; last_chain_sync_slot := x |}.

Definition insert_state (p : PoolState) (h : Hash) (s : TxMempoolState) : PoolState :=
  set_tx_states p (<[h := s]> (tx_states p)).

Definition put_lane (p : PoolState) (sender : AccountId) (lane : SenderLane) : PoolState :=
  set_senders p (<[sender := lane]> (senders p)).

(** The entry of a transaction that leaves the pool. *)
Definition drop_entry (p : PoolState) (h : Hash) : PoolState :=
  set_tx_states (set_pending p (delete h (pending p))) (delete h (tx_states p)).

(* ------------------------------------------------------------------ *)
(** * Sender lanes *)

Definition lane_new (chain_nonce : Z) : SenderLane :=
  {| onchain_nonce := chain_nonce; ready := ∅; future := ∅; unordered := ∅;
     future_only_since_slot := None |}.

Definition total_count (l : SenderLane) : Z := zsize (ready l) + zsize (future l) + zsize (unordered l).

(** The loop stops at the first nonce that is not ready.  It has a turn for each
    ready nonce and one more; in the source it does not end when the nonces up to
    [u64::MAX] are all ready. *)
Fixpoint next_nonce_loop (fuel : nat) (r : gmap Z Hash) (expected : Z) : Z :=
  match fuel with
  | O => expected
  | S fuel =>
      if bool_decide (is_Some (r !! expected)) then next_nonce_loop fuel r (u64_saturating_add expected 1)
      else expected
  end.

Definition next_expected_nonce (l : SenderLane) : Z :=
  next_nonce_loop (S (size (ready l))) (ready l) (onchain_nonce l).

Definition lane_is_empty (l : SenderLane) : bool :=
  bool_decide (ready l = ∅) && bool_decide (future l = ∅) && bool_decide (unordered l = ∅).

(** [if pool.senders.get(&sender).is_some_and(SenderLane::is_empty)] *)
Definition drop_empty_lane (p : PoolState) (sender : AccountId) : PoolState :=
  match senders p !! sender with
  | Some l => if lane_is_empty l then set_senders p (delete sender (senders p)) else p
  | None => p
  end.

(** [get_or_insert] *)
Definition or_insert (o : option Z) (x : Z) : option Z :=
  match o with Some y => Some y | None => Some x end.

(** When a lane has only future transactions, since when. *)
Definition future_only_mark (r f : gmap Z Hash) (since : option Z) (slot : Z) : option Z :=
  if bool_decide (r = ∅) && negb (bool_decide (f = ∅)) then or_insert since slot else None.

(* ------------------------------------------------------------------ *)
(** * The ready queue *)

Definition is_stripped_entry (p : PoolState) (h : Hash) : bool :=
  match pending p !! h with Some tx => is_credential_stripped tx | None => false end.

Definition enqueue_ready_hash_locked (p : PoolState) (h : Hash) : PoolState :=
  if is_stripped_entry p h then insert_state p h ParkedStrippedCredential
  else if bool_decide (h ∈ ready_members p) then p
  else set_ready p (ready_queue p ++ [h]) ({[h]} ∪ ready_members p).

Definition remove_hash_from_ready_queue (p : PoolState) (h : Hash) : PoolState :=
  let m := ready_members p ∖ {[h]} in
  if bool_decide (h ∈ ready_members p) && bool_decide (m = ∅) && (64 <? length (ready_queue p))%nat
  then set_ready p [] m
  else set_ready p (ready_queue p) m.

Definition compact_ready_queue_locked (p : PoolState) : PoolState :=
  let max_queue_len := u64_saturating_add (u64_saturating_mul (zsize (ready_members p)) 2) 64 in
  if Z.of_nat (length (ready_queue p)) <=? max_queue_len then p
  else set_ready p (filter (fun h => h ∈ ready_members p) (ready_queue p)) (ready_members p).

(** Entries that leave the pool and the ready set, one after the other. *)
Definition drop_hashes (p : PoolState) (l : list Hash) : PoolState :=
  foldl (fun p h => remove_hash_from_ready_queue (drop_entry p h) h) p l.

(* ------------------------------------------------------------------ *)
(** * Lanes and the chain *)

(** A stripped transaction among the ready ones before [e] holds the lane up. *)
Definition lane_blocked (p : PoolState) (lane : SenderLane) (e : Z) : bool :=
  existsb (fun x => (onchain_nonce lane <=? x.1) && (x.1 <? e) && is_stripped_entry p x.2)
    (entries (ready lane)).

(** One turn of the loop: the next expected transaction of the lane moves from
    the future to the ready ones. *)
Definition promote_next (p : PoolState) (sender : AccountId) : option (PoolState * Hash) :=
  lane ← senders p !! sender;
  let e := next_expected_nonce lane in
  if lane_blocked p lane e then None
  else
    h ← future lane !! e;
    let lane' := {| onchain_nonce := onchain_nonce lane; ready := <[e := h]> (ready lane);
                    future := delete e (future lane); unordered := unordered lane;
                    future_only_since_slot := None |} in
    Some (insert_state (put_lane p sender lane') h
            (if is_stripped_entry p h then ParkedStrippedCredential else ReadyExecutable), h).

Fixpoint promote_loop (fuel : nat) (p : PoolState) (sender : AccountId) (promoted : list Hash)
    : PoolState * list Hash :=
  match fuel with
  | O => (p, promoted)
  | S fuel =>
      match promote_next p sender with
      | Some (p', h) => promote_loop fuel p' sender (promoted ++ [h])
      | None => (p, promoted)
      end
  end.

(** Each turn takes a transaction out of the future ones. *)
Definition promote_future_ready_locked (p : PoolState) (sender : AccountId) : PoolState :=
  let fuel := S (size (default ∅ (future <$> senders p !! sender))) in
  let '(p, promoted) := promote_loop fuel p sender [] in
  foldl enqueue_ready_hash_locked p promoted.

Definition stale_hashes (m : gmap Z Hash) (chain_nonce : Z) : list Hash :=
  map snd (List.filter (fun x => x.1 <? chain_nonce) (entries m)).

Definition keep_fresh (m : gmap Z Hash) (chain_nonce : Z) : gmap Z Hash :=
  filter (fun x => chain_nonce <= x.1) m.

Definition sync_sender_lane_to_chain_locked (slot : Z) (p : PoolState) (sender : AccountId)
    (chain_nonce : Z) : PoolState :=
  match senders p !! sender with
  | None => p
  | Some lane =>
      if chain_nonce <=? onchain_nonce lane then p
      else
        let stale := stale_hashes (ready lane) chain_nonce ++ stale_hashes (future lane) chain_nonce in
        let r := keep_fresh (ready lane) chain_nonce in
        let f := keep_fresh (future lane) chain_nonce in
        let lane' := {| onchain_nonce := chain_nonce; ready := r; future := f;
                        unordered := unordered lane;
                        future_only_since_slot :=
                          future_only_mark r f (future_only_since_slot lane) slot |} in
        let p := drop_hashes (put_lane p sender lane') stale in
        drop_empty_lane (promote_future_ready_locked p sender) sender
  end.

(** A native transaction whose slot is about to leave the tolerance. *)
Definition slot_stale (p : PoolState) (cutoff : Z) (h : Hash) : bool :=
  match pending p !! h with
  | Some tx => negb (is_raw_chain tx) && (domain_slot (att_domain (attestation tx)) <? cutoff)
  | None => false
  end.

Definition evict_stale_slot_txs_locked (p : PoolState) (sender : AccountId) (slot : Z) : PoolState :=
  let cutoff := u64_saturating_sub slot (u64_saturating_sub DOMAIN_SLOT_TOLERANCE SLOT_FRESHNESS_GUARD) in
  match senders p !! sender with
  | None => p
  | Some lane =>
      let stale :=
        List.filter (slot_stale p cutoff) (map snd (entries (ready lane)) ++ map snd (entries (future lane))) in
      if bool_decide (stale = []) then p
      else
        let keep (m : gmap Z Hash) := filter (fun x => x.2 ∉ stale) m in
        let lane' := {| onchain_nonce := onchain_nonce lane; ready := keep (ready lane);
                        future := keep (future lane); unordered := unordered lane;
                        future_only_since_slot := future_only_since_slot lane |} in
        let p := drop_hashes (put_lane p sender lane') stale in
        drop_empty_lane (promote_future_ready_locked p sender) sender
  end.

Definition account_nonce (s : ShardedState) (sender : AccountId) : Z :=
  match sharded_get s sender with Some a => acc_nonce a | None => 0 end.

Definition sender_onchain_nonce (mp : Mempool) (sender : AccountId) : Z :=
  match state_view mp with None => 0 | Some s => account_nonce s sender end.

(** What [sync_all_sender_lanes_to_chain_locked] does for one sender. *)
Definition sync_one (slot : Z) (s : ShardedState) (p : PoolState) (sender : AccountId) : PoolState :=
  let p := sync_sender_lane_to_chain_locked slot p sender (account_nonce s sender) in
  if 100 <? slot then evict_stale_slot_txs_locked p sender slot else p.

Definition sync_all_sender_lanes_to_chain_locked (order : list AccountId) (slot : Z)
    (view : option ShardedState) (p : PoolState) : PoolState :=
  match view with
  | None => p
  | Some s =>
      if bool_decide (last_chain_sync_slot p = Some slot) then compact_ready_queue_locked p
      else
        let p := foldl (sync_one slot s) p order in
        compact_ready_queue_locked (set_sync_slot p (Some slot))
  end.

(* ------------------------------------------------------------------ *)
(** * Admission control *)

Definition admission_high_watermark (c : MempoolConfig) : Z := Z.min (cfg_high_watermark c) (max_size c).

Definition admission_low_watermark (c : MempoolConfig) : Z :=
  Z.min (cfg_low_watermark c) (u64_saturating_sub (admission_high_watermark c) 1).

Definition record_committed_block (mp : Mempool) (tx_ok tx_total : Z) : Mempool :=
  if tx_total =? 0 then mp
  else
    let old := avg_block_txs mp in
    {| config := config mp; pool := pool mp; current_slot := current_slot mp;
       state_view := state_view mp;
       avg_block_txs := if old =? 0 then tx_ok else u64_add (u64_mul old 4) tx_ok / 5;
       committed_block_count := u64_add (committed_block_count mp) 1;
       admission_counter := admission_counter mp |}.

Definition dynamic_watermarks (mp : Mempool) : option (Z * Z) :=
  if committed_block_count mp <? MIN_BLOCKS_FOR_DYNAMIC then None
  else
    let avg := avg_block_txs mp in
    let high := Z.min (Z.max (u64_mul avg 5) MIN_DYNAMIC_HIGH) (max_size (config mp)) in
    let low := Z.min (Z.max (u64_mul avg 3) (MIN_DYNAMIC_HIGH / 2)) (u64_saturating_sub high 1) in
    Some (high, low).

(** The finaliser of splitmix64. *)
Definition splitmix (seq : Z) : Z :=
  let h := Z.lxor seq (Z.shiftr seq 30) in
  let h := u64_mul h 0xbf58476d1ce4e5b9 in
  let h := Z.lxor h (Z.shiftr h 27) in
  let h := u64_mul h 0x94d049bb133111eb in
  Z.lxor h (Z.shiftr h 31).

Definition admission_overload_error (mp : Mempool) (pending_len : Z) : Mempool * option MempoolError :=
  let '(high, low) :=
    default (admission_high_watermark (config mp), admission_low_watermark (config mp))
      (dynamic_watermarks mp) in
  if high <=? pending_len then (mp, Some (Overloaded pending_len high low))
  else if low <? pending_len then
    let range := Z.max (u64_saturating_sub high low) 1 in
    let excess := pending_len - low in
    let reject_pct := u64_mul excess 100 / range in
    let seq := admission_counter mp in
    let mp := set_counter mp (u64_add seq 1) in
    if splitmix seq mod 100 <? reject_pct then (mp, Some (Overloaded pending_len high low))
    else (mp, None)
  else (mp, None).

(* ------------------------------------------------------------------ *)
(** * Validation *)

(** Code of the repository that is not translated.  The functions of a system
    transaction give the sender its payload names and check it against the
    state. *)
Class MempoolEnv := {
  evm_nonce : list Z -> result NVmError Z;
  deposit_sender : list Z -> result string AccountId;
  deposit_check : StateTree -> list Z -> result string unit;
  completion_sender : list Z -> result string AccountId;
  completion_check : StateTree -> list Z -> result string unit;
  evidence_sender : list Z -> result string AccountId;
}.

Definition first_byte_is (tx : Transaction) (op : Z) : bool := bool_decide (head (payload tx) = Some op).

Definition is_mev_ace_omission_evidence (tx : Transaction) : bool := first_byte_is tx 20.
Definition is_bridge_deposit (tx : Transaction) : bool := first_byte_is tx 13.
Definition is_withdrawal_completion (tx : Transaction) : bool := first_byte_is tx 14.

(** The opcodes whose payload has a nonce after the first byte. *)
Definition nonce_prefixed (op : Z) : bool :=
  (op =? 33) || (op =? 48) || (op =? 49) || ((80 <=? op) && (op <=? 95)).

(** [.map_err(|e| MempoolError::InvalidFormat(e.to_string()))] *)
Definition invalid_format (e : NVmError) : MempoolError :=
  match e with NVmPanic => MempoolPanic | _ => InvalidFormat (nvm_error_text e) end.

Section validation.
Context {CE : CryptoEnv} {K : K256} {RV : RawVerifiers} {ME : MempoolEnv}.

Definition sender_sequence_nonce (tx : Transaction) : result MempoolError (option Z) :=
  if is_zk_auth tx then Ok None
  else
    match raw_chain tx with
    | Some r =>
        match raw_kind r with
        | RawEvm => match evm_nonce (raw_bytes r) with Ok n => Ok (Some n) | Err e => Err (invalid_format e) end
        | RawSolana | RawBtc | RawTron => Ok None
        end
    | None =>
        if (9 <=? length (payload tx))%nat && nonce_prefixed (default 0 (head (payload tx))) then
          Ok (Some (le_num (take 8 (drop 1 (payload tx)))))
        else
          match decode (payload tx) with
          | Ok (Transfer nonce _ _) | Ok (SetAuthPubkey nonce _) | Ok (AddAuthKey nonce _) => Ok (Some nonce)
          | Ok _ | Err _ => Ok None
          end
    end.

Definition SLOT_TOLERANCE : Z := 100.
Definition DEFAULT_MAX_TX_BYTES : Z := 65536.

Definition attestation_wire_size (a : Attestation) : Z := 88 + 3 + Z.of_nat (length (sig_bytes (credential a))).

Definition approval_wire_size (a : CommitteeApproval) : Z :=
  (3 + Z.of_nat (length (pk_bytes (approval_signer a)))) +
  (3 + Z.of_nat (length (sig_bytes (approval_signature a)))).

Definition certificate_wire_size (c : CommitteeCertificate) : Z :=
  1 + 1 + 32 + foldr Z.add 0 (map approval_wire_size (approvals c)).

Definition wire_size (tx : Transaction) : Z :=
  let base := Z.of_nat (length (payload tx)) + attestation_wire_size (attestation tx) in
  match raw_chain tx with
  | Some r =>
      let cert_size :=
        match committee_certificate r with Some c => 4 + certificate_wire_size c | None => 0 end in
      base + 1 + 4 + Z.of_nat (length (raw_bytes r)) + 1 + cert_size
  | None =>
      match zk_auth tx with
      | Some zk => base + 1 + 4 + Z.of_nat (length (zk_proof zk)) + 32 + 32 + 8
      | None => base
      end
  end.

Definition validate (tx : Transaction) (expected_chain_id max_bytes : Z) : result MempoolError unit :=
  let effective_max := if max_bytes =? 0 then DEFAULT_MAX_TX_BYTES else max_bytes in
  let chain := chain_id (att_domain (attestation tx)) in
  if bool_decide (payload tx = []) then Err MpEmptyPayload
  else if effective_max <? wire_size tx then Err (PayloadTooLarge (wire_size tx) effective_max)
  else if negb (verify_payload_binding env_sha256 (attestation tx) (payload tx)) then Err PayloadBindingMismatch
  else if negb (expected_chain_id =? 0) && negb (chain =? expected_chain_id) then
    Err (InvalidChainId expected_chain_id chain)
  else Ok tt.

Definition validate_approve_validator (tx : Transaction) (founder : option AccountId)
    : result MempoolError unit :=
  if negb (first_byte_is tx OP_APPROVE_VALIDATOR) then Ok tt
  else
    match founder with
    | None => Err (ValidationError "validator admission is disabled (no founder_id_com in genesis)")
    | Some f =>
        if negb (idcom (attestation tx) =? f) then
          Err (ValidationError "OP_APPROVE_VALIDATOR sender is not the founder")
        else
          match decode (payload tx) with
          | Ok (ApproveValidator _ _ _) => Ok tt
          | Ok _ => Err (ValidationError "unexpected opcode after OP_APPROVE_VALIDATOR prefix")
          | Err (Rejected m) => Err (ValidationError ("invalid transaction payload: " +:+ m))
          | Err Panicked => Err MempoolPanic
          end
    end.

Definition validate_slot (tx : Transaction) (slot : Z) : result MempoolError unit :=
  match raw_kind <$> raw_chain tx with
  | Some RawTron => Ok tt
  | _ =>
      let tx_slot := domain_slot (att_domain (attestation tx)) in
      let lo := u64_saturating_sub slot SLOT_TOLERANCE in
      let hi := u64_add slot SLOT_TOLERANCE in
      if (tx_slot <? lo) || (hi <? tx_slot) then Err (SlotOutOfRange tx_slot slot SLOT_TOLERANCE) else Ok tt
  end.

(** The key a credential is checked with. *)
Definition credential_key (account : option Account) (tx : Transaction) : result MempoolError TaggedPubkey :=
  let sender := idcom (attestation tx) in
  let alg := sig_algorithm (credential (attestation tx)) in
  match account, decode (payload tx) with
  | Some a, Ok (SetAuthPubkey _ new_key) | Some a, Ok (AddAuthKey _ new_key) =>
      let fallback :=
        if has_provisioned_auth_key a then
          if negb (pubkey_is_zero (acc_auth_pubkey a)) then acc_auth_pubkey a
          else default new_key (List.find (fun k => negb (pubkey_is_zero k)) (acc_auth_keys a))
        else new_key in
      match auth_key_for_algorithm a alg with
      | Some k => if negb (pubkey_is_zero k) then Ok k else Ok fallback
      | None => Ok fallback
      end
  | Some a, _ => Ok (default (acc_auth_pubkey a) (auth_key_for_algorithm a alg))
  | None, Ok (CreateAccount id_com new_key) =>
      if id_com =? sender then Ok new_key else Err (UnknownSender sender)
  | None, _ => Err (UnknownSender sender)
  end.

Definition mismatch {A} (ok : bool) (e : MempoolError) (k : result MempoolError A) : result MempoolError A :=
  if ok then k else Err e.

Definition validate_raw_chain (mp : Mempool) (t : StateTree) (r : RawChainPayload) (tx : Transaction)
    : result MempoolError unit :=
  let att := attestation tx in
  let sender := idcom att in
  let dom := att_domain att in
  match raw_kind r with
  | RawEvm =>
      match verify_raw_evm (raw_bytes r) with
      | Err e => Err (invalid_format e)
      | Ok (signer, chain) =>
          mismatch (chain =? chain_id dom)
            (InvalidChainId (chain_id dom) (if chain <=? u32_max then chain else u32_max)) (
          mismatch (sender =? legacy_idcom_evm env_sha256 signer) (MpInvalidCredential sender) (
          match canonical_evm_payload (raw_bytes r) with
          | Err e => Err (invalid_format e)
          | Ok expected =>
              mismatch (bool_decide (payload tx = expected))
                (InvalidFormat "evm raw payload does not match canonical reconstruction") (Ok tt)
          end))
      end
  | RawSolana =>
      match verify_raw_solana_transfer_against_state t (raw_bytes r) (cfg_chain_id (config mp)) (current_slot mp) with
      | Err e => Err (invalid_format e)
      | Ok v =>
          mismatch (sender =? sol_sender_idcom v) (MpInvalidCredential sender) (
          mismatch (bool_decide (payload tx = sol_canonical_payload v))
            (InvalidFormat "solana raw payload does not match canonical reconstruction") (
          mismatch (domain_slot dom =? sol_recent_slot v)
            (InvalidFormat "solana attestation slot does not match recent blockhash slot") (Ok tt)))
      end
  | RawBtc =>
      match verify_raw_btc t (raw_bytes r) with
      | Err e => Err (invalid_format e)
      | Ok v =>
          mismatch (sender =? btc_sender_idcom v) (MpInvalidCredential sender) (
          mismatch (bool_decide (payload tx = btc_payload v))
            (InvalidFormat "btc raw payload does not match canonical reconstruction") (Ok tt))
      end
  | RawTron =>
      match verify_raw_tron_against_state t (raw_bytes r) with
      | Err e => Err (invalid_format e)
      | Ok v =>
          mismatch (sender =? tron_sender_idcom v) (MpInvalidCredential sender) (
          mismatch (bool_decide (payload tx = tron_canonical_payload v))
            (InvalidFormat "tron raw payload does not match canonical reconstruction") (
          mismatch (domain_slot dom =? tron_domain_slot v)
            (InvalidFormat "tron attestation slot does not match canonical ACE domain slot") (Ok tt)))
      end
  end.

Definition validate_sender_credential (mp : Mempool) (tx : Transaction) : result MempoolError unit :=
  match state_view mp with
  | None => Err (ValidationError "mempool state not configured - cannot validate credentials")
  | Some s =>
      match raw_chain tx with
      | Some r =>
          match default_shard s with
          | None => Err MempoolPanic
          | Some t => validate_raw_chain mp t r tx
          end
      | None =>
          let sender := idcom (attestation tx) in
          let? key := credential_key (sharded_get s sender) tx in
          if verify_credential env_sha256 env_devnet (attestation tx) (payload tx) key then Ok tt
          else Err (MpInvalidCredential sender)
      end
  end.

(** A system transaction names its sender in its payload. *)
Definition validate_system_tx (mp : Mempool) (tx : Transaction) (unconfigured mismatched : string)
    (sender_of : list Z -> result string AccountId) (check : StateTree -> list Z -> result string unit)
    : result MempoolError unit :=
  match state_view mp with
  | None => Err (ValidationError unconfigured)
  | Some s =>
      match sender_of (payload tx) with
      | Err m => Err (ValidationError m)
      | Ok expected =>
          mismatch (idcom (attestation tx) =? expected) (ValidationError mismatched) (
          match default_shard s with
          | None => Err MempoolPanic
          | Some t => match check t (payload tx) with Ok _ => Ok tt | Err m => Err (ValidationError m) end
          end)
      end
  end.

Definition validate_bridge_deposit_system_tx (mp : Mempool) (tx : Transaction) : result MempoolError unit :=
  validate_system_tx mp tx "mempool state not configured - cannot validate bridge deposit"
    "bridge deposit idcom does not match relayer pubkey" deposit_sender deposit_check.

Definition validate_withdrawal_completion_system_tx (mp : Mempool) (tx : Transaction) : result MempoolError unit :=
  validate_system_tx mp tx "mempool state not configured - cannot validate withdrawal completion"
    "withdrawal completion idcom does not match relayer pubkey" completion_sender completion_check.

Definition validate_mev_ace_omission_evidence_system_tx (tx : Transaction) : result MempoolError unit :=
  match evidence_sender (payload tx) with
  | Err m => Err (ValidationError m)
  | Ok expected =>
      mismatch (idcom (attestation tx) =? expected)
        (ValidationError "MEV-ACE omission evidence idcom does not match proof") (Ok tt)
  end.

Definition state_replay_check (t : StateTree) (zk : ZkAuth) : result MempoolError unit :=
  if zk_replay_contains t (rp_com zk) then Err (ValidationError "ZK-ACE replay commitment already consumed")
  else Ok tt.

Definition verify_zk_authorization (tx : Transaction) (t : StateTree) : result MempoolError unit :=
  match zk_auth tx with
  | None => Err (ValidationError "tx.is_zk_auth() true but zk_auth field is None")
  | Some zk =>
      if env_verify_zk tx zk then state_replay_check t zk else Err (ValidationError "ZK-ACE: ")
  end.

(** A pending transaction with the same replay commitment. *)
Definition replay_pending (p : PoolState) (rp : Z) : bool :=
  existsb (fun x => match zk_auth x.2 with Some zk => rp_com zk =? rp | None => false end)
    (entries (pending p)).

Definition validate_zk_auth (mp : Mempool) (tx : Transaction) : result MempoolError unit :=
  match zk_auth tx with
  | None => Err (ValidationError "tx.is_zk_auth() true but zk_auth field is None")
  | Some zk =>
      if replay_pending (pool mp) (rp_com zk) then
        Err (ValidationError "ZK-ACE replay commitment already pending")
      else
        match state_view mp with
        | None => Err (ValidationError "mempool state not configured - cannot validate ZK replay registry")
        | Some s =>
            match default_shard s with
            | None => Err MempoolPanic
            | Some t => verify_zk_authorization tx t
            end
        end
  end.
End validation.

(* ------------------------------------------------------------------ *)
(** * Operations *)

Section pool.
Context {CE : CryptoEnv} {K : K256} {RV : RawVerifiers} {ME : MempoolEnv}.

Definition remove_from_sender_lane_locked (p : PoolState) (tx : Transaction) (h : Hash) : PoolState :=
  let sender := idcom (attestation tx) in
  match senders p !! sender with
  | None => p
  | Some lane =>
      let lane' :=
        match sender_sequence_nonce tx with
        | Ok (Some nonce) =>
            {| onchain_nonce := onchain_nonce lane; ready := delete nonce (ready lane);
               future := delete nonce (future lane); unordered := unordered lane;
               future_only_since_slot := future_only_since_slot lane |}
        | _ =>
            {| onchain_nonce := onchain_nonce lane; ready := ready lane; future := future lane;
               unordered := unordered lane ∖ {[h]};
               future_only_since_slot := future_only_since_slot lane |}
        end in
      if lane_is_empty lane' then set_senders p (delete sender (senders p)) else put_lane p sender lane'
  end.

(** The lane of the sender as [insert_validated_locked] finds or makes it. *)
Definition entry_lane (p : PoolState) (sender : AccountId) (chain_nonce : Z) : SenderLane :=
  let lane := default (lane_new chain_nonce) (senders p !! sender) in
  {| onchain_nonce := Z.max (onchain_nonce lane) chain_nonce; ready := ready lane; future := future lane;
     unordered := unordered lane; future_only_since_slot := future_only_since_slot lane |}.

(** The lane stays in the map when the insertion fails. *)
Definition insert_validated_locked (mp : Mempool) (tx : Transaction) (h : Hash) (sender : AccountId)
    (nonce : option Z) (chain_nonce : Z) (bypass_overload : bool) : Mempool * result MempoolError unit :=
  let lane := entry_lane (pool mp) sender chain_nonce in
  let p := put_lane (pool mp) sender lane in
  let mp := set_pool mp p in
  if MAX_TXS_PER_SENDER <=? total_count lane then (mp, Err (PoolFull MAX_TXS_PER_SENDER))
  else
    match nonce with
    | Some nonce =>
        if bool_decide (is_Some (ready lane !! nonce)) || bool_decide (is_Some (future lane !! nonce)) then
          (mp, Err (SenderNonceConflict sender nonce))
        else
          let expected := next_expected_nonce lane in
          if nonce <? expected then (mp, Err (StaleNonce sender expected nonce))
          else if nonce =? expected then
            let p := set_pending p (<[h := tx]> (pending p)) in
            let p := insert_state p h
              (if is_credential_stripped tx then ParkedStrippedCredential else ReadyExecutable) in
            let p := put_lane p sender
              {| onchain_nonce := onchain_nonce lane; ready := <[nonce := h]> (ready lane);
                 future := future lane; unordered := unordered lane; future_only_since_slot := None |} in
            let p := enqueue_ready_hash_locked p h in
            (set_pool mp (promote_future_ready_locked p sender), Ok tt)
          else if max_future_txs_per_sender (config mp) <=? zsize (future lane) then
            (mp, Err (FutureQueueFull sender (max_future_txs_per_sender (config mp))))
          else if max_future_nonce_gap (config mp) <? u64_saturating_sub nonce expected then
            (mp, Err (FutureNonceGap sender expected nonce (max_future_nonce_gap (config mp))))
          else
            let since := future_only_since_slot lane in
            let p := put_lane p sender
              {| onchain_nonce := onchain_nonce lane; ready := ready lane;
                 future := <[nonce := h]> (future lane); unordered := unordered lane;
                 future_only_since_slot :=
                   if bool_decide (ready lane = ∅) then or_insert since (current_slot mp) else since |} in
            let p := insert_state p h FutureNonce in
            (set_pool mp (set_pending p (<[h := tx]> (pending p))), Ok tt)
    | None =>
        let '(mp, overload) :=
          if bypass_overload then (mp, None) else admission_overload_error mp (zsize (pending p)) in
        match overload with
        | Some e => (mp, Err e)
        | None =>
            let stripped := is_credential_stripped tx in
            let p := put_lane p sender
              {| onchain_nonce := onchain_nonce lane; ready := ready lane; future := future lane;
                 unordered := {[h]} ∪ unordered lane;
                 future_only_since_slot := future_only_since_slot lane |} in
            let p := insert_state p h (if stripped then ParkedStrippedCredential else UnorderedExecutable) in
            let p := if stripped then p else enqueue_ready_hash_locked p h in
            (set_pool mp (set_pending p (<[h := tx]> (pending p))), Ok tt)
        end
    end.

(** The full copy of a transaction takes the place of the stripped one. *)
Definition upgrade_locked (p : PoolState) (tx : Transaction) (h : Hash) (sender : AccountId)
    (nonce : option Z) (chain_nonce : Z) : PoolState :=
  let p := set_pending p (<[h := tx]> (pending p)) in
  let p := insert_state p h (match nonce with Some _ => ReadyExecutable | None => UnorderedExecutable end) in
  let p :=
    match nonce with
    | Some nonce =>
        let lane := default (lane_new chain_nonce) (senders p !! sender) in
        let lane' := {| onchain_nonce := onchain_nonce lane; ready := <[nonce := h]> (ready lane);
                        future := future lane; unordered := unordered lane;
                        future_only_since_slot := future_only_since_slot lane |} in
        promote_future_ready_locked (put_lane p sender lane') sender
    | None =>
        let lane := default (lane_new 0) (senders p !! sender) in
        put_lane p sender
          {| onchain_nonce := onchain_nonce lane; ready := ready lane; future := future lane;
             unordered := {[h]} ∪ unordered lane;
             future_only_since_slot := future_only_since_slot lane |}
    end in
  enqueue_ready_hash_locked p h.

(** The part of [insert_inner] under the write lock for a new transaction. *)
Definition insert_new_locked (mp : Mempool) (tx : Transaction) (h : Hash) (sender : AccountId)
    (nonce : option Z) (chain_nonce : Z) : Mempool * result MempoolError InsertOutcome :=
  let p := sync_sender_lane_to_chain_locked (current_slot mp) (pool mp) sender chain_nonce in
  let mp := set_pool mp p in
  let was_ready_empty := bool_decide (ready_members p = ∅) in
  if bool_decide (is_Some (pending p !! h)) then (mp, Err (DuplicateTransaction h))
  else if max_size (config mp) <=? zsize (pending p) then (mp, Err (PoolFull (max_size (config mp))))
  else
    let lane := senders p !! sender in
    let lane_next_nonce := match lane with Some l => next_expected_nonce l | None => chain_nonce end in
    let would_be_ready := bool_decide (nonce = Some lane_next_nonce) in
    let is_gap_fill :=
      match lane with
      | Some l => bool_decide (ready l = ∅) && negb (bool_decide (future l = ∅)) && would_be_ready
      | None => false
      end in
    let ready_starved := zsize (ready_members p) <? READY_STARVATION_BYPASS_BELOW in
    let '(mp, overload) :=
      if is_gap_fill || (ready_starved && would_be_ready) then (mp, None)
      else admission_overload_error mp (zsize (pending p)) in
    match overload with
    | Some e => (mp, Err e)
    | None =>
        match insert_validated_locked mp tx h sender nonce chain_nonce false with
        | (mp, Err e) => (mp, Err e)
        | (mp, Ok _) =>
            (mp, Ok {| outcome_hash := h;
                       became_ready := was_ready_empty && negb (bool_decide (ready_members (pool mp) = ∅)) |})
        end
    end.

Definition insert_locked (mp : Mempool) (tx : Transaction) (h : Hash) (sender : AccountId)
    (nonce : option Z) (is_upgrade : bool) (chain_nonce : Z) : Mempool * result MempoolError InsertOutcome :=
  if is_upgrade then
    match pending (pool mp) !! h with
    | Some existing =>
        if is_credential_stripped existing then
          (set_pool mp (upgrade_locked (pool mp) tx h sender nonce chain_nonce),
           Ok {| outcome_hash := h; became_ready := false |})
        else (mp, Err (DuplicateTransaction h))
    | None => insert_new_locked mp tx h sender nonce chain_nonce
    end
  else insert_new_locked mp tx h sender nonce chain_nonce.

(** The checks of [insert_inner]; the result is the nonce of the transaction. *)
Definition insert_checks (mp : Mempool) (tx : Transaction) (skip_credential : bool)
    : result MempoolError (option Z) :=
  let? _ := validate tx (cfg_chain_id (config mp)) (max_tx_bytes (config mp)) in
  let? _ := validate_approve_validator tx (cfg_founder_id_com (config mp)) in
  let? _ := (if is_mev_ace_omission_evidence tx then Ok tt else validate_slot tx (current_slot mp)) in
  if is_raw_chain tx && is_zk_auth tx then
    Err (ValidationError "raw_chain and zk_auth are mutually exclusive")
  else
    let? nonce := sender_sequence_nonce tx in
    let? _ :=
      (if is_bridge_deposit tx then validate_bridge_deposit_system_tx mp tx
       else if is_withdrawal_completion tx then validate_withdrawal_completion_system_tx mp tx
       else if is_mev_ace_omission_evidence tx then validate_mev_ace_omission_evidence_system_tx tx
       else if is_zk_auth tx then validate_zk_auth mp tx
       else if skip_credential then Ok tt
       else validate_sender_credential mp tx) in
    Ok nonce.

Definition insert_inner (mp : Mempool) (tx : Transaction) (skip_credential : bool)
    : Mempool * result MempoolError InsertOutcome :=
  match insert_checks mp tx skip_credential with
  | Err e => (mp, Err e)
  | Ok nonce =>
      let h := tx_hash env_sha256 tx in
      let sender := idcom (attestation tx) in
      let is_upgrade := negb (is_credential_stripped tx) && is_stripped_entry (pool mp) h in
      insert_locked mp tx h sender nonce is_upgrade (sender_onchain_nonce mp sender)
  end.

Definition mempool_insert (mp : Mempool) (tx : Transaction) : Mempool * result MempoolError Hash :=
  match insert_inner mp tx false with
  | (mp, Ok o) => (mp, Ok (outcome_hash o))
  | (mp, Err e) => (mp, Err e)
  end.

Definition insert_preverified (mp : Mempool) (tx : Transaction) : Mempool * result MempoolError InsertOutcome :=
  insert_inner mp tx true.

Definition insert_relay (mp : Mempool) (tx : Transaction) : Mempool * result MempoolError InsertOutcome :=
  insert_inner mp tx (is_credential_stripped tx).

Definition mempool_remove (mp : Mempool) (h : Hash) : Mempool * option Transaction :=
  match pending (pool mp) !! h with
  | None => (mp, None)
  | Some tx =>
      let sender := idcom (attestation tx) in
      let p := drop_entry (pool mp) h in
      let p := remove_from_sender_lane_locked p tx h in
      let p := remove_hash_from_ready_queue p h in
      (set_pool mp (sync_sender_lane_to_chain_locked (current_slot mp) p sender (sender_onchain_nonce mp sender)),
       Some tx)
  end.

Definition sync_all (mp : Mempool) (order : list AccountId) : PoolState :=
  sync_all_sender_lanes_to_chain_locked order (current_slot mp) (state_view mp) (pool mp).

Definition ready_transactions (mp : Mempool) (order : list AccountId) : Mempool * list Transaction :=
  let p := sync_all mp order in
  (set_pool mp p,
   List.filter (fun tx => negb (is_credential_stripped tx))
     (omap (fun h => pending p !! h) (filter (fun h => h ∈ ready_members p) (ready_queue p)))).

Definition evict_entry (p : PoolState) (h : Hash) : PoolState :=
  let p := drop_entry p h in
  remove_hash_from_ready_queue (set_ready p (ready_queue p) (ready_members p ∖ {[h]})) h.

(** One sender of [evict_stale_future_txs], with what is left of the budget. *)
Definition evict_future_lane (slot : Z) (x : PoolState * nat) (sender : AccountId) : PoolState * nat :=
  let '(p, budget) := x in
  match senders p !! sender with
  | None => (p, budget)
  | Some lane =>
      let only_future := bool_decide (ready lane = ∅) && negb (bool_decide (future lane = ∅)) in
      let evict :=
        only_future &&
        match future_only_since_slot lane with
        | Some since => FUTURE_ONLY_EVICT_AFTER_SLOTS <=? u64_saturating_sub slot since
        | None => false
        end in
      if evict && (0 <? budget)%nat then
        let p := foldl evict_entry p (map snd (entries (future lane))) in
        let lane' := {| onchain_nonce := onchain_nonce lane; ready := ready lane; future := ∅;
                        unordered := unordered lane; future_only_since_slot := None |} in
        (drop_empty_lane (put_lane p sender lane') sender, (budget - 1)%nat)
      else
        (put_lane p sender
           {| onchain_nonce := onchain_nonce lane; ready := ready lane; future := future lane;
              unordered := unordered lane;
              future_only_since_slot :=
                if only_future then or_insert (future_only_since_slot lane) slot else None |}, budget)
  end.

Definition evict_stale_future_txs (mp : Mempool) (order order' : list AccountId) : Mempool :=
  let p := sync_all mp order in
  set_pool mp (fst (foldl (evict_future_lane (current_slot mp)) (p, FUTURE_ONLY_EVICT_PER_RUN) order')).

(** One turn pops one hash. *)
Fixpoint drain_loop (queue : list Hash) (max : nat) (p : PoolState) : PoolState * list Transaction :=
  match max with
  | O => (set_ready p queue (ready_members p), [])
  | S max' =>
      match queue with
      | [] => (set_ready p [] (ready_members p), [])
      | h :: queue =>
          if negb (bool_decide (h ∈ ready_members p)) then drain_loop queue max p
          else
            let p := set_ready p (ready_queue p) (ready_members p ∖ {[h]}) in
            match pending p !! h with
            | None => drain_loop queue max p
            | Some tx =>
                if is_credential_stripped tx then
                  drain_loop queue max (insert_state p h ParkedStrippedCredential)
                else
                  let p := remove_from_sender_lane_locked (drop_entry p h) tx h in
                  let '(p, batch) := drain_loop queue max' p in
                  (p, tx :: batch)
            end
      end
  end.

Definition drain_batch (mp : Mempool) (max : nat) (order : list AccountId) : Mempool * list Transaction :=
  let p := sync_all mp order in
  let '(p, batch) := drain_loop (ready_queue p) max p in
  (set_pool mp p, batch).

(** The insertion of one transaction, and whether it went in. *)
Definition requeue_one (mp : Mempool) (tx : Transaction) : Mempool * bool :=
  let h := tx_hash env_sha256 tx in
  let sender := idcom (attestation tx) in
  match sender_sequence_nonce tx with
  | Err _ => (mp, false)
  | Ok nonce =>
      let chain_nonce := sender_onchain_nonce mp sender in
      let mp := set_pool mp (sync_sender_lane_to_chain_locked (current_slot mp) (pool mp) sender chain_nonce) in
      let '(mp, r) := insert_validated_locked mp tx h sender nonce chain_nonce true in
      (mp, match r with Ok _ => true | Err _ => false end)
  end.

Fixpoint requeue_loop (mp : Mempool) (txs : list Transaction) : Mempool :=
  match txs with
  | [] => mp
  | tx :: txs =>
      if max_size (config mp) <=? zsize (pending (pool mp)) then mp
      else if bool_decide (is_Some (pending (pool mp) !! tx_hash env_sha256 tx)) then requeue_loop mp txs
      else requeue_loop (fst (requeue_one mp tx)) txs
  end.

Definition requeue (mp : Mempool) (txs : list Transaction) (order : list AccountId) : Mempool :=
  requeue_loop (set_pool mp (sync_all mp order)) txs.

Definition park (mp : Mempool) (h : Hash) (reason : ParkedTxReason) : Mempool :=
  set_pool mp (remove_hash_from_ready_queue (insert_state (pool mp) h (reason_state reason)) h).

Fixpoint requeue_parked_loop (mp : Mempool) (txs : list Transaction) (reason : ParkedTxReason) : Mempool :=
  match txs with
  | [] => mp
  | tx :: txs =>
      let h := tx_hash env_sha256 tx in
      if max_size (config mp) <=? zsize (pending (pool mp)) then mp
      else if bool_decide (is_Some (pending (pool mp) !! h)) then
        requeue_parked_loop (park mp h reason) txs reason
      else
        let '(mp, inserted) := requeue_one mp tx in
        requeue_parked_loop (if inserted then park mp h reason else mp) txs reason
  end.

Definition requeue_parked (mp : Mempool) (txs : list Transaction) (reason : ParkedTxReason)
    (order : list AccountId) : Mempool :=
  requeue_parked_loop (set_pool mp (sync_all mp order)) txs reason.

(** The lane of the sender has the transaction where it can be proposed from. *)
Definition lane_executable (p : PoolState) (tx : Transaction) (h : Hash) : bool :=
  match sender_sequence_nonce tx, senders p !! idcom (attestation tx) with
  | Ok (Some nonce), Some lane => bool_decide (ready lane !! nonce = Some h)
  | Ok None, Some lane => bool_decide (h ∈ unordered lane)
  | _, _ => false
  end.

(** What the two promotions share: a parked transaction becomes ready again. *)
Definition unpark (p : PoolState) (h : Hash) : PoolState * bool :=
  match pending p !! h with
  | None => (set_tx_states p (delete h (tx_states p)), false)
  | Some tx =>
      if is_credential_stripped tx then (insert_state p h ParkedStrippedCredential, false)
      else if lane_executable p tx h then
        (enqueue_ready_hash_locked (insert_state p h ReadyExecutable) h, true)
      else (p, false)
  end.

Definition promote_parked_committee (mp : Mempool) (h : Hash) : Mempool * bool :=
  if bool_decide (tx_states (pool mp) !! h = Some ParkedMissingCommitteeCertificate) then
    let '(p, b) := unpark (pool mp) h in (set_pool mp p, b)
  else (mp, false).

(** [order] is the order in which the states are walked. *)
Definition promote_parked_witnesses (mp : Mempool) (order : list Hash) (can_promote : Transaction -> bool)
    : Mempool * nat :=
  let p := pool mp in
  let hashes :=
    List.filter (fun h =>
      bool_decide (tx_states p !! h = Some ParkedMissingWitness) &&
      match pending p !! h with Some tx => can_promote tx | None => false end) order in
  let '(p, n) :=
    foldl (fun '(p, n) h => let '(p, b) := unpark p h in (p, if b : bool then S n else n)) (p, 0%nat) hashes in
  (set_pool mp p, n).
End pool.

Definition count_state (p : PoolState) (s : TxMempoolState) : nat :=
  length (List.filter (fun x => bool_decide (x.2 = s)) (entries (tx_states p))).

Definition state_counts (p : PoolState) : MempoolStateCounts :=
  {| pending_total := size (pending p);
     count_ready_executable := count_state p ReadyExecutable;
     count_future_nonce := count_state p FutureNonce;
     count_parked_stripped_credential := count_state p ParkedStrippedCredential;
     count_parked_missing_witness := count_state p ParkedMissingWitness;
     count_parked_missing_committee_certificate := count_state p ParkedMissingCommitteeCertificate;
     count_unordered_executable := count_state p UnorderedExecutable |}.

Definition pending_nonce (p : PoolState) (sender : AccountId) : option Z :=
  next_expected_nonce <$> senders p !! sender.
