(* ===== verification/MempoolSpec.v ===== *)
(** The pool of [Mempool] is consistent: what its indices say of each other.

    [pool_ok] is the invariant; every operation keeps it, also when insertions of
    several threads interleave between their checks and the write lock. *)

From S2P Require Import Prelude SigAlgo Account StateTree StateRoot Sharded.
From S2P Require Import StateM Wire Payload Transaction Engine Vm Token RawSolana RawTron Dispatch Mempool.
Local Open Scope Z_scope.
Local Open Scope ace_scope.

(* ------------------------------------------------------------------ *)
(** * The next nonce *)

Lemma next_nonce_loop_spec fuel r e :
  e <= next_nonce_loop fuel r e \/ u64_max < e.
Proof.
  revert e. induction fuel as [|fuel IH]; intros e; cbn; [left; lia|].
  case_bool_decide; [|left; lia]. unfold u64_saturating_add.
  destruct (IH (Z.min (e + 1) u64_max)) as [H'|H']; [|lia]. destruct (decide (u64_max < e)); [by right|left; lia].
Qed.

(** The loop ends at the first nonce from [e] on that is not ready, when the ready
    nonces cannot reach the end of the range. *)
Lemma next_nonce_loop_stops fuel (r : gmap Z Hash) e :
  (size r < fuel)%nat -> e + zsize r <= u64_max ->
  let x := next_nonce_loop fuel r e in
  e <= x /\ r !! x = None /\ forall n, e <= n < x -> is_Some (r !! n).
Proof.
  revert r e. induction fuel as [|fuel IH]; intros r e Hf He; [lia|]. cbn.
  case_bool_decide as Hr.
  - unfold zsize in *. assert (size (delete e r) = pred (size r)) as Hs by (by apply map_size_delete_Some).
    assert (size r <> 0%nat) by (intros E%map_size_empty_iff; rewrite E, lookup_empty in Hr; by destruct Hr).
    unfold u64_saturating_add. rewrite Z.min_l by lia.
    assert (forall fuel n, e < n -> next_nonce_loop fuel r n = next_nonce_loop fuel (delete e r) n) as Ed.
    { assert (e < u64_max) as Hmax by lia. revert Hmax. clear.
      intros Hmax fuel. induction fuel as [|fuel IH]; intros n Hn; [done|]. cbn. rewrite lookup_delete_ne by lia.
      case_bool_decide; [|done]. apply IH. unfold u64_saturating_add. lia. }
    rewrite Ed by lia. destruct (IH (delete e r) (e + 1)) as (H1 & H2 & H3); [lia|lia|].
    split; [lia|]. rewrite lookup_delete_ne in H2 by lia. split; [done|]. intros n Hn.
    destruct (decide (n = e)) as [->|]; [done|]. specialize (H3 n ltac:(lia)). by rewrite lookup_delete_ne in H3 by lia.
  - split; [lia|]. split; [by destruct (r !! e) eqn:E; [destruct Hr; eexists|]|]. lia.
Qed.

(* ------------------------------------------------------------------ *)
(** * The invariant *)

(** Where a lane keeps a transaction with the nonce [n], or without one. *)
Definition located (l : SenderLane) (n : option Z) (h : Hash) : Prop :=
  match n with
  | Some n => ready l !! n = Some h \/ future l !! n = Some h
  | None => h ∈ unordered l
  end.

(** From where a block can take it. *)
Definition in_ready_part (l : SenderLane) (n : option Z) (h : Hash) : Prop :=
  match n with
  | Some n => ready l !! n = Some h
  | None => h ∈ unordered l
  end.

Lemma ready_part_located l n h : in_ready_part l n h -> located l n h.
Proof. destruct n; [by left|done]. Qed.

Section invariant.
Context {CE : CryptoEnv} {K : K256} {RV : RawVerifiers} {ME : MempoolEnv}.

(** The entry of a hash, with the sender and the nonce it is filed under. *)
Definition entry_of (p : PoolState) (sender : AccountId) (n : option Z) (h : Hash) : Prop :=
  exists tx, pending p !! h = Some tx /\ idcom (attestation tx) = sender /\ sender_sequence_nonce tx = Ok n.

(** [T] are the transactions in play. *)
Record pool_ok (T : Transaction -> Prop) (p : PoolState) : Prop := {
  (* an entry is under its hash, with a nonce that can be read *)
  ok_pending h tx : pending p !! h = Some tx ->
    T tx /\ tx_hash env_sha256 tx = h /\ exists n, sender_sequence_nonce tx = Ok n;
  (* every entry has a state, and only entries do *)
  ok_states h : is_Some (tx_states p !! h) <-> is_Some (pending p !! h);
  (* a lane names entries of its sender, at their nonces *)
  ok_lanes sender l n h : senders p !! sender = Some l -> located l n h -> entry_of p sender n h;
  (* one transaction for each nonce *)
  ok_nonces sender l n h h' : senders p !! sender = Some l ->
    ready l !! n = Some h -> future l !! n = Some h' -> h = h';
  (* every entry is in the lane of its sender *)
  ok_placed sender n h : entry_of p sender n h ->
    exists l, senders p !! sender = Some l /\ located l n h;
  (* what is ready is queued, has its credential and is in the ready or unordered part *)
  ok_members h : h ∈ ready_members p -> h ∈ ready_queue p /\
    exists tx l n, pending p !! h = Some tx /\ is_credential_stripped tx = false /\
      sender_sequence_nonce tx = Ok n /\ senders p !! idcom (attestation tx) = Some l /\ in_ready_part l n h;
}.

Context (T : Transaction -> Prop).

Lemma pool_new_ok : pool_ok T pool_new.
Proof.
  split.
  - intros h tx H. cbn in H. by rewrite lookup_empty in H.
  - intros h. cbn. by rewrite !lookup_empty.
  - intros s l n h H. cbn in H. by rewrite lookup_empty in H.
  - intros s l n h h' H. cbn in H. by rewrite lookup_empty in H.
  - intros s n h (tx & H & _). cbn in H. by rewrite lookup_empty in H.
  - intros h H. cbn in H. set_solver.
Qed.

Lemma entry_of_fun p s s' n n' h : entry_of p s n h -> entry_of p s' n' h -> s = s' /\ n = n'.
Proof. intros (tx & E & <- & Hn) (tx' & E' & <- & Hn'). rewrite E in E'. injection E' as <-. rewrite Hn in Hn'. by injection Hn'. Qed.

(** ** Removal *)

(** What a state looks like after the hashes [D] of one sender's lane left. *)
Record dropped (p p' : PoolState) (sender : AccountId) (D : Hash -> Prop) : Prop := {
  dr_pending h : (D h -> pending p' !! h = None) /\ (~ D h -> pending p' !! h = pending p !! h);
  dr_states h : (D h -> tx_states p' !! h = None) /\ (~ D h -> tx_states p' !! h = tx_states p !! h);
  dr_members h : h ∈ ready_members p' -> h ∈ ready_members p /\ ~ D h /\ h ∈ ready_queue p';
  dr_others s : s <> sender -> senders p' !! s = senders p !! s;
  dr_only h : D h -> exists l n, senders p !! sender = Some l /\ located l n h;
  dr_lane l' : senders p' !! sender = Some l' -> exists l, senders p !! sender = Some l /\
    (forall n h, ready l' !! n = Some h <-> ready l !! n = Some h /\ ~ D h) /\
    (forall n h, future l' !! n = Some h <-> future l !! n = Some h /\ ~ D h) /\
    (forall h, h ∈ unordered l' <-> h ∈ unordered l /\ ~ D h);
  dr_gone l n h : senders p' !! sender = None -> senders p !! sender = Some l -> located l n h -> D h;
}.

Lemma dropped_located p p' sender D l' : dropped p p' sender D -> senders p' !! sender = Some l' ->
  exists l, senders p !! sender = Some l /\ (forall n h, located l' n h <-> located l n h /\ ~ D h) /\
    (forall n h, in_ready_part l' n h <-> in_ready_part l n h /\ ~ D h).
Proof.
  intros H Hl. destruct (dr_lane _ _ _ _ H l' Hl) as (l & E & Hr & Hf & Hu). exists l. split; [done|]. split.
  - intros [n|] h; cbn; [rewrite Hr, Hf; tauto|apply Hu].
  - intros [n|] h; cbn; [apply Hr|apply Hu].
Qed.

Lemma pool_ok_dropped p p' sender D : pool_ok T p -> dropped p p' sender D -> pool_ok T p'.
Proof.
  intros H HD.
  assert (forall h tx, pending p' !! h = Some tx -> ~ D h /\ pending p !! h = Some tx) as Hpend.
  { intros h tx E. assert (~ D h) as Hn. { intros HDh. apply (dr_pending _ _ _ _ HD) in HDh. congruence. }
    split; [done|]. rewrite <-E. symmetry. by apply (dr_pending _ _ _ _ HD). }
  assert (forall s n h, entry_of p s n h -> ~ D h -> entry_of p' s n h) as Hentry.
  { intros s n h (tx & E & Hs & Hn) HDh. exists tx. split; [|done]. rewrite <-E. by apply (dr_pending _ _ _ _ HD). }
  split.
  - intros h tx E. apply Hpend in E as [_ E]. by apply (ok_pending _ _ H).
  - intros h. destruct (tx_states p' !! h) as [x|] eqn:Ex.
    + assert (~ D h) as Hn by (intros HDh; apply (dr_states _ _ _ _ HD) in HDh; congruence).
      rewrite (proj2 (dr_pending _ _ _ _ HD h) Hn), <-(ok_states _ _ H h), <-(proj2 (dr_states _ _ _ _ HD h) Hn), Ex. done.
    + split; [by intros []|]. intros [tx E]. exfalso. destruct (Hpend h tx E) as [Hn Ep].
      rewrite (proj2 (dr_states _ _ _ _ HD h) Hn) in Ex.
      assert (is_Some (tx_states p !! h)) as [? E'] by (apply (ok_states _ _ H); by eexists). congruence.
  - intros s l' n h Hl Hloc. destruct (decide (s = sender)) as [->|Hne].
    + destruct (dropped_located _ _ _ _ _ HD Hl) as (l & E & Hiff & _).
      destruct (proj1 (Hiff n h) Hloc) as [Hloc' Hn].
      apply Hentry; [|done]. by apply (ok_lanes _ _ H sender l).
    + rewrite (dr_others _ _ _ _ HD s Hne) in Hl. pose proof (ok_lanes _ _ H s l' n h Hl Hloc) as He.
      apply Hentry; [done|]. intros HDh. destruct (dr_only _ _ _ _ HD h HDh) as (l & n' & El & Hloc').
      destruct Hne. by destruct (entry_of_fun _ _ _ _ _ _ He (ok_lanes _ _ H sender l n' h El Hloc')).
  - intros s l' n h h' Hl Hr Hf. destruct (decide (s = sender)) as [->|Hne].
    + destruct (dr_lane _ _ _ _ HD l' Hl) as (l & E & Hr' & Hf' & _).
      apply Hr' in Hr as [Hr _]. apply Hf' in Hf as [Hf _]. by apply (ok_nonces _ _ H sender l n).
    + rewrite (dr_others _ _ _ _ HD s Hne) in Hl. by apply (ok_nonces _ _ H s l' n).
  - intros s n h (tx & E & Hs & Hn). apply Hpend in E as [HDh E].
    destruct (ok_placed _ _ H s n h) as (l & El & Hloc); [by exists tx|].
    destruct (decide (s = sender)) as [->|Hne].
    + destruct (senders p' !! sender) as [l'|] eqn:El'.
      * exists l'. split; [done|]. destruct (dropped_located _ _ _ _ _ HD El') as (l0 & E0 & Hiff & _).
        rewrite El in E0. injection E0 as <-. by apply Hiff.
      * destruct HDh. by apply (dr_gone _ _ _ _ HD l n h El' El).
    + exists l. by rewrite (dr_others _ _ _ _ HD s Hne).
  - intros h Hm. destruct (dr_members _ _ _ _ HD h Hm) as (Hm' & HDh & Hq). split; [done|].
    destruct (ok_members _ _ H h Hm') as (_ & tx & l & n & E & Hst & Hn & El & Hex). exists tx.
    assert (pending p' !! h = Some tx) as E' by (rewrite <-E; by apply (dr_pending _ _ _ _ HD)).
    destruct (decide (idcom (attestation tx) = sender)) as [Hs|Hne].
    + subst sender. destruct (senders p' !! idcom (attestation tx)) as [l'|] eqn:El'.
      * exists l', n. split_and!; try done. destruct (dropped_located _ _ _ _ _ HD El') as (l0 & E0 & _ & Hiff).
        rewrite El in E0. injection E0 as <-. by apply Hiff.
      * destruct HDh. apply (dr_gone _ _ _ _ HD l n h El' El). by apply ready_part_located.
    + exists l, n. by rewrite (dr_others _ _ _ _ HD _ Hne).
Qed.

(** ** Entries leaving the pool *)

Record drops (p p' : PoolState) (l : list Hash) : Prop := {
  ds_pending h : pending p' !! h = if bool_decide (h ∈ l) then None else pending p !! h;
  ds_states h : tx_states p' !! h = if bool_decide (h ∈ l) then None else tx_states p !! h;
  ds_members h : h ∈ ready_members p' <-> h ∈ ready_members p /\ h ∉ l;
  ds_queue h : h ∈ ready_members p' -> h ∈ ready_queue p -> h ∈ ready_queue p';
  ds_senders : senders p' = senders p;
}.

Lemma drops_nil p : drops p p [].
Proof. split; try done. set_solver. Qed.

Lemma drops_app p1 p2 p3 l k : drops p1 p2 l -> drops p2 p3 k -> drops p1 p3 (l ++ k).
Proof.
  intros H1 H2. split.
  - intros h. rewrite (ds_pending _ _ _ H2), (ds_pending _ _ _ H1). repeat case_bool_decide; set_solver.
  - intros h. rewrite (ds_states _ _ _ H2), (ds_states _ _ _ H1). repeat case_bool_decide; set_solver.
  - intros h. rewrite (ds_members _ _ _ H2), (ds_members _ _ _ H1), elem_of_app. tauto.
  - intros h Hm Hq. apply (ds_queue _ _ _ H2); [done|]. apply (ds_queue _ _ _ H1); [|done].
    by apply (ds_members _ _ _ H2) in Hm as [Hm _].
  - by rewrite (ds_senders _ _ _ H2), (ds_senders _ _ _ H1).
Qed.

Lemma remove_hash_members p h : ready_members (remove_hash_from_ready_queue p h) = ready_members p ∖ {[h]}.
Proof. unfold remove_hash_from_ready_queue. by destruct (_ && _ && _). Qed.

Lemma remove_hash_queue p h x :
  x ∈ ready_members (remove_hash_from_ready_queue p h) -> x ∈ ready_queue p ->
  x ∈ ready_queue (remove_hash_from_ready_queue p h).
Proof.
  rewrite remove_hash_members. unfold remove_hash_from_ready_queue. destruct (_ && _ && _) eqn:E; [|done].
  apply andb_true_iff in E as [[_ E%bool_decide_eq_true]%andb_true_iff _]. rewrite E. set_solver.
Qed.

Lemma remove_hash_frame p h :
  pending (remove_hash_from_ready_queue p h) = pending p /\
  tx_states (remove_hash_from_ready_queue p h) = tx_states p /\
  senders (remove_hash_from_ready_queue p h) = senders p.
Proof. unfold remove_hash_from_ready_queue. by destruct (_ && _ && _). Qed.

(** An entry is dropped and then leaves the ready set. *)
Lemma drops_one p p1 h :
  pending p1 = delete h (pending p) -> tx_states p1 = delete h (tx_states p) -> senders p1 = senders p ->
  ready_queue p1 = ready_queue p -> ready_members p1 ⊆ ready_members p ->
  ready_members p ∖ {[h]} ⊆ ready_members p1 ->
  drops p (remove_hash_from_ready_queue p1 h) [h].
Proof.
  intros Ep Es Esd Eq Hm Hm'. destruct (remove_hash_frame p1 h) as (E1 & E2 & E3). split.
  - intros x. rewrite E1, Ep. case_bool_decide as Hx; [|apply lookup_delete_ne; set_solver].
    apply list_elem_of_singleton in Hx as ->. apply lookup_delete_eq.
  - intros x. rewrite E2, Es. case_bool_decide as Hx; [|apply lookup_delete_ne; set_solver].
    apply list_elem_of_singleton in Hx as ->. apply lookup_delete_eq.
  - intros x. rewrite remove_hash_members. set_solver.
  - intros x Hx Hq. apply remove_hash_queue; [done|]. by rewrite Eq.
  - by rewrite E3.
Qed.

Lemma foldl_drops (f : PoolState -> Hash -> PoolState) l p :
  (forall p h, drops p (f p h) [h]) -> drops p (foldl f p l) l.
Proof.
  intros Hf. revert p. induction l as [|h l IH]; intros p; cbn; [apply drops_nil|].
  apply (drops_app p (f p h) _ [h] l); [apply Hf|apply IH].
Qed.

Lemma drop_hashes_drops p l : drops p (drop_hashes p l) l.
Proof. apply foldl_drops. intros q h. apply drops_one; try done; cbn; set_solver. Qed.

Lemma evict_entry_drops p l : drops p (foldl evict_entry p l) l.
Proof. apply foldl_drops. intros q h. apply drops_one; try done; cbn; set_solver. Qed.

(** The hashes [D] leave the lane of the sender and the pool. *)
Lemma pool_ok_lane_drop p p' sender l l' D :
  pool_ok T p -> senders p !! sender = Some l -> drops (put_lane p sender l') p' D ->
  (forall h, h ∈ D -> exists n, located l n h) ->
  (forall n h, ready l' !! n = Some h <-> ready l !! n = Some h /\ h ∉ D) ->
  (forall n h, future l' !! n = Some h <-> future l !! n = Some h /\ h ∉ D) ->
  (forall h, h ∈ unordered l' <-> h ∈ unordered l /\ h ∉ D) ->
  pool_ok T p'.
Proof.
  intros H El Hd Honly Hr Hf Hu. apply (pool_ok_dropped p p' sender (fun h => h ∈ D)); [done|]. split.
  - intros h. rewrite (ds_pending _ _ _ Hd). case_bool_decide; naive_solver.
  - intros h. rewrite (ds_states _ _ _ Hd). case_bool_decide; naive_solver.
  - intros h Hm. pose proof (proj1 (ds_members _ _ _ Hd h) Hm) as [Hm' Hn]. split_and!; [done|done|].
    apply (ds_queue _ _ _ Hd); [done|]. by apply (ok_members _ _ H).
  - intros s Hs. rewrite (ds_senders _ _ _ Hd). cbn. by rewrite lookup_insert_ne.
  - intros h HD. destruct (Honly h HD) as [n Hn]. by exists l, n.
  - intros l0. rewrite (ds_senders _ _ _ Hd). cbn. rewrite lookup_insert_eq. intros [= <-]. by exists l.
  - intros l0 n h. rewrite (ds_senders _ _ _ Hd). cbn. by rewrite lookup_insert_eq.
Qed.

Lemma lane_is_empty_located l n h : lane_is_empty l = true -> ~ located l n h.
Proof.
  unfold lane_is_empty. rewrite !andb_true_iff, !bool_decide_eq_true. intros [[Hr Hf] Hu].
  destruct n; cbn; rewrite ?Hr, ?Hf, ?Hu, ?lookup_empty; set_solver.
Qed.

Lemma drop_empty_lane_ok p sender : pool_ok T p -> pool_ok T (drop_empty_lane p sender).
Proof.
  intros H. unfold drop_empty_lane. destruct (senders p !! sender) as [l|] eqn:El; [|done].
  destruct (lane_is_empty l) eqn:Ee; [|done]. apply (pool_ok_dropped p _ sender (fun _ => False)); [done|].
  split; try done.
  - intros h Hm. split_and!; [done|tauto|]. by apply (ok_members _ _ H).
  - intros s Hs. cbn. by rewrite lookup_delete_ne.
  - intros l'. cbn. by rewrite lookup_delete_eq.
  - intros l0 n h _. rewrite El. intros [= <-]. by apply lane_is_empty_located.
Qed.

(** ** Lanes *)

Definition lane_at (p : PoolState) (sender : AccountId) : SenderLane :=
  default (lane_new 0) (senders p !! sender).

Lemma located_lane_at p s n h :
  located (lane_at p s) n h <-> exists l, senders p !! s = Some l /\ located l n h.
Proof.
  unfold lane_at. destruct (senders p !! s) as [l|]; cbn; [naive_solver|]. split; [|naive_solver].
  destruct n; cbn; rewrite ?lookup_empty; set_solver.
Qed.

Lemma ready_part_lane_at p s n h l : senders p !! s = Some l -> in_ready_part l n h -> in_ready_part (lane_at p s) n h.
Proof. unfold lane_at. by intros ->. Qed.

Lemma nonces_lane_at p s n h h' :
  pool_ok T p -> ready (lane_at p s) !! n = Some h -> future (lane_at p s) !! n = Some h' -> h = h'.
Proof.
  intros H. unfold lane_at. destruct (senders p !! s) as [l|] eqn:E; cbn; [by apply (ok_nonces _ _ H s)|by rewrite lookup_empty].
Qed.

(** A lane that names the same transactions, and lets at least as many be executed. *)
Lemma put_lane_ok p s l' :
  pool_ok T p -> (forall n h, located l' n h <-> located (lane_at p s) n h) ->
  (forall n h, in_ready_part (lane_at p s) n h -> in_ready_part l' n h) ->
  (forall n h h', ready l' !! n = Some h -> future l' !! n = Some h' -> h = h') ->
  pool_ok T (put_lane p s l').
Proof.
  intros H Hloc Hex Hn. split.
  - intros h tx E. by apply (ok_pending _ _ H).
  - apply (ok_states _ _ H).
  - intros s' l n h. cbn. intros [[<- <-]|[_ E]]%lookup_insert_Some Hl.
    + apply Hloc, located_lane_at in Hl as (l & E & Hl). by apply (ok_lanes _ _ H s l n h E Hl).
    + by apply (ok_lanes _ _ H s' l n h E Hl).
  - intros s' l n h h'. cbn. intros [[<- <-]|[_ E]]%lookup_insert_Some; [apply Hn|by apply (ok_nonces _ _ H s')].
  - intros s' n h He. destruct (ok_placed _ _ H s' n h He) as (l & E & Hl). cbn.
    destruct (decide (s = s')) as [<-|Hne].
    + exists l'. split; [by rewrite lookup_insert_eq|]. apply Hloc, located_lane_at. by exists l.
    + exists l. by rewrite lookup_insert_ne.
  - intros h Hm. destruct (ok_members _ _ H h Hm) as (Hq & tx & l & n & E & Hst & Hs & El & Hx).
    split; [done|]. exists tx. cbn. destruct (decide (s = idcom (attestation tx))) as [->|Hne].
    + exists l', n. rewrite lookup_insert_eq. split_and!; try done. apply Hex. by apply ready_part_lane_at with l.
    + exists l, n. by rewrite lookup_insert_ne.
Qed.

Lemma insert_state_ok p h x : pool_ok T p -> is_Some (pending p !! h) -> pool_ok T (insert_state p h x).
Proof.
  intros H Hh. split; [apply (ok_pending _ _ H)| |apply (ok_lanes _ _ H)|apply (ok_nonces _ _ H)|apply (ok_placed _ _ H)|apply (ok_members _ _ H)].
  intros h'. cbn. destruct (decide (h = h')) as [<-|Hne].
  - rewrite lookup_insert_eq. split; [done|by eexists].
  - rewrite lookup_insert_ne by done. apply (ok_states _ _ H).
Qed.

(** The entry of [h] can be executed, credential aside. *)
Definition exec_entry (p : PoolState) (h : Hash) : Prop :=
  exists tx l n, pending p !! h = Some tx /\ sender_sequence_nonce tx = Ok n /\
    senders p !! idcom (attestation tx) = Some l /\ in_ready_part l n h.

Lemma enqueue_frame p h :
  pending (enqueue_ready_hash_locked p h) = pending p /\ senders (enqueue_ready_hash_locked p h) = senders p.
Proof. unfold enqueue_ready_hash_locked. by repeat case_match. Qed.

Lemma enqueue_ok p h : pool_ok T p -> exec_entry p h -> pool_ok T (enqueue_ready_hash_locked p h).
Proof.
  intros H (tx & l & n & E & Hs & El & Hx). unfold enqueue_ready_hash_locked, is_stripped_entry. rewrite E.
  destruct (is_credential_stripped tx) eqn:Est; [apply insert_state_ok; [done|by eexists]|].
  case_bool_decide as Hm; [done|].
  split; [apply (ok_pending _ _ H)|apply (ok_states _ _ H)|apply (ok_lanes _ _ H)|apply (ok_nonces _ _ H)|apply (ok_placed _ _ H)|].
  intros h' Hm'. cbn in *. rewrite elem_of_app, list_elem_of_singleton. apply elem_of_union in Hm' as [->%elem_of_singleton|Hm'].
  - split; [by right|]. by exists tx, l, n.
  - destruct (ok_members _ _ H h' Hm') as [Hq ?]. split; [by left|done].
Qed.

Lemma enqueue_all_ok hs p : pool_ok T p -> Forall (exec_entry p) hs -> pool_ok T (foldl enqueue_ready_hash_locked p hs).
Proof.
  revert p. induction hs as [|h hs IH]; intros p H Hall; [done|]. apply Forall_cons in Hall as [Hh Hall]. cbn.
  apply IH; [by apply enqueue_ok|]. eapply Forall_impl; [exact Hall|]. intros x (tx & l & n & E & Hs & El & Hx).
  destruct (enqueue_frame p h) as [Ep Es]. exists tx, l, n. by rewrite Ep, Es.
Qed.

(** ** Promotion *)

Lemma promote_next_ok p sender p' h :
  pool_ok T p -> promote_next p sender = Some (p', h) ->
  pool_ok T p' /\ exec_entry p' h /\ forall x, exec_entry p x -> exec_entry p' x.
Proof.
  intros H. unfold promote_next. destruct (senders p !! sender) as [l|] eqn:El; cbn [mbind option_bind]; [|done].
  set (e := next_expected_nonce l). destruct (lane_blocked p l e); [done|].
  destruct (future l !! e) as [h'|] eqn:Ef; cbn [mbind option_bind]; [|done]. intros [= <- <-].
  set (l' := {| onchain_nonce := _; ready := _ |}).
  assert (lane_at p sender = l) as Hat by (unfold lane_at; by rewrite El).
  assert (forall n x, ready l !! n = Some x -> ready l' !! n = Some x) as Hready.
  { intros n x Hx. cbn. destruct (decide (e = n)) as [<-|Hne]; [|by rewrite lookup_insert_ne].
    rewrite lookup_insert_eq. f_equal. symmetry. by apply (ok_nonces _ _ H sender l e). }
  assert (forall n x, in_ready_part l n x -> in_ready_part l' n x) as Hexec by (intros [n|] x; [apply Hready|done]).
  assert (forall n x, located l' n x <-> located l n x) as Hloc.
  { intros [n|] x; cbn; [|done]. destruct (decide (e = n)) as [<-|Hne].
    - rewrite lookup_insert_eq, lookup_delete_eq. split; [intros [[= <-]|?]; [by right|done]|].
      intros [Hx|Hx]; left; f_equal; [symmetry; by apply (ok_nonces _ _ H sender l e)|congruence].
    - by rewrite lookup_insert_ne, lookup_delete_ne. }
  destruct (ok_lanes _ _ H sender l (Some e) h' El) as (tx & Et & Hs & Hn); [by right|].
  split_and!.
  - apply insert_state_ok; [|cbn; by eexists]. apply put_lane_ok; [done|by rewrite Hat|by rewrite Hat|].
    intros n x x'. cbn. destruct (decide (e = n)) as [<-|Hne]; [by rewrite lookup_delete_eq|].
    rewrite lookup_insert_ne, lookup_delete_ne by done. by apply (ok_nonces _ _ H sender l n).
  - exists tx, l', (Some e). cbn. rewrite Hs, lookup_insert_eq. split_and!; try done. apply lookup_insert_eq.
  - intros x (tx' & l0 & n & E & Hn' & E0 & Hx). destruct (decide (idcom (attestation tx') = sender)) as [Hs'|Hne].
    + exists tx', l', n. cbn. rewrite Hs', lookup_insert_eq. split_and!; try done. apply Hexec.
      rewrite Hs', El in E0. by injection E0 as ->.
    + exists tx', l0, n. cbn. by rewrite lookup_insert_ne.
Qed.

Lemma promote_loop_ok fuel p sender acc :
  pool_ok T p -> Forall (exec_entry p) acc ->
  let '(p', hs) := promote_loop fuel p sender acc in pool_ok T p' /\ Forall (exec_entry p') hs.
Proof.
  revert p acc. induction fuel as [|fuel IH]; intros p acc H Hacc; cbn; [done|].
  destruct (promote_next p sender) as [[p' h]|] eqn:E; [|done].
  destruct (promote_next_ok p sender p' h H E) as (H' & Hh & Hmono). apply IH; [done|].
  apply Forall_app. split; [|by constructor]. eapply Forall_impl; [exact Hacc|done].
Qed.

Lemma promote_loop_exec fuel p sender acc :
  pool_ok T p -> forall h, exec_entry p h -> exec_entry (fst (promote_loop fuel p sender acc)) h.
Proof.
  revert p acc. induction fuel as [|fuel IH]; intros p acc H h Hh; cbn; [done|].
  destruct (promote_next p sender) as [[p' x]|] eqn:E; [|done].
  destruct (promote_next_ok p sender p' x H E) as (H' & _ & Hmono). by apply IH; [|apply Hmono].
Qed.

Lemma promote_future_ready_ok p sender : pool_ok T p -> pool_ok T (promote_future_ready_locked p sender).
Proof.
  intros H. unfold promote_future_ready_locked.
  pose proof (promote_loop_ok (S (size (default ∅ (future <$> senders p !! sender)))) p sender [] H (Forall_nil_2 _)) as Hp.
  destruct (promote_loop _ _ _ _) as [p' hs]. destruct Hp. by apply enqueue_all_ok.
Qed.

(** ** The chain *)

Lemma elem_of_stale m c h : h ∈ stale_hashes m c <-> exists n, m !! n = Some h /\ n < c.
Proof.
  unfold stale_hashes. rewrite list_elem_of_In, in_map_iff. split.
  - intros ([n x] & <- & [Hin Hlt]%List.filter_In). exists n. cbn in *. split; [|lia].
    by apply elem_of_entries, list_elem_of_In.
  - intros (n & E & Hlt). exists (n, h). split; [done|]. apply List.filter_In. cbn. split; [|lia].
    by apply list_elem_of_In, elem_of_entries.
Qed.

Lemma keep_fresh_lookup (m : gmap Z Hash) c n h : keep_fresh m c !! n = Some h <-> m !! n = Some h /\ c <= n.
Proof. unfold keep_fresh. by rewrite map_lookup_filter_Some. Qed.

Lemma sync_sender_lane_ok slot p sender c :
  pool_ok T p -> pool_ok T (sync_sender_lane_to_chain_locked slot p sender c).
Proof.
  intros H. unfold sync_sender_lane_to_chain_locked. destruct (senders p !! sender) as [l|] eqn:El; [|done].
  destruct (c <=? onchain_nonce l); [done|].
  set (D := stale_hashes (ready l) c ++ stale_hashes (future l) c). set (l' := {| onchain_nonce := c; ready := _ |}).
  apply drop_empty_lane_ok, promote_future_ready_ok.
  assert (forall h, h ∈ D <-> exists n, located l (Some n) h /\ n < c) as HD.
  { intros h. unfold D. rewrite elem_of_app, !elem_of_stale. cbn. naive_solver. }
  assert (forall n h, located l (Some n) h -> h ∉ D <-> c <= n) as Hfresh.
  { intros n h Hl. rewrite HD. split.
    - intros Hn. destruct (decide (c <= n)); [done|]. destruct Hn. exists n. split; [done|lia].
    - intros Hc (n' & Hl' & Hlt).
      destruct (entry_of_fun _ _ _ _ _ _ (ok_lanes _ _ H sender l (Some n) h El Hl) (ok_lanes _ _ H sender l (Some n') h El Hl')) as [_ [= ->]].
      lia. }
  apply (pool_ok_lane_drop p _ sender l l' D H El (drop_hashes_drops _ _)).
  - intros h (n & Hn & _)%HD. by exists (Some n).
  - intros n h. cbn. rewrite keep_fresh_lookup. split; intros [Hr Hx]; (split; [done|]); by apply (Hfresh n h); [left|].
  - intros n h. cbn. rewrite keep_fresh_lookup. split; intros [Hr Hx]; (split; [done|]); by apply (Hfresh n h); [right|].
  - intros h. cbn. split; [|tauto]. intros Hu. split; [done|]. intros (n & Hn & _)%HD.
    by destruct (entry_of_fun _ _ _ _ _ _ (ok_lanes _ _ H sender l None h El Hu) (ok_lanes _ _ H sender l (Some n) h El Hn)).
Qed.

(** ** Operations that add no entry *)

Definition keeps (p p' : PoolState) : Prop := (pool_ok T p -> pool_ok T p') /\ pending p' ⊆ pending p.

Lemma keeps_refl p : keeps p p.
Proof. by split. Qed.

Lemma keeps_trans p1 p2 p3 : keeps p1 p2 -> keeps p2 p3 -> keeps p1 p3.
Proof. intros [H1 S1] [H2 S2]. split; [auto|by trans (pending p2)]. Qed.

Lemma keeps_foldl {A} (f : PoolState -> A -> PoolState) l p :
  (forall p x, keeps p (f p x)) -> keeps p (foldl f p l).
Proof.
  intros Hf. revert p. induction l as [|x l IH]; intros p; cbn; [apply keeps_refl|]. by apply keeps_trans with (f p x).
Qed.

Lemma promote_next_pending p sender p' h : promote_next p sender = Some (p', h) -> pending p' = pending p.
Proof.
  unfold promote_next. destruct (senders p !! sender); cbn [mbind option_bind]; [|done].
  destruct (lane_blocked _ _ _); [done|]. destruct (_ !! _); cbn [mbind option_bind]; [|done]. by intros [= <- _].
Qed.

Lemma promote_loop_pending fuel p sender acc : pending (fst (promote_loop fuel p sender acc)) = pending p.
Proof.
  revert p acc. induction fuel as [|fuel IH]; intros p acc; cbn; [done|].
  destruct (promote_next p sender) as [[p' h]|] eqn:E; [|done]. rewrite IH. by apply promote_next_pending in E.
Qed.

Lemma enqueue_all_pending hs p : pending (foldl enqueue_ready_hash_locked p hs) = pending p.
Proof. revert p. induction hs as [|h hs IH]; intros p; cbn; [done|]. rewrite IH. apply enqueue_frame. Qed.

Lemma enqueue_all_senders hs p : senders (foldl enqueue_ready_hash_locked p hs) = senders p.
Proof. revert p. induction hs as [|h hs IH]; intros p; cbn; [done|]. rewrite IH. apply enqueue_frame. Qed.

Lemma promote_pending p sender : pending (promote_future_ready_locked p sender) = pending p.
Proof.
  unfold promote_future_ready_locked.
  pose proof (promote_loop_pending (S (size (default ∅ (future <$> senders p !! sender)))) p sender []) as E.
  destruct (promote_loop _ _ _ _) as [p' hs]. by rewrite enqueue_all_pending.
Qed.

Lemma promote_keeps p sender : keeps p (promote_future_ready_locked p sender).
Proof. split; [apply promote_future_ready_ok|]. by rewrite promote_pending. Qed.

Lemma drop_empty_pending p sender : pending (drop_empty_lane p sender) = pending p.
Proof. unfold drop_empty_lane. by repeat case_match. Qed.

Lemma drop_empty_keeps p sender : keeps p (drop_empty_lane p sender).
Proof. split; [apply drop_empty_lane_ok|]. by rewrite drop_empty_pending. Qed.

Lemma drops_subset p p' l : drops p p' l -> pending p' ⊆ pending p.
Proof.
  intros H. apply map_subseteq_spec. intros h tx. rewrite (ds_pending _ _ _ H). by case_bool_decide.
Qed.

Lemma drop_hashes_subset p sender l D : pending (drop_hashes (put_lane p sender l) D) ⊆ pending p.
Proof. exact (drops_subset _ _ _ (drop_hashes_drops (put_lane p sender l) D)). Qed.

Lemma sync_sender_lane_keeps slot p sender c : keeps p (sync_sender_lane_to_chain_locked slot p sender c).
Proof.
  split; [apply sync_sender_lane_ok|]. unfold sync_sender_lane_to_chain_locked.
  destruct (senders p !! sender) as [l|]; [|done]. destruct (_ <=? _); [done|].
  rewrite drop_empty_pending, promote_pending. apply drop_hashes_subset.
Qed.

Lemma evict_stale_slot_keeps p sender slot : keeps p (evict_stale_slot_txs_locked p sender slot).
Proof.
  unfold evict_stale_slot_txs_locked. set (cutoff := u64_saturating_sub slot _).
  destruct (senders p !! sender) as [l|] eqn:El; [|apply keeps_refl].
  set (D := List.filter _ _). case_bool_decide as HD; [apply keeps_refl|clear HD].
  set (l' := {| onchain_nonce := onchain_nonce l; ready := _ |}).
  split; [|rewrite drop_empty_pending, promote_pending; apply drop_hashes_subset].
  intros H. apply drop_empty_lane_ok, promote_future_ready_ok.
  apply (pool_ok_lane_drop p _ sender l l' D H El (drop_hashes_drops _ _)).
  - intros h Hh. apply list_elem_of_In, List.filter_In in Hh as [[Hh|Hh]%in_app_iff _];
      apply in_map_iff in Hh as ([n x] & <- & Hin%list_elem_of_In%elem_of_entries); exists (Some n); [by left|by right].
  - intros n h. cbn. by rewrite map_lookup_filter_Some.
  - intros n h. cbn. by rewrite map_lookup_filter_Some.
  - intros h. cbn. split; [|tauto]. intros Hu. split; [done|]. intros Hh.
    apply list_elem_of_In, List.filter_In in Hh as [Hh _].
    assert (exists n, located l (Some n) h) as [n Hn].
    { apply in_app_iff in Hh as [Hh|Hh]; apply in_map_iff in Hh as ([n x] & <- & Hin%list_elem_of_In%elem_of_entries);
        exists n; [by left|by right]. }
    by destruct (entry_of_fun _ _ _ _ _ _ (ok_lanes _ _ H sender l None h El Hu) (ok_lanes _ _ H sender l (Some n) h El Hn)).
Qed.

Lemma sync_one_keeps slot s p sender : keeps p (sync_one slot s p sender).
Proof.
  unfold sync_one. eapply keeps_trans; [apply sync_sender_lane_keeps|].
  destruct (100 <? slot); [apply evict_stale_slot_keeps|apply keeps_refl].
Qed.

(** The queue may lose what is not ready; nothing else of the pool changes. *)
Lemma set_ready_keeps p q m :
  m ⊆ ready_members p -> (forall h, h ∈ m -> h ∈ ready_queue p -> h ∈ q) -> keeps p (set_ready p q m).
Proof.
  intros Hm Hq. split; [|done]. intros H.
  split; [apply (ok_pending _ _ H)|apply (ok_states _ _ H)|apply (ok_lanes _ _ H)|apply (ok_nonces _ _ H)|apply (ok_placed _ _ H)|].
  intros h Hh. cbn in *. destruct (ok_members _ _ H h) as [Hq' Hx]; [set_solver|]. split; [by apply Hq|done].
Qed.

Lemma compact_keeps p : keeps p (compact_ready_queue_locked p).
Proof.
  unfold compact_ready_queue_locked. destruct (_ <=? _); [apply keeps_refl|]. apply set_ready_keeps; [done|].
  intros h Hm Hq. by apply list_elem_of_filter.
Qed.

Lemma set_sync_slot_keeps p x : keeps p (set_sync_slot p x).
Proof.
  split; [|done]. intros H.
  split; [apply (ok_pending _ _ H)|apply (ok_states _ _ H)|apply (ok_lanes _ _ H)|apply (ok_nonces _ _ H)|apply (ok_placed _ _ H)|apply (ok_members _ _ H)].
Qed.

Lemma sync_all_lanes_keeps order slot view p : keeps p (sync_all_sender_lanes_to_chain_locked order slot view p).
Proof.
  unfold sync_all_sender_lanes_to_chain_locked. destruct view as [s|]; [|apply keeps_refl].
  case_bool_decide; [apply compact_keeps|].
  eapply keeps_trans; [apply (keeps_foldl (sync_one slot s) order); intros; apply sync_one_keeps|].
  eapply keeps_trans; [apply set_sync_slot_keeps|apply compact_keeps].
Qed.

Lemma remove_hash_keeps p h : keeps p (remove_hash_from_ready_queue p h).
Proof.
  assert (remove_hash_from_ready_queue p h = set_ready p (ready_queue (remove_hash_from_ready_queue p h)) (ready_members p ∖ {[h]})) as ->
    by (unfold remove_hash_from_ready_queue; by destruct (_ && _ && _)).
  apply set_ready_keeps; [set_solver|]. intros x Hx Hq. apply remove_hash_queue; [by rewrite remove_hash_members|done].
Qed.

Lemma insert_state_keeps p h x : is_Some (pending p !! h) -> keeps p (insert_state p h x).
Proof. intros Hh. split; [|done]. intros H. by apply insert_state_ok. Qed.

(** ** Removal of one transaction *)

Lemma remove_from_lane_pending p tx h : pending (remove_from_sender_lane_locked p tx h) = pending p.
Proof. unfold remove_from_sender_lane_locked. by repeat case_match. Qed.

(** The entry leaves the pool, its lane and the ready set, in any order. *)
Lemma take_entry_ok p p' tx h :
  pool_ok T p -> pending p !! h = Some tx -> ready_queue p' = ready_queue p -> ready_members p' = ready_members p ∖ {[h]} ->
  pending p' = delete h (pending p) -> tx_states p' = delete h (tx_states p) ->
  senders p' = senders (remove_from_sender_lane_locked p tx h) -> pool_ok T p'.
Proof.
  intros H Eh Eq Em Ep Es Esd. destruct (ok_pending _ _ H h tx Eh) as (_ & _ & n & Hn).
  set (sender := idcom (attestation tx)). assert (entry_of p sender n h) as He by (by exists tx).
  destruct (ok_placed _ _ H sender n h He) as (l & El & Hl).
  assert (forall k x, n = Some k -> ready l !! k = Some x \/ future l !! k = Some x -> x = h) as Huniq.
  { intros k x -> Hx. cbn in Hl. destruct Hx as [Hx|Hx], Hl as [Hl|Hl]; try congruence;
      [by apply (ok_nonces _ _ H sender l k)|symmetry; by apply (ok_nonces _ _ H sender l k)]. }
  assert (forall m, located l m h -> m = n) as Hat.
  { intros m Hm. by destruct (entry_of_fun _ _ _ _ _ _ (ok_lanes _ _ H sender l m h El Hm) He). }
  set (l' := match n with
    | Some k => {| onchain_nonce := onchain_nonce l; ready := delete k (ready l); future := delete k (future l);
                   unordered := unordered l; future_only_since_slot := future_only_since_slot l |}
    | None => {| onchain_nonce := onchain_nonce l; ready := ready l; future := future l;
                 unordered := unordered l ∖ {[h]}; future_only_since_slot := future_only_since_slot l |} end).
  assert (senders p' = if lane_is_empty l' then delete sender (senders p) else <[sender := l']> (senders p)) as Es'.
  { rewrite Esd. unfold remove_from_sender_lane_locked. fold sender. rewrite El, Hn. unfold l'. destruct n as [k|]; by case_match. }
  assert ((forall m x, ready l' !! m = Some x <-> ready l !! m = Some x /\ x <> h) /\
          (forall m x, future l' !! m = Some x <-> future l !! m = Some x /\ x <> h) /\
          (forall x, x ∈ unordered l' <-> x ∈ unordered l /\ x <> h)) as (Hr & Hf & Hu).
  { unfold l'. destruct n as [k|]; cbn.
    - split_and!.
      + intros m x. rewrite lookup_delete_Some. split; intros [H1 H2]; split; try done.
        * intros ->. destruct H1. by assert (Some m = Some k) as [= ->] by (apply Hat; by left).
        * intros <-. destruct H2. apply (Huniq k); [done|by left].
      + intros m x. rewrite lookup_delete_Some. split; intros [H1 H2]; split; try done.
        * intros ->. destruct H1. by assert (Some m = Some k) as [= ->] by (apply Hat; by right).
        * intros <-. destruct H2. apply (Huniq k); [done|by right].
      + intros x. split; [|tauto]. intros Hx. split; [done|]. intros ->. by assert (None = Some k) by (by apply Hat).
    - split_and!.
      + intros m x. split; [|tauto]. intros Hx. split; [done|]. intros ->. by assert (Some m = None) by (apply Hat; by left).
      + intros m x. split; [|tauto]. intros Hx. split; [done|]. intros ->. by assert (Some m = None) by (apply Hat; by right).
      + set_solver. }
  apply (pool_ok_dropped p p' sender (fun x => x = h)); [done|]. split.
  - intros x. rewrite Ep. split; [intros ->; apply lookup_delete_eq|intros Hx; by apply lookup_delete_ne].
  - intros x. rewrite Es. split; [intros ->; apply lookup_delete_eq|intros Hx; by apply lookup_delete_ne].
  - intros x Hx. rewrite Em in Hx. rewrite Eq. split_and!; [set_solver|set_solver|]. apply (ok_members _ _ H). set_solver.
  - intros s Hs. rewrite Es'. case_match; [by apply lookup_delete_ne|by apply lookup_insert_ne].
  - intros x ->. by exists l, n.
  - intros l0 E0. exists l. rewrite Es' in E0. case_match; [by rewrite lookup_delete_eq in E0|].
    rewrite lookup_insert_eq in E0. by injection E0 as <-.
  - intros l0 m x E0 E1 Hx. rewrite El in E1. injection E1 as <-. rewrite Es' in E0.
    destruct (lane_is_empty l') eqn:Ee; [|by rewrite lookup_insert_eq in E0].
    destruct (decide (x = h)) as [|Hne]; [done|]. exfalso. apply (lane_is_empty_located l' m x Ee).
    destruct m as [m|]; cbn in *; [rewrite Hr, Hf; naive_solver|by apply Hu].
Qed.

(** ** Writing an entry *)

(** A new entry, or another copy of a transaction that is not ready. *)
Lemma write_entry_ok p p' tx h n l' :
  let s := idcom (attestation tx) in
  pool_ok T p -> T tx -> tx_hash env_sha256 tx = h -> sender_sequence_nonce tx = Ok n -> h ∉ ready_members p ->
  (forall old, pending p !! h = Some old -> idcom (attestation old) = s /\ sender_sequence_nonce old = Ok n) ->
  pending p' = <[h := tx]> (pending p) ->
  (forall x, is_Some (tx_states p' !! x) <-> x = h \/ is_Some (tx_states p !! x)) ->
  ready_queue p' = ready_queue p -> ready_members p' = ready_members p -> senders p' = <[s := l']> (senders p) ->
  (forall m x, located l' m x <-> located (lane_at p s) m x \/ (m = n /\ x = h)) ->
  (forall m x, in_ready_part (lane_at p s) m x -> in_ready_part l' m x) ->
  (forall k x y, ready l' !! k = Some x -> future l' !! k = Some y -> x = y) ->
  pool_ok T p'.
Proof.
  intros s H HT Hh Hn Hm Hold Ep Est Eq Em Es Hloc Hex Hnon.
  assert (forall s0 m x, entry_of p s0 m x -> entry_of p' s0 m x) as Hold'.
  { intros s0 m x (tx0 & E & Hs & Hm0). destruct (decide (x = h)) as [->|Hne].
    - destruct (Hold tx0 E) as [H1 H2]. exists tx. rewrite Ep, lookup_insert_eq. split_and!; [done|by rewrite <-Hs, H1|].
      rewrite H2 in Hm0. by injection Hm0 as <-.
    - exists tx0. by rewrite Ep, lookup_insert_ne. }
  split.
  - intros x tx0. rewrite Ep. intros [[<- <-]|[_ E]]%lookup_insert_Some; [by split_and!; [|done|exists n]|by apply (ok_pending _ _ H)].
  - intros x. rewrite Est, Ep. destruct (decide (h = x)) as [<-|Hne].
    + rewrite lookup_insert_eq. split; [by eexists|by left].
    + rewrite lookup_insert_ne, <-(ok_states _ _ H) by done. naive_solver.
  - intros s0 l m x. rewrite Es. intros [[<- <-]|[_ E]]%lookup_insert_Some Hl.
    + apply Hloc in Hl as [(l & E & Hl)%located_lane_at|[-> ->]].
      * apply Hold'. by apply (ok_lanes _ _ H s l).
      * exists tx. by rewrite Ep, lookup_insert_eq.
    + apply Hold'. by apply (ok_lanes _ _ H s0 l).
  - intros s0 l m x y. rewrite Es. intros [[<- <-]|[_ E]]%lookup_insert_Some; [apply Hnon|by apply (ok_nonces _ _ H s0)].
  - intros s0 m x (tx0 & E & Hs & Hm0). rewrite Ep in E. rewrite Es.
    apply lookup_insert_Some in E as [[<- <-]|[Hne E]].
    + exists l'. fold s in Hs. rewrite <-Hs, lookup_insert_eq. split; [done|]. apply Hloc. right.
      rewrite Hn in Hm0. by injection Hm0 as <-.
    + destruct (ok_placed _ _ H s0 m x) as (l & El & Hl); [by exists tx0|].
      destruct (decide (s = s0)) as [<-|Hs0]; [|exists l; by rewrite lookup_insert_ne].
      exists l'. rewrite lookup_insert_eq. split; [done|]. apply Hloc. left. apply located_lane_at. by exists l.
  - intros x. rewrite Em, Eq. intros Hx. destruct (ok_members _ _ H x Hx) as (Hq & tx0 & l & m & E & Hst & Hm0 & El & He).
    split; [done|]. exists tx0. rewrite Ep, Es. assert (h <> x) by (by intros ->). rewrite lookup_insert_ne by done.
    destruct (decide (s = idcom (attestation tx0))) as [E0|Hs0].
    + exists l', m. rewrite <-E0, lookup_insert_eq. split_and!; try done. apply Hex. apply ready_part_lane_at with l; [by rewrite E0|done].
    + exists l, m. by rewrite lookup_insert_ne.
Qed.

Lemma new_not_member p h : pool_ok T p -> pending p !! h = None -> h ∉ ready_members p.
Proof. intros H E Hm. destruct (ok_members _ _ H h Hm) as (_ & tx & l & n & E' & _). congruence. Qed.

Lemma stripped_not_member p h tx :
  pool_ok T p -> pending p !! h = Some tx -> is_credential_stripped tx = true -> h ∉ ready_members p.
Proof. intros H E Hst Hm. destruct (ok_members _ _ H h Hm) as (_ & tx' & l & n & E' & Hst' & _). congruence. Qed.

Lemma insert_states_dom (m : gmap Hash TxMempoolState) h y x : is_Some (<[h := y]> m !! x) <-> x = h \/ is_Some (m !! x).
Proof. rewrite lookup_insert_is_Some'. naive_solver. Qed.

(** *** An insertion after its checks *)

Lemma entry_lane_at p s c n h :
  (located (entry_lane p s c) n h <-> located (lane_at p s) n h) /\
  (in_ready_part (entry_lane p s c) n h <-> in_ready_part (lane_at p s) n h) /\
  ready (entry_lane p s c) = ready (lane_at p s) /\ future (entry_lane p s c) = future (lane_at p s) /\
  unordered (entry_lane p s c) = unordered (lane_at p s).
Proof. unfold entry_lane, lane_at. destruct (senders p !! s); destruct n; done. Qed.

Lemma put_entry_lane_ok p s c : pool_ok T p -> pool_ok T (put_lane p s (entry_lane p s c)).
Proof.
  intros H. apply put_lane_ok; [done| | |].
  - intros n h. apply entry_lane_at.
  - intros n h. apply entry_lane_at.
  - intros n h h'. destruct (entry_lane_at p s c None 0) as (_ & _ & -> & -> & _). by apply nonces_lane_at.
Qed.

Lemma lane_at_put p s l : lane_at (put_lane p s l) s = l.
Proof. unfold lane_at. cbn. by rewrite lookup_insert_eq. Qed.

Lemma put_put_lane p s l l' : put_lane (put_lane p s l) s l' = put_lane p s l'.
Proof. unfold put_lane, set_senders. cbn. by rewrite insert_insert_eq. Qed.

(** The transaction with the next nonce. *)
Lemma insert_ready_ok p tx h k l x :
  let s := idcom (attestation tx) in
  pool_ok T p -> T tx -> tx_hash env_sha256 tx = h -> sender_sequence_nonce tx = Ok (Some k) ->
  h ∉ ready_members p ->
  (forall old, pending p !! h = Some old -> idcom (attestation old) = s /\ sender_sequence_nonce old = Ok (Some k)) ->
  senders p !! s = Some l -> (forall y, located l (Some k) y -> y = h) ->
  let l' since := {| onchain_nonce := onchain_nonce l; ready := <[k := h]> (ready l); future := future l;
                     unordered := unordered l; future_only_since_slot := since |} in
  forall since, let p' := put_lane (insert_state (set_pending p (<[h := tx]> (pending p))) h x) s (l' since) in
  pool_ok T p' /\ exec_entry p' h.
Proof.
  intros s H HT Hh Hn Hm Hold El Huniq l' since p'.
  assert (lane_at p s = l) as Hat by (unfold lane_at; by rewrite El). split.
  - apply (write_entry_ok p p' tx h (Some k) (l' since)); try done.
    + intros y. cbn. apply insert_states_dom.
    + intros m y. fold s. rewrite Hat. destruct m as [m|]; cbn; [|naive_solver].
      destruct (decide (k = m)) as [<-|Hne]; [rewrite lookup_insert_eq|rewrite lookup_insert_ne by done; naive_solver].
      split; [intros [[= <-]|Hf]; [by right|by left; right]|].
      intros [[Hr|Hf]|[_ ->]]; [left; f_equal; symmetry; apply Huniq; by left|by right|by left].
    + intros m y. fold s. rewrite Hat. destruct m as [m|]; cbn; [|done]. intros Hr.
      destruct (decide (k = m)) as [<-|Hne]; [|by rewrite lookup_insert_ne].
      rewrite lookup_insert_eq. f_equal. symmetry. apply Huniq. by left.
    + intros m y z. cbn. destruct (decide (k = m)) as [<-|Hne].
      * rewrite lookup_insert_eq. intros [= <-] Hf. symmetry. apply Huniq. by right.
      * rewrite lookup_insert_ne by done. by apply (ok_nonces _ _ H s l m).
  - exists tx, (l' since), (Some k). cbn. fold s. rewrite !lookup_insert_eq. done.
Qed.

Lemma overload_frame mp n :
  pool (fst (admission_overload_error mp n)) = pool mp /\ config (fst (admission_overload_error mp n)) = config mp.
Proof.
  unfold admission_overload_error. destruct (default _ _) as [high low]. by repeat case_match.
Qed.

(** A transaction for later, or one without a nonce: nothing becomes ready here. *)
Lemma insert_waiting_ok p tx h n l' x :
  let s := idcom (attestation tx) in
  pool_ok T p -> T tx -> tx_hash env_sha256 tx = h -> sender_sequence_nonce tx = Ok n -> pending p !! h = None ->
  (forall m y, located l' m y <-> located (lane_at p s) m y \/ (m = n /\ y = h)) ->
  (forall m y, in_ready_part (lane_at p s) m y -> in_ready_part l' m y) ->
  (forall k y z, ready l' !! k = Some y -> future l' !! k = Some z -> y = z) ->
  pool_ok T (set_pending (insert_state (put_lane p s l') h x) (<[h := tx]> (pending p))).
Proof.
  intros s H HT Hh Hn E Hloc Hex Hnon. eapply (write_entry_ok p _ tx h n l'); try done.
  - by apply new_not_member.
  - intros old. by rewrite E.
  - intros y. cbn. apply insert_states_dom.
Qed.

(** What an attempt to insert leaves behind. *)
Definition inserted (mp mp' : Mempool) (tx : Transaction) (h : Hash) (ok : bool) : Prop :=
  config mp' = config mp /\ pool_ok T (pool mp') /\
  pending (pool mp') = if ok then <[h := tx]> (pending (pool mp)) else pending (pool mp).

Lemma insert_validated_ok mp tx h n c bypass :
  pool_ok T (pool mp) -> pending (pool mp) !! h = None -> T tx -> tx_hash env_sha256 tx = h ->
  sender_sequence_nonce tx = Ok n ->
  let '(mp', r) := insert_validated_locked mp tx h (idcom (attestation tx)) n c bypass in
  inserted mp mp' tx h (match r with Ok _ => true | Err _ => false end).
Proof.
  intros H E HT Hh Hn. unfold insert_validated_locked. set (s := idcom (attestation tx)).
  set (l := entry_lane (pool mp) s c). set (p1 := put_lane (pool mp) s l).
  assert (pool_ok T p1) as H1 by (by apply put_entry_lane_ok).
  assert (lane_at p1 s = l) as Hat by apply lane_at_put.
  assert (h ∉ ready_members p1) as Hm by (by apply new_not_member).
  assert (forall k y z, ready l !! k = Some y -> future l !! k = Some z -> y = z) as Hnl.
  { intros k y z. unfold l. destruct (entry_lane_at (pool mp) s c None 0) as (_ & _ & -> & -> & _). by apply nonces_lane_at. }
  destruct (_ <=? total_count l); [done|]. destruct n as [k|].
  - destruct (bool_decide _ || bool_decide _) eqn:Econf; [done|].
    apply orb_false_iff in Econf as [Er%bool_decide_eq_false Ef%bool_decide_eq_false].
    apply eq_None_not_Some in Er, Ef.
    destruct (k <? _); [done|]. destruct (k =? _).
    + destruct (insert_ready_ok p1 tx h k l (if is_credential_stripped tx then ParkedStrippedCredential else ReadyExecutable)
        H1 HT Hh Hn Hm) with (since := @None Z) as [H2 Hx].
      * intros old. by change (pending p1) with (pending (pool mp)); rewrite E.
      * unfold p1. cbn. apply lookup_insert_eq.
      * intros y [Hy|Hy]; congruence.
      * split; [done|]. fold s in H2, Hx. split; [apply promote_future_ready_ok; by apply enqueue_ok|].
        cbn. rewrite promote_pending, (proj1 (enqueue_frame _ _)). done.
    + destruct (_ <=? zsize (future l)); [done|]. destruct (_ <? u64_saturating_sub k _); [done|].
      split; [done|]. split; [|done]. cbn [pool set_pool].
      apply (insert_waiting_ok p1 tx h (Some k)); try done; fold s; rewrite ?Hat; cbn [ready future].
      * intros [m|] y; cbn [located ready future unordered]; [|naive_solver].
        destruct (decide (k = m)) as [<-|Hne]; [rewrite lookup_insert_eq; naive_solver|rewrite lookup_insert_ne by done; naive_solver].
      * intros [m|] y; done.
      * intros m y z. destruct (decide (k = m)) as [<-|Hne]; [by rewrite Er|rewrite lookup_insert_ne by done]. apply Hnl.
  - set (ov := if bypass then _ else _).
    assert (pool (fst ov) = p1 /\ config (fst ov) = config mp) as [Ep Ec].
    { unfold ov. destruct bypass; [done|]. by destruct (overload_frame (set_pool mp p1) (zsize (pending p1))). }
    destruct ov as [mp2 [e|]]; cbn [fst] in Ep, Ec.
    + split; [done|]. by rewrite Ep.
    + split; [done|]. split; [|by destruct (is_credential_stripped tx); [|cbn; rewrite (proj1 (enqueue_frame _ _))]].
      cbn [pool set_pool]. clear Ep Ec mp2.
      set (l' := {| onchain_nonce := onchain_nonce l; ready := ready l; future := future l; unordered := _ |}).
      assert (forall x, pool_ok T (set_pending (insert_state (put_lane p1 s l') h x) (<[h := tx]> (pending p1)))) as H2.
      { intros x. apply (insert_waiting_ok p1 tx h None); try done; fold s; rewrite ?Hat; cbn.
        - intros [m|] y; cbn; [naive_solver|set_solver].
        - intros [m|] y; cbn; set_solver. }
      destruct (is_credential_stripped tx) eqn:Est; [apply H2|].
      assert (forall q, pending q = pending p1 ->
        set_pending (enqueue_ready_hash_locked q h) (<[h := tx]> (pending (enqueue_ready_hash_locked q h))) =
        enqueue_ready_hash_locked (set_pending q (<[h := tx]> (pending q))) h) as Eq.
      { intros q Eq. unfold enqueue_ready_hash_locked, is_stripped_entry. rewrite Eq. cbn.
        change (pending p1) with (pending (pool mp)). rewrite E, lookup_insert_eq, Est. by case_bool_decide; cbn; rewrite Eq. }
      rewrite Eq by done. apply enqueue_ok; [apply H2|].
      exists tx, l', None. cbn. fold s. rewrite !lookup_insert_eq. split_and!; try done. set_solver.
Qed.

Lemma remove_from_lane_frame p tx h :
  tx_states (remove_from_sender_lane_locked p tx h) = tx_states p /\
  ready_queue (remove_from_sender_lane_locked p tx h) = ready_queue p /\
  ready_members (remove_from_sender_lane_locked p tx h) = ready_members p.
Proof. unfold remove_from_sender_lane_locked. by repeat case_match. Qed.

Lemma remove_from_lane_senders p q tx h :
  senders p = senders q -> senders (remove_from_sender_lane_locked p tx h) = senders (remove_from_sender_lane_locked q tx h).
Proof. intros E. unfold remove_from_sender_lane_locked. rewrite E. repeat case_match; cbn; by rewrite ?E. Qed.

(** *** Removal and draining *)

Lemma remove_keeps mp h : keeps (pool mp) (pool (fst (mempool_remove mp h))).
Proof.
  unfold mempool_remove. destruct (pending (pool mp) !! h) as [tx|] eqn:E; [|apply keeps_refl]. cbn [fst pool set_pool].
  eapply keeps_trans; [|apply sync_sender_lane_keeps].
  set (p1 := remove_from_sender_lane_locked (drop_entry (pool mp) h) tx h).
  destruct (remove_hash_frame p1 h) as (E1 & E2 & E3). destruct (remove_from_lane_frame (drop_entry (pool mp) h) tx h) as (F1 & F2 & F3).
  split; [|rewrite E1; unfold p1; rewrite remove_from_lane_pending; apply delete_subseteq].
  intros H. set (p2 := set_ready p1 (ready_queue p1) (ready_members p1 ∖ {[h]})).
  assert (pool_ok T p2) as H2.
  { apply (take_entry_ok (pool mp) p2 tx h); [done|done| | | | |]; cbn; unfold p1.
    - by rewrite F2.
    - by rewrite F3.
    - by rewrite remove_from_lane_pending.
    - by rewrite F1.
    - by apply remove_from_lane_senders. }
  assert (remove_hash_from_ready_queue p1 h =
    set_ready p2 (ready_queue (remove_hash_from_ready_queue p1 h)) (ready_members p2)) as ->
    by (unfold remove_hash_from_ready_queue; by destruct (_ && _ && _)).
  refine (proj1 (set_ready_keeps p2 _ (ready_members p2) _ _) H2); [done|].
  intros x Hx Hq. apply remove_hash_queue; [rewrite remove_hash_members; exact Hx|exact Hq].
Qed.

(** The state of the loop: the queue is what is left of it. *)
Lemma drain_loop_keeps queue max p p' batch :
  drain_loop queue max p = (p', batch) -> keeps (set_ready p queue (ready_members p)) p'.
Proof.
  revert max p p' batch. induction queue as [|h queue IH]; intros max p p' batch.
  { destruct max; cbn; intros [= <- _]; apply keeps_refl. }
  destruct max as [|max]; cbn [drain_loop]; [intros [= <- _]; apply keeps_refl|].
  case_bool_decide as Hm; cbn [negb].
  - set (p1 := set_ready p (ready_queue p) (ready_members p ∖ {[h]})).
    assert (keeps (set_ready p (h :: queue) (ready_members p)) (set_ready p1 queue (ready_members p1))) as K1.
    { apply (set_ready_keeps (set_ready p (h :: queue) (ready_members p))); cbn; set_solver. }
    destruct (pending p1 !! h) as [tx|] eqn:E.
    + destruct (is_credential_stripped tx).
      * intros Hd. eapply keeps_trans; [exact K1|]. eapply keeps_trans; [|by apply (IH _ _ _ _ Hd)].
        apply (insert_state_keeps (set_ready p1 queue (ready_members p1))). by eexists.
      * set (p2 := remove_from_sender_lane_locked (drop_entry p1 h) tx h).
        destruct (drain_loop queue max p2) as [p3 rest] eqn:Hd. intros [= <- _].
        eapply keeps_trans; [exact K1|]. eapply keeps_trans; [|by apply (IH _ _ _ _ Hd)].
        destruct (remove_from_lane_frame (drop_entry p1 h) tx h) as (F1 & F2 & F3).
        split; [|cbn; unfold p2; rewrite remove_from_lane_pending; apply delete_subseteq].
        intros H. apply (take_entry_ok (set_ready p1 queue (ready_members p1)) _ tx h); [done|done|done| | | |]; cbn; unfold p2.
        -- rewrite F3. cbn. set_solver.
        -- by rewrite remove_from_lane_pending.
        -- by rewrite F1.
        -- by apply remove_from_lane_senders.
    + intros Hd. eapply keeps_trans; [exact K1|by apply (IH _ _ _ _ Hd)].
  - intros Hd. eapply keeps_trans; [|by apply (IH _ _ _ _ Hd)].
    apply (set_ready_keeps (set_ready p (h :: queue) (ready_members p))); cbn; set_solver.
Qed.

Lemma sync_all_keeps mp order : keeps (pool mp) (sync_all mp order).
Proof. apply sync_all_lanes_keeps. Qed.

Lemma set_ready_same p : set_ready p (ready_queue p) (ready_members p) = p.
Proof. by destruct p. Qed.

Lemma drain_keeps mp max order : keeps (pool mp) (pool (fst (drain_batch mp max order))).
Proof.
  unfold drain_batch. destruct (drain_loop _ _ _) as [p batch] eqn:E. cbn.
  eapply keeps_trans; [apply (sync_all_keeps mp order)|]. apply drain_loop_keeps in E. by rewrite set_ready_same in E.
Qed.

(** *** Eviction of waiting lanes *)

Lemma remark_lane_keeps p s l since :
  senders p !! s = Some l ->
  keeps p (put_lane p s {| onchain_nonce := onchain_nonce l; ready := ready l; future := future l;
                           unordered := unordered l; future_only_since_slot := since |}).
Proof.
  intros El. split; [|done]. intros H. assert (lane_at p s = l) as Hat by (unfold lane_at; by rewrite El).
  apply put_lane_ok; [done| | |]; rewrite ?Hat.
  - by intros [n|] h.
  - by intros [n|] h.
  - cbn. intros n h h'. by apply (ok_nonces _ _ H s l n).
Qed.

Lemma evict_future_lane_keeps slot p b s : keeps p (fst (evict_future_lane slot (p, b) s)).
Proof.
  unfold evict_future_lane. destruct (senders p !! s) as [l|] eqn:El; [|apply keeps_refl].
  set (only := bool_decide (ready l = ∅) && _). destruct (only && _ && _) eqn:Ev; [|by apply remark_lane_keeps].
  cbn [fst]. eapply keeps_trans; [|apply drop_empty_keeps].
  apply andb_true_iff in Ev as [[[Er%bool_decide_eq_true _]%andb_true_iff _]%andb_true_iff _].
  set (D := map snd (entries (future l))). set (p1 := foldl evict_entry p D).
  set (l' := {| onchain_nonce := onchain_nonce l; ready := ready l; future := ∅; unordered := _ |}).
  pose proof (evict_entry_drops p D) as Hd. fold p1 in Hd.
  assert (drops (put_lane p s l') (put_lane p1 s l') D) as Hd'.
  { destruct Hd as [D1 D2 D3 D4 D5]. split; [exact D1|exact D2|exact D3|exact D4|]. cbn. by rewrite D5. }
  assert (forall h, h ∈ D <-> exists n, future l !! n = Some h) as HD.
  { intros h. unfold D. rewrite list_elem_of_In, in_map_iff. split.
    - intros ([n x] & <- & Hin%list_elem_of_In%elem_of_entries). by exists n.
    - intros [n Hn]. exists (n, h). split; [done|]. by apply list_elem_of_In, elem_of_entries. }
  split; [|exact (drops_subset _ _ _ Hd')]. intros H.
  apply (pool_ok_lane_drop p _ s l l' D H El Hd').
  - intros h [n Hn]%HD. exists (Some n). by right.
  - intros n h. cbn. rewrite Er, lookup_empty. naive_solver.
  - intros n h. cbn. rewrite lookup_empty. split; [done|]. intros [Hf Hn]. destruct Hn. apply HD. by exists n.
  - intros h. cbn. split; [|tauto]. intros Hu. split; [done|]. intros [n Hn]%HD.
    destruct (entry_of_fun _ _ _ _ _ _ (ok_lanes _ _ H s l None h El Hu) (ok_lanes _ _ H s l (Some n) h El ltac:(by right))).
    done.
Qed.

Lemma evict_stale_future_keeps mp o o' : keeps (pool mp) (pool (evict_stale_future_txs mp o o')).
Proof.
  unfold evict_stale_future_txs. cbn. eapply keeps_trans; [apply (sync_all_keeps mp o)|].
  generalize FUTURE_ONLY_EVICT_PER_RUN, (sync_all mp o). induction o' as [|s o' IH]; intros b p; cbn [foldl]; [apply keeps_refl|].
  pose proof (evict_future_lane_keeps (current_slot mp) p b s) as K1.
  destruct (evict_future_lane (current_slot mp) (p, b) s) as [p1 b1]. by apply keeps_trans with p1.
Qed.

(** *** Parking *)

Lemma lane_executable_entry p tx h :
  pending p !! h = Some tx -> lane_executable p tx h = true -> exec_entry p h.
Proof.
  intros E. unfold lane_executable. destruct (sender_sequence_nonce tx) as [[n|]|] eqn:En; [| |done];
    (destruct (senders p !! idcom (attestation tx)) as [l|] eqn:El; [|done]); intros Hx%bool_decide_eq_true.
  - by exists tx, l, (Some n).
  - by exists tx, l, None.
Qed.

Lemma unpark_keeps p h : keeps p (fst (unpark p h)).
Proof.
  unfold unpark. destruct (pending p !! h) as [tx|] eqn:E.
  - destruct (is_credential_stripped tx); [apply insert_state_keeps; by eexists|].
    destruct (lane_executable p tx h) eqn:Ex; [|apply keeps_refl]. cbn [fst].
    split; [|by rewrite (proj1 (enqueue_frame _ _))]. intros H. apply enqueue_ok; [apply insert_state_ok; [done|by eexists]|].
    by apply (lane_executable_entry p tx h E Ex).
  - cbn [fst]. split; [|done]. intros H.
    split; [apply (ok_pending _ _ H)| |apply (ok_lanes _ _ H)|apply (ok_nonces _ _ H)|apply (ok_placed _ _ H)|apply (ok_members _ _ H)].
    intros x. cbn. destruct (decide (x = h)) as [->|Hne]; [rewrite lookup_delete_eq, E; done|].
    rewrite lookup_delete_ne by done. apply (ok_states _ _ H).
Qed.

Lemma park_keeps mp h r : is_Some (pending (pool mp) !! h) -> keeps (pool mp) (pool (park mp h r)).
Proof.
  intros Hh. unfold park. cbn. eapply keeps_trans; [by apply insert_state_keeps|apply remove_hash_keeps].
Qed.

(** *** Insertion *)

(** Transactions with one hash have one sender and one nonce. *)
Context (Hfile : forall a b, T a -> T b -> tx_hash env_sha256 a = tx_hash env_sha256 b ->
  idcom (attestation a) = idcom (attestation b) /\ sender_sequence_nonce a = sender_sequence_nonce b).

Lemma upgrade_ok p tx h n c old :
  pool_ok T p -> pending p !! h = Some old -> is_credential_stripped old = true ->
  T tx -> tx_hash env_sha256 tx = h -> sender_sequence_nonce tx = Ok n ->
  let p' := upgrade_locked p tx h (idcom (attestation tx)) n c in
  pool_ok T p' /\ pending p' = <[h := tx]> (pending p).
Proof.
  intros H E Hst HT Hh Hn. unfold upgrade_locked. set (s := idcom (attestation tx)).
  pose proof (stripped_not_member p h old H E Hst) as Hm.
  assert (idcom (attestation old) = s /\ sender_sequence_nonce old = Ok n) as [Hs0 Hn0].
  { destruct (ok_pending _ _ H h old E) as (HT0 & Hh0 & _). rewrite <-Hn. apply Hfile; [done|done|congruence]. }
  assert (forall old', pending p !! h = Some old' -> idcom (attestation old') = s /\ sender_sequence_nonce old' = Ok n) as Hold.
  { intros old' E'. rewrite E in E'. by injection E' as <-. }
  destruct (ok_placed _ _ H s n h) as (l & El & Hl); [by exists old|].
  assert (lane_at p s = l) as Hat by (unfold lane_at; by rewrite El).
  destruct n as [k|]; cbn [senders insert_state set_tx_states set_pending]; rewrite El; cbn [from_option id].
  - destruct (insert_ready_ok p tx h k l ReadyExecutable H HT Hh Hn Hm Hold El) with (since := future_only_since_slot l) as [H2 Hx].
    { intros y Hy. cbn in Hl. destruct Hy as [Hy|Hy], Hl as [Hl|Hl]; try congruence;
        [by apply (ok_nonces _ _ H s l k)|symmetry; by apply (ok_nonces _ _ H s l k)]. }
    fold s in H2, Hx. split; [|rewrite (proj1 (enqueue_frame _ _)), promote_pending; done].
    set (p2 := put_lane _ s _) in *.
    assert (exec_entry (promote_future_ready_locked p2 s) h) as Hx2.
    { unfold promote_future_ready_locked.
      pose proof (promote_loop_exec (S (size (default ∅ (future <$> senders p2 !! s)))) p2 s [] H2 h Hx) as Hx2.
      destruct (promote_loop _ _ _ _) as [p3 hs]. cbn [fst] in Hx2. destruct Hx2 as (tx0 & l0 & n0 & E0 & Hn1 & El0 & Hx0).
      exists tx0, l0, n0. by rewrite enqueue_all_pending, enqueue_all_senders. }
    apply enqueue_ok; [by apply promote_future_ready_ok|done].
  - set (l' := {| onchain_nonce := onchain_nonce l; ready := ready l; future := future l; unordered := _ |}).
    split; [|by rewrite (proj1 (enqueue_frame _ _))]. apply enqueue_ok.
    + apply (write_entry_ok p _ tx h None l'); try done; fold s.
      * intros y. cbn. apply insert_states_dom.
      * rewrite Hat. intros [m|] y; cbn; [naive_solver|set_solver].
      * rewrite Hat. intros [m|] y; cbn; set_solver.
      * intros m y z. cbn. by apply (ok_nonces _ _ H s l m).
    + exists tx, l', None. cbn. fold s. rewrite !lookup_insert_eq. split_and!; try done. set_solver.
Qed.

Definition mp_ok (mp : Mempool) : Prop :=
  pool_ok T (pool mp) /\ zsize (pending (pool mp)) <= max_size (config mp).

Lemma keeps_mp mp mp' : keeps (pool mp) (pool mp') -> config mp' = config mp -> mp_ok mp -> mp_ok mp'.
Proof.
  intros [Hk Hs] Ec [H Hn]. split; [auto|]. rewrite Ec. apply map_subseteq_size in Hs. unfold zsize in *. lia.
Qed.

Lemma inserted_mp mp mp' tx h ok :
  inserted mp mp' tx h ok -> zsize (pending (pool mp)) <= max_size (config mp) ->
  (ok = true -> zsize (pending (pool mp)) < max_size (config mp)) -> mp_ok mp'.
Proof.
  intros (Ec & H & Ep) Hn Hok. split; [done|]. rewrite Ep, Ec. destruct ok; [|done].
  unfold zsize in *. specialize (Hok eq_refl). rewrite map_size_insert. destruct (_ !! h); cbn [id]; lia.
Qed.

Lemma insert_new_ok mp tx h n c :
  mp_ok mp -> T tx -> tx_hash env_sha256 tx = h -> sender_sequence_nonce tx = Ok n ->
  mp_ok (fst (insert_new_locked mp tx h (idcom (attestation tx)) n c)).
Proof.
  intros H HT Hh Hn. unfold insert_new_locked. set (s := idcom (attestation tx)).
  set (p1 := sync_sender_lane_to_chain_locked _ _ _ _).
  assert (mp_ok (set_pool mp p1)) as H1 by (apply (keeps_mp mp); [apply sync_sender_lane_keeps|done|done]).
  case_bool_decide as Eh; [done|]. apply eq_None_not_Some in Eh.
  destruct (_ <=? zsize (pending p1)) eqn:Es; [done|]. apply Z.leb_gt in Es.
  set (lane := senders p1 !! s). set (next := match lane with Some l => _ | None => c end).
  set (gap := match lane with Some l => _ | None => false end). set (ready_now := bool_decide (n = Some next)).
  set (ov := if gap || _ then _ else _).
  assert (pool (fst ov) = p1 /\ config (fst ov) = config mp) as [Ep Ec].
  { unfold ov. destruct (gap || _); [done|]. by destruct (overload_frame (set_pool mp p1) (zsize (pending p1))). }
  destruct ov as [mp2 [e|]]; cbn [fst] in *.
  - split; [rewrite Ep; apply H1|]. rewrite Ep, Ec. apply H1.
  - pose proof (insert_validated_ok mp2 tx h n c false) as Hi. fold s in Hi. rewrite Ep in Hi.
    specialize (Hi (proj1 H1) Eh HT Hh Hn). destruct (insert_validated_locked mp2 tx h s n c false) as [mp3 r].
    assert (mp_ok mp3); [|by destruct r].
    apply (inserted_mp mp2 mp3 tx h _ Hi); rewrite Ep, Ec; [apply H1|intros _; exact Es].
Qed.

Lemma insert_locked_ok mp tx h n up c :
  mp_ok mp -> T tx -> tx_hash env_sha256 tx = h -> sender_sequence_nonce tx = Ok n ->
  mp_ok (fst (insert_locked mp tx h (idcom (attestation tx)) n up c)).
Proof.
  intros H HT Hh Hn. unfold insert_locked. destruct up; [|by apply insert_new_ok].
  destruct (pending (pool mp) !! h) as [old|] eqn:E; [|by apply insert_new_ok].
  destruct (is_credential_stripped old) eqn:Est; [|done]. cbn [fst].
  destruct (upgrade_ok (pool mp) tx h n c old (proj1 H) E Est HT Hh Hn) as [H1 E1]. split; [done|].
  cbn. rewrite E1. unfold zsize. rewrite map_size_insert_Some by by eexists. apply H.
Qed.

Lemma insert_checks_nonce mp tx skip n : insert_checks mp tx skip = Ok n -> sender_sequence_nonce tx = Ok n.
Proof.
  unfold insert_checks.
  do 3 (match goal with |- rbind ?x _ = _ -> _ => destruct x; cbn [rbind]; [|done] end).
  destruct (_ && _); [done|]. destruct (sender_sequence_nonce tx) as [n'|]; cbn [rbind]; [|done].
  match goal with |- rbind ?x _ = _ -> _ => destruct x; cbn [rbind]; [|done] end. by intros [= <-].
Qed.

Lemma insert_inner_ok mp tx skip : mp_ok mp -> T tx -> mp_ok (fst (insert_inner mp tx skip)).
Proof.
  intros H HT. unfold insert_inner. destruct (insert_checks mp tx skip) as [n|e] eqn:E; [|done].
  apply insert_locked_ok; [done|done|done|]. by apply insert_checks_nonce in E.
Qed.

(** *** Requeueing *)

Lemma requeue_one_ok mp tx mp' b :
  mp_ok mp -> T tx -> pending (pool mp) !! tx_hash env_sha256 tx = None ->
  zsize (pending (pool mp)) < max_size (config mp) -> requeue_one mp tx = (mp', b) ->
  mp_ok mp' /\ (b = true -> is_Some (pending (pool mp') !! tx_hash env_sha256 tx)).
Proof.
  intros H HT E Hs. unfold requeue_one. destruct (sender_sequence_nonce tx) as [n|e] eqn:Hn; [|by intros [= <- <-]].
  set (c := sender_onchain_nonce mp _). set (p1 := sync_sender_lane_to_chain_locked _ _ _ _).
  pose proof (sync_sender_lane_keeps (current_slot mp) (pool mp) (idcom (attestation tx)) c) as Hk. fold p1 in Hk.
  assert (pending p1 !! tx_hash env_sha256 tx = None) as E1 by (eapply lookup_weaken_None; [exact E|apply Hk]).
  assert (mp_ok (set_pool mp p1)) as H1 by (by apply (keeps_mp mp)).
  pose proof (map_subseteq_size _ _ (proj2 Hk)) as Hsz.
  pose proof (insert_validated_ok (set_pool mp p1) tx _ n c true (proj1 H1) E1 HT eq_refl Hn) as Hi.
  destruct (insert_validated_locked _ _ _ _ _ _ _) as [mp2 r]. intros [= <- <-]. split.
  - apply (inserted_mp _ _ _ _ _ Hi); [apply H1|]. intros _. cbn. unfold zsize in *. lia.
  - intros Hr. destruct Hi as (_ & _ & ->). rewrite Hr, lookup_insert_eq. by eexists.
Qed.

Lemma requeue_loop_ok txs mp : mp_ok mp -> (forall tx, tx ∈ txs -> T tx) -> mp_ok (requeue_loop mp txs).
Proof.
  revert mp. induction txs as [|tx txs IH]; intros mp H HT; cbn; [done|].
  destruct (_ <=? _) eqn:Es; [done|]. apply Z.leb_gt in Es.
  case_bool_decide as Eh; [apply IH; [done|set_solver]|]. apply eq_None_not_Some in Eh.
  destruct (requeue_one mp tx) as [mp' b] eqn:Er. apply IH; [|set_solver].
  by apply (requeue_one_ok mp tx mp' b); [|apply HT; left| | |].
Qed.

Lemma requeue_parked_loop_ok txs r mp : mp_ok mp -> (forall tx, tx ∈ txs -> T tx) -> mp_ok (requeue_parked_loop mp txs r).
Proof.
  revert mp. induction txs as [|tx txs IH]; intros mp H HT; cbn; [done|].
  destruct (_ <=? _) eqn:Es; [done|]. apply Z.leb_gt in Es. case_bool_decide as Eh.
  - apply IH; [|set_solver]. apply (keeps_mp mp); [by apply park_keeps|done|done].
  - apply eq_None_not_Some in Eh. destruct (requeue_one mp tx) as [mp' b] eqn:Er.
    destruct (requeue_one_ok mp tx mp' b) as [H' Hb]; [done|apply HT; left|done|done|done|].
    apply IH; [|set_solver]. destruct b; [|done]. apply (keeps_mp mp'); [apply park_keeps; auto|done|done].
Qed.
End invariant.

(* ------------------------------------------------------------------ *)
(** * Sequences of calls *)

(** [PInsertLocked] is an insertion whose checks were made on an earlier pool and
    an earlier state: what it found then are its arguments. *)
Inductive PoolOp : Type :=
| PInsert (tx : Transaction) (skip_credential : bool)
| PInsertLocked (tx : Transaction) (nonce : option Z) (is_upgrade : bool) (chain_nonce : Z)
| PRemove (h : Hash)
| PReady (order : list AccountId)
| PEvict (order order' : list AccountId)
| PDrain (max : nat) (order : list AccountId)
| PRequeue (txs : list Transaction) (order : list AccountId)
| PRequeueParked (txs : list Transaction) (reason : ParkedTxReason) (order : list AccountId)
| PPromoteCommittee (h : Hash)
| PPromoteWitnesses (order : list Hash) (can_promote : Transaction -> bool)
| PCommitted (tx_ok tx_total : Z)
| PSlot (slot : Z)
| PView (view : option ShardedState).

Definition set_slot (mp : Mempool) (slot : Z) : Mempool :=
  {| config := config mp; pool := pool mp; current_slot := slot; state_view := state_view mp;
     avg_block_txs := avg_block_txs mp; committed_block_count := committed_block_count mp;
     admission_counter := admission_counter mp |}.

Definition set_view (mp : Mempool) (view : option ShardedState) : Mempool :=
  {| config := config mp; pool := pool mp; current_slot := current_slot mp; state_view := view;
     avg_block_txs := avg_block_txs mp; committed_block_count := committed_block_count mp;
     admission_counter := admission_counter mp |}.

Definition pool_op_txs (op : PoolOp) : list Transaction :=
  match op with
  | PInsert tx _ | PInsertLocked tx _ _ _ => [tx]
  | PRequeue txs _ | PRequeueParked txs _ _ => txs
  | _ => []
  end.

Section calls.
Context {CE : CryptoEnv} {K : K256} {RV : RawVerifiers} {ME : MempoolEnv}.

Definition apply_pool_op (mp : Mempool) (op : PoolOp) : Mempool :=
  match op with
  | PInsert tx skip => fst (insert_inner mp tx skip)
  | PInsertLocked tx nonce up c =>
      fst (insert_locked mp tx (tx_hash env_sha256 tx) (idcom (attestation tx)) nonce up c)
  | PRemove h => fst (mempool_remove mp h)
  | PReady order => fst (ready_transactions mp order)
  | PEvict order order' => evict_stale_future_txs mp order order'
  | PDrain max order => fst (drain_batch mp max order)
  | PRequeue txs order => requeue mp txs order
  | PRequeueParked txs reason order => requeue_parked mp txs reason order
  | PPromoteCommittee h => fst (promote_parked_committee mp h)
  | PPromoteWitnesses order f => fst (promote_parked_witnesses mp order f)
  | PCommitted tx_ok tx_total => record_committed_block mp tx_ok tx_total
  | PSlot slot => set_slot mp slot
  | PView view => set_view mp view
  end.

Definition pool_op_ok (op : PoolOp) : Prop :=
  match op with
  | PInsertLocked tx nonce _ _ => sender_sequence_nonce tx = Ok nonce
  | _ => True
  end.

(** Transactions with one hash have one sender and one nonce.  The hash covers the
    payload, the sender and the raw bytes, but not a zero-knowledge
    authorisation, with which a transaction has no nonce. *)
Definition same_filing (txs : list Transaction) : Prop :=
  forall a b, a ∈ txs -> b ∈ txs -> tx_hash env_sha256 a = tx_hash env_sha256 b ->
    idcom (attestation a) = idcom (attestation b) /\ sender_sequence_nonce a = sender_sequence_nonce b.

Lemma remove_config mp h : config (fst (mempool_remove mp h)) = config mp.
Proof. unfold mempool_remove. by case_match. Qed.

Lemma drain_config mp max order : config (fst (drain_batch mp max order)) = config mp.
Proof. unfold drain_batch. by destruct (drain_loop _ _ _). Qed.

Lemma overload_config mp n mp' o : admission_overload_error mp n = (mp', o) -> config mp' = config mp.
Proof. intros E. destruct (overload_frame mp n) as [_ H]. by rewrite E in H. Qed.

Lemma insert_validated_config mp tx h s n c bypass :
  config (fst (insert_validated_locked mp tx h s n c bypass)) = config mp.
Proof.
  unfold insert_validated_locked. destruct (_ <=? total_count _); [done|]. destruct n as [k|].
  - by repeat case_match.
  - destruct bypass; [done|]. destruct (admission_overload_error _ _) as [mp2 o] eqn:E.
    apply overload_config in E. by destruct o.
Qed.

Lemma insert_locked_config mp tx h s n up c : config (fst (insert_locked mp tx h s n up c)) = config mp.
Proof.
  assert (config (fst (insert_new_locked mp tx h s n c)) = config mp) as Hnew.
  { unfold insert_new_locked. set (p1 := sync_sender_lane_to_chain_locked _ _ _ _).
    case_bool_decide; [done|]. destruct (_ <=? zsize _); [done|]. set (ov := if _ || _ then _ else _).
    assert (config (fst ov) = config mp) as Ec.
    { unfold ov. destruct (_ || _); [done|]. by destruct (overload_frame (set_pool mp p1) (zsize (pending p1))). }
    destruct ov as [mp2 [e|]]; [done|]. cbn [fst] in Ec. pose proof (insert_validated_config mp2 tx h s n c false) as Hi.
    destruct (insert_validated_locked mp2 tx h s n c false) as [mp3 [u|e]]; cbn in *; congruence. }
  unfold insert_locked. by repeat case_match.
Qed.

Lemma requeue_one_config mp tx : config (fst (requeue_one mp tx)) = config mp.
Proof.
  unfold requeue_one. destruct (sender_sequence_nonce tx) as [n|]; [|done].
  pose proof (insert_validated_config (set_pool mp (sync_sender_lane_to_chain_locked (current_slot mp) (pool mp)
    (idcom (attestation tx)) (sender_onchain_nonce mp (idcom (attestation tx))))) tx (tx_hash env_sha256 tx)
    (idcom (attestation tx)) n (sender_onchain_nonce mp (idcom (attestation tx))) true) as Hi.
  by destruct (insert_validated_locked _ _ _ _ _ _ _).
Qed.

Lemma requeue_config txs mp : config (requeue_loop mp txs) = config mp.
Proof.
  revert mp. induction txs as [|tx txs IH]; intros mp; cbn; [done|]. destruct (_ <=? _); [done|].
  case_bool_decide; [apply IH|]. by rewrite IH, requeue_one_config.
Qed.

Lemma requeue_parked_config txs r mp : config (requeue_parked_loop mp txs r) = config mp.
Proof.
  revert mp. induction txs as [|tx txs IH]; intros mp; cbn; [done|]. destruct (_ <=? _); [done|].
  case_bool_decide; [by rewrite IH|]. pose proof (requeue_one_config mp tx) as Hc.
  destruct (requeue_one mp tx) as [mp' b]. rewrite IH. by destruct b.
Qed.

Lemma promote_committee_keeps T mp h :
  keeps T (pool mp) (pool (fst (promote_parked_committee mp h))) /\
  config (fst (promote_parked_committee mp h)) = config mp.
Proof.
  unfold promote_parked_committee. case_bool_decide; [|by split; [apply keeps_refl|]].
  pose proof (unpark_keeps T (pool mp) h). by destruct (unpark (pool mp) h).
Qed.

Lemma promote_witnesses_keeps T mp order f :
  keeps T (pool mp) (pool (fst (promote_parked_witnesses mp order f))) /\
  config (fst (promote_parked_witnesses mp order f)) = config mp.
Proof.
  unfold promote_parked_witnesses. set (hs := List.filter _ order). clearbody hs.
  assert (forall p n, keeps T p (fst (foldl (fun '(p, n) h => let '(p, b) := unpark p h in (p, if b : bool then S n else n)) (p, n) hs))) as Hf.
  { induction hs as [|h hs IH]; intros p n; cbn [foldl]; [apply keeps_refl|].
    pose proof (unpark_keeps T p h) as Hu. destruct (unpark p h) as [p1 b]. by apply keeps_trans with p1. }
  specialize (Hf (pool mp) 0%nat). by destruct (foldl _ _ _).
Qed.

Lemma apply_pool_op_ok txs mp op :
  same_filing txs -> (forall tx, tx ∈ pool_op_txs op -> tx ∈ txs) -> pool_op_ok op ->
  mp_ok (fun tx => tx ∈ txs) mp -> mp_ok (fun tx => tx ∈ txs) (apply_pool_op mp op).
Proof.
  intros Hf Hin Hop H. destruct op; cbn [apply_pool_op pool_op_txs pool_op_ok] in *.
  - apply insert_inner_ok; [exact Hf|done|apply Hin; set_solver].
  - apply insert_locked_ok; [exact Hf|done|apply Hin; set_solver|done|done].
  - eapply keeps_mp; [apply remove_keeps|apply remove_config|done].
  - apply (keeps_mp _ mp); [apply (sync_all_keeps _ mp)|done|done].
  - apply (keeps_mp _ mp); [apply evict_stale_future_keeps|done|done].
  - apply (keeps_mp _ mp); [apply drain_keeps|apply drain_config|done].
  - apply requeue_loop_ok; [exact Hf| |exact Hin]. apply (keeps_mp _ mp); [apply (sync_all_keeps _ mp)|done|done].
  - apply requeue_parked_loop_ok; [exact Hf| |exact Hin]. apply (keeps_mp _ mp); [apply (sync_all_keeps _ mp)|done|done].
  - destruct (promote_committee_keeps (fun tx => tx ∈ txs) mp h). by apply (keeps_mp _ mp).
  - destruct (promote_witnesses_keeps (fun tx => tx ∈ txs) mp order can_promote). by apply (keeps_mp _ mp).
  - unfold record_committed_block. by destruct (_ =? 0).
  - done.
  - done.
Qed.

Lemma apply_pool_op_config mp op : config (apply_pool_op mp op) = config mp.
Proof.
  destruct op; cbn [apply_pool_op]; try done.
  - unfold insert_inner. destruct (insert_checks _ _ _); [apply insert_locked_config|done].
  - apply insert_locked_config.
  - apply remove_config.
  - apply drain_config.
  - unfold requeue. by rewrite requeue_config.
  - unfold requeue_parked. by rewrite requeue_parked_config.
  - apply (promote_committee_keeps (fun _ => True) mp h).
  - apply (promote_witnesses_keeps (fun _ => True) mp order can_promote).
  - unfold record_committed_block. by destruct (_ =? 0).
Qed.

(** C17. The transaction pool is consistent and bounded.  After any calls on a new
    pool, also with insertions of several threads interleaved between their
    checks and the write lock, and with the chain moving underneath, the entries
    number at most the configured maximum and the invariant [pool_ok] holds:
    every entry is filed under its hash in the lane of its sender at its nonce,
    lanes, states and the ready set name only entries, a nonce of a sender has one
    transaction, and what is ready is queued, has its credential, and is in the
    ready part of its lane (not always without a gap before it, [upgrade_skips_gap])
    or among its transactions without a nonce.  Condition ([same_filing]): offered
    transactions with one hash have one sender and one nonce, so no transaction is
    offered both with its credential and, under the same hash, with a zero-knowledge
    authorisation; without it an entry can be filed twice ([zk_copy_filed_twice]). *)
Theorem mempool_consistent c slot view ops :
  0 <= max_size c -> Forall pool_op_ok ops -> same_filing (concat (map pool_op_txs ops)) ->
  let mp := foldl apply_pool_op (with_slot_and_state c slot view) ops in
  pool_ok (fun tx => tx ∈ concat (map pool_op_txs ops)) (pool mp) /\
  zsize (pending (pool mp)) <= max_size c.
Proof.
  intros Hc Hops Hf. set (txs := concat (map pool_op_txs ops)) in *. cbv zeta.
  assert (forall tx op, op ∈ ops -> tx ∈ pool_op_txs op -> tx ∈ txs) as Hin.
  { intros tx op Hop Htx. unfold txs. apply list_elem_of_In, in_concat. exists (pool_op_txs op).
    split; [apply in_map; by apply list_elem_of_In|by apply list_elem_of_In]. }
  clearbody txs.
  assert (forall mp, mp_ok (fun tx => tx ∈ txs) mp -> config mp = c ->
    let mp' := foldl apply_pool_op mp ops in mp_ok (fun tx => tx ∈ txs) mp' /\ config mp' = c) as Hrun.
  { induction ops as [|op ops IH]; intros mp H Ec; [done|]. apply Forall_cons in Hops as [Hop Hops].
    cbn [foldl]. apply IH; [done|intros tx op' Hop'; apply Hin; by right| |].
    - apply apply_pool_op_ok; [done|intros tx; apply Hin; by left|done|done].
    - rewrite <-Ec. apply apply_pool_op_config. }
  destruct (Hrun (with_slot_and_state c slot view)) as [[H Hn] Ec]; [|done|].
  - split; [apply pool_new_ok|]. cbn. unfold zsize. rewrite map_size_empty. lia.
  - split; [done|]. by rewrite Ec in Hn.
Qed.
End calls.

(* ------------------------------------------------------------------ *)
(** * Draining is first in, first out *)

(** The ready hashes in the order of the queue, each at its first place. *)
Fixpoint live (m : gset Hash) (queue : list Hash) : list Hash :=
  match queue with
  | [] => []
  | h :: queue => if bool_decide (h ∈ m) then h :: live (m ∖ {[h]}) queue else live m queue
  end.

Lemma live_members m q h : h ∈ live m q -> h ∈ m /\ h ∈ q.
Proof.
  revert m. induction q as [|x q IH]; intros m; cbn; [set_solver|]. case_bool_decide as Hx.
  - intros [->|Hh]%elem_of_cons; [set_solver|]. apply IH in Hh. set_solver.
  - intros Hh%IH. set_solver.
Qed.

Lemma NoDup_live m q : NoDup (live m q).
Proof.
  revert m. induction q as [|x q IH]; intros m; cbn; [constructor|]. case_bool_decide; [|done].
  constructor; [|done]. intros [Hx _]%live_members. set_solver.
Qed.

Lemma live_all m q h : h ∈ m -> h ∈ q -> h ∈ live m q.
Proof.
  revert m. induction q as [|x q IH]; intros m Hm Hq; cbn; [set_solver|].
  case_bool_decide as Hx.
  - destruct (decide (h = x)) as [->|Hne]; [by left|right]. apply IH; set_solver.
  - apply IH; [done|]. set_solver.
Qed.

Section drain.
Context {CE : CryptoEnv} {K : K256} {RV : RawVerifiers} {ME : MempoolEnv}.

(** What the loop needs of the pool: ready hashes are full entries. *)
Definition ready_full (p : PoolState) : Prop :=
  forall h, h ∈ ready_members p -> exists tx, pending p !! h = Some tx /\ is_credential_stripped tx = false.

Lemma drain_loop_spec queue max p p' batch :
  ready_full p -> drain_loop queue max p = (p', batch) ->
  let hs := take max (live (ready_members p) queue) in
  map Some batch = map (fun h => pending p !! h) hs /\
  (forall h, pending p' !! h = if bool_decide (h ∈ hs) then None else pending p !! h) /\
  ready_members p' = ready_members p ∖ list_to_set hs.
Proof.
  revert max p p' batch. induction queue as [|h queue IH]; intros max p p' batch Hf.
  { assert (drain_loop [] max p = (set_ready p [] (ready_members p), [])) as -> by (by destruct max).
    intros [= <- <-]. cbn. rewrite take_nil. cbn. split_and!; [done|done|set_solver]. }
  destruct max as [|max]; cbn [drain_loop live].
  { intros [= <- <-]. cbn. split_and!; [done|done|set_solver]. }
  case_bool_decide as Hm; cbn [negb]; [|intros Hd; exact (IH (S max) p p' batch Hf Hd)].
  destruct (Hf h Hm) as (tx & E & Hst). cbn [pending set_ready]. rewrite E, Hst.
  set (p1 := remove_from_sender_lane_locked _ tx h). destruct (drain_loop queue max p1) as [p2 rest] eqn:Hd.
  intros [= <- <-].
  assert (pending p1 = delete h (pending p)) as Ep by (unfold p1; by rewrite remove_from_lane_pending).
  assert (ready_members p1 = ready_members p ∖ {[h]}) as Em
    by (unfold p1; destruct (remove_from_lane_frame (drop_entry (set_ready p (ready_queue p) (ready_members p ∖ {[h]})) h) tx h) as (_ & _ & ->); done).
  destruct (IH max p1 p2 rest) as (H1 & H2 & H3).
  { intros x. rewrite Em, Ep. intros Hx. rewrite lookup_delete_ne by set_solver. apply Hf. set_solver. }
  { done. }
  rewrite Em in H1, H2, H3. set (hs := take max (live (ready_members p ∖ {[h]}) queue)) in *. cbn [take map].
  assert (h ∉ hs) as Hh.
  { intros Hh. unfold hs in Hh. apply (subseteq_take max (live _ queue)), live_members in Hh as [Hh _]. set_solver. }
  split_and!.
  - cbn. rewrite H1. f_equal; [by rewrite E|]. apply map_ext_in. intros x Hx%list_elem_of_In.
    rewrite Ep, lookup_delete_ne; [done|]. by intros ->.
  - intros x. rewrite H2, Ep. destruct (decide (x = h)) as [->|Hne].
    + rewrite lookup_delete_eq, (bool_decide_eq_true_2 (h ∈ h :: hs)) by by left. by case_bool_decide.
    + rewrite lookup_delete_ne by done. rewrite (bool_decide_ext (x ∈ h :: hs) (x ∈ hs)); [done|]. set_solver.
  - rewrite H3. cbn. set_solver.
Qed.

(** C18. A block is filled first in, first out.  After the pool has been brought up
    to the chain, [drain_batch] returns the transactions of the first [max] ready
    hashes, each once and in the order of the queue, and all of them when there
    are no more than [max]; these leave the pool and the ready set and the others
    stay as they are. *)
Theorem drain_batch_fifo T mp max order :
  pool_ok T (pool mp) ->
  let p := sync_all mp order in
  let ready_hashes := live (ready_members p) (ready_queue p) in
  let hs := take max ready_hashes in
  let mp' := fst (drain_batch mp max order) in
  map Some (snd (drain_batch mp max order)) = map (fun h => pending p !! h) hs /\
  ready_hashes ≡ₚ elements (ready_members p) /\
  (forall h, pending (pool mp') !! h = if bool_decide (h ∈ hs) then None else pending p !! h) /\
  ready_members (pool mp') = ready_members p ∖ list_to_set hs.
Proof.
  intros H p ready_hashes hs. assert (pool_ok T p) as Hp by (by apply (sync_all_keeps T mp order)).
  unfold drain_batch. fold p. destruct (drain_loop (ready_queue p) max p) as [p' batch] eqn:Hd. cbn [fst snd pool set_pool].
  destruct (drain_loop_spec (ready_queue p) max p p' batch) as (H1 & H2 & H3); [|done|].
  { intros h Hh. destruct (ok_members _ _ Hp h Hh) as (_ & tx & l & n & E & Hst & _). by exists tx. }
  split_and!; [done| |done|done].
  apply NoDup_Permutation; [apply NoDup_live|apply NoDup_elements|]. intros h. rewrite elem_of_elements. split.
  - by intros [Hh _]%live_members.
  - intros Hh. apply live_all; [done|]. by apply (ok_members _ _ Hp).
Qed.
End drain.

(* ------------------------------------------------------------------ *)
(** * What admission gets wrong *)

Section placeholder.
Context {CE : CryptoEnv} {K : K256} {RV : RawVerifiers} {ME : MempoolEnv}.

(** A transfer without a credential passes the checks of a relayed one. *)
Lemma placeholder_checks mp tx n :
  head (payload tx) = Some OP_TRANSFER -> raw_chain tx = None -> is_credential_stripped tx = true ->
  validate tx (cfg_chain_id (config mp)) (max_tx_bytes (config mp)) = Ok tt ->
  validate_slot tx (current_slot mp) = Ok tt -> sender_sequence_nonce tx = Ok n ->
  insert_checks mp tx true = Ok n.
Proof.
  intros Hh Hr Hst Hv Hs Hn. unfold insert_checks. rewrite Hv. cbn [rbind].
  unfold validate_approve_validator, is_mev_ace_omission_evidence, is_bridge_deposit, is_withdrawal_completion, first_byte_is.
  rewrite Hh. cbn [negb bool_decide]. rewrite !bool_decide_eq_false_2 by (vm_compute; discriminate). cbn [negb rbind].
  rewrite Hs, Hn. unfold is_raw_chain. rewrite Hr. cbn [rbind]. rewrite bool_decide_eq_false_2 by (by intros []).
  cbn [andb]. assert (is_zk_auth tx = false) as ->; [|done].
  unfold is_credential_stripped in Hst. by destruct (is_zk_auth tx).
Qed.

(** The pool that holds one placeholder and nothing else. *)
Definition placeholder_pool (tx : Transaction) (k : Z) : PoolState :=
  let h := tx_hash env_sha256 tx in
  {| pending := {[h := tx]}; tx_states := {[h := ParkedStrippedCredential]}; ready_queue := [];
     ready_members := ∅;
     senders := {[idcom (attestation tx) :=
       {| onchain_nonce := k; ready := {[k := h]}; future := ∅; unordered := ∅;
          future_only_since_slot := None |}]};
     last_chain_sync_slot := None |}.

Lemma promote_no_future p s l : senders p !! s = Some l -> future l = ∅ -> promote_future_ready_locked p s = p.
Proof.
  intros El Ef. unfold promote_future_ready_locked. cbn [promote_loop]. unfold promote_next. rewrite El. cbn [mbind option_bind].
  destruct (lane_blocked _ _ _); [done|]. by rewrite Ef, lookup_empty.
Qed.

Lemma insert_validated_placeholder mp tx k :
  pool mp = pool_new -> is_credential_stripped tx = true ->
  insert_validated_locked mp tx (tx_hash env_sha256 tx) (idcom (attestation tx)) (Some k) k false =
    (set_pool mp (placeholder_pool tx k), Ok tt).
Proof.
  intros Ep Hst. unfold insert_validated_locked. rewrite Ep. unfold placeholder_pool.
  set (h := tx_hash env_sha256 tx). set (sd := idcom (attestation tx)).
  assert (entry_lane pool_new sd k = lane_new k) as ->.
  { unfold entry_lane. cbn [senders pool_new]. rewrite lookup_empty. cbn. by rewrite Z.max_id. }
  change (MAX_TXS_PER_SENDER <=? total_count (lane_new k)) with false.
  cbn [ready future lane_new]. rewrite lookup_empty. rewrite !(bool_decide_eq_false_2 (is_Some None)) by (by intros []).
  assert (next_expected_nonce (lane_new k) = k) as ->.
  { unfold next_expected_nonce. cbn. rewrite lookup_empty. done. }
  cbn [orb]. rewrite Z.ltb_irrefl, Z.eqb_refl, Hst.
  match goal with |- context [enqueue_ready_hash_locked ?q h] => set (p1 := q) end.
  assert (enqueue_ready_hash_locked p1 h = insert_state p1 h ParkedStrippedCredential) as ->.
  { unfold enqueue_ready_hash_locked, is_stripped_entry. cbn. by rewrite lookup_insert_eq, Hst. }
  erewrite promote_no_future; [|cbn; apply lookup_insert_eq|done].
  unfold p1, set_pool, insert_state, put_lane, set_senders, set_pending, set_tx_states, pool_new. cbn.
  by rewrite !insert_insert_eq, !insert_empty.
Qed.

Lemma insert_placeholder c slot s tx k :
  let mp := with_slot_and_state c slot (Some s) in
  0 < max_size c -> is_credential_stripped tx = true ->
  insert_new_locked mp tx (tx_hash env_sha256 tx) (idcom (attestation tx)) (Some k) k =
    (set_pool mp (placeholder_pool tx k), Ok {| outcome_hash := tx_hash env_sha256 tx; became_ready := false |}).
Proof.
  intros mp Hc Hst. unfold insert_new_locked.
  assert (sync_sender_lane_to_chain_locked (current_slot mp) (pool mp) (idcom (attestation tx)) k = pool_new) as ->.
  { unfold sync_sender_lane_to_chain_locked. cbn. by rewrite lookup_empty. }
  change (zsize (pending pool_new)) with 0. rewrite bool_decide_eq_false_2 by (cbn; rewrite lookup_empty; by intros []).
  replace (_ <=? 0) with false by (symmetry; apply Z.leb_gt; exact Hc).
  assert (senders pool_new !! idcom (attestation tx) = None) as -> by (cbn; apply lookup_empty).
  rewrite (bool_decide_eq_true_2 (Some k = Some k)) by done.
  change (zsize (ready_members pool_new) <? READY_STARVATION_BYPASS_BELOW) with true. cbn [andb orb].
  by rewrite insert_validated_placeholder.
Qed.

(** Anybody can block a sender.  A relayed transfer without a credential is
    taken into the pool as a placeholder: whatever the keys of the named sender, it
    is admitted when its format, chain and slot are right.  From then on no other
    transaction of that sender with this nonce is admitted, not even one whose
    credential has been verified. *)
Theorem forged_placeholder_blocks c slot s forged k :
  let mp := with_slot_and_state c slot (Some s) in
  let sender := idcom (attestation forged) in
  0 < max_size c ->
  head (payload forged) = Some OP_TRANSFER -> raw_chain forged = None -> is_credential_stripped forged = true ->
  validate forged (cfg_chain_id c) (max_tx_bytes c) = Ok tt -> validate_slot forged slot = Ok tt ->
  sender_sequence_nonce forged = Ok (Some k) -> account_nonce s sender = k ->
  exists mp1 o,
    insert_relay mp forged = (mp1, Ok o) /\ pending (pool mp1) = {[tx_hash env_sha256 forged := forged]} /\
    forall tx skip,
      idcom (attestation tx) = sender -> sender_sequence_nonce tx = Ok (Some k) ->
      tx_hash env_sha256 tx <> tx_hash env_sha256 forged ->
      exists e, snd (insert_inner mp1 tx skip) = Err e.
Proof.
  intros mp sender Hc Hh Hr Hst Hv Hs Hn Hk. set (h := tx_hash env_sha256 forged).
  exists (set_pool mp (placeholder_pool forged k)), {| outcome_hash := h; became_ready := false |}.
  split_and!; [|done|].
  - unfold insert_relay, insert_inner. rewrite Hst, (placeholder_checks mp forged (Some k) Hh Hr Hst Hv Hs Hn).
    cbn [negb andb insert_locked]. fold sender. unfold sender_onchain_nonce. cbn [mp with_slot_and_state state_view].
    rewrite Hk. by apply insert_placeholder.
  - intros tx skip Hsd Htn Hne. unfold insert_inner. set (mp1 := set_pool mp _).
    destruct (insert_checks mp1 tx skip) as [n|e] eqn:E; [|by exists e].
    apply insert_checks_nonce in E. rewrite Htn in E. injection E as <-. rewrite Hsd.
    assert (pending (pool mp1) !! tx_hash env_sha256 tx = None) as Ep by (cbn; by apply lookup_singleton_ne).
    assert (sender_onchain_nonce mp1 sender = k) as -> by done.
    unfold is_stripped_entry. rewrite Ep, andb_false_r. unfold insert_locked, insert_new_locked.
    set (lane := {| onchain_nonce := k; ready := {[k := h]}; future := ∅; unordered := ∅; future_only_since_slot := None |}).
    assert (senders (pool mp1) !! sender = Some lane) as El by (cbn; apply lookup_singleton_eq).
    assert (sync_sender_lane_to_chain_locked (current_slot mp1) (pool mp1) sender k = pool mp1) as ->.
    { unfold sync_sender_lane_to_chain_locked. rewrite El. cbn [onchain_nonce lane]. by rewrite Z.leb_refl. }
    rewrite Ep, bool_decide_eq_false_2 by (by intros []). destruct (_ <=? zsize _); [by eexists|].
    set (ov := if _ || _ then _ else _). assert (pool (fst ov) = pool mp1) as Eo.
    { unfold ov. destruct (_ || _); [done|]. apply (overload_frame (set_pool mp1 (pool mp1))). }
    destruct ov as [mp2 [e|]]; [by exists e|]. cbn [fst] in Eo.
    unfold insert_validated_locked. rewrite Eo.
    assert (ready (entry_lane (pool mp1) sender k) !! k = Some h) as Er
      by (unfold entry_lane; rewrite El; cbn; apply lookup_singleton_eq).
    rewrite Er. destruct (_ <=? total_count _); [by eexists|]. cbn [orb].
    rewrite bool_decide_eq_true_2 by by eexists. by eexists.
Qed.

Lemma next_nonce_unique (r : gmap Z Hash) e x y :
  r !! x = None -> (forall n, e <= n < x -> is_Some (r !! n)) -> e <= x ->
  r !! y = None -> (forall n, e <= n < y -> is_Some (r !! n)) -> e <= y -> x = y.
Proof.
  intros Hx Hx' ? Hy Hy' ?. destruct (Z.lt_trichotomy x y) as [Hlt|[->|Hlt]]; [|done|].
  - destruct (Hy' x) as [v Hv]; [lia|]. congruence.
  - destruct (Hx' y) as [v Hv]; [lia|]. congruence.
Qed.

(** The zero-knowledge copy of a placeholder has the placeholder's hash and no
    nonce: the upgrade files it without a nonce and leaves the hash at its nonce. *)
Lemma zk_copy_filed_twice p tx h s k c l :
  senders p !! s = Some l -> ready l !! k = Some h ->
  exists l', senders (upgrade_locked p tx h s None c) !! s = Some l' /\ ready l' !! k = Some h /\ h ∈ unordered l'.
Proof.
  intros El Hk. unfold upgrade_locked. set (p1 := put_lane _ _ _).
  assert (senders (enqueue_ready_hash_locked p1 h) = senders p1) as ->.
  { unfold enqueue_ready_hash_locked. by repeat case_match. }
  eexists. split; [apply lookup_insert_eq|]. cbn [senders insert_state set_tx_states set_pending]. rewrite El.
  cbn. split; [done|set_solver].
Qed.

(** The full copy of a placeholder that waits for earlier nonces becomes ready at
    once, and the next nonce of the lane is still the missing one. *)
Lemma upgrade_skips_gap p tx h k c l :
  let s := idcom (attestation tx) in
  let e := next_expected_nonce l in
  senders p !! s = Some l -> is_credential_stripped tx = false -> h ∉ ready_members p ->
  onchain_nonce l + zsize (ready l) + 1 <= u64_max ->
  future l !! e = None -> e < k ->
  let p' := upgrade_locked p tx h s (Some k) c in
  h ∈ ready_members p' /\
  exists l', senders p' !! s = Some l' /\ ready l' !! k = Some h /\ next_expected_nonce l' = e.
Proof.
  intros s e El Hst Hm Hb Hf Hlt. unfold upgrade_locked. cbn [senders insert_state set_tx_states set_pending].
  rewrite El. cbn [from_option id].
  set (l' := {| onchain_nonce := onchain_nonce l; ready := <[k := h]> (ready l); future := future l; unordered := _ |}).
  destruct (next_nonce_loop_stops (S (size (ready l))) (ready l) (onchain_nonce l)) as (H1 & H2 & H3); [lia|lia|].
  fold (next_expected_nonce l) in H1, H2, H3. fold e in H1, H2, H3.
  assert (next_expected_nonce l' = e) as En.
  { unfold next_expected_nonce. cbn [ready onchain_nonce l'].
    assert (zsize (<[k := h]> (ready l)) <= zsize (ready l) + 1) as Hs.
    { unfold zsize. rewrite map_size_insert. destruct (_ !! k); cbn [id]; lia. }
    destruct (next_nonce_loop_stops (S (size (<[k := h]> (ready l)))) (<[k := h]> (ready l)) (onchain_nonce l)) as (G1 & G2 & G3);
      [lia|lia|].
    refine (next_nonce_unique (<[k := h]> (ready l)) (onchain_nonce l) _ e G2 G3 G1 _ _ H1); [by rewrite lookup_insert_ne by lia|].
    intros n Hn. rewrite lookup_insert_ne by lia. by apply H3. }
  set (p1 := put_lane _ s l').
  assert (senders p1 !! s = Some l') as El' by (cbn; apply lookup_insert_eq).
  assert (promote_future_ready_locked p1 s = p1) as ->.
  { unfold promote_future_ready_locked. cbn [promote_loop]. unfold promote_next. rewrite El'. cbn [mbind option_bind].
    rewrite En. destruct (lane_blocked _ _ _); [done|]. cbn [future l']. by rewrite Hf. }
  unfold enqueue_ready_hash_locked, is_stripped_entry. cbn [pending p1 put_lane set_senders insert_state set_tx_states set_pending].
  rewrite lookup_insert_eq, Hst. cbn [ready_members p1 put_lane set_senders insert_state set_tx_states set_pending].
  rewrite bool_decide_eq_false_2 by done. cbn. split; [set_solver|]. exists l'. split; [apply lookup_insert_eq|].
  split; [apply lookup_insert_eq|exact En].
Qed.
End placeholder.

(* ------------------------------------------------------------------ *)
(** * A concrete pool *)

Module SamplePool.
Import SampleEnv SampleK256 SampleTron.

#[export] Instance pool_env : MempoolEnv := {|
  evm_nonce _ := raw_err "none";
  deposit_sender _ := Err "none";
  deposit_check _ _ := Err "none";
  completion_sender _ := Err "none";
  completion_check _ _ := Err "none";
  evidence_sender _ := Err "none";
|}.

Definition transfer_of_7 (nonce amount : Z) (c : TaggedSignature) : Transaction :=
  let p := [1] ++ le_bytes 8 nonce ++ be_bytes 32 8 ++ le_bytes 8 amount in
  {| payload := p;
     attestation := {| obj_hash := digest env_sha256 p; idcom := 7;
       att_domain := {| chain_id := 122766; domain_slot := 9 |}; context_tag := 0; credential := c |};
     raw_chain := None; zk_auth := None |}.
Definition first : Transaction := transfer_of_7 0 3 (SampleSig.sample_sign 7 []).
Definition second : Transaction := transfer_of_7 1 5 (SampleSig.sample_sign 7 []).
Definition forged : Transaction := transfer_of_7 0 1 ml_dsa_44_stripped.
Definition view : ShardedState := from_state_tree SampleNative.tree.
Definition fresh : Mempool := with_slot_and_state default_config 9 (Some view).
(** The second transfer waits until the first one arrives. *)
Definition ops : list PoolOp := [PInsert second false; PInsert first false].
Definition filled : Mempool := foldl apply_pool_op fresh ops.

Lemma sample_filing : same_filing [second; first].
Proof.
  intros a b Ha Hb. apply elem_of_cons in Ha as [->|Ha], Hb as [->|Hb];
    try (apply list_elem_of_singleton in Ha as ->); try (apply list_elem_of_singleton in Hb as ->);
    intros E; vm_compute in E; try discriminate E; split; reflexivity.
Qed.

Lemma sample_filled_ok : pool_ok (fun tx => tx ∈ [second; first]) (pool filled).
Proof.
  assert (mp_ok (fun tx => tx ∈ [second; first]) fresh) as H0 by (split; [apply pool_new_ok|by vm_compute]).
  assert (mp_ok (fun tx => tx ∈ [second; first]) (apply_pool_op fresh (PInsert second false))) as H1.
  { apply apply_pool_op_ok; [apply sample_filing| |exact I|exact H0]. intros tx ->%list_elem_of_singleton. left. }
  refine (proj1 (apply_pool_op_ok [second; first] _ (PInsert first false) sample_filing _ I H1)).
  intros tx ->%list_elem_of_singleton. right. left.
Qed.
End SamplePool.

#[local] Existing Instances SampleEnv.sample_env SampleK256.sample_k256 SampleTron.no_verifiers SamplePool.pool_env.

Lemma mempool_consistent_witness :
  zsize (pending (pool (foldl apply_pool_op
    SamplePool.fresh SamplePool.ops))) <= 10000.
Proof.
  refine (proj2 (mempool_consistent
    default_config 9 (Some SamplePool.view) SamplePool.ops _ _ SamplePool.sample_filing)).
  - cbn. lia.
  - by repeat constructor.
Defined.

Lemma drain_batch_fifo_witness :
  map Some (snd (drain_batch SamplePool.filled 1 [])) = [Some SamplePool.first].
Proof.
  refine (eq_trans (proj1 (drain_batch_fifo _ SamplePool.filled 1 [] SamplePool.sample_filled_ok)) _).
  vm_compute. reflexivity.
Defined.

Lemma forged_placeholder_blocks_witness :
  exists mp1 o e,
    insert_relay (with_slot_and_state default_config 9 (Some SamplePool.view)) SamplePool.forged = (mp1, Ok o) /\
    snd (insert_inner mp1 SamplePool.first false) = Err e.
Proof.
  destruct (forged_placeholder_blocks default_config 9 SamplePool.view SamplePool.forged 0)
    as (mp1 & o & E & _ & H); [vm_compute; reflexivity..|].
  destruct (H SamplePool.first false) as [e He]; [reflexivity|vm_compute; reflexivity|vm_compute; discriminate|].
  exists mp1, o, e. split; [exact E|exact He].
Defined.
