(* ===== verification/CritTree.v ===== *)
(** Crit-bit trees as shapes: trees of handles and keys that describe what the
    storage of [CritBit] holds.  Pure functions on shapes say what insertion and
    removal do; the walks of the program are shown to follow them wherever a
    shape is stored. *)

From S2P Require Import Prelude SigAlgo Account StateTree Slots CritBit.
Local Open Scope Z_scope.
Local Open Scope ace_scope.

(* ------------------------------------------------------------------ *)
(** * Bits *)

(** Equal in all bits above [c]. *)
Definition same_above (c x y : Z) : Prop := forall i, c < i -> Z.testbit x i = Z.testbit y i.

Lemma same_above_sym c x y : same_above c x y -> same_above c y x.
Proof. intros H i Hi. by rewrite H. Qed.

Lemma same_above_trans c x y z : same_above c x y -> same_above c y z -> same_above c x z.
Proof. intros H1 H2 i Hi. by rewrite H1, H2. Qed.

Lemma same_above_le c d x y : c <= d -> same_above c x y -> same_above d x y.
Proof. intros Hc H i Hi. apply H. lia. Qed.

Lemma bit_shift x c : 0 <= c -> Z.shiftr x c = 2 * Z.shiftr x (c + 1) + Z.b2z (Z.testbit x c).
Proof.
  intros Hc. rewrite <-Z.shiftr_shiftr by lia. rewrite (Z.div2_odd (Z.shiftr x c)) at 1.
  rewrite Z.div2_spec. rewrite <-Z.bit0_odd, Z.shiftr_spec by lia. by rewrite Z.add_0_l.
Qed.

Lemma bit_order c x y :
  0 <= c -> same_above c x y -> Z.testbit x c = false -> Z.testbit y c = true -> x < y.
Proof.
  intros Hc Ha Hx Hy.
  assert (Z.shiftr x (c + 1) = Z.shiftr y (c + 1)) as E.
  { apply Z.bits_inj'. intros n Hn. rewrite !Z.shiftr_spec by lia. apply Ha. lia. }
  pose proof (bit_shift x c Hc) as Ex. pose proof (bit_shift y c Hc) as Ey.
  rewrite Hx in Ex. rewrite Hy in Ey. rewrite E in Ex. cbn in Ex, Ey.
  rewrite Z.shiftr_div_pow2 in Ex, Ey by lia.
  pose proof (Z.pow_pos_nonneg 2 c ltac:(lia) Hc) as Hp.
  pose proof (Z.mod_pos_bound x (2 ^ c) Hp). pose proof (Z.mod_pos_bound y (2 ^ c) Hp).
  pose proof (Z.div_mod x (2 ^ c) ltac:(lia)). pose proof (Z.div_mod y (2 ^ c) ltac:(lia)). nia.
Qed.

Lemma cb_dir_bit key c : 0 <= c < 64 -> cb_dir key c = Z.b2z (Z.testbit key c).
Proof.
  intros Hc. unfold cb_dir. rewrite Z.mod_small by done. rewrite (Z.land_ones _ 1) by done.
  rewrite bit_shift by lia. change (2 ^ 1) with 2. rewrite Z.add_comm, Z.mul_comm, Z.mod_add by done.
  by destruct (Z.testbit key c).
Qed.

Lemma highest_bit_spec x y :
  is_u64 x -> is_u64 y -> x <> y ->
  0 <= highest_bit (Z.lxor x y) < 64 /\ same_above (highest_bit (Z.lxor x y)) x y /\
  Z.testbit y (highest_bit (Z.lxor x y)) = negb (Z.testbit x (highest_bit (Z.lxor x y))).
Proof.
  unfold is_u64, u64_max. intros Hx Hy Hne. set (z := Z.lxor x y).
  assert (z <> 0) as Hz by (intros E; by apply Z.lxor_eq in E).
  assert (0 <= z) as Hz0 by (apply Z.lxor_nonneg; lia).
  assert (z < 2 ^ 64) as Hz64.
  { apply Z.log2_lt_pow2; [lia|]. pose proof (Z.log2_lxor x y ltac:(lia) ltac:(lia)) as Hl.
    assert (forall a, 0 <= a <= 2 ^ 64 - 1 -> Z.log2 a < 64) as Hlog.
    { intros a Ha. destruct (decide (a = 0)) as [->|]; [done|]. apply Z.log2_lt_pow2; lia. }
    pose proof (Hlog x Hx). pose proof (Hlog y Hy). fold z in Hl. lia. }
  assert (highest_bit z = Z.log2 z) as -> by (unfold highest_bit; by destruct (Z.eqb_spec z 0)).
  split_and!; [apply Z.log2_nonneg|apply Z.log2_lt_pow2; lia| |].
  - intros i Hi. pose proof (Z.bits_above_log2 z i Hz0 Hi) as H.
    unfold z in H. rewrite Z.lxor_spec in H. by destruct (Z.testbit x i), (Z.testbit y i).
  - pose proof (Z.bit_log2 z ltac:(lia)) as H. unfold z in H at 1. rewrite Z.lxor_spec in H.
    by destruct (Z.testbit x (Z.log2 z)), (Z.testbit y (Z.log2 z)).
Qed.

(* ------------------------------------------------------------------ *)
(** * Shapes *)

Inductive shape : Type :=
| SLeaf (h key : Z)
| SInner (h crit : Z) (l r : shape).

Definition handle (s : shape) : Z := match s with SLeaf h _ | SInner h _ _ _ => h end.

Fixpoint handles (s : shape) : list Z :=
  match s with
  | SLeaf h _ => [h]
  | SInner h _ l r => h :: handles l ++ handles r
  end.

Fixpoint keys (s : shape) : gset Z :=
  match s with
  | SLeaf _ k => {[ k ]}
  | SInner _ _ l r => keys l ∪ keys r
  end.

(** The order of a crit-bit tree: critical bits decrease, the keys of a subtree
    agree above its critical bit and are divided by it. *)
Fixpoint shape_ok (bound : Z) (s : shape) : Prop :=
  match s with
  | SLeaf _ k => is_u64 k
  | SInner _ c l r =>
      0 <= c < bound /\ shape_ok c l /\ shape_ok c r /\
      (forall k, k ∈ keys l -> Z.testbit k c = false) /\
      (forall k, k ∈ keys r -> Z.testbit k c = true) /\
      (forall j k, j ∈ keys l ∪ keys r -> k ∈ keys l ∪ keys r -> same_above c j k)
  end.

(** What the store holds for a shape. *)
Fixpoint stored (rd : Z -> CbNode) (s : shape) : Prop :=
  match s with
  | SLeaf h k => rd h = Leaf k
  | SInner h c l r => rd h = Inner c (handle l) (handle r) /\ stored rd l /\ stored rd r
  end.

Lemma handle_in s : handle s ∈ handles s.
Proof. destruct s; by left. Qed.

Lemma stored_ext rd rd' s :
  (forall h, h ∈ handles s -> rd' h = rd h) -> stored rd s -> stored rd' s.
Proof.
  induction s as [h k|h c l IHl r IHr]; cbn; intros H.
  - by rewrite H by by left.
  - rewrite H by by left. intros (? & ? & ?). split_and!; [done|apply IHl|apply IHr]; try done;
      intros x Hx; apply H; right; apply elem_of_app; auto.
Qed.

Lemma shape_ok_mono b b' s : b <= b' -> shape_ok b s -> shape_ok b' s.
Proof. intros Hb. destruct s; cbn; [done|]. intros [? ?]. split; [lia|done]. Qed.

Lemma keys_u64 b s k : shape_ok b s -> k ∈ keys s -> is_u64 k.
Proof.
  revert b. induction s as [h k'|h c l IHl r IHr]; cbn; intros b.
  - by intros ? ->%elem_of_singleton.
  - intros (_ & Hl & Hr & _) [H|H]%elem_of_union; eauto.
Qed.

(** The keys of the two subtrees differ, so leaves and keys correspond. *)
Lemma length_handles b s :
  shape_ok b s -> Z.of_nat (length (handles s)) = 2 * Z.of_nat (size (keys s)) - 1.
Proof.
  revert b. induction s as [h k|h c l IHl r IHr]; cbn [shape_ok handles keys length]; intros b.
  - intros _. by rewrite size_singleton.
  - intros (_ & Hl & Hr & H0 & H1 & _). apply IHl in Hl. apply IHr in Hr.
    rewrite size_union by (intros k Hk Hk'; pose proof (H0 k Hk); pose proof (H1 k Hk'); congruence).
    rewrite length_app. lia.
Qed.

(** The leaf a walk for [key] ends at. *)
Fixpoint walk_key (key : Z) (s : shape) : Z :=
  match s with
  | SLeaf _ k => k
  | SInner _ c l r => walk_key key (if Z.testbit key c then r else l)
  end.

(** Insertion: a new inner node [hi] with the new leaf [hl] above the first
    subtree whose critical bit is not above [cb]. *)
Definition new_inner (key cb hl hi : Z) (s : shape) : shape :=
  if Z.testbit key cb then SInner hi cb s (SLeaf hl key) else SInner hi cb (SLeaf hl key) s.

Fixpoint insert_shape (key cb hl hi : Z) (s : shape) : shape :=
  match s with
  | SLeaf _ _ => new_inner key cb hl hi s
  | SInner h c l r =>
      if cb <? c then
        if Z.testbit key c then SInner h c l (insert_shape key cb hl hi r)
        else SInner h c (insert_shape key cb hl hi l) r
      else new_inner key cb hl hi s
  end.

(** Removal of the leaf a walk ends at, with its parent. *)
Fixpoint remove_shape (key : Z) (s : shape) : option shape :=
  match s with
  | SLeaf _ _ => None
  | SInner h c l r =>
      if Z.testbit key c then
        Some (match remove_shape key r with Some r => SInner h c l r | None => l end)
      else Some (match remove_shape key l with Some l => SInner h c l r | None => r end)
  end.

Lemma walk_key_in key s : walk_key key s ∈ keys s.
Proof.
  induction s as [h k|h c l IHl r IHr]; cbn; [by apply elem_of_singleton|].
  destruct (Z.testbit key c); set_solver.
Qed.

(** A key of the tree is found by its walk. *)
Lemma walk_key_mem b key s : shape_ok b s -> key ∈ keys s -> walk_key key s = key.
Proof.
  revert b. induction s as [h k|h c l IHl r IHr]; cbn; intros b.
  - by intros _ ->%elem_of_singleton.
  - intros (_ & Hl & Hr & H0 & H1 & _) [H|H]%elem_of_union.
    + rewrite H0 by done. eauto.
    + rewrite H1 by done. eauto.
Qed.

Lemma keys_insert key cb hl hi s : keys (insert_shape key cb hl hi s) = {[ key ]} ∪ keys s.
Proof.
  assert (forall s', keys (new_inner key cb hl hi s') = {[ key ]} ∪ keys s') as Hn
    by (intros s'; unfold new_inner; destruct (Z.testbit key cb); cbn; set_solver).
  induction s as [h k|h c l IHl r IHr]; cbn [insert_shape]; [apply Hn|].
  destruct (cb <? c); [|apply Hn].
  destruct (Z.testbit key c); cbn [keys]; rewrite ?IHl, ?IHr; set_solver.
Qed.

Lemma handles_insert key cb hl hi s :
  handles (insert_shape key cb hl hi s) ≡ₚ hi :: hl :: handles s.
Proof.
  assert (forall s', handles (new_inner key cb hl hi s') ≡ₚ hi :: hl :: handles s') as Hn
    by (intros s'; unfold new_inner; destruct (Z.testbit key cb); cbn; solve_Permutation).
  induction s as [h k|h c l IHl r IHr]; cbn [insert_shape]; [apply Hn|].
  destruct (cb <? c); [|apply Hn].
  destruct (Z.testbit key c); cbn [handles]; rewrite ?IHl, ?IHr; solve_Permutation.
Qed.

(** The new inner node splits its subtree off. *)
Lemma new_inner_ok bound key cb hl hi s :
  shape_ok cb s -> is_u64 key -> 0 <= cb < bound ->
  (forall k, k ∈ keys s -> same_above cb key k /\ Z.testbit k cb = negb (Z.testbit key cb)) ->
  shape_ok bound (new_inner key cb hl hi s).
Proof.
  intros Hs Hk Hcb H. unfold new_inner.
  assert (forall j k, j ∈ {[ key ]} ∪ keys s -> k ∈ {[ key ]} ∪ keys s -> same_above cb j k) as Ha.
  { assert (forall j, j ∈ {[ key ]} ∪ keys s -> same_above cb key j) as Hj
      by (intros j [->%elem_of_singleton|Hj]%elem_of_union; [done|by apply H]).
    intros j k Hj' Hk'. eapply same_above_trans; [by apply same_above_sym, Hj|by apply Hj]. }
  destruct (Z.testbit key cb) eqn:E; cbn; split_and!; try done; try lia.
  - intros k Hks. by destruct (H k Hks) as [_ ->].
  - by intros k ->%elem_of_singleton.
  - intros j k Hj Hk'. apply Ha; set_solver.
  - by intros k ->%elem_of_singleton.
  - intros k Hks. by destruct (H k Hks) as [_ ->].
Qed.

Lemma insert_shape_ok bound key cb hl hi s :
  shape_ok bound s -> is_u64 key -> 0 <= cb < bound ->
  same_above cb key (walk_key key s) ->
  Z.testbit (walk_key key s) cb = negb (Z.testbit key cb) ->
  shape_ok bound (insert_shape key cb hl hi s).
Proof.
  revert bound. induction s as [h k|h c l IHl r IHr]; intros bound Hs Hk Hcb Ha Hb; cbn [insert_shape].
  { apply new_inner_ok; try done. intros k'. cbn. by intros ->%elem_of_singleton. }
  pose proof (walk_key_in key (SInner h c l r)) as Hin. cbn [keys] in Hin.
  pose proof Hs as (Hc & Hl & Hr & H0 & H1 & Hs'). destruct (Z.ltb_spec cb c).
  - assert (forall k, k ∈ keys l ∪ keys r -> same_above c key k) as Hak.
    { intros k' Hk'. eapply same_above_trans; [eapply same_above_le; [|exact Ha]; lia|].
      by apply Hs'. }
    assert (forall k, k ∈ {[ key ]} ∪ (keys l ∪ keys r) -> same_above c key k) as Hak'
      by (intros k' [->%elem_of_singleton|Hk']%elem_of_union; [done|by apply Hak]).
    cbn [walk_key] in Ha, Hb. destruct (Z.testbit key c) eqn:E; cbn [shape_ok];
      split_and!; try done; try lia.
    + apply IHr; try done; lia.
    + intros k'. rewrite keys_insert. intros [->%elem_of_singleton|Hk']%elem_of_union; auto.
    + intros i j. rewrite keys_insert. intros Hi Hj.
      eapply same_above_trans; [apply same_above_sym|]; apply Hak'; set_solver.
    + apply IHl; try done; lia.
    + intros k'. rewrite keys_insert. intros [->%elem_of_singleton|Hk']%elem_of_union; auto.
    + intros i j. rewrite keys_insert. intros Hi Hj.
      eapply same_above_trans; [apply same_above_sym|]; apply Hak'; set_solver.
  - assert (c <> cb) as Hne.
    { intros ->. cbn [walk_key] in Hb. destruct (Z.testbit key cb) eqn:E.
      - rewrite H1 in Hb by apply walk_key_in. done.
      - rewrite H0 in Hb by apply walk_key_in. done. }
    apply new_inner_ok; [cbn; split_and!; try done; lia|done|done|].
    intros k' Hk'. cbn [keys] in Hk'. pose proof (Hs' _ _ Hin Hk') as Hw. split.
    + eapply same_above_trans; [exact Ha|]. eapply same_above_le; [|exact Hw]. lia.
    + rewrite <-Hb. symmetry. apply Hw. lia.
Qed.

Lemma remove_shape_ok b key s :
  shape_ok b s -> walk_key key s = key ->
  match remove_shape key s with
  | None => keys s = {[ key ]}
  | Some s' => keys s' = keys s ∖ {[ key ]} /\ shape_ok b s'
  end.
Proof.
  revert b. induction s as [h k|h c l IHl r IHr]; intros b Hs Hw; cbn in Hw |- *; [by subst|].
  destruct Hs as (Hc & Hl & Hr & H0 & H1 & Hs). destruct (Z.testbit key c) eqn:E.
  - specialize (IHr c Hr Hw).
    assert (key ∉ keys l) as Hn by (intros H; apply H0 in H; congruence).
    destruct (remove_shape key r) as [r'|].
    + destruct IHr as [Hk Hr']. cbn [keys shape_ok]. rewrite Hk. split; [set_solver|].
      split_and!; try done; try lia; set_solver.
    + rewrite IHr. split; [set_solver|]. eapply shape_ok_mono; [|done]. lia.
  - specialize (IHl c Hl Hw).
    assert (key ∉ keys r) as Hn by (intros H; apply H1 in H; congruence).
    destruct (remove_shape key l) as [l'|].
    + destruct IHl as [Hk Hl']. cbn [keys shape_ok]. rewrite Hk. split; [set_solver|].
      split_and!; try done; try lia; set_solver.
    + rewrite IHl. split; [set_solver|]. eapply shape_ok_mono; [|done]. lia.
Qed.

(** The leftmost or rightmost leaf. *)
Fixpoint extreme_key (top : bool) (s : shape) : Z :=
  match s with
  | SLeaf _ k => k
  | SInner _ _ l r => extreme_key top (if top then r else l)
  end.

Lemma extreme_key_in top s : extreme_key top s ∈ keys s.
Proof.
  induction s as [h k|h c l IHl r IHr]; cbn; [by apply elem_of_singleton|].
  destruct top; set_solver.
Qed.

Lemma extreme_key_bound b (top : bool) s k :
  shape_ok b s -> k ∈ keys s ->
  if top then k <= extreme_key top s else extreme_key top s <= k.
Proof.
  revert b. induction s as [h k'|h c l IHl r IHr]; intros b Hs; cbn.
  { intros ->%elem_of_singleton. by destruct top. }
  destruct Hs as (Hc & Hl & Hr & H0 & H1 & Hs).
  assert (forall x y, x ∈ keys l -> y ∈ keys r -> x < y) as Hlt.
  { intros x y Hx Hy. apply (bit_order c); [lia|apply Hs; set_solver|auto..]. }
  intros [H|H]%elem_of_union; destruct top; cbn in *; eauto.
  - pose proof (Hlt _ _ H (extreme_key_in true r)). lia.
  - pose proof (Hlt _ _ (extreme_key_in false l) H). lia.
Qed.

(* ------------------------------------------------------------------ *)
(** * Walks in the store *)

Section walks.
Context (sha256 : list Z -> list Z) (t : StateTree) (owner : AccountId).
Let rd := cb_read_node sha256 t owner.

Lemma child_dir key c a b :
  0 <= c < 64 -> child (cb_dir key c) a b = if Z.testbit key c then b else a.
Proof. intros Hc. rewrite cb_dir_bit by done. by destruct (Z.testbit key c). Qed.

Lemma walk_stored fuel key s bound :
  stored rd s -> shape_ok bound s -> bound <= 64 -> bound < Z.of_nat fuel ->
  0 <= bound -> cb_walk sha256 fuel t owner key (handle s) = Some (walk_key key s).
Proof.
  revert fuel bound. induction s as [h k|h c l IHl r IHr]; intros fuel bound Hst Hs Hb Hf H0;
    (destruct fuel as [|fuel]; [lia|]); cbn [cb_walk handle].
  - cbn in Hst. fold rd. by rewrite Hst.
  - destruct Hst as (E & Hl & Hr). destruct Hs as (Hc & Hsl & Hsr & _).
    fold rd. rewrite E, child_dir by lia. cbn [walk_key].
    destruct (Z.testbit key c); [apply (IHr _ c)|apply (IHl _ c)]; try done; lia.
Qed.

Lemma extreme_stored fuel top s bound :
  stored rd s -> shape_ok bound s -> bound < Z.of_nat fuel -> 0 <= bound ->
  cb_extreme_loop sha256 fuel t owner (Z.b2z top) (handle s) = Some (extreme_key top s).
Proof.
  revert fuel bound. induction s as [h k|h c l IHl r IHr]; intros fuel bound Hst Hs Hf H0;
    (destruct fuel as [|fuel]; [lia|]); cbn [cb_extreme_loop handle].
  - cbn in Hst. fold rd. by rewrite Hst.
  - destruct Hst as (E & Hl & Hr). destruct Hs as (Hc & Hsl & Hsr & _).
    fold rd. rewrite E. cbn [extreme_key].
    destruct top; cbn [Z.b2z child]; [apply (IHr _ c)|apply (IHl _ c)]; try done; lia.
Qed.

(** An inner node with the subtree [x] in direction [b] and the subtree [y] in
    the other. *)
Definition inner (b : bool) (h c : Z) (x y : shape) : shape :=
  if b then SInner h c y x else SInner h c x y.
Definition inner_node (b : bool) (c x y : Z) : CbNode := if b then Inner c y x else Inner c x y.

Lemma inner_handles b h c x y : handles (inner b h c x y) ≡ₚ h :: handles x ++ handles y.
Proof. destruct b; cbn; [by rewrite (Permutation_app_comm (handles y))|done]. Qed.

Lemma inner_handle b h c x y : handle (inner b h c x y) = h.
Proof. by destruct b. Qed.

Lemma inner_stored rd' b h c x y :
  stored rd' (inner b h c x y) <->
  rd' h = inner_node b c (handle x) (handle y) /\ stored rd' x /\ stored rd' y.
Proof. destruct b; cbn; naive_solver. Qed.

(** The handles of an inner node with distinct handles. *)
Lemma inner_NoDup b h c x y :
  NoDup (handles (inner b h c x y)) ->
  NoDup (handles x) /\ (forall z, z ∈ handles x -> z <> h /\ z ∉ handles y) /\
  (forall z, z ∈ handles y -> z <> h /\ z ∉ handles x) /\
  (forall z, z = h \/ z ∈ handles x \/ z ∈ handles y -> z ∈ handles (inner b h c x y)).
Proof.
  rewrite inner_handles. intros [Hh (Hx & Hxy & Hy)%NoDup_app]%NoDup_cons.
  rewrite elem_of_app in Hh. split_and!; [done| | |].
  - intros z Hz. split; [intros ->; tauto|by apply Hxy].
  - intros z Hz. split; [intros ->; tauto|]. intros Hz'. by apply (Hxy z).
  - intros z. rewrite inner_handles, elem_of_cons, elem_of_app. tauto.
Qed.

(** ** Insertion *)

Definition relink (n : CbNode) (d value : Z) : CbNode :=
  match n with
  | Inner c l r => if d =? 0 then Inner c value r else Inner c l value
  | Leaf k => Leaf k
  end.

Lemma relink_inner b c x y v : relink (inner_node b c x y) (Z.b2z b) v = inner_node b c v y.
Proof. by destruct b. Qed.

Section insertion.
Variables key cb hl hi : Z.
Let ins := insert_shape key cb hl hi.

(** The nodes a new inner node over [cur] needs. *)
Definition new_stored (rd' : Z -> CbNode) (cur : Z) : Prop :=
  rd' hl = Leaf key /\ rd' hi = inner_node (negb (Z.testbit key cb)) cb cur hl.

Lemma new_inner_stored rd' s :
  stored rd' s -> new_stored rd' (handle s) ->
  stored rd' (new_inner key cb hl hi s) /\ handle (new_inner key cb hl hi s) = hi.
Proof. intros Hs [Hl Hi]. unfold new_inner. by destruct (Z.testbit key cb). Qed.

(** The descent of an insertion stops at the root of the shape, or below a node
    [p]; relinking [p] gives the new shape. *)
Definition relinks (s : shape) (link link' : Link) (cur : Z) : Prop :=
  (link' = link /\ cur = handle s /\ ins s = new_inner key cb hl hi s) \/
  (exists p d c a b, link' = LinkChild p d /\ p ∈ handles s /\ rd p = Inner c a b /\
     cur ∈ handles s /\ handle (ins s) = handle s /\
     forall rd', (forall h, h ∈ handles s -> h <> p -> rd' h = rd h) ->
       rd' p = relink (rd p) d hi -> new_stored rd' cur -> stored rd' (ins s)).

Lemma relinks_inner b h c x y link link' cur :
  stored rd (inner b h c x y) -> NoDup (handles (inner b h c x y)) ->
  ins (inner b h c x y) = inner b h c (ins x) y ->
  relinks x (LinkChild h (Z.b2z b)) link' cur -> relinks (inner b h c x y) link link' cur.
Proof.
  rewrite inner_stored. intros (E & Hx & Hy) (_ & Hinx & Hiny & Hin)%inner_NoDup Hins Hrel.
  right. rewrite Hins, !inner_handle.
  assert (forall rd' p, (forall z, z ∈ handles (inner b h c x y) -> z <> p -> rd' z = rd z) ->
    p ∉ handles y -> stored rd' y) as Hsy.
  { intros rd' p Hag Hp. apply (stored_ext rd); [|done]. intros z Hz. apply Hag; [auto|by intros ->]. }
  destruct Hrel as [(-> & -> & Ei)|(p & d & c' & a & e & -> & Hp & Ep & Hcur & Eh & Hnew)].
  - assert (exists a e, rd h = Inner c a e) as (a & e & Eh)
      by (rewrite E; destruct b; by do 2 eexists).
    exists h, (Z.b2z b), c, a, e. split_and!; try done; [by auto|by auto using handle_in|].
    intros rd' Hag Hrel Hn. rewrite inner_stored, Hrel, E, relink_inner, Ei.
    destruct (new_inner_stored rd' x) as [Hs ->]; [|done|].
    { apply (stored_ext rd); [|done]. intros z Hz. destruct (Hinx z Hz). apply Hag; auto. }
    split_and!; [done..|]. apply (Hsy rd' h); [done|]. intros Hh. by destruct (Hiny h Hh).
  - exists p, d, c', a, e. destruct (Hinx p Hp). split_and!; try done; [by auto..|].
    intros rd' Hag Hrel Hn. rewrite inner_stored, Eh. split_and!; [rewrite <-E; apply Hag; auto| |].
    + apply Hnew; try done. intros z Hz. apply Hag. auto.
    + by apply (Hsy rd' p).
Qed.

Lemma descend_stored fuel s bound link :
  stored rd s -> shape_ok bound s -> NoDup (handles s) ->
  bound <= 64 -> bound < Z.of_nat fuel -> 0 <= bound ->
  exists link' cur, cb_descend sha256 fuel t owner key cb link (handle s) = Some (link', cur) /\
    relinks s link link' cur.
Proof.
  revert fuel bound link.
  induction s as [h k|h c l IHl r IHr]; intros fuel bound link Hst Hs Hnd Hb Hf H0;
    (destruct fuel as [|fuel]; [lia|]); cbn [cb_descend handle].
  { cbn in Hst. fold rd. rewrite Hst. exists link, h. split; [done|]. by left. }
  pose proof Hst as (E & Hl & Hr). destruct Hs as (Hc & Hsl & Hsr & _).
  fold rd. rewrite E. destruct (cb <? c) eqn:Ecb.
  2:{ exists link, h. split; [done|]. left. cbn. by rewrite Ecb. }
  rewrite child_dir, cb_dir_bit by lia.
  assert (NoDup (handles l) /\ NoDup (handles r)) as [Hndl Hndr].
  { split; [apply (inner_NoDup false h c l r Hnd)|apply (inner_NoDup true h c r l Hnd)]. }
  destruct (Z.testbit key c) eqn:Ek.
  - destruct (IHr fuel c (LinkChild h 1)) as (link' & cur & Hd & Hcase); try done; try lia.
    exists link', cur. split; [done|]. apply (relinks_inner true h c r l link); try done.
    cbn. by rewrite Ecb, Ek.
  - destruct (IHl fuel c (LinkChild h 0)) as (link' & cur & Hd & Hcase); try done; try lia.
    exists link', cur. split; [done|]. apply (relinks_inner false h c l r link); try done.
    cbn. by rewrite Ecb, Ek.
Qed.
End insertion.

(** ** Removal *)

Section removal.
Variable key : Z.

(** The walk of a removal through the shape [s], entered by [link], ends at a
    leaf [p] below [q].  Linking the other child of [q] in its place gives the
    shape without the leaf. *)
Definition unlinks (s : shape) (link : Link) (res : CbPath) : Prop :=
  exists p q d lq c a b s',
    path_p res = p /\ path_q res = q /\ qdir res = d /\ link_q res = Some lq /\
    rd q = Inner c a b /\ remove_shape key s = Some s' /\ handles s ≡ₚ p :: q :: handles s' /\
    let other := if d =? 0 then b else a in
    ((lq = link /\ handle s' = other /\ stored rd s') \/
     (exists g d', lq = LinkChild g d' /\ g ∈ handles s' /\ (exists c a b, rd g = Inner c a b) /\
        handle s' = handle s /\
        forall rd', (forall h, h ∈ handles s' -> h <> g -> rd' h = rd h) ->
          rd' g = relink (rd g) d' other -> stored rd' s')).

Lemma unlinks_leaf b h c hx k y link lp :
  stored rd (inner b h c (SLeaf hx k) y) ->
  remove_shape key (inner b h c (SLeaf hx k) y) = Some y ->
  unlinks (inner b h c (SLeaf hx k) y) link
    {| link_p := lp; path_p := hx; link_q := Some link; path_q := h; qdir := Z.b2z b |}.
Proof.
  rewrite inner_stored. intros (E & Hx & Hy) Hr. unfold inner_node in E.
  destruct b; (do 8 eexists; split_and!; [done..|exact E|exact Hr| |by left]); cbn; solve_Permutation.
Qed.

Lemma unlinks_inner b h c x y link res :
  stored rd (inner b h c x y) -> NoDup (handles (inner b h c x y)) ->
  (forall x', remove_shape key x = Some x' ->
     remove_shape key (inner b h c x y) = Some (inner b h c x' y)) ->
  unlinks x (LinkChild h (Z.b2z b)) res -> unlinks (inner b h c x y) link res.
Proof.
  rewrite inner_stored. intros (E & Hx & Hy) (_ & Hinx & Hiny & _)%inner_NoDup Hrem
    (p & q & d & lq & c' & a & e & x' & Ep & Eq & Ed & El & Er & Hr & Hperm & Hcase).
  exists p, q, d, lq, c', a, e, (inner b h c x' y). split_and!; try done; [by apply Hrem| |].
  { rewrite !inner_handles, Hperm. solve_Permutation. }
  assert (forall z, z ∈ handles x' -> z <> h) as Hx'
    by (intros z Hz; apply Hinx; rewrite Hperm; by do 2 right).
  assert (forall z, z = h \/ z ∈ handles x' \/ z ∈ handles y -> z ∈ handles (inner b h c x' y)) as Hin
    by (intros z; rewrite inner_handles, elem_of_cons, elem_of_app; tauto).
  right. rewrite !inner_handle. destruct Hcase as [(-> & Eh & Hs)|(g & d' & -> & Hg & Hrg & Eh & Hs)].
  - exists h, (Z.b2z b). split_and!; try done; [by auto|rewrite E; destruct b; by do 3 eexists|].
    intros rd' Hag Hrel. rewrite inner_stored, Hrel, E, relink_inner, Eh. split_and!; [done| |].
    + apply (stored_ext rd); [|done]. auto.
    + apply (stored_ext rd); [|done]. intros z Hz. destruct (Hiny z Hz). auto.
  - exists g, d'. split_and!; try done; [by auto|].
    assert (g ∉ handles y) as Hgy by (apply Hinx; rewrite Hperm; by do 2 right).
    intros rd' Hag Hrel. rewrite inner_stored, Eh. split_and!.
    + rewrite <-E. apply Hag; [by auto|]. intros ->. by apply (Hx' g).
    + apply Hs; auto.
    + apply (stored_ext rd); [|done]. intros z Hz. apply Hag; [by auto|by intros ->].
Qed.

Lemma find_stored fuel s bound st :
  stored rd s -> shape_ok bound s -> NoDup (handles s) -> path_p st = handle s ->
  bound <= 64 -> bound < Z.of_nat fuel -> 0 <= bound ->
  exists res, cb_find sha256 fuel t owner key st =
      Some (if walk_key key s =? key then Some res else None) /\
    match s with SLeaf _ _ => res = st | SInner _ _ _ _ => unlinks s (link_p st) res end.
Proof.
  revert fuel bound st.
  induction s as [h k|h c l IHl r IHr]; intros fuel bound st Hst Hs Hnd Hp Hb Hf H0;
    (destruct fuel as [|fuel]; [lia|]); cbn [cb_find walk_key]; rewrite Hp; cbn [handle]; fold rd.
  { cbn in Hst. rewrite Hst. by exists st. }
  pose proof Hst as (E & Hl & Hr). destruct Hs as (Hc & Hsl & Hsr & _).
  assert (NoDup (handles l) /\ NoDup (handles r)) as [Hndl Hndr].
  { split; [apply (inner_NoDup false h c l r Hnd)|apply (inner_NoDup true h c r l Hnd)]. }
  rewrite E, child_dir, cb_dir_bit by lia. destruct (Z.testbit key c) eqn:Ek; cbn [Z.b2z].
  - edestruct (IHr fuel c {| link_p := LinkChild h 1; path_p := handle r; link_q := Some (link_p st);
      path_q := h; qdir := 1 |}) as (res & Hd & Hcase); try done; try lia.
    exists res. split; [done|]. destruct r as [hr kr|hr cr rl rr].
    + subst res. apply (unlinks_leaf true); [done|]. cbn. by rewrite Ek.
    + eapply (unlinks_inner true h c _ l); [done|done| |exact Hcase].
      intros x' Hx'. change (inner true h c ?x l) with (SInner h c l x). cbn [remove_shape].
      cbn [remove_shape] in Hx'. by rewrite Ek, Hx'.
  - edestruct (IHl fuel c {| link_p := LinkChild h 0; path_p := handle l; link_q := Some (link_p st);
      path_q := h; qdir := 0 |}) as (res & Hd & Hcase); try done; try lia.
    exists res. split; [done|]. destruct l as [hr kr|hr cr rl rr].
    + subst res. apply (unlinks_leaf false); [done|]. cbn. by rewrite Ek.
    + eapply (unlinks_inner false h c _ r); [done|done| |exact Hcase].
      intros x' Hx'. change (inner false h c ?x r) with (SInner h c x r). cbn [remove_shape].
      cbn [remove_shape] in Hx'. by rewrite Ek, Hx'.
Qed.
End removal.
End walks.
