(* ===== verification/Ladder.v ===== *)
(** The price ladders of [CritBit] implement finite sets of prices.

    The storage slots of the two ladders of a market are told apart, the arena
    gets an invariant (each handle handed out is in one of the two trees or in
    the free list), every operation is shown to keep it and to follow the shapes
    of [CritTree], and the ladders refine two sets of prices. *)

From S2P Require Import Prelude SigAlgo Account StateTree Slots CritBit CritTree.
Local Open Scope Z_scope.
Local Open Scope ace_scope.

(* ------------------------------------------------------------------ *)
(** * Slots *)

(** The storage slots of the two ladders of a market. *)
Inductive Slot : Type :=
| SlotRoot (side : OrderSide)
| SlotNode (h : Z)
| SlotAlloc
| SlotFree.

Definition slot_ok (s : Slot) : Prop := match s with SlotNode h => is_u64 h | _ => True end.

Definition slot_message (s : Slot) : list Z :=
  match s with
  | SlotRoot side => ascii_bytes "ace-liquid:cb-root:v1" ++ [side_byte side]
  | SlotNode h => ascii_bytes "ace-liquid:cb-node:v1" ++ le_bytes 8 h
  | SlotAlloc => ascii_bytes "ace-liquid:cb-alloc:v1" ++ []
  | SlotFree => ascii_bytes "ace-liquid:cb-free:v1" ++ []
  end.

(** No two slots of the ladders collide. *)
Definition slots_apart (sha256 : list Z -> list Z) : Prop :=
  forall a b, slot_ok a -> slot_ok b ->
    sha256 (slot_message a) = sha256 (slot_message b) -> slot_message a = slot_message b.

Lemma slot_message_inj a b : slot_ok a -> slot_ok b -> slot_message a = slot_message b -> a = b.
Proof.
  intros Ha Hb E. destruct a as [[]|h| |], b as [[]|h'| |]; try done; try (cbn in E; discriminate).
  apply app_inv_head in E. f_equal. apply (le_bytes_inj 8); try done;
    unfold slot_ok, is_u64, u64_max in *; cbn; lia.
Qed.

Section arena.
Context (sha256 : list Z -> list Z) (owner : AccountId).
Hypothesis Hshape : digest_shape sha256.
Hypothesis Hapart : slots_apart sha256.

Definition slot_key (s : Slot) : Z := digest sha256 (slot_message s).
Definition slot_value (t : StateTree) (s : Slot) : Z := get_storage t owner (slot_key s).
Definition put_slot (t : StateTree) (s : Slot) (v : Z) : StateTree :=
  set_storage t owner (slot_key s) v.

Lemma put_slot_eq t s v : slot_value (put_slot t s v) s = v.
Proof. apply get_set_storage. Qed.

Lemma put_slot_ne t a b v :
  slot_ok a -> slot_ok b -> a <> b -> slot_value (put_slot t a v) b = slot_value t b.
Proof.
  intros Ha Hb Hne. apply get_set_storage_ne. right. intros E. apply Hne, slot_message_inj; try done. apply Hapart; try done. by apply digest_eq.
Qed.

(** ** Values *)

Definition raw_value (tag crit a b : Z) : Z :=
  be_num ([tag; crit] ++ replicate 6 0 ++ le_bytes 8 a ++ le_bytes 8 b ++ replicate 8 0).

Lemma raw_value_bytes tag crit a b :
  is_byte tag -> is_byte crit ->
  be_bytes 32 (raw_value tag crit a b) =
    [tag; crit] ++ replicate 6 0 ++ le_bytes 8 a ++ le_bytes 8 b ++ replicate 8 0.
Proof.
  intros Ht Hc. apply value_bytes; [by rewrite !length_app, !length_le_bytes|].
  repeat (apply Forall_app; split); auto using le_bytes_byte; by repeat constructor.
Qed.

Lemma raw_value_read tag crit a b :
  is_byte tag -> is_byte crit -> is_u64 a -> is_u64 b ->
  byte_of (raw_value tag crit a b) 0 = tag /\ byte_of (raw_value tag crit a b) 1 = crit /\
  u64_at (raw_value tag crit a b) 8 = a /\ u64_at (raw_value tag crit a b) 16 = b.
Proof.
  unfold is_u64, u64_max. intros Ht Hc Ha Hb. unfold byte_of, u64_at.
  rewrite raw_value_bytes by done. split_and!; [done..| |].
  - change (drop 8 _) with (le_bytes 8 a ++ le_bytes 8 b ++ replicate 8 0).
    rewrite take_app_length' by (by rewrite length_le_bytes). apply le_num_bytes. cbn. lia.
  - replace (drop 16 _) with (le_bytes 8 b ++ replicate 8 0).
    + rewrite take_app_length' by (by rewrite length_le_bytes). apply le_num_bytes. cbn. lia.
    + change (drop 16 ?l) with (drop 8 (drop 8 l)). change (drop 8 ([tag; crit] ++ ?l)) with (drop 6 l).
      change (drop 6 (replicate 6 0 ++ ?l)) with l. by rewrite drop_app_length' by (by rewrite length_le_bytes).
Qed.

(** ** The four kinds of slot *)

Definition rd (t : StateTree) (h : Z) : CbNode := cb_read_node sha256 t owner h.
Definition root (t : StateTree) (side : OrderSide) : Z := read_root sha256 t owner side.
Definition top (t : StateTree) : Z := slot_u64 t owner (alloc_slot sha256).
Definition fhead (t : StateTree) : Z := slot_u64 t owner (freelist_slot sha256).

(** Two states that agree on all slots but [s]. *)
Definition differ_at (s : Slot) (t t' : StateTree) : Prop :=
  forall s', slot_ok s' -> s' <> s -> slot_value t' s' = slot_value t s'.

Lemma write_u64_differ t s v : slot_ok s -> differ_at s t (write_slot_u64 t owner (slot_key s) v).
Proof. intros Hs s' Hs' Hne. by apply put_slot_ne. Qed.

Lemma write_raw_differ t h tag crit a b :
  is_u64 h -> differ_at (SlotNode h) t (write_raw_node sha256 t owner h tag crit a b).
Proof. intros Hs s' Hs' Hne. by apply (put_slot_ne t (SlotNode h)). Qed.

Lemma differ_rd s t t' h : differ_at s t t' -> is_u64 h -> SlotNode h <> s -> rd t' h = rd t h.
Proof.
  intros Hd Hh Hne. pose proof (Hd (SlotNode h) Hh Hne) as E. unfold rd, cb_read_node.
  by change (get_storage ?x owner (node_slot sha256 h)) with (slot_value x (SlotNode h)); rewrite E.
Qed.

Lemma differ_root s t t' side : differ_at s t t' -> SlotRoot side <> s -> root t' side = root t side.
Proof. intros Hd Hne. exact (f_equal (fun x => u64_at x 0) (Hd (SlotRoot side) I Hne)). Qed.

Lemma differ_top s t t' : differ_at s t t' -> SlotAlloc <> s -> top t' = top t.
Proof. intros Hd Hne. exact (f_equal (fun x => u64_at x 0) (Hd SlotAlloc I Hne)). Qed.

Lemma differ_fhead s t t' : differ_at s t t' -> SlotFree <> s -> fhead t' = fhead t.
Proof. intros Hd Hne. exact (f_equal (fun x => u64_at x 0) (Hd SlotFree I Hne)). Qed.

Lemma write_u64_value t s v :
  is_u64 v -> slot_u64 (write_slot_u64 t owner (slot_key s) v) owner (slot_key s) = v.
Proof.
  intros Hv. etrans; [exact (f_equal (fun x => u64_at x 0) (put_slot_eq t s _))|].
  by apply u64_at_write.
Qed.

Lemma write_raw_value t h tag crit a b :
  is_byte tag -> is_byte crit -> is_u64 a -> is_u64 b ->
  rd (write_raw_node sha256 t owner h tag crit a b) h =
    if tag =? TAG_INNER then Inner crit a b else Leaf a.
Proof.
  intros Ht Hc Ha Hb. unfold rd, cb_read_node.
  replace (get_storage _ owner (node_slot sha256 h)) with (raw_value tag crit a b)
    by (symmetry; exact (put_slot_eq t (SlotNode h) _)).
  by destruct (raw_value_read tag crit a b Ht Hc Ha Hb) as (-> & -> & -> & ->).
Qed.

Lemma top_write t v :
  is_u64 v -> top (write_slot_u64 t owner (alloc_slot sha256) v) = v /\
  differ_at SlotAlloc t (write_slot_u64 t owner (alloc_slot sha256) v).
Proof.
  intros Hv. split; [exact (write_u64_value t SlotAlloc v Hv)|exact (write_u64_differ t SlotAlloc v I)].
Qed.

Lemma fhead_write t v :
  is_u64 v -> fhead (write_slot_u64 t owner (freelist_slot sha256) v) = v /\
  differ_at SlotFree t (write_slot_u64 t owner (freelist_slot sha256) v).
Proof.
  intros Hv. split; [exact (write_u64_value t SlotFree v Hv)|exact (write_u64_differ t SlotFree v I)].
Qed.

Lemma root_write t side v :
  is_u64 v -> root (write_root sha256 t owner side v) side = v /\
  differ_at (SlotRoot side) t (write_root sha256 t owner side v).
Proof.
  intros Hv.
  split; [exact (write_u64_value t (SlotRoot side) v Hv)|exact (write_u64_differ t (SlotRoot side) v I)].
Qed.

(** What a node reads has 64-bit fields. *)
Definition node_u64 (n : CbNode) : Prop :=
  match n with Inner _ l r => is_u64 l /\ is_u64 r | Leaf k => is_u64 k end.

Lemma read_node_u64 t h : node_u64 (cb_read_node sha256 t owner h).
Proof.
  unfold cb_read_node. destruct (_ =? _); cbn; split_and?; apply u64_at_range; lia.
Qed.

(** The decoding of a slot is not to be unfolded any more. *)
#[local] Opaque cb_read_node slot_u64.

(** ** The invariant *)

Definition hd_of (o : option shape) : Z := match o with Some s => handle s | None => 0 end.
Definition handles_of (o : option shape) : list Z := match o with Some s => handles s | None => [] end.
Definition keys_of (o : option shape) : gset Z := match o with Some s => keys s | None => ∅ end.

(** The free list. *)
Fixpoint chain (rd' : Z -> CbNode) (hd : Z) (free : list Z) : Prop :=
  match free with
  | [] => hd = 0
  | h :: free => hd = h /\ exists next, rd' h = Leaf next /\ chain rd' next free
  end.

(** The next handle the arena would hand out. *)
Definition limit (t : StateTree) : Z := Z.max (top t) 1.

(** All handles handed out: those of the two trees, those just allocated, and
    the free ones. *)
Definition nodes (f : OrderSide -> option shape) (own free : list Z) : list Z :=
  handles_of (f Buy) ++ handles_of (f Sell) ++ own ++ free.

Record ladders (t : StateTree) (f : OrderSide -> option shape) (own free : list Z) : Prop := {
  lad_root side : root t side = hd_of (f side);
  lad_tree side s : f side = Some s -> stored (rd t) s /\ shape_ok 64 s;
  lad_chain : chain (rd t) (fhead t) free;
  lad_nodup : NoDup (nodes f own free);
  lad_range h : h ∈ nodes f own free -> 1 <= h < limit t;
  lad_count : Z.of_nat (length (nodes f own free)) = limit t - 1;
  lad_limit : limit t <= u64_max;
}.

Lemma ladders_move t t' f f' own own' free free' :
  ladders t f own free -> nodes f' own' free' ≡ₚ nodes f own free -> limit t' = limit t ->
  (forall side, root t' side = hd_of (f' side)) ->
  (forall side s, f' side = Some s -> stored (rd t') s /\ shape_ok 64 s) ->
  chain (rd t') (fhead t') free' -> ladders t' f' own' free'.
Proof.
  intros [_ _ _ Hn Hr Hc Hl] Hp El Hroot Htree Hch. split; try done; rewrite ?El; try done.
  - by rewrite Hp.
  - intros h. rewrite Hp. apply Hr.
  - by rewrite Hp.
Qed.

Lemma chain_ext rd1 rd2 hd free :
  (forall h, h ∈ free -> rd2 h = rd1 h) -> chain rd1 hd free -> chain rd2 hd free.
Proof.
  revert hd. induction free as [|h free IH]; intros hd H; [done|]. cbn.
  intros [-> (next & E & Hch)]. split; [done|]. exists next. rewrite H by by left. split; [done|].
  apply IH; [|done]. intros x Hx. apply H. by right.
Qed.

Lemma elem_of_nodes f own free h :
  h ∈ nodes f own free <-> (exists side s, f side = Some s /\ h ∈ handles s) \/ h ∈ own \/ h ∈ free.
Proof.
  unfold nodes. rewrite !elem_of_app. split.
  - intros [H|[H|H]]; [left; exists Buy|left; exists Sell|by right];
      (destruct (f _) as [s|]; [by exists s|by apply elem_of_nil in H]).
  - intros [([] & s & E & H)|H]; rewrite ?E; auto.
Qed.

Lemma lad_u64 t f own free h : ladders t f own free -> h ∈ nodes f own free -> is_u64 h.
Proof.
  intros L H. pose proof (lad_range _ _ _ _ L h H). pose proof (lad_limit _ _ _ _ L).
  unfold is_u64. lia.
Qed.

(** Handles of the trees, own handles and free handles are different. *)
Lemma own_apart t f own free h :
  ladders t f own free -> h ∈ own ->
  (forall side s, f side = Some s -> h ∉ handles s) /\ h ∉ free.
Proof.
  intros L Ho. pose proof (lad_nodup _ _ _ _ L) as Hn. unfold nodes in Hn.
  apply NoDup_app in Hn as (_ & Hb & (_ & Hs & (_ & Hof & _)%NoDup_app)%NoDup_app).
  split; [|by apply Hof]. intros [] s E Hh; [apply (Hb h)|apply (Hs h)]; rewrite ?E; try done;
    rewrite !elem_of_app; auto.
Qed.

(** A write to a handle that is not in a tree or free changes nothing. *)
Lemma own_write t t' f own free h :
  ladders t f own free -> h ∈ own -> differ_at (SlotNode h) t t' -> ladders t' f own free.
Proof.
  intros L Ho Hd. destruct (own_apart _ _ _ _ _ L Ho) as [Ht Hf].
  assert (forall x, x ∈ nodes f own free -> x <> h -> rd t' x = rd t x) as Hrd
    by (intros x Hx Hne; apply (differ_rd (SlotNode h)); [done|by eapply lad_u64|congruence]).
  apply (ladders_move t t' f f own own free free); try done.
  - unfold limit. by rewrite (differ_top _ _ _ Hd).
  - intros side. rewrite (differ_root _ _ _ _ Hd) by done. apply (lad_root _ _ _ _ L).
  - intros side s E. destruct (lad_tree _ _ _ _ L side s E) as [Hs Hok]. split; [|done].
    apply (stored_ext (rd t)); [|done]. intros x Hx.
    apply Hrd; [apply elem_of_nodes; left; eauto|]. intros ->. by apply (Ht side s E).
  - rewrite (differ_fhead _ _ _ Hd) by done. apply (chain_ext (rd t)); [|exact (lad_chain _ _ _ _ L)].
    intros x Hx. apply Hrd; [apply elem_of_nodes; auto|by intros ->].
Qed.

(** No node changed. *)
Lemma trees_ext t t' f own free side s :
  ladders t f own free -> (forall x, is_u64 x -> rd t' x = rd t x) ->
  f side = Some s -> stored (rd t') s /\ shape_ok 64 s.
Proof.
  intros L Hrd E. destruct (lad_tree _ _ _ _ L side s E) as [Hs Hok]. split; [|done].
  apply (stored_ext (rd t)); [|done]. intros x Hx. apply Hrd. eapply lad_u64; [done|].
  apply elem_of_nodes. left. eauto.
Qed.

Lemma alloc_grow t f own :
  ladders t f own [] -> limit t < u64_max ->
  let t' := write_slot_u64 t owner (alloc_slot sha256) (u64_add (limit t) 1) in
  ladders t' f (limit t :: own) [] /\ (forall x, is_u64 x -> rd t' x = rd t x) /\
  limit t' = limit t + 1.
Proof.
  intros L Hlt t'. assert (1 <= limit t) as H1 by (unfold limit; lia).
  assert (u64_add (limit t) 1 = limit t + 1) as Eadd by (apply u64_add_small; unfold u64_max in *; lia).
  assert (top t' = limit t + 1 /\ differ_at SlotAlloc t t') as [Etop Hd]
    by (unfold t'; rewrite Eadd; apply top_write; unfold is_u64; lia).
  assert (limit t' = limit t + 1) as El by (unfold limit at 1; lia).
  assert (forall x, is_u64 x -> rd t' x = rd t x) as Hrd by (intros x Hx; by eapply differ_rd).
  assert (limit t ∉ nodes f own []) as Hfresh by (intros H; apply (lad_range _ _ _ _ L) in H; lia).
  assert (nodes f (limit t :: own) [] ≡ₚ limit t :: nodes f own []) as Hp
    by (unfold nodes; cbn; solve_Permutation).
  split_and!; try done. split.
  - intros side. rewrite (differ_root _ _ _ _ Hd) by done. apply (lad_root _ _ _ _ L).
  - intros side s. by eapply trees_ext.
  - cbn. rewrite (differ_fhead _ _ _ Hd) by done. exact (lad_chain _ _ _ _ L).
  - rewrite Hp. apply NoDup_cons. split; [done|exact (lad_nodup _ _ _ _ L)].
  - intros x. rewrite Hp. intros [->|Hx]%elem_of_cons; [lia|]. apply (lad_range _ _ _ _ L) in Hx. lia.
  - rewrite Hp. cbn [length]. pose proof (lad_count _ _ _ _ L). lia.
  - lia.
Qed.

Lemma alloc_reuse t f own h free next :
  ladders t f own (h :: free) -> rd t h = Leaf next -> chain (rd t) next free ->
  let t' := write_slot_u64 t owner (freelist_slot sha256) next in
  ladders t' f (h :: own) free /\ (forall x, is_u64 x -> rd t' x = rd t x) /\ limit t' = limit t.
Proof.
  intros L En Hch t'. assert (forall x, x ∈ h :: free -> is_u64 x) as Hu
    by (intros x Hx; eapply lad_u64; [done|]; apply elem_of_nodes; auto).
  assert (fhead t' = next /\ differ_at SlotFree t t') as [Ef Hd].
  { apply fhead_write. destruct free as [|h' free]; cbn in Hch; [by subst|].
    destruct Hch as [-> _]. apply Hu. right. by left. }
  assert (forall x, is_u64 x -> rd t' x = rd t x) as Hrd by (intros x Hx; by eapply differ_rd).
  assert (limit t' = limit t) as El by (unfold limit; by rewrite (differ_top _ _ _ Hd)).
  split_and!; try done. apply (ladders_move t t' f f own _ (h :: free) free); try done.
  - unfold nodes. solve_Permutation.
  - intros side. rewrite (differ_root _ _ _ _ Hd) by done. apply (lad_root _ _ _ _ L).
  - intros side s. by eapply trees_ext.
  - rewrite Ef. apply (chain_ext (rd t)); [|done]. intros x Hx. apply Hrd, Hu. by right.
Qed.

Lemma alloc_ok t f own free :
  ladders t f own free -> limit t < u64_max ->
  exists t' h free', cb_alloc sha256 t owner = (t', h) /\ ladders t' f (h :: own) free' /\
    (forall x, is_u64 x -> rd t' x = rd t x) /\ limit t <= limit t' <= limit t + 1 /\
    (limit t' = limit t \/ free' = []).
Proof.
  intros L Hlt. unfold cb_alloc. fold (fhead t) (top t) (limit t).
  pose proof (lad_chain _ _ _ _ L) as Hch. destruct free as [|h free]; cbn in Hch.
  - rewrite Hch. destruct (alloc_grow t f own L Hlt) as (L' & Hrd & El).
    do 3 eexists. split_and!; [reflexivity|exact L'|exact Hrd|lia..|by right].
  - destruct Hch as [Hh (next & En & Hch)].
    assert (1 <= h < limit t) as Hr by (apply (lad_range _ _ _ _ L), elem_of_nodes; right; right; by left).
    rewrite Hh. destruct (Z.eqb_spec h 0); [lia|]. cbn [negb]. fold (rd t h). rewrite En.
    destruct (alloc_reuse t f own h free next L En Hch) as (L' & Hrd & El).
    do 3 eexists. split_and!; [reflexivity|exact L'|exact Hrd|lia..|by left].
Qed.

Lemma free_effect t h :
  is_u64 h ->
  let t' := cb_free sha256 t owner h in
  rd t' h = Leaf (fhead t) /\ fhead t' = h /\ (forall x, is_u64 x -> x <> h -> rd t' x = rd t x) /\
  (forall side, root t' side = root t side) /\ limit t' = limit t.
Proof.
  intros Hh. unfold cb_free. fold (fhead t). cbv zeta.
  assert (is_byte 0 /\ is_u64 0) as [Hb0 Hu0] by (unfold is_byte, is_u64, u64_max; lia).
  pose proof (write_raw_differ t h TAG_FREE 0 (fhead t) 0 Hh) as Hd1.
  pose proof (write_raw_value t h TAG_FREE 0 (fhead t) 0 Hb0 Hb0 (slot_u64_range owner t _) Hu0) as Eh.
  change (TAG_FREE =? TAG_INNER) with false in Eh. cbv iota in Eh.
  remember (write_raw_node sha256 t owner h TAG_FREE 0 (fhead t) 0) as t1 eqn:E1. clear E1.
  destruct (fhead_write t1 h Hh) as [Ef Hd2].
  remember (write_slot_u64 t1 owner (freelist_slot sha256) h) as t2 eqn:E2. clear E2.
  split_and!; [by rewrite (differ_rd _ _ _ _ Hd2)|done| | |].
  - intros x Hx Hne. rewrite (differ_rd _ _ _ _ Hd2) by done.
    apply (differ_rd _ _ _ _ Hd1); [done|by intros [= ->]].
  - intros side. by rewrite (differ_root _ _ _ _ Hd2), (differ_root _ _ _ _ Hd1).
  - unfold limit. by rewrite (differ_top _ _ _ Hd2), (differ_top _ _ _ Hd1).
Qed.

(** ** Writing nodes and links *)

Definition node_ok (n : CbNode) : Prop :=
  match n with
  | Inner c l r => 0 <= c < 64 /\ is_u64 l /\ is_u64 r
  | Leaf k => is_u64 k
  end.

Lemma write_node_ok t h n :
  is_u64 h -> node_ok n ->
  rd (cb_write_node sha256 t owner h n) h = n /\
  differ_at (SlotNode h) t (cb_write_node sha256 t owner h n).
Proof.
  intros Hh Hn. assert (is_byte 0 /\ is_byte 1 /\ is_byte 2 /\ is_u64 0) as (H0 & H1 & H2 & Hu)
    by (unfold is_byte, is_u64, u64_max; lia).
  destruct n as [c l r|k]; cbn [cb_write_node node_ok] in *.
  - destruct Hn as (Hc & Hl & Hr). assert (is_byte c) as Hb by (unfold is_byte; lia).
    split; [exact (write_raw_value t h TAG_INNER c l r H1 Hb Hl Hr)|by apply write_raw_differ].
  - split; [exact (write_raw_value t h TAG_LEAF 0 k 0 H2 H0 Hn Hu)|by apply write_raw_differ].
Qed.

Lemma stored_node_ok rd' b s p :
  stored rd' s -> shape_ok b s -> b <= 64 -> (forall h, h ∈ handles s -> is_u64 h) ->
  p ∈ handles s -> node_ok (rd' p).
Proof.
  revert b. induction s as [h k|h c l IHl r IHr]; intros b Hst Hs Hb Hu Hp; cbn in *.
  - apply list_elem_of_singleton in Hp as ->. by rewrite Hst.
  - destruct Hst as (E & Hl & Hr), Hs as (Hc & Hsl & Hsr & _).
    assert (forall x, x ∈ handles l \/ x ∈ handles r -> is_u64 x) as Hu'
      by (intros x Hx; apply Hu; right; by apply elem_of_app).
    apply elem_of_cons in Hp as [->|[Hp|Hp]%elem_of_app].
    + rewrite E. split_and!; [lia..|apply Hu'; left; apply handle_in|apply Hu'; right; apply handle_in].
    + apply (IHl c); auto; lia.
    + apply (IHr c); auto; lia.
Qed.

Lemma node_ok_relink n d v : node_ok n -> is_u64 v -> node_ok (relink n d v).
Proof. destruct n; cbn; [|done]. destruct (d =? 0); cbn; tauto. Qed.

Definition upd (f : OrderSide -> option shape) (side : OrderSide) (o : option shape)
    : OrderSide -> option shape :=
  fun side' => if decide (side' = side) then o else f side'.

Definition opposite (side : OrderSide) : OrderSide := match side with Buy => Sell | Sell => Buy end.

Lemma nodes_split f side own free :
  nodes f own free ≡ₚ handles_of (f side) ++ handles_of (f (opposite side)) ++ own ++ free.
Proof. unfold nodes. destruct side; cbn; [done|]. solve_Permutation. Qed.

Lemma nodes_upd f side o own free :
  nodes (upd f side o) own free ≡ₚ handles_of o ++ handles_of (f (opposite side)) ++ own ++ free.
Proof. rewrite (nodes_split _ side). by destruct side. Qed.

(** A new tree on one side. *)
Lemma ladders_swap t t' f side o own own' free free' :
  ladders t f own free -> handles_of o ++ own' ++ free' ≡ₚ handles_of (f side) ++ own ++ free ->
  root t' side = hd_of o -> root t' (opposite side) = root t (opposite side) ->
  limit t' = limit t -> (forall s, o = Some s -> stored (rd t') s /\ shape_ok 64 s) ->
  (forall h, h ∈ handles_of (f (opposite side)) -> rd t' h = rd t h) ->
  chain (rd t') (fhead t') free' -> ladders t' (upd f side o) own' free'.
Proof.
  intros L Hp Hr Hro Hl Ho Hrd Hch.
  apply (ladders_move t t' f (upd f side o) own own' free free'); try done.
  - rewrite nodes_upd, (nodes_split _ side).
    transitivity ((handles_of o ++ own' ++ free') ++ handles_of (f (opposite side))); [solve_Permutation|].
    rewrite Hp. solve_Permutation.
  - intros side'. unfold upd. destruct (decide (side' = side)) as [->|]; [done|].
    replace side' with (opposite side) by (by destruct side, side').
    rewrite Hro. apply (lad_root _ _ _ _ L).
  - intros side' s. unfold upd. destruct (decide (side' = side)) as [->|]; [apply Ho|].
    replace side' with (opposite side) by (by destruct side, side'). intros E.
    destruct (lad_tree _ _ _ _ L _ s E) as [Hs Hok]. split; [|done].
    apply (stored_ext (rd t)); [|done]. intros h Hh. apply Hrd. by rewrite E.
Qed.

(** Handles of the other tree and free handles are not of this tree or own. *)
Lemma far_apart t f side own free h :
  ladders t f own free -> h ∈ handles_of (f (opposite side)) \/ h ∈ free ->
  is_u64 h /\ (h ∉ handles_of (f side)) /\ (h ∉ own).
Proof.
  intros L Hh. pose proof (lad_nodup _ _ _ _ L) as Hn. rewrite (nodes_split _ side) in Hn.
  assert (h ∈ nodes f own free) as Hin by (rewrite (nodes_split _ side), !elem_of_app in *; tauto).
  split; [by eapply lad_u64|].
  assert (NoDup ((handles_of (f side) ++ own) ++ (handles_of (f (opposite side)) ++ free))) as Hn'.
  { eapply NoDup_Permutation_proper; [|exact Hn]. solve_Permutation. }
  apply NoDup_app in Hn' as (_ & Hn' & _).
  split; intros H; apply (Hn' h); rewrite elem_of_app; auto.
Qed.

(** The state changed only at slots of that side's tree and own handles. *)
Lemma ladders_upd t t' f side o own own' free :
  ladders t f own free -> handles_of o ++ own' ≡ₚ handles_of (f side) ++ own ->
  root t' side = hd_of o -> root t' (opposite side) = root t (opposite side) ->
  fhead t' = fhead t -> limit t' = limit t ->
  (forall s, o = Some s -> stored (rd t') s /\ shape_ok 64 s) ->
  (forall h, is_u64 h -> h ∉ handles_of (f side) -> h ∉ own -> rd t' h = rd t h) ->
  ladders t' (upd f side o) own' free.
Proof.
  intros L Hp Hr Hro Hf Hl Ho Hrd. apply (ladders_swap t t' f side o own own' free free); try done.
  - rewrite !app_assoc. by rewrite Hp.
  - intros h Hh. destruct (far_apart t f side own free h L) as (? & ? & ?); auto.
  - rewrite Hf. apply (chain_ext (rd t)); [|exact (lad_chain _ _ _ _ L)].
    intros h Hh. destruct (far_apart t f side own free h L) as (? & ? & ?); auto.
Qed.

Lemma set_link_child t side p d v :
  (exists c a b, rd t p = Inner c a b) ->
  set_link sha256 t owner side (LinkChild p d) v =
    Some (cb_write_node sha256 t owner p (relink (rd t p) d v)).
Proof. intros (c & a & b & E). unfold set_link. fold (rd t p). rewrite E. cbn. by destruct (d =? 0). Qed.

(** Linking a prepared inner node into the tree. *)
Lemma link_new t f side s key cb hl hi free link cur t0 :
  ladders t f [hi; hl] free -> f side = Some s ->
  (forall h, h ∈ handles s -> rd t h = rd t0 h) ->
  relinks sha256 t0 owner key cb hl hi s LinkRoot link cur ->
  new_stored key cb hl hi (rd t) cur -> shape_ok 64 (insert_shape key cb hl hi s) ->
  exists t', set_link sha256 t owner side link hi = Some t' /\
    ladders t' (upd f side (Some (insert_shape key cb hl hi s))) [] free /\ limit t' = limit t.
Proof.
  intros L Hf H0 Hrel [Hnl Hni] Hok.
  assert (forall h, h ∈ nodes f [hi; hl] free -> is_u64 h) as Hu by (intros h; by eapply lad_u64).
  assert (is_u64 hi) as Hhi by (apply Hu, elem_of_nodes; right; left; by left).
  assert (is_u64 hl) as Hhl by (apply Hu, elem_of_nodes; right; left; right; by left).
  assert (forall h, h ∈ handles s -> is_u64 h) as Hus by (intros h Hh; apply Hu, elem_of_nodes; eauto).
  destruct (lad_tree _ _ _ _ L side s Hf) as [Hst Hs].
  assert (handles_of (Some (insert_shape key cb hl hi s)) ++ [] ≡ₚ handles_of (f side) ++ [hi; hl]) as Hp
    by (rewrite Hf; cbn; rewrite handles_insert; solve_Permutation).
  destruct Hrel as [(-> & -> & Ei)|(p & d & c & a & b & -> & Hp' & Ep & _ & Eh & Hnew)].
  - exists (write_root sha256 t owner side hi). split; [done|].
    destruct (root_write t side hi Hhi) as [Hr Hd].
    assert (forall x, is_u64 x -> rd (write_root sha256 t owner side hi) x = rd t x) as Hrd
      by (intros x Hx; apply (differ_rd (SlotRoot side) t); [exact Hd|exact Hx|done]).
    assert (limit (write_root sha256 t owner side hi) = limit t) as El
      by (unfold limit; by rewrite (differ_top _ _ _ Hd)).
    destruct (new_inner_stored key cb hl hi (rd (write_root sha256 t owner side hi)) s) as [Hst' Hh].
    { apply (stored_ext (rd t)); auto. }
    { by split; rewrite Hrd. }
    split; [|done]. apply (ladders_upd t _ f side _ [hi; hl]); try done.
    + cbn [hd_of]. by rewrite Ei, Hh.
    + apply (differ_root _ _ _ _ Hd). by destruct side.
    + by apply (differ_fhead _ _ _ Hd).
    + intros s' [= <-]. by rewrite Ei in *.
    + intros h Hh' _ _. by apply Hrd.
  - exists (cb_write_node sha256 t owner p (relink (rd t p) d hi)).
    rewrite set_link_child by (rewrite H0 by done; eauto). split; [done|].
    assert (node_ok (relink (rd t p) d hi)) as Hno
      by (apply node_ok_relink; [|done]; by apply (stored_node_ok (rd t) 64 s)).
    destruct (write_node_ok t p (relink (rd t p) d hi) (Hus p Hp') Hno) as [Hwp Hd].
    remember (cb_write_node sha256 t owner p (relink (rd t p) d hi)) as t' eqn:Et'. clear Et'.
    assert (forall x, is_u64 x -> x <> p -> rd t' x = rd t x) as Hrd
      by (intros x Hx Hne; apply (differ_rd (SlotNode p) t); [exact Hd|exact Hx|by intros [= ->]]).
    destruct (own_apart _ _ _ _ hi L) as [Hai _]; [by left|].
    destruct (own_apart _ _ _ _ hl L) as [Hal _]; [right; by left|].
    assert (hi <> p /\ hl <> p) as [Hip Hlp]
      by (split; intros ->; [by apply (Hai side s Hf)|by apply (Hal side s Hf)]).
    assert (limit t' = limit t) as El by (unfold limit; by rewrite (differ_top _ _ _ Hd)).
    split; [|done]. apply (ladders_upd t t' f side _ [hi; hl]); try done.
    + rewrite (differ_root _ _ _ _ Hd) by done. cbn [hd_of]. rewrite Eh.
      rewrite (lad_root _ _ _ _ L side), Hf. done.
    + by apply (differ_root _ _ _ _ Hd).
    + by apply (differ_fhead _ _ _ Hd).
    + intros s' [= <-]. split; [|done]. apply Hnew.
      * intros h Hh Hne. by rewrite Hrd, H0 by auto.
      * by rewrite Hwp, H0.
      * by split; rewrite Hrd.
    + intros h Hh Hns _. apply Hrd; [done|]. intros ->. apply Hns. by rewrite Hf.
Qed.

(** ** Operations *)

Variable m : Z.
Hypothesis Hown : market_book_id sha256 m = owner.

(** The arena grew by at most [k], and only with an empty free list. *)
Definition grew (t t' : StateTree) (k : Z) (free' : list Z) : Prop :=
  limit t' <= limit t + k /\ (limit t' = limit t \/ free' = []).

(** The new leaf and the new inner node are allocated and written. *)
Lemma prepare_new t f free key cb cur :
  ladders t f [] free -> limit t + 2 <= u64_max -> is_u64 key -> 0 <= cb < 64 -> is_u64 cur ->
  exists t1 hl t3 hi free',
    cb_alloc sha256 t owner = (t1, hl) /\
    cb_alloc sha256 (cb_write_node sha256 t1 owner hl (Leaf key)) owner = (t3, hi) /\
    let t4 := cb_write_node sha256 t3 owner hi (inner_node (negb (Z.testbit key cb)) cb cur hl) in
    ladders t4 f [hi; hl] free' /\ new_stored key cb hl hi (rd t4) cur /\
    (forall side s h, f side = Some s -> h ∈ handles s -> rd t4 h = rd t h) /\ grew t t4 2 free'.
Proof.
  intros L Hlim Hk Hcb Hcur.
  destruct (alloc_ok t f [] free L) as (t1 & hl & free1 & E1 & L1 & Hrd1 & Hl1 & Hg1); [lia|].
  assert (is_u64 hl) as Hhl by (eapply lad_u64; [exact L1|]; apply elem_of_nodes; right; left; by left).
  destruct (write_node_ok t1 hl (Leaf key) Hhl Hk) as [Hw2 Hd2].
  remember (cb_write_node sha256 t1 owner hl (Leaf key)) as t2 eqn:Et2.
  pose proof (own_write t1 t2 f _ free1 hl L1 (list_elem_of_here _ _) Hd2) as L2.
  assert (limit t2 = limit t1) as El2 by (unfold limit; by rewrite (differ_top _ _ _ Hd2)).
  destruct (alloc_ok t2 f [hl] free1 L2) as (t3 & hi & free3 & E3 & L3 & Hrd3 & Hl3 & Hg3); [lia|].
  assert (is_u64 hi) as Hhi by (eapply lad_u64; [exact L3|]; apply elem_of_nodes; right; left; by left).
  assert (hi <> hl) as Hne.
  { intros ->. pose proof (lad_nodup _ _ _ _ L3) as Hn. unfold nodes in Hn.
    apply NoDup_app in Hn as (_ & _ & (_ & _ & (Hn & _ & _)%NoDup_app)%NoDup_app).
    by apply NoDup_cons in Hn as [[]%not_elem_of_cons _]. }
  exists t1, hl, t3, hi, free3. rewrite <-Et2. split_and!; [done..|]. intros t4.
  assert (node_ok (inner_node (negb (Z.testbit key cb)) cb cur hl)) as Hno
    by (unfold inner_node; destruct (negb _); cbn; tauto).
  destruct (write_node_ok t3 hi _ Hhi Hno) as [Hw4 Hd4]. fold t4 in Hw4, Hd4. clearbody t4.
  assert (limit t4 = limit t3) as El4 by (unfold limit; by rewrite (differ_top _ _ _ Hd4)).
  assert (forall x, is_u64 x -> x <> hi -> rd t4 x = rd t3 x) as Hrd4
    by (intros x Hx Hxne; apply (differ_rd (SlotNode hi) t3); [done..|by intros [= ->]]).
  split_and!.
  - exact (own_write t3 t4 f _ free3 hi L3 (list_elem_of_here _ _) Hd4).
  - split; [|done]. by rewrite Hrd4, Hrd3, Hw2 by done.
  - intros side s h Hf Hh.
    assert (is_u64 h) as Hu by (eapply lad_u64; [exact L3|]; apply elem_of_nodes; eauto).
    destruct (own_apart _ _ _ _ hi L3) as [Hai _]; [by left|].
    destruct (own_apart _ _ _ _ hl L3) as [Hal _]; [right; by left|].
    rewrite Hrd4, Hrd3 by (try done; by intros ->; apply (Hai side s Hf)).
    rewrite (differ_rd (SlotNode hl) t1 t2) by (try done; intros [= ->]; by apply (Hal side s Hf)).
    by apply Hrd1.
  - split; [lia|]. rewrite El4. destruct Hg3 as [E|E]; [|by right].
    destruct Hg1 as [E'| ->]; [left; lia|]. exfalso.
    pose proof (lad_count _ _ _ _ L3) as C3. pose proof (lad_count _ _ _ _ L2) as C2.
    unfold nodes in C3, C2. rewrite !length_app in C3, C2. cbn [length] in C3, C2. lia.
Qed.

Lemma insert_empty t f free side key :
  ladders t f [] free -> limit t + 2 <= u64_max -> is_u64 key -> f side = None ->
  exists t' h free', cb_insert sha256 t m side key = Some t' /\
    ladders t' (upd f side (Some (SLeaf h key))) [] free' /\ grew t t' 2 free'.
Proof.
  intros L Hlim Hk Hf. unfold cb_insert. rewrite Hown. fold (root t side).
  rewrite (lad_root _ _ _ _ L side), Hf, Z.eqb_refl.
  destruct (alloc_ok t f [] free L) as (t1 & h & free' & -> & L1 & _ & Hl1 & Hg1); [lia|].
  assert (is_u64 h) as Hh by (eapply lad_u64; [exact L1|]; apply elem_of_nodes; right; left; by left).
  destruct (write_node_ok t1 h (Leaf key) Hh Hk) as [Hw2 Hd2].
  remember (cb_write_node sha256 t1 owner h (Leaf key)) as t2 eqn:Et2. clear Et2.
  pose proof (own_write t1 t2 f _ free' h L1 (list_elem_of_here _ _) Hd2) as L2.
  destruct (root_write t2 side h Hh) as [Hr Hd].
  remember (write_root sha256 t2 owner side h) as t3 eqn:Et3. clear Et3.
  assert (limit t3 = limit t1) as El.
  { unfold limit. by rewrite (differ_top _ _ _ Hd), (differ_top _ _ _ Hd2). }
  exists t3, h, free'. split_and!; [done| |split; [lia|destruct Hg1; [left; lia|by right]]].
  apply (ladders_upd t2 t3 f side _ [h] []); try done.
  - by rewrite Hf.
  - apply (differ_root _ _ _ _ Hd). by destruct side.
  - by apply (differ_fhead _ _ _ Hd).
  - unfold limit. by rewrite (differ_top _ _ _ Hd).
  - intros s [= <-]. split; [|done]. cbn. by rewrite (differ_rd _ _ _ _ Hd).
  - intros x Hx _ _. by apply (differ_rd _ _ _ _ Hd).
Qed.

(** The facts about the tree of a side. *)
Lemma tree_facts t f free side s :
  ladders t f [] free -> f side = Some s ->
  stored (rd t) s /\ shape_ok 64 s /\ NoDup (handles s) /\ root t side = handle s /\
  1 <= handle s /\ (forall h, h ∈ handles s -> is_u64 h).
Proof.
  intros L Hf. destruct (lad_tree _ _ _ _ L side s Hf) as [Hst Hs].
  assert (forall h, h ∈ handles s -> h ∈ nodes f [] free) as Hin by (intros h Hh; apply elem_of_nodes; eauto).
  split_and!; try done.
  - pose proof (lad_nodup _ _ _ _ L) as Hn. rewrite (nodes_split _ side), Hf in Hn.
    by apply NoDup_app in Hn as (? & _).
  - by rewrite (lad_root _ _ _ _ L side), Hf.
  - pose proof (lad_range _ _ _ _ L _ (Hin _ (handle_in s))). lia.
  - intros h Hh. eapply lad_u64; [done|]. auto.
Qed.

Lemma relinks_cur t0 key cb hl hi s link link' cur :
  relinks sha256 t0 owner key cb hl hi s link link' cur -> cur ∈ handles s.
Proof. intros [(_ & -> & _)|(p & d & c & a & b & _ & _ & _ & H & _)]; [apply handle_in|done]. Qed.

Lemma insert_new t f free side s key :
  ladders t f [] free -> limit t + 2 <= u64_max -> is_u64 key -> f side = Some s ->
  walk_key key s <> key ->
  exists t' s' free', cb_insert sha256 t m side key = Some t' /\
    ladders t' (upd f side (Some s')) [] free' /\ keys s' = {[ key ]} ∪ keys s /\ grew t t' 2 free'.
Proof.
  intros L Hlim Hk Hf Hne.
  destruct (tree_facts t f free side s L Hf) as (Hst & Hs & Hnd & Hroot & Hh & Hu).
  assert (is_u64 (walk_key key s)) as Hwu by (eapply keys_u64; [done|apply walk_key_in]).
  destruct (highest_bit_spec key (walk_key key s) Hk Hwu) as (Hcb & Hsame & Hbit); [done|].
  unfold cb_insert. rewrite Hown. fold (root t side). rewrite Hroot.
  destruct (Z.eqb_spec (handle s) 0); [lia|].
  rewrite (walk_stored sha256 t owner cb_fuel key s 64) by done. cbn [mbind option_bind].
  destruct (Z.eqb_spec (walk_key key s) key); [done|].
  set (cb := highest_bit (Z.lxor key (walk_key key s))) in *.
  destruct (descend_stored sha256 t owner key cb 0 0 cb_fuel s 64 LinkRoot) as (link & cur & Hd & Hrel0);
    try done.
  rewrite Hd. cbn [mbind option_bind].
  destruct (prepare_new t f free key cb cur) as (t1 & hl & t3 & hi & free' & E1 & E3 & L4 & Hnew & Hrd & Hg);
    try done; [by eapply Hu, relinks_cur|].
  rewrite E1, E3. rewrite cb_dir_bit by done.
  destruct (descend_stored sha256 t owner key cb hl hi cb_fuel s 64 LinkRoot) as (link' & cur' & Hd' & Hrel);
    try done.
  rewrite Hd in Hd'. injection Hd' as <- <-.
  destruct (link_new _ f side s key cb hl hi free' link cur t L4 Hf) as (t' & Et & L' & El); try done.
  { intros h. by apply (Hrd side s). }
  { by apply insert_shape_ok. }
  exists t', (insert_shape key cb hl hi s), free'. split_and!; [|done|apply keys_insert|].
  - rewrite <-Et. by destruct (Z.testbit key cb).
  - destruct Hg as [Hg1 Hg2]. split; [lia|]. by rewrite El.
Qed.

Lemma insert_ok t f free side key :
  ladders t f [] free -> limit t + 2 <= u64_max -> is_u64 key ->
  exists t' o free', cb_insert sha256 t m side key = Some t' /\
    ladders t' (upd f side o) [] free' /\ keys_of o = {[ key ]} ∪ keys_of (f side) /\
    grew t t' 2 free'.
Proof.
  intros L Hlim Hk. destruct (f side) as [s|] eqn:Hf.
  - destruct (decide (walk_key key s = key)) as [E|E].
    + destruct (tree_facts t f free side s L Hf) as (Hst & Hs & Hnd & Hroot & Hh & Hu).
      exists t, (Some s), free. split_and!.
      * unfold cb_insert. rewrite Hown. fold (root t side). rewrite Hroot.
        destruct (Z.eqb_spec (handle s) 0); [lia|].
        rewrite (walk_stored sha256 t owner cb_fuel key s 64) by done. cbn. by rewrite E, Z.eqb_refl.
      * apply (ladders_upd t t f side (Some s) [] []); try done; [by rewrite Hf|].
        by intros s' [= <-].
      * cbn. rewrite <-E. pose proof (walk_key_in key s). set_solver.
      * split; [lia|by left].
    + destruct (insert_new t f free side s key) as (t' & s' & free' & ? & ? & ? & ?); try done.
      by exists t', (Some s'), free'.
  - destruct (insert_empty t f free side key) as (t' & h & free' & ? & ? & ?); try done.
    exists t', (Some (SLeaf h key)), free'. split_and!; try done. cbn. set_solver.
Qed.

(** Removal of the only leaf. *)
Lemma remove_leaf t f free side h key :
  ladders t f [] free -> f side = Some (SLeaf h key) ->
  ladders (write_root sha256 (cb_free sha256 t owner h) owner side 0) (upd f side None) [] (h :: free) /\
  limit (write_root sha256 (cb_free sha256 t owner h) owner side 0) = limit t.
Proof.
  intros L Hf. destruct (tree_facts t f free side _ L Hf) as (_ & _ & _ & _ & _ & Hu).
  assert (is_u64 h) as Hh by (apply Hu; by left). clear Hu.
  destruct (free_effect t h Hh) as (Eh & Ef & Hrd & Hroots & El).
  remember (cb_free sha256 t owner h) as t1 eqn:E1. clear E1.
  destruct (root_write t1 side 0) as [Hr Hd]; [unfold is_u64, u64_max; lia|].
  remember (write_root sha256 t1 owner side 0) as t2 eqn:E2. clear E2.
  assert (forall x, is_u64 x -> rd t2 x = rd t1 x) as Hrd2
    by (intros x Hx; by apply (differ_rd _ _ _ _ Hd)).
  assert (limit t2 = limit t) as El2 by (rewrite <-El; unfold limit; by rewrite (differ_top _ _ _ Hd)).
  split; [|done]. apply (ladders_swap t t2 f side None [] [] free); try done.
  - by rewrite Hf.
  - rewrite (differ_root _ _ _ _ Hd), Hroots; [done|by destruct side].
  - intros x Hx. destruct (far_apart t f side [] free x L) as (Hx' & Hn & _); [by left|].
    rewrite Hrd2 by done. apply Hrd; [done|]. intros ->. apply Hn. rewrite Hf. by left.
  - cbn. rewrite (differ_fhead _ _ _ Hd), Ef by done. split; [done|].
    exists (fhead t). rewrite Hrd2 by done. split; [done|].
    apply (chain_ext (rd t)); [|exact (lad_chain _ _ _ _ L)].
    intros x Hx. destruct (far_apart t f side [] free x L) as (Hx' & Hn & _); [by right|].
    rewrite Hrd2 by done. apply Hrd; [done|]. intros ->. apply Hn. rewrite Hf. by left.
Qed.

(** Two nodes [p] and [q] leave the tree: [p] is freed, the tree is relinked at
    a slot other than those of [p] and [q], and [q] is freed. *)
Lemma remove_two t f free side s s' p q t2 :
  ladders t f [] free -> f side = Some s -> handles s ≡ₚ p :: q :: handles s' ->
  let t1 := cb_free sha256 t owner p in
  root t2 side = handle s' -> root t2 (opposite side) = root t1 (opposite side) ->
  fhead t2 = fhead t1 -> limit t2 = limit t1 ->
  (forall x, is_u64 x -> x ∉ handles s' -> rd t2 x = rd t1 x) ->
  stored (rd t2) s' -> shape_ok 64 s' ->
  ladders (cb_free sha256 t2 owner q) (upd f side (Some s')) [] (q :: p :: free) /\
  limit (cb_free sha256 t2 owner q) = limit t.
Proof.
  intros L Hf Hp t1 Hr Hro Hfh Hl Hrd Hst Hok.
  destruct (tree_facts t f free side s L Hf) as (_ & _ & Hnd & _ & _ & Hu).
  rewrite Hp in Hnd. apply NoDup_cons in Hnd as [[Hpq Hps]%not_elem_of_cons Hnd].
  apply NoDup_cons in Hnd as [Hqs _].
  assert (is_u64 p) as Hup by (apply Hu; rewrite Hp; by left).
  assert (is_u64 q) as Huq by (apply Hu; rewrite Hp; right; by left).
  assert (forall x, x ∈ handles s' -> is_u64 x) as Hus by (intros x Hx; apply Hu; rewrite Hp; by do 2 right).
  destruct (free_effect t p Hup) as (Ep & Efp & Hrdp & Hrootp & Elp). fold t1 in Ep, Efp, Hrdp, Hrootp, Elp.
  clearbody t1. destruct (free_effect t2 q Huq) as (Eq & Efq & Hrdq & Hrootq & Elq).
  remember (cb_free sha256 t2 owner q) as t3 eqn:E3. clear E3.
  assert (limit t3 = limit t) as El3 by congruence.
  assert (forall x, is_u64 x -> x <> p -> x <> q -> x ∉ handles s' -> rd t3 x = rd t x) as Hfar.
  { intros x Hx Hxp Hxq Hxs. by rewrite Hrdq, Hrd, Hrdp. }
  assert (forall x, x ∈ handles_of (f (opposite side)) \/ x ∈ free -> rd t3 x = rd t x) as Hkeep.
  { intros x Hx. destruct (far_apart t f side [] free x L Hx) as (Hxu & Hxn & _).
    rewrite Hf in Hxn. cbn in Hxn. rewrite Hp, !not_elem_of_cons in Hxn. apply Hfar; tauto. }
  split; [|done]. apply (ladders_swap t t3 f side (Some s') [] [] free); try done.
  - rewrite Hf. cbn [handles_of]. rewrite Hp. solve_Permutation.
  - by rewrite Hrootq.
  - by rewrite Hrootq, Hro, Hrootp.
  - intros s0 [= <-]. split; [|done]. apply (stored_ext (rd t2)); [|done].
    intros x Hx. apply Hrdq; [auto|by intros ->].
  - auto.
  - cbn. split; [done|]. exists p. rewrite Eq, Hfh, Efp. split; [done|]. split; [done|].
    exists (fhead t). split; [by rewrite Hrdq, Hrd|].
    apply (chain_ext (rd t)); [|exact (lad_chain _ _ _ _ L)]. auto.
Qed.

Lemma remove_inner t f free side s key res :
  ladders t f [] free -> f side = Some s -> walk_key key s = key ->
  unlinks sha256 t owner key s LinkRoot res ->
  exists t2 lq c a b t3 s',
    link_q res = Some lq /\
    cb_read_node sha256 (cb_free sha256 t owner (path_p res)) owner (path_q res) = Inner c a b /\
    set_link sha256 (cb_free sha256 t owner (path_p res)) owner side lq
      (if qdir res =? 0 then b else a) = Some t2 /\
    t3 = cb_free sha256 t2 owner (path_q res) /\ remove_shape key s = Some s' /\
    ladders t3 (upd f side (Some s')) [] (path_q res :: path_p res :: free) /\ limit t3 = limit t.
Proof.
  intros L Hf Hw (p & q & d & lq & c & a & b & s' & Ep & Eq & Ed & El & Eq' & Hrem & Hperm & Hcase).
  subst p q d.
  destruct (tree_facts t f free side s L Hf) as (Hst & Hs & Hnd & Hroot & _ & Hu).
  pose proof (remove_shape_ok 64 key s Hs Hw) as Hrs. rewrite Hrem in Hrs. destruct Hrs as [_ Hok'].
  set (p := path_p res) in *. set (q := path_q res) in *.
  set (other := if qdir res =? 0 then b else a) in *.
  rewrite Hperm in Hnd. apply NoDup_cons in Hnd as [[Hpq Hps]%not_elem_of_cons Hnd].
  assert (is_u64 p) as Hup by (apply Hu; rewrite Hperm; by left).
  assert (forall x, x ∈ handles s' -> is_u64 x) as Hus
    by (intros x Hx; apply Hu; rewrite Hperm; by do 2 right).
  assert (q ∈ handles s) as Hqs by (rewrite Hperm; right; by left).
  destruct (free_effect t p Hup) as (_ & _ & Hrdp & Hrootp & _).
  pose proof (remove_two t f free side s s' p q) as Htwo.
  remember (cb_free sha256 t owner p) as t1 eqn:E1.
  assert (rd t1 q = Inner c a b) as Eq1 by (rewrite Hrdp; auto).
  assert (is_u64 other) as Huo.
  { pose proof (stored_node_ok (rd t) 64 s q Hst Hs) as Hno.
    change (rd t q) with (cb_read_node sha256 t owner q) in Hno.
    rewrite Eq' in Hno. destruct Hno as (_ & Ha & Hb); [lia|done|done|].
    unfold other. by destruct (_ =? 0). }
  destruct Hcase as [(-> & Eo & Hst')|(g & d' & -> & Hg & Hgi & Eh & Hst')].
  - destruct (root_write t1 side other Huo) as [Hr Hd].
    destruct (Htwo (write_root sha256 t1 owner side other)) as [L3 El3]; try done.
    + by rewrite Hr.
    + apply (differ_root _ _ _ _ Hd). by destruct side.
    + by apply (differ_fhead _ _ _ Hd).
    + unfold limit. by rewrite (differ_top _ _ _ Hd).
    + intros x Hx _. by apply (differ_rd _ _ _ _ Hd).
    + apply (stored_ext (rd t)); [|done]. intros x Hx. rewrite (differ_rd _ _ _ _ Hd) by auto.
      apply Hrdp; [auto|by intros ->].
    + do 7 eexists. split_and!; [done|exact Eq1|done|done|done|exact L3|exact El3].
  - assert (g <> p) as Hgp by by intros ->.
    assert (rd t1 g = rd t g) as Eg by auto.
    assert (node_ok (relink (rd t1 g) d' other)) as Hno.
    { apply node_ok_relink; [|done]. rewrite Eg. apply (stored_node_ok (rd t) 64 s); try done.
      rewrite Hperm. by do 2 right. }
    destruct (write_node_ok t1 g _ (Hus g Hg) Hno) as [Hwg Hd].
    assert (set_link sha256 t1 owner side (LinkChild g d') other =
      Some (cb_write_node sha256 t1 owner g (relink (rd t1 g) d' other))) as Hsl
      by (apply set_link_child; by rewrite Eg).
    remember (cb_write_node sha256 t1 owner g (relink (rd t1 g) d' other)) as t2 eqn:E2. clear E2.
    destruct (Htwo t2) as [L3 El3]; try done.
    + rewrite (differ_root _ _ _ _ Hd), Hrootp, Hroot by done. done.
    + by apply (differ_root _ _ _ _ Hd).
    + by apply (differ_fhead _ _ _ Hd).
    + unfold limit. by rewrite (differ_top _ _ _ Hd).
    + intros x Hx Hn. apply (differ_rd _ _ _ _ Hd); [done|]. by intros [= ->].
    + apply Hst'.
      * intros x Hx Hne. rewrite (differ_rd _ _ _ _ Hd) by (auto; by intros [= ->]).
        apply Hrdp; [auto|by intros ->].
      * rewrite Hwg. by rewrite Eg.
    + do 7 eexists. split_and!; [done|exact Eq1|exact Hsl|done|done|exact L3|exact El3].
Qed.

Lemma remove_ok t f free side key :
  ladders t f [] free ->
  exists t' o free', cb_remove sha256 t m side key = Some t' /\
    ladders t' (upd f side o) [] free' /\ keys_of o = keys_of (f side) ∖ {[ key ]} /\
    limit t' = limit t.
Proof.
  intros L. assert (ladders t (upd f side (f side)) [] free) as Lsame.
  { apply (ladders_upd t t f side (f side) [] []); try done; [apply (lad_root _ _ _ _ L)|].
    apply (lad_tree _ _ _ _ L). }
  unfold cb_remove. rewrite Hown. fold (root t side).
  destruct (f side) as [s|] eqn:Hf.
  2:{ rewrite (lad_root _ _ _ _ L side), Hf. exists t, None, free. split_and!; try done. set_solver. }
  destruct (tree_facts t f free side s L Hf) as (Hst & Hs & Hnd & Hroot & Hh & Hu).
  rewrite Hroot. destruct (Z.eqb_spec (handle s) 0); [lia|].
  edestruct (find_stored sha256 t owner key cb_fuel s 64 {| link_p := LinkRoot; path_p := handle s;
    link_q := None; path_q := 0; qdir := 0 |}) as (res & -> & Hres); try done.
  cbn [mbind option_bind]. destruct (Z.eqb_spec (walk_key key s) key) as [E|E].
  2:{ exists t, (Some s), free. split_and!; try done. cbn.
      assert (key ∉ keys s) by (intros H; by apply E, (walk_key_mem 64)). set_solver. }
  destruct s as [h k|h c l r].
  - subst res. cbn in E. subst k. cbn [link_q path_p]. destruct (remove_leaf t f free side h key L Hf).
    eexists _, None, _. split_and!; [done|done| |done]. cbn. set_solver.
  - destruct (remove_inner t f free side _ key res L Hf E Hres)
      as (t2 & lq & c' & a & b & t3 & s' & -> & -> & -> & -> & Hrem & L3 & El).
    cbn [mbind option_bind]. eexists _, (Some s'), _. split_and!; [done|done| |done].
    pose proof (remove_shape_ok 64 key _ Hs E) as Hrs. rewrite Hrem in Hrs. apply Hrs.
Qed.

(** The smallest or the largest element of a set, as an answer of the ladder. *)
Definition extreme_of (which : bool) (keys : gset Z) (answer : option Z) : Prop :=
  match answer with
  | None => keys = ∅
  | Some k => k ∈ keys /\ forall x, x ∈ keys -> if which then x <= k else k <= x
  end.

Lemma extreme_ok t f free side which :
  ladders t f [] free ->
  exists answer, cb_extreme sha256 t m side (Z.b2z which) = Some answer /\
    extreme_of which (keys_of (f side)) answer.
Proof.
  intros L. unfold cb_extreme. rewrite Hown. fold (root t side). destruct (f side) as [s|] eqn:Hf.
  - destruct (tree_facts t f free side s L Hf) as (Hst & Hs & _ & Hroot & Hh & _).
    rewrite Hroot. destruct (Z.eqb_spec (handle s) 0); [lia|].
    rewrite (extreme_stored sha256 t owner cb_fuel which s 64) by done.
    exists (Some (extreme_key which s)). split; [done|]. split; [apply extreme_key_in|].
    intros x Hx. by apply (extreme_key_bound 64).
  - rewrite (lad_root _ _ _ _ L side), Hf. by exists None.
Qed.

(** The invariant depends on the ladder slots only. *)
Lemma ladders_ext t t' f own free :
  (forall s, slot_ok s -> slot_value t' s = slot_value t s) -> ladders t f own free ->
  ladders t' f own free.
Proof.
  intros H L. assert (differ_at SlotFree t t' /\ differ_at SlotAlloc t t') as [Hd Hd']
    by (split; intros s Hs _; by apply H).
  assert (forall x, is_u64 x -> rd t' x = rd t x) as Hrd by (intros x Hx; by apply (differ_rd _ _ _ _ Hd)).
  apply (ladders_move t t' f f own own free free); try done.
  - unfold limit. by rewrite (differ_top _ _ _ Hd).
  - intros side. rewrite (differ_root _ _ _ _ Hd) by done. apply (lad_root _ _ _ _ L).
  - intros side s. by eapply trees_ext.
  - rewrite (differ_fhead _ _ _ Hd') by done. apply (chain_ext (rd t)); [|exact (lad_chain _ _ _ _ L)].
    intros h Hh. apply Hrd. eapply lad_u64; [done|]. apply elem_of_nodes. auto.
Qed.

(** ** What the operations leave alone *)

(** Everything but the ladder slots of this account. *)
Definition only_ladder (t t' : StateTree) : Prop :=
  forall id k, (id = owner -> forall s, slot_ok s -> slot_key s <> k) ->
    get_storage t' id k = get_storage t id k.

#[local] Instance only_ladder_preorder : PreOrder only_ladder.
Proof. split; [by intros t id k _|]. intros t1 t2 t3 H12 H23 id k Hk. by rewrite H23, H12. Qed.

Lemma only_put t s v : slot_ok s -> only_ladder t (put_slot t s v).
Proof.
  intros Hs id k Hk. unfold put_slot, get_storage. cbn.
  destruct (decide (id = owner)) as [->|]; [|by rewrite lookup_insert_ne].
  rewrite lookup_insert_eq. cbn. rewrite lookup_insert_ne by auto.
  by destruct (contract_storage t !! owner).
Qed.

Lemma only_write_root t side v : only_ladder t (write_root sha256 t owner side v).
Proof. exact (only_put t (SlotRoot side) _ I). Qed.
Lemma only_write_node t h n : is_u64 h -> only_ladder t (cb_write_node sha256 t owner h n).
Proof. intros Hh. destruct n; exact (only_put t (SlotNode h) _ Hh). Qed.

Definition link_ok (link : Link) : Prop :=
  match link with LinkRoot => True | LinkChild p _ => is_u64 p end.

Lemma only_set_link t side link v t' :
  link_ok link -> set_link sha256 t owner side link v = Some t' -> only_ladder t t'.
Proof.
  unfold set_link. destruct link as [|p idx]; intros Hp; [intros [= <-]; apply only_write_root|].
  destruct (cb_read_node sha256 t owner p); [|done].
  destruct (idx =? 0); intros [= <-]; exact (only_write_node t p (Inner _ _ _) Hp).
Qed.

Lemma only_alloc t : only_ladder t (fst (cb_alloc sha256 t owner)) /\ is_u64 (snd (cb_alloc sha256 t owner)).
Proof.
  unfold cb_alloc. destruct (negb _); cbn [fst snd].
  - split; [exact (only_put t SlotFree _ I)|apply slot_u64_range].
  - split; [exact (only_put t SlotAlloc _ I)|].
    pose proof (slot_u64_range owner t (alloc_slot sha256)) as H. unfold is_u64, u64_max in *. lia.
Qed.

Lemma only_free t h : is_u64 h -> only_ladder t (cb_free sha256 t owner h).
Proof.
  intros Hh. unfold cb_free. generalize (slot_u64 t owner (freelist_slot sha256)) as v. intros v.
  transitivity (write_raw_node sha256 t owner h TAG_FREE 0 v 0);
    [exact (only_put t (SlotNode h) _ Hh)|exact (only_put _ SlotFree _ I)].
Qed.

Lemma child_u64 t h c l r d :
  cb_read_node sha256 t owner h = Inner c l r -> is_u64 (child d l r).
Proof.
  intros E. pose proof (read_node_u64 t h) as H. rewrite E in H. unfold child.
  by destruct H, (d =? 0).
Qed.

Lemma descend_link fuel t key cb link cur link' cur' :
  link_ok link -> is_u64 cur ->
  cb_descend sha256 fuel t owner key cb link cur = Some (link', cur') -> link_ok link'.
Proof.
  revert link cur. induction fuel as [|fuel IH]; intros link cur Hl Hc; [done|]. cbn [cb_descend].
  destruct (cb_read_node sha256 t owner cur) as [c l r|k] eqn:E; [|by intros [= <- _]].
  destruct (cb <? c); [|by intros [= <- _]]. apply IH; [done|]. by eapply child_u64.
Qed.

Definition path_ok (s : CbPath) : Prop :=
  link_ok (link_p s) /\ is_u64 (path_p s) /\ is_u64 (path_q s) /\
  (forall l, link_q s = Some l -> link_ok l).

Lemma find_path fuel t key s res :
  path_ok s -> cb_find sha256 fuel t owner key s = Some (Some res) -> path_ok res.
Proof.
  revert s. induction fuel as [|fuel IH]; intros s Hs; [done|]. cbn [cb_find].
  destruct (cb_read_node sha256 t owner (path_p s)) as [c l r|k] eqn:E.
  - apply IH. destruct Hs as (Hl & Hp & _). split_and!; try done; [by eapply child_u64|].
    by intros l' [= <-].
  - destruct (k =? key); [by intros [= <-]|done].
Qed.

Lemma only_insert t side key t' : cb_insert sha256 t m side key = Some t' -> only_ladder t t'.
Proof.
  unfold cb_insert. rewrite Hown. destruct (_ =? 0).
  - destruct (only_alloc t) as [H1 Hu]. destruct (cb_alloc sha256 t owner) as [t1 h]. cbn in H1, Hu.
    intros [= <-]. etrans; [exact H1|]. etrans; [exact (only_write_node t1 h (Leaf key) Hu)|].
    apply only_write_root.
  - destruct (cb_walk _ _ _ _ _ _) as [leaf|]; [|done]. cbn [mbind option_bind].
    destruct (_ =? key); [by intros [= <-]|].
    destruct (cb_descend _ _ _ _ _ _ _ _) as [[link cur]|] eqn:Ed; [|done]. cbn [mbind option_bind].
    apply descend_link in Ed; [|done|apply slot_u64_range].
    destruct (only_alloc t) as [H1 Hu]. destruct (cb_alloc sha256 t owner) as [t1 hl]. cbn in H1, Hu.
    set (t2 := cb_write_node sha256 t1 owner hl (Leaf key)).
    destruct (only_alloc t2) as [H3 Hu3]. destruct (cb_alloc sha256 t2 owner) as [t3 hi].
    cbn in H3, Hu3. intros E. etrans; [exact H1|]. etrans; [exact (only_write_node t1 hl (Leaf key) Hu)|].
    etrans; [exact H3|]. destruct (_ =? 0);
      (etrans; [|by eapply only_set_link]; exact (only_write_node t3 hi (Inner _ _ _) Hu3)).
Qed.

Lemma only_remove t side key t' : cb_remove sha256 t m side key = Some t' -> only_ladder t t'.
Proof.
  unfold cb_remove. rewrite Hown. destruct (_ =? 0); [by intros [= <-]|].
  destruct (cb_find _ _ _ _ _ _) as [[res|]|] eqn:Ef; cbn [mbind option_bind]; [|by intros [= <-]|done].
  apply find_path in Ef as (_ & Hp & Hq & Hl);
    [|split_and!; [done|apply slot_u64_range|unfold is_u64, u64_max; cbn; lia|done]].
  destruct (link_q res) as [lq|].
  - destruct (cb_read_node _ _ _ _); [|done].
    destruct (set_link _ _ _ _ _ _) as [t2|] eqn:Es; [|done]. cbn [mbind option_bind]. intros [= <-].
    etrans; [exact (only_free t (path_p res) Hp)|].
    etrans; [eapply only_set_link; [|exact Es]; by apply Hl|]. exact (only_free t2 (path_q res) Hq).
  - intros [= <-]. etrans; [exact (only_free t (path_p res) Hp)|apply only_write_root].
Qed.

(** An arena that was never used. *)
Lemma fresh_ladders t :
  (forall s, slot_ok s -> slot_value t s = 0) -> ladders t (fun _ => None) [] [] /\ limit t = 1.
Proof.
  intros H0.
  assert (forall s, slot_ok s -> u64_at (slot_value t s) 0 = 0) as Hz by (intros s Hs; by rewrite H0).
  assert (top t = 0) as Et by exact (Hz SlotAlloc I).
  assert (limit t = 1) as El by (unfold limit; by rewrite Et).
  split; [|done]. split.
  - intros side. exact (Hz (SlotRoot side) I).
  - done.
  - exact (Hz SlotFree I).
  - constructor.
  - by intros h ?%elem_of_nil.
  - by rewrite El.
  - rewrite El. unfold u64_max. lia.
Qed.

(** The nodes of two trees, counted by their keys. *)
Lemma used_bound t f :
  ladders t f [] [] ->
  limit t - 1 <= 2 * (Z.of_nat (size (keys_of (f Buy))) + Z.of_nat (size (keys_of (f Sell)))).
Proof.
  intros L. rewrite <-(lad_count _ _ _ _ L). unfold nodes. rewrite !length_app. cbn [length].
  assert (forall side, Z.of_nat (length (handles_of (f side))) <= 2 * Z.of_nat (size (keys_of (f side)))) as H.
  { intros side. destruct (f side) as [s|] eqn:E; [|done]. cbn [handles_of keys_of].
    rewrite (length_handles 64); [lia|]. by apply (lad_tree _ _ _ _ L side). }
  pose proof (H Buy). pose proof (H Sell). lia.
Qed.
End arena.

(* ------------------------------------------------------------------ *)
(** * The specification: two sets of prices *)

Inductive LadderOp : Type :=
| LadderInsert (side : OrderSide) (key : Z)
| LadderRemove (side : OrderSide) (key : Z).

Definition ladder_op_ok (op : LadderOp) : Prop :=
  match op with LadderInsert _ key | LadderRemove _ key => is_u64 key end.

Definition set_step (sets : OrderSide -> gset Z) (op : LadderOp) : OrderSide -> gset Z :=
  fun side =>
    match op with
    | LadderInsert side' key => if decide (side = side') then {[ key ]} ∪ sets side else sets side
    | LadderRemove side' key => if decide (side = side') then sets side ∖ {[ key ]} else sets side
    end.

Definition levels (sets : OrderSide -> gset Z) : Z :=
  Z.of_nat (size (sets Buy)) + Z.of_nat (size (sets Sell)).

(** The largest number of levels at any time. *)
Fixpoint peak (sets : OrderSide -> gset Z) (ops : list LadderOp) : Z :=
  match ops with
  | [] => levels sets
  | op :: ops => Z.max (levels sets) (peak (set_step sets op) ops)
  end.

Lemma peak_levels sets ops : levels sets <= peak sets ops.
Proof. destruct ops; cbn [peak]; lia. Qed.

Section run.
Context (sha256 : list Z -> list Z) (m : Z).

Definition ladder_step (t : StateTree) (op : LadderOp) : option StateTree :=
  match op with
  | LadderInsert side key => cb_insert sha256 t m side key
  | LadderRemove side key => cb_remove sha256 t m side key
  end.

Fixpoint run_ladder (t : StateTree) (ops : list LadderOp) : option StateTree :=
  match ops with
  | [] => Some t
  | op :: ops => t ← ladder_step t op; run_ladder t ops
  end.

Hypothesis Hshape : digest_shape sha256.
Hypothesis Hapart : slots_apart sha256.
Let owner := market_book_id sha256 m.

(** The storage holds the two sets. *)
Definition holds (t : StateTree) (sets : OrderSide -> gset Z) (bound : Z) : Prop :=
  exists f free, ladders sha256 owner t f [] free /\ (forall side, keys_of (f side) = sets side) /\
    limit sha256 owner t - 1 <= bound.

Lemma ladder_step_holds t sets bound op :
  holds t sets bound -> limit sha256 owner t + 2 <= u64_max -> ladder_op_ok op ->
  exists t', ladder_step t op = Some t' /\
    holds t' (set_step sets op) (Z.max bound (2 * levels (set_step sets op))) /\
    limit sha256 owner t' <= limit sha256 owner t + 2.
Proof.
  intros (f & free & L & Hk & Hb) Hlim Hop. destruct op as [side key|side key]; cbn in Hop |- *.
  - destruct (insert_ok sha256 owner Hshape Hapart m eq_refl t f free side key) as
      (t' & o & free' & -> & L' & Ho & Hg1 & Hg2); [done|fold owner; lia|done|].
    assert (forall side', keys_of (upd f side o side') =
      set_step sets (LadderInsert side key) side') as Hk'.
    { intros side'. unfold upd. cbn. destruct (decide (side' = side)) as [->|]; [|apply Hk].
      by rewrite Ho, Hk. }
    exists t'. split_and!; [done| |done]. exists (upd f side o), free'. split_and!; [done|done|].
    destruct Hg2 as [E|E]; [fold owner in E; lia|]. subst free'.
    pose proof (used_bound sha256 owner t' _ L') as Hu. rewrite !Hk' in Hu.
    fold owner in Hu. unfold levels. lia.
  - destruct (remove_ok sha256 owner Hshape Hapart m eq_refl t f free side key L) as
      (t' & o & free' & -> & L' & Ho & El).
    exists t'. split_and!; [done| |fold owner in El; lia]. exists (upd f side o), free'.
    split_and!; [done| |fold owner in El; lia].
    intros side'. unfold upd. cbn. destruct (decide (side' = side)) as [->|]; [|apply Hk].
    by rewrite Ho, Hk.
Qed.

Lemma run_ladder_holds ops t sets bound :
  holds t sets bound -> limit sha256 owner t + 2 * Z.of_nat (length ops) <= u64_max ->
  Forall ladder_op_ok ops ->
  exists t', run_ladder t ops = Some t' /\
    holds t' (foldl set_step sets ops) (Z.max bound (2 * peak sets ops)).
Proof.
  revert t sets bound. induction ops as [|op ops IH]; intros t sets bound H Hlim Hops; cbn [length] in Hlim.
  - exists t. split; [done|]. destruct H as (f & free & L & Hk & Hb). exists f, free.
    split_and!; [done|done|]. cbn [peak]. lia.
  - apply Forall_cons in Hops as [Hop Hops].
    destruct (ladder_step_holds t sets bound op H) as (t1 & E1 & H1 & Hl1); [lia|done|].
    destruct (IH t1 (set_step sets op) _ H1) as (t' & E' & H'); [lia|done|].
    exists t'. split; [cbn [run_ladder]; by rewrite E1|].
    destruct H' as (f & free & L & Hk & Hb). exists f, free. split_and!; [done|done|].
    cbn [peak]. pose proof (peak_levels (set_step sets op) ops). lia.
Qed.
End run.

(** C40. The price ladders are two finite sets of prices.  From unused storage,
    after any sequence of fewer than 2^62 insertions and removals of prices on
    the two sides of a market, no operation has failed or walked in a circle;
    the best bid and ask read from the storage are the largest and smallest
    price of the sets the operations describe; and the arena has handed out at
    most two handles for each of the levels that were in the book at its
    fullest, however many came and went.  Assumed: no two of the storage slots
    of the ladders have the same hash. *)
Theorem ladders_refine_sets sha256 m t ops :
  digest_shape sha256 -> slots_apart sha256 ->
  (forall s, slot_ok s -> get_storage t (market_book_id sha256 m) (slot_key sha256 s) = 0) ->
  Forall ladder_op_ok ops -> Z.of_nat (length ops) < 2 ^ 62 ->
  exists t', run_ladder sha256 m t ops = Some t' /\
    (forall side, exists lo hi,
      cb_min sha256 t' m side = Some lo /\ cb_max sha256 t' m side = Some hi /\
      extreme_of false (foldl set_step (fun _ => ∅) ops side) lo /\
      extreme_of true (foldl set_step (fun _ => ∅) ops side) hi) /\
    slot_u64 t' (market_book_id sha256 m) (alloc_slot sha256) <= 1 + 2 * peak (fun _ => ∅) ops.
Proof.
  intros Hshape Hapart Hfresh Hops Hlen. set (owner := market_book_id sha256 m).
  destruct (fresh_ladders sha256 owner t Hfresh) as [L El].
  assert (holds sha256 m t (fun _ => ∅) 0) as H
    by (exists (fun _ => None), []; split_and!; [done|done|fold owner; lia]).
  destruct (run_ladder_holds sha256 m Hshape Hapart ops t (fun _ => ∅) 0 H)
    as (t' & Hrun & f & free & L' & Hk & Hb); [fold owner; unfold u64_max; lia|done|].
  exists t'. split_and!; [done| |].
  - intros side. destruct (extreme_ok sha256 owner m eq_refl t' f free side false L') as (lo & Hlo & Hx).
    destruct (extreme_ok sha256 owner m eq_refl t' f free side true L') as (hi & Hhi & Hy).
    rewrite Hk in Hx, Hy. by exists lo, hi.
  - pose proof (peak_levels (fun _ => ∅) ops). assert (0 <= levels (fun _ => ∅)) by (unfold levels; lia).
    fold owner in Hb. unfold limit, top in Hb. lia.
Qed.

(* ------------------------------------------------------------------ *)
(** * A ladder of four prices *)

Module SampleLadder.
(** Keeps the bytes after the common prefix of the messages, and their number. *)
Definition sha (m : list Z) : list Z :=
  map (fun x => x mod 256) (take 31 (drop 11 m ++ replicate 31 0) ++ [Z.of_nat (length m)]).
Definition ops : list LadderOp :=
  [LadderInsert Buy 50; LadderInsert Sell 70; LadderInsert Buy 10; LadderInsert Buy 90;
   LadderRemove Buy 50; LadderInsert Sell 60; LadderRemove Buy 7; LadderRemove Sell 70].

Lemma shape : digest_shape sha.
Proof.
  intros m. unfold sha. split.
  - rewrite length_map, length_app, length_take, length_app, length_replicate. cbn [length]. lia.
  - apply Forall_forall. intros x (y & -> & _)%list_elem_of_fmap. apply Z.mod_pos_bound. lia.
Qed.

Lemma node_bytes h : take 8 (drop 10 (sha (slot_message (SlotNode h)))) = le_bytes 8 h.
Proof. cbv -[Z.modulo Z.div]. by rewrite !Z.mod_mod. Qed.

Lemma length_byte s : last (sha (slot_message s)) = Some (Z.of_nat (length (slot_message s)) mod 256).
Proof. unfold sha. rewrite map_app. apply last_snoc. Qed.

Lemma apart : slots_apart sha.
Proof.
  intros a b Ha Hb E. pose proof (f_equal last E) as El. rewrite !length_byte in El.
  destruct a as [[]|h| |], b as [[]|h'| |]; try done; try (by vm_compute in El); try (by vm_compute in E).
  cbn [slot_message]. f_equal. by rewrite <-(node_bytes h), <-(node_bytes h'), E.
Qed.
End SampleLadder.

Lemma ladders_refine_sets_witness :
  exists t', run_ladder SampleLadder.sha 5 state_new SampleLadder.ops = Some t' /\
    cb_max SampleLadder.sha t' 5 Buy = Some (Some 90) /\
    cb_min SampleLadder.sha t' 5 Sell = Some (Some 60) /\
    slot_u64 t' (market_book_id SampleLadder.sha 5) (alloc_slot SampleLadder.sha) <= 9.
Proof.
  destruct (ladders_refine_sets SampleLadder.sha 5 state_new SampleLadder.ops SampleLadder.shape
    SampleLadder.apart) as (t' & Hrun & _ & Hb).
  - intros s _. reflexivity.
  - repeat constructor; unfold is_u64, u64_max; lia.
  - vm_compute. reflexivity.
  - exists t'. split_and!; [exact Hrun| | |exact Hb];
      (vm_compute in Hrun; injection Hrun as <-; vm_compute; reflexivity).
Defined.
