(* ===== verification/Liquid.v ===== *)
(** The state of an order book (ace-liquid/src/types.rs, error.rs, state.rs): a
    market's orders, collateral balances, counters and order queues, all in
    storage slots of the market's account.

    The codec of a stored record (bincode) is an argument.  [Stuck] is not an
    error of the source: it stands for a walk in a price ladder that does not
    end. *)

From S2P Require Import Prelude SigAlgo Account StateTree Slots StateM CritBit.
Local Open Scope Z_scope.
Local Open Scope ace_scope.

(* ------------------------------------------------------------------ *)
(** * Types *)

Definition MarketId : Type := Z.
Definition OrderId : Type := Z.

Record Market := {
  market_id : MarketId;
  base_mint : AccountId;
  quote_mint : AccountId;
  tick_size : Z;
  lot_size : Z;
  maker_fee_bps : Z;
  taker_fee_bps : Z;
  market_active : bool;
}.

Inductive OrderType : Type :=
| Limit
| MarketOrder.

Inductive TimeInForce : Type :=
| GoodTilCancelled
| ImmediateOrCancel.

Inductive OrderStatus : Type :=
| Open
| PartiallyFilled
| Filled
| Cancelled.

#[export] Instance OrderType_eq_dec : EqDecision OrderType.
Proof. solve_decision. Defined.
#[export] Instance OrderStatus_eq_dec : EqDecision OrderStatus.
Proof. solve_decision. Defined.

Record PlaceOrder := {
  place_owner : AccountId;
  place_side : OrderSide;
  place_type : OrderType;
  place_price : Z;
  place_quantity : Z;
  time_in_force : TimeInForce;
}.

Record Order := {
  order_id : OrderId;
  order_market : MarketId;
  order_owner : AccountId;
  order_side : OrderSide;
  order_type : OrderType;
  order_price : Z;
  quantity : Z;
  remaining_quantity : Z;
  status : OrderStatus;
  sequence : Z;
}.

Record Trade := {
  trade_market : MarketId;
  maker_order_id : OrderId;
  taker_order_id : OrderId;
  trade_maker : AccountId;
  trade_taker : AccountId;
  trade_side : OrderSide;
  trade_price : Z;
  trade_quantity : Z;
  quote_quantity : Z;
}.

Definition set_fill (o : Order) (remaining : Z) (st : OrderStatus) : Order :=
  {| order_id := order_id o; order_market := order_market o; order_owner := order_owner o;
     order_side := order_side o; order_type := order_type o; order_price := order_price o;
     quantity := quantity o; remaining_quantity := remaining; status := st;
     sequence := sequence o |}.

Inductive LiquidError : Type :=
| MarketNotFound (m : MarketId)
| MarketAlreadyExists (m : MarketId)
| MarketInactive (m : MarketId)
| InvalidMarketConfig (msg : string)
| OrderNotFound (id : OrderId)
| OrderNotOpen (id : OrderId)
| ZeroAmount
| ZeroPrice
| NoLiquidity
| SelfTrade
| ArithmeticOverflow
| InsufficientBalance (have need : Z)
| Settlement (msg : string)
| Serialization (msg : string)
| LiquidInvalidPayload (msg : string)
| NonceMismatch (expected got : Z)
| NotOrderOwner
| Stuck.

Definition ASSET_BASE : Z := 0.
Definition ASSET_QUOTE : Z := 1.

(** bincode, for the two types of record. *)
Class LiquidCodec := {
  encode_market : Market -> result string (list Z);
  decode_market : list Z -> result string Market;
  encode_order : Order -> result string (list Z);
  decode_order : list Z -> result string Order;
}.

Section state.
Context (sha256 : list Z -> list Z).

Definition derive_market_id (base quote : AccountId) : MarketId :=
  digest sha256 (ascii_bytes "ace-liquid:spot-market:v1:" ++ be_bytes 32 base ++ be_bytes 32 quote).

(* ------------------------------------------------------------------ *)
(** * Slots *)

Definition liquid_slot (domain : string) (tag : Z) (key : list Z) : Z :=
  digest sha256 (ascii_bytes domain ++ [tag] ++ key).

Definition read_pair (t : StateTree) (owner : AccountId) (slot : Z) : Z * Z :=
  let value := get_storage t owner slot in
  (u64_at value 0, u64_at value 8).
Definition write_pair (t : StateTree) (owner : AccountId) (slot a b : Z) : StateTree :=
  set_storage t owner slot (be_num (le_bytes 8 a ++ le_bytes 8 b ++ replicate 16 0)).

(* ------------------------------------------------------------------ *)
(** * Records *)

Definition chunk_key (key : list Z) (idx : Z) : list Z := key ++ le_bytes 8 idx.

Fixpoint write_chunks (t : StateTree) (owner : AccountId) (domain : string) (key : list Z) (idx : Z)
    (chunks : list (list Z)) : StateTree :=
  match chunks with
  | [] => t
  | chunk :: chunks =>
      let t := set_storage t owner (liquid_slot domain 2 (chunk_key key idx)) (chunk_value chunk) in
      write_chunks t owner domain key (idx + 1) chunks
  end.

Definition put_record {T} (encode : T -> result string (list Z)) (owner : AccountId)
    (domain : string) (key : list Z) (value : T) : M LiquidError unit :=
  match encode value with
  | Err e => fail (Serialization e)
  | Ok bytes =>
      let chunks := chunks32 (length bytes) bytes in
      modify (fun t =>
        let t := write_slot_u64 t owner (liquid_slot domain 0 key) (Z.of_nat (length chunks)) in
        let t := write_slot_u64 t owner (liquid_slot domain 1 key) (Z.of_nat (length bytes)) in
        write_chunks t owner domain key 0 chunks)
  end.

Fixpoint read_chunks (t : StateTree) (owner : AccountId) (domain : string) (key : list Z) (idx : Z)
    (n : nat) : list Z :=
  match n with
  | O => []
  | S n =>
      be_bytes 32 (get_storage t owner (liquid_slot domain 2 (chunk_key key idx))) ++
      read_chunks t owner domain key (idx + 1) n
  end.

Definition chunk_count (t : StateTree) (owner : AccountId) (domain : string) (key : list Z) : Z :=
  slot_u64 t owner (liquid_slot domain 0 key).

Definition get_record {T} (decode : list Z -> result string T) (t : StateTree) (owner : AccountId)
    (domain : string) (key : list Z) : result LiquidError (option T) :=
  let chunks := chunk_count t owner domain key in
  if chunks =? 0 then Ok None
  else
    let byte_len := slot_u64 t owner (liquid_slot domain 1 key) in
    let bytes := read_chunks t owner domain key 0 (Z.to_nat chunks) in
    if Z.of_nat (length bytes) <? byte_len then
      Err (Serialization "record byte length exceeds stored chunks")
    else
      match decode (take (Z.to_nat byte_len) bytes) with
      | Ok v => Ok (Some v)
      | Err e => Err (Serialization e)
      end.

Section records.
Context {C : LiquidCodec}.

Definition MARKET_DOMAIN : string := "ace-liquid:market:v1".
Definition ORDER_DOMAIN : string := "ace-liquid:order:v1".

Definition market_exists (t : StateTree) (m : MarketId) : bool :=
  0 <? chunk_count t (market_book_id sha256 m) MARKET_DOMAIN (be_bytes 32 m).

Definition put_market (market : Market) : M LiquidError unit :=
  put_record encode_market (market_book_id sha256 (market_id market)) MARKET_DOMAIN
    (be_bytes 32 (market_id market)) market.

Definition get_market (m : MarketId) : M LiquidError (option Market) := fun t =>
  (t, get_record decode_market t (market_book_id sha256 m) MARKET_DOMAIN (be_bytes 32 m)).

Definition put_order (order : Order) : M LiquidError unit :=
  put_record encode_order (market_book_id sha256 (order_market order)) ORDER_DOMAIN
    (le_bytes 8 (order_id order)) order.

Definition get_order (m : MarketId) (id : OrderId) : M LiquidError (option Order) := fun t =>
  (t, get_record decode_order t (market_book_id sha256 m) ORDER_DOMAIN (le_bytes 8 id)).
End records.

(* ------------------------------------------------------------------ *)
(** * Collateral *)

Definition balance_slot (user : AccountId) (asset : Z) : Z :=
  liquid_slot "ace-liquid:balance:v1" 0 (be_bytes 32 user ++ [asset]).

Definition free_balance (t : StateTree) (m : MarketId) (user : AccountId) (asset : Z) : Z :=
  slot_u64 t (market_book_id sha256 m) (balance_slot user asset).

Definition credit_balance (m : MarketId) (user : AccountId) (asset amount : Z)
    : M LiquidError unit :=
  if amount =? 0 then ret tt
  else
    let owner := market_book_id sha256 m in
    let slot := balance_slot user asset in
    let! have := gets (fun t => slot_u64 t owner slot) in
    let! new := require (u64_checked_add have amount) ArithmeticOverflow in
    modify (fun t => write_slot_u64 t owner slot new).

Definition debit_balance (m : MarketId) (user : AccountId) (asset amount : Z)
    : M LiquidError unit :=
  if amount =? 0 then ret tt
  else
    let owner := market_book_id sha256 m in
    let slot := balance_slot user asset in
    let! have := gets (fun t => slot_u64 t owner slot) in
    do! fail_if (have <? amount) (InsufficientBalance have amount) in
    modify (fun t => write_slot_u64 t owner slot (have - amount)).

(* ------------------------------------------------------------------ *)
(** * Counters *)

Definition next_counter (m : MarketId) (domain : string) : M LiquidError Z :=
  let owner := market_book_id sha256 m in
  let slot := liquid_slot domain 0 [] in
  let! current := gets (fun t => Z.max (slot_u64 t owner slot) 1) in
  let! next := require (u64_checked_add current 1) ArithmeticOverflow in
  do! modify (fun t => write_slot_u64 t owner slot next) in
  ret current.

Definition next_order_id (m : MarketId) : M LiquidError OrderId :=
  next_counter m "ace-liquid:next-order-id:v1".
Definition next_sequence (m : MarketId) : M LiquidError Z :=
  next_counter m "ace-liquid:next-seq:v1".

(* ------------------------------------------------------------------ *)
(** * Price ladders *)

Definition best_price (m : MarketId) (side : OrderSide) : M LiquidError (option Z) :=
  let! found := gets (fun t =>
    match side with Buy => cb_max sha256 t m side | Sell => cb_min sha256 t m side end) in
  require found Stuck.

Definition ladder (f : StateTree -> option StateTree) : M LiquidError unit := fun t =>
  match f t with Some t' => (t', Ok tt) | None => (t, Err Stuck) end.

Definition add_level (m : MarketId) (side : OrderSide) (price : Z) : M LiquidError unit :=
  ladder (fun t => cb_insert sha256 t m side price).
Definition remove_level (m : MarketId) (side : OrderSide) (price : Z) : M LiquidError unit :=
  ladder (fun t => cb_remove sha256 t m side price).

(* ------------------------------------------------------------------ *)
(** * Order queues *)

Definition level_slot (m : MarketId) (side : OrderSide) (price : Z) : Z :=
  liquid_slot "ace-liquid:level:v1" 0 ([side_byte side] ++ be_bytes 32 m ++ le_bytes 8 price).
Definition queue_slot (id : Z) : Z := liquid_slot "ace-liquid:node:v1" 0 (le_bytes 8 id).

(** Head and tail of a level; previous and next of an order. *)
Definition read_level (m : MarketId) (side : OrderSide) (price : Z) : M LiquidError (Z * Z) :=
  gets (fun t => read_pair t (market_book_id sha256 m) (level_slot m side price)).
Definition write_level (m : MarketId) (side : OrderSide) (price head tail : Z)
    : M LiquidError unit :=
  modify (fun t => write_pair t (market_book_id sha256 m) (level_slot m side price) head tail).
Definition read_queue (m : MarketId) (id : Z) : M LiquidError (Z * Z) :=
  gets (fun t => read_pair t (market_book_id sha256 m) (queue_slot id)).
Definition write_queue (m : MarketId) (id prev next : Z) : M LiquidError unit :=
  modify (fun t => write_pair t (market_book_id sha256 m) (queue_slot id) prev next).

Definition enqueue_order (m : MarketId) (side : OrderSide) (price : Z) (id : OrderId)
    : M LiquidError unit :=
  let! (head, tail) := read_level m side price in
  if tail =? 0 then
    do! write_queue m id 0 0 in
    do! write_level m side price id id in
    add_level m side price
  else
    let! (prev_tail_prev, _) := read_queue m tail in
    do! write_queue m tail prev_tail_prev id in
    do! write_queue m id tail 0 in
    write_level m side price head id.

Definition front_order_at (m : MarketId) (side : OrderSide) (price : Z)
    : M LiquidError (option OrderId) :=
  let! (head, _) := read_level m side price in
  ret (if negb (head =? 0) then Some head else None).

Definition remove_order_from_queue (m : MarketId) (side : OrderSide) (price : Z) (id : OrderId)
    : M LiquidError unit :=
  let! (head, tail) := read_level m side price in
  let! (prev, next) := read_queue m id in
  do! (if negb (prev =? 0) then
         let! (pp, _) := read_queue m prev in
         write_queue m prev pp next
       else ret tt) in
  do! (if negb (next =? 0) then
         let! (_, nn) := read_queue m next in
         write_queue m next prev nn
       else ret tt) in
  let new_head := if head =? id then next else head in
  let new_tail := if tail =? id then prev else tail in
  do! write_queue m id 0 0 in
  if new_head =? 0 then
    do! write_level m side price 0 0 in
    remove_level m side price
  else write_level m side price new_head new_tail.
End state.
