(* ===== verification/Clob.v ===== *)
(** The order book of a spot market (ace-liquid/src/clob.rs): markets, deposits,
    withdrawals, matching, resting and cancelling orders.

    The matching loop has no bound in the source; it gets one turn more than there
    are orders, and [Stuck] if that does not do. *)

From S2P Require Import Prelude SigAlgo Account StateTree Slots StateM Token CritBit Liquid.
Local Open Scope Z_scope.
Local Open Scope ace_scope.

Definition opposite_side (side : OrderSide) : OrderSide :=
  match side with Buy => Sell | Sell => Buy end.

Definition price_crosses (taker : Order) (maker_price : Z) : bool :=
  match order_side taker with
  | Buy => maker_price <=? order_price taker
  | Sell => order_price taker <=? maker_price
  end.

Definition time_in_force_allows_resting (tif : TimeInForce) : bool :=
  match tif with GoodTilCancelled => true | ImmediateOrCancel => false end.

(** [u128::checked_mul] of two [u64]s, and [u64::try_from]. *)
Definition quote_of (amount price : Z) : result LiquidError Z :=
  if amount * price <=? u128_max then
    if amount * price <=? u64_max then Ok (amount * price) else Err ArithmeticOverflow
  else Err ArithmeticOverflow.

Definition locked_quote (order : Order) : result LiquidError Z :=
  quote_of (remaining_quantity order) (order_price order).

Definition mint_for_asset (market : Market) (asset : Z) : result LiquidError AccountId :=
  if asset =? ASSET_BASE then Ok (base_mint market)
  else if asset =? ASSET_QUOTE then Ok (quote_mint market)
  else Err (LiquidInvalidPayload "invalid asset index").

Definition validate_order (market : Market) (order : PlaceOrder) : result LiquidError unit :=
  if (tick_size market =? 0) || (lot_size market =? 0) then
    Err (InvalidMarketConfig "tick_size and lot_size must be non-zero")
  else if place_quantity order =? 0 then Err ZeroAmount
  else if bool_decide (place_type order = Limit) && (place_price order =? 0) then Err ZeroPrice
  else if negb (place_quantity order mod lot_size market =? 0) then Err ZeroAmount
  else if bool_decide (place_type order = Limit) &&
          negb (place_price order mod tick_size market =? 0) then Err ZeroPrice
  else Ok tt.

Definition ensure_market_active (market : Market) : result LiquidError unit :=
  if market_active market then Ok tt else Err (MarketInactive (market_id market)).

Section clob.
Context (sha256 : list Z -> list Z) {C : LiquidCodec}.

Definition validate_market_config (market : Market) : result LiquidError unit :=
  if base_mint market =? quote_mint market then
    Err (InvalidMarketConfig "base_mint and quote_mint must differ")
  else if negb (market_id market =? derive_market_id sha256 (base_mint market) (quote_mint market)) then
    Err (InvalidMarketConfig "market_id does not match base/quote mints")
  else if (tick_size market =? 0) || (lot_size market =? 0) then
    Err (InvalidMarketConfig "tick_size and lot_size must be non-zero")
  else if negb (maker_fee_bps market =? 0) || negb (taker_fee_bps market =? 0) then
    Err (InvalidMarketConfig "non-zero fees are not supported yet")
  else Ok tt.

(** [if !state.contains(id) state.insert(Account::new(id))]. *)
Definition ensure_account (id : AccountId) : M LiquidError unit :=
  let! there := contains id in
  if there then ret tt else modify (fun t => insert_account sha256 t (account_new id)).

Definition create_market (market : Market) : M LiquidError MarketId :=
  do! lift (validate_market_config market) in
  let! exists_ := gets (fun t => market_exists sha256 t (market_id market)) in
  do! fail_if exists_ (MarketAlreadyExists (market_id market)) in
  do! ensure_account (market_book_id sha256 (market_id market)) in
  do! put_market sha256 market in
  ret (market_id market).

(** [get_market(..)?.ok_or(MarketNotFound)?]. *)
Definition require_market (m : MarketId) : M LiquidError Market :=
  let! found := get_market sha256 m in
  require found (MarketNotFound m).

Definition best_bid (t : StateTree) (m : MarketId) : option Z :=
  match best_price sha256 m Buy t with (_, Ok (Some p)) => Some p | _ => None end.
Definition best_ask (t : StateTree) (m : MarketId) : option Z :=
  match best_price sha256 m Sell t with (_, Ok (Some p)) => Some p | _ => None end.

(* ------------------------------------------------------------------ *)
(** * Deposits and withdrawals *)

Definition move_tokens (mint from to : AccountId) (amount : Z) : M LiquidError unit :=
  if amount =? 0 then ret tt
  else
    do! ensure_account to in
    do! map_err Settlement (transfer_between_owners sha256 mint from to amount) in
    ret tt.

Definition deposit (m : MarketId) (user : AccountId) (asset amount : Z) : M LiquidError unit :=
  do! fail_if (amount =? 0) ZeroAmount in
  let! market := require_market m in
  do! lift (ensure_market_active market) in
  let! mint := lift (mint_for_asset market asset) in
  atomically (
    do! move_tokens mint user (market_book_id sha256 m) amount in
    credit_balance sha256 m user asset amount).

Definition withdraw (m : MarketId) (user : AccountId) (asset amount : Z) : M LiquidError unit :=
  do! fail_if (amount =? 0) ZeroAmount in
  let! market := require_market m in
  let! mint := lift (mint_for_asset market asset) in
  atomically (
    do! debit_balance sha256 m user asset amount in
    move_tokens mint (market_book_id sha256 m) user amount).

(* ------------------------------------------------------------------ *)
(** * Matching *)

Definition settle_fill (m : MarketId) (taker maker : Order) (quantity quote : Z)
    : M LiquidError unit :=
  match order_side taker with
  | Buy =>
      do! debit_balance sha256 m (order_owner taker) ASSET_QUOTE quote in
      do! credit_balance sha256 m (order_owner taker) ASSET_BASE quantity in
      credit_balance sha256 m (order_owner maker) ASSET_QUOTE quote
  | Sell =>
      do! debit_balance sha256 m (order_owner taker) ASSET_BASE quantity in
      do! credit_balance sha256 m (order_owner taker) ASSET_QUOTE quote in
      credit_balance sha256 m (order_owner maker) ASSET_BASE quantity
  end.

Definition lock_resting_funds (order : Order) : M LiquidError unit :=
  match order_side order with
  | Buy =>
      let! lock := lift (locked_quote order) in
      debit_balance sha256 (order_market order) (order_owner order) ASSET_QUOTE lock
  | Sell =>
      debit_balance sha256 (order_market order) (order_owner order) ASSET_BASE
        (remaining_quantity order)
  end.

Definition refund_resting_funds (order : Order) : M LiquidError unit :=
  match order_side order with
  | Buy =>
      let! refund := lift (locked_quote order) in
      credit_balance sha256 (order_market order) (order_owner order) ASSET_QUOTE refund
  | Sell =>
      credit_balance sha256 (order_market order) (order_owner order) ASSET_BASE
        (remaining_quantity order)
  end.

Definition trade_of (taker maker : Order) (quantity quote : Z) : Trade :=
  {| trade_market := order_market taker; maker_order_id := order_id maker;
     taker_order_id := order_id taker; trade_maker := order_owner maker;
     trade_taker := order_owner taker; trade_side := order_side taker;
     trade_price := order_price maker; trade_quantity := quantity; quote_quantity := quote |}.

(** A fill of [quantity]: settlement, the maker's record and its place in the
    queue. *)
Definition fill (taker maker : Order) (maker_side : OrderSide) : M LiquidError (Order * Trade) :=
  let m := order_market taker in
  let quantity := Z.min (remaining_quantity taker) (remaining_quantity maker) in
  let! quote := lift (quote_of quantity (order_price maker)) in
  do! settle_fill m taker maker quantity quote in
  let remaining := remaining_quantity maker - quantity in
  let maker' :=
    set_fill maker remaining (if remaining =? 0 then Filled else PartiallyFilled) in
  do! (if remaining =? 0 then
         remove_order_from_queue sha256 m maker_side (order_price maker) (order_id maker)
       else ret tt) in
  do! put_order sha256 maker' in
  ret (set_fill taker (remaining_quantity taker - quantity) (status taker),
       trade_of taker maker quantity quote).

(** The taker with what remains, the trades, and whether an order of the same
    owner stopped the matching. *)
Fixpoint match_taker (fuel : nat) (taker : Order) (trades : list Trade)
    : M LiquidError (Order * list Trade * bool) :=
  match fuel with
  | O => fail Stuck
  | S fuel =>
      let m := order_market taker in
      let maker_side := opposite_side (order_side taker) in
      if remaining_quantity taker =? 0 then ret (taker, trades, false)
      else
        let! best := best_price sha256 m maker_side in
        match best with
        | None => ret (taker, trades, false)
        | Some maker_price =>
            if bool_decide (order_type taker = Limit) && negb (price_crosses taker maker_price)
            then ret (taker, trades, false)
            else
              let! front := front_order_at sha256 m maker_side maker_price in
              match front with
              | None => ret (taker, trades, false)
              | Some maker_id =>
                  let! found := get_order sha256 m maker_id in
                  let! maker := require found (OrderNotFound maker_id) in
                  if order_owner maker =? order_owner taker then ret (taker, trades, true)
                  else
                    let! (taker, trade) := fill taker maker maker_side in
                    match_taker fuel taker (trades ++ [trade])
              end
        end
  end.

(* ------------------------------------------------------------------ *)
(** * Orders *)

Definition new_order (m : MarketId) (request : PlaceOrder) (id seq : Z) : Order :=
  {| order_id := id; order_market := m; order_owner := place_owner request;
     order_side := place_side request; order_type := place_type request;
     order_price := place_price request; quantity := place_quantity request;
     remaining_quantity := place_quantity request; status := Open; sequence := seq |}.

(** What is left of a taker after the matching: it rests in the book, fails, or
    is done. *)
Definition finish_order (m : MarketId) (tif : TimeInForce) (taker : Order) (trades : list Trade)
    (blocked : bool) : M LiquidError Order :=
  let remaining := remaining_quantity taker in
  let status :=
    if remaining =? 0 then Filled
    else if remaining <? quantity taker then PartiallyFilled
    else status taker in
  let taker := set_fill taker remaining status in
  if (0 <? remaining) && bool_decide (order_type taker = Limit) && negb blocked &&
     time_in_force_allows_resting tif
  then
    do! lock_resting_funds taker in
    let taker :=
      set_fill taker remaining (if remaining <? quantity taker then PartiallyFilled else Open) in
    do! enqueue_order sha256 m (order_side taker) (order_price taker) (order_id taker) in
    ret taker
  else if (0 <? remaining) && bool_decide (order_type taker = MarketOrder) &&
          bool_decide (trades = [])
  then fail NoLiquidity
  else if 0 <? remaining then
    ret (set_fill taker 0 (if bool_decide (trades = []) then Cancelled else PartiallyFilled))
  else ret taker.

Definition place_order_inner (m : MarketId) (request : PlaceOrder)
    : M LiquidError (OrderId * list Trade) :=
  let! market := require_market m in
  do! lift (ensure_market_active market) in
  do! lift (validate_order market request) in
  let! id := next_order_id sha256 m in
  let! seq := next_sequence sha256 m in
  let! (taker, trades, blocked) :=
    match_taker (S (Z.to_nat id)) (new_order m request id seq) [] in
  do! fail_if (blocked && bool_decide (trades = [])) SelfTrade in
  let! taker := finish_order m (time_in_force request) taker trades blocked in
  do! put_order sha256 taker in
  ret (id, trades).

Definition place_order (m : MarketId) (request : PlaceOrder)
    : M LiquidError (OrderId * list Trade) :=
  atomically (place_order_inner m request).

Definition is_open (order : Order) : bool :=
  match status order with Open | PartiallyFilled => true | _ => false end.

Definition cancel_order_inner (m : MarketId) (owner : AccountId) (id : OrderId)
    : M LiquidError Order :=
  do! require_market m in
  let! found := get_order sha256 m id in
  let! order := require found (OrderNotFound id) in
  do! fail_if (negb (order_owner order =? owner)) NotOrderOwner in
  do! fail_if (negb (is_open order) || (remaining_quantity order =? 0)) (OrderNotOpen id) in
  do! refund_resting_funds order in
  do! remove_order_from_queue sha256 m (order_side order) (order_price order) id in
  let order := set_fill order 0 Cancelled in
  do! put_order sha256 order in
  ret order.

Definition cancel_order (m : MarketId) (owner : AccountId) (id : OrderId) : M LiquidError Order :=
  atomically (cancel_order_inner m owner id).
End clob.
