(* ===== verification/Book.v ===== *)
(** What the storage of a market means.

    The slots of a market are told apart and every primitive of [Liquid] gets a
    specification over an abstract book: balances, orders, a queue of order ids
    for each side and price, and the counters.  The linked lists, the ladders and
    the chunks of records are hidden behind the relation [represents]. *)

From S2P Require Import Prelude SigAlgo Account StateTree Slots StateM.
From S2P Require Import CritBit CritTree Ladder Liquid Clob.
Local Open Scope Z_scope.
Local Open Scope ace_scope.

(* ------------------------------------------------------------------ *)
(** * Slots *)

Inductive BookSlot : Type :=
| SLadder (s : Slot)
| SOrderCount (id : Z)
| SOrderLen (id : Z)
| SOrderChunk (id idx : Z)
| SBalance (user : AccountId) (asset : Z)
| SNextId
| SNextSeq
| SLevel (side : OrderSide) (price : Z)
| SQueue (id : Z)
| SMarketCount
| SMarketLen
| SMarketChunk (idx : Z).

Definition is_asset (a : Z) : Prop := a = ASSET_BASE \/ a = ASSET_QUOTE.

(** The slots of orders with 64-bit ids and of the balances of [users]. *)
Definition book_slot_ok (users : gset AccountId) (s : BookSlot) : Prop :=
  match s with
  | SLadder s => slot_ok s
  | SOrderCount id | SOrderLen id | SQueue id => is_u64 id
  | SOrderChunk id idx => is_u64 id /\ is_u64 idx
  | SBalance u a => u ∈ users /\ is_asset a
  | SLevel _ p => is_u64 p
  | SMarketChunk idx => is_u64 idx
  | SNextId | SNextSeq | SMarketCount | SMarketLen => True
  end.

Definition liquid_message (domain : string) (tag : Z) (key : list Z) : list Z :=
  ascii_bytes domain ++ [tag] ++ key.

Definition book_message (m : MarketId) (s : BookSlot) : list Z :=
  match s with
  | SLadder s => slot_message s
  | SOrderCount id => liquid_message ORDER_DOMAIN 0 (le_bytes 8 id)
  | SOrderLen id => liquid_message ORDER_DOMAIN 1 (le_bytes 8 id)
  | SOrderChunk id idx => liquid_message ORDER_DOMAIN 2 (chunk_key (le_bytes 8 id) idx)
  | SBalance u a => liquid_message "ace-liquid:balance:v1" 0 (be_bytes 32 u ++ [a])
  | SNextId => liquid_message "ace-liquid:next-order-id:v1" 0 []
  | SNextSeq => liquid_message "ace-liquid:next-seq:v1" 0 []
  | SLevel side p =>
      liquid_message "ace-liquid:level:v1" 0 ([side_byte side] ++ be_bytes 32 m ++ le_bytes 8 p)
  | SQueue id => liquid_message "ace-liquid:node:v1" 0 (le_bytes 8 id)
  | SMarketCount => liquid_message MARKET_DOMAIN 0 (be_bytes 32 m)
  | SMarketLen => liquid_message MARKET_DOMAIN 1 (be_bytes 32 m)
  | SMarketChunk idx => liquid_message MARKET_DOMAIN 2 (chunk_key (be_bytes 32 m) idx)
  end.

(** No two of these slots collide. *)
Definition book_apart (sha256 : list Z -> list Z) (users : gset AccountId) (m : MarketId) : Prop :=
  forall a b, book_slot_ok users a -> book_slot_ok users b ->
    sha256 (book_message m a) = sha256 (book_message m b) -> book_message m a = book_message m b.

Lemma u64_bytes_inj x y : is_u64 x -> is_u64 y -> le_bytes 8 x = le_bytes 8 y -> x = y.
Proof. unfold is_u64, u64_max. intros Hx Hy. apply le_bytes_inj; cbn; lia. Qed.

Lemma book_message_inj users m a b :
  (forall u, u ∈ users -> is_u256 u) -> book_slot_ok users a -> book_slot_ok users b ->
  book_message m a = book_message m b -> a = b.
Proof.
  intros Hu Ha Hb E.
  destruct a as [[[]|h| |]|id|id|id idx|u x| | |[] p|id| | |idx],
    b as [[[]|h'| |]|id'|id'|id' idx'|u' x'| | |[] p'|id'| | |idx'];
    try done; try (cbn in E; discriminate); unfold book_message, liquid_message in E; cbn in Ha, Hb.
  1: by f_equal; apply slot_message_inj.
  all: apply app_inv_head, app_inv_head in E; try (f_equal; by apply u64_bytes_inj).
  - apply app_inj_1 in E as [E1 E2]; [|by rewrite !length_le_bytes].
    destruct Ha, Hb. f_equal; by apply u64_bytes_inj.
  - apply app_inj_1 in E as [E1 [= ->]]; [|by rewrite !length_be_bytes].
    destruct Ha as [Ha _], Hb as [Hb _].
    f_equal. apply (be_bytes_inj 32); [by apply Hu|by apply Hu|done].
  - apply app_inv_head, app_inv_head in E. f_equal. by apply u64_bytes_inj.
  - apply app_inv_head, app_inv_head in E. f_equal. by apply u64_bytes_inj.
  - apply app_inv_head in E. f_equal. by apply u64_bytes_inj.
Qed.

(* ------------------------------------------------------------------ *)
(** * The abstract book *)

Record Book := {
  bal : AccountId -> Z -> Z;
  orders : gmap Z Order;
  queues : OrderSide -> gmap Z (list Z);
  next_id : Z;
  next_seq : Z;
  arena : Z;
  market : Market;
}.

(** [arena] bounds the node handles the ladders have taken.

    The ids waiting at a price, the oldest first. *)
Definition waiting (q : OrderSide -> gmap Z (list Z)) (side : OrderSide) (price : Z)
    : list Z :=
  default [] (q side !! price).
Abbreviation queue B := (waiting (queues B)).

(** The fields of an order have the width of the source. *)
Definition order_fits (o : Order) : Prop :=
  is_u64 (order_id o) /\ is_u256 (order_market o) /\ is_u256 (order_owner o) /\
  is_u64 (order_price o) /\ is_u64 (quantity o) /\ is_u64 (remaining_quantity o) /\
  is_u64 (sequence o).

Definition market_fits (k : Market) : Prop :=
  is_u256 (market_id k) /\ is_u256 (base_mint k) /\ is_u256 (quote_mint k) /\
  is_u64 (tick_size k) /\ is_u64 (lot_size k) /\
  0 <= maker_fee_bps k < 2 ^ 16 /\ 0 <= taker_fee_bps k < 2 ^ 16.

(** What bincode promises: a record is read back as it was written. *)
Definition codec_ok (C : LiquidCodec) : Prop :=
  (forall o, order_fits o -> exists bytes,
     encode_order o = Ok bytes /\ decode_order bytes = Ok o /\ Forall is_byte bytes /\
     0 < Z.of_nat (length bytes) < 2 ^ 32) /\
  (forall k, market_fits k -> exists bytes,
     encode_market k = Ok bytes /\ decode_market bytes = Ok k /\ Forall is_byte bytes /\
     0 < Z.of_nat (length bytes) < 2 ^ 32).

(** Every id waits at one place, and no level is empty. *)
Record queues_ok (q : OrderSide -> gmap Z (list Z)) : Prop := {
  q_id side p id : id ∈ waiting q side p -> is_u64 id /\ id <> 0;
  q_nodup side p : NoDup (waiting q side p);
  q_apart side p side' p' id :
    id ∈ waiting q side p -> id ∈ waiting q side' p' -> side' = side /\ p' = p;
  q_level side p ids : q side !! p = Some ids -> is_u64 p /\ ids <> [];
}.

Lemma queues_ok_empty : queues_ok (fun _ => ∅).
Proof.
  split; unfold waiting; cbn; try done.
  - intros side p id. rewrite lookup_empty. set_solver.
  - intros side p. rewrite lookup_empty. constructor.
  - intros side p side' p' id. rewrite lookup_empty. set_solver.
Qed.

(** The links of a queue: each order points to the one before and after it. *)
Fixpoint linked (links : Z -> Z * Z) (prev : Z) (ids : list Z) (next : Z) : Prop :=
  match ids with
  | [] => True
  | id :: ids => links id = (prev, default next (head ids)) /\ linked links id ids next
  end.

Definition ends (ids : list Z) : Z * Z := (default 0 (head ids), default 0 (last ids)).

Inductive Kind : Type := KOrder (id : Z) | KBalance | KCounter | KQueue | KMarket.

Definition kind (s : BookSlot) : Kind :=
  match s with
  | SOrderCount id | SOrderLen id | SOrderChunk id _ => KOrder id
  | SBalance _ _ => KBalance
  | SNextId | SNextSeq => KCounter
  | SLevel _ _ | SQueue _ | SLadder _ => KQueue
  | SMarketCount | SMarketLen | SMarketChunk _ => KMarket
  end.

Section book.
Context (sha256 : list Z -> list Z) {C : LiquidCodec} (users : gset AccountId) (m : MarketId).

Definition book : AccountId := market_book_id sha256 m.
Definition bkey (s : BookSlot) : Z := digest sha256 (book_message m s).
Definition val (t : StateTree) (s : BookSlot) : Z := get_storage t book (bkey s).
Definition links (t : StateTree) (id : Z) : Z * Z := read_pair t book (queue_slot sha256 id).

Record represents (t : StateTree) (B : Book) : Prop := {
  rep_bal u a : u ∈ users -> is_asset a -> free_balance sha256 t m u a = bal B u a;
  rep_order id : is_u64 id ->
    get_record sha256 decode_order t book ORDER_DOMAIN (le_bytes 8 id) = Ok (orders B !! id);
  rep_level side p : is_u64 p ->
    read_pair t book (level_slot sha256 m side p) = ends (queue B side p);
  rep_linked side p : linked (links t) 0 (queue B side p) 0;
  rep_queues : queues_ok (queues B);
  rep_ladder : exists f free, ladders sha256 book t f [] free /\
    (forall side, keys_of (f side) = dom (queues B side)) /\
    limit sha256 book t <= arena B;
  rep_next_id :
    Z.max (slot_u64 t book (liquid_slot sha256 "ace-liquid:next-order-id:v1" 0 [])) 1 = next_id B;
  rep_next_seq :
    Z.max (slot_u64 t book (liquid_slot sha256 "ace-liquid:next-seq:v1" 0 [])) 1 = next_seq B;
  rep_market :
    get_record sha256 decode_market t book MARKET_DOMAIN (be_bytes 32 m) = Ok (Some (market B));
}.

(** ** What is outside of the market *)

Definition outside (t t' : StateTree) : Prop :=
  forall a, a <> book -> contract_storage t' !! a = contract_storage t !! a.

Lemma outside_refl t : outside t t.
Proof. done. Qed.
Lemma outside_trans t1 t2 t3 : outside t1 t2 -> outside t2 t3 -> outside t1 t3.
Proof. intros H1 H2 a Ha. by rewrite H2, H1. Qed.

Lemma outside_set t slot v : outside t (set_storage t book slot v).
Proof. intros a Ha. cbn. by rewrite lookup_insert_ne. Qed.

Lemma outside_chunks domain key chunks t idx :
  outside t (write_chunks sha256 t book domain key idx chunks).
Proof.
  revert t idx. induction chunks as [|c chunks IH]; intros t idx; [done|].
  eapply outside_trans; [apply outside_set|apply IH].
Qed.

Lemma outside_node t h node : outside t (cb_write_node sha256 t book h node).
Proof. destruct node; apply outside_set. Qed.

Lemma outside_free t h : outside t (cb_free sha256 t book h).
Proof. eapply outside_trans; apply outside_set. Qed.

Lemma outside_alloc t : outside t (fst (cb_alloc sha256 t book)).
Proof. unfold cb_alloc. destruct (negb _); apply outside_set. Qed.

Lemma outside_link t side link v t' : set_link sha256 t book side link v = Some t' -> outside t t'.
Proof.
  unfold set_link. destruct link as [|parent idx]; [intros [= <-]; apply outside_set|].
  destruct (cb_read_node _ _ _ _) as [crit l r|]; [|done].
  destruct (if idx =? 0 then _ else _) as [l' r']. intros [= <-]. apply outside_set.
Qed.

Lemma outside_insert t side key t' : cb_insert sha256 t m side key = Some t' -> outside t t'.
Proof.
  unfold cb_insert. fold book. pose proof (outside_alloc t) as H1.
  destruct (cb_alloc sha256 t book) as [t1 leaf]. cbn [fst] in H1.
  pose proof (outside_trans _ _ _ H1 (outside_node t1 leaf (Leaf key))) as H2.
  destruct (_ =? 0); [intros [= <-]; eapply outside_trans; [exact H2|apply outside_set]|].
  destruct (cb_walk _ _ _ _ _ _) as [k|]; [|done]. cbn [mbind option_bind].
  destruct (k =? key); [by intros [= <-]|]. destruct (cb_descend _ _ _ _ _ _ _ _) as [[link cur]|]; [|done].
  cbn [mbind option_bind]. set (t2 := cb_write_node sha256 t1 book leaf (Leaf key)) in *.
  pose proof (outside_alloc t2) as H3. destruct (cb_alloc sha256 t2 book) as [t3 inner]. cbn [fst] in H3.
  destruct (if _ =? 0 then (leaf, cur) else _) as [l r]. intros E%outside_link.
  eapply outside_trans; [exact H2|]. eapply outside_trans; [exact H3|].
  eapply outside_trans; [apply outside_node|exact E].
Qed.

Lemma outside_remove t side key t' : cb_remove sha256 t m side key = Some t' -> outside t t'.
Proof.
  unfold cb_remove. fold book. destruct (_ =? 0); [by intros [= <-]|].
  destruct (cb_find _ _ _ _ _ _) as [[s|]|]; [|by intros [= <-]|done]. cbn [mbind option_bind].
  pose proof (outside_free t (path_p s)) as H1. set (t1 := cb_free _ _ _ _) in *.
  destruct (link_q s) as [link|]; [|intros [= <-]; eapply outside_trans; [exact H1|apply outside_set]].
  destruct (cb_read_node _ _ _ _) as [crit l r|]; [|done].
  destruct (set_link _ _ _ _ _ _) as [t2|] eqn:E; [|done]. cbn [mbind option_bind]. intros [= <-].
  apply outside_link in E. eapply outside_trans; [exact H1|]. eapply outside_trans; [exact E|apply outside_free].
Qed.

(** A computation that writes nothing outside of the market. *)
Definition confined {E A} (c : M E A) : Prop := forall t, wp c t (fun t' _ => outside t t').

Lemma confined_bind {E A A'} (c : M E A) (k : A -> M E A') :
  confined c -> (forall a, confined (k a)) -> confined (bind c k).
Proof.
  intros Hc Hk t. apply wp_bind. refine (wp_mono _ _ _ _ _ (Hc t)). intros t1 [a|e] H1; [|done].
  refine (wp_mono _ _ _ _ _ (Hk a t1)). intros t2 r H2. by apply (outside_trans _ t1).
Qed.

Lemma confined_pure {E A} (c : M E A) : (forall t, fst (c t) = t) -> confined c.
Proof. intros H t. unfold wp. by rewrite H. Qed.

Lemma confined_modify {E} (f : StateTree -> StateTree) :
  (forall t, outside t (f t)) -> confined (modify f : M E unit).
Proof. intros H t. apply wp_modify. apply H. Qed.

Lemma confined_ladder f : (forall t t', f t = Some t' -> outside t t') -> confined (ladder f).
Proof. intros H t. unfold wp, ladder. destruct (f t) as [t'|] eqn:E; cbn; [by apply H|done]. Qed.

Ltac confined_step :=
  lazymatch goal with
  | |- confined (bind _ _) => apply confined_bind; [|intros ?]
  | |- confined (if ?c then _ else _) => destruct c
  | |- confined (match ?x with _ => _ end) => destruct x
  | |- confined (modify _) => apply confined_modify; intros ?; apply outside_set
  | |- confined (ret _) => by apply confined_pure
  | |- confined (fail _) => by apply confined_pure
  | |- confined (gets _) => by apply confined_pure
  | |- confined (require ?o _) => by apply confined_pure; destruct o
  | |- confined (fail_if ?c _) => by apply confined_pure; destruct c
  end.

Lemma credit_confined u a x : confined (credit_balance sha256 m u a x).
Proof. unfold credit_balance. cbv zeta. repeat confined_step. Qed.

Lemma debit_confined u a x : confined (debit_balance sha256 m u a x).
Proof. unfold debit_balance. cbv zeta. repeat confined_step. Qed.

Lemma put_order_confined o : order_market o = m -> confined (put_order sha256 o).
Proof.
  intros Hm. unfold put_order, put_record. rewrite Hm. destruct (encode_order o); [|by repeat confined_step].
  apply confined_modify. intros t. eapply outside_trans; [apply outside_set|].
  eapply outside_trans; [apply outside_set|apply outside_chunks].
Qed.

Lemma enqueue_confined side p id : confined (enqueue_order sha256 m side p id).
Proof.
  unfold enqueue_order, read_level, write_level, read_queue, write_queue, add_level.
  repeat confined_step. apply confined_ladder. intros t t'. apply outside_insert.
Qed.

Lemma dequeue_confined side p id : confined (remove_order_from_queue sha256 m side p id).
Proof.
  unfold remove_order_from_queue, read_level, write_level, read_queue, write_queue, remove_level. cbv zeta.
  repeat confined_step. apply confined_ladder. intros t t'. apply outside_remove.
Qed.

(** ** Simulation *)

(** A computation on the storage does what a function of the book does: it has
    its result, reaches a state that represents the function's book, and writes
    nothing outside of the market. *)
Definition sim {A} (c : M LiquidError A) (t : StateTree) (r : result LiquidError (Book * A)) : Prop :=
  wp c t (fun t' x => match r with
    | Ok (B, a) => x = Ok a /\ represents t' B /\ outside t t'
    | Err e => x = Err e
    end).

Definition sim_unit (c : M LiquidError unit) (t : StateTree) (r : result LiquidError Book) : Prop :=
  wp c t (fun t' x => match r with
    | Ok B => x = Ok tt /\ represents t' B /\ outside t t'
    | Err e => x = Err e
    end).

Lemma sim_confined c t r :
  confined c ->
  wp c t (fun t' x => match r with Ok B => x = Ok tt /\ represents t' B | Err e => x = Err e end) ->
  sim_unit c t r.
Proof. intros Hc H. specialize (Hc t). unfold sim_unit, wp in *. destruct r; tauto. Qed.

(** What comes after a step that is confined. *)
Lemma sim_after {A} (c : M LiquidError A) t t1 r :
  outside t t1 -> sim c t1 r ->
  wp c t1 (fun t' x => match r with
    | Ok (B, a) => x = Ok a /\ represents t' B /\ outside t t'
    | Err e => x = Err e
    end).
Proof.
  intros H. apply wp_mono. intros t2 x. destruct r as [[B a]|]; [|done]. intros (E & R & H2).
  split_and!; [done|done|]. by apply (outside_trans _ t1).
Qed.

Lemma sim_bind {A A'} (c : M LiquidError A) (k : A -> M LiquidError A') t r r' :
  sim c t r ->
  (forall t1 B1 a, represents t1 B1 -> r = Ok (B1, a) -> sim (k a) t1 (r' (B1, a))) ->
  sim (bind c k) t (rbind r r').
Proof.
  intros Hc Hk. apply wp_bind. revert Hc. apply wp_mono. intros t1 x.
  destruct r as [[B1 a]|e]; [|by intros ->]. intros (-> & R & H). apply sim_after; [done|]. by apply Hk.
Qed.

Lemma sim_bind_unit {A'} (c : M LiquidError unit) (k : unit -> M LiquidError A') t r r' :
  sim_unit c t r ->
  (forall t1 B1, represents t1 B1 -> r = Ok B1 -> sim (k tt) t1 (r' B1)) ->
  sim (bind c k) t (rbind r r').
Proof.
  intros Hc Hk. apply wp_bind. revert Hc. apply wp_mono. intros t1 x.
  destruct r as [B1|e]; [|by intros ->]. intros (-> & R & H). apply sim_after; [done|]. by apply Hk.
Qed.

Lemma sim_bind_lift {A A'} (x : result LiquidError A) (k : A -> M LiquidError A') t r' :
  (forall a, x = Ok a -> sim (k a) t (r' a)) -> sim (bind (lift x) k) t (rbind x r').
Proof. intros Hk. apply wp_bind, wp_lift. destruct x as [a|e]; [|done]. by apply Hk. Qed.

Lemma sim_unit_then (c : M LiquidError unit) (k : unit -> M LiquidError unit) t r r' :
  sim_unit c t r ->
  (forall t1 B1, represents t1 B1 -> r = Ok B1 -> sim_unit (k tt) t1 (r' B1)) ->
  sim_unit (bind c k) t (rbind r r').
Proof.
  intros Hc Hk. apply wp_bind. revert Hc. apply wp_mono. intros t1 x.
  destruct r as [B1|e]; [|by intros ->]. intros (-> & R & H).
  specialize (Hk t1 B1 R eq_refl). revert Hk. apply wp_mono. cbn [rbind]. intros t2 x.
  destruct (r' B1) as [B2|]; [|done].
  intros (E & R2 & H2). split_and!; [done|done|]. by apply (outside_trans _ t1).
Qed.

Hypothesis Hshape : digest_shape sha256.
Hypothesis Hapart : book_apart sha256 users m.
Hypothesis Husers : forall u, u ∈ users -> is_u256 u.

Lemma ladder_apart : slots_apart sha256.
Proof. intros a b Ha Hb. exact (Hapart (SLadder a) (SLadder b) Ha Hb). Qed.

Lemma bkey_inj a b : book_slot_ok users a -> book_slot_ok users b -> bkey a = bkey b -> a = b.
Proof.
  intros Ha Hb E. apply (book_message_inj users m); try done. apply Hapart; try done.
  by apply digest_eq.
Qed.

(** ** Frames *)

Definition agree_on (K : Kind) (t t' : StateTree) : Prop :=
  forall s, book_slot_ok users s -> kind s = K -> val t' s = val t s.

(** Only slots of one kind changed. *)
Definition changes (K : Kind) (t t' : StateTree) : Prop :=
  forall K', K' <> K -> agree_on K' t t'.

Lemma put_changes t s v :
  book_slot_ok users s -> changes (kind s) t (set_storage t book (bkey s) v).
Proof.
  intros Hs K Hne s' Hs' E. apply get_set_storage_ne. right. intros Ek. apply bkey_inj in Ek; [|done..]. by subst.
Qed.

Lemma put_other t s s' v :
  book_slot_ok users s -> book_slot_ok users s' -> s <> s' ->
  val (set_storage t book (bkey s) v) s' = val t s'.
Proof.
  intros Hs Hs' Hne. apply get_set_storage_ne. right. intros Ek. by apply bkey_inj in Ek.
Qed.

Lemma put_same t s v : val (set_storage t book (bkey s) v) s = v.
Proof. apply get_set_storage. Qed.

Lemma changes_trans K t1 t2 t3 : changes K t1 t2 -> changes K t2 t3 -> changes K t1 t3.
Proof. intros H12 H23 K' Hne s Hs E. by rewrite (H23 K'), (H12 K'). Qed.

(** Each part of the representation depends on the slots of its kind. *)
Lemma balance_ext t t' u a :
  agree_on KBalance t t' -> u ∈ users -> is_asset a ->
  free_balance sha256 t' m u a = free_balance sha256 t m u a.
Proof. intros H Hu Ha. exact (f_equal (fun x => u64_at x 0) (H (SBalance u a) (conj Hu Ha) eq_refl)). Qed.

Lemma pair_ext t t' s :
  val t' s = val t s -> read_pair t' book (bkey s) = read_pair t book (bkey s).
Proof. intros E. exact (f_equal (fun x => (u64_at x 0, u64_at x 8)) E). Qed.

Lemma read_chunks_ext t t' domain key idx n :
  (forall i, is_u64 i -> get_storage t' book (liquid_slot sha256 domain 2 (chunk_key key i)) =
                         get_storage t book (liquid_slot sha256 domain 2 (chunk_key key i))) ->
  0 <= idx -> idx + Z.of_nat n <= u64_max + 1 ->
  read_chunks sha256 t' book domain key idx n = read_chunks sha256 t book domain key idx n.
Proof.
  intros H. revert idx. induction n as [|n IH]; intros idx H0 Hn; [done|]. cbn [read_chunks].
  f_equal; [|apply IH; lia]. rewrite H; [done|]. unfold is_u64. lia.
Qed.

Lemma record_ext {T} (decode : list Z -> result string T) t t' domain key :
  (forall tag, tag = 0 \/ tag = 1 -> get_storage t' book (liquid_slot sha256 domain tag key) =
                                    get_storage t book (liquid_slot sha256 domain tag key)) ->
  (forall i, is_u64 i -> get_storage t' book (liquid_slot sha256 domain 2 (chunk_key key i)) =
                         get_storage t book (liquid_slot sha256 domain 2 (chunk_key key i))) ->
  get_record sha256 decode t' book domain key = get_record sha256 decode t book domain key.
Proof.
  intros Htag Hi. pose proof (slot_u64_range book t (liquid_slot sha256 domain 0 key)) as Hr.
  unfold is_u64 in Hr. unfold get_record, chunk_count, slot_u64 in *.
  rewrite !Htag by auto. rewrite (read_chunks_ext t t'); [done|done|lia|]. rewrite Z2Nat.id; lia.
Qed.

Lemma order_ext t t' id :
  agree_on (KOrder id) t t' -> is_u64 id ->
  get_record sha256 decode_order t' book ORDER_DOMAIN (le_bytes 8 id) =
  get_record sha256 decode_order t book ORDER_DOMAIN (le_bytes 8 id).
Proof.
  intros H Hid. apply record_ext.
  - intros tag [-> | ->]; [exact (H (SOrderCount id) Hid eq_refl)|exact (H (SOrderLen id) Hid eq_refl)].
  - intros i Hi. exact (H (SOrderChunk id i) (conj Hid Hi) eq_refl).
Qed.

Lemma market_ext t t' :
  agree_on KMarket t t' ->
  get_record sha256 decode_market t' book MARKET_DOMAIN (be_bytes 32 m) =
  get_record sha256 decode_market t book MARKET_DOMAIN (be_bytes 32 m).
Proof.
  intros H. apply record_ext.
  - intros tag [-> | ->]; [exact (H SMarketCount I eq_refl)|exact (H SMarketLen I eq_refl)].
  - intros i Hi. exact (H (SMarketChunk i) Hi eq_refl).
Qed.

(** The ladders did not change. *)
Definition same_ladders (t t' : StateTree) : Prop :=
  forall s, slot_ok s -> val t' (SLadder s) = val t (SLadder s).

Lemma ladder_ext t t' f own free :
  same_ladders t t' -> ladders sha256 book t f own free -> ladders sha256 book t' f own free.
Proof. intros H. apply (ladders_ext sha256 book). exact H. Qed.

Lemma limit_ext t t' : same_ladders t t' -> limit sha256 book t' = limit sha256 book t.
Proof. intros H. exact (f_equal (fun x => Z.max (u64_at x 0) 1) (H SlotAlloc I)). Qed.

Lemma linked_ext links1 links2 prev ids next :
  (forall id, id ∈ ids -> links2 id = links1 id) -> linked links1 prev ids next -> linked links2 prev ids next.
Proof.
  revert prev. induction ids as [|id ids IH]; intros prev H; [done|]. cbn. intros [E Hl].
  rewrite H by by left. split; [done|]. apply IH; [|done]. intros x Hx. apply H. by right.
Qed.

(** A state that changed at one kind of slot keeps the other parts. *)
Record kept (K : Kind) (t' : StateTree) (B : Book) : Prop := {
  kept_bal u a : K <> KBalance -> u ∈ users -> is_asset a ->
    free_balance sha256 t' m u a = bal B u a;
  kept_order id : K <> KOrder id -> is_u64 id ->
    get_record sha256 decode_order t' book ORDER_DOMAIN (le_bytes 8 id) = Ok (orders B !! id);
  kept_level side p : K <> KQueue -> is_u64 p ->
    read_pair t' book (level_slot sha256 m side p) = ends (queue B side p);
  kept_linked side p : K <> KQueue -> linked (links t') 0 (queue B side p) 0;
  kept_ladder : K <> KQueue -> exists f free, ladders sha256 book t' f [] free /\
    (forall side, keys_of (f side) = dom (queues B side)) /\
    limit sha256 book t' <= arena B;
  kept_next_id : K <> KCounter ->
    Z.max (slot_u64 t' book (liquid_slot sha256 "ace-liquid:next-order-id:v1" 0 [])) 1 = next_id B;
  kept_next_seq : K <> KCounter ->
    Z.max (slot_u64 t' book (liquid_slot sha256 "ace-liquid:next-seq:v1" 0 [])) 1 = next_seq B;
  kept_market : K <> KMarket ->
    get_record sha256 decode_market t' book MARKET_DOMAIN (be_bytes 32 m) = Ok (Some (market B));
}.

Lemma represents_kept K t t' B : represents t B -> changes K t t' -> kept K t' B.
Proof.
  intros R H. split.
  - intros u a HK Hu Ha. rewrite (balance_ext t t') by (try done; by apply H). by apply (rep_bal t B).
  - intros id HK Hid. rewrite (order_ext t t') by (try done; by apply H). by apply (rep_order t B).
  - intros side p HK Hp.
    rewrite <-(rep_level t B R side p Hp).
    exact (pair_ext t t' (SLevel side p) (H KQueue ltac:(done) (SLevel side p) Hp eq_refl)).
  - intros side p HK. apply (linked_ext (links t)); [|apply (rep_linked t B R)]. intros id Hid.
    apply (q_id _ (rep_queues t B R)) in Hid as [Hid _].
    exact (pair_ext t t' (SQueue id) (H KQueue ltac:(done) (SQueue id) Hid eq_refl)).
  - intros HK. destruct (rep_ladder t B R) as (f & free & L & Hk & Hl). exists f, free.
    assert (same_ladders t t') as Ha by (intros s Hs; by apply (H KQueue)).
    split_and!; [|done|by rewrite (limit_ext t t')]. by apply (ladder_ext t t').
  - intros HK. rewrite <-(rep_next_id t B R).
    exact (f_equal (fun x => Z.max (u64_at x 0) 1) (H KCounter ltac:(done) SNextId I eq_refl)).
  - intros HK. rewrite <-(rep_next_seq t B R).
    exact (f_equal (fun x => Z.max (u64_at x 0) 1) (H KCounter ltac:(done) SNextSeq I eq_refl)).
  - intros HK. rewrite (market_ext t t') by (by apply H). apply (rep_market t B R).
Qed.

(** The parts of the representation that a change of another kind keeps. *)
Ltac kept_rest K R :=
  first
    [ exact (fun u a => kept_bal _ _ _ K u a ltac:(done))
    | exact (fun id => kept_order _ _ _ K id ltac:(done))
    | exact (fun side p => kept_level _ _ _ K side p ltac:(done))
    | exact (fun side p => kept_linked _ _ _ K side p ltac:(done))
    | exact (rep_queues _ _ R)
    | exact (kept_ladder _ _ _ K ltac:(done))
    | exact (kept_next_id _ _ _ K ltac:(done))
    | exact (kept_next_seq _ _ _ K ltac:(done))
    | exact (kept_market _ _ _ K ltac:(done)) ].

(** ** Balances *)

Definition set_bal (B : Book) (u : AccountId) (a v : Z) : Book :=
  {| bal u' a' := if decide (u' = u /\ a' = a) then v else bal B u' a'; orders := orders B;
     queues := queues B; next_id := next_id B; next_seq := next_seq B;
     arena := arena B; market := market B |}.

Definition add_bal (B : Book) (u : AccountId) (a d : Z) : Book := set_bal B u a (bal B u a + d).

Lemma write_balance t B u a v :
  represents t B -> u ∈ users -> is_asset a -> is_u64 v ->
  represents (write_slot_u64 t book (balance_slot sha256 u a) v) (set_bal B u a v).
Proof.
  intros R Hu Ha Hv. pose proof (put_changes t (SBalance u a) (be_num (le_bytes 8 v ++ replicate 24 0))
    (conj Hu Ha)) as Hc.
  pose proof (represents_kept _ _ _ _ R Hc) as K. cbn [kind] in K, Hc.
  assert (forall u' a', u' ∈ users -> is_asset a' ->
    free_balance sha256 (write_slot_u64 t book (balance_slot sha256 u a) v) m u' a' =
    bal (set_bal B u a v) u' a') as Hb.
  { intros u' a' Hu' Ha'. cbn. destruct (decide _) as [[-> ->]|Hne].
    - etrans; [exact (f_equal (fun x => u64_at x 0) (put_same t (SBalance u a) _))|].
      by apply u64_at_write.
    - rewrite <-(rep_bal t B R) by done.
      refine (f_equal (fun x => u64_at x 0) (put_other t (SBalance u a) (SBalance u' a') _ _ _ _));
        [by split|by split|]. intros [= -> ->]. by apply Hne. }
  split; [exact Hb|kept_rest K R..].
Qed.

Lemma add_bal_zero t B u a : represents t B -> represents t (add_bal B u a 0).
Proof.
  intros R. destruct R as [Hb ? ? ? ? ? ? ? ?]. split; try done. intros u' a' Hu Ha.
  rewrite Hb by done. cbn. destruct (decide _) as [[-> ->]|]; lia.
Qed.

Definition credit_book (B : Book) (u : AccountId) (a x : Z) : result LiquidError Book :=
  if bal B u a + x <=? u64_max then Ok (add_bal B u a x) else Err ArithmeticOverflow.
Definition debit_book (B : Book) (u : AccountId) (a x : Z) : result LiquidError Book :=
  if bal B u a <? x then Err (InsufficientBalance (bal B u a) x) else Ok (add_bal B u a (- x)).

Lemma balance_u64 t B u a : represents t B -> u ∈ users -> is_asset a -> is_u64 (bal B u a).
Proof. intros R Hu Ha. rewrite <-(rep_bal t B R) by done. apply slot_u64_range. Qed.

Lemma credit_spec t B u a x :
  represents t B -> u ∈ users -> is_asset a -> 0 <= x ->
  sim_unit (credit_balance sha256 m u a x) t (credit_book B u a x).
Proof.
  intros R Hu Ha Hx. apply sim_confined; [apply credit_confined|]. unfold credit_balance, credit_book. fold book.
  pose proof (balance_u64 t B u a R Hu Ha) as Hr. unfold is_u64 in Hr.
  assert (slot_u64 t book (balance_slot sha256 u a) = bal B u a) as Eb by exact (rep_bal t B R u a Hu Ha).
  destruct (Z.eqb_spec x 0) as [->|Hne].
  { rewrite (proj2 (Z.leb_le _ _)) by lia. apply wp_ret. split; [done|]. by apply add_bal_zero. }
  apply wp_bind, wp_gets. cbv beta iota. rewrite Eb. unfold u64_checked_add.
  destruct (Z.leb_spec (bal B u a + x) u64_max); [|by apply wp_bind, wp_fail].
  apply wp_bind, wp_ret. apply wp_modify. split; [done|]. apply write_balance; try done.
  unfold is_u64. lia.
Qed.

Lemma debit_spec t B u a x :
  represents t B -> u ∈ users -> is_asset a -> 0 <= x ->
  sim_unit (debit_balance sha256 m u a x) t (debit_book B u a x).
Proof.
  intros R Hu Ha Hx. apply sim_confined; [apply debit_confined|]. unfold debit_balance, debit_book. fold book.
  pose proof (balance_u64 t B u a R Hu Ha) as Hr. unfold is_u64 in Hr.
  assert (slot_u64 t book (balance_slot sha256 u a) = bal B u a) as Eb by exact (rep_bal t B R u a Hu Ha).
  destruct (Z.eqb_spec x 0) as [->|Hne].
  { rewrite (proj2 (Z.ltb_ge _ _)) by lia. apply wp_ret. split; [done|]. by apply add_bal_zero. }
  apply wp_bind, wp_gets. cbv beta iota. rewrite Eb. unfold fail_if.
  destruct (Z.ltb_spec (bal B u a) x); [by apply wp_bind, wp_fail|].
  apply wp_bind, wp_ret. apply wp_modify. split; [done|]. apply write_balance; try done.
  unfold is_u64. lia.
Qed.

(** ** Records *)

Definition set_order (B : Book) (id : Z) (o : Order) : Book :=
  {| bal := bal B; orders := <[id := o]> (orders B); queues := queues B; next_id := next_id B;
     next_seq := next_seq B;
     arena := arena B; market := market B |}.

(** The slots of a stored record: an order or the market. *)
Inductive StoredAs : Type := AsOrder (id : Z) | AsMarket.

Definition rec_ok (r : StoredAs) : Prop := match r with AsOrder id => is_u64 id | AsMarket => True end.
Definition rec_domain (r : StoredAs) : string :=
  match r with AsOrder _ => ORDER_DOMAIN | AsMarket => MARKET_DOMAIN end.
Definition rec_key (r : StoredAs) : list Z :=
  match r with AsOrder id => le_bytes 8 id | AsMarket => be_bytes 32 m end.
Definition rec_kind (r : StoredAs) : Kind := match r with AsOrder id => KOrder id | AsMarket => KMarket end.
Definition rec_count (r : StoredAs) : BookSlot :=
  match r with AsOrder id => SOrderCount id | AsMarket => SMarketCount end.
Definition rec_len (r : StoredAs) : BookSlot :=
  match r with AsOrder id => SOrderLen id | AsMarket => SMarketLen end.
Definition rec_chunk (r : StoredAs) (idx : Z) : BookSlot :=
  match r with AsOrder id => SOrderChunk id idx | AsMarket => SMarketChunk idx end.

Lemma rec_slot r idx :
  liquid_slot sha256 (rec_domain r) 0 (rec_key r) = bkey (rec_count r) /\
  liquid_slot sha256 (rec_domain r) 1 (rec_key r) = bkey (rec_len r) /\
  liquid_slot sha256 (rec_domain r) 2 (chunk_key (rec_key r) idx) = bkey (rec_chunk r idx).
Proof. by destruct r. Qed.

Lemma rec_slot_ok r :
  rec_ok r ->
  (book_slot_ok users (rec_count r) /\ kind (rec_count r) = rec_kind r) /\
  (book_slot_ok users (rec_len r) /\ kind (rec_len r) = rec_kind r) /\
  forall idx, is_u64 idx -> book_slot_ok users (rec_chunk r idx) /\ kind (rec_chunk r idx) = rec_kind r.
Proof. by destruct r. Qed.

Lemma rec_slot_ne r :
  rec_count r <> rec_len r /\
  (forall i, rec_count r <> rec_chunk r i /\ rec_len r <> rec_chunk r i) /\
  (forall i j, rec_chunk r i = rec_chunk r j -> i = j).
Proof. destruct r; split_and!; try done; by intros i j [= ->]. Qed.

Lemma write_chunks_ok r t idx chunks :
  rec_ok r -> 0 <= idx -> idx + Z.of_nat (length chunks) <= u64_max ->
  let t' := write_chunks sha256 t book (rec_domain r) (rec_key r) idx chunks in
  changes (rec_kind r) t t' /\
  (forall s, book_slot_ok users s -> (forall j, idx <= j -> s <> rec_chunk r j) ->
     val t' s = val t s) /\
  read_chunks sha256 t' book (rec_domain r) (rec_key r) idx (length chunks) =
    concat ((fun c => be_bytes 32 (chunk_value c)) <$> chunks).
Proof.
  intros Hid. revert t idx. induction chunks as [|c chunks IH]; intros t idx H0 Hn; cbn [length] in Hn.
  { split_and!; [by intros K _ s _ _|done|done]. }
  assert (is_u64 idx) as Hi by (unfold is_u64; lia).
  destruct (rec_slot_ok r Hid) as (_ & _ & Hok). destruct (Hok idx Hi) as [Hs Hk].
  destruct (rec_slot r idx) as (_ & _ & Ek).
  cbn [write_chunks read_chunks length fmap list_fmap concat]. rewrite Ek.
  set (t1 := set_storage t book (bkey (rec_chunk r idx)) (chunk_value c)).
  destruct (IH t1 (idx + 1)) as (Hc & Hv & Hr); [lia|lia|]. cbv zeta in *.
  set (t' := write_chunks sha256 t1 book (rec_domain r) (rec_key r) (idx + 1) chunks) in *.
  split_and!.
  - eapply changes_trans; [|exact Hc]. rewrite <-Hk. by apply put_changes.
  - intros s Hs' Hne. rewrite Hv; [|done|intros j Hj; apply Hne; lia].
    apply put_other; [done|done|]. intros <-. by apply (Hne idx).
  - rewrite <-Hr. f_equal. f_equal.
    assert (val t' (rec_chunk r idx) = chunk_value c) as E; [|exact E].
    rewrite Hv; [apply put_same|done|]. intros j Hj E. apply (rec_slot_ne r) in E. lia.
Qed.

Lemma u64_changes t s v :
  book_slot_ok users s -> changes (kind s) t (write_slot_u64 t book (bkey s) v).
Proof. intros Hs. by apply put_changes. Qed.

(** A 64-bit slot after its own write and writes elsewhere. *)
Lemma u64_after t t' s v :
  is_u64 v -> val t' s = val (write_slot_u64 t book (bkey s) v) s ->
  slot_u64 t' book (bkey s) = v.
Proof.
  intros Hv E. etrans; [exact (f_equal (fun x => u64_at x 0) E)|].
  etrans; [exact (f_equal (fun x => u64_at x 0) (put_same t s _))|]. by apply u64_at_write.
Qed.

(** A record after [put_record] of its bytes. *)
Lemma record_spec {T} (decode : list Z -> result string T) r t bytes v :
  rec_ok r -> Forall is_byte bytes -> 0 < Z.of_nat (length bytes) < 2 ^ 32 -> decode bytes = Ok v ->
  let chunks := chunks32 (length bytes) bytes in
  exists t3, write_chunks sha256
      (write_slot_u64 (write_slot_u64 t book (liquid_slot sha256 (rec_domain r) 0 (rec_key r))
        (Z.of_nat (length chunks))) book (liquid_slot sha256 (rec_domain r) 1 (rec_key r))
        (Z.of_nat (length bytes))) book (rec_domain r) (rec_key r) 0 chunks = t3 /\
  changes (rec_kind r) t t3 /\
  get_record sha256 decode t3 book (rec_domain r) (rec_key r) = Ok (Some v).
Proof.
  intros Hid Hb Hlen Hd chunks. destruct (rec_slot r 0) as (E0 & E1 & _). unfold get_record, chunk_count.
  rewrite E0, E1. destruct (rec_slot_ok r Hid) as ((Hc & Kc) & (Hl & Kl) & _).
  destruct (rec_slot_ne r) as (Hcl & Hch & _).
  set (t1 := write_slot_u64 t book (bkey (rec_count r)) (Z.of_nat (length chunks))).
  set (t2 := write_slot_u64 t1 book (bkey (rec_len r)) (Z.of_nat (length bytes))).
  set (t3 := write_chunks sha256 t2 book (rec_domain r) (rec_key r) 0 chunks).
  exists t3. split; [done|].
  destruct (chunks32_concat (length bytes) bytes) as (pad & Ecat & _ & Hle & Hne); [done|done|].
  fold chunks in Ecat, Hle, Hne.
  destruct (write_chunks_ok r t2 0 chunks Hid) as (Hw & Hv & Hr); [lia|unfold u64_max; lia|].
  cbv zeta in Hw, Hv, Hr. fold t3 in Hw, Hv, Hr.
  assert (forall n, (n <= length bytes)%nat -> is_u64 (Z.of_nat n)) as Hu
    by (intros n Hn; unfold is_u64, u64_max; lia).
  split.
  - eapply changes_trans; [rewrite <-Kc; by apply u64_changes|].
    eapply changes_trans; [rewrite <-Kl; by apply u64_changes|exact Hw].
  - rewrite (u64_after t t3 (rec_count r) (Z.of_nat (length chunks)));
      [|by apply Hu|rewrite Hv by (intros; by apply Hch || done); by apply put_other].
    rewrite (u64_after t1 t3 (rec_len r) (Z.of_nat (length bytes)));
      [|by apply Hu|by rewrite Hv by (intros; by apply Hch || done)].
    destruct (Z.eqb_spec (Z.of_nat (length chunks)) 0) as [Ez|_].
    { destruct chunks; [|done]. destruct Hne; [|done]. intros ->. cbn in Hlen. lia. }
    rewrite !Nat2Z.id, Hr, Ecat, length_app.
    destruct (Z.ltb_spec (Z.of_nat (length bytes + length pad)) (Z.of_nat (length bytes))); [lia|].
    by rewrite take_app_length, Hd.
Qed.

Lemma put_order_spec t B o :
  codec_ok C -> represents t B -> order_fits o -> order_market o = m ->
  sim_unit (put_order sha256 o) t (Ok (set_order B (order_id o) o)).
Proof.
  intros Hcodec R Hfit Hm. destruct (proj1 Hcodec o Hfit) as (bytes & He & Hd & Hb & Hlen).
  assert (is_u64 (order_id o)) as Hid by apply Hfit.
  destruct (record_spec decode_order (AsOrder (order_id o)) t bytes o Hid Hb Hlen Hd) as (t3 & E3 & Hch & Eget).
  apply sim_confined; [by apply put_order_confined|]. unfold put_order, put_record. rewrite He, Hm. fold book.
  apply wp_modify. cbn [rec_domain rec_key] in E3, Eget. rewrite E3. split; [done|].
  pose proof (represents_kept _ _ _ _ R Hch) as K. split; try kept_rest K R.
  intros id' Hid'. cbn. destruct (decide (id' = order_id o)) as [->|Hne'].
  - etrans; [exact Eget|]. by rewrite lookup_insert_eq.
  - rewrite lookup_insert_ne by done. apply (kept_order _ _ _ K); [|done]. by intros [= E].
Qed.

(** ** Counters *)

Definition set_next (B : Book) (id seq : Z) : Book :=
  {| bal := bal B; orders := orders B; queues := queues B; next_id := id; next_seq := seq;
     arena := arena B; market := market B |}.

Lemma write_counter t B s v :
  represents t B -> s = SNextId \/ s = SNextSeq -> is_u64 v -> 1 <= v ->
  represents (write_slot_u64 t book (bkey s) v)
    (set_next B (match s with SNextId => v | _ => next_id B end)
                (match s with SNextSeq => v | _ => next_seq B end)).
Proof.
  intros R Hs Hv H1. assert (book_slot_ok users s /\ kind s = KCounter) as [Hok Hk]
    by (by destruct Hs as [-> | ->]).
  pose proof (u64_changes t s v Hok) as Hc. rewrite Hk in Hc.
  pose proof (represents_kept _ _ _ _ R Hc) as K.
  assert (forall s', s' = SNextId \/ s' = SNextSeq -> s' <> s ->
    slot_u64 (write_slot_u64 t book (bkey s) v) book (bkey s') = slot_u64 t book (bkey s')) as Hother.
  { intros s' Hs' Hne. refine (f_equal (fun x => u64_at x 0) (put_other t s s' _ Hok _ _)); [|done].
    by destruct Hs' as [-> | ->]. }
  assert (slot_u64 (write_slot_u64 t book (bkey s) v) book (bkey s) = v) as Hsame
    by (by apply (u64_after t)).
  split; try kept_rest K R; cbn [set_next next_id next_seq].
  - change (liquid_slot sha256 "ace-liquid:next-order-id:v1" 0 []) with (bkey SNextId).
    destruct Hs as [-> | ->]; [rewrite Hsame; lia|]. rewrite Hother by auto. apply (rep_next_id t B R).
  - change (liquid_slot sha256 "ace-liquid:next-seq:v1" 0 []) with (bkey SNextSeq).
    destruct Hs as [-> | ->]; [|rewrite Hsame; lia]. rewrite Hother by auto. apply (rep_next_seq t B R).
Qed.

Lemma next_order_id_spec t B :
  represents t B ->
  wp (next_order_id sha256 m) t (fun t' r => match r with
    | Ok id => id = next_id B /\ represents t' (set_next B (next_id B + 1) (next_seq B)) /\ outside t t'
    | Err e => e = ArithmeticOverflow /\ u64_max <= next_id B
    end).
Proof.
  intros R. unfold next_order_id, next_counter. fold book. pose proof (rep_next_id t B R) as E.
  apply wp_bind, wp_gets. cbv beta iota. rewrite E. unfold u64_checked_add.
  destruct (Z.leb_spec (next_id B + 1) u64_max) as [Hle|Hgt].
  - apply wp_bind, wp_ret. cbv beta iota. apply wp_bind, wp_modify, wp_ret.
    split_and!; [done| |apply outside_set].
    apply (write_counter t B SNextId); [done|by left|unfold is_u64; lia|lia].
  - apply wp_bind, wp_fail. split; [done|lia].
Qed.

Lemma next_sequence_spec t B :
  represents t B ->
  wp (next_sequence sha256 m) t (fun t' r => match r with
    | Ok seq => seq = next_seq B /\ represents t' (set_next B (next_id B) (next_seq B + 1)) /\ outside t t'
    | Err e => e = ArithmeticOverflow /\ u64_max <= next_seq B
    end).
Proof.
  intros R. unfold next_sequence, next_counter. fold book. pose proof (rep_next_seq t B R) as E.
  apply wp_bind, wp_gets. cbv beta iota. rewrite E. unfold u64_checked_add.
  destruct (Z.leb_spec (next_seq B + 1) u64_max) as [Hle|Hgt].
  - apply wp_bind, wp_ret. cbv beta iota. apply wp_bind, wp_modify, wp_ret.
    split_and!; [done| |apply outside_set].
    apply (write_counter t B SNextSeq); [done|by right|unfold is_u64; lia|lia].
  - apply wp_bind, wp_fail. split; [done|lia].
Qed.

(** ** Reads *)

Lemma get_order_spec t B id (Q : StateTree -> result LiquidError (option Order) -> Prop) :
  represents t B -> is_u64 id -> Q t (Ok (orders B !! id)) -> wp (get_order sha256 m id) t Q.
Proof.
  intros R Hid HQ. unfold wp, get_order. cbn [fst snd]. fold book. by rewrite (rep_order t B R).
Qed.

Lemma require_market_spec t B (Q : StateTree -> result LiquidError Market -> Prop) :
  represents t B -> Q t (Ok (market B)) -> wp (require_market sha256 m) t Q.
Proof.
  intros R HQ. unfold wp, require_market, bind, get_market. fold book. by rewrite (rep_market t B R).
Qed.

(** The best price of a side: the highest bid or the lowest ask. *)
Definition best_of (side : OrderSide) (prices : gset Z) (answer : option Z) : Prop :=
  extreme_of (bool_decide (side = Buy)) prices answer.

Lemma best_price_spec t B side (Q : StateTree -> result LiquidError (option Z) -> Prop) :
  represents t B ->
  (forall answer, best_of side (dom (queues B side)) answer -> Q t (Ok answer)) ->
  wp (best_price sha256 m side) t Q.
Proof.
  intros R HQ. destruct (rep_ladder t B R) as (f & free & L & Hk & _).
  destruct (extreme_ok sha256 book m eq_refl t f free side (bool_decide (side = Buy)) L)
    as (answer & E & Hx). rewrite Hk in Hx. specialize (HQ answer Hx).
  unfold best_price. apply wp_bind, wp_gets.
  destruct side;
    [change (cb_max sha256 t m Buy = Some answer) in E|change (cb_min sha256 t m Sell = Some answer) in E];
    cbv beta iota; rewrite E; by apply wp_ret.
Qed.

Lemma front_order_spec t B side p (Q : StateTree -> result LiquidError (option OrderId) -> Prop) :
  represents t B -> is_u64 p -> Q t (Ok (head (queue B side p))) ->
  wp (front_order_at sha256 m side p) t Q.
Proof.
  intros R Hp HQ. unfold front_order_at, read_level. apply wp_bind, wp_gets. fold book.
  rewrite (rep_level t B R) by done. cbv beta iota. unfold ends. apply wp_ret.
  destruct (queue B side p) as [|id ids] eqn:E; [done|]. cbn in HQ |- *.
  destruct (q_id _ (rep_queues t B R) side p id) as [_ Hne]; [rewrite E; by left|].
  by apply Z.eqb_neq in Hne as ->.
Qed.

(** ** Queues *)

Definition level_with (ids : list Z) (p : Z) (levels : gmap Z (list Z))
    : gmap Z (list Z) :=
  match ids with [] => delete p levels | _ => <[p := ids]> levels end.

(** [ids] wait at a price; the ladders may have taken [k] more nodes. *)
Definition set_queue (B : Book) (side : OrderSide) (p : Z) (ids : list Z) (k : Z) : Book :=
  {| bal := bal B; orders := orders B;
     queues side' := if decide (side' = side) then level_with ids p (queues B side)
                     else queues B side';
     next_id := next_id B; next_seq := next_seq B; arena := arena B + k; market := market B |}.

Lemma waiting_set_eq B side p ids k : queue (set_queue B side p ids k) side p = ids.
Proof.
  unfold waiting. cbn. rewrite decide_True by done. destruct ids; cbn.
  - by rewrite lookup_delete_eq.
  - by rewrite lookup_insert_eq.
Qed.

Lemma waiting_set_ne B side p ids k side' p' :
  ~ (side' = side /\ p' = p) -> queue (set_queue B side p ids k) side' p' = queue B side' p'.
Proof.
  intros Hne. unfold waiting. cbn. destruct (decide (side' = side)) as [->|]; [|done].
  assert (p <> p') by (intros ->; by apply Hne).
  destruct ids; cbn; [by rewrite lookup_delete_ne|by rewrite lookup_insert_ne].
Qed.

Lemma dom_set_queue B side p ids k side' :
  dom (queues (set_queue B side p ids k) side') =
    if decide (side' = side) then
      match ids with [] => dom (queues B side) ∖ {[ p ]} | _ => {[ p ]} ∪ dom (queues B side) end
    else dom (queues B side').
Proof.
  cbn. destruct (decide _); [|done]. destruct ids; cbn; [apply dom_delete_L|apply dom_insert_L].
Qed.

(** A queue that is a part of the old one and perhaps a new id. *)
Lemma queues_ok_set B side p ids k :
  queues_ok (queues B) -> is_u64 p -> NoDup ids ->
  (forall id, id ∈ ids -> is_u64 id /\ id <> 0 /\
     forall side' p', id ∈ queue B side' p' -> side' = side /\ p' = p) ->
  queues_ok (queues (set_queue B side p ids k)).
Proof.
  intros Q Hp Hnd Hids. split.
  - intros side' p' id. destruct (decide (side' = side /\ p' = p)) as [[-> ->]|Hne].
    + rewrite waiting_set_eq. intros Hid%Hids. tauto.
    + rewrite waiting_set_ne by done. apply (q_id _ Q).
  - intros side' p'. destruct (decide (side' = side /\ p' = p)) as [[-> ->]|Hne].
    + by rewrite waiting_set_eq.
    + rewrite waiting_set_ne by done. apply (q_nodup _ Q).
  - intros s1 p1 s2 p2 id.
    destruct (decide (s1 = side /\ p1 = p)) as [[-> ->]|H1], (decide (s2 = side /\ p2 = p)) as [[-> ->]|H2];
      rewrite ?waiting_set_eq, ?(waiting_set_ne _ _ _ _ _ s1 p1),
        ?(waiting_set_ne _ _ _ _ _ s2 p2) by done; intros Hi1 Hi2.
    + done.
    + by apply (Hids id) in Hi1 as (_ & _ & Hi1); apply Hi1 in Hi2.
    + apply (Hids id) in Hi2 as (_ & _ & Hi2). apply Hi2 in Hi1 as [-> ->]. done.
    + by apply (q_apart _ Q s1 p1 s2 p2 id).
  - intros side' p' ids'. cbn. destruct (decide (side' = side)) as [->|]; [|apply (q_level _ Q)].
    destruct ids as [|id ids]; cbn.
    + intros [_ Hl]%lookup_delete_Some. by apply (q_level _ Q) in Hl.
    + intros [[<- <-]|[_ Hl]]%lookup_insert_Some; [done|]. by apply (q_level _ Q) in Hl.
Qed.

Lemma linked_app lk prev l1 l2 next :
  linked lk prev (l1 ++ l2) next <->
  linked lk prev l1 (default next (head l2)) /\ linked lk (default prev (last l1)) l2 next.
Proof.
  revert prev. induction l1 as [|x l1 IH]; intros prev; [cbn; tauto|].
  cbn [linked app]. rewrite IH.
  assert (default prev (last (x :: l1)) = default x (last l1)) as ->
    by (rewrite last_cons; by destruct (last l1)).
  assert (default next (head (l1 ++ l2)) = default (default next (head l2)) (head l1)) as ->
    by (by destruct l1).
  tauto.
Qed.

(** The queues as they are read during a change of the links. *)
Record qview (t0 t : StateTree) (lv : OrderSide -> Z -> Z * Z) (lk : Z -> Z * Z) : Prop := {
  qv_changes : changes KQueue t0 t;
  qv_ladders : same_ladders t0 t;
  qv_level side p : is_u64 p -> read_pair t book (level_slot sha256 m side p) = lv side p;
  qv_link id : is_u64 id -> links t id = lk id;
}.

Definition relink (lk : Z -> Z * Z) (i : Z) (x : Z * Z) (j : Z) : Z * Z :=
  if decide (j = i) then x else lk j.
Definition relevel (lv : OrderSide -> Z -> Z * Z) side p (x : Z * Z) side' p' : Z * Z :=
  if decide (side' = side /\ p' = p) then x else lv side' p'.

Lemma qview_start t B :
  represents t B -> qview t t (fun side p => ends (queue B side p)) (links t).
Proof. intros R. split; try done. apply (rep_level t B R). Qed.

Lemma pair_write_same t s a b :
  is_u64 a -> is_u64 b -> read_pair (write_pair t book (bkey s) a b) book (bkey s) = (a, b).
Proof.
  intros Ha Hb.
  etrans; [exact (f_equal (fun x => (u64_at x 0, u64_at x 8)) (put_same t s _))|].
  unfold is_u64, u64_max in *. unfold u64_at. rewrite value_bytes.
  - rewrite drop_0, take_app_length' by (by rewrite length_le_bytes).
    rewrite drop_app_length' by (by rewrite length_le_bytes).
    rewrite take_app_length' by (by rewrite length_le_bytes).
    rewrite !le_num_bytes by (cbn; lia). done.
  - by rewrite !length_app, !length_le_bytes.
  - apply Forall_app. split; [apply le_bytes_byte|]. apply Forall_app. split; [apply le_bytes_byte|].
    apply Forall_replicate. unfold is_byte. lia.
Qed.

Lemma pair_write_other t s s' a b :
  book_slot_ok users s -> book_slot_ok users s' -> s <> s' ->
  read_pair (write_pair t book (bkey s) a b) book (bkey s') = read_pair t book (bkey s').
Proof.
  intros Hs Hs' Hne.
  exact (f_equal (fun x => (u64_at x 0, u64_at x 8)) (put_other t s s' _ Hs Hs' Hne)).
Qed.

Lemma qview_put t0 t lv lk s a b :
  qview t0 t lv lk -> book_slot_ok users s -> kind s = KQueue -> (forall l, s <> SLadder l) ->
  changes KQueue t0 (write_pair t book (bkey s) a b) /\
  same_ladders t0 (write_pair t book (bkey s) a b).
Proof.
  intros V Hs Hk Hl. split.
  - apply (changes_trans _ t0 t _ (qv_changes _ _ _ _ V)). rewrite <-Hk. by apply put_changes.
  - intros l Hok. rewrite <-(qv_ladders _ _ _ _ V l Hok). by apply put_other.
Qed.

Lemma qview_queue t0 t lv lk i a b :
  qview t0 t lv lk -> is_u64 i -> is_u64 a -> is_u64 b ->
  qview t0 (write_pair t book (queue_slot sha256 i) a b) lv (relink lk i (a, b)).
Proof.
  intros V Hi Ha Hb. destruct (qview_put t0 t lv lk (SQueue i) a b V Hi) as [Hc Hl]; [done..|].
  split; [exact Hc|exact Hl| |].
  - intros side p Hp. rewrite <-(qv_level _ _ _ _ V side p Hp).
    exact (pair_write_other t (SQueue i) (SLevel side p) a b Hi Hp ltac:(done)).
  - intros j Hj. unfold relink. destruct (decide (j = i)) as [->|Hne].
    + exact (pair_write_same t (SQueue i) a b Ha Hb).
    + rewrite <-(qv_link _ _ _ _ V j Hj).
      apply (pair_write_other t (SQueue i) (SQueue j) a b Hi Hj). by intros [= ->].
Qed.

Lemma qview_level t0 t lv lk side p a b :
  qview t0 t lv lk -> is_u64 p -> is_u64 a -> is_u64 b ->
  qview t0 (write_pair t book (level_slot sha256 m side p) a b) (relevel lv side p (a, b)) lk.
Proof.
  intros V Hp Ha Hb. destruct (qview_put t0 t lv lk (SLevel side p) a b V Hp) as [Hc Hl]; [done..|].
  split; [exact Hc|exact Hl| |].
  - intros side' p' Hp'. unfold relevel. destruct (decide _) as [[-> ->]|Hne].
    + exact (pair_write_same t (SLevel side p) a b Ha Hb).
    + rewrite <-(qv_level _ _ _ _ V side' p' Hp').
      apply (pair_write_other t (SLevel side p) (SLevel side' p') a b Hp Hp').
      intros [= -> ->]. by apply Hne.
  - intros j Hj. rewrite <-(qv_link _ _ _ _ V j Hj).
    exact (pair_write_other t (SLevel side p) (SQueue j) a b Hp Hj ltac:(done)).
Qed.

(** The two ladders hold [sets] and have taken at most [k] handles. *)
Definition ladder_part (t : StateTree) (sets : OrderSide -> gset Z) (k : Z) : Prop :=
  exists f free, ladders sha256 book t f [] free /\ (forall side, keys_of (f side) = sets side) /\
    limit sha256 book t <= k.

Lemma add_level_spec t0 t1 B side p :
  represents t0 B -> same_ladders t0 t1 -> is_u64 p -> arena B + 2 <= u64_max ->
  wp (add_level sha256 m side p) t1 (fun t r => r = Ok tt /\ only_ladder sha256 book t1 t /\
    ladder_part t (fun side' => if decide (side' = side) then {[ p ]} ∪ dom (queues B side)
                                else dom (queues B side')) (arena B + 2)).
Proof.
  intros R Hs Hp Ha. destruct (rep_ladder t0 B R) as (f & free & L & Hk & Hl).
  apply (ladder_ext t0 t1 _ _ _ Hs) in L. rewrite <-(limit_ext t0 t1 Hs) in Hl.
  destruct (insert_ok sha256 book Hshape ladder_apart m eq_refl t1 f free side p L) as
    (t & o & free' & E & L' & Ho & Hg & _); [fold book; lia|done|].
  unfold wp, add_level, ladder. rewrite E. cbn [fst snd].
  split_and!; [done|exact (only_insert sha256 book m eq_refl t1 side p t E)|].
  exists (upd f side o), free'. split_and!; [exact L'| |fold book in Hg; lia].
  intros side'. unfold upd. destruct (decide (side' = side)) as [->|]; [|apply Hk].
  by rewrite Ho, Hk.
Qed.

Lemma remove_level_spec t0 t1 B side p :
  represents t0 B -> same_ladders t0 t1 ->
  wp (remove_level sha256 m side p) t1 (fun t r => r = Ok tt /\ only_ladder sha256 book t1 t /\
    ladder_part t (fun side' => if decide (side' = side) then dom (queues B side) ∖ {[ p ]}
                                else dom (queues B side')) (arena B)).
Proof.
  intros R Hs. destruct (rep_ladder t0 B R) as (f & free & L & Hk & Hl).
  apply (ladder_ext t0 t1 _ _ _ Hs) in L. rewrite <-(limit_ext t0 t1 Hs) in Hl.
  destruct (remove_ok sha256 book Hshape ladder_apart m eq_refl t1 f free side p L) as
    (t & o & free' & E & L' & Ho & El).
  unfold wp, remove_level, ladder. rewrite E. cbn [fst snd].
  split_and!; [done|exact (only_remove sha256 book m eq_refl t1 side p t E)|].
  exists (upd f side o), free'. split_and!; [exact L'| |fold book in El; lia].
  intros side'. unfold upd. destruct (decide (side' = side)) as [->|]; [|apply Hk].
  by rewrite Ho, Hk.
Qed.

Lemma only_val t t' s :
  only_ladder sha256 book t t' -> book_slot_ok users s -> (forall l, s <> SLadder l) ->
  val t' s = val t s.
Proof.
  intros H Hs Hl. apply H. intros _ l Hok E.
  exact (Hl l (eq_sym (bkey_inj (SLadder l) s Hok Hs E))).
Qed.

(** A change of the ladders after one of the links. *)
Lemma qview_only t0 t t' lv lk :
  qview t0 t lv lk -> only_ladder sha256 book t t' ->
  changes KQueue t0 t' /\
  (forall side p, is_u64 p -> read_pair t' book (level_slot sha256 m side p) = lv side p) /\
  (forall id, is_u64 id -> links t' id = lk id).
Proof.
  intros V H. split_and!.
  - apply (changes_trans _ t0 t _ (qv_changes _ _ _ _ V)). intros K Hne s Hs E.
    apply only_val; [done|done|]. intros l ->. by apply Hne.
  - intros side p Hp. rewrite <-(qv_level _ _ _ _ V side p Hp).
    exact (pair_ext t t' (SLevel side p) (only_val t t' (SLevel side p) H Hp ltac:(done))).
  - intros id Hid. rewrite <-(qv_link _ _ _ _ V id Hid).
    exact (pair_ext t t' (SQueue id) (only_val t t' (SQueue id) H Hid ltac:(done))).
Qed.

(** A changed queue, from what is read of it. *)
Lemma represents_queue t0 t B side p ids k lk :
  represents t0 B -> changes KQueue t0 t ->
  queues_ok (queues (set_queue B side p ids k)) ->
  (forall side' p', is_u64 p' -> read_pair t book (level_slot sha256 m side' p') =
     relevel (fun side p => ends (queue B side p)) side p (ends ids) side' p') ->
  (forall id, is_u64 id -> links t id = lk id) ->
  linked lk 0 ids 0 ->
  (forall side' p' id, ~ (side' = side /\ p' = p) -> id ∈ queue B side' p' -> lk id = links t0 id) ->
  ladder_part t (fun side' => dom (queues (set_queue B side p ids k) side')) (arena B + k) ->
  represents t (set_queue B side p ids k).
Proof.
  intros R Hc Q Hlv Hlk Hl Hother HL. pose proof (represents_kept _ _ _ _ R Hc) as K.
  split; try kept_rest K R; [| |exact Q|exact HL].
  - intros side' p' Hp'. rewrite Hlv by done. unfold relevel. destruct (decide _) as [[-> ->]|Hne].
    + by rewrite waiting_set_eq.
    + by rewrite waiting_set_ne.
  - intros side' p'. destruct (decide (side' = side /\ p' = p)) as [[-> ->]|Hne].
    + rewrite waiting_set_eq. apply (linked_ext lk); [|done]. intros id Hid. apply Hlk.
      apply (q_id _ Q side p). by rewrite waiting_set_eq.
    + rewrite waiting_set_ne by done. apply (linked_ext (links t0)); [|apply (rep_linked t0 B R)].
      intros id Hid. rewrite Hlk; [by apply (Hother side' p')|].
      by apply (q_id _ (rep_queues t0 B R) side' p').
Qed.

Lemma ladder_part_ext t sets sets' k :
  (forall side, sets' side = sets side) -> ladder_part t sets k -> ladder_part t sets' k.
Proof.
  intros E (f & free & L & Hk & Hl). exists f, free. split_and!; [done| |done]. intros side.
  by rewrite E, Hk.
Qed.

(** The ladders stay when a level that is there gets another queue. *)
Lemma ladder_part_keep t0 t B side p ids k :
  represents t0 B -> same_ladders t0 t -> 0 <= k -> ids <> [] -> queue B side p <> [] ->
  ladder_part t (fun side' => dom (queues (set_queue B side p ids k) side')) (arena B + k).
Proof.
  intros R Hs Hk Hids Hq. destruct (rep_ladder t0 B R) as (f & free & L & Hf & Hl).
  exists f, free. split_and!; [by apply (ladder_ext t0 t)| |rewrite (limit_ext t0 t Hs); lia].
  intros side'. rewrite dom_set_queue, Hf. destruct (decide (side' = side)) as [->|]; [|done].
  destruct ids; [done|]. assert (p ∈ dom (queues B side)); [|set_solver].
  apply elem_of_dom. unfold waiting in Hq. destruct (queues B side !! p); [done|]. by destruct Hq.
Qed.

Lemma relink_eq lk i x : relink lk i x i = x.
Proof. unfold relink. by rewrite decide_True. Qed.
Lemma relink_ne lk i x j : j <> i -> relink lk i x j = lk j.
Proof. intros H. unfold relink. by rewrite decide_False. Qed.

Lemma zero_u64 : is_u64 0.
Proof. unfold is_u64, u64_max. lia. Qed.

Lemma links_range t id : is_u64 (fst (links t id)) /\ is_u64 (snd (links t id)).
Proof. split; apply u64_at_range; lia. Qed.

(** The first and the last id of a queue, or zero. *)
Lemma head_or_zero (l : list Z) : default 0 (head l) = 0 \/ default 0 (head l) ∈ l.
Proof. destruct l; [by left|right; by left]. Qed.
Lemma last_or_zero (l : list Z) : default 0 (last l) = 0 \/ default 0 (last l) ∈ l.
Proof. destruct (last l) eqn:E; [right; by apply last_Some_elem_of|by left]. Qed.

Lemma ends_u64 B side p x :
  queues_ok (queues B) -> x = fst (ends (queue B side p)) \/ x = snd (ends (queue B side p)) -> is_u64 x.
Proof.
  intros Q H. assert (x = 0 \/ x ∈ queue B side p) as [->|Hx].
  - destruct H as [->| ->]; [apply head_or_zero|apply last_or_zero].
  - apply zero_u64.
  - by apply (q_id _ Q side p).
Qed.

Lemma snoc_queues B side p id :
  queues_ok (queues B) -> (forall side' p', id ∉ queue B side' p') -> is_u64 p -> is_u64 id -> id <> 0 ->
  queues_ok (queues (set_queue B side p (queue B side p ++ [id]) 2)).
Proof.
  intros Q Hfresh Hp Hid H0. apply queues_ok_set; [done|done| |].
  - apply NoDup_app. split_and!; [apply (q_nodup _ Q)| |apply NoDup_singleton].
    intros x Hx ->%list_elem_of_singleton. by apply (Hfresh side p).
  - intros x [Hx| ->%list_elem_of_singleton]%elem_of_app.
    + destruct (q_id _ Q side p x Hx). split_and!; [done..|]. intros side' p' Hx'.
      by apply (q_apart _ Q side p side' p' x).
    + split_and!; [done..|]. intros side' p' Hx. by destruct (Hfresh side' p').
Qed.

Section enqueue.
Context (t : StateTree) (B : Book) (side : OrderSide) (p : Z) (id : Z).
Hypothesis R : represents t B.
Hypothesis Hp : is_u64 p.
Hypothesis Hid : is_u64 id.
Hypothesis H0 : id <> 0.
Hypothesis Hfresh : forall side' p', id ∉ queue B side' p'.

Lemma enqueue_other side' p' x : x ∈ queue B side' p' -> x <> id.
Proof. intros Hx ->. by destruct (Hfresh side' p'). Qed.

(** The links after an order queued up behind [tail]. *)
Lemma enqueue_links l tail prev :
  queue B side p = l ++ [tail] -> prev = default 0 (last l) ->
  linked (relink (relink (links t) tail (prev, id)) id (tail, 0)) 0 ((l ++ [tail]) ++ [id]) 0.
Proof.
  intros Eq ->. pose proof (rep_linked t B R side p) as Hl. rewrite Eq in Hl.
  pose proof (q_nodup _ (rep_queues t B R) side p) as Hnd. rewrite Eq in Hnd.
  assert (forall x, x ∈ l ++ [tail] -> x <> id) as Hne
    by (intros x Hx; apply (enqueue_other side p); by rewrite Eq).
  apply linked_app in Hl as [Hl _]. apply linked_app. cbn. rewrite last_snoc. cbn.
  split; [|by rewrite relink_eq]. apply linked_app. cbn.
  rewrite relink_ne, relink_eq by (apply Hne, elem_of_app; right; by left). split; [|done].
  apply (linked_ext (links t)); [|done]. intros x Hx. rewrite !relink_ne; [done| |].
  - intros ->. apply NoDup_app in Hnd as (_ & Hnd & _). apply (Hnd tail Hx). by left.
  - apply Hne, elem_of_app. by left.
Qed.

Lemma enqueue_spec :
  arena B + 2 <= u64_max ->
  wp (enqueue_order sha256 m side p id) t (fun t' r => r = Ok tt /\
    represents t' (set_queue B side p (queue B side p ++ [id]) 2)).
Proof.
  intros Ha. pose proof (qview_start t B R) as V. pose proof zero_u64 as Hz.
  pose proof (rep_queues t B R) as Q. pose proof (snoc_queues B side p id Q Hfresh Hp Hid H0) as Q'.
  unfold enqueue_order, read_level. apply wp_bind, wp_gets. fold book. cbv beta iota.
  rewrite (rep_level t B R) by done. unfold ends.
  pose proof (ends_u64 B side p (default 0 (head (queue B side p))) Q (or_introl eq_refl)) as Hhd.
  destruct (queue B side p) as [|tail l _] eqn:Eq using rev_ind.
  - change (default 0 (last [])) with 0. rewrite Z.eqb_refl.
    apply wp_bind, wp_modify. apply wp_bind, wp_modify. cbv beta iota. fold book.
    pose proof (qview_level _ _ _ _ side p id id (qview_queue _ _ _ _ id 0 0 V Hid Hz Hz) Hp Hid Hid) as V2.
    refine (wp_mono _ _ _ _ _ (add_level_spec t _ B side p R (qv_ladders _ _ _ _ V2) Hp Ha)).
    intros t' r (-> & Ho & HL). split; [done|]. destruct (qview_only _ _ _ _ _ V2 Ho) as (Hc & Hlv & Hlk).
    apply (represents_queue t t' B side p [id] 2 (relink (links t) id (0, 0)) R Hc Q' Hlv Hlk).
    + cbn. by rewrite relink_eq.
    + intros side' p' x _ Hx. apply relink_ne. by apply (enqueue_other side' p').
    + apply (ladder_part_ext _ _ _ _ (dom_set_queue B side p [id] 2)), HL.
  - rewrite last_snoc. change (default 0 (Some tail)) with tail.
    assert (tail ∈ queue B side p) as Ht by (rewrite Eq; apply elem_of_app; right; by left).
    destruct (q_id _ Q side p tail Ht) as [Htu Ht0]. apply Z.eqb_neq in Ht0 as ->.
    pose proof (rep_linked t B R side p) as Hl. rewrite Eq in Hl.
    apply linked_app in Hl as [_ [Etail _]]. cbn in Etail.
    pose proof (links_range t tail) as [Hprev _]. rewrite Etail in Hprev. cbn [fst] in Hprev.
    unfold read_queue. apply wp_bind, wp_gets. cbv beta iota. fold book.
    change (read_pair t book (queue_slot sha256 tail)) with (links t tail). rewrite Etail.
    do 2 (apply wp_bind, wp_modify; cbv beta iota). apply wp_modify. fold book. split; [done|].
    pose proof (qview_level _ _ _ _ side p _ id
      (qview_queue _ _ _ _ id tail 0 (qview_queue _ _ _ _ tail _ id V Htu Hprev Hid) Hid Htu Hz)
      Hp Hhd Hid) as V3.
    eapply (represents_queue t _ B side p ((l ++ [tail]) ++ [id]) 2 _ R (qv_changes _ _ _ _ V3) Q').
    + intros side' p' Hp'. rewrite (qv_level _ _ _ _ V3) by done. unfold relevel, ends.
      destruct (decide _); [|done]. rewrite last_snoc. by destruct l.
    + apply (qv_link _ _ _ _ V3).
    + by apply enqueue_links.
    + intros side' p' x Hside Hx. rewrite !relink_ne; [done| |by apply (enqueue_other side' p')].
      intros ->. apply Hside. exact (q_apart _ Q side p side' p' tail Ht Hx).
    + apply (ladder_part_keep t); [done|apply (qv_ladders _ _ _ _ V3)|lia|by destruct l|].
      rewrite Eq. by destruct l.
Qed.
End enqueue.

(** ** Leaving a queue *)

(** Point an order to its new neighbour; zero is no order. *)
Definition link_next (lk : Z -> Z * Z) (i n : Z) : Z -> Z * Z :=
  if i =? 0 then lk else relink lk i (fst (lk i), n).
Definition link_prev (lk : Z -> Z * Z) (i n : Z) : Z -> Z * Z :=
  if i =? 0 then lk else relink lk i (n, snd (lk i)).
Definition unlink (lk : Z -> Z * Z) (prev next id : Z) : Z -> Z * Z :=
  relink (link_prev (link_next lk prev next) next prev) id (0, 0).

Lemma unlink_at lk prev next id j :
  j <> 0 -> j <> id ->
  unlink lk prev next id j =
    (if decide (j = next) then prev else fst (lk j), if decide (j = prev) then next else snd (lk j)).
Proof.
  intros H0 Hid. unfold unlink, link_prev, link_next. rewrite relink_ne by done.
  destruct (Z.eqb_spec next 0) as [->|Hn], (Z.eqb_spec prev 0) as [->|Hp]; unfold relink;
    repeat case_decide; subst; try done; by destruct (lk _).
Qed.

Lemma unlink_left lk prev next id l :
  linked lk 0 l id -> prev = default 0 (last l) -> (forall j, j ∈ l -> j <> 0 /\ j <> id /\ j <> next) ->
  NoDup l -> linked (unlink lk prev next id) 0 l next.
Proof.
  intros Hl -> Hj Hnd. destruct l as [|x l _] using rev_ind; [done|].
  apply linked_app in Hl as [Hl [Ex _]]. cbn in Hl, Ex. rewrite last_snoc.
  assert (x ∈ l ++ [x]) as Hx by (apply elem_of_app; right; by left).
  destruct (Hj x Hx) as (Hx0 & Hxi & Hxn). apply NoDup_app in Hnd as (_ & Hnd & _).
  apply linked_app. cbn. split_and!; [|rewrite unlink_at by done|done].
  - apply (linked_ext lk); [|done]. intros y Hy. destruct (Hj y) as (Hy0 & Hyi & Hyn).
    { apply elem_of_app. by left. }
    rewrite unlink_at by done. rewrite !decide_False; [by destruct (lk y)|cbn|done].
    intros ->. apply (Hnd x Hy). by left.
  - rewrite decide_False, decide_True by done. by rewrite Ex.
Qed.

Lemma unlink_right lk prev next id l :
  linked lk id l 0 -> next = default 0 (head l) -> (forall j, j ∈ l -> j <> 0 /\ j <> id /\ j <> prev) ->
  NoDup l -> linked (unlink lk prev next id) prev l 0.
Proof.
  intros Hl -> Hj Hnd. destruct l as [|x l]; [done|]. destruct Hl as [Ex Hl]. cbn [head].
  change (default 0 (Some x)) with x. apply NoDup_cons in Hnd as [Hx Hnd].
  destruct (Hj x) as (Hx0 & Hxi & Hxp); [by left|]. split.
  - rewrite unlink_at by done. rewrite decide_True, decide_False by done. by rewrite Ex.
  - apply (linked_ext lk); [|done]. intros y Hy. destruct (Hj y) as (Hy0 & Hyi & Hyp); [by right|].
    rewrite unlink_at by done. rewrite !decide_False; [by destruct (lk y)|done|]. by intros ->.
Qed.

Lemma link_next_spec t0 t lv lk i n :
  qview t0 t lv lk -> is_u64 i -> is_u64 n ->
  wp (if negb (i =? 0) then let! (pp, _) := read_queue sha256 m i in write_queue sha256 m i pp n
      else ret tt) t (fun t' r => r = Ok tt /\ qview t0 t' lv (link_next lk i n)).
Proof.
  intros V Hi Hn. unfold link_next. destruct (i =? 0); cbn [negb]; [by apply wp_ret|].
  unfold read_queue. apply wp_bind, wp_gets. fold book. cbv beta iota.
  change (read_pair t book (queue_slot sha256 i)) with (links t i).
  pose proof (links_range t i) as [Hf _]. rewrite (qv_link _ _ _ _ V) in * by done.
  destruct (lk i) as [a b]. apply wp_modify. split; [done|]. by apply qview_queue.
Qed.

Lemma link_prev_spec t0 t lv lk i n :
  qview t0 t lv lk -> is_u64 i -> is_u64 n ->
  wp (if negb (i =? 0) then let! (_, nn) := read_queue sha256 m i in write_queue sha256 m i n nn
      else ret tt) t (fun t' r => r = Ok tt /\ qview t0 t' lv (link_prev lk i n)).
Proof.
  intros V Hi Hn. unfold link_prev. destruct (i =? 0); cbn [negb]; [by apply wp_ret|].
  unfold read_queue. apply wp_bind, wp_gets. fold book. cbv beta iota.
  change (read_pair t book (queue_slot sha256 i)) with (links t i).
  pose proof (links_range t i) as [_ Hf]. rewrite (qv_link _ _ _ _ V) in * by done.
  destruct (lk i) as [a b]. apply wp_modify. split; [done|]. by apply qview_queue.
Qed.

(** The ends of a queue without one of its ids. *)
Lemma ends_without (l1 : list Z) (id : Z) (l2 : list Z) :
  NoDup (l1 ++ id :: l2) ->
  forall hd tl, ends (l1 ++ id :: l2) = (hd, tl) ->
  ends (l1 ++ l2) = (if hd =? id then default 0 (head l2) else hd,
                     if tl =? id then default 0 (last l1) else tl).
Proof.
  intros Hnd hd tl [= <- <-]. unfold ends. f_equal.
  - destruct l1 as [|x l1]; cbn; [by rewrite Z.eqb_refl|]. cbn in Hnd.
    apply NoDup_cons in Hnd as [Hx _]. destruct (Z.eqb_spec x id) as [->|]; [|done].
    destruct Hx. apply elem_of_app. right. by left.
  - destruct l2 as [|x l2 _] using rev_ind.
    + rewrite app_nil_r, last_snoc. cbn. by rewrite Z.eqb_refl.
    + rewrite app_comm_cons, !app_assoc, !last_snoc. cbn.
      destruct (Z.eqb_spec x id) as [->|]; [|done]. apply NoDup_app in Hnd as (_ & _ & Hnd).
      apply NoDup_cons in Hnd as [Hx _]. destruct Hx. apply elem_of_app. right. by left.
Qed.

Section dequeue.
Context (t : StateTree) (B : Book) (side : OrderSide) (p : Z) (id : Z) (l1 l2 : list Z).
Hypothesis R : represents t B.
Hypothesis Hp : is_u64 p.
Hypothesis Eq : queue B side p = l1 ++ id :: l2.

Lemma dequeue_in x : x ∈ l1 ++ l2 -> x ∈ queue B side p.
Proof. rewrite Eq, !elem_of_app, elem_of_cons. tauto. Qed.

Lemma dequeue_id : id ∈ queue B side p.
Proof. rewrite Eq. apply elem_of_app. right. by left. Qed.

Lemma dequeue_nodup :
  NoDup l1 /\ NoDup l2 /\ (forall j, j ∈ l1 -> j <> id /\ j ∉ l2) /\ (forall j, j ∈ l2 -> j <> id).
Proof.
  pose proof (q_nodup _ (rep_queues t B R) side p) as Hnd. rewrite Eq in Hnd.
  apply NoDup_app in Hnd as (H1 & H12 & H2). apply NoDup_cons in H2 as [Hi H2].
  split_and!; [done|done| |by intros j Hj ->].
  intros j Hj. specialize (H12 j Hj). rewrite not_elem_of_cons in H12. tauto.
Qed.

Lemma dequeue_queues : queues_ok (queues (set_queue B side p (l1 ++ l2) 0)).
Proof.
  pose proof (rep_queues t B R) as Q. destruct dequeue_nodup as (H1 & H2 & H12 & _).
  apply queues_ok_set; [done|done| |].
  - apply NoDup_app. split_and!; [done| |done]. intros j Hj. by apply H12.
  - intros x Hx%dequeue_in. destruct (q_id _ Q side p x Hx). split_and!; [done..|].
    intros side' p' Hx'. by apply (q_apart _ Q side p side' p' x).
Qed.

Lemma dequeue_links :
  linked (unlink (links t) (default 0 (last l1)) (default 0 (head l2)) id) 0 (l1 ++ l2) 0.
Proof.
  pose proof (rep_queues t B R) as Q. destruct dequeue_nodup as (H1 & H2 & H12 & H2i).
  pose proof (rep_linked t B R side p) as Hl. rewrite Eq in Hl.
  apply linked_app in Hl as [Hl1 [_ Hl2]]. apply linked_app.
  assert (forall j, j ∈ l1 ++ l2 -> j <> 0) as H0 by (intros j Hj%dequeue_in; by apply (q_id _ Q side p)).
  split; [apply unlink_left|apply unlink_right]; try done.
  - intros j Hj. assert (j <> 0) as Hj0 by (apply H0, elem_of_app; by left).
    destruct (H12 j Hj) as [Hi Hn]. split_and!; [done|done|].
    intros ->. by destruct (head_or_zero l2).
  - intros j Hj. assert (j <> 0) as Hj0 by (apply H0, elem_of_app; by right).
    split_and!; [done|by apply H2i|]. intros ->. destruct (last_or_zero l1) as [|Hn]; [done|].
    by destruct (H12 _ Hn).
Qed.

Lemma dequeue_other side' p' x :
  ~ (side' = side /\ p' = p) -> x ∈ queue B side' p' ->
  unlink (links t) (default 0 (last l1)) (default 0 (head l2)) id x = links t x.
Proof.
  intros Hne Hx. pose proof (rep_queues t B R) as Q. assert (x ∉ queue B side p) as Hn.
  { intros Hx'. apply Hne. by apply (q_apart _ Q side p side' p' x). }
  destruct (q_id _ Q side' p' x Hx) as [_ H0].
  rewrite unlink_at; [|done|intros ->; apply Hn, dequeue_id]. rewrite !decide_False.
  - by destruct (links t x).
  - intros ->. destruct (last_or_zero l1); [done|]. apply Hn, dequeue_in, elem_of_app. by left.
  - intros ->. destruct (head_or_zero l2); [done|]. apply Hn, dequeue_in, elem_of_app. by right.
Qed.

Lemma dequeue_spec :
  wp (remove_order_from_queue sha256 m side p id) t (fun t' r => r = Ok tt /\
    represents t' (set_queue B side p (l1 ++ l2) 0)).
Proof.
  pose proof (qview_start t B R) as V. pose proof zero_u64 as Hz. pose proof (rep_queues t B R) as Q.
  pose proof (q_nodup _ Q side p) as Hnd. pose proof dequeue_queues as Q'.
  pose proof (rep_linked t B R side p) as Hl. destruct (q_id _ Q side p id dequeue_id) as [Hid _].
  unfold remove_order_from_queue, read_level, read_queue at 1. apply wp_bind, wp_gets. fold book.
  cbv beta iota. rewrite (rep_level t B R) by done. rewrite Eq in *.
  apply linked_app in Hl as [_ [Eid _]]. pose proof (ends_without l1 id l2 Hnd) as He.
  destruct (ends (l1 ++ id :: l2)) as [hd tl]. specialize (He hd tl eq_refl). apply wp_bind, wp_gets. cbv beta iota.
  change (read_pair t book (queue_slot sha256 id)) with (links t id).
  pose proof (links_range t id) as [Hpu Hnu]. rewrite Eid in *. cbn [fst snd] in Hpu, Hnu.
  set (prev := default 0 (last l1)) in *. set (next := default 0 (head l2)) in *.
  apply wp_bind. refine (wp_mono _ _ _ _ _ (link_next_spec t t _ _ prev next V Hpu Hnu)).
  intros t1 r1 [-> V1]. cbv beta iota.
  apply wp_bind. refine (wp_mono _ _ _ _ _ (link_prev_spec t t1 _ _ next prev V1 Hnu Hpu)).
  intros t2 r2 [-> V2]. cbv beta iota zeta.
  apply wp_bind, wp_modify. fold book. cbv beta iota.
  pose proof (qview_queue _ _ _ _ id 0 0 V2 Hid Hz Hz) as V3.
  set (nh := if hd =? id then next else hd) in *. set (nt := if tl =? id then prev else tl) in *.
  destruct (l1 ++ l2) as [|x l] eqn:El.
  - assert (nh = 0) as Eh by exact (eq_sym (f_equal fst He)). rewrite Eh, Z.eqb_refl. apply wp_bind, wp_modify. fold book. cbv beta iota.
    pose proof (qview_level _ _ _ _ side p 0 0 V3 Hp Hz Hz) as V4.
    refine (wp_mono _ _ _ _ _ (remove_level_spec t _ B side p R (qv_ladders _ _ _ _ V4))).
    intros t' r (-> & Ho & HL). split; [done|]. destruct (qview_only _ _ _ _ _ V4 Ho) as (Hc & Hlv & Hlk).
    apply (represents_queue t t' B side p [] 0 _ R Hc Q' Hlv Hlk); [done|exact dequeue_other|].
    rewrite Z.add_0_r. apply (ladder_part_ext _ _ _ _ (dom_set_queue B side p [] 0)), HL.
  - assert (nh <> 0 /\ is_u64 nh /\ is_u64 nt) as (Hnh & Hhu & Htu).
    { pose proof (q_id _ Q' side p nh) as H. pose proof (ends_u64 _ side p nt Q') as Ht.
      rewrite waiting_set_eq in H, Ht. rewrite He in Ht. assert (nh = x) as Eh by exact (eq_sym (f_equal fst He)). rewrite Eh in *.
      destruct H as [Hu H0]; [by left|]. split_and!; [done|done|]. apply Ht. by right. }
    apply Z.eqb_neq in Hnh as ->. apply wp_modify. fold book. split; [done|].
    pose proof (qview_level _ _ _ _ side p nh nt V3 Hp Hhu Htu) as V4.
    eapply (represents_queue t _ B side p (x :: l) 0 _ R (qv_changes _ _ _ _ V4) Q').
    + rewrite He. apply (qv_level _ _ _ _ V4).
    + apply (qv_link _ _ _ _ V4).
    + rewrite <-El. apply dequeue_links.
    + exact dequeue_other.
    + apply (ladder_part_keep t); [done|apply (qv_ladders _ _ _ _ V4)|lia|done|].
      rewrite Eq. by destruct l1.
Qed.
End dequeue.

(** ** A new market *)

(** Nothing but balances has been written. *)
Definition unused (t : StateTree) : Prop :=
  forall s, book_slot_ok users s -> kind s <> KBalance -> val t s = 0.

(** The book of a new market. *)
Definition open_book (t : StateTree) (k : Market) : Book :=
  {| bal u a := free_balance sha256 t m u a; orders := ∅; queues _ := ∅; next_id := 1; next_seq := 1;
     arena := 1; market := k |}.

Lemma u64_unused t s : unused t -> book_slot_ok users s -> kind s <> KBalance -> slot_u64 t book (bkey s) = 0.
Proof. intros H Hs Hk. exact (f_equal (fun x => u64_at x 0) (H s Hs Hk)). Qed.

Lemma open_represents t t' k :
  unused t -> changes KMarket t t' ->
  get_record sha256 decode_market t' book MARKET_DOMAIN (be_bytes 32 m) = Ok (Some k) ->
  represents t' (open_book t k).
Proof.
  intros H Hc Hk.
  assert (forall s, book_slot_ok users s -> kind s <> KBalance -> kind s <> KMarket -> val t' s = 0) as H'.
  { intros s Hs Hb Hm. rewrite <-(H s Hs Hb). by apply (Hc (kind s)). }
  assert (forall s, book_slot_ok users s -> kind s <> KBalance -> kind s <> KMarket ->
    slot_u64 t' book (bkey s) = 0) as Hu
    by (intros s Hs Hb Hm; exact (f_equal (fun x => u64_at x 0) (H' s Hs Hb Hm))).
  split; try done.
  - intros u a Hu' Ha. apply balance_ext; [|done|done]. by apply Hc.
  - intros id Hid. unfold get_record, chunk_count. cbn.
    by rewrite (Hu (SOrderCount id) Hid ltac:(done) ltac:(done) : slot_u64 t' book
      (liquid_slot sha256 ORDER_DOMAIN 0 (le_bytes 8 id)) = 0).
  - intros side p Hp.
    exact (f_equal (fun x => (u64_at x 0, u64_at x 8)) (H' (SLevel side p) Hp ltac:(done) ltac:(done))).
  - apply queues_ok_empty.
  - destruct (fresh_ladders sha256 book t') as [L El].
    { intros s Hs. exact (H' (SLadder s) Hs ltac:(done) ltac:(done)). }
    exists (fun _ => None), []. split_and!; [done| |cbn; lia]. intros side. cbn. by rewrite dom_empty_L.
  - exact (f_equal (fun x => Z.max x 1) (Hu SNextId I ltac:(done) ltac:(done))).
  - exact (f_equal (fun x => Z.max x 1) (Hu SNextSeq I ltac:(done) ltac:(done))).
Qed.

Lemma create_market_spec t k :
  codec_ok C -> unused t -> market_fits k -> market_id k = m -> validate_market_config sha256 k = Ok tt ->
  wp (create_market sha256 k) t (fun t' r => r = Ok m /\ represents t' (open_book t k)).
Proof.
  intros Hcodec H Hfit Hm Hv. destruct (proj2 Hcodec k Hfit) as (bytes & He & Hd & Hb & Hlen).
  unfold create_market. rewrite Hv. apply wp_bind, wp_lift. apply wp_bind, wp_gets.
  unfold market_exists, chunk_count. rewrite Hm. fold book.
  rewrite (u64_unused t SMarketCount H I ltac:(done) : slot_u64 t book
    (liquid_slot sha256 MARKET_DOMAIN 0 (be_bytes 32 m)) = 0).
  apply wp_bind, wp_ret. apply wp_bind.
  assert (wp (ensure_account sha256 book) t (fun t1 r => r = Ok tt /\ forall s, val t1 s = val t s)) as Hacc.
  { unfold ensure_account. apply wp_bind, wp_gets. by case_bool_decide. }
  revert Hacc. apply wp_mono. intros t1 r [-> Hval]. cbv beta iota.
  destruct (record_spec decode_market AsMarket t1 bytes k I Hb Hlen Hd) as (t3 & E3 & Hch & Eget).
  cbn [rec_domain rec_key rec_kind] in E3, Eget, Hch.
  apply wp_bind. unfold put_market, put_record. rewrite He, Hm. fold book. apply wp_modify.
  rewrite E3. apply wp_ret. split; [done|].
  apply open_represents; [done| |done]. intros K HK s Hs Es. by rewrite (Hch K HK s Hs Es).
Qed.

Lemma ensure_account_confined id : confined (ensure_account sha256 id).
Proof.
  apply confined_bind; [by apply confined_pure|]. intros []; [by apply confined_pure|].
  by apply confined_modify.
Qed.

Lemma create_market_confined k : market_id k = m -> confined (create_market sha256 k).
Proof.
  intros Hm. unfold create_market. rewrite Hm. apply confined_bind; [by apply confined_pure|intros _].
  apply confined_bind; [by apply confined_pure|intros there].
  apply confined_bind; [by apply confined_pure; destruct there|intros _].
  apply confined_bind; [apply ensure_account_confined|intros _].
  apply confined_bind; [|intros _; by apply confined_pure]. unfold put_market, put_record. rewrite Hm.
  destruct (encode_market k); [|by apply confined_pure].
  apply confined_modify. intros t. eapply outside_trans; [apply outside_set|].
  eapply outside_trans; [apply outside_set|apply outside_chunks].
Qed.

(** A book is what the storage of its account says. *)
Lemma represents_storage t t' B :
  contract_storage t' !! book = contract_storage t !! book -> represents t B -> represents t' B.
Proof.
  intros E R. assert (forall K, changes K t t') as Hc
    by (intros K K' _ s _ _; unfold val, get_storage; by rewrite E).
  pose proof (represents_kept _ _ _ _ R (Hc KMarket)) as K. split; try kept_rest K R.
  exact (kept_market _ _ _ (represents_kept _ _ _ _ R (Hc KCounter)) ltac:(done)).
Qed.
End book.
