(* ===== verification/BookSpec.v ===== *)
(** What an order book does, over the abstract book of [Book]: matching against
    the best price and the oldest order there, resting and cancelling, with the
    same errors as the code.

    Proved here of these functions: they keep the book well formed and
    uncrossed, conserve both assets, serve orders by price and then by age, and
    finish.  [Matching] shows that the code computes them. *)

From S2P Require Import Prelude SigAlgo Account StateTree Slots StateM.
From S2P Require Import CritBit CritTree Ladder Liquid Clob Book.
Local Open Scope Z_scope.
Local Open Scope ace_scope.

(* ------------------------------------------------------------------ *)
(** * The operations *)

(** The highest bid or the lowest ask. *)
Definition better_price (side : OrderSide) (p q : Z) : Z :=
  match side with Buy => Z.max p q | Sell => Z.min p q end.
Definition best_price_of (side : OrderSide) (prices : list Z) : option Z :=
  foldr (fun p acc => Some (match acc with None => p | Some q => better_price side p q end)) None prices.
Definition best_level (B : Book) (side : OrderSide) : option Z :=
  best_price_of side (elements (dom (queues B side))).

(** An order leaves its queue, or queues up behind the others. *)
Definition leave (B : Book) (side : OrderSide) (p id : Z) : Book :=
  set_queue B side p (filter (fun i => i <> id) (queue B side p)) 0.
Definition join (B : Book) (side : OrderSide) (p id : Z) : Book :=
  set_queue B side p (queue B side p ++ [id]) 2.

Definition settle_book (B : Book) (taker maker : Order) (qty quote : Z) : result LiquidError Book :=
  match order_side taker with
  | Buy =>
      let? B := debit_book B (order_owner taker) ASSET_QUOTE quote in
      let? B := credit_book B (order_owner taker) ASSET_BASE qty in
      credit_book B (order_owner maker) ASSET_QUOTE quote
  | Sell =>
      let? B := debit_book B (order_owner taker) ASSET_BASE qty in
      let? B := credit_book B (order_owner taker) ASSET_QUOTE quote in
      credit_book B (order_owner maker) ASSET_BASE qty
  end.

(** What a fill of [qty] leaves of the maker's order. *)
Definition filled (maker : Order) (qty : Z) : Order :=
  let remaining := remaining_quantity maker - qty in
  set_fill maker remaining (if remaining =? 0 then Filled else PartiallyFilled).

Definition update_maker (B : Book) (side : OrderSide) (maker : Order) (qty : Z) : Book :=
  let B := if remaining_quantity maker - qty =? 0
           then leave B side (order_price maker) (order_id maker) else B in
  set_order B (order_id maker) (filled maker qty).

Definition fill_book (B : Book) (taker maker : Order) : result LiquidError (Book * (Order * Trade)) :=
  let qty := Z.min (remaining_quantity taker) (remaining_quantity maker) in
  let? quote := quote_of qty (order_price maker) in
  let? B := settle_book B taker maker qty quote in
  Ok (update_maker B (opposite_side (order_side taker)) maker qty,
      (set_fill taker (remaining_quantity taker - qty) (status taker), trade_of taker maker qty quote)).

(** The maker a taker meets next: the oldest order at the best price. *)
Definition next_maker (B : Book) (taker : Order) : option Z :=
  let side := opposite_side (order_side taker) in
  match best_level B side with
  | None => None
  | Some p =>
      if bool_decide (order_type taker = Limit) && negb (price_crosses taker p) then None
      else head (queue B side p)
  end.

Fixpoint match_book (fuel : nat) (B : Book) (taker : Order) (trades : list Trade)
    : result LiquidError (Book * (Order * list Trade * bool)) :=
  match fuel with
  | O => Err Stuck
  | S fuel =>
      if remaining_quantity taker =? 0 then Ok (B, (taker, trades, false))
      else
        match next_maker B taker with
        | None => Ok (B, (taker, trades, false))
        | Some id =>
            let? maker := ok_or (orders B !! id) (OrderNotFound id) in
            if order_owner maker =? order_owner taker then Ok (B, (taker, trades, true))
            else
              let? (B, (taker, trade)) := fill_book B taker maker in
              match_book fuel B taker (trades ++ [trade])
        end
  end.

Definition lock_book (B : Book) (order : Order) : result LiquidError Book :=
  match order_side order with
  | Buy =>
      let? lock := locked_quote order in
      debit_book B (order_owner order) ASSET_QUOTE lock
  | Sell => debit_book B (order_owner order) ASSET_BASE (remaining_quantity order)
  end.

Definition refund_book (B : Book) (order : Order) : result LiquidError Book :=
  match order_side order with
  | Buy =>
      let? refund := locked_quote order in
      credit_book B (order_owner order) ASSET_QUOTE refund
  | Sell => credit_book B (order_owner order) ASSET_BASE (remaining_quantity order)
  end.

(** Whether what is left of a taker waits in the book. *)
Definition rests (tif : TimeInForce) (taker : Order) (blocked : bool) : bool :=
  (0 <? remaining_quantity taker) && bool_decide (order_type taker = Limit) && negb blocked &&
  time_in_force_allows_resting tif.

Definition finish_book (B : Book) (tif : TimeInForce) (taker : Order) (trades : list Trade)
    (blocked : bool) : result LiquidError (Book * Order) :=
  let remaining := remaining_quantity taker in
  if rests tif taker blocked then
    let? B := lock_book B taker in
    Ok (join B (order_side taker) (order_price taker) (order_id taker),
        set_fill taker remaining (if remaining <? quantity taker then PartiallyFilled else Open))
  else if 0 <? remaining then
    if bool_decide (trades = []) then
      if bool_decide (order_type taker = MarketOrder) then Err NoLiquidity
      else Ok (B, set_fill taker 0 Cancelled)
    else Ok (B, set_fill taker 0 PartiallyFilled)
  else Ok (B, set_fill taker remaining Filled).

Definition place_book (m : MarketId) (B : Book) (request : PlaceOrder)
    : result LiquidError (Book * (Z * list Trade)) :=
  let? _ := ensure_market_active (market B) in
  let? _ := validate_order (market B) request in
  let id := next_id B in
  let taker := new_order m request id (next_seq B) in
  let B := set_next B (next_id B + 1) (next_seq B + 1) in
  let? (B, (taker, trades, blocked)) := match_book (S (Z.to_nat id)) B taker [] in
  if blocked && bool_decide (trades = []) then Err SelfTrade
  else
    let? (B, taker) := finish_book B (time_in_force request) taker trades blocked in
    Ok (set_order B id taker, (id, trades)).

Definition cancel_book (B : Book) (owner : AccountId) (id : Z)
    : result LiquidError (Book * Order) :=
  let? order := ok_or (orders B !! id) (OrderNotFound id) in
  if negb (order_owner order =? owner) then Err NotOrderOwner
  else if negb (is_open order) || (remaining_quantity order =? 0) then Err (OrderNotOpen id)
  else
    let? B := refund_book B order in
    let order' := set_fill order 0 Cancelled in
    Ok (set_order (leave B (order_side order) (order_price order) id) id order', order').

(* ------------------------------------------------------------------ *)
(** * The best price *)

(** [p] is at least as good as [q] for one who trades against [side]. *)
Definition as_good (side : OrderSide) (p q : Z) : Prop :=
  match side with Buy => q <= p | Sell => p <= q end.

Lemma best_of_iff side prices answer :
  best_of side prices answer <->
  match answer with
  | None => prices = ∅
  | Some p => p ∈ prices /\ forall q, q ∈ prices -> as_good side p q
  end.
Proof. destruct answer, side; done. Qed.

Lemma best_of_unique side prices a b : best_of side prices a -> best_of side prices b -> a = b.
Proof.
  rewrite !best_of_iff. destruct a as [p|], b as [q|]; [|set_solver..|done].
  intros [Hp Hbp] [Hq Hbq]. apply Hbp in Hq. apply Hbq in Hp. f_equal.
  destruct side; cbn in *; lia.
Qed.

Lemma best_price_of_best side l : best_of side (list_to_set l) (best_price_of side l).
Proof.
  induction l as [|p l IH]; [done|]. cbn [best_price_of foldr]. fold (best_price_of side l).
  rewrite best_of_iff in *. cbn [list_to_set]. destruct (best_price_of side l) as [q|].
  - destruct IH as [Hin Hb]. split.
    + destruct side; cbn [better_price]; [destruct (Z.max_spec p q) as [[_ ->]|[_ ->]]|
        destruct (Z.min_spec p q) as [[_ ->]|[_ ->]]]; set_solver.
    + intros x [->%elem_of_singleton|Hx%Hb]%elem_of_union; destruct side; cbn in *; lia.
  - rewrite IH. split; [set_solver|]. intros x Hx. assert (x = p) as -> by set_solver.
    destruct side; cbn; lia.
Qed.

Lemma best_level_best B side : best_of side (dom (queues B side)) (best_level B side).
Proof.
  rewrite <-(list_to_set_elements_L (dom (queues B side))) at 1. apply best_price_of_best.
Qed.

(** The next maker waits at the best price, and no one waits before them. *)
Lemma next_maker_some B taker id :
  queues_ok (queues B) -> next_maker B taker = Some id ->
  exists p l, queue B (opposite_side (order_side taker)) p = id :: l /\
    (order_type taker = Limit -> price_crosses taker p = true) /\
    (forall q x, x ∈ queue B (opposite_side (order_side taker)) q ->
       as_good (opposite_side (order_side taker)) p q).
Proof.
  intros Q. unfold next_maker. set (side := opposite_side (order_side taker)).
  pose proof (best_level_best B side) as Hb. rewrite best_of_iff in Hb.
  destruct (best_level B side) as [p|]; [|done]. destruct Hb as [_ Hb].
  destruct (bool_decide _ && _) eqn:Ec; [done|]. intros Hh.
  destruct (queue B side p) as [|x l] eqn:Eq; [done|]. injection Hh as ->. exists p, l.
  split_and!; [done| |].
  - intros Hl. rewrite bool_decide_true in Ec by done. cbn in Ec. by destruct (price_crosses taker p).
  - intros q x Hx. apply Hb. apply elem_of_dom. unfold waiting in Hx.
    destruct (queues B side !! q); [done|]. cbn in Hx. set_solver.
Qed.

(** No maker is left: nobody waits, or nobody at a price the taker accepts. *)
Lemma next_maker_none B taker p x :
  queues_ok (queues B) -> next_maker B taker = None ->
  x ∈ queue B (opposite_side (order_side taker)) p ->
  order_type taker = Limit /\ price_crosses taker p = false.
Proof.
  intros Q. unfold next_maker. set (side := opposite_side (order_side taker)). intros Hn Hx.
  pose proof (best_level_best B side) as Hb. rewrite best_of_iff in Hb.
  assert (p ∈ dom (queues B side)) as Hp.
  { apply elem_of_dom. unfold waiting in Hx. destruct (queues B side !! p); [done|].
    cbn in Hx. set_solver. }
  destruct (best_level B side) as [q|]; [|set_solver]. destruct Hb as [Hq Hb]. specialize (Hb p Hp).
  destruct (bool_decide (order_type taker = Limit)) eqn:El; cbn in Hn.
  - apply bool_decide_eq_true in El. split; [done|]. destruct (price_crosses taker q) eqn:Ec; cbn in Hn.
    + apply elem_of_dom in Hq as [ids Hids]. pose proof (q_level _ Q side q ids Hids) as [_ Hne].
      unfold waiting in Hn. rewrite Hids in Hn. by destruct ids.
    + unfold price_crosses in *. unfold side in Hb.
      destruct (order_side taker); cbn in *; rewrite Z.leb_gt in *; lia.
  - apply elem_of_dom in Hq as [ids Hids]. pose proof (q_level _ Q side q ids Hids) as [_ Hne].
    unfold waiting in Hn. rewrite Hids in Hn. by destruct ids.
Qed.

(* ------------------------------------------------------------------ *)
(** * Well-formed books *)

Section invariant.
Context (users : gset AccountId) (m : MarketId).

Definition fits (o : Order) : Prop :=
  order_market o = m /\ order_owner o ∈ users /\ order_fits o.

(** The queues hold exactly the orders that have something left, the oldest
    first, and no bid meets an ask. *)
Record book_ok (B : Book) : Prop := {
  ok_bal u a : u ∈ users -> is_asset a -> is_u64 (bal B u a);
  ok_order id o : orders B !! id = Some o -> order_id o = id /\ fits o /\ 1 <= id < next_id B;
  ok_queued side p id : id ∈ queue B side p ->
    exists o, orders B !! id = Some o /\ order_side o = side /\ order_price o = p /\
      0 < remaining_quantity o /\ is_open o = true;
  ok_resting id o : orders B !! id = Some o -> 0 < remaining_quantity o ->
    id ∈ queue B (order_side o) (order_price o);
  ok_sorted side p : StronglySorted Z.lt (queue B side p);
  ok_queues : queues_ok (queues B);
  ok_next : 1 <= next_id B;
  ok_seq : next_seq B = next_id B;
  ok_arena : arena B <= 2 * next_id B;
}.

Definition uncrossed (B : Book) : Prop :=
  forall bid ask x y, x ∈ queue B Buy bid -> y ∈ queue B Sell ask -> bid < ask.

Lemma ok_add_bal B u a d :
  book_ok B -> 0 <= bal B u a + d <= u64_max -> book_ok (add_bal B u a d).
Proof.
  intros H Hd. destruct H. split; try done. intros u' a' Hu' Ha'. cbn.
  destruct (decide _); [done|]. by auto.
Qed.

Lemma ok_credit B B' u a x :
  book_ok B -> u ∈ users -> is_asset a -> 0 <= x -> credit_book B u a x = Ok B' ->
  book_ok B' /\ B' = add_bal B u a x.
Proof.
  intros H Hu Ha Hx. unfold credit_book. destruct (Z.leb_spec (bal B u a + x) u64_max); [|done].
  intros [= <-]. split; [|done]. apply ok_add_bal; [done|].
  pose proof (ok_bal B H u a Hu Ha). unfold is_u64 in *. lia.
Qed.

Lemma ok_debit B B' u a x :
  book_ok B -> u ∈ users -> is_asset a -> 0 <= x -> debit_book B u a x = Ok B' ->
  book_ok B' /\ B' = add_bal B u a (- x).
Proof.
  intros H Hu Ha Hx. unfold debit_book. destruct (Z.ltb_spec (bal B u a) x); [done|].
  intros [= <-]. split; [|done]. apply ok_add_bal; [done|].
  pose proof (ok_bal B H u a Hu Ha). unfold is_u64 in *. lia.
Qed.

(** ** Queues *)

Lemma in_leave B side p id side' p' x :
  queues_ok (queues B) -> id ∈ queue B side p ->
  x ∈ queue (leave B side p id) side' p' <-> x ∈ queue B side' p' /\ x <> id.
Proof.
  intros Q Hid. unfold leave. destruct (decide (side' = side /\ p' = p)) as [[-> ->]|Hne].
  - rewrite waiting_set_eq, list_elem_of_filter. tauto.
  - rewrite waiting_set_ne by done. split; [|tauto]. intros Hx. split; [done|]. intros ->.
    apply Hne. by apply (q_apart _ Q side p side' p' id).
Qed.

Lemma in_join B side p id side' p' x :
  x ∈ queue (join B side p id) side' p' <->
  x ∈ queue B side' p' \/ (x = id /\ side' = side /\ p' = p).
Proof.
  unfold join. destruct (decide (side' = side /\ p' = p)) as [[-> ->]|Hne].
  - rewrite waiting_set_eq, elem_of_app, list_elem_of_singleton. tauto.
  - rewrite waiting_set_ne by done. tauto.
Qed.

Lemma sorted_filter (l : list Z) id :
  StronglySorted Z.lt l -> StronglySorted Z.lt (filter (fun i => i <> id) l).
Proof.
  induction 1 as [|y l Hs IH Hy]; [constructor|]. rewrite filter_cons. destruct (decide _); [|done].
  constructor; [done|]. rewrite Forall_forall in *. intros x [_ Hx]%list_elem_of_filter. by apply Hy.
Qed.

Lemma leave_sorted B side p id side' p' :
  StronglySorted Z.lt (queue B side p) -> StronglySorted Z.lt (queue B side' p') ->
  StronglySorted Z.lt (queue (leave B side p id) side' p').
Proof.
  intros H H'. unfold leave. destruct (decide (side' = side /\ p' = p)) as [[-> ->]|Hne].
  - rewrite waiting_set_eq. by apply sorted_filter.
  - by rewrite waiting_set_ne.
Qed.

Lemma sorted_snoc l id :
  StronglySorted Z.lt l -> (forall x, x ∈ l -> x < id) -> StronglySorted Z.lt (l ++ [id]).
Proof.
  intros Hs Hx. induction Hs as [|y l Hs IH Hy]; [by repeat constructor|]. cbn. constructor.
  - apply IH. intros x Hxl. apply Hx. by right.
  - apply Forall_app. split; [done|]. constructor; [|done]. apply Hx. by left.
Qed.

Lemma leave_queues B side p id :
  queues_ok (queues B) -> id ∈ queue B side p -> is_u64 p -> queues_ok (queues (leave B side p id)).
Proof.
  intros Q Hid Hp. apply queues_ok_set; [done|done| |].
  - apply NoDup_filter, (q_nodup _ Q).
  - intros x [_ Hx]%list_elem_of_filter. destruct (q_id _ Q side p x Hx). split_and!; [done..|].
    intros side' p' Hx'. by apply (q_apart _ Q side p side' p' x).
Qed.

(** ** Orders *)

Lemma fits_fill o r st : fits o -> 0 <= r <= remaining_quantity o -> fits (set_fill o r st).
Proof.
  intros (Hm & Hu & Hf) Hr. split_and!; [done|done|].
  destruct Hf as (? & ? & ? & ? & ? & ? & ?). unfold order_fits, is_u64 in *. cbn.
  split_and!; try done; lia.
Qed.

(** An order that is done leaves its queue. *)
Lemma ok_leave B side p id o st :
  book_ok B -> id ∈ queue B side p -> orders B !! id = Some o ->
  book_ok (set_order (leave B side p id) id (set_fill o 0 st)).
Proof.
  intros H Hid Ho. pose proof (ok_queues B H) as Q. destruct (ok_order B H id o Ho) as (Hi & Hf & Hr).
  destruct (ok_queued B H side p id Hid) as (o' & Ho' & <- & <- & Hrem & _).
  assert (o' = o) as -> by congruence. clear Ho'.
  assert (is_u64 (order_price o)) as Hp by apply Hf.
  split; cbn -[leave].
  - apply (ok_bal B H).
  - intros id' x [[<- <-]|[Hne Hx]]%lookup_insert_Some; [|by apply (ok_order B H)].
    split_and!; [done|apply fits_fill; [done|lia]|lia|cbn; lia].
  - intros side' p' x Hx. apply in_leave in Hx as [Hx Hne]; [|done..].
    rewrite lookup_insert_ne by done. by apply (ok_queued B H).
  - intros id' x [[<- <-]|[Hne Hx]]%lookup_insert_Some Hpos; [cbn in Hpos; lia|].
    apply in_leave; [done|done|]. split; [by apply (ok_resting B H)|done].
  - intros side' p'. apply leave_sorted; apply (ok_sorted B H).
  - by apply leave_queues.
  - apply (ok_next B H).
  - apply (ok_seq B H).
  - pose proof (ok_arena B H). cbn. lia.
Qed.

(** An order that is filled in part keeps its place. *)
Lemma ok_partial B side p id o r :
  book_ok B -> id ∈ queue B side p -> orders B !! id = Some o -> 0 < r <= remaining_quantity o ->
  book_ok (set_order B id (set_fill o r PartiallyFilled)).
Proof.
  intros H Hid Ho Hr. destruct (ok_order B H id o Ho) as (Hi & Hf & Hrange).
  destruct (ok_queued B H side p id Hid) as (o' & Ho' & Hs & Hp & _).
  assert (o' = o) as -> by congruence. clear Ho'. destruct H. split; try done; cbn.
  - intros id' x [[<- <-]|[Hne Hx]]%lookup_insert_Some; [|by auto].
    split_and!; [done|apply fits_fill; [done|lia]|lia..].
  - intros side' p' x Hx. destruct (decide (x = id)) as [->|Hne].
    + rewrite lookup_insert_eq. eexists. split; [done|]. cbn.
      destruct (q_apart _ ok_queues0 side p side' p' id Hid Hx) as [-> ->]. split_and!; [done..|lia|done].
    + rewrite lookup_insert_ne by done. by auto.
  - intros id' x [[<- <-]|[Hne Hx]]%lookup_insert_Some Hpos; [|by auto]. cbn. by subst.
Qed.

(** A new order that does not wait. *)
Lemma ok_new B id o :
  book_ok B -> (forall side p, id ∉ queue B side p) -> order_id o = id -> fits o ->
  remaining_quantity o = 0 -> 1 <= id < next_id B -> book_ok (set_order B id o).
Proof.
  intros H Hfresh Hi Hf Hr Hid. destruct H. split; try done; cbn.
  - intros id' x [[<- <-]|[Hne Hx]]%lookup_insert_Some; [done|by auto].
  - intros side p x Hx. rewrite lookup_insert_ne by (intros ->; by apply (Hfresh side p)). by auto.
  - intros id' x [[<- <-]|[Hne Hx]]%lookup_insert_Some Hpos; [lia|by auto].
Qed.

(** A new order that waits, behind all the older ones. *)
Lemma ok_join B id o :
  book_ok B -> orders B !! id = None -> (forall x y, orders B !! x = Some y -> x < id) ->
  order_id o = id -> fits o -> 0 < remaining_quantity o -> is_open o = true ->
  1 <= id < next_id B -> arena B + 2 <= 2 * next_id B ->
  book_ok (set_order (join B (order_side o) (order_price o) id) id o).
Proof.
  intros H Hnone Hlast Hi Hf Hr Hopen Hid Ha. pose proof (ok_queues B H) as Q.
  assert (forall side p, id ∉ queue B side p) as Hfresh.
  { intros side p Hx. apply (ok_queued B H) in Hx as (y & Hy & _). congruence. }
  assert (is_u64 id) as Hu by (rewrite <-Hi; apply Hf).
  split; cbn -[join].
  - apply (ok_bal B H).
  - intros id' x [[<- <-]|[Hne Hx]]%lookup_insert_Some; [done|by apply (ok_order B H)].
  - intros side p x [Hx|(-> & -> & ->)]%in_join.
    + rewrite lookup_insert_ne by (intros ->; by apply (Hfresh side p)). by apply (ok_queued B H).
    + rewrite lookup_insert_eq. by exists o.
  - intros id' x [[<- <-]|[Hne Hx]]%lookup_insert_Some Hpos; apply in_join; [by right|].
    left. by apply (ok_resting B H).
  - intros side p. unfold join. destruct (decide (side = order_side o /\ p = order_price o)) as [[-> ->]|Hne].
    + rewrite waiting_set_eq. apply sorted_snoc; [apply (ok_sorted B H)|]. intros x Hx.
      apply (ok_queued B H) in Hx as (y & Hy & _). by apply (Hlast x y).
    + rewrite waiting_set_ne by done. apply (ok_sorted B H).
  - apply snoc_queues; [done|done|apply Hf|done|lia].
  - apply (ok_next B H).
  - apply (ok_seq B H).
  - cbn. lia.
Qed.

(* ------------------------------------------------------------------ *)
(** * Conservation *)

(** Sums of both assets. *)
Ltac by_asset Ha :=
  destruct Ha as [->| ->]; unfold ASSET_BASE, ASSET_QUOTE; cbn; repeat case_decide; lia.

(** What an order has locked of an asset. *)
Definition locked (o : Order) (a : Z) : Z :=
  match order_side o with
  | Buy => if a =? ASSET_QUOTE then remaining_quantity o * order_price o else 0
  | Sell => if a =? ASSET_BASE then remaining_quantity o else 0
  end.

(** All of an asset: the free balances and what orders have locked. *)
Definition total (B : Book) (a : Z) : Z :=
  Zsum ((fun u => bal B u a) <$> elements users) +
  Zsum ((fun x => locked x.2 a) <$> map_to_list (orders B)).

Lemma total_add_bal B u a d a' :
  u ∈ users -> total (add_bal B u a d) a' = total B a' + (if decide (a' = a) then d else 0).
Proof.
  intros Hu. unfold total. cbn [orders add_bal set_bal]. destruct (decide (a' = a)) as [->|Hne].
  - rewrite (Zsum_change (fun u => bal B u a) _ _ u d); [lia|apply NoDup_elements|set_solver| |].
    + cbn. by rewrite decide_True.
    + intros x Hx. cbn. rewrite decide_False; [done|tauto].
  - rewrite Z.add_0_r. do 2 f_equal. apply list_fmap_ext. intros i x _. cbn.
    rewrite decide_False; [done|tauto].
Qed.

Lemma total_insert B id o a :
  orders B !! id = None -> total (set_order B id o) a = total B a + locked o a.
Proof.
  intros Hn. unfold total. cbn [bal orders set_order]. rewrite map_to_list_insert by done.
  rewrite fmap_cons, Zsum_cons. cbn. lia.
Qed.

Lemma total_replace B id o o' a :
  orders B !! id = Some o -> total (set_order B id o') a = total B a - locked o a + locked o' a.
Proof.
  intros Ho. unfold total. cbn [bal orders set_order].
  rewrite <-(insert_delete_id (orders B) id o) at 2 by done. rewrite <-insert_delete_eq.
  rewrite !map_to_list_insert by (apply lookup_delete_eq).
  rewrite !fmap_cons, !Zsum_cons. cbn. lia.
Qed.

Lemma total_parts B :
  book_ok B -> forall a, is_asset a ->
  (forall u, u ∈ users -> bal B u a <= total B a) /\
  (forall id o, orders B !! id = Some o -> forall u, u ∈ users -> bal B u a + locked o a <= total B a).
Proof.
  intros H a Ha.
  assert (Forall (fun x => 0 <= x) ((fun u => bal B u a) <$> elements users)) as Hb.
  { apply Forall_fmap, Forall_forall. intros u Hu%elem_of_elements. by apply (ok_bal B H). }
  assert (forall id o, orders B !! id = Some o -> 0 <= locked o a) as Hl.
  { intros id o Ho. apply (ok_order B H) in Ho as (_ & (_ & _ & Hf) & _).
    destruct Hf as (_ & _ & _ & Hp & _ & Hr & _). unfold locked, is_u64 in *.
    destruct (order_side o), (_ =? _); nia. }
  assert (Forall (fun x => 0 <= x) ((fun x => locked x.2 a) <$> map_to_list (orders B))) as Hs.
  { apply Forall_fmap, Forall_forall. intros [id o] Ho%elem_of_map_to_list. by apply (Hl id). }
  assert (forall u, u ∈ users -> bal B u a <= Zsum ((fun u => bal B u a) <$> elements users)) as Hu.
  { intros u Hu. apply elem_of_elements, list_elem_of_split in Hu as (l1 & l2 & E).
    rewrite E in *. rewrite fmap_app, fmap_cons in *. apply Forall_app in Hb as [H1 H2].
    apply Forall_cons in H2 as [_ H2]. apply Zsum_nonneg in H1, H2. rewrite Zsum_app, Zsum_cons. lia. }
  pose proof (Zsum_nonneg _ Hs). unfold total. split.
  - intros u Hu'. specialize (Hu u Hu'). lia.
  - intros id o Ho u Hu'. specialize (Hu u Hu').
    assert (locked o a <= Zsum ((fun x => locked x.2 a) <$> map_to_list (orders B))); [|lia].
    apply elem_of_map_to_list, list_elem_of_split in Ho as (l1 & l2 & E). rewrite E in *.
    rewrite fmap_app, fmap_cons in *. apply Forall_app in Hs as [H1 H2].
    apply Forall_cons in H2 as [_ H2]. apply Zsum_nonneg in H1, H2. rewrite Zsum_app, Zsum_cons. cbn in *. lia.
Qed.

(** ** Frames *)

(** The counters and the market stay, orders are not added, queues shrink and no
    asset is created or lost. *)
Record shrinks (B B' : Book) : Prop := {
  sh_next : next_id B' = next_id B;
  sh_arena : arena B' = arena B;
  sh_market : market B' = market B;
  sh_dom : dom (orders B') = dom (orders B);
  sh_queue side p x : x ∈ queue B' side p -> x ∈ queue B side p;
  sh_total a : is_asset a -> total B' a = total B a;
}.

#[local] Instance shrinks_preorder : PreOrder shrinks.
Proof.
  split; [done|]. intros B1 B2 B3 [] []. split; try congruence.
  - intros side p x Hx. by auto.
  - intros a Ha. rewrite sh_total1 by done. by auto.
Qed.

(** Only balances changed. *)
Record moved (B B' : Book) : Prop := {
  mv_orders : orders B' = orders B;
  mv_queues : queues B' = queues B;
  mv_next : next_id B' = next_id B;
  mv_arena : arena B' = arena B;
  mv_market : market B' = market B;
}.

(** The balances after a fill: what the taker gets comes from the maker's lock. *)
Lemma settle_ok B B' taker maker qty quote :
  book_ok B -> order_owner taker ∈ users -> order_owner maker ∈ users -> 0 <= qty -> 0 <= quote ->
  settle_book B taker maker qty quote = Ok B' ->
  book_ok B' /\ moved B B' /\ forall a, is_asset a -> total B' a = total B a +
    match order_side taker with
    | Buy => if a =? ASSET_BASE then qty else 0
    | Sell => if a =? ASSET_QUOTE then quote else 0
    end.
Proof.
  intros H Ht Hm Hq Hquote. unfold settle_book.
  assert (is_asset ASSET_BASE /\ is_asset ASSET_QUOTE) as [Hb Hqa] by (split; [by left|by right]).
  destruct (order_side taker).
  - intros (B1 & E1 & (B2 & E2 & E3)%rbind_ok)%rbind_ok.
    apply ok_debit in E1 as [H1 ->]; [|done..]. apply ok_credit in E2 as [H2 ->]; [|done..].
    apply ok_credit in E3 as [H3 ->]; [|done..]. split_and!; [done|done|].
    intros a Ha. rewrite !total_add_bal by done. by_asset Ha.
  - intros (B1 & E1 & (B2 & E2 & E3)%rbind_ok)%rbind_ok.
    apply ok_debit in E1 as [H1 ->]; [|done..]. apply ok_credit in E2 as [H2 ->]; [|done..].
    apply ok_credit in E3 as [H3 ->]; [|done..]. split_and!; [done|done|].
    intros a Ha. rewrite !total_add_bal by done. by_asset Ha.
Qed.

(* ------------------------------------------------------------------ *)
(** * Matching *)

Lemma update_maker_ok B side p maker qty :
  let id := order_id maker in
  let B' := update_maker B side maker qty in
  book_ok B -> id ∈ queue B side p -> orders B !! id = Some maker ->
  0 < qty <= remaining_quantity maker ->
  book_ok B' /\
  (forall side' p' x, x ∈ queue B' side' p' <->
     x ∈ queue B side' p' /\ (x = id -> qty < remaining_quantity maker)) /\
  (forall a, total B' a = total B a - locked maker a + locked (filled maker qty) a).
Proof.
  intros id B' H Hid Ho Hq. pose proof (ok_queues B H) as Q.
  destruct (ok_queued B H side p id Hid) as (o & Ho' & _ & Ep & _).
  pose proof (eq_trans (eq_sym Ho) Ho') as [= <-]. clear Ho'.
  unfold B', update_maker, filled. rewrite Ep. fold id.
  destruct (Z.eqb_spec (remaining_quantity maker - qty) 0) as [E|E].
  - rewrite E. split_and!; [by apply (ok_leave B side p)| |].
    + intros side' p' x. cbn [queues set_order]. rewrite in_leave by done.
      split; [intros [Hx Hne]; split; [done|]; by intros ->|]. intros [Hx Hne]. split; [done|].
      intros ->. specialize (Hne eq_refl). lia.
    + intros a. by rewrite (total_replace (leave B side p id) id maker).
  - split_and!.
    + apply (ok_partial B side p); [done..|lia].
    + intros side' p' x. cbn [queues set_order]. split; [intros Hx; split; [done|lia]|tauto].
    + intros a. by rewrite (total_replace B id maker).
Qed.

Lemma quote_of_ok qty p quote : quote_of qty p = Ok quote -> quote = qty * p /\ qty * p <= u64_max.
Proof.
  unfold quote_of. destruct (_ <=? u128_max); [|done].
  destruct (Z.leb_spec (qty * p) u64_max); [|done]. by intros [= <-].
Qed.

(** One trade: the fill is exact, the maker is the only order that may leave. *)
Lemma fill_ok B taker maker p B' taker' trade :
  let side := opposite_side (order_side taker) in
  let qty := Z.min (remaining_quantity taker) (remaining_quantity maker) in
  book_ok B -> order_owner taker ∈ users -> 0 < remaining_quantity taker ->
  order_id maker ∈ queue B side p -> orders B !! order_id maker = Some maker ->
  fill_book B taker maker = Ok (B', (taker', trade)) ->
  book_ok B' /\ shrinks B B' /\
  taker' = set_fill taker (remaining_quantity taker - qty) (status taker) /\
  trade = trade_of taker maker qty (qty * p) /\ order_price maker = p /\
  (forall side' p' x, x ∈ queue B' side' p' <->
     x ∈ queue B side' p' /\ (x = order_id maker -> qty < remaining_quantity maker)).
Proof.
  intros side qty H Ht Hpos Hid Ho. unfold fill_book. fold qty side.
  intros (quote & (-> & _)%quote_of_ok & (B1 & E1 & E2)%rbind_ok)%rbind_ok.
  destruct (ok_queued B H side p _ Hid) as (o & Ho' & Eside & Ep & Hrem & _).
  pose proof (eq_trans (eq_sym Ho) Ho') as [= <-]. clear Ho'.
  destruct (ok_order B H _ _ Ho) as (_ & (_ & Hm & Hf) & _).
  assert (0 < qty <= remaining_quantity maker) as Hq by (unfold qty; lia).
  assert (0 <= order_price maker) by apply Hf.
  apply settle_ok in E1 as (H1 & [Eo Eq En Ea Em] & Htot); [|done|done|done|lia|nia].
  destruct (update_maker_ok B1 side p maker qty) as (H2 & Hin & Htot2);
    [done|by rewrite Eq|by rewrite Eo|done|].
  injection E2 as <- <- <-. rewrite Ep. rewrite Eq in Hin. split_and!; try done. split.
  - unfold update_maker. destruct (_ =? 0); cbn; by rewrite En.
  - unfold update_maker. destruct (_ =? 0); cbn; rewrite Ea; lia.
  - unfold update_maker. destruct (_ =? 0); cbn; by rewrite Em.
  - unfold update_maker. destruct (_ =? 0); cbn; rewrite dom_insert_L, Eo;
      apply elem_of_dom_2 in Ho; set_solver.
  - intros side' p' x Hx. by apply Hin in Hx as [Hx _].
  - intros a Ha. rewrite Htot2, Htot by done. unfold locked, filled, set_fill, side in *.
    cbn [order_side remaining_quantity order_price]. rewrite Eside, Ep.
    destruct Ha as [->| ->], (order_side taker); unfold ASSET_BASE, ASSET_QUOTE; cbn; lia.
Qed.

(** [x] at [p] is served before [y] at [q]. *)
Definition before (side : OrderSide) (p x q y : Z) : Prop :=
  match side with Buy => q < p | Sell => p < q end \/ (p = q /\ x < y).

(** The trades of a taker against the book [B], which leave the book [B']: every
    maker waited at the price of the trade, and the makers are served in order,
    one only when those before are filled. *)
Record in_priority (side : OrderSide) (B B' : Book) (trades : list Trade) : Prop := {
  pr_waited tr : tr ∈ trades -> maker_order_id tr ∈ queue B side (trade_price tr);
  pr_sorted : StronglySorted (fun a b =>
    before side (trade_price a) (maker_order_id a) (trade_price b) (maker_order_id b)) trades;
  pr_first tr p x : tr ∈ trades -> x ∈ queue B side p ->
    before side p x (trade_price tr) (maker_order_id tr) -> x ∉ queue B' side p;
}.

(** The first of a queue at the best price has everyone else behind. *)
Lemma front_first B side p id l q x :
  book_ok B -> queue B side p = id :: l ->
  (forall q x, x ∈ queue B side q -> as_good side p q) ->
  x ∈ queue B side q -> x <> id -> before side p id q x.
Proof.
  intros H Eq Hbest Hx Hne. specialize (Hbest q x Hx). unfold before.
  destruct (decide (q = p)) as [->|Hqp].
  - right. split; [done|]. rewrite Eq in Hx. apply elem_of_cons in Hx as [->|Hx]; [done|].
    pose proof (ok_sorted B H side p) as Hs. rewrite Eq in Hs.
    apply StronglySorted_inv in Hs as [_ Hs]. rewrite Forall_forall in Hs. by apply Hs.
  - left. destruct side; cbn in *; lia.
Qed.

Lemma before_irrefl side p x : ~ before side p x p x.
Proof. unfold before. destruct side; lia. Qed.
Lemma before_asym side p x q y : before side p x q y -> ~ before side q y p x.
Proof. unfold before. destruct side; lia. Qed.

Lemma in_priority_cons side B B1 B' tr trades p id l :
  book_ok B -> queue B side p = id :: l ->
  (forall q x, x ∈ queue B side q -> as_good side p q) ->
  trade_price tr = p -> maker_order_id tr = id ->
  (forall q x, x ∈ queue B1 side q -> x ∈ queue B side q) ->
  (forall q x, x ∈ queue B' side q -> x ∈ queue B1 side q) ->
  (forall q x, x ∈ queue B side q -> x <> id -> x ∈ queue B1 side q) ->
  (trades = [] \/ forall q, id ∉ queue B1 side q) ->
  in_priority side B1 B' trades -> in_priority side B B' (tr :: trades).
Proof.
  intros H Eq Hbest Ep Eid H1 H2 Hkeep Hgone [Hw Hs Hf].
  assert (id ∈ queue B side p) as Hid by (rewrite Eq; by left).
  assert (forall t, t ∈ trades -> forall q, id ∉ queue B1 side q) as Hgone'.
  { intros t Ht. destruct Hgone as [->|]; [|done]. set_solver. }
  split.
  - intros t [->|Ht]%elem_of_cons; [by rewrite Eid, Ep|]. apply H1. by apply Hw.
  - constructor; [done|]. apply Forall_forall. intros t Ht. rewrite Ep, Eid.
    apply (front_first B side p id l); [done..|apply H1; by apply Hw|].
    intros E. apply (Hgone' t Ht (trade_price t)). rewrite <-E. by apply Hw.
  - intros t q x [->|Ht]%elem_of_cons Hx Hb.
    + rewrite Ep, Eid in Hb. destruct (decide (x = id)) as [->|Hne].
      * destruct (q_apart _ (ok_queues B H) side p side q id Hid Hx) as [_ ->].
        by apply before_irrefl in Hb.
      * apply (before_asym side p id q x) in Hb; [done|]. by apply (front_first B side p id l).
    + destruct (decide (x = id)) as [->|Hne].
      * intros Hx'. apply (Hgone' t Ht q). by apply H2.
      * apply (Hf t q x Ht); [|done]. by apply Hkeep.
Qed.

(** What a taker has got: some of its quantity, nothing else changed. *)
Definition served (taker taker' : Order) : Prop :=
  exists r, 0 <= r <= remaining_quantity taker /\ taker' = set_fill taker r (status taker).

Record matched (B : Book) (taker : Order) (B' : Book) (taker' : Order) (trades : list Trade)
    (blocked : bool) : Prop := {
  ma_ok : book_ok B';
  ma_shrinks : shrinks B B';
  ma_served : served taker taker';
  ma_priority : in_priority (opposite_side (order_side taker)) B B' trades;
  ma_crosses tr : tr ∈ trades -> order_type taker = Limit -> price_crosses taker (trade_price tr) = true;
  ma_positive tr : tr ∈ trades -> 0 < trade_quantity tr;
  ma_quantity : Zsum (trade_quantity <$> trades) = remaining_quantity taker - remaining_quantity taker';
  ma_stop : blocked = false -> 0 < remaining_quantity taker' -> next_maker B' taker = None;
}.

Lemma matched_nothing B taker blocked :
  book_ok B -> 0 <= remaining_quantity taker ->
  (blocked = false -> 0 < remaining_quantity taker -> next_maker B taker = None) ->
  matched B taker B taker [] blocked.
Proof.
  intros H Hr Hstop. split; try done.
  - exists (remaining_quantity taker). split; [lia|]. by destruct taker.
  - split; [set_solver|constructor|set_solver].
  - set_solver.
  - set_solver.
  - cbn. rewrite Zsum_nil. lia.
Qed.

(** A fill against the next maker. *)
Record next_fill (B : Book) (taker : Order) (id p : Z) (maker : Order) (B1 : Book) (taker1 : Order)
    (trade : Trade) : Prop := {
  nf_id : order_id maker = id;
  nf_ok : book_ok B1;
  nf_fits : fits taker1;
  nf_shrinks : shrinks B B1;
  nf_positive : 0 < Z.min (remaining_quantity taker) (remaining_quantity maker);
  nf_taker : taker1 = set_fill taker
    (remaining_quantity taker - Z.min (remaining_quantity taker) (remaining_quantity maker)) (status taker);
  nf_trade : trade = trade_of taker maker
    (Z.min (remaining_quantity taker) (remaining_quantity maker))
    (Z.min (remaining_quantity taker) (remaining_quantity maker) * p);
  nf_price : order_price maker = p;
  nf_front : exists l, queue B (opposite_side (order_side taker)) p = id :: l;
  nf_cross : order_type taker = Limit -> price_crosses taker p = true;
  nf_best q x : x ∈ queue B (opposite_side (order_side taker)) q ->
    as_good (opposite_side (order_side taker)) p q;
  nf_queue side q x : x ∈ queue B1 side q <->
    x ∈ queue B side q /\ (x = id -> remaining_quantity taker < remaining_quantity maker);
}.

Lemma fill_next B taker id maker B1 taker1 trade :
  book_ok B -> fits taker -> 0 < remaining_quantity taker ->
  next_maker B taker = Some id -> orders B !! id = Some maker ->
  fill_book B taker maker = Ok (B1, (taker1, trade)) ->
  exists p, next_fill B taker id p maker B1 taker1 trade.
Proof.
  intros H Hf Hpos En Ho Efill. set (side := opposite_side (order_side taker)) in *.
  destruct (next_maker_some B taker id (ok_queues B H) En) as (p & l & Eq & Hcross & Hbest).
  fold side in Eq, Hbest. assert (id ∈ queue B side p) as Hid by (rewrite Eq; by left).
  destruct (ok_order B H id maker Ho) as (Ei & _).
  destruct (ok_queued B H side p id Hid) as (o & Ho' & _ & _ & Hrem & _).
  pose proof (eq_trans (eq_sym Ho) Ho') as [= <-]. clear Ho'. rewrite <-Ei in Ho, Hid.
  destruct (fill_ok B taker maker p B1 taker1 trade) as (H1 & S1 & Et & Etr & Ep & Hin); try done;
    [apply Hf|].
  exists p. split; try done; [|lia|by exists l|].
  - rewrite Et. apply fits_fill; [done|lia].
  - intros side' q x. rewrite Hin, Ei. split; intros [Hx Hlt]; (split; [done|]); intros Hxi;
      specialize (Hlt Hxi); lia.
Qed.

(** A fill and what follows it. *)
Lemma matched_step B taker id p maker B1 taker1 trade B' taker' new blocked :
  book_ok B -> next_fill B taker id p maker B1 taker1 trade ->
  matched B1 taker1 B' taker' new blocked ->
  (remaining_quantity taker1 = 0 -> new = []) ->
  matched B taker B' taker' (trade :: new) blocked.
Proof.
  intros H [Ei H1 Hf1 S1 Hq Et Etr Ep [l Eq] Hcross Hbest Hin] [H2 S2 Hs2 P2 C2 O2 Q2 St2] Hzero.
  set (side := opposite_side (order_side taker)) in *.
  set (qty := Z.min (remaining_quantity taker) (remaining_quantity maker)) in *.
  assert (price_crosses taker1 = price_crosses taker) as Ec by (by rewrite Et).
  split; [done|by transitivity B1|..].
  - destruct Hs2 as (r & Hr2 & ->). exists r. rewrite Et in *. cbn in Hr2. split; [unfold qty in *; lia|done].
  - rewrite Et in P2. change (opposite_side (order_side (set_fill taker _ _))) with side in P2.
    apply (in_priority_cons side B B1 B' trade new p id l); try done.
    + by rewrite Etr.
    + by rewrite Etr.
    + intros q x Hx. by apply Hin in Hx as [Hx _].
    + apply (sh_queue _ _ S2).
    + intros q x Hx Hxi. apply Hin. by split.
    + destruct (decide (remaining_quantity taker < remaining_quantity maker)) as [Hlt|Hge].
      * left. apply Hzero. rewrite Et. cbn. unfold qty in *. lia.
      * right. intros q Hx. apply Hin in Hx as [_ Hx]. specialize (Hx eq_refl). lia.
  - intros tr [->|Htr]%elem_of_cons Hl.
    + rewrite Etr. cbn. rewrite Ep. by apply Hcross.
    + rewrite <-Ec. apply C2; [done|]. by rewrite Et.
  - intros tr [->|Htr]%elem_of_cons; [rewrite Etr; cbn; unfold qty; lia|by apply O2].
  - rewrite fmap_cons, Zsum_cons, Q2, Etr, Et. cbn. lia.
  - intros Hb Hp. specialize (St2 Hb Hp). by rewrite Et in St2.
Qed.

Lemma match_ok fuel B taker trades B' taker' trades' blocked :
  book_ok B -> fits taker ->
  match_book fuel B taker trades = Ok (B', (taker', trades', blocked)) ->
  exists new, trades' = trades ++ new /\ matched B taker B' taker' new blocked.
Proof.
  revert B taker trades. induction fuel as [|fuel IH]; intros B taker trades H Hf; [done|].
  cbn [match_book]. assert (0 <= remaining_quantity taker) as Hr by apply Hf.
  assert (forall B' taker' trades' b, (B', (taker', trades', b)) = (B, (taker, trades, b)) ->
    (b = false -> 0 < remaining_quantity taker -> next_maker B taker = None) ->
    exists new, trades' = trades ++ new /\ matched B taker B' taker' new b) as Hend.
  { intros ? ? ? b [= -> -> ->] Hb. exists []. rewrite app_nil_r. split; [done|]. by apply matched_nothing. }
  destruct (Z.eqb_spec (remaining_quantity taker) 0) as [E0|Hne].
  { intros [= <- <- <- <-]. apply Hend; [done|lia]. }
  destruct (next_maker B taker) as [id|] eqn:En; [|intros [= <- <- <- <-]; by apply Hend].
  intros (maker & Ho & Hgo)%rbind_ok. destruct (orders B !! id) as [o|] eqn:Eo; [|done].
  injection Ho as ->. revert Hgo.
  destruct (order_owner maker =? order_owner taker); [intros [= <- <- <- <-]; by apply Hend|].
  intros ([B1 [taker1 trade]] & Efill & Hmatch)%rbind_ok.
  assert (forall new, trades' = (trades ++ [trade]) ++ new -> remaining_quantity taker1 = 0 -> new = []) as Hz.
  { intros new Enew Ez. destruct fuel; [done|]. cbn [match_book] in Hmatch. rewrite Ez in Hmatch.
    injection Hmatch as _ _ <- _. rewrite <-(app_nil_r (trades ++ [trade])) in Enew at 1.
    by apply app_inv_head in Enew. }
  destruct (fill_next B taker id maker B1 taker1 trade) as [p F]; try done; [lia|].
  destruct (IH B1 taker1 (trades ++ [trade]) (nf_ok _ _ _ _ _ _ _ _ F) (nf_fits _ _ _ _ _ _ _ _ F) Hmatch)
    as (new & Enew & Hnew).
  exists (trade :: new). rewrite Enew, <-app_assoc. split; [done|].
  apply (matched_step B taker id p maker B1 taker1); try done. by apply Hz.
Qed.

(** ** The matching ends *)

(** An error that the balances and amounts of the users cause. *)
Definition balance_error (e : LiquidError) : Prop :=
  match e with ArithmeticOverflow | InsufficientBalance _ _ => True | _ => False end.

Lemma credit_error B u a x e : credit_book B u a x = Err e -> balance_error e.
Proof. unfold credit_book. destruct (_ <=? _); [done|]. by intros [= <-]. Qed.
Lemma debit_error B u a x e : debit_book B u a x = Err e -> balance_error e.
Proof. unfold debit_book. destruct (_ <? _); [|done]. by intros [= <-]. Qed.
Lemma quote_error qty p e : quote_of qty p = Err e -> balance_error e.
Proof. unfold quote_of. do 2 (destruct (_ <=? _); [|by intros [= <-]]). done. Qed.

Lemma rbind_err {E A A'} (r : result E A) (k : A -> result E A') e :
  rbind r k = Err e -> r = Err e \/ exists a, r = Ok a /\ k a = Err e.
Proof. destruct r as [a|]; cbn; intros H; [right; by exists a|left; congruence]. Qed.

Lemma fill_error B taker maker e : fill_book B taker maker = Err e -> balance_error e.
Proof.
  unfold fill_book, settle_book. intros [Hq|(quote & _ & [Hs|(B1 & _ & Hs)]%rbind_err)]%rbind_err;
    [by eapply quote_error| |done].
  destruct (order_side taker);
    apply rbind_err in Hs as [Hs|(B1 & _ & [Hs|(B2 & _ & Hs)]%rbind_err)];
    first [by eapply debit_error|by eapply credit_error].
Qed.

(** Every turn but the last fills an order of the other side, so that a turn for
    each of them and one more are enough. *)
Lemma match_error fuel B taker trades (W : gset Z) e :
  book_ok B -> fits taker ->
  (forall p x, x ∈ queue B (opposite_side (order_side taker)) p -> x ∈ W) -> (size W < fuel)%nat ->
  match_book fuel B taker trades = Err e -> balance_error e.
Proof.
  revert B taker trades W. induction fuel as [|fuel IH]; intros B taker trades W H Hf HW Hfuel; [lia|].
  cbn [match_book]. assert (0 <= remaining_quantity taker) as Hr by apply Hf.
  destruct (Z.eqb_spec (remaining_quantity taker) 0) as [E0|Hne]; [done|].
  destruct (next_maker B taker) as [id|] eqn:En; [|done].
  set (side := opposite_side (order_side taker)) in *.
  destruct (next_maker_some B taker id (ok_queues B H) En) as (p & l & Eq & _).
  assert (id ∈ queue B side p) as Hid by (unfold side; rewrite Eq; by left).
  destruct (ok_queued B H side p id Hid) as (maker & Ho & _). rewrite Ho. cbn [ok_or rbind].
  destruct (_ =? _); [done|]. intros [Herr|([B1 [taker1 trade]] & Efill & Herr)]%rbind_err;
    [by apply fill_error in Herr|].
  destruct (fill_next B taker id maker B1 taker1 trade) as [q F]; try done; [lia|].
  assert (id ∈ W) as HidW by (by apply (HW p)).
  assert (size W <> 0%nat) by (intros HW0%size_empty_inv; set_solver).
  destruct (decide (remaining_quantity taker < remaining_quantity maker)) as [Hlt|Hge].
  - assert (remaining_quantity taker1 = 0) as Ez by (rewrite (nf_taker _ _ _ _ _ _ _ _ F); cbn; lia).
    destruct fuel; [|by cbn [match_book] in Herr; rewrite Ez in Herr].
    lia.
  - apply (IH B1 taker1 (trades ++ [trade]) (W ∖ {[ id ]})); [apply (nf_ok _ _ _ _ _ _ _ _ F)|
      apply (nf_fits _ _ _ _ _ _ _ _ F)| | |done].
    + intros q' x. rewrite (nf_taker _ _ _ _ _ _ _ _ F). cbn [order_side set_fill]. fold side.
      rewrite (nf_queue _ _ _ _ _ _ _ _ F). intros [Hx Hlt]. apply elem_of_difference.
      split; [by apply (HW q')|]. intros ->%elem_of_singleton. specialize (Hlt eq_refl). lia.
    + rewrite size_difference by set_solver. rewrite size_singleton. lia.
Qed.

(** ** Resting and refunding *)

Lemma lock_ok B B' o :
  book_ok B -> fits o -> lock_book B o = Ok B' ->
  book_ok B' /\ moved B B' /\ forall a, is_asset a -> total B' a = total B a - locked o a.
Proof.
  intros H (_ & Hu & Hf). destruct Hf as (_ & _ & _ & Hp & _ & Hr & _). unfold is_u64 in *.
  unfold lock_book, locked, locked_quote.
  destruct (order_side o); [intros (q & (-> & _)%quote_of_ok & E)%rbind_ok|intros E].
  - apply ok_debit in E as [H1 ->]; [|done|done|by right|nia]. split_and!; [done|done|].
    intros a Ha. rewrite total_add_bal by done. by_asset Ha.
  - apply ok_debit in E as [H1 ->]; [|done|done|by left|lia]. split_and!; [done|done|].
    intros a Ha. rewrite total_add_bal by done. by_asset Ha.
Qed.

Lemma refund_ok B B' o :
  book_ok B -> fits o -> refund_book B o = Ok B' ->
  book_ok B' /\ moved B B' /\ forall a, is_asset a -> total B' a = total B a + locked o a.
Proof.
  intros H (_ & Hu & Hf). destruct Hf as (_ & _ & _ & Hp & _ & Hr & _). unfold is_u64 in *.
  unfold refund_book, locked, locked_quote.
  destruct (order_side o); [intros (q & (-> & _)%quote_of_ok & E)%rbind_ok|intros E].
  - apply ok_credit in E as [H1 ->]; [|done|done|by right|nia]. split_and!; [done|done|].
    intros a Ha. rewrite total_add_bal by done. by_asset Ha.
  - apply ok_credit in E as [H1 ->]; [|done|done|by left|lia]. split_and!; [done|done|].
    intros a Ha. rewrite total_add_bal by done. by_asset Ha.
Qed.

Lemma lock_error B o e : lock_book B o = Err e -> balance_error e.
Proof.
  unfold lock_book, locked_quote. destruct (order_side o); [|apply debit_error].
  intros [Hq|(q & _ & Hq)]%rbind_err; [by eapply quote_error|by eapply debit_error].
Qed.

(** ** Placing an order *)

Lemma moved_queue B B' side p : moved B B' -> queue B' side p = queue B side p.
Proof. intros M. unfold waiting. by rewrite (mv_queues _ _ M). Qed.

Lemma in_set_order B id o side p x : x ∈ queue (set_order B id o) side p <-> x ∈ queue B side p.
Proof. done. Qed.

Section finish.
Context (B : Book) (taker : Order).
Hypothesis H : book_ok B.
Hypothesis Hun : uncrossed B.
Hypothesis Hf : fits taker.
Hypothesis Hnone : orders B !! order_id taker = None.
Hypothesis Hlast : forall x y, orders B !! x = Some y -> x < order_id taker.
Hypothesis Hid : 1 <= order_id taker < next_id B.
Hypothesis Harena : arena B + 2 <= 2 * next_id B.

(** What the book is with the new order [o] in it. *)
Record entered (B' : Book) : Prop := {
  en_ok : book_ok B';
  en_uncrossed : uncrossed B';
  en_total a : is_asset a -> total B' a = total B a;
  en_next : next_id B' = next_id B;
  en_market : market B' = market B;
  en_other p x : x ∈ queue B' (opposite_side (order_side taker)) p <->
                 x ∈ queue B (opposite_side (order_side taker)) p;
}.

Lemma enter_done st : entered (set_order B (order_id taker) (set_fill taker 0 st)).
Proof.
  assert (0 <= remaining_quantity taker) as Hr by apply Hf. split; try done.
  - apply ok_new; try done; [|apply fits_fill; [done|lia]]. intros side p Hx.
    apply (ok_queued B H) in Hx as (y & Hy & _). by pose proof (eq_trans (eq_sym Hnone) Hy).
  - intros a Ha. rewrite total_insert by done. unfold locked. cbn.
    destruct (order_side taker), (_ =? _); lia.
Qed.

Lemma enter_resting B1 st :
  0 < remaining_quantity taker -> lock_book B taker = Ok B1 -> next_maker B taker = None ->
  st = Open \/ st = PartiallyFilled ->
  entered (set_order (join B1 (order_side taker) (order_price taker) (order_id taker))
    (order_id taker) (set_fill taker (remaining_quantity taker) st)).
Proof.
  intros Hr (H1 & M & Htot)%lock_ok Hstop Hst; [|done|done]. pose proof M as [Eo Eq En Ea Em].
  set (o := set_fill taker (remaining_quantity taker) st). set (side := order_side taker) in *.
  assert (opposite_side side <> side) as Hopp by (by destruct side).
  split.
  - apply (ok_join B1 (order_id taker) o); rewrite ?Eo, ?En, ?Ea; try done.
    by destruct Hst as [->| ->].
  - assert (forall p q x, x ∈ queue B (opposite_side side) q -> p = order_price taker ->
      match side with Buy => p < q | Sell => q < p end) as Hnew.
    { intros p q x Hx ->. destruct (next_maker_none B taker q x (ok_queues B H) Hstop Hx) as [_ Hc].
      unfold price_crosses in Hc. fold side in Hc. destruct side; apply Z.leb_gt in Hc; lia. }
    intros bid ask x y. rewrite !in_set_order, !in_join, !(moved_queue _ _ _ _ M).
    intros [Hx|(-> & Es & ->)] [Hy|(-> & Es' & ->)].
    + by apply (Hun bid ask x y).
    + specialize (Hnew (order_price taker) bid x). rewrite <-Es' in Hnew. by apply Hnew.
    + specialize (Hnew (order_price taker) ask y). rewrite <-Es in Hnew. by apply Hnew.
    + congruence.
  - intros a Ha. rewrite total_insert by (cbn; by rewrite Eo).
    change (total (join B1 _ _ _) a) with (total B1 a). rewrite Htot by done. unfold locked, o. cbn. lia.
  - done.
  - done.
  - intros p x. rewrite in_set_order, in_join, (moved_queue _ _ _ _ M). split; [|by left].
    intros [Hx|(_ & Es & _)]; [done|]. by fold side in Es.
Qed.

Lemma finish_ok tif trades blocked B' taker' :
  (blocked = false -> 0 < remaining_quantity taker -> next_maker B taker = None) ->
  finish_book B tif taker trades blocked = Ok (B', taker') ->
  entered (set_order B' (order_id taker) taker').
Proof.
  intros Hstop. unfold finish_book. assert (0 <= remaining_quantity taker) as Hr0 by apply Hf.
  destruct (rests tif taker blocked) eqn:Er.
  - unfold rests in Er. rewrite !andb_true_iff, negb_true_iff, Z.ltb_lt in Er.
    destruct Er as [[[Hr _] Hb] _]. intros (B1 & Hl & [= <- <-])%rbind_ok.
    apply enter_resting; auto. destruct (_ <? _); [by right|by left].
  - destruct (Z.ltb_spec 0 (remaining_quantity taker)).
    + destruct (bool_decide (trades = [])); [destruct (bool_decide _); [done|]|];
        intros [= <- <-]; apply enter_done.
    + intros [= <- <-]. replace (remaining_quantity taker) with 0 by lia. apply enter_done.
Qed.

Lemma finish_error tif trades blocked e :
  finish_book B tif taker trades blocked = Err e -> balance_error e \/ e = NoLiquidity.
Proof.
  unfold finish_book. destruct (rests tif taker blocked).
  - intros [Hl|(B1 & _ & Hl)]%rbind_err; [left; by eapply lock_error|done].
  - destruct (_ <? _); [|done]. destruct (bool_decide (trades = [])); [|done].
    destruct (bool_decide _); [|done]. intros [= <-]. by right.
Qed.
End finish.

Hypothesis Hmarket : is_u256 m.
Hypothesis Husers : forall u, u ∈ users -> is_u256 u.

Definition request_ok (request : PlaceOrder) : Prop :=
  place_owner request ∈ users /\ is_u64 (place_price request) /\ is_u64 (place_quantity request).

(** A book with the order [id] placed in it. *)
Record placed (B : Book) (request : PlaceOrder) (B' : Book) (id : Z) (trades : list Trade) : Prop := {
  pl_ok : book_ok B';
  pl_uncrossed : uncrossed B';
  pl_total a : is_asset a -> total B' a = total B a;
  pl_next : next_id B' = next_id B + 1;
  pl_market : market B' = market B;
  pl_id : id = next_id B;
  pl_priority : in_priority (opposite_side (place_side request)) B B' trades;
  pl_price tr : tr ∈ trades -> place_type request = Limit ->
    match place_side request with
    | Buy => trade_price tr <= place_price request
    | Sell => place_price request <= trade_price tr
    end;
  pl_positive tr : tr ∈ trades -> 0 < trade_quantity tr;
  pl_quantity : Zsum (trade_quantity <$> trades) <= place_quantity request;
}.

Lemma ok_set_next B : book_ok B -> book_ok (set_next B (next_id B + 1) (next_seq B + 1)).
Proof.
  intros H. destruct H. split; cbn; try done; try lia.
  intros id o Ho. destruct (ok_order0 id o Ho) as (? & ? & ?). split_and!; [done|done|lia..].
Qed.

Lemma new_order_fits B request :
  book_ok B -> request_ok request -> next_id B < 2 ^ 62 ->
  fits (new_order m request (next_id B) (next_seq B)).
Proof.
  intros H (Hu & Hp & Hq) Hid. pose proof (ok_next B H). pose proof (ok_seq B H) as Hs.
  split_and!; [done|done|]. unfold order_fits. cbn.
  split_and!; try done; [|by apply Husers|]; unfold is_u64, u64_max; lia.
Qed.

Lemma place_ok B request B' id trades :
  book_ok B -> uncrossed B -> request_ok request -> next_id B < 2 ^ 62 ->
  place_book m B request = Ok (B', (id, trades)) -> placed B request B' id trades.
Proof.
  intros H Hun Hreq Hid. unfold place_book.
  intros (_ & _ & (_ & _ & ([B1 [[taker1 new] blocked]] & Em & Hrest)%rbind_ok)%rbind_ok)%rbind_ok.
  pose proof (new_order_fits B request H Hreq Hid) as Hf.
  set (taker := new_order m request (next_id B) (next_seq B)) in *.
  apply match_ok in Em as (? & -> & [H1 S1 (r & Hr & Et) P1 C1 O1 Q1 St1]); [|by apply ok_set_next|done].
  revert Hrest. destruct (blocked && _); [done|].
  intros ([B2 taker2] & Efin & [= <- <- ->])%rbind_ok.
  assert (forall x y, orders B1 !! x = Some y -> x < next_id B) as Hold.
  { intros x y Hx. apply elem_of_dom_2 in Hx. rewrite (sh_dom _ _ S1) in Hx.
    apply elem_of_dom in Hx as [z Hz]. cbn in Hz. apply (ok_order B H) in Hz. lia. }
  assert (order_id taker1 = next_id B) as Ei by (by rewrite Et).
  pose proof (sh_next _ _ S1) as En. pose proof (sh_arena _ _ S1) as Ea. cbn in En, Ea.
  pose proof (ok_arena B H) as Ha. pose proof (ok_next B H).
  apply finish_ok in Efin as [H2 U2 T2 N2 M2 Ot]; rewrite ?Ei; try done; try lia.
  - rewrite Ei in *. assert (opposite_side (order_side taker1) = opposite_side (place_side request)) as Es
      by (by rewrite Et). rewrite Es in Ot.
    assert (price_crosses taker1 = price_crosses taker) as Ec by (by rewrite Et).
    split; try done.
    + intros a Ha'. rewrite T2, (sh_total _ _ S1) by done. done.
    + lia.
    + by rewrite M2, (sh_market _ _ S1).
    + destruct P1 as [W1 So1 F1]. split; [done|done|]. intros tr p x Htr Hx Hb. rewrite Ot.
      by apply (F1 tr).
    + intros tr Htr Hl. specialize (C1 tr Htr Hl). unfold price_crosses in C1. cbn in C1.
      destruct (place_side request); by apply Z.leb_le.
    + cbn [app]. rewrite Q1, Et. cbn. lia.
  - intros bid ask x y Hx Hy. apply (sh_queue _ _ S1) in Hx, Hy. by apply (Hun bid ask x y).
  - rewrite Et. by apply fits_fill.
  - destruct (orders B1 !! next_id B) eqn:E; [|done]. apply Hold in E. lia.
  - intros Hb Hpos. rewrite Et. by apply St1.
Qed.

(** An error that does not come from a damaged book or a loop without end. *)
Definition user_error (e : LiquidError) : Prop :=
  match e with Stuck | OrderNotFound _ | Serialization _ => False | _ => True end.

Lemma balance_user e : balance_error e -> user_error e.
Proof. by destruct e. Qed.

Lemma place_error B request e :
  book_ok B -> request_ok request -> next_id B < 2 ^ 62 ->
  place_book m B request = Err e -> user_error e.
Proof.
  intros H Hreq Hid. unfold place_book.
  intros [Ha|(_ & _ & [Hv|(_ & _ & [Hm|([B1 [[taker1 new] blocked]] & _ & He)]%rbind_err)]%rbind_err)]%rbind_err.
  - unfold ensure_market_active in Ha. destruct (market_active _); [done|]. by injection Ha as <-.
  - unfold validate_order in Hv. repeat (destruct (_ : bool) in Hv; [by injection Hv as <-|]). done.
  - apply balance_user. pose proof (ok_next B H).
    eapply (match_error _ (set_next B (next_id B + 1) (next_seq B + 1)) _ _
      (list_to_set (seqZ 1 (next_id B - 1)))); [by apply ok_set_next|by apply new_order_fits| | |exact Hm].
    + intros p x Hx. apply elem_of_list_to_set, elem_of_seqZ. cbn [queues set_next] in Hx.
      apply (ok_queued B H) in Hx as (o & Ho & _). apply (ok_order B H) in Ho. lia.
    + rewrite size_list_to_set by apply NoDup_seqZ. rewrite length_seqZ. lia.
  - destruct (blocked && _); [by injection He as <-|].
    apply rbind_err in He as [He|([B2 taker2] & _ & He)]; [|done].
    apply finish_error in He as [He| ->]; [by apply balance_user|done].
Qed.

(** ** Cancelling an order *)

Record cancelled (B : Book) (id : Z) (o : Order) (B' : Book) (o' : Order) : Prop := {
  ca_ok : book_ok B';
  ca_uncrossed : uncrossed B';
  ca_total a : is_asset a -> total B' a = total B a;
  ca_next : next_id B' = next_id B;
  ca_market : market B' = market B;
  ca_order : o' = set_fill o 0 Cancelled /\ orders B' !! id = Some o';
  ca_gone side p : id ∉ queue B' side p;
  ca_bal a : is_asset a -> bal B' (order_owner o) a = bal B (order_owner o) a + locked o a;
}.

Lemma refund_bal B B' o a :
  refund_book B o = Ok B' -> is_asset a ->
  bal B' (order_owner o) a = bal B (order_owner o) a + locked o a.
Proof.
  intros E Ha. unfold refund_book, locked_quote, locked, credit_book in *.
  destruct (order_side o); [apply rbind_ok in E as (q & (-> & _)%quote_of_ok & E)|];
    (destruct (_ <=? _) in E; [|done]); injection E as <-; cbn; by_asset Ha.
Qed.

Lemma cancel_ok B owner id B' o' :
  book_ok B -> uncrossed B -> cancel_book B owner id = Ok (B', o') ->
  exists o, orders B !! id = Some o /\ order_owner o = owner /\ cancelled B id o B' o'.
Proof.
  intros H Hun. unfold cancel_book. intros (o & Ho & Hrest)%rbind_ok.
  destruct (orders B !! id) as [x|] eqn:Eo; [|done]. injection Ho as ->. exists o. split; [done|].
  revert Hrest. destruct (Z.eqb_spec (order_owner o) owner) as [<-|]; [|done]. cbn [negb].
  destruct (negb (is_open o) || _) eqn:Eopen; [done|]. apply orb_false_iff in Eopen as [_ Hne%Z.eqb_neq].
  intros (B1 & Er & [= <- <-])%rbind_ok. split; [done|].
  destruct (ok_order B H id o Eo) as (_ & Hf & _).
  assert (0 <= remaining_quantity o) as Hr by apply Hf.
  assert (id ∈ queue B (order_side o) (order_price o)) as Hid by (apply (ok_resting B H); [done|lia]).
  pose proof (refund_bal B B1 o) as Hbal. pose proof Er as (H1 & M & Htot)%refund_ok; [|done|done].
  pose proof M as [Eo1 Eq En Ea Em]. rewrite <-(moved_queue _ _ _ _ M) in Hid. pose proof (ok_queues B1 H1) as Q.
  split; try done.
  - apply ok_leave; [done|done|by rewrite Eo1].
  - intros bid ask x y. rewrite !in_set_order, !in_leave by done. rewrite !(moved_queue _ _ _ _ M).
    intros [Hx _] [Hy _]. by apply (Hun bid ask x y).
  - intros a Ha. rewrite (total_replace (leave B1 _ _ id) id o) by (cbn; by rewrite Eo1).
    change (total (leave B1 _ _ _) a) with (total B1 a). rewrite Htot by done.
    unfold locked at 3. cbn. destruct (order_side o), (_ =? _); lia.
  - split; [done|]. cbn. by rewrite lookup_insert_eq.
  - intros side p. rewrite in_set_order, in_leave by done. tauto.
  - intros a Ha. by apply Hbal.
Qed.

(** With less of the assets than a counter holds, an order that waits can be
    cancelled. *)
Lemma cancel_open B id o :
  book_ok B -> (forall a, is_asset a -> total B a <= u64_max) ->
  orders B !! id = Some o -> 0 < remaining_quantity o ->
  exists B', cancel_book B (order_owner o) id = Ok (B', set_fill o 0 Cancelled).
Proof.
  intros H Hmax Ho Hr. destruct (ok_order B H id o Ho) as (_ & (_ & Hu & _) & _).
  pose proof (ok_resting B H id o Ho Hr) as Hid.
  destruct (ok_queued B H _ _ _ Hid) as (x & Hx & _ & _ & _ & Hopen).
  pose proof (eq_trans (eq_sym Ho) Hx) as [= <-]. clear Hx.
  unfold cancel_book. rewrite Ho. cbn [ok_or rbind]. rewrite Z.eqb_refl, Hopen. cbn [negb orb].
  rewrite (proj2 (Z.eqb_neq _ _)) by lia.
  assert (forall a, is_asset a -> bal B (order_owner o) a + locked o a <= u64_max) as Hle.
  { intros a Ha. destruct (total_parts B H a Ha) as [_ Hp]. specialize (Hp id o Ho _ Hu).
    specialize (Hmax a Ha). lia. }
  assert (is_asset ASSET_BASE /\ is_asset ASSET_QUOTE) as [Hb Hq] by (split; [by left|by right]).
  pose proof (Hle _ Hb) as Hleb. pose proof (Hle _ Hq) as Hleq. unfold locked in Hleb, Hleq.
  pose proof (ok_bal B H _ _ Hu Hq) as [Hb0 _].
  assert (exists B', refund_book B o = Ok B') as [B' ->]; [|by eexists].
  unfold refund_book, locked_quote, quote_of, credit_book. destruct (order_side o); cbn in Hleb, Hleq.
  - assert (u64_max <= u128_max) by (unfold u64_max, u128_max; lia).
    rewrite !(proj2 (Z.leb_le _ _)) by lia. cbn [rbind]. rewrite (proj2 (Z.leb_le _ _)) by lia. by eexists.
  - rewrite (proj2 (Z.leb_le _ _)) by lia. by eexists.
Qed.
End invariant.
