(* ===== verification/Matching.v ===== *)
(** The order book code computes the functions of [BookSpec].

    Each function of [Clob] on the storage of a market is simulated by the
    function of the same purpose on the abstract book: it returns the same
    answer or error, and leaves a storage that represents the function's book.
    What [BookSpec] proves of the functions then holds of the code. *)

From S2P Require Import Prelude SigAlgo Account StateTree Slots StateM.
From S2P Require Import CritBit CritTree Ladder Liquid Clob Book BookSpec.
Local Open Scope Z_scope.
Local Open Scope ace_scope.

Section matching.
Context (sha256 : list Z -> list Z) {C : LiquidCodec} (users : gset AccountId) (m : MarketId).
Hypothesis Hshape : digest_shape sha256.
Hypothesis Hapart : book_apart sha256 users m.
Hypothesis Husers : forall u, u ∈ users -> is_u256 u.
Hypothesis Hmarket : is_u256 m.
Hypothesis Hcodec : codec_ok C.

#[local] Abbreviation represents := (represents sha256 users m).
#[local] Abbreviation sim := (sim sha256 users m).
#[local] Abbreviation sim_unit := (sim_unit sha256 users m).
#[local] Abbreviation book_ok := (book_ok users m).
#[local] Abbreviation fits := (fits users m).

Lemma sim_ret {A} t B (a : A) : represents t B -> sim (ret a) t (Ok (B, a)).
Proof. intros R. by apply wp_ret. Qed.

Lemma sim_fail {A} t e : sim (@fail _ A e) t (Err e).
Proof. by apply wp_fail. Qed.

(** ** The parts *)

Lemma settle_sim t B taker maker qty quote :
  represents t B -> order_owner taker ∈ users -> order_owner maker ∈ users -> 0 <= qty -> 0 <= quote ->
  sim_unit (settle_fill sha256 m taker maker qty quote) t (settle_book B taker maker qty quote).
Proof.
  intros R Ht Hm Hq Hquote. unfold settle_fill, settle_book.
  assert (is_asset ASSET_BASE /\ is_asset ASSET_QUOTE) as [Hb Hqa] by (split; [by left|by right]).
  destruct (order_side taker);
    (apply sim_unit_then; [by apply debit_spec|]; intros t1 B1 R1 _;
     apply sim_unit_then; [by apply credit_spec|]; intros t2 B2 R2 _; by apply credit_spec).
Qed.

Lemma filter_absent (l : list Z) id : id ∉ l -> filter (fun i => i <> id) l = l.
Proof.
  induction l as [|x l IH]; [done|]. intros [Hx Hl]%not_elem_of_cons.
  rewrite filter_cons, decide_True, IH by done. done.
Qed.

Lemma filter_without (l1 l2 : list Z) id :
  NoDup (l1 ++ id :: l2) -> filter (fun i => i <> id) (l1 ++ id :: l2) = l1 ++ l2.
Proof.
  intros Hnd. rewrite filter_app, filter_cons, decide_False by tauto.
  apply NoDup_app in Hnd as (_ & H1 & H2). apply NoDup_cons in H2 as [H2 _].
  rewrite !filter_absent; [done|done|]. intros Hx. apply (H1 id Hx). by left.
Qed.

Lemma leave_sim t B side p id :
  represents t B -> is_u64 p -> id ∈ queue B side p ->
  sim_unit (remove_order_from_queue sha256 m side p id) t (Ok (leave B side p id)).
Proof.
  intros R Hp Hid. apply list_elem_of_split in Hid as (l1 & l2 & Eq).
  pose proof (q_nodup _ (rep_queues _ _ _ _ _ R) side p) as Hnd.
  unfold leave. rewrite Eq in Hnd |- *. rewrite filter_without by done.
  apply sim_confined; [apply dequeue_confined|by apply dequeue_spec].
Qed.

Lemma join_sim t B side p id :
  represents t B -> is_u64 p -> is_u64 id -> id <> 0 -> (forall side' p', id ∉ queue B side' p') ->
  arena B + 2 <= u64_max ->
  sim_unit (enqueue_order sha256 m side p id) t (Ok (join B side p id)).
Proof. intros. apply sim_confined; [apply enqueue_confined|by apply enqueue_spec]. Qed.

Lemma put_sim t B o :
  represents t B -> fits o -> sim_unit (put_order sha256 o) t (Ok (set_order B (order_id o) o)).
Proof. intros R (Hm & _ & Hf). by apply put_order_spec. Qed.

Lemma lock_sim t B o :
  represents t B -> fits o -> sim_unit (lock_resting_funds sha256 o) t (lock_book B o).
Proof.
  intros R (Hm & Hu & Hf). destruct Hf as (_ & _ & _ & Hp & _ & Hr & _). unfold is_u64 in *.
  unfold lock_resting_funds, lock_book. rewrite Hm.
  destruct (order_side o); [|apply debit_spec; [done..|by left|lia]].
  apply wp_bind, wp_lift. unfold locked_quote.
  destruct (quote_of _ _) as [q|e] eqn:E; [|done]. apply quote_of_ok in E as [-> _].
  apply debit_spec; [done..|by right|nia].
Qed.

Lemma refund_sim t B o :
  represents t B -> fits o -> sim_unit (refund_resting_funds sha256 o) t (refund_book B o).
Proof.
  intros R (Hm & Hu & Hf). destruct Hf as (_ & _ & _ & Hp & _ & Hr & _). unfold is_u64 in *.
  unfold refund_resting_funds, refund_book. rewrite Hm.
  destruct (order_side o); [|apply credit_spec; [done..|by left|lia]].
  apply wp_bind, wp_lift. unfold locked_quote.
  destruct (quote_of _ _) as [q|e] eqn:E; [|done]. apply quote_of_ok in E as [-> _].
  apply credit_spec; [done..|by right|nia].
Qed.

(** ** Matching *)

Lemma fill_sim t B taker maker p :
  let side := opposite_side (order_side taker) in
  represents t B -> book_ok B -> fits taker -> 0 < remaining_quantity taker ->
  order_id maker ∈ queue B side p -> orders B !! order_id maker = Some maker ->
  sim (fill sha256 taker maker side) t (fill_book B taker maker).
Proof.
  intros side R H Hf Hpos Hid Ho. destruct (ok_order _ _ B H _ _ Ho) as (_ & Hfm & _).
  destruct (ok_queued _ _ B H side p _ Hid) as (o & Ho' & _ & Ep & Hrem & _).
  pose proof (eq_trans (eq_sym Ho) Ho') as [= <-]. clear Ho'.
  pose proof Hf as (Em & Hu & _). pose proof Hfm as (_ & Hum & Hfit).
  assert (is_u64 (order_price maker)) as Hp by apply Hfit.
  unfold fill, fill_book. rewrite Em. fold side.
  set (qty := Z.min (remaining_quantity taker) (remaining_quantity maker)).
  assert (0 < qty <= remaining_quantity maker) as Hq by (unfold qty; lia).
  apply sim_bind_lift. intros quote [-> _]%quote_of_ok.
  apply sim_bind_unit; [apply settle_sim; try done; [lia|unfold is_u64 in Hp; nia]|].
  intros t1 B1 R1 E1. apply (settle_ok users m) in E1 as (H1 & [Eo Eq _ _ _] & _);
    [|done|done|done|lia|unfold is_u64 in Hp; nia].
  unfold update_maker. set (rem := remaining_quantity maker - qty).
  set (B2 := if rem =? 0 then leave B1 side (order_price maker) (order_id maker) else B1).
  assert (sim_unit (if rem =? 0 then remove_order_from_queue sha256 m side (order_price maker) (order_id maker)
    else ret tt) t1 (Ok B2)) as Hleave.
  { unfold B2. destruct (rem =? 0); [|by apply wp_ret]. apply leave_sim; [done|done|]. by rewrite Eq, Ep. }
  apply (sim_bind_unit _ _ _ _ _ _ _ (fun B => rbind (Ok (set_order B (order_id maker) (filled maker qty)))
    (fun B => Ok (B, _))) Hleave). intros t2 B2' R2 [= <-].
  apply sim_bind_unit; [|intros t3 B3 R3 [= <-]; by apply sim_ret].
  apply (put_sim t2 B2 (filled maker qty)); [done|]. apply fits_fill; [done|lia].
Qed.

Lemma match_sim fuel t B taker trades :
  represents t B -> book_ok B -> fits taker ->
  sim (match_taker sha256 fuel taker trades) t (match_book fuel B taker trades).
Proof.
  revert t B taker trades. induction fuel as [|fuel IH]; intros t B taker trades R H Hf; [by apply sim_fail|].
  cbn [match_taker match_book]. pose proof Hf as (Em & _ & Hfit). rewrite Em.
  assert (0 <= remaining_quantity taker) as Hr by apply Hfit.
  destruct (Z.eqb_spec (remaining_quantity taker) 0) as [_|Hne]; [by apply sim_ret|].
  unfold next_maker. set (side := opposite_side (order_side taker)).
  apply wp_bind, (best_price_spec sha256 users m t B side); [done|]. intros answer Hbest.
  rewrite (best_of_unique side _ _ _ Hbest (best_level_best B side)).
  destruct (best_level B side) as [p|] eqn:El; [|by apply sim_ret].
  destruct (bool_decide _ && _); [by apply sim_ret|].
  pose proof (best_level_best B side) as Hp. rewrite El, best_of_iff in Hp. destruct Hp as [Hp _].
  apply elem_of_dom in Hp as [ids Hids]. destruct (q_level _ (ok_queues _ _ B H) side p ids Hids) as [Hp _].
  apply wp_bind, (front_order_spec sha256 users m t B side p); [done|done|].
  destruct (head (queue B side p)) as [id|] eqn:Eh; [|by apply sim_ret].
  assert (id ∈ queue B side p) as Hid by (by apply head_Some_elem_of).
  destruct (q_id _ (ok_queues _ _ B H) side p id Hid) as [Hu _].
  apply wp_bind, (get_order_spec sha256 users m t B id); [done|done|].
  destruct (ok_queued _ _ B H side p id Hid) as (maker & Ho & _ & _ & Hrem & _). rewrite Ho.
  apply wp_bind, wp_ret. cbn [ok_or rbind].
  destruct (order_owner maker =? order_owner taker); [by apply sim_ret|].
  destruct (ok_order _ _ B H id maker Ho) as (Ei & _). rewrite <-Ei in Hid.
  assert (sim (fill sha256 taker maker side) t (fill_book B taker maker)) as Hfill
    by (apply (fill_sim t B taker maker p); try done; [lia|by rewrite Ei]).
  apply (sim_bind _ _ _ _ _ _ _ _ Hfill). intros t1 B1 [taker1 trade] R1 E1.
  rewrite <-Ei in Ho. apply (fill_ok users m B taker maker p) in E1 as (H1 & _ & -> & _); try done; [|apply Hf|lia].
  apply IH; [done|done|]. apply fits_fill; [done|lia].
Qed.

(** ** Resting, placing and cancelling *)

Lemma finish_sim t B tif taker trades blocked :
  represents t B -> book_ok B -> fits taker -> orders B !! order_id taker = None ->
  1 <= order_id taker -> arena B + 2 <= u64_max -> status taker = Open ->
  sim (finish_order sha256 m tif taker trades blocked) t (finish_book B tif taker trades blocked).
Proof.
  intros R H Hf Hnone Hid Ha Hst. unfold finish_order, finish_book, rests. cbn [set_fill order_type].
  assert (0 <= remaining_quantity taker) as Hr by apply Hf.
  destruct (Z.ltb_spec 0 (remaining_quantity taker)) as [Hpos|Hzero]; cbn [andb].
  - rewrite (proj2 (Z.eqb_neq (remaining_quantity taker) 0)) by lia.
    destruct (bool_decide (order_type taker = Limit) && negb blocked && _).
    + assert (fits (set_fill taker (remaining_quantity taker)
        (if remaining_quantity taker <? quantity taker then PartiallyFilled else status taker))) as Hf1
        by (apply fits_fill; [done|lia]).
      assert (sim_unit (lock_resting_funds sha256 (set_fill taker (remaining_quantity taker)
        (if remaining_quantity taker <? quantity taker then PartiallyFilled else status taker))) t
        (lock_book B taker)) as Hl by (by apply (lock_sim t B _ R Hf1)).
      apply (sim_bind_unit _ _ _ _ _ _ _ _ Hl). intros t1 B1 R1 E1.
      apply (lock_ok users m) in E1 as (H1 & [Eo Eq En Ea Em] & _); [|done|done].
      apply (sim_bind_unit _ _ _ _ _ _ (Ok (join B1 (order_side taker) (order_price taker) (order_id taker)))
        (fun B => Ok (B, _))); [|intros t2 B2 R2 [= <-]; by apply sim_ret].
      apply join_sim; try done; [apply Hf|apply Hf|lia| |lia].
      intros side p Hx. rewrite Eq in Hx. apply (ok_queued _ _ B H) in Hx as (y & Hy & _).
      by pose proof (eq_trans (eq_sym Hnone) Hy).
    + destruct (bool_decide (trades = [])); rewrite ?andb_true_r, ?andb_false_r;
        [|by apply sim_ret]. destruct (bool_decide _); [by apply sim_fail|by apply sim_ret].
  - replace (remaining_quantity taker) with 0 by lia. by apply sim_ret.
Qed.

Lemma finish_taker B tif taker trades blocked B' taker' :
  0 <= remaining_quantity taker -> finish_book B tif taker trades blocked = Ok (B', taker') ->
  exists r st, taker' = set_fill taker r st /\ 0 <= r <= remaining_quantity taker.
Proof.
  intros Hr. unfold finish_book. destruct (rests _ _ _).
  - intros (B1 & _ & [= <- <-])%rbind_ok. do 2 eexists. split; [done|lia].
  - destruct (_ <? _); [|intros [= <- <-]; do 2 eexists; split; [done|lia]].
    destruct (bool_decide (trades = [])); [destruct (bool_decide _); [done|]|];
      intros [= <- <-]; do 2 eexists; (split; [done|lia]).
Qed.

Lemma place_sim t B request :
  represents t B -> book_ok B -> request_ok users request -> next_id B < 2 ^ 62 ->
  sim (place_order_inner sha256 m request) t (place_book m B request).
Proof.
  intros R H Hreq Hid. pose proof (ok_next _ _ B H). pose proof (ok_seq _ _ B H) as Hseq.
  pose proof (ok_arena _ _ B H). pose proof (new_order_fits users m Hmarket Husers B request H Hreq Hid) as Hf.
  unfold place_order_inner, place_book.
  apply wp_bind, (require_market_spec sha256 users m t B); [done|].
  apply sim_bind_lift. intros _ _. apply sim_bind_lift. intros _ _.
  apply wp_bind. refine (wp_mono _ _ _ _ _ (next_order_id_spec sha256 users m Hshape Hapart Husers t B R)).
  intros t1 [id|e]; [|unfold u64_max; lia]. intros (-> & R1 & O1). apply sim_after; [done|].
  apply wp_bind. refine (wp_mono _ _ _ _ _ (next_sequence_spec sha256 users m Hshape Hapart Husers t1 _ R1)).
  intros t2 [seq|e]; cbn [next_seq next_id set_next]; [|unfold u64_max; lia]. intros (-> & R2 & O2). apply sim_after; [done|].
  set (taker := new_order m request (next_id B) (next_seq B)) in *.
  assert (book_ok (set_next B (next_id B + 1) (next_seq B + 1))) as H2 by (by apply ok_set_next).
  apply (sim_bind _ _ _ _ _ _ _ _ (match_sim _ t2 _ taker [] R2 H2 Hf)).
  intros t3 B3 [[taker3 trades] blocked] R3 E3.
  apply (match_ok users m) in E3 as (new & -> & [H3 S3 (r & Hr & ->) _ _ _ _ _]); [|done|done].
  unfold fail_if. destruct (blocked && _); [by apply wp_bind, wp_fail|].
  apply wp_bind, wp_ret. cbv beta iota.
  assert (orders B3 !! next_id B = None) as Hnone.
  { destruct (orders B3 !! next_id B) as [o|] eqn:E; [|done]. apply elem_of_dom_2 in E.
    rewrite (sh_dom _ _ _ S3) in E. apply elem_of_dom in E as [o' E]. apply (ok_order _ _ B H) in E. lia. }
  assert (fits (set_fill taker r (status taker))) as Hf3 by (by apply fits_fill).
  assert (arena B3 + 2 <= u64_max) as Ha3 by (rewrite (sh_arena _ _ _ S3); cbn; unfold u64_max; lia).
  assert (sim (finish_order sha256 m (time_in_force request) (set_fill taker r (status taker)) ([] ++ new) blocked)
    t3 (finish_book B3 (time_in_force request) (set_fill taker r (status taker)) ([] ++ new) blocked)) as Hfin
    by (by apply finish_sim).
  apply (sim_bind _ _ _ _ _ _ _ _ Hfin). intros t4 B4 taker4 R4 E4.
  apply finish_taker in E4 as (r4 & st4 & -> & Hr4); [|apply Hf3].
  assert (fits (set_fill (set_fill taker r (status taker)) r4 st4)) as Hf4 by (by apply fits_fill).
  apply (sim_bind_unit _ _ _ _ _ _ _ (fun B => Ok (B, _)) (put_sim t4 B4 _ R4 Hf4)).
  intros t5 B5 R5 [= <-]. by apply sim_ret.
Qed.

Lemma cancel_sim t B owner id :
  represents t B -> book_ok B -> is_u64 id ->
  sim (cancel_order_inner sha256 m owner id) t (cancel_book B owner id).
Proof.
  intros R H Hid. unfold cancel_order_inner, cancel_book.
  apply wp_bind, (require_market_spec sha256 users m t B); [done|].
  apply wp_bind, (get_order_spec sha256 users m t B id); [done|done|].
  destruct (orders B !! id) as [o|] eqn:Ho; [|by apply wp_bind, wp_fail].
  apply wp_bind, wp_ret. cbn [ok_or rbind]. destruct (ok_order _ _ B H id o Ho) as (Ei & Hf & _).
  unfold fail_if. destruct (negb (order_owner o =? owner)); [by apply wp_bind, wp_fail|].
  apply wp_bind, wp_ret. destruct (negb (is_open o) || _) eqn:Eopen; [by apply wp_bind, wp_fail|].
  apply orb_false_iff in Eopen as [_ Hne%Z.eqb_neq]. apply wp_bind, wp_ret.
  assert (0 <= remaining_quantity o) as Hr by apply Hf. assert (is_u64 (order_price o)) as Hp by apply Hf.
  assert (id ∈ queue B (order_side o) (order_price o)) as Hin by (apply (ok_resting _ _ B H); [done|lia]).
  apply (sim_bind_unit _ _ _ _ _ _ _ _ (refund_sim t B o R Hf)). intros t1 B1 R1 E1.
  apply (refund_ok users m) in E1 as (_ & M & _); [|done|done].
  rewrite <-(moved_queue _ _ _ _ M) in Hin.
  apply (sim_bind_unit _ _ _ _ _ _ _ (fun B => rbind (Ok (set_order B id (set_fill o 0 Cancelled)))
    (fun B => Ok (B, _))) (leave_sim t1 B1 _ _ id R1 Hp Hin)). intros t2 B2 R2 [= <-].
  assert (fits (set_fill o 0 Cancelled)) as Hf2 by (apply fits_fill; [done|lia]).
  pose proof (put_sim t2 _ _ R2 Hf2) as Hput. cbn [order_id set_fill] in Hput. rewrite Ei in Hput.
  apply (sim_bind_unit _ _ _ _ _ _ _ _ Hput). intros t3 B3 R3 [= <-]. by apply sim_ret.
Qed.

(** A simulated computation that is rolled back on errors. *)
Lemma sim_atomically {A} (c : M LiquidError A) t r :
  sim c t r ->
  match r with
  | Ok (B, a) => exists t', atomically c t = (t', Ok a) /\ represents t' B /\ outside sha256 m t t'
  | Err e => atomically c t = (t, Err e)
  end.
Proof.
  unfold sim, wp, atomically. destruct (c t) as [t' [a|e]]; cbn; destruct r as [[B b]|f].
  - intros ([= <-] & R & O). by exists t'.
  - done.
  - by intros [? _].
  - intros [= <-]. by rewrite rollback_snapshot.
Qed.
End matching.

(* ------------------------------------------------------------------ *)
(** * Sequences of operations *)

Inductive BookOp : Type :=
| PlaceOp (request : PlaceOrder)
| CancelOp (owner : AccountId) (id : OrderId).

Inductive BookAnswer : Type :=
| AnswerPlaced (id : OrderId) (trades : list Trade)
| AnswerCancelled (order : Order)
| AnswerError (e : LiquidError).

Definition answer {A} (f : A -> BookAnswer) (r : result LiquidError A) : BookAnswer :=
  match r with Ok a => f a | Err e => AnswerError e end.

(** An operation of the code, and of the abstract book, which stays as it is on
    an error. *)
Definition run_op (sha256 : list Z -> list Z) {C : LiquidCodec} (m : MarketId) (t : StateTree)
    (op : BookOp) : StateTree * BookAnswer :=
  match op with
  | PlaceOp request =>
      let '(t', r) := place_order sha256 m request t in
      (t', answer (fun x => AnswerPlaced x.1 x.2) r)
  | CancelOp owner id =>
      let '(t', r) := cancel_order sha256 m owner id t in (t', answer AnswerCancelled r)
  end.

Definition spec_op (m : MarketId) (B : Book) (op : BookOp) : Book * BookAnswer :=
  match op with
  | PlaceOp request =>
      match place_book m B request with
      | Ok (B', x) => (B', AnswerPlaced x.1 x.2)
      | Err e => (B, AnswerError e)
      end
  | CancelOp owner id =>
      match cancel_book B owner id with
      | Ok (B', o) => (B', AnswerCancelled o)
      | Err e => (B, AnswerError e)
      end
  end.

Fixpoint run_ops (sha256 : list Z -> list Z) {C : LiquidCodec} (m : MarketId) (t : StateTree)
    (ops : list BookOp) : StateTree * list BookAnswer :=
  match ops with
  | [] => (t, [])
  | op :: ops =>
      let '(t, a) := run_op sha256 m t op in
      let '(t, l) := run_ops sha256 m t ops in (t, a :: l)
  end.

Fixpoint spec_ops (m : MarketId) (B : Book) (ops : list BookOp) : Book * list BookAnswer :=
  match ops with
  | [] => (B, [])
  | op :: ops =>
      let '(B, a) := spec_op m B op in
      let '(B, l) := spec_ops m B ops in (B, a :: l)
  end.

Definition op_ok (users : gset AccountId) (op : BookOp) : Prop :=
  match op with PlaceOp request => request_ok users request | CancelOp _ id => is_u64 id end.

(** A book that is well formed, with [n] operations to come. *)
Record book_good (users : gset AccountId) (m : MarketId) (B : Book) (n : Z) : Prop := {
  good_ok : book_ok users m B;
  good_uncrossed : uncrossed B;
  good_next : next_id B + n <= 2 ^ 62;
}.

(** Not an error of the users. *)
Definition internal (a : BookAnswer) : Prop :=
  match a with AnswerError Stuck | AnswerError (Serialization _) => True | _ => False end.

Section ops.
Context (users : gset AccountId) (m : MarketId).
Hypothesis Husers : forall u, u ∈ users -> is_u256 u.
Hypothesis Hmarket : is_u256 m.

Lemma cancel_error B owner id e : cancel_book B owner id = Err e -> e <> Stuck /\ forall s, e <> Serialization s.
Proof.
  unfold cancel_book. intros [H|(o & _ & H)]%rbind_err.
  - destruct (orders B !! id); [done|]. by injection H as <-.
  - destruct (negb _); [by injection H as <-|]. destruct (_ || _); [by injection H as <-|].
    apply rbind_err in H as [H|(B1 & _ & H)]; [|done]. unfold refund_book in H.
    assert (balance_error e); [|by destruct e].
    destruct (order_side o); [apply rbind_err in H as [H|(q & _ & H)]|];
      first [by eapply quote_error|by eapply credit_error].
Qed.

Lemma spec_op_good B n op :
  book_good users m B n -> 1 <= n -> op_ok users op ->
  let '(B', a) := spec_op m B op in
  book_good users m B' (n - 1) /\ ~ internal a /\
  (forall x, is_asset x -> total users B' x = total users B x) /\ market B' = market B.
Proof.
  intros [H Hun Hn] H1 Hop. destruct op as [request|owner id]; cbn [spec_op op_ok] in *.
  - destruct (place_book m B request) as [[B' [id trades]]|e] eqn:E.
    + apply (place_ok users m Hmarket Husers) in E as []; try done; [|lia].
      split_and!; [|cbn; tauto|done|done]. split; [done|done|lia].
    + apply (place_error users m Hmarket Husers) in E; try done; [|lia].
      split_and!; [split; [done|done|lia]| |done|done]. intros Hi. by destruct e.
  - destruct (cancel_book B owner id) as [[B' o]|e] eqn:E.
    + apply (cancel_ok users m) in E as (o' & _ & _ & []); try done.
      split_and!; [|cbn; tauto|done|done]. split; [done|done|lia].
    + apply cancel_error in E as [Hs Hser]. split_and!; [split; [done|done|lia]| |done|done].
      cbn. destruct e; try tauto. intros _. by apply (Hser msg).
Qed.

Lemma spec_ops_good ops B n :
  book_good users m B n -> Z.of_nat (length ops) <= n -> Forall (op_ok users) ops ->
  let '(B', l) := spec_ops m B ops in
  book_good users m B' (n - Z.of_nat (length ops)) /\ Forall (fun a => ~ internal a) l /\
  forall x, is_asset x -> total users B' x = total users B x.
Proof.
  revert B n. induction ops as [|op ops IH]; intros B n G Hn Hops; cbn [spec_ops length] in *.
  { rewrite Z.sub_0_r. by split_and!. }
  apply Forall_cons in Hops as [Hop Hops]. pose proof (spec_op_good B n op G ltac:(lia) Hop) as Hstep.
  destruct (spec_op m B op) as [B1 a]. destruct Hstep as (G1 & Ha & Ht & _).
  specialize (IH B1 (n - 1) G1 ltac:(lia) Hops). destruct (spec_ops m B1 ops) as [B2 l].
  destruct IH as (G2 & Hl & Ht2). split_and!.
  - replace (n - Z.of_nat (S (length ops))) with (n - 1 - Z.of_nat (length ops)) by lia. done.
  - by constructor.
  - intros x Hx. by rewrite Ht2, Ht.
Qed.

Context (sha256 : list Z -> list Z) {C : LiquidCodec}.
Hypothesis Hshape : digest_shape sha256.
Hypothesis Hapart : book_apart sha256 users m.
Hypothesis Hcodec : codec_ok C.

Lemma run_op_sim t B n op :
  represents sha256 users m t B -> book_good users m B n -> 1 <= n -> op_ok users op ->
  let '(t', a) := run_op sha256 m t op in
  a = snd (spec_op m B op) /\ represents sha256 users m t' (fst (spec_op m B op)) /\
  outside sha256 m t t'.
Proof.
  intros R [H Hun Hn] H1 Hop. destruct op as [request|owner id]; cbn [run_op spec_op op_ok] in *.
  - pose proof (place_sim sha256 users m Hshape Hapart Husers Hmarket Hcodec t B request R H Hop ltac:(lia)) as S.
    apply sim_atomically in S. fold (place_order sha256 m request) in S.
    destruct (place_book m B request) as [[B' [id trades]]|e]; [destruct S as (t' & -> & R' & O)|rewrite S]; done.
  - pose proof (cancel_sim sha256 users m Hshape Hapart Husers Hcodec t B owner id R H Hop) as S.
    apply sim_atomically in S. fold (cancel_order sha256 m owner id) in S.
    destruct (cancel_book B owner id) as [[B' o]|e]; [destruct S as (t' & -> & R' & O)|rewrite S]; done.
Qed.

Lemma run_ops_sim ops t B n :
  represents sha256 users m t B -> book_good users m B n -> Z.of_nat (length ops) <= n ->
  Forall (op_ok users) ops ->
  let '(t', l) := run_ops sha256 m t ops in
  l = snd (spec_ops m B ops) /\ represents sha256 users m t' (fst (spec_ops m B ops)) /\
  outside sha256 m t t'.
Proof.
  revert t B n. induction ops as [|op ops IH]; intros t B n R G Hn Hops; [done|].
  apply Forall_cons in Hops as [Hop Hops]. cbn [run_ops spec_ops length] in *.
  pose proof (run_op_sim t B n op R G ltac:(lia) Hop) as S1.
  pose proof (spec_op_good B n op G ltac:(lia) Hop) as G1.
  destruct (run_op sha256 m t op) as [t1 a], (spec_op m B op) as [B1 a']. cbn in S1.
  destruct S1 as (-> & R1 & O1), G1 as (G1 & _). specialize (IH t1 B1 (n - 1) R1 G1 ltac:(lia) Hops).
  destruct (run_ops sha256 m t1 ops) as [t2 l], (spec_ops m B1 ops) as [B2 l']. cbn in *.
  destruct IH as (-> & R2 & O2). split_and!; [done|done|]. by apply (outside_trans _ _ _ t1).
Qed.

End ops.

Lemma open_good users m sha256 t k : book_good users m (open_book sha256 m t k) (2 ^ 62 - 1).
Proof.
  split; [|intros bid ask x y; unfold waiting; cbn; rewrite lookup_empty; set_solver|cbn; lia].
  split; cbn; try done; try lia.
  - intros u a _ _. apply slot_u64_range.
  - intros side p id. unfold waiting. cbn. rewrite lookup_empty. set_solver.
  - intros side p. unfold waiting. cbn. rewrite lookup_empty. constructor.
  - apply queues_ok_empty.
Qed.

(* ------------------------------------------------------------------ *)
(** * The order book is correct *)

(** C28. The order book code refines a reference order book.  For any sequence of
    placed and cancelled orders, the answers of the code on a market's storage
    (order ids, trades, cancelled orders, errors) are the answers of the
    functions on an abstract book of balances, orders and first-in-first-out
    queues, the storage it leaves represents the book they leave, and the storage
    of no other account changes.  Assumed: no two slots of the market collide,
    records are read back as written, and the market has fewer than 2^62 orders. *)
Theorem order_book_refines sha256 (C : LiquidCodec) users m t B ops :
  digest_shape sha256 -> book_apart sha256 users m -> (forall u, u ∈ users -> is_u256 u) ->
  is_u256 m -> codec_ok C ->
  represents sha256 users m t B -> book_good users m B (Z.of_nat (length ops)) ->
  Forall (op_ok users) ops ->
  snd (run_ops sha256 m t ops) = snd (spec_ops m B ops) /\
  represents sha256 users m (fst (run_ops sha256 m t ops)) (fst (spec_ops m B ops)) /\
  outside sha256 m t (fst (run_ops sha256 m t ops)).
Proof.
  intros Hshape Hapart Husers Hm Hcodec R G Hops.
  pose proof (run_ops_sim users m Husers Hm sha256 Hshape Hapart Hcodec ops t B _ R G ltac:(done) Hops) as H.
  by destruct (run_ops sha256 m t ops).
Qed.

(** C29. A market conserves its assets.  After a market is created and any
    sequence of orders is placed and cancelled, the free balances and what the
    open orders have locked add up, for both assets, to the balances at the
    beginning; every bid is below every ask; the queues hold exactly the orders
    that have something left; and no operation found a damaged book or a search
    without end.  Assumed as for the refinement, and that only balances of the
    market were written before. *)
Theorem market_conserves sha256 (C : LiquidCodec) users k t ops :
  let m := market_id k in
  digest_shape sha256 -> book_apart sha256 users m -> (forall u, u ∈ users -> is_u256 u) ->
  codec_ok C -> unused sha256 users m t -> market_fits k ->
  validate_market_config sha256 k = Ok tt ->
  Forall (op_ok users) ops -> Z.of_nat (length ops) < 2 ^ 62 ->
  exists t1 t' answers B,
    create_market sha256 k t = (t1, Ok m) /\ run_ops sha256 m t1 ops = (t', answers) /\
    represents sha256 users m t' B /\ book_ok users m B /\ uncrossed B /\
    (forall a, is_asset a ->
       total users B a = Zsum ((fun u => free_balance sha256 t m u a) <$> elements users)) /\
    Forall (fun a => ~ internal a) answers.
Proof.
  intros m Hshape Hapart Husers Hcodec Hun Hfit Hv Hops Hlen.
  assert (is_u256 m) as Hm by apply Hfit.
  pose proof (create_market_spec sha256 users m Hshape Hapart Husers t k Hcodec Hun Hfit eq_refl Hv) as Hc.
  unfold wp in Hc. destruct (create_market sha256 k t) as [t1 r] eqn:Ec. cbn [fst snd] in Hc. destruct Hc as [-> R].
  pose proof (open_good users m sha256 t k) as G.
  pose proof (run_ops_sim users m Husers Hm sha256 Hshape Hapart Hcodec ops t1 _ _ R G ltac:(lia) Hops) as S.
  pose proof (spec_ops_good users m Husers Hm ops _ _ G ltac:(lia) Hops) as S2.
  destruct (run_ops sha256 m t1 ops) as [t' l] eqn:Er.
  destruct (spec_ops m (open_book sha256 m t k) ops) as [B' l'] eqn:Es.
  destruct S as (-> & R' & _), S2 as ([Hok Hu _] & Hl & Ht).
  exists t1, t', l', B'. split_and!; try done. intros a Ha. rewrite Ht by done. unfold total. cbn.
  rewrite map_to_list_empty. cbn. rewrite Zsum_nil. lia.
Qed.

(** C30. Orders are served by price and then by age.  When an order is placed,
    every trade is at the price of an order that was waiting on the other side, at
    a price the taker accepts; the trades are in the order of priority (best
    price first, and the older order first at one price); an order that had
    priority over the maker of a trade is filled and gone; and the quantities are
    positive and not more than ordered. *)
Theorem trades_in_priority sha256 (C : LiquidCodec) users m t B request t' id trades :
  digest_shape sha256 -> book_apart sha256 users m -> (forall u, u ∈ users -> is_u256 u) ->
  is_u256 m -> codec_ok C ->
  represents sha256 users m t B -> book_good users m B 1 -> request_ok users request ->
  run_op sha256 m t (PlaceOp request) = (t', AnswerPlaced id trades) ->
  exists B', represents sha256 users m t' B' /\
    in_priority (opposite_side (place_side request)) B B' trades /\
    (forall tr, tr ∈ trades -> 0 < trade_quantity tr /\ (place_type request = Limit ->
       match place_side request with
       | Buy => trade_price tr <= place_price request
       | Sell => place_price request <= trade_price tr
       end)) /\
    Zsum (trade_quantity <$> trades) <= place_quantity request.
Proof.
  intros Hshape Hapart Husers Hm Hcodec R G Hreq Hrun.
  pose proof (run_op_sim users m Husers Hm sha256 Hshape Hapart Hcodec t B 1 (PlaceOp request)
    R G ltac:(lia) Hreq) as S.
  rewrite Hrun in S. destruct S as (Ea & R' & _). cbn [spec_op] in Ea, R'. destruct G as [H Hun Hn].
  destruct (place_book m B request) as [[B' [i l]]|e] eqn:E; [|done]. cbn in Ea, R'.
  injection Ea as <- <-. apply (place_ok users m Hm Husers) in E as []; try done; [|lia].
  exists B'. split_and!; [done|done| |done]. intros tr Htr. split; [by apply pl_positive|].
  by apply pl_price.
Qed.

(** An open order can be cancelled.  When what a market holds of each asset
    fits a 64-bit balance, the owner of an order with something left can cancel
    it: the order is closed, leaves its queue, and the owner's free balance grows
    by exactly what the order had locked. *)
Theorem open_order_cancels sha256 (C : LiquidCodec) users m t B id o :
  digest_shape sha256 -> book_apart sha256 users m -> (forall u, u ∈ users -> is_u256 u) ->
  is_u256 m -> codec_ok C ->
  represents sha256 users m t B -> book_good users m B 1 ->
  (forall a, is_asset a -> total users B a <= u64_max) ->
  orders B !! id = Some o -> 0 < remaining_quantity o ->
  exists t' B',
    run_op sha256 m t (CancelOp (order_owner o) id) = (t', AnswerCancelled (set_fill o 0 Cancelled)) /\
    represents sha256 users m t' B' /\ (forall side p, id ∉ queue B' side p) /\
    (forall a, is_asset a -> free_balance sha256 t' m (order_owner o) a =
       free_balance sha256 t m (order_owner o) a + locked o a).
Proof.
  intros Hshape Hapart Husers Hm Hcodec R G Hmax Ho Hr. pose proof G as [H Hun Hn].
  destruct (ok_order _ _ B H id o Ho) as (Ei & (_ & Hu & Hf) & _).
  assert (is_u64 id) as Hid by (rewrite <-Ei; apply Hf).
  pose proof (run_op_sim users m Husers Hm sha256 Hshape Hapart Hcodec t B 1 (CancelOp (order_owner o) id)
    R G ltac:(lia) Hid) as S.
  destruct (cancel_open users m B id o H Hmax Ho Hr) as [B' E].
  destruct (run_op sha256 m t _) as [t' a]. cbn [spec_op] in S. rewrite E in S. destruct S as (-> & R' & _).
  apply (cancel_ok users m) in E as (o' & Ho' & _ & [_ _ _ _ _ _ Hgone Hbal]); [|done|done].
  pose proof (eq_trans (eq_sym Ho) Ho') as [= <-]. exists t', B'. split_and!; try done.
  intros a Ha. by rewrite (rep_bal _ _ _ _ _ R'), (rep_bal _ _ _ _ _ R), Hbal.
Qed.

(* ------------------------------------------------------------------ *)
(** * A market with two users *)

Module SampleBook.
(** Keeps what follows the common prefix of the messages, their end and their
    length. *)
Definition head_part (l : list Z) : list Z := take 22 (drop 11 l ++ replicate 22 0).
Definition tail_part (l : list Z) : list Z := take 9 (reverse l ++ replicate 9 0).
Definition sha (l : list Z) : list Z :=
  map (fun x => x mod 256) (head_part l ++ tail_part l ++ [Z.of_nat (length l)]).

Lemma book_shape : digest_shape sha.
Proof.
  intros l. unfold sha, head_part, tail_part. split.
  - rewrite length_map, !length_app, !length_take, !length_app, !length_replicate. cbn [length]. lia.
  - apply Forall_forall. intros x (y & -> & _)%list_elem_of_fmap. apply Z.mod_pos_bound. lia.
Qed.

Definition users : gset AccountId := {[ 1; 2 ]}.
Definition m : MarketId := Eval vm_compute in derive_market_id sha 7 8.

Lemma mod_bytes l : Forall is_byte l -> map (fun x => x mod 256) l = l.
Proof.
  induction 1 as [|x l Hx Hl IH]; [done|]. cbn. rewrite IH, Z.mod_small; [done|]. unfold is_byte in Hx. lia.
Qed.

Lemma sha_parts a b :
  Forall is_byte a -> Forall is_byte b -> (length a < 256)%nat -> (length b < 256)%nat -> sha a = sha b ->
  head_part a = head_part b /\ tail_part a = tail_part b /\ length a = length b.
Proof.
  assert (forall l, Forall is_byte l -> (length l < 256)%nat ->
    Forall is_byte (head_part l ++ tail_part l ++ [Z.of_nat (length l)])) as Hbytes.
  { intros l Hl Hn. assert (forall n, Forall is_byte (replicate n 0)) as H0
      by (intros n; apply Forall_replicate; unfold is_byte; lia).
    unfold head_part, tail_part. repeat (apply Forall_app; split).
    - apply Forall_take, Forall_app. split; [by apply Forall_drop|done].
    - apply Forall_take, Forall_app. split; [by apply Forall_reverse|done].
    - constructor; [|done]. unfold is_byte. lia. }
  intros Ha Hb Hla Hlb E. unfold sha in E. rewrite !mod_bytes in E by auto.
  assert (forall l, length (head_part l) = 22%nat) as Hh
    by (intros l; unfold head_part; rewrite length_take, length_app, length_replicate; lia).
  assert (forall l, length (tail_part l) = 9%nat) as Ht
    by (intros l; unfold tail_part; rewrite length_take, length_app, length_replicate; lia).
  apply app_inj_1 in E as [E1 E]; [|by rewrite !Hh]. apply app_inj_1 in E as [E2 [= E]]; [|by rewrite !Ht].
  split_and!; [done|done|lia].
Qed.

(** The end of a message. *)
Lemma tail_inj x y l l' :
  length l = 8%nat -> length l' = 8%nat -> tail_part (x ++ l) = tail_part (y ++ l') -> l = l'.
Proof.
  unfold tail_part. rewrite !reverse_app. intros Hl Hl' E. apply (f_equal (take 8)) in E.
  rewrite !take_take, <-!app_assoc, !take_app_length' in E by (rewrite length_reverse; lia).
  by rewrite <-(reverse_involutive l), E, reverse_involutive.
Qed.

(** The beginning of a message. *)
Lemma head_inj n x y :
  (n <= 22)%nat -> take 11 x = take 11 y -> (11 + n <= length x)%nat -> (11 + n <= length y)%nat ->
  head_part x = head_part y -> take (11 + n) x = take (11 + n) y.
Proof.
  unfold head_part. intros Hn H11 Hx Hy E. apply (f_equal (take n)) in E.
  rewrite !take_take, !Nat.min_l, !take_app_le in E by (rewrite ?length_drop; lia).
  by rewrite <-!(take_take_drop _ 11 n), H11, E.
Qed.

Lemma head_whole x y :
  take 11 x = take 11 y -> length x = length y -> (11 <= length x <= 33)%nat ->
  head_part x = head_part y -> x = y.
Proof.
  intros H11 Hl Hn E. apply (head_inj (length x - 11)) in E; [|lia|done|lia|lia].
  replace (11 + (length x - 11))%nat with (length x) in E by lia.
  by rewrite !take_ge in E by lia.
Qed.

Lemma both_parts x y l l' :
  length l = 8%nat -> length l' = 8%nat -> length x = length y -> (11 <= length x <= 33)%nat ->
  take 11 x = take 11 y -> head_part (x ++ l) = head_part (y ++ l') ->
  tail_part (x ++ l) = tail_part (y ++ l') -> x ++ l = y ++ l'.
Proof.
  intros Hl Hl' Hxy Hn H11 E1 E2. apply tail_inj in E2 as <-; [|done..]. f_equal.
  apply (head_inj (length x - 11)) in E1; [|lia|by rewrite !take_app_le by lia|rewrite length_app; lia..].
  replace (11 + (length x - 11))%nat with (length x) in E1 by lia.
  by rewrite take_app_length, take_app_length' in E1.
Qed.

Lemma message_bytes s :
  book_slot_ok users s -> Forall is_byte (book_message m s) /\ (length (book_message m s) < 256)%nat.
Proof.
  assert (forall str, forallb (fun x => (0 <=? x) && (x <? 256)) (ascii_bytes str) = true ->
    Forall is_byte (ascii_bytes str)) as Hstr.
  { intros str H. apply Forall_forall. intros x Hx. rewrite forallb_forall in H.
    apply list_elem_of_In in Hx. apply H in Hx. unfold is_byte. lia. }
  assert (forall x, is_byte x -> Forall is_byte [x]) as H1
    by (intros x Hx; constructor; [done|constructor]).
  intros Hs. split.
  - assert (is_byte 0 /\ is_byte 1 /\ is_byte 2) as (? & ? & ?) by (unfold is_byte; lia).
    destruct s as [[[]|h| |]|id|id|id idx|u [| |]| | |[] p|id| | |idx]; cbn [book_message slot_message];
      unfold liquid_message, chunk_key; repeat (apply Forall_app; split); try apply le_bytes_byte;
      try apply be_bytes_byte; try (by apply Hstr); try (by apply H1); try done.
    all: destruct Hs as [_ [E|E]]; try done; injection E as ->; by apply H1.
  - destruct s as [[[]|h| |]|id|id|id idx|u a| | |[] p|id| | |idx]; vm_compute; lia.
Qed.

Definition slot_name (s : BookSlot) : string :=
  match s with
  | SLadder (SlotRoot _) => "cb-root"
  | SLadder (SlotNode _) => "cb-node"
  | SLadder SlotAlloc => "cb-allo"
  | SLadder SlotFree => "cb-free"
  | SOrderCount _ | SOrderLen _ | SOrderChunk _ _ => "order:v"
  | SBalance _ _ => "balance"
  | SNextId => "next-or"
  | SNextSeq => "next-se"
  | SLevel _ _ => "level:v"
  | SQueue _ => "node:v1"
  | SMarketCount | SMarketLen | SMarketChunk _ => "market:"
  end.

Lemma slot_name_head s : take 7 (head_part (book_message m s)) = ascii_bytes (slot_name s).
Proof. destruct s as [[]|id|id|id idx|u x| | |side p|id| | |idx]; reflexivity. Qed.

Lemma message_length s :
  length (book_message m s) =
  match s with
  | SLadder (SlotRoot _) => 22
  | SLadder (SlotNode _) => 29
  | SLadder SlotAlloc => 22
  | SLadder SlotFree => 21
  | SOrderCount _ | SOrderLen _ => 28
  | SOrderChunk _ _ => 36
  | SBalance _ _ => 55
  | SNextId => 28
  | SNextSeq => 23
  | SLevel _ _ => 61
  | SQueue _ => 27
  | SMarketCount | SMarketLen => 53
  | SMarketChunk _ => 61
  end%nat.
Proof.
  destruct s as [[]|id|id|id idx|u x| | |side p|id| | |idx]; cbn [book_message slot_message];
    unfold liquid_message, chunk_key; rewrite ?length_app, ?length_le_bytes, ?length_be_bytes; reflexivity.
Qed.

Lemma level_side side p :
  head_part (book_message m (SLevel side p)) !! 9%nat = Some (side_byte side).
Proof. reflexivity. Qed.

Lemma book_sha_apart : book_apart sha users m.
Proof.
  intros a b Ha Hb E. destruct (message_bytes a Ha) as [Ba La], (message_bytes b Hb) as [Bb Lb].
  apply sha_parts in E as (E1 & E2 & E3); [|done..]. clear Ba Bb La Lb. rewrite !message_length in E3.
  pose proof (f_equal (take 7) E1) as E4. rewrite !slot_name_head in E4.
  destruct a as [[side|h| |]|id|id|id idx|u x| | |side p|id| | |idx],
    b as [[side'|h'| |]|id'|id'|id' idx'|u' x'| | |side' p'|id'| | |idx'];
    try discriminate E3; try discriminate E4; try reflexivity; clear E4.
  all: try (apply head_whole; [reflexivity|by rewrite !message_length|rewrite message_length; lia|done]).
  - cbn [book_message] in *. unfold liquid_message, chunk_key in *. rewrite !app_assoc in *.
    apply both_parts; try done. rewrite !length_app, length_le_bytes. cbn. lia.
  - destruct Ha as [Hu Hx], Hb as [Hu' Hx']. f_equal. unfold users in Hu, Hu'.
    rewrite elem_of_union, !elem_of_singleton in Hu, Hu'.
    destruct Hu as [->| ->], Hu' as [->| ->], Hx as [->| ->], Hx' as [->| ->];
      first [reflexivity|exfalso; vm_compute in E2; discriminate E2].
  - assert (side = side') as <-.
    { apply (f_equal (fun l => l !! 9%nat)) in E1. rewrite !level_side in E1. clear E2.
      by destruct side, side'. }
    cbn [book_message] in *. unfold liquid_message in *. clear E1. rewrite !app_assoc in *.
    apply tail_inj in E2; [|apply length_le_bytes..]. by rewrite E2.
  - apply (f_equal (fun l => l !! 9%nat)) in E1. discriminate E1.
  - apply (f_equal (fun l => l !! 9%nat)) in E1. discriminate E1.
  - cbn [book_message] in *. unfold liquid_message, chunk_key in *. clear E1. rewrite !app_assoc in *.
    apply tail_inj in E2; [|apply length_le_bytes..]. by rewrite E2.
Qed.

(** Records as fields of fixed width. *)
Fixpoint split_fields (widths : list nat) (bytes : list Z) : list (list Z) :=
  match widths with
  | [] => []
  | n :: widths => take n bytes :: split_fields widths (drop n bytes)
  end.

Lemma split_concat fs : split_fields (length <$> fs) (concat fs) = fs.
Proof.
  induction fs as [|f fs IH]; [done|]. cbn. by rewrite take_app_length, drop_app_length, IH.
Qed.

Definition type_byte (x : OrderType) : Z := match x with Limit => 0 | MarketOrder => 1 end.
Definition status_byte (x : OrderStatus) : Z :=
  match x with Open => 0 | PartiallyFilled => 1 | Filled => 2 | Cancelled => 3 end.

Definition order_fields (o : Order) : list (list Z) :=
  [le_bytes 8 (order_id o); be_bytes 32 (order_market o); be_bytes 32 (order_owner o);
   [side_byte (order_side o)]; [type_byte (order_type o)]; le_bytes 8 (order_price o);
   le_bytes 8 (quantity o); le_bytes 8 (remaining_quantity o); [status_byte (status o)];
   le_bytes 8 (sequence o)].
Definition market_fields (k : Market) : list (list Z) :=
  [be_bytes 32 (market_id k); be_bytes 32 (base_mint k); be_bytes 32 (quote_mint k);
   le_bytes 8 (tick_size k); le_bytes 8 (lot_size k); le_bytes 2 (maker_fee_bps k);
   le_bytes 2 (taker_fee_bps k); [Z.b2z (market_active k)]].

Definition read_order (fs : list (list Z)) : result string Order :=
  match fs with
  | [a; b; c; [d]; [e]; f; g; h; [i]; j] => Ok
      {| order_id := le_num a; order_market := be_num b; order_owner := be_num c;
         order_side := if d =? side_byte Buy then Buy else Sell;
         order_type := if e =? 0 then Limit else MarketOrder;
         order_price := le_num f; quantity := le_num g; remaining_quantity := le_num h;
         status := if i =? 0 then Open else if i =? 1 then PartiallyFilled
                   else if i =? 2 then Filled else Cancelled;
         sequence := le_num j |}
  | _ => Err "order"%string
  end.
Definition read_market (fs : list (list Z)) : result string Market :=
  match fs with
  | [a; b; c; d; e; f; g; [h]] => Ok
      {| market_id := be_num a; base_mint := be_num b; quote_mint := be_num c;
         tick_size := le_num d; lot_size := le_num e; maker_fee_bps := le_num f;
         taker_fee_bps := le_num g; market_active := h =? 1 |}
  | _ => Err "market"%string
  end.

#[export] Instance codec : LiquidCodec := {|
  encode_order o := Ok (concat (order_fields o));
  decode_order bytes := read_order (split_fields [8; 32; 32; 1; 1; 8; 8; 8; 1; 8]%nat bytes);
  encode_market k := Ok (concat (market_fields k));
  decode_market bytes := read_market (split_fields [32; 32; 32; 8; 8; 2; 2; 1]%nat bytes);
|}.

(** The fields are bytes: what is left are the single ones. *)
Ltac fields_bytes :=
  repeat lazymatch goal with
  | |- Forall _ (le_bytes _ _) => apply le_bytes_byte
  | |- Forall _ (be_bytes _ _) => apply be_bytes_byte
  | |- Forall _ [] => apply Forall_nil
  | |- Forall _ (_ :: _) => apply Forall_cons; split
  end; unfold is_byte.

Lemma codec_correct : codec_ok codec.
Proof.
  split.
  - intros o (Hi & Hm & Ho & Hp & Hq & Hr & Hs). exists (concat (order_fields o)). unfold is_u64, u64_max in *.
    split_and!; [done| | | |].
    + cbn [decode_order codec]. change [8; 32; 32; 1; 1; 8; 8; 8; 1; 8]%nat with (length <$> order_fields o).
      rewrite split_concat. cbn [read_order order_fields]. rewrite !le_num_bytes by (cbn; lia).
      rewrite !be_num_bytes by done. by destruct o as [? ? ? [] [] ? ? ? [] ?].
    + apply Forall_concat. unfold order_fields. fields_bytes. all: destruct o as [? ? ? [] [] ? ? ? [] ?]; cbn; lia.
    + by change (length (concat (order_fields o))) with 107%nat.
    + by change (length (concat (order_fields o))) with 107%nat.
  - intros k (Hi & Hb & Hq & Ht & Hl & Hm & Hk). exists (concat (market_fields k)). unfold is_u64, u64_max in *.
    split_and!; [done| | | |].
    + cbn [decode_market codec]. change [32; 32; 32; 8; 8; 2; 2; 1]%nat with (length <$> market_fields k).
      rewrite split_concat. cbn [read_market market_fields]. rewrite !le_num_bytes by (cbn; lia).
      rewrite !be_num_bytes by done. by destruct k as [? ? ? ? ? ? ? []].
    + apply Forall_concat. unfold market_fields. fields_bytes. all: destruct k as [? ? ? ? ? ? ? []]; cbn; lia.
    + by change (length (concat (market_fields k))) with 117%nat.
    + by change (length (concat (market_fields k))) with 117%nat.
Qed.

(** User 1 has quote tokens, user 2 base tokens. *)
Definition funded : StateTree :=
  let book := market_book_id sha m in
  write_slot_u64 (write_slot_u64 state_new book (balance_slot sha 1 ASSET_QUOTE) 1000)
    book (balance_slot sha 2 ASSET_BASE) 50.
Definition spot : Market :=
  {| market_id := m; base_mint := 7; quote_mint := 8; tick_size := 1; lot_size := 1;
     maker_fee_bps := 0; taker_fee_bps := 0; market_active := true |}.
Definition opened : StateTree := fst (create_market sha spot funded).

Definition sell (price qty : Z) : BookOp :=
  PlaceOp {| place_owner := 2; place_side := Sell; place_type := Limit; place_price := price;
             place_quantity := qty; time_in_force := GoodTilCancelled |}.
Definition buy_request (price qty : Z) : PlaceOrder :=
  {| place_owner := 1; place_side := Buy; place_type := Limit; place_price := price;
     place_quantity := qty; time_in_force := GoodTilCancelled |}.
Definition asks : list BookOp := [sell 5 10; sell 4 10; sell 5 10].
Definition asked : StateTree := fst (run_ops sha m opened asks).
Definition asked_book : Book := fst (spec_ops m (open_book sha m funded spot) asks).

Lemma users_u256 u : u ∈ users -> is_u256 u.
Proof.
  unfold users. rewrite elem_of_union, !elem_of_singleton. by intros [->| ->].
Qed.

Lemma funded_unused : unused sha users m funded.
Proof.
  intros s Hs Hk. unfold funded.
  assert (forall u a v t, u ∈ users -> is_asset a ->
    val sha m (write_slot_u64 t (market_book_id sha m) (balance_slot sha u a) v) s = val sha m t s) as Hw.
  { intros u a v t Hu Ha.
    apply (u64_changes sha users m book_shape book_sha_apart users_u256 t (SBalance u a) v (conj Hu Ha) (kind s)); done. }
  rewrite !Hw; [done|unfold users; set_solver|by right|unfold users; set_solver|by left].
Qed.

Lemma spot_fits : market_fits spot.
Proof. repeat split; cbn; unfold is_u256, is_u64, u64_max; try lia; done. Qed.

Lemma opened_represents : represents sha users m opened (open_book sha m funded spot).
Proof.
  apply (create_market_spec sha users m book_shape book_sha_apart users_u256 funded spot codec_correct funded_unused
    spot_fits eq_refl). reflexivity.
Qed.

Lemma sample_op_ok op : op ∈ asks -> op_ok users op.
Proof.
  unfold asks. rewrite !elem_of_cons, elem_of_nil. intros [->|[->|[->|[]]]];
    (split_and!; [unfold users; set_solver|unfold is_u64, u64_max; cbn; lia..]).
Qed.

Lemma asks_ok : Forall (op_ok users) asks.
Proof. apply Forall_forall. exact sample_op_ok. Qed.

Lemma m_u256 : is_u256 m.
Proof. done. Qed.

Lemma open_sample_good : book_good users m (open_book sha m funded spot) 4.
Proof. destruct (open_good users m sha funded spot) as [H U N]. split; [done|done|cbn in *; lia]. Qed.

Lemma asked_good : book_good users m asked_book 1.
Proof.
  pose proof (spec_ops_good users m users_u256 m_u256 asks _ 4 open_sample_good) as H.
  unfold asked_book. destruct (spec_ops _ _ asks) as [B l]. apply H; [cbn; lia|apply asks_ok].
Qed.

Lemma asked_represents : represents sha users m asked asked_book.
Proof.
  pose proof (run_ops_sim users m users_u256 m_u256 sha book_shape book_sha_apart codec_correct asks opened _ 4
    opened_represents open_sample_good) as H.
  unfold asked, asked_book. destruct (run_ops sha m opened asks) as [t l]. apply H; [cbn; lia|apply asks_ok].
Qed.
End SampleBook.

#[local] Existing Instance SampleBook.codec.

Lemma order_book_refines_witness :
  snd (run_ops SampleBook.sha SampleBook.m SampleBook.opened SampleBook.asks) =
    [AnswerPlaced 1 []; AnswerPlaced 2 []; AnswerPlaced 3 []].
Proof.
  destruct (order_book_refines SampleBook.sha SampleBook.codec SampleBook.users SampleBook.m
    SampleBook.opened (open_book SampleBook.sha SampleBook.m SampleBook.funded SampleBook.spot)
    SampleBook.asks SampleBook.book_shape SampleBook.book_sha_apart SampleBook.users_u256 SampleBook.m_u256
    SampleBook.codec_correct SampleBook.opened_represents) as [-> _].
  - destruct SampleBook.open_sample_good as [H U N]. split; [done|done|cbn in *; lia].
  - exact SampleBook.asks_ok.
  - vm_compute. reflexivity.
Defined.

Lemma market_conserves_witness :
  exists t1 t' answers B,
    create_market SampleBook.sha SampleBook.spot SampleBook.funded = (t1, Ok SampleBook.m) /\
    run_ops SampleBook.sha SampleBook.m t1 SampleBook.asks = (t', answers) /\
    uncrossed B /\ represents SampleBook.sha SampleBook.users SampleBook.m t' B /\
    total SampleBook.users B ASSET_BASE = 50.
Proof.
  destruct (market_conserves SampleBook.sha SampleBook.codec SampleBook.users SampleBook.spot
    SampleBook.funded SampleBook.asks SampleBook.book_shape SampleBook.book_sha_apart SampleBook.users_u256
    SampleBook.codec_correct SampleBook.funded_unused SampleBook.spot_fits)
    as (t1 & t' & l & B & Hc & Hr & R & _ & U & T & _).
  - reflexivity.
  - exact SampleBook.asks_ok.
  - vm_compute. reflexivity.
  - exists t1, t', l, B. split_and!; [exact Hc|exact Hr|exact U|exact R|].
    rewrite T by (left; reflexivity). vm_compute. reflexivity.
Defined.

Lemma trades_in_priority_witness :
  exists t' trades B',
    run_op SampleBook.sha SampleBook.m SampleBook.asked (PlaceOp (SampleBook.buy_request 5 15)) =
      (t', AnswerPlaced 4 trades) /\
    (maker_order_id <$> trades) = [2; 1] /\
    in_priority Sell SampleBook.asked_book B' trades.
Proof.
  destruct (run_op SampleBook.sha SampleBook.m SampleBook.asked (PlaceOp (SampleBook.buy_request 5 15)))
    as [t' a] eqn:E.
  assert (a = snd (run_op SampleBook.sha SampleBook.m SampleBook.asked
    (PlaceOp (SampleBook.buy_request 5 15)))) as Ea by (rewrite E; reflexivity).
  vm_compute in Ea. subst a.
  assert (request_ok SampleBook.users (SampleBook.buy_request 5 15)) as Hreq
    by (split_and!; [unfold SampleBook.users; set_solver|unfold is_u64, u64_max; cbn; lia..]).
  destruct (trades_in_priority SampleBook.sha SampleBook.codec SampleBook.users SampleBook.m
    SampleBook.asked SampleBook.asked_book (SampleBook.buy_request 5 15) t' _ _
    SampleBook.book_shape SampleBook.book_sha_apart SampleBook.users_u256 SampleBook.m_u256 SampleBook.codec_correct
    SampleBook.asked_represents SampleBook.asked_good Hreq E) as (B' & _ & P & _).
  eexists t', _, B'. split_and!; [reflexivity|reflexivity|exact P].
Defined.

Lemma open_order_cancels_witness :
  exists o t', orders SampleBook.asked_book !! 1 = Some o /\
    run_op SampleBook.sha SampleBook.m SampleBook.asked (CancelOp 2 1) =
      (t', AnswerCancelled (set_fill o 0 Cancelled)).
Proof.
  destruct (orders SampleBook.asked_book !! 1) as [o|] eqn:Eo; [|vm_compute in Eo; discriminate Eo].
  assert (forall a, is_asset a -> total SampleBook.users SampleBook.asked_book a <= u64_max) as Hmax
    by (intros a [->| ->]; vm_compute; discriminate).
  exists o. pose proof Eo as Eo'. vm_compute in Eo'. injection Eo' as <-.
  destruct (open_order_cancels SampleBook.sha SampleBook.codec SampleBook.users SampleBook.m
    SampleBook.asked SampleBook.asked_book 1 _
    SampleBook.book_shape SampleBook.book_sha_apart SampleBook.users_u256 SampleBook.m_u256 SampleBook.codec_correct
    SampleBook.asked_represents SampleBook.asked_good Hmax Eo eq_refl) as (t' & B' & Hrun & _).
  exists t'. split; [reflexivity|exact Hrun].
Defined.
