(* ===== verification/Solvency.v ===== *)
(** A market and the token ledger together.

    Deposits move tokens of a user to the account of the market's book and credit
    the user's collateral, withdrawals go back, and orders move collateral inside
    the market (ace-liquid/src/clob.rs on ace-n-vm/src/token_runtime.rs).  The
    tokens of the book account cover what the market owes, whatever else happens
    on the token ledger, so that orders can be cancelled and collateral withdrawn
    at any time. *)

From S2P Require Import Prelude SigAlgo Account StateTree Slots StateM Token TokenSpec.
From S2P Require Import CritBit Liquid Clob Book BookSpec Matching.
Local Open Scope Z_scope.
Local Open Scope ace_scope.

(** What users do with a market and with their tokens. *)
Inductive SpotOp : Type :=
| SpotBook (op : BookOp)
| SpotDeposit (user : AccountId) (asset amount : Z)
| SpotWithdraw (user : AccountId) (asset amount : Z)
| SpotToken (op : TokenOp).

Definition run_spot (sha256 : list Z -> list Z) {C : LiquidCodec} (m : MarketId) (t : StateTree)
    (op : SpotOp) : StateTree :=
  match op with
  | SpotBook op => fst (run_op sha256 m t op)
  | SpotDeposit user asset amount => fst (deposit sha256 m user asset amount t)
  | SpotWithdraw user asset amount => fst (withdraw sha256 m user asset amount t)
  | SpotToken op => fst (token_op sha256 op t)
  end.

Definition run_spots (sha256 : list Z -> list Z) {C : LiquidCodec} (m : MarketId) (t : StateTree)
    (ops : list SpotOp) : StateTree :=
  foldl (run_spot sha256 m) t ops.

(** Users of the market deposit, withdraw and trade; token operations are those
    of any caller but the account of the book, which signs nothing. *)
Definition spot_op_ok (users ids : gset AccountId) (bk : AccountId) (op : SpotOp) : Prop :=
  match op with
  | SpotBook op => op_ok users op
  | SpotDeposit user _ amount | SpotWithdraw user _ amount => user ∈ users /\ is_u64 amount
  | SpotToken op =>
      token_op_ok ids op /\ exists caller, caller ∈ ids /\ caller <> bk /\ by_caller caller op
  end.

(* ------------------------------------------------------------------ *)
(** * The invariant *)

Section solvency.
Context (sha256 : list Z -> list Z) {C : LiquidCodec} (users ids : gset AccountId) (k : Market).
Local Abbreviation m := (market_id k).
Local Abbreviation bk := (market_book_id sha256 m).
Local Abbreviation represents := (represents sha256 users m).
Local Abbreviation spells := (spells sha256 ids).
Hypothesis Hshape : digest_shape sha256.
Hypothesis Hbook : book_apart sha256 users m.
Hypothesis Htoken : token_apart sha256 ids.
Hypothesis Hids : forall x, x ∈ ids -> is_u256 x.
Hypothesis Husers : users ⊆ ids.
Hypothesis Hcodec : codec_ok C.
Hypothesis Hfits : market_fits k.
Hypothesis Hmints : base_mint k ∈ ids /\ quote_mint k ∈ ids /\ base_mint k <> quote_mint k.
Hypothesis Hbk : bk ∈ ids /\ bk ∉ users /\ bk <> token_program_account_id.

Record solvent (n : Z) (t : StateTree) (B : Book) (L : Ledger) : Prop := {
  sv_book : represents t B;
  sv_good : book_good users m B n;
  sv_market : market B = k;
  sv_ledger : spells t L;
  sv_ok : ledger_ok ids L;
  sv_backed a mint : mint_for_asset k a = Ok mint -> total users B a <= balances L mint bk;
  sv_allowance x s : x ∈ ids -> s ∈ ids -> allowances L x bk s = 0;
}.

Lemma users_fit u : u ∈ users -> is_u256 u.
Proof. intros Hu. by apply Hids, Husers. Qed.

Lemma market_fit : is_u256 m.
Proof. apply Hfits. Qed.

Lemma mint_asset a mint : mint_for_asset k a = Ok mint -> is_asset a /\ mint ∈ ids.
Proof.
  unfold mint_for_asset. destruct (Z.eqb_spec a ASSET_BASE); [intros [= <-]; split; [by left|apply Hmints]|].
  destruct (Z.eqb_spec a ASSET_QUOTE); [|done]. intros [= <-]. split; [by right|apply Hmints].
Qed.

Lemma mint_inj a a' mint : mint_for_asset k a = Ok mint -> mint_for_asset k a' = Ok mint -> a = a'.
Proof.
  destruct Hmints as (_ & _ & Hne). unfold mint_for_asset.
  destruct (Z.eqb_spec a ASSET_BASE), (Z.eqb_spec a' ASSET_BASE); try congruence;
    destruct (Z.eqb_spec a ASSET_QUOTE), (Z.eqb_spec a' ASSET_QUOTE); congruence.
Qed.

Lemma solvent_weaken n n' t B L : n' <= n -> solvent n t B L -> solvent n' t B L.
Proof. intros Hn [R [] M S O A W]. split; try done. split; try done. lia. Qed.

(** ** Frames *)

Lemma token_storage t t' B : token_frame t t' -> represents t B -> represents t' B.
Proof.
  intros F. apply represents_storage. apply (fr_storage _ _ F), Hbk.
Qed.

Lemma market_storage t t' L : outside sha256 m t t' -> spells t L -> spells t' L.
Proof. intros O. apply spells_storage. apply O. intros E. by destruct Hbk as (_ & _ & Hne). Qed.

Lemma token_op_framed op : framed (token_op sha256 op).
Proof.
  destruct op; (apply framed_bind; [|intros _; by apply framed_pure]);
    first [apply create_mint_framed|apply mint_to_framed|apply transfer_framed|apply approve_framed
          |apply transfer_from_framed|apply register_framed|apply ensure_framed|idtac].
  unfold register_runtime_erc20_mapping_for_existing_mint. cbv zeta. repeat framed_step.
Qed.

(** ** Orders and token operations *)

Lemma book_step n t B L op :
  solvent n t B L -> 1 <= n -> op_ok users op ->
  exists B', solvent (n - 1) (fst (run_op sha256 m t op)) B' L.
Proof.
  intros [R G M S O A W] Hn Hop.
  pose proof (run_op_sim users m users_fit market_fit sha256 Hshape Hbook Hcodec t B n op R G Hn Hop) as H.
  pose proof (spec_op_good users m users_fit market_fit B n op G Hn Hop) as H'.
  destruct (run_op sha256 m t op) as [t' a], (spec_op m B op) as [B' a']. cbn in H |- *.
  destruct H as (_ & R' & Out), H' as (G' & _ & Ht & Em). exists B'. split; try done.
  - by rewrite Em.
  - by apply (market_storage t).
  - intros a0 mint Hm. rewrite Ht by (by eapply mint_asset). by apply A.
Qed.

Lemma token_step n t B L op :
  solvent n t B L -> spot_op_ok users ids bk (SpotToken op) ->
  exists L', solvent n (fst (token_op sha256 op t)) B L'.
Proof.
  intros [R G M S O A W] [Hop (caller & Hc & Hne & Hby)].
  pose proof (token_op_framed op t) as F. pose proof (token_op_sim ids sha256 Hshape Htoken Hids t L op S O Hop) as H.
  unfold wp in F. destruct (token_op sha256 op t) as [t' x]. cbn in F, H |- *.
  pose proof (token_storage _ _ _ F R) as R'.
  destruct (ledger_op _ L op) as [L'|e] eqn:E; destruct H as [_ S']; [|by exists L].
  pose proof (ledger_op_ok ids _ L op L' O Hop E) as O'.
  apply (op_permitted ids _ caller) in E as [P1 P2 P3 _ _]; [|done|done].
  assert (forall y s, y ∈ ids -> s ∈ ids -> allowances L' y bk s = 0) as W'.
  { intros y s Hy Hs. destruct (decide (s = caller)) as [->|Hn]; [|rewrite P2 by done; by apply W].
    specialize (P3 y bk ltac:(done)). rewrite W in P3 by done.
    destruct (lo_allowance _ _ O' y bk caller) as [? _]; try done; [apply Hbk|lia]. }
  exists L'. split; try done. intros a mint Hm. specialize (A a mint Hm).
  destruct (mint_asset a mint Hm) as [_ Hmint].
  specialize (P1 mint bk ltac:(done)). rewrite W, W' in P1 by done. lia.
Qed.

(** ** Moving tokens in and out *)

Lemma move_sim t B L mint from to x :
  represents t B -> spells t L -> ledger_ok ids L -> mint ∈ ids -> from ∈ ids -> to ∈ ids -> 0 < x ->
  wp (move_tokens sha256 mint from to x) t (fun t' r =>
    match ledger_transfer L mint from to x with
    | Ok L' => r = Ok tt /\ represents t' B /\ spells t' L'
    | Err e => r = Err (Settlement e)
    end).
Proof.
  intros R S O Hm Hf Ht Hx. unfold move_tokens. rewrite (proj2 (Z.eqb_neq x 0)) by lia.
  apply wp_bind.
  assert (wp (ensure_account sha256 to) t (fun t1 r => r = Ok tt /\ contract_storage t1 = contract_storage t)) as Ha
    by (unfold ensure_account; apply wp_bind, wp_gets; by case_bool_decide).
  revert Ha. apply wp_mono. intros t1 r [-> E]. cbv beta iota.
  assert (represents t1 B) as R1 by (apply (represents_storage sha256 users m t); [by rewrite E|done]).
  assert (spells t1 L) as S1 by (by apply (spells_storage sha256 ids t); rewrite ?E).
  pose proof (transfer_sim sha256 ids Hshape Htoken Hids t1 L mint from to x S1 O Hm Hf Ht ltac:(lia)) as H.
  pose proof (transfer_framed sha256 mint from to x t1) as F.
  unfold tsim, wp, bind, map_err in *. destruct (transfer_between_owners sha256 mint from to x t1) as [t2 r].
  cbn in H, F. destruct (ledger_transfer L mint from to x) as [L'|e].
  - destruct H as [[a ->] S2]. split_and!; [done| |done]. by apply (token_storage t1).
  - by destruct H as [-> _].
Qed.

(** The user's collateral and the tokens of the book change by the same amount. *)
Lemma solvent_moved n t t' B L u a mint d from to x :
  solvent n t B L -> u ∈ users -> mint_for_asset k a = Ok mint ->
  balances (moved_tokens L mint from to x) mint bk = balances L mint bk + d ->
  book_ok users m (add_bal B u a d) -> represents t' (add_bal B u a d) ->
  ledger_ok ids (moved_tokens L mint from to x) -> spells t' (moved_tokens L mint from to x) ->
  solvent n t' (add_bal B u a d) (moved_tokens L mint from to x).
Proof.
  intros [R [G1 G2 G3] M S O A W] Hu Hm Ed Hok R' O' S'. split; try done.
  intros a' mint' Hm'. specialize (A a' mint' Hm'). rewrite total_add_bal by done.
  case_decide as Hd; [subst a'|].
  - assert (mint' = mint) as -> by congruence. lia.
  - rewrite moved_other; [lia|]. intros ->. apply Hd. by apply (mint_inj a' a mint).
Qed.

Lemma deposit_step n t B L u a x :
  solvent n t B L -> u ∈ users -> is_u64 x ->
  exists B' L', solvent n (fst (deposit sha256 m u a x t)) B' L'.
Proof.
  intros V Hu Hx. pose proof V as [R G M S O A W]. destruct Hbk as (Hb1 & Hb2 & Hb3).
  enough (wp (deposit sha256 m u a x) t (fun t' _ => exists B' L', solvent n t' B' L')) by done.
  unfold deposit, fail_if. apply wp_bind. destruct (Z.eqb_spec x 0) as [|H0]; [apply wp_fail; eauto|].
  apply wp_ret, wp_bind, (require_market_spec sha256 users m t B); [done|]. rewrite M.
  apply wp_bind, wp_lift. destruct (ensure_market_active k); [|eauto].
  apply wp_bind, wp_lift. destruct (mint_for_asset k a) as [mint|e] eqn:Em; [|eauto].
  destruct (mint_asset a mint Em) as [Ha Hmint].
  assert (u ∈ ids) as Hui by (by apply Husers). assert (u <> bk) as Hne by (by intros ->).
  apply wp_atomically, wp_bind.
  refine (wp_mono _ _ _ _ _ (move_sim t B L mint u bk x R S O Hmint Hui Hb1 ltac:(unfold is_u64 in Hx; lia))).
  intros t1 r. destruct (ledger_transfer L mint u bk x) as [L'|e] eqn:El; [|intros ->; eauto].
  intros (-> & R1 & S1). pose proof (transfer_ok ids L mint u bk x L' O Hmint Hui Hb1 ltac:(apply Hx) El) as O'.
  apply ledger_transfer_moved in El as ->; [|done|done].
  pose proof (credit_spec sha256 users m Hshape Hbook users_fit t1 B u a x R1 Hu Ha ltac:(apply Hx)) as Hs.
  revert Hs. apply wp_mono.
  intros t2 r. destruct (credit_book B u a x) as [B'|e] eqn:Ec; [|intros ->; eauto].
  intros (-> & R2 & Out). apply (ok_credit users m) in Ec as [Hok ->]; [|apply G|done|done|apply Hx].
  do 2 eexists. apply (solvent_moved n t t2 B L u a mint x u bk x); try done.
  - by apply moved_balances.
  - by apply (market_storage t1).
Qed.

Lemma withdraw_runs n t B L u a mint x :
  solvent n t B L -> u ∈ users -> mint_for_asset k a = Ok mint -> 0 < x <= bal B u a ->
  exists t' L', withdraw sha256 m u a x t = (t', Ok tt) /\ solvent n t' (add_bal B u a (- x)) L' /\
    balances L' mint u = balances L mint u + x.
Proof.
  intros V Hu Em Hx. pose proof V as [R G M S O A W]. destruct Hbk as (Hb1 & Hb2 & Hb3).
  destruct (mint_asset a mint Em) as [Ha Hmint].
  assert (u ∈ ids) as Hui by (by apply Husers). assert (bk <> u) as Hne by (by intros <-).
  destruct (total_parts users m B (good_ok _ _ _ _ G) a Ha) as [Hle _]. specialize (Hle u Hu).
  specialize (A a mint Em).
  assert (is_Some (tokens L mint)) as Hsome.
  { destruct (tokens L mint) eqn:E; [done|]. rewrite (lo_none _ _ O mint Hmint E bk Hb1) in A. lia. }
  pose proof (ledger_transfer_moves L mint bk u x Hne ltac:(lia) Hsome ltac:(lia)) as El.
  enough (wp (withdraw sha256 m u a x) t (fun t' r => r = Ok tt /\
    solvent n t' (add_bal B u a (- x)) (moved_tokens L mint bk u x))) as H.
  { unfold wp in H. destruct (withdraw sha256 m u a x t) as [t' r]. cbn in H. destruct H as [-> H].
    do 2 eexists. split; [done|]. split; [done|]. by apply moved_balances. }
  unfold withdraw, fail_if. apply wp_bind. rewrite (proj2 (Z.eqb_neq x 0)) by lia.
  apply wp_ret, wp_bind, (require_market_spec sha256 users m t B); [done|]. rewrite M.
  apply wp_bind, wp_lift. rewrite Em. apply wp_atomically, wp_bind.
  pose proof (debit_spec sha256 users m Hshape Hbook users_fit t B u a x R Hu Ha ltac:(lia)) as Hs.
  revert Hs. apply wp_mono.
  intros t1 r. destruct (debit_book B u a x) as [B'|e] eqn:Ed.
  2:{ unfold debit_book in Ed. by rewrite (proj2 (Z.ltb_ge _ _)) in Ed by lia. }
  intros (-> & R1 & Out). apply (ok_debit users m) in Ed as [Hok ->]; [|apply G|done|done|lia].
  refine (wp_mono _ _ _ _ _ (move_sim t1 _ L mint bk u x R1 (market_storage _ _ _ Out S) O Hmint Hb1 Hui ltac:(lia))).
  intros t2 r. rewrite El. intros (-> & R2 & S2). split; [done|].
  apply (solvent_moved n t t2 B L u a mint (- x) bk u x); try done.
  - destruct (moved_balances L mint bk u x Hne). lia.
  - apply (transfer_ok ids L mint bk u x); try done. lia.
Qed.

Lemma withdraw_step n t B L u a x :
  solvent n t B L -> u ∈ users -> is_u64 x ->
  exists B' L', solvent n (fst (withdraw sha256 m u a x t)) B' L'.
Proof.
  intros V Hu Hx. pose proof V as [R G M S O A W].
  enough (wp (withdraw sha256 m u a x) t (fun t' _ => exists B' L', solvent n t' B' L')) by done.
  destruct (Z.eqb_spec x 0) as [->|H0].
  { unfold withdraw, fail_if. rewrite Z.eqb_refl. apply wp_bind, wp_fail. eauto. }
  destruct (mint_for_asset k a) as [mint|e] eqn:Em.
  - destruct (mint_asset a mint Em) as [Ha _]. destruct (Z.le_gt_cases x (bal B u a)) as [Hle|Hgt].
    + destruct (withdraw_runs n t B L u a mint x V Hu Em ltac:(unfold is_u64 in Hx; lia)) as (t' & L' & E & V' & _).
      unfold wp. rewrite E. eauto.
    + unfold withdraw, fail_if. apply wp_bind. rewrite (proj2 (Z.eqb_neq x 0)) by lia.
      apply wp_ret, wp_bind, (require_market_spec sha256 users m t B); [done|]. rewrite M.
      apply wp_bind, wp_lift. rewrite Em. apply wp_atomically, wp_bind.
      pose proof (debit_spec sha256 users m Hshape Hbook users_fit t B u a x R Hu Ha ltac:(apply Hx)) as Hs.
  revert Hs. apply wp_mono.
      intros t1 r. unfold debit_book. rewrite (proj2 (Z.ltb_lt _ _)) by lia. intros ->. eauto.
  - unfold withdraw, fail_if. apply wp_bind. rewrite (proj2 (Z.eqb_neq x 0)) by lia.
    apply wp_ret, wp_bind, (require_market_spec sha256 users m t B); [done|]. rewrite M.
    apply wp_bind, wp_lift. rewrite Em. eauto.
Qed.

Lemma spots_step ops n t B L :
  solvent n t B L -> Z.of_nat (length ops) <= n -> Forall (spot_op_ok users ids bk) ops ->
  exists B' L', solvent (n - Z.of_nat (length ops)) (run_spots sha256 m t ops) B' L'.
Proof.
  revert n t B L. induction ops as [|op ops IH]; intros n t B L V Hn Hops.
  { exists B, L. by rewrite Z.sub_0_r. }
  apply Forall_cons in Hops as [Hop Hops]. cbn [length] in *.
  assert (exists B1 L1, solvent (n - 1) (run_spot sha256 m t op) B1 L1) as (B1 & L1 & V1).
  { destruct op as [op|u a x|u a x|op]; cbn [run_spot].
    - destruct (book_step n t B L op V ltac:(lia) Hop). eauto.
    - apply (deposit_step _ t B L); [|apply Hop..]. apply (solvent_weaken n); [lia|done].
    - apply (withdraw_step _ t B L); [|apply Hop..]. apply (solvent_weaken n); [lia|done].
    - apply (solvent_weaken n (n - 1)) in V; [|lia]. destruct (token_step _ t B L op V Hop). eauto. }
  destruct (IH (n - 1) _ B1 L1 V1 ltac:(lia) Hops) as (B2 & L2 & V2). exists B2, L2.
  replace (n - Z.of_nat (S (length ops))) with (n - 1 - Z.of_nat (length ops)) by lia. done.
Qed.

(** ** The beginning *)

Lemma opened_solvent t :
  validate_market_config sha256 k = Ok tt ->
  contract_storage t !! bk = None -> contract_storage t !! token_program_account_id = None ->
  exists B, solvent (2 ^ 62 - 1) (fst (create_market sha256 k t)) B empty_ledger.
Proof.
  intros Hv Hb Ht.
  assert (unused sha256 users m t) as Hun
    by (intros s _ _; unfold val, get_storage, book; by rewrite Hb).
  pose proof (create_market_spec sha256 users m Hshape Hbook users_fit t k Hcodec Hun Hfits eq_refl Hv) as H.
  pose proof (create_market_confined sha256 m k eq_refl t) as Out. unfold wp in H, Out.
  exists (open_book sha256 m t k). split; try done.
  - apply H.
  - apply open_good.
  - apply (market_storage t); [exact Out|]. by apply empty_ledger_spells.
  - intros a mint _. unfold total. cbn. rewrite map_to_list_empty. cbn.
    assert ((fun u => free_balance sha256 t m u a) <$> elements users = (fun _ => 0) <$> elements users) as ->.
    { apply list_fmap_ext. intros i u _. unfold free_balance, slot_u64, get_storage. by rewrite Hb. }
    rewrite Zsum_nil. rewrite Zsum_map_const. lia.
Qed.

(** ** Funds can be taken out *)

Lemma solvent_balance n t B L a mint :
  solvent n t B L -> mint_for_asset k a = Ok mint -> total users B a <= balance_of sha256 t mint bk <= u64_max.
Proof.
  intros V Em. destruct (mint_asset a mint Em) as [_ Hmint]. destruct Hbk as (Hb & _).
  assert (balance_of sha256 t mint bk = balances L mint bk) as -> by exact (sp_balance _ _ _ _ (sv_ledger _ _ _ _ V) mint bk Hmint Hb).
  split; [by apply (sv_backed _ _ _ _ V)|]. apply (lo_balance _ _ (sv_ok _ _ _ _ V)); done.
Qed.

Lemma solvent_withdraws n t B L u a mint x :
  solvent n t B L -> u ∈ users -> mint_for_asset k a = Ok mint -> 0 < x <= free_balance sha256 t m u a ->
  exists t2, withdraw sha256 m u a x t = (t2, Ok tt) /\
    balance_of sha256 t2 mint u = balance_of sha256 t mint u + x /\
    free_balance sha256 t2 m u a = free_balance sha256 t m u a - x.
Proof.
  intros V Hu Em Hx. destruct (mint_asset a mint Em) as [Ha Hmint].
  assert (u ∈ ids) as Hui by (by apply Husers).
  rewrite (rep_bal _ _ _ _ _ (sv_book _ _ _ _ V) u a Hu Ha) in Hx |- *.
  destruct (withdraw_runs n t B L u a mint x V Hu Em Hx) as (t2 & L2 & E & V2 & Eb).
  exists t2. split; [done|]. split.
  - etrans; [exact (sp_balance _ _ _ _ (sv_ledger _ _ _ _ V2) mint u Hmint Hui)|]. rewrite Eb. f_equal.
    symmetry. exact (sp_balance _ _ _ _ (sv_ledger _ _ _ _ V) mint u Hmint Hui).
  - rewrite (rep_bal _ _ _ _ _ (sv_book _ _ _ _ V2) u a Hu Ha). cbn. rewrite decide_True by done. lia.
Qed.

Lemma solvent_cancels n t B L id o :
  solvent n t B L -> 1 <= n -> orders B !! id = Some o -> 0 < remaining_quantity o ->
  exists t2, run_op sha256 m t (CancelOp (order_owner o) id) = (t2, AnswerCancelled (set_fill o 0 Cancelled)).
Proof.
  intros V Hn Ho Hr. pose proof V as [R G M S O A W]. pose proof (good_ok _ _ _ _ G) as H.
  destruct (ok_order _ _ B H id o Ho) as (Ei & (_ & _ & Hf) & _).
  assert (is_u64 id) as Hid by (rewrite <-Ei; apply Hf).
  assert (forall a, is_asset a -> total users B a <= u64_max) as Hmax.
  { intros a Ha. assert (exists mint, mint_for_asset k a = Ok mint) as [mint Em] by (destruct Ha as [-> | ->]; by eexists).
    pose proof (solvent_balance n t B L a mint V Em). lia. }
  destruct (cancel_open users m B id o H Hmax Ho Hr) as [B' E].
  pose proof (run_op_sim users m users_fit market_fit sha256 Hshape Hbook Hcodec t B n (CancelOp (order_owner o) id)
    R G Hn Hid) as Hs. cbn [spec_op] in Hs. rewrite E in Hs.
  destruct (run_op sha256 m t _) as [t2 x]. destruct Hs as [-> _]. by eexists.
Qed.
End solvency.

(** C31. A market is solvent.  From an empty market and an empty token ledger on,
    after any sequence of deposits, withdrawals, orders and cancellations of the
    users of the market and any token operations of others, the account of the
    book holds at least as many tokens of each asset as the market owes in free
    and locked collateral.  So every user can withdraw any part of a free balance,
    the tokens arrive, and the owner of an open order can cancel it.  Assumed: no
    two slots of the market or of the ledger collide, and the account of the book
    is not a user and signs nothing. *)
Theorem market_solvent sha256 (C : LiquidCodec) users ids k t ops :
  let m := market_id k in
  let bk := market_book_id sha256 m in
  digest_shape sha256 -> book_apart sha256 users m -> token_apart sha256 ids ->
  (forall x, x ∈ ids -> is_u256 x) -> users ⊆ ids -> codec_ok C -> market_fits k ->
  base_mint k ∈ ids -> quote_mint k ∈ ids -> bk ∈ ids -> bk ∉ users -> bk <> token_program_account_id ->
  validate_market_config sha256 k = Ok tt ->
  contract_storage t !! bk = None -> contract_storage t !! token_program_account_id = None ->
  Forall (spot_op_ok users ids bk) ops -> Z.of_nat (length ops) < 2 ^ 61 ->
  let t' := run_spots sha256 m (fst (create_market sha256 k t)) ops in
  exists B, represents sha256 users m t' B /\
    (forall a mint, mint_for_asset k a = Ok mint ->
       total users B a <= balance_of sha256 t' mint bk <= u64_max) /\
    (forall u a mint x, u ∈ users -> mint_for_asset k a = Ok mint ->
       0 < x <= free_balance sha256 t' m u a ->
       exists t2, withdraw sha256 m u a x t' = (t2, Ok tt) /\
         balance_of sha256 t2 mint u = balance_of sha256 t' mint u + x /\
         free_balance sha256 t2 m u a = free_balance sha256 t' m u a - x) /\
    (forall id o, orders B !! id = Some o -> 0 < remaining_quantity o ->
       exists t2, run_op sha256 m t' (CancelOp (order_owner o) id) =
         (t2, AnswerCancelled (set_fill o 0 Cancelled))).
Proof.
  intros m bk Hshape Hbook Htoken Hids Husers Hcodec Hfits Hbase Hquote Hb1 Hb2 Hb3 Hv Hnone Hnone' Hops Hlen t'.
  assert (base_mint k <> quote_mint k) as Hne
    by (unfold validate_market_config in Hv; by destruct (Z.eqb_spec (base_mint k) (quote_mint k))).
  pose proof (conj Hbase (conj Hquote Hne)) as Hmints. pose proof (conj Hb1 (conj Hb2 Hb3)) as Hbk.
  destruct (opened_solvent sha256 users ids k Hshape Hbook Hids Husers Hcodec Hfits Hbk t Hv Hnone Hnone') as [B0 V0].
  destruct (spots_step sha256 users ids k Hshape Hbook Htoken Hids Husers Hcodec Hfits Hmints Hbk ops _ _ B0 _ V0
    ltac:(lia) Hops) as (B & L & V).
  exists B. split_and!.
  - apply V.
  - intros a mint. by eapply solvent_balance.
  - intros u a mint x. by eapply solvent_withdraws.
  - intros id o. eapply solvent_cancels; try done. lia.
Qed.

Module SampleSpot.
Import SampleBook.
(** One hash for the slots of the market and one for those of the ledger. *)
Definition spot_sha (l : list Z) : list Z :=
  if bool_decide (take 4 l = ascii_bytes "ace-") then SampleBook.sha l else SampleToken.sha l.

Lemma spot_shape : digest_shape spot_sha.
Proof. intros l. unfold spot_sha. case_bool_decide; [apply book_shape|apply SampleToken.sha_shape]. Qed.

Lemma spot_book_apart : book_apart spot_sha users m.
Proof.
  assert (forall s, spot_sha (book_message m s) = SampleBook.sha (book_message m s)) as E
    by (intros s; unfold spot_sha; rewrite bool_decide_true; [done|];
        destruct s as [[[]|h| |]|id|id|id idx|u x| | |side p|id| | |idx]; reflexivity).
  intros a b Ha Hb. rewrite !E. by apply book_sha_apart.
Qed.

Definition bk : AccountId := Eval vm_compute in market_book_id spot_sha m.
Definition ids : gset AccountId := Eval vm_compute in {[ 1; 2; 7; 8; bk ]}.

Lemma spot_ids_fit x : x ∈ ids -> is_u256 x.
Proof.
  intros H%elem_of_elements. revert H. apply Forall_forall. apply (bool_decide_unpack _).
  vm_compute. exact I.
Qed.

Lemma spot_token_apart : token_apart spot_sha ids.
Proof. apply NoDup_collision_free, (bool_decide_unpack _). vm_compute. exact I. Qed.

(** Each user gets one of the two tokens, deposits it and trades. *)
Definition ops : list SpotOp :=
  [SpotToken (OpCreateMint 7 6 2); SpotToken (OpMintTo 7 2 100 2);
   SpotToken (OpCreateMint 8 6 1); SpotToken (OpMintTo 8 1 1000 1);
   SpotDeposit 2 ASSET_BASE 60; SpotDeposit 1 ASSET_QUOTE 500; SpotDeposit 1 ASSET_BASE 5;
   SpotBook (sell 5 10); SpotBook (PlaceOp (buy_request 5 4))].

Lemma spot_ops_ok : Forall (spot_op_ok users ids bk) ops.
Proof.
  assert (forall x, bool_decide (x ∈ ids) = true -> x ∈ ids) as Hin by (intros x; apply bool_decide_eq_true_1).
  assert (1 ∈ users /\ 2 ∈ users) as [H1 H2] by (unfold users; set_solver).
  unfold ops. rewrite !Forall_cons.
  split_and!; cbn [token_op_ok spot_op_ok]; unfold is_byte, is_u64, u64_max; split_and?;
    try (by apply Hin); try lia; try done.
  1,2: exists 2. 3,4: exists 1. all: split_and!; try done; by apply Hin.
Qed.
End SampleSpot.

#[local] Existing Instance SampleBook.codec.
Lemma market_solvent_witness :
  let t' := run_spots SampleSpot.spot_sha SampleBook.m
    (fst (create_market SampleSpot.spot_sha SampleBook.spot state_new)) SampleSpot.ops in
  free_balance SampleSpot.spot_sha t' SampleBook.m 2 ASSET_QUOTE = 20 /\
  exists t2, withdraw SampleSpot.spot_sha SampleBook.m 2 ASSET_QUOTE 20 t' = (t2, Ok tt) /\
    balance_of SampleSpot.spot_sha t2 8 2 = 20.
Proof.
  intros t'.
  assert (free_balance SampleSpot.spot_sha t' SampleBook.m 2 ASSET_QUOTE = 20) as Ef by (vm_compute; reflexivity).
  split; [exact Ef|].
  destruct (market_solvent SampleSpot.spot_sha SampleBook.codec SampleBook.users SampleSpot.ids SampleBook.spot
    state_new SampleSpot.ops SampleSpot.spot_shape SampleSpot.spot_book_apart SampleSpot.spot_token_apart
    SampleSpot.spot_ids_fit) as (B & _ & _ & H & _).
  - apply (bool_decide_unpack _). vm_compute. exact I.
  - exact SampleBook.codec_correct.
  - exact SampleBook.spot_fits.
  - apply (bool_decide_unpack _). vm_compute. exact I.
  - apply (bool_decide_unpack _). vm_compute. exact I.
  - apply (bool_decide_unpack _). vm_compute. exact I.
  - apply (bool_decide_unpack _). vm_compute. exact I.
  - apply (bool_decide_unpack _). vm_compute. exact I.
  - vm_compute. reflexivity.
  - vm_compute. reflexivity.
  - vm_compute. reflexivity.
  - exact SampleSpot.spot_ops_ok.
  - vm_compute. reflexivity.
  - destruct (H 2 ASSET_QUOTE 8 20) as (t2 & E & Eb & _).
    + apply (bool_decide_unpack _). vm_compute. exact I.
    + reflexivity.
    + split; [lia|]. refine (Z.eq_le_incl _ _ (eq_sym Ef)).
    + exists t2. split; [exact E|]. refine (eq_trans Eb _). vm_compute. reflexivity.
Defined.
